(* ===== verification/_CoqProject ===== *)
-Q . S2P
Prelude.v
Threads.v
Slock.v
Marshall.v
Protocols.v
Stubs.v
RpcServer.v
ThrPool.v
RpcClient.v
Poll.v
Connection.v
Endpoint.v
Extent.v
Session.v
RpcSystem.v
Streams.v
Sockaddr.v
RpcTest.v
RpcTestThreads.v
Paxos.v
PaxosLog.v
PaxosSafety.v
Handle.v
Config.v
Rsm.v
Primary.v
ViewChange.v
RsmClient.v
LockServerRsm.v
LockClientRsm.v
LockService.v
LockTester.v
RsmTester.v
Yfs.v
YfsSpec.v
Fuse.v
FuseSpec.v
FuseMain.v
LockServer.v
LockCache.v
FsTester.v
FsLogic.v
FsTests.v
