(* ===== verification/Prelude.v ===== *)
(** * A verification of the Distributed-System-Lab sources

    The repository is a small distributed file system and the services under
    it: an RPC library, Paxos, a replicated state machine, a replicated lock
    service with caching clients, an extent service and a FUSE client.  This
    library models its C++ code in Rocq, function by function, and proves what
    makes each part correct.  This file holds what the other files share:
    the monad of code that can abort, machine integers, bytes and strings,
    and [std::map]'s [operator\[\]].

    ** The parts and the files

    - Threads.v: [method_thread] (rpc/method_thread.h); Slock.v: scoped locks
      (rpc/slock.h, slock.h).
    - Marshall.v: [marshall] and [unmarshall] (rpc/marshall.h, the operators
      in rpc/rpc.cc): a growing buffer, one [put]/[get] pair per C++ type.
      The class [MarshalOk] says that a type's [get] inverts its [put]; the
      scalars, strings, vectors and maps are instances.
    - Protocols.v: the protocol headers, their constants and structures
      (paxos_protocol.h, rsm_protocol.h, lock_protocol.h, extent_protocol.h),
      the order of proposal numbers, their [MarshalOk] instances, and the round
      trip of whole messages.
    - Stubs.v: the templates [rpcs::reg], [rpcc::call] (rpc/rpc.h),
      [rsm::reg] (rsm.h) and [rsm_client::call] (rsm_client.h).
    - RpcServer.v: [rpcs] (rpc/rpc.cc): the window of replies that gives
      at-most-once execution, [dispatch], and the reference counts of
      connections.
    - ThrPool.v: [fifo] and [ThrPool] (rpc/fifo.h, rpc/thr_pool.cc).
    - RpcClient.v: [rpcc] (rpc/rpc.cc): deadlines, the loop of [call1], the
      window of answered transactions.
    - Poll.v: the poll manager (rpc/pollmgr.cc): both implementations of
      [aio_mgr] behind the class [AioMgr], with [AioMgrOk] as their contract,
      the table of callbacks and the loop of the poll thread.
    - Connection.v: [connection] (rpc/connection.cc): reading and writing of
      PDUs, [send] and the callbacks, over any [AioMgr]; two connections and
      the stream between them.
    - Endpoint.v: a server endpoint, that is the listener [tcpsconn]
      (rpc/connection.cc), [rpcs::got_pdu], the pool and [dispatch], which
      share connections, and the destructor of [rpcs].
    - Streams.v: the iostream operations that log.cc, config.cc and
      yfs_client.cc use.
    - Paxos.v: [acceptor] and [proposer] (paxos.cc) with the log (log.cc);
      PaxosLog.v: recovery from the log; PaxosSafety.v: a cluster of
      acceptors and proposers as a step relation, and agreement.
    - Handle.v: the cache of RPC clients (handle.cc).
    - Config.v: the views of the group and the heartbeats (config.cc).
    - Rsm.v: the replicated state machine (rsm.cc, rsm.h); RsmClient.v: its
      client (rsm_client.cc); Primary.v: which node is the primary after a
      sequence of views; ViewChange.v: the replicas, configurations,
      proposers, acceptors and logs of all nodes of a cluster together, as
      nodes start on empty or old disks, join, crash and are removed.  The class [StateTransfer] is the C++ interface
      [rsm_state_transfer], [StateTransferOk] what the state machine relies
      on.
    - LockServerRsm.v: the replicated lock server (lock_server_cache_rsm.cc),
      an instance of both classes; LockClientRsm.v: the caching client
      (lock_client_cache_rsm.cc), and the system of clients and server.
    - Extent.v: the extent server and its caching client
      (extent_server.cc, extent_client.cc).
    - Yfs.v: the file system operations (yfs_client.cc, yfs_lock.h);
      YfsSpec.v: an abstract file system, which they implement; Fuse.v: the
      callbacks of the FUSE library, FuseSpec.v: what they show of the
      abstract file system, FuseMain.v: their main program (fuse.cc).
    - LockServer.v: the lock service of lab 1 (lock_server.cc,
      lock_client.cc); LockCache.v: the caching one of lab 4
      (lock_server_cache.cc, lock_client_cache.cc).
    - Session.v: a client and a server put together from all the parts of the
      RPC library, and the extent service (extent_smain.cc) on top of them.
    - RpcSystem.v: any number of clients, a network that loses, repeats and
      reorders packets, and a server whose handlers overlap, as a step
      relation over the code of both sides.
    - Sockaddr.v: addresses and listening sockets ([make_sockaddr] in
      rpc/rpc.cc, the constructor of [tcpsconn]), and the names of lock
      clients (lock_client_cache_rsm.cc).
    - LockService.v: the lock server program (lock_smain.cc), and a group of
      them called through [rsm_client] as one service.
    - The testers, as programs over the systems above: RpcTest.v and
      RpcTestThreads.v (rpc/rpctest.cc), LockTester.v (lock_tester.cc),
      RsmTester.v (rsm_tester.cc, rsmtest_client.cc), FsTester.v
      (test-lab-3-b.c, test-lab-3-c.c) over any file system that is an
      instance of the class [Coherent]; FsLogic.v is a logic of processes that
      share a file system, FsTests.v the proofs of the tests in it.

    ** How code is modelled

    A struct or class is a record with the source's fields; a method is a
    function from the state to a result and a state, with every branch of the
    source.  A method that waits, or that gives up its mutex around a call,
    is cut there into several functions, and the theorems quantify over all
    interleavings of the pieces (step relations in RpcServer.v, ThrPool.v,
    RpcClient.v, Poll.v, Connection.v, Endpoint.v, RpcSystem.v, Threads.v,
    PaxosSafety.v, Handle.v, Slock.v, LockServerRsm.v, LockClientRsm.v, LockServer.v,
    LockCache.v).  What a method does between two such points, under its
    mutex, is one step: [scopes_are_atomic] shows that nothing is lost by
    that.  A tester is a tree of calls ([prog] in FsTester.v and
    RpcTestThreads.v) or a list of instructions (LockTester.v) whose threads
    run over such a relation.
    Code that can abort returns [res]: [Ret], or [Fail] with the reason.
    Values that come from outside (the clock, [random()], the answer of a
    remote call, uninitialised memory that is read) are arguments.  Calls to
    other nodes are functions of a world type [W], so the theorems hold for
    every behaviour of the network that their hypotheses allow; the witnesses
    instantiate them.

    Integers are [Z] with the reductions [u8] ... [s32] where the width
    matters; [size_t] is the 32-bit [unsigned] of the build the code was
    written for, and buffers are taken below 2^30 bytes ([fits]) where the
    32-bit sizes of the marshaller would overflow.  Fuel appears in
    [show_digits] (20 digits hold any 64-bit number), in [words] and
    [members_loop] (a word takes at least one character), in [setsize_pad]
    (one byte per turn), in [new_high] and [collect_ready] (one turn per
    descriptor), in [kernel_list] (an entry takes at least one byte) and in
    the loops of [call1] and [rsm_client::invoke],
    which run over a given list or number of turns: [call1_returns] shows that
    nine turns suffice for valid deadlines, [invoke_answers] that two more than the primary's busy
    answers do.

    ** What the theorems show

    - Wire format: every message made of scalars, strings, vectors and
      protocol structures is read back as it was written, headers included
      ([marshal_roundtrip], [req_header_roundtrip]); a call through
      the stubs is a local call ([rpc_transparent]); reading raw bytes stays
      inside the buffer when its length check does not wrap
      ([u_rawbytes_memory_safe]).
    - RPC: a request is executed at most once and duplicates get the recorded
      reply ([at_most_once], [checkduplicate_answers],
      [dispatch_refines_amo]); references to connections balance
      ([dispatch_references]); the client's acknowledgement is the longest
      prefix of answered transactions ([xid_rep_is_contiguous],
      [client_acknowledges_finished]); [call1] returns by its deadline when
      that is a valid time ([call1_returns]), as it is for time-outs of whole
      seconds, and may spin when it is not ([bad_deadline_spins]); a client can be cancelled and deleted
      ([cancelled_client_is_deleted]); the pool runs every job
      ([pool_drains]).
    - Threads: scopes that are guarded by a [ScopedLock] behave as if they ran
      whole, one at a time, leave the mutex free, and can always be finished
      ([scopes_are_atomic]).
    - Connections: PDUs arrive whole and in order ([link_delivers]), and
      which announced sizes are safe ([readpdu_memory_safe]); the two
      implementations of polling watch the same descriptors and report the
      same ones, and differ in [is_watched] ([select_epoll_agree]), [select]
      misses nothing ([select_reports]), a descriptor that was removed is not
      called again and the thread that removes it is woken
      ([removed_fd_never_called], [waiting_remover_is_woken]); the references
      of listener, queue and table add up ([endpoint_references],
      [accept_collects]) unless the server is made unreachable between the two
      reads in [got_pdu] ([race_breaks_references]), but a server that is deleted keeps those of its
      table ([deleted_server_keeps_connections]).
    - All of RPC together: whatever the network does, a request is executed at
      most once and a call returns the outcome of that execution, or a failure
      of a request that is never executed ([rpc_at_most_once]); when
      no call gives up, no call fails ([patient_calls_succeed]) and at most
      three more steps complete one that waits ([rpc_can_complete]), but a time-out of one call can make another fail
      ([timeout_makes_other_call_fail]); the calls a client makes to a started
      extent server are answered like a map, as long as the packets are within
      [MAX_PDU] ([extent_service_end_to_end]).
    - Addresses: which host names fit the buffer of [make_sockaddr]
      ([make_sockaddr_host_bound]); a lock client is called back at the
      address it sent ([client_id_is_dialled]).
    - Testers: of the test of the RPC library, the marshalling test and the
      simple calls pass ([simple_tests_pass]), so do the calls of
      [failure_test] ([failure_test_passes]), and the threads in every
      interleaving ([rpctest_threads_pass]); the lock tester never sees a lock
      granted twice, under the conditions of [lock_service_exclusion]
      ([lock_tester_passes]); on a coherent file system every run of the file
      system testers ends with success ([test_lab_3_b_passes],
      [test_lab_3_c_passes]), although two of their checks are too weak
      ([check1_accepts_wrong_tail], [dircheck_overflows]); each thread started
      by [method_thread] makes the call it was given ([method_threads_run]).
    - Paxos: in a group that goes through its instances, two values decided
      for an instance are equal as long as a node handles no accept request of
      an instance it has passed and no prepare or accept request of one whose
      predecessor it has not learned ([agreement]; [decide_never_aborts] for
      the assertion of [decidereq]), and not otherwise
      ([stale_accept_breaks_agreement], [early_accept_breaks_agreement]); an acceptor recovers its promises
      and values from its log ([acceptor_recovers]).
    - Views and replication: with a majority up, joins (of new nodes and of
      ones that return with their old disks) and removals, one at a time,
      complete at every member, which then are in the same view
      ([membership_changes_complete]; [proposed_view_is_installed],
      [view_change_installs] for the parts); nodes that went through the views
      have the same primary, the first of the list and not the lowest one
      ([primary_not_lowest]), and which one a node that joins has
      ([primary_heads_view]); a failed member is removed
      ([heartbeat_removes]); a request keeps replicas equal
      ([request_keeps_replicas]); the primary waits for its backups
      ([sync_waits_for_all]); the state is in fact never transferred
      ([state_never_transferred]); a group of lock servers answers as one
      ([lock_service_replicated]).
    - Locks: no two threads of any clients hold a lock, when the clients have
      different nonces and the increments of [xid], which the code makes
      outside the mutex, do not overlap in a client
      ([lock_service_exclusion], [mutual_exclusion]); otherwise they can
      ([lost_update_breaks_exclusion]); a lock that is waited
      for changes hands ([lock_handoff]); a replica that joins agrees with
      the server it copied ([transferred_replica_agrees]); the services of
      the earlier labs exclude too ([lab1_exclusion], [cache_exclusion]).
    - Files: the operations of the client, but for a [setsize] that makes a
      file grow, are those of a file system of bytes and directories
      ([yfs_refines_afs]), and its directories are a tree
      ([directories_form_a_tree]); the extent server is a map and the cache over it transparent
      ([extent_server_correct], [extent_cache_transparent],
      [flush_publishes]); files read back what was written
      ([write_then_read]), directories list what was created and not
      unlinked ([created_file_is_found], [unlink_removes_files]), every access is
      under its lock ([lock_discipline]); [setsize] pads wrongly
      ([setsize_pads_half]) and nothing reaches the extent server
      ([writes_never_reach_server]).
    - FUSE: the kernel's requests are operations of the abstract file system,
      down to the extents ([fuse_refines_afs]), again but for a file that is
      made to grow; every request is answered once and with a reply of its
      kind, whatever the extent server answers
      ([every_request_answered], [replies_have_kind]); a directory is listed
      completely ([readdir_lists]); what was created is looked up
      ([create_then_lookup]); the exit status of the program and what it
      leaves mounted ([fuse_main_status], [fuse_main_unmounts]).

    ** What is not modelled

    What the operating system does is an argument of the models: system calls
    return any value their documentation allows.  The layout of a directory
    entry belongs to the FUSE library and is a parameter of Fuse.v, as
    [inet_addr] and [gethostbyname] are of Sockaddr.v.  Not modelled are the
    logging and timing helpers (jsl_log, tprintf.h, and gettime.cc, a clock for
    another operating system), the copy handle_lab5.cc of handle.cc (it
    differs in a time-out), and the server program of lab 5.  The losses that
    RPC_LOSSY makes up are those of the network of RpcSystem.v.  Of rpctest.cc
    the order in which main runs its parts, and the servers and clients it
    deletes and makes anew, are left out.  The models of yfs_client.cc and
    fuse.cc take it that the lock client gets every lock it asks for: when the
    call to the lock server fails, the lock client aborts the process.  The memory of buffers is
    modelled where the code can misuse it (marshalling, PDUs, directory
    entries), not for every [malloc]. *)

From stdpp Require Export prelude gmap strings list sorting.
From Stdlib Require Export ZArith Lia ZifyBool.
From Stdlib Require Export Ascii.

#[global] Open Scope Z_scope.

(** ** Outcomes of code that can abort *)

(** [VerifyFailed] is a [VERIFY] (lang/verify.h) whose condition is false;
    [UndefinedBehaviour] is a use the C++ standard gives no meaning to (an
    end iterator read through, the first element of an empty vector, a call
    through a null pointer); [Exited] is a call of [exit]. *)
Inductive failure := VerifyFailed | UndefinedBehaviour | Exited.

Inductive res (A : Type) :=
| Ret (a : A)
| Fail (e : failure).
Arguments Ret {A} a.
Arguments Fail {A} e.

(** The error monad.  Its notations live in [res_scope]. *)
Definition rbind {A B} (x : res A) (f : A → res B) : res B :=
  match x with Ret a => f a | Fail e => Fail e end.
Definition rmap {A B} (f : A → B) (x : res A) : res B :=
  match x with Ret a => Ret (f a) | Fail e => Fail e end.

Declare Scope res_scope.
Delimit Scope res_scope with res.
Notation "x ← y ; z" := (rbind y (λ x : _, z))
  (at level 20, y at level 100, z at level 200, only parsing) : res_scope.
Notation "' x ← y ; z" := (rbind y (λ x : _, z))
  (at level 20, x pattern, y at level 100, z at level 200, only parsing) : res_scope.
Notation "x ;; z" := (rbind x (λ _, z))
  (at level 100, z at level 200, only parsing, right associativity) : res_scope.
#[global] Open Scope res_scope.

#[export] Instance failure_eq_dec : EqDecision failure.
Proof. intros x y. unfold Decision. decide equality. Defined.

(** [VERIFY(b)]: both branches of the macro abort the process. *)
Definition VERIFY (b : bool) : res () := if b then Ret () else Fail VerifyFailed.

(** [abort_free x]: the computation [x] runs to its end. *)
Definition abort_free {A} (x : res A) : Prop := ∃ a, x = Ret a.

Lemma rbind_Ret {A B} (x : res A) (f : A → res B) b :
  rbind x f = Ret b ↔ ∃ a, x = Ret a ∧ f a = Ret b.
Proof. destruct x; cbn; split; [by eauto|by intros (? & [= ->] & ?)|done|by intros (? & ? & ?)]. Qed.

Lemma VERIFY_true b : b = true → VERIFY b = Ret ().
Proof. by intros ->. Qed.

Lemma VERIFY_Ret b : VERIFY b = Ret () ↔ b = true.
Proof. by destruct b. Qed.

(** ** Machine integers *)

(** Unsigned and signed two's complement reductions at the widths the code
    uses ([unsigned char], [unsigned short], [unsigned], [unsigned long long],
    [char], [short], [int]). *)
Definition u8 (x : Z) : Z := x mod 2 ^ 8.
Definition u16 (x : Z) : Z := x mod 2 ^ 16.
Definition u32 (x : Z) : Z := x mod 2 ^ 32.
Definition u64 (x : Z) : Z := x mod 2 ^ 64.
Definition s8 (x : Z) : Z := (x + 2 ^ 7) mod 2 ^ 8 - 2 ^ 7.
Definition s16 (x : Z) : Z := (x + 2 ^ 15) mod 2 ^ 16 - 2 ^ 15.
Definition s32 (x : Z) : Z := (x + 2 ^ 31) mod 2 ^ 32 - 2 ^ 31.

Definition in_u8 (x : Z) : Prop := 0 ≤ x < 2 ^ 8.
Definition in_u16 (x : Z) : Prop := 0 ≤ x < 2 ^ 16.
Definition in_u32 (x : Z) : Prop := 0 ≤ x < 2 ^ 32.
Definition in_u64 (x : Z) : Prop := 0 ≤ x < 2 ^ 64.
Definition in_s16 (x : Z) : Prop := - 2 ^ 15 ≤ x < 2 ^ 15.
Definition in_s32 (x : Z) : Prop := - 2 ^ 31 ≤ x < 2 ^ 31.

(** [wrap_lia] unfolds the reductions and the ranges and decides the linear
    goal that is left. *)
Ltac wrap_unfold :=
  unfold u8, u16, u32, u64, s8, s16, s32, in_u8, in_u16, in_u32, in_u64, in_s16, in_s32 in *;
  change (2 ^ 7) with 128 in *; change (2 ^ 8) with 256 in *;
  change (2 ^ 15) with 32768 in *; change (2 ^ 16) with 65536 in *;
  change (2 ^ 31) with 2147483648 in *; change (2 ^ 32) with 4294967296 in *;
  change (2 ^ 64) with 18446744073709551616 in *.
Ltac wrap_lia := wrap_unfold; Z.div_mod_to_equations; lia.

Lemma u8_id x : in_u8 x → u8 x = x. Proof. intros. wrap_lia. Qed.
Lemma u16_id x : in_u16 x → u16 x = x. Proof. intros. wrap_lia. Qed.
Lemma u32_id x : in_u32 x → u32 x = x. Proof. intros. wrap_lia. Qed.
Lemma u64_id x : in_u64 x → u64 x = x. Proof. intros. wrap_lia. Qed.
Lemma s16_id x : in_s16 x → s16 x = x. Proof. intros. wrap_lia. Qed.
Lemma s32_id x : in_s32 x → s32 x = x. Proof. intros. wrap_lia. Qed.
Lemma u32_range x : in_u32 (u32 x). Proof. wrap_lia. Qed.
Lemma s32_range x : in_s32 (s32 x). Proof. wrap_lia. Qed.
Lemma s32_u32 x : s32 (u32 x) = s32 x. Proof. wrap_lia. Qed.
Lemma u32_s32 x : u32 (s32 x) = u32 x. Proof. wrap_lia. Qed.
Lemma s16_u16 x : s16 (u16 x) = s16 x. Proof. wrap_lia. Qed.
Lemma u16_s16 x : u16 (s16 x) = u16 x. Proof. wrap_lia. Qed.

(** Facts about reductions that hold without looking at the number. *)
Create HintDb machine.
#[export] Hint Resolve u32_range s32_range : machine.

(** A byte lane of an integer, as the shift-and-mask expressions compute it. *)
Lemma land_255 x : Z.land x 255 = x mod 256.
Proof. change 255 with (Z.ones 8). by rewrite Z.land_ones by lia. Qed.

Lemma lane x n : 0 ≤ n → Z.land (Z.shiftr x n) 255 = (x / 2 ^ n) mod 256.
Proof. intros. by rewrite land_255, Z.shiftr_div_pow2. Qed.

(** A disjoint [or] is a sum: [(a << n) | b] with [b] below [2^n]. *)
Lemma lor_shiftl_add a b n :
  0 ≤ n → 0 ≤ b < 2 ^ n → Z.lor (Z.shiftl a n) b = a * 2 ^ n + b.
Proof.
  intros Hn Hb. rewrite <- Z.shiftl_mul_pow2 by done.
  rewrite Z.add_nocarry_lxor, <- Z.lxor_lor; [done| |];
    apply Z.bits_inj'; intros i Hi; rewrite Z.land_spec, Z.bits_0;
    destruct (decide (i < n)).
  1,3: by rewrite Z.shiftl_spec_low by lia.
  all: rewrite <- (Z.mod_small b (2 ^ n)) by done;
    rewrite Z.mod_pow2_bits_high by lia; by rewrite andb_false_r.
Qed.

(** ** Bytes *)

Definition byte_of (x : Z) : ascii := ascii_of_N (Z.to_N (x mod 256)).
Definition byte_val (c : ascii) : Z := Z.of_N (N_of_ascii c).

Lemma byte_val_range c : 0 ≤ byte_val c < 256.
Proof. unfold byte_val. pose proof (N_ascii_bounded c). lia. Qed.

Lemma byte_val_of x : byte_val (byte_of x) = x mod 256.
Proof.
  unfold byte_val, byte_of.
  pose proof (Z.mod_pos_bound x 256 ltac:(lia)).
  rewrite N_ascii_embedding by lia. lia.
Qed.

Lemma byte_of_val c : byte_of (byte_val c) = c.
Proof.
  unfold byte_of. rewrite Z.mod_small by apply byte_val_range.
  unfold byte_val. rewrite N2Z.id. apply ascii_N_embedding.
Qed.

(** ** std::string *)

(** A [std::string] is a [string]; a [char] buffer is a [list ascii]. *)
Abbreviation chars := String.list_ascii_of_string.
Abbreviation of_chars := String.string_of_list_ascii.

Definition string_size (s : string) : Z := Z.of_nat (String.length s).

Lemma length_chars s : length (chars s) = String.length s.
Proof. induction s; simpl; congruence. Qed.

Lemma length_of_chars l : String.length (of_chars l) = length l.
Proof. induction l; simpl; congruence. Qed.

Lemma chars_app s t : chars (s +:+ t) = chars s ++ chars t.
Proof.
  induction s as [|c s IH]; [done|].
  change (c :: chars (s +:+ t) = c :: chars s ++ chars t). by rewrite IH.
Qed.


Lemma chars_of_chars l : chars (of_chars l) = l.
Proof. apply String.list_ascii_of_string_of_list_ascii. Qed.

Lemma of_chars_chars s : of_chars (chars s) = s.
Proof. apply String.string_of_list_ascii_of_string. Qed.

Lemma of_chars_app l k : of_chars (l ++ k) = of_chars l +:+ of_chars k.
Proof.
  rewrite <- (of_chars_chars (of_chars l +:+ of_chars k)).
  by rewrite chars_app, !chars_of_chars.
Qed.

#[export] Instance chars_inj : Inj (=) (=) chars.
Proof. intros s t H. by rewrite <- (of_chars_chars s), H, of_chars_chars. Qed.

(** Characters and strings, one way. *)
Create Rewrite HintDb chars.
#[export] Hint Rewrite length_chars length_of_chars chars_app chars_of_chars of_chars_chars : chars.

(** [operator>] and friends on [std::string]: lexicographic on unsigned bytes. *)
Definition string_gt (a b : string) : bool :=
  match String.compare a b with Gt => true | _ => false end.
Definition string_ge (a b : string) : bool :=
  match String.compare a b with Lt => false | _ => true end.

Lemma string_compare_spec a b :
  match String.compare a b with
  | Eq => a = b
  | Lt => string_gt b a = true
  | Gt => string_gt a b = true
  end.
Proof.
  unfold string_gt. rewrite (String.compare_antisym b a).
  destruct (String.compare a b) eqn:E; [|done..].
  by apply String.compare_eq_iff.
Qed.

Lemma string_compare_refl a : String.compare a a = Eq.
Proof. pose proof (String.compare_antisym a a). by destruct (String.compare a a). Qed.

Lemma string_gt_irrefl a : string_gt a a = false.
Proof. unfold string_gt. by rewrite string_compare_refl. Qed.

Lemma string_gt_cons c d s t :
  string_gt (String c s) (String d t) = true ↔
  (N_of_ascii d < N_of_ascii c)%N ∨ c = d ∧ string_gt s t = true.
Proof.
  unfold string_gt; simpl. unfold Ascii.compare.
  destruct (N.compare_spec (N_of_ascii c) (N_of_ascii d)) as [H|H|H].
  - assert (c = d) as <-.
    { by rewrite <- (ascii_N_embedding c), H, ascii_N_embedding. }
    split; [naive_solver|]. intros [?|[_ ?]]; [lia|done].
  - split; [done|]. intros [?|[-> ?]]; lia.
  - split; [by left|done].
Qed.

Lemma string_gt_trans a b c :
  string_gt a b = true → string_gt b c = true → string_gt a c = true.
Proof.
  revert b c. induction a as [|x a IH]; intros [|y b] [|z c] H1 H2; try done.
  apply string_gt_cons in H1, H2. apply string_gt_cons.
  destruct H1 as [?|[-> H1]], H2 as [?|[-> H2]]; [left; lia|by left|by left|].
  right. split; [done|]. by eapply IH.
Qed.

Lemma string_gt_total a b : a = b ∨ string_gt a b = true ∨ string_gt b a = true.
Proof. pose proof (string_compare_spec a b). destruct (String.compare a b); auto. Qed.

Lemma string_ge_gt a b : string_ge a b = negb (string_gt b a).
Proof.
  unfold string_ge, string_gt. rewrite (String.compare_antisym a b).
  by destruct (String.compare b a).
Qed.

(** ** Association of a map with a default value *)

(** [operator\[\]] of [std::map] inserts a value-initialised entry for a key
    that is absent; the value read is [default d (m !! k)]. *)
Definition map_ref {K V} `{Countable K} (d : V) (m : gmap K V) (k : K) : V * gmap K V :=
  match m !! k with Some v => (v, m) | None => (d, <[k:=d]> m) end.

Lemma map_ref_fst {K V} `{Countable K} (d : V) (m : gmap K V) k :
  (map_ref d m k).1 = default d (m !! k).
Proof. unfold map_ref. by destruct (m !! k). Qed.

Lemma map_ref_snd_default {K V} `{Countable K} (d : V) (m : gmap K V) k j :
  default d ((map_ref d m k).2 !! j) = default d (m !! j).
Proof.
  unfold map_ref. destruct (m !! k) eqn:E; [done|]. simpl.
  destruct (decide (k = j)) as [<-|].
  - by rewrite lookup_insert_eq, E.
  - by rewrite lookup_insert_ne.
Qed.

(** The entries of a [std::map] in the order its iterator visits them. *)
Definition key_le {V} (p q : Z * V) : Prop := p.1 ≤ q.1.
#[export] Instance key_le_dec {V} : RelDecision (@key_le V) := λ p q, Z_le_dec p.1 q.1.
Definition map_entries {V} (m : gmap Z V) : list (Z * V) := merge_sort key_le (map_to_list m).

Lemma map_entries_spec {V} (m : gmap Z V) k v : (k, v) ∈ map_entries m ↔ m !! k = Some v.
Proof.
  unfold map_entries. rewrite (merge_sort_Permutation key_le (map_to_list m)).
  apply elem_of_map_to_list.
Qed.

Lemma map_entries_NoDup {V} (m : gmap Z V) : NoDup (map_entries m).*1.
Proof.
  unfold map_entries. rewrite (merge_sort_Permutation key_le (map_to_list m)).
  apply NoDup_fst_map_to_list.
Qed.

Lemma length_map_entries {V} (m : gmap Z V) : length (map_entries m) = size m.
Proof. unfold map_entries. rewrite (merge_sort_Permutation key_le (map_to_list m)). apply length_map_to_list. Qed.
