(* ===== verification/Threads.v ===== *)
(** * Starting threads (rpc/method_thread.h)

    [method_thread] packs an object, one of its methods and up to three
    arguments into a heap object and hands it to a new thread, which unpacks
    and frees it before it calls the method.  The four templates differ in the
    number of arguments. *)

From S2P Require Import Prelude.

(** The object [o], the method [m] and its arguments. *)
Record call := Call { x_o : Z; x_m : Z; x_args : list Z }.

(** A thread before it has unpacked the object at an address, and after. *)
Inductive thread := Entering (x : nat) | Calling (c : call).

(** The objects of class [XXX] on the heap, and the threads with whether they
    are detached, in the order they were created. *)
Record threads := Threads { t_heap : gmap nat call; t_threads : list (thread * bool) }.

Definition threads_new : threads := Threads ∅ [].

(** [method_thread_parent]; [create] and [detached] are the results of
    [pthread_create] and [pthread_detach]. *)
Definition method_thread_parent (create detached : Z) (x : nat) (detach : bool) (t : threads) : res threads :=
  if negb (create =? 0) then Fail Exited else
  (if detach then VERIFY (detached =? 0) else Ret ());;
  Ret (Threads (t_heap t) (t_threads t ++ [(Entering x, detach)])).

(** [x] is the address [new] returns. *)
Definition method_thread (create detached : Z) (x : nat) (c : call) (detach : bool) (t : threads) : res threads :=
  method_thread_parent create detached x detach (Threads (<[x := c]> (t_heap t)) (t_threads t)).

(** The templates, for methods with no argument up to three. *)
Definition method_thread0 (create detached : Z) (x : nat) (o : Z) (detach : bool) (m : Z) (t : threads) : res threads :=
  method_thread create detached x (Call o m []) detach t.
Definition method_thread1 (create detached : Z) (x : nat) (o : Z) (detach : bool) (m a : Z) (t : threads) : res threads :=
  method_thread create detached x (Call o m [a]) detach t.
Definition method_thread2 (create detached : Z) (x : nat) (o : Z) (detach : bool) (m a1 a2 : Z) (t : threads) : res threads :=
  method_thread create detached x (Call o m [a1; a2]) detach t.
Definition method_thread3 (create detached : Z) (x : nat) (o : Z) (detach : bool) (m a1 a2 a3 : Z) (t : threads) : res threads :=
  method_thread create detached x (Call o m [a1; a2; a3]) detach t.

(** [setstate] and [settype]: the results of [pthread_setcancelstate] and
    [pthread_setcanceltype]. *)
Definition method_thread_child (setstate settype : Z) : res () :=
  VERIFY (setstate =? 0);;
  VERIFY (settype =? 0).

(** [yyy], up to the call of the method. *)
Definition yyy (setstate settype : Z) (i : nat) (t : threads) : res threads :=
  match t_threads t !! i with
  | Some (Entering x, d) =>
      match t_heap t !! x with
      | None => Fail UndefinedBehaviour
      | Some c =>
          method_thread_child setstate settype;;
          Ret (Threads (delete x (t_heap t)) (<[i := (Calling c, d)]> (t_threads t)))
      end
  | _ => Ret t
  end.

(** Threads are created and start in any order; [calls] are the calls that
    [method_thread] was asked for. *)
Inductive threads_step : threads * list call → threads * list call → Prop :=
| ts_create0 t calls x o detach m t' :
    t_heap t !! x = None → method_thread0 0 0 x o detach m t = Ret t' → threads_step (t, calls) (t', calls ++ [Call o m []])
| ts_create1 t calls x o detach m a t' :
    t_heap t !! x = None → method_thread1 0 0 x o detach m a t = Ret t' → threads_step (t, calls) (t', calls ++ [Call o m [a]])
| ts_create2 t calls x o detach m a1 a2 t' :
    t_heap t !! x = None → method_thread2 0 0 x o detach m a1 a2 t = Ret t' →
    threads_step (t, calls) (t', calls ++ [Call o m [a1; a2]])
| ts_create3 t calls x o detach m a1 a2 a3 t' :
    t_heap t !! x = None → method_thread3 0 0 x o detach m a1 a2 a3 t = Ret t' →
    threads_step (t, calls) (t', calls ++ [Call o m [a1; a2; a3]])
| ts_enter t calls i t' : yyy 0 0 i t = Ret t' → threads_step (t, calls) (t', calls).

(** ** Every thread makes its call *)

Definition thread_ok (h : gmap nat call) (th : thread) (c : call) : Prop :=
  match th with Entering x => h !! x = Some c | Calling c' => c' = c end.

Record threads_inv (t : threads) (calls : list call) : Prop := {
  ti_calls : Forall2 (λ th c, thread_ok (t_heap t) th.1 c) (t_threads t) calls;
  ti_apart : ∀ i j x d e, t_threads t !! i = Some (Entering x, d) → t_threads t !! j = Some (Entering x, e) → i = j;
  ti_heap : ∀ x, is_Some (t_heap t !! x) → ∃ i d, t_threads t !! i = Some (Entering x, d) }.

Lemma create_inv t calls x c detach t' :
  t_heap t !! x = None → method_thread 0 0 x c detach t = Ret t' → threads_inv t calls → threads_inv t' (calls ++ [c]).
Proof.
  intros Hx E [Hc Ha Hh]. assert (t' = Threads (<[x := c]> (t_heap t)) (t_threads t ++ [(Entering x, detach)])) as ->.
  { revert E. unfold method_thread, method_thread_parent. cbn. by destruct detach; cbn; intros [= <-]. }
  assert (∀ i d, t_threads t !! i = Some (Entering x, d) → False) as Hno.
  { intros i d Ei. destruct (Forall2_lookup_l _ _ _ _ _ Hc Ei) as (c' & _ & Hok). cbn in Hok. congruence. }
  split; cbn.
  - apply Forall2_app; [|constructor; [apply lookup_insert_eq|constructor]]. eapply Forall2_impl; [exact Hc|].
    intros [[y|c1] d] c' Hok; cbn in *; [|done]. rewrite lookup_insert_ne; [done|]. intros ->. congruence.
  - intros i j y d e Ei Ej. apply lookup_app_Some in Ei as [Ei|[Hi Ei]], Ej as [Ej|[Hj Ej]].
    + by eapply Ha.
    + apply list_lookup_singleton_Some in Ej as [_ [= <- _]]. by destruct (Hno i d).
    + apply list_lookup_singleton_Some in Ei as [_ [= <- _]]. by destruct (Hno j e).
    + apply list_lookup_singleton_Some in Ei as [? _], Ej as [? _]. lia.
  - intros y Hy. destruct (decide (y = x)) as [->|Hne].
    + exists (length (t_threads t)), detach. rewrite lookup_app_r, Nat.sub_diag by lia. done.
    + rewrite lookup_insert_ne in Hy by done. destruct (Hh y Hy) as (i & d & Ei). exists i, d. by apply lookup_app_l_Some.
Qed.

Lemma enter_inv t calls i t' : yyy 0 0 i t = Ret t' → threads_inv t calls → threads_inv t' calls.
Proof.
  intros E [Hc Ha Hh]. unfold yyy in E. destruct (t_threads t !! i) as [[[x|c0] d]|] eqn:Ei; [|by injection E as <-..].
  destruct (t_heap t !! x) as [c|] eqn:Ex; [|done]. cbn in E. injection E as <-. split; cbn.
  - destruct (Forall2_lookup_l _ _ _ _ _ Hc Ei) as (c' & Ec & Hok). cbn in Hok. rewrite Ex in Hok. injection Hok as ->.
    apply Forall2_same_length_lookup. rewrite length_insert. split; [by eapply Forall2_length|].
    intros j [th e] c1 Ej Ej'. destruct (decide (j = i)) as [->|Hne].
    + rewrite list_lookup_insert_eq in Ej by (by eapply lookup_lt_Some). injection Ej as <- <-. cbn. congruence.
    + rewrite list_lookup_insert_ne in Ej by done. destruct (Forall2_lookup_l _ _ _ _ _ Hc Ej) as (c2 & Ec2 & Hok2).
      rewrite Ej' in Ec2. injection Ec2 as <-. destruct th as [y|c3]; cbn in *; [|done]. rewrite lookup_delete_ne; [done|].
      intros <-. apply Hne. by eapply Ha.
  - intros j k y e f Ej Ek.
    destruct (decide (j = i)) as [->|]; [rewrite list_lookup_insert_eq in Ej by (by eapply lookup_lt_Some); done|].
    destruct (decide (k = i)) as [->|]; [rewrite list_lookup_insert_eq in Ek by (by eapply lookup_lt_Some); done|].
    rewrite list_lookup_insert_ne in Ej, Ek by done. by eapply Ha.
  - intros y Hy. destruct (decide (y = x)) as [->|Hne]; [rewrite lookup_delete_eq in Hy; by destruct Hy|].
    rewrite lookup_delete_ne in Hy by done. destruct (Hh y Hy) as (j & e & Ej). exists j, e.
    rewrite list_lookup_insert_ne; [done|]. intros ->. rewrite Ei in Ej. congruence.
Qed.

Lemma threads_reachable t calls : rtc threads_step (threads_new, []) (t, calls) → threads_inv t calls.
Proof.
  intros Hr. change (threads_inv (t, calls).1 (t, calls).2). pattern (t, calls).
  eapply (rtc_ind_r _ (threads_new, [])); [| |exact Hr].
  - split; cbn; [constructor|done|]. intros x [? E]. by rewrite lookup_empty in E.
  - intros y z _ Hs Hy. destruct Hs; cbn [fst snd] in *; [by eapply create_inv..|by eapply enter_inv].
Qed.

(** Every thread makes the call it was created for, none touches memory that
    was freed, and when all have started nothing is left on the heap. *)
Theorem method_threads_run t calls :
  rtc threads_step (threads_new, []) (t, calls) →
  length (t_threads t) = length calls ∧
  (∀ i c, calls !! i = Some c → ∃ t' d, yyy 0 0 i t = Ret t' ∧ t_threads t' !! i = Some (Calling c, d)) ∧
  ((∀ i x d, t_threads t !! i ≠ Some (Entering x, d)) → t_heap t = ∅).
Proof.
  intros [Hc Ha Hh]%threads_reachable. split_and!; [by eapply Forall2_length| |].
  - intros i c Ei. destruct (Forall2_lookup_r _ _ _ _ _ Hc Ei) as ([[x|c'] d] & Et & Hok); cbn in Hok; unfold yyy; rewrite Et.
    + rewrite Hok. cbn. do 2 eexists. split; [done|]. cbn. apply list_lookup_insert_eq. by eapply lookup_lt_Some.
    + subst c'. by exists t, d.
  - intros Hno. apply map_empty. intros x. destruct (t_heap t !! x) eqn:E; [|done].
    destruct (Hh x) as (i & d & Ei); [by eexists|]. by destruct (Hno i x d).
Qed.
