(* ===== verification/Slock.v ===== *)
(** * Scoped locks (rpc/slock.h, slock.h)

    [ScopedLock] locks a mutex where it is declared and unlocks it where its
    scope ends.  The code of the other files is modelled with a critical
    section as one step; here it is shown that this loses nothing: threads
    that touch what they share under a [ScopedLock] only behave as if every
    scope ran without interruption. *)

From S2P Require Import Prelude.

(** ** The mutex *)

(** The thread that holds it. *)
Definition mutex : Type := option nat.

(** [pthread_mutex_lock] returns 0 to a thread that gets the mutex and does
    not return while another thread, or the caller itself, holds it: [None]. *)
Definition pthread_mutex_lock (t : nat) (m : mutex) : option (Z * mutex) :=
  match m with None => Some (0, Some t) | Some _ => None end.

(** Unlocking a mutex the thread does not hold is undefined. *)
Definition pthread_mutex_unlock (t : nat) (m : mutex) : res (Z * mutex) :=
  if bool_decide (m = Some t) then Ret (0, None) else Fail UndefinedBehaviour.

(** The constructor and the destructor. *)
Definition ScopedLock_new (t : nat) (m : mutex) : option (res mutex) :=
  match pthread_mutex_lock t m with
  | None => None
  | Some (r, m) => Some (VERIFY (r =? 0);; Ret m)
  end.

Definition ScopedLock_delete (t : nat) (m : mutex) : res mutex :=
  '(r, m) ← pthread_mutex_unlock t m;
  VERIFY (r =? 0);;
  Ret m.

(** ** Threads that share state *)

Section scopes.
Context {G L : Type}.

(** A scope guarded by the lock is a loop of small steps on the thread's own
    variables and the shared state; [None] where it is left, by its end or by
    a [return].  Outside, a thread touches its own variables only. *)
Inductive segment := Scoped (body : L → G → option (L * G)) | Alone (f : L → L).

Record thread := Thread { th_local : L; th_inside : bool; th_prog : list segment }.
Record machine := Machine { mu : mutex; shared : G; threads : list thread }.

(** Any thread may take its next step; [None] is a step that aborts. *)
Inductive small_step (M : machine) : option machine → Prop :=
| SS_enter i l body rest r :
    threads M !! i = Some (Thread l false (Scoped body :: rest)) → ScopedLock_new i (mu M) = Some r →
    small_step M (match r with
                  | Ret m => Some (Machine m (shared M) (<[i := Thread l true (Scoped body :: rest)]> (threads M)))
                  | Fail _ => None end)
| SS_body i l body rest l' s' :
    threads M !! i = Some (Thread l true (Scoped body :: rest)) → body l (shared M) = Some (l', s') →
    small_step M (Some (Machine (mu M) s' (<[i := Thread l' true (Scoped body :: rest)]> (threads M))))
| SS_leave i l body rest :
    threads M !! i = Some (Thread l true (Scoped body :: rest)) → body l (shared M) = None →
    small_step M (match ScopedLock_delete i (mu M) with
                  | Ret m => Some (Machine m (shared M) (<[i := Thread l false rest]> (threads M)))
                  | Fail _ => None end)
| SS_alone i l f rest :
    threads M !! i = Some (Thread l false (Alone f :: rest)) →
    small_step M (Some (Machine (mu M) (shared M) (<[i := Thread (f l) false rest]> (threads M)))).

Definition steps (M M' : machine) : Prop := small_step M (Some M').

(** ** Scopes in one step *)

(** A whole scope, from its first step to where it is left. *)
Definition turn (body : L → G → option (L * G)) (x y : L * G) : Prop := body x.1 x.2 = Some y.
Definition whole (body : L → G → option (L * G)) (x y : L * G) : Prop := rtc (turn body) x y ∧ body y.1 y.2 = None.

Record serial := Serial { se_shared : G; se_threads : list (L * list segment) }.

Inductive serial_step (A : serial) : serial → Prop :=
| AS_scope i l body rest l' s' :
    se_threads A !! i = Some (l, Scoped body :: rest) → whole body (l, se_shared A) (l', s') →
    serial_step A (Serial s' (<[i := (l', rest)]> (se_threads A)))
| AS_alone i l f rest :
    se_threads A !! i = Some (l, Alone f :: rest) →
    serial_step A (Serial (se_shared A) (<[i := (f l, rest)]> (se_threads A))).

Definition start (A : serial) : machine :=
  Machine None (se_shared A) ((λ x, Thread x.1 false x.2) <$> se_threads A).
Definition outside (th : thread) : L * list segment := (th_local th, th_prog th).

(** ** The simulation *)

(** The serial run is where the machine is, except that the thread in its
    scope has not entered it yet. *)
Definition follows (A : serial) (M : machine) : Prop :=
  match mu M with
  | None => se_shared A = shared M ∧ se_threads A = outside <$> threads M ∧
      Forall (λ th, th_inside th = false) (threads M)
  | Some i => ∃ l0 l body rest,
      threads M !! i = Some (Thread l true (Scoped body :: rest)) ∧
      rtc (turn body) (l0, se_shared A) (l, shared M) ∧
      se_threads A = <[i := (l0, Scoped body :: rest)]> (outside <$> threads M) ∧
      ∀ j th, threads M !! j = Some th → j ≠ i → th_inside th = false
  end.

Lemma follows_inside A M i th :
  follows A M → threads M !! i = Some th → th_inside th = true → mu M = Some i.
Proof.
  intros Hf Hi Ht. unfold follows in Hf. destruct (mu M) as [k|].
  - destruct Hf as (l0 & l & body & rest & _ & _ & _ & Ho). destruct (decide (i = k)) as [->|Hne]; [done|].
    by rewrite (Ho i th) in Ht.
  - destruct Hf as (_ & _ & Ho). rewrite Forall_lookup in Ho. by rewrite (Ho i th) in Ht.
Qed.

Lemma insert_outside i th (ths : list thread) : outside <$> <[i := th]> ths = <[i := outside th]> (outside <$> ths).
Proof. apply list_fmap_insert. Qed.

Lemma insert_same_outside i th th' (ths : list thread) :
  ths !! i = Some th → outside th' = outside th → outside <$> <[i := th']> ths = outside <$> ths.
Proof.
  intros Hi E. rewrite insert_outside, E. apply list_insert_id. by rewrite list_lookup_fmap, Hi.
Qed.

Definition followed (A : serial) (M' : machine) : Prop := ∃ A', rtc serial_step A A' ∧ follows A' M'.

Lemma follows_enter A M i l body rest :
  follows A M → threads M !! i = Some (Thread l false (Scoped body :: rest)) → mu M = None →
  followed A (Machine (Some i) (shared M) (<[i := Thread l true (Scoped body :: rest)]> (threads M))).
Proof.
  intros Hf Hi Em. unfold follows in Hf. rewrite Em in Hf. destruct Hf as (E1 & E2 & Ho).
  exists A. split; [done|]. exists l, l, body, rest. cbn [mu threads shared]. rewrite E1. split_and!.
  - apply list_lookup_insert_eq. by eapply lookup_lt_Some.
  - done.
  - rewrite (insert_same_outside i _ _ _ Hi) by done. rewrite E2, list_insert_id; [done|].
    by rewrite list_lookup_fmap, Hi.
  - intros j th Hj Hne. rewrite list_lookup_insert_ne in Hj by done. rewrite Forall_lookup in Ho. by eapply Ho.
Qed.

(** The thread in its scope. *)
Lemma follows_owner A M i l body rest :
  follows A M → threads M !! i = Some (Thread l true (Scoped body :: rest)) →
  mu M = Some i ∧ ∃ l0, rtc (turn body) (l0, se_shared A) (l, shared M) ∧
    se_threads A = <[i := (l0, Scoped body :: rest)]> (outside <$> threads M) ∧
    ∀ j th, threads M !! j = Some th → j ≠ i → th_inside th = false.
Proof.
  intros Hf Hi. pose proof (follows_inside A M i _ Hf Hi eq_refl) as Em. split; [done|].
  unfold follows in Hf. rewrite Em in Hf. destruct Hf as (l0 & l1 & body1 & rest1 & Hi1 & Hr & E & Ho).
  rewrite Hi in Hi1. injection Hi1 as <- <- <-. by exists l0.
Qed.

Lemma follows_body A M i l body rest l' s' :
  follows A M → threads M !! i = Some (Thread l true (Scoped body :: rest)) → body l (shared M) = Some (l', s') →
  followed A (Machine (mu M) s' (<[i := Thread l' true (Scoped body :: rest)]> (threads M))).
Proof.
  intros Hf Hi Hb. destruct (follows_owner _ _ _ _ _ _ Hf Hi) as (Em & l0 & Hr & E & Ho).
  exists A. split; [done|]. unfold follows. cbn [mu threads shared]. rewrite Em. exists l0, l', body, rest. split_and!.
  - apply list_lookup_insert_eq. by eapply lookup_lt_Some.
  - by eapply rtc_r.
  - by rewrite insert_outside, list_insert_insert_eq.
  - intros j th Hj Hne. rewrite list_lookup_insert_ne in Hj by done. by eapply Ho.
Qed.

(** The serial run takes the whole scope when it is left. *)
Lemma follows_leave A M i l body rest :
  follows A M → threads M !! i = Some (Thread l true (Scoped body :: rest)) → body l (shared M) = None →
  followed A (Machine None (shared M) (<[i := Thread l false rest]> (threads M))).
Proof.
  intros Hf Hi Hb. destruct (follows_owner _ _ _ _ _ _ Hf Hi) as (Em & l0 & Hr & E & Ho).
  assert (Hlt : (i < length (threads M))%nat) by (by eapply lookup_lt_Some).
  exists (Serial (shared M) (<[i := (l, rest)]> (se_threads A))). split.
  - apply rtc_once, (AS_scope A i l0 body rest); [|by split].
    rewrite E. apply list_lookup_insert_eq. by rewrite length_fmap.
  - split; [done|]. split; [cbn; by rewrite E, list_insert_insert_eq, insert_outside|].
    apply Forall_lookup. intros j th Hj. cbn in Hj. destruct (decide (i = j)) as [<-|Hne].
    + rewrite list_lookup_insert_eq in Hj by done. by injection Hj as <-.
    + rewrite list_lookup_insert_ne in Hj by done. by eapply Ho.
Qed.

Lemma follows_alone A M i l f rest :
  follows A M → threads M !! i = Some (Thread l false (Alone f :: rest)) →
  followed A (Machine (mu M) (shared M) (<[i := Thread (f l) false rest]> (threads M))).
Proof.
  intros Hf Hi. assert (Hlt : (i < length (threads M))%nat) by (by eapply lookup_lt_Some).
  exists (Serial (se_shared A) (<[i := (f l, rest)]> (se_threads A))).
  unfold follows in *. cbn [mu shared threads se_shared se_threads]. destruct (mu M) as [k|].
  - destruct Hf as (l0 & l1 & body1 & rest1 & Hk & Hr & E & Ho). assert (Hne : k ≠ i) by congruence. split.
    + apply rtc_once, AS_alone. by rewrite E, list_lookup_insert_ne, list_lookup_fmap, Hi by done.
    + exists l0, l1, body1, rest1. rewrite list_lookup_insert_ne by done. split_and!; [done|done| |].
      * by rewrite E, insert_outside, list_insert_insert_ne.
      * intros j th Hj Hne'. destruct (decide (i = j)) as [<-|Hn]; [|rewrite list_lookup_insert_ne in Hj by done; by eapply Ho].
        rewrite list_lookup_insert_eq in Hj by done. by injection Hj as <-.
  - destruct Hf as (E1 & E2 & Ho). split; [|split; [done|split; [by rewrite E2, insert_outside|by apply Forall_insert]]].
    apply rtc_once, AS_alone. by rewrite E2, list_lookup_fmap, Hi.
Qed.

Lemma follows_step A M r : follows A M → small_step M r → ∃ M', r = Some M' ∧ followed A M'.
Proof.
  intros Hf Hs. destruct Hs as [i l body rest r Hi Hr|i l body rest l' s' Hi Hb|i l body rest Hi Hb|i l f rest Hi].
  - unfold ScopedLock_new, pthread_mutex_lock in Hr. destruct (mu M) eqn:Em; [done|]. injection Hr as <-.
    eexists. split; [done|]. by apply follows_enter.
  - eexists. split; [done|]. by eapply follows_body.
  - pose proof (follows_inside A M i _ Hf Hi eq_refl) as Em. unfold ScopedLock_delete, pthread_mutex_unlock.
    rewrite Em, bool_decide_eq_true_2 by done. eexists. split; [done|]. by eapply follows_leave.
  - eexists. split; [done|]. by apply follows_alone.
Qed.

Lemma start_follows A : follows A (start A).
Proof.
  split; [done|]. split.
  - cbn. rewrite <- list_fmap_compose. rewrite (list_fmap_ext _ id), list_fmap_id; [done|]. by intros ? [].
  - apply Forall_fmap, Forall_true. done.
Qed.

Lemma run_follows A M : rtc steps (start A) M → followed A M.
Proof.
  revert M. apply (rtc_ind_r (followed A)); [exists A; split; [done|apply start_follows]|].
  intros M M' _ Hs (A1 & Hr & Hf). destruct (follows_step A1 M _ Hf Hs) as (M1 & [= <-] & A2 & Hr2 & Hf2).
  exists A2. split; [by etransitivity|done].
Qed.
(** ** Nobody waits for ever *)

Definition halting (g : segment) : Prop := match g with Scoped body => ∀ x, ∃ y, whole body x y | Alone _ => True end.

(** The thread that holds the lock runs its scope to the end. *)
Lemma run_scope M i l body rest l' s' :
  threads M !! i = Some (Thread l true (Scoped body :: rest)) → mu M = Some i →
  whole body (l, shared M) (l', s') →
  rtc steps M (Machine None s' (<[i := Thread l' false rest]> (threads M))).
Proof.
  intros Hi Em [Hr Hn]. remember (l, shared M) as x eqn:Ex. remember (l', s') as y eqn:Ey.
  revert M l Hi Em Ex. induction Hr as [x|x y z Hxy Hr IH]; intros M l Hi Em ->.
  - injection Ey as -> <-. apply rtc_once. unfold steps. pose proof (SS_leave M i l' body rest Hi Hn) as Hs.
    unfold ScopedLock_delete, pthread_mutex_unlock in Hs. by rewrite Em, bool_decide_eq_true_2 in Hs.
  - subst z. destruct y as [l1 s1]. eapply rtc_l; [by apply (SS_body M i l body rest l1 s1)|].
    assert (Hlt : (i < length (threads M))%nat) by (by eapply lookup_lt_Some).
    specialize (IH eq_refl Hn (Machine (mu M) s1 (<[i := Thread l1 true (Scoped body :: rest)]> (threads M))) l1).
    cbn [mu shared threads] in IH. rewrite list_insert_insert_eq in IH. apply IH; [by apply list_lookup_insert_eq|done..].
Qed.

Fixpoint todo (ths : list thread) : nat :=
  match ths with [] => O | th :: ths => (length (th_prog th) + todo ths)%nat end.

Lemma todo_insert i th th' ths :
  ths !! i = Some th → (length (th_prog th') < length (th_prog th))%nat → (todo (<[i := th']> ths) < todo ths)%nat.
Proof.
  intros Hi Hl. revert i Hi. induction ths as [|t0 ths IH]; intros [|i] Hi; try done.
  - injection Hi as ->. cbn. lia.
  - specialize (IH i Hi). change (todo (<[S i := th']> (t0 :: ths))) with (length (th_prog t0) + todo (<[i := th']> ths))%nat.
    cbn [todo]. lia.
Qed.

Definition resting (M : machine) : Prop :=
  mu M = None ∧ Forall (λ th, th_inside th = false ∧ Forall halting (th_prog th)) (threads M).
Definition finished (M : machine) : Prop := Forall (λ th, th_prog th = []) (threads M).

(** One thread does its next segment. *)
Lemma resting_turn M i l g rest :
  resting M → threads M !! i = Some (Thread l false (g :: rest)) →
  ∃ l' s', rtc steps M (Machine None s' (<[i := Thread l' false rest]> (threads M))) ∧
    resting (Machine None s' (<[i := Thread l' false rest]> (threads M))).
Proof.
  intros [Em Ht] Hi. assert (Hlt : (i < length (threads M))%nat) by (by eapply lookup_lt_Some).
  pose proof (Forall_lookup_1 _ _ _ _ Ht Hi) as [_ [Hg Hrest]%Forall_cons].
  assert (Hok : ∀ l' s', resting (Machine None s' (<[i := Thread l' false rest]> (threads M)))).
  { intros l' s'. split; [done|]. by apply Forall_insert. }
  destruct g as [body|f].
  - destruct (Hg (l, shared M)) as [[l' s'] Hw]. exists l', s'. split; [|apply Hok].
    eapply rtc_l; [by apply (SS_enter M i l body rest (Ret (Some i)) Hi); rewrite Em|].
    set (M1 := Machine (Some i) _ _). pose proof (run_scope M1 i l body rest l' s') as Hrun. cbn in Hrun.
    rewrite list_insert_insert_eq in Hrun. apply Hrun; [by apply list_lookup_insert_eq|done..].
  - exists (f l), (shared M). split; [|apply Hok]. apply rtc_once. unfold steps. rewrite <- Em. by apply SS_alone.
Qed.

Lemma resting_finishes n M : (todo (threads M) < n)%nat → resting M → ∃ M', rtc steps M M' ∧ finished M'.
Proof.
  revert M. induction n as [|n IH]; intros M Hn Hr; [lia|].
  destruct (decide (Forall (λ th, length (th_prog th) = O) (threads M))) as [Hd|Hd].
  { exists M. split; [done|]. eapply Forall_impl; [exact Hd|]. intros th. apply nil_length_inv. }
  apply not_Forall_Exists in Hd; [|apply _]. apply Exists_exists in Hd as ([l b p] & Hin & Hp).
  apply list_elem_of_lookup in Hin as [i Hi]. cbn in Hp. destruct p as [|g rest]; [done|].
  destruct Hr as [Em Ht]. pose proof (Forall_lookup_1 _ _ _ _ Ht Hi) as [Hb _]. cbn in Hb. subst b.
  destruct (resting_turn M i l g rest (conj Em Ht) Hi) as (l' & s' & Hs & Hr').
  edestruct IH as (M' & Hs' & Hf); [|exact Hr'|].
  - cbn [threads]. pose proof (todo_insert i _ (Thread l' false rest) _ Hi) as Hlt. cbn [th_prog length] in Hlt. lia.
  - exists M'. split; [by etransitivity|done].
Qed.

(** The programs of threads are what is left of the programs they had. *)
Lemma halting_kept A M :
  Forall (λ x : L * list segment, Forall halting x.2) (se_threads A) → rtc steps (start A) M →
  Forall (λ th, Forall halting (th_prog th)) (threads M).
Proof.
  intros Ha. revert M. apply (rtc_ind_r (λ M, Forall (λ th, Forall halting (th_prog th)) (threads M))).
  - cbn. by apply Forall_fmap.
  - intros M M' _ Hs IH. unfold steps in Hs. remember (Some M') as r0 eqn:Er.
    destruct Hs as [i l body rest r Hi _|i l body rest l' s' Hi _|i l body rest Hi _|i l f rest Hi];
      pose proof (Forall_lookup_1 _ _ _ _ IH Hi) as Hth; cbn in Hth.
    + destruct r; [|done]. injection Er as <-. by apply Forall_insert.
    + injection Er as <-. by apply Forall_insert.
    + destruct (ScopedLock_delete i (mu M)); [|done]. injection Er as <-. apply Forall_insert; [done|]. by apply Forall_cons in Hth as [_ ?].
    + injection Er as <-. apply Forall_insert; [done|]. by apply Forall_cons in Hth as [_ ?].
Qed.

Lemma run_finishes A M :
  Forall (λ x : L * list segment, Forall halting x.2) (se_threads A) → rtc steps (start A) M →
  ∃ M', rtc steps M M' ∧ finished M'.
Proof.
  intros Ha Hs. pose proof (halting_kept A M Ha Hs) as Hh. destruct (run_follows A M Hs) as (A' & _ & Hf).
  unfold follows in Hf. destruct (mu M) as [i|] eqn:Em.
  - destruct Hf as (l0 & l & body & rest & Hi & _ & _ & Ho).
    pose proof (Forall_lookup_1 _ _ _ _ Hh Hi) as [Hb Hrest]%Forall_cons. destruct (Hb (l, shared M)) as [[l' s'] Hw].
    pose proof (run_scope M i l body rest l' s' Hi Em Hw) as Hrun.
    destruct (resting_finishes (1 + todo (<[i := Thread l' false rest]> (threads M))) (Machine None s' (<[i := Thread l' false rest]> (threads M))))
      as (M' & Hs' & Hfin).
    + cbn. lia.
    + split; [done|]. cbn [threads]. apply Forall_lookup. intros j th Hj. destruct (decide (i = j)) as [<-|Hne].
      * rewrite list_lookup_insert_eq in Hj by (by eapply lookup_lt_Some). injection Hj as <-. done.
      * rewrite list_lookup_insert_ne in Hj by done. split; [by eapply Ho|]. by eapply (Forall_lookup_1 _ _ _ _ Hh).
    + exists M'. split; [by etransitivity|done].
  - destruct Hf as (_ & _ & Ho). apply (resting_finishes (1 + todo (threads M))); [lia|]. split; [done|]. by apply Forall_and.
Qed.
End scopes.

(** C25: a scope under a lock is one step.  In every run of threads that touch
    what they share inside scopes with a [ScopedLock] only, no constructor or
    destructor aborts, and the mutex is held by exactly the thread that is in
    a scope, so no two are at once; whenever nobody is in a scope the mutex is
    free, and what the threads share, their variables and what they have left
    to do are those of a run in which every scope was executed whole, without
    interruption; and if every scope ends when it runs alone, all threads can
    finish from wherever they are. *)
Theorem scopes_are_atomic {G L} (A : serial (G:=G) (L:=L)) M :
  rtc steps (start A) M →
  ¬ small_step M None ∧
  (∀ i, mu M = Some i ↔ ∃ th, threads M !! i = Some th ∧ th_inside th = true) ∧
  (Forall (λ th, th_inside th = false) (threads M) →
     mu M = None ∧ rtc serial_step A (Serial (shared M) (outside <$> threads M))) ∧
  (Forall (λ x : L * list segment, Forall halting x.2) (se_threads A) → ∃ M', rtc steps M M' ∧ finished M').
Proof.
  intros Hs. destruct (run_follows A M Hs) as (A' & Hr & Hf). split_and!.
  - intros Hn. by destruct (follows_step A' M None Hf Hn) as (M' & ? & _).
  - intros i. split; [|intros (th & Hi & Ht); by eapply follows_inside].
    intros Em. unfold follows in Hf. rewrite Em in Hf. destruct Hf as (l0 & l & body & rest & Hi & _). by eexists.
  - intros Ho. unfold follows in Hf. destruct (mu M) as [i|].
    + destruct Hf as (l0 & l & body & rest & Hi & _). by apply (Forall_lookup_1 _ _ _ _ Ho) in Hi.
    + destruct Hf as (<- & <- & _). split; [done|]. by destruct A'.
  - intros Hh. by apply (run_finishes A).
Qed.

(** A counter two threads count up: each reads it into its variable, then
    writes the sum back. *)
Definition count_up (l : Z * bool) (n : Z) : option ((Z * bool) * Z) :=
  match l with
  | (_, false) => Some ((n, true), n)
  | (k, true) => if k =? n then Some ((k, true), k + 1) else None
  end.
Definition counters : serial := Serial 5 [((0, false), [Scoped count_up]); ((0, false), [Alone id; Scoped count_up])].

Lemma count_up_halts : halting (Scoped count_up).
Proof.
  assert (Hd : ∀ k n, k ≠ n → whole count_up ((k, true), n) ((k, true), n)).
  { intros k n Hk. split; [done|]. cbn. by replace (k =? n) with false by lia. }
  assert (Ht : ∀ k n, ∃ y, whole count_up ((k, true), n) y).
  { intros k n. destruct (decide (k = n)) as [->|Hk]; [|by eexists; apply Hd]. exists ((n, true), n + 1).
    destruct (Hd n (n + 1)) as [_ Hn]; [lia|]. split; [|done]. apply rtc_once. unfold turn. cbn. by rewrite Z.eqb_refl. }
  intros [[k []] n]; [apply Ht|]. destruct (Ht n n) as [y [Hr Hy]]. exists y. split; [|done].
  by eapply rtc_l.
Qed.

Lemma scopes_are_atomic_witness :
  ∃ M, rtc steps (start counters) M ∧ mu M = None ∧ shared M = 6 ∧
    rtc serial_step counters (Serial (shared M) (outside <$> threads M)) ∧ ∃ M', rtc steps M M' ∧ finished M'.
Proof.
  assert (Hrun : rtc steps (start counters)
    (Machine None 6 [Thread (5, true) false []; Thread (0, false) false [Scoped count_up]])).
  { eapply rtc_l; [apply (SS_enter (start counters) 0%nat (0, false) count_up [] (Ret (Some 0%nat))); reflexivity|].
    eapply rtc_l; [apply (SS_body _ 0%nat (0, false) count_up [] (5, true) 5); reflexivity|].
    eapply rtc_l; [apply (SS_alone _ 1%nat (0, false) id [Scoped count_up]); reflexivity|].
    eapply rtc_l; [apply (SS_body _ 0%nat (5, true) count_up [] (5, true) 6); reflexivity|].
    apply rtc_once.
    apply (SS_leave (Machine (Some 0%nat) 6 [Thread (5, true) true [Scoped count_up]; Thread (0, false) false [Scoped count_up]])
             0%nat (5, true) count_up []); reflexivity. }
  eexists. split; [exact Hrun|]. destruct (scopes_are_atomic counters _ Hrun) as (_ & _ & H & Hfin).
  destruct H as [Em Hserial]; [repeat constructor|]. split; [exact Em|]. split; [reflexivity|]. split; [exact Hserial|].
  apply Hfin. pose proof count_up_halts as Hc. repeat (constructor; cbn); exact Hc.
Defined.

(** The same mutex unlocked twice, as [lock_server_cache::acquire] does after
    a retry request: undefined. *)
Definition lock_unlock_twice (t : nat) (m : mutex) : option (res mutex) :=
  match pthread_mutex_lock t m with
  | None => None
  | Some (_, m) =>
      Some ('(_, m) ← pthread_mutex_unlock t m; '(_, m) ← pthread_mutex_unlock t m; Ret m)
  end.

Theorem second_unlock_undefined t : lock_unlock_twice t None = Some (Fail UndefinedBehaviour).
Proof. unfold lock_unlock_twice. cbn. unfold pthread_mutex_unlock. by rewrite bool_decide_eq_true_2. Qed.
