(* ===== verification/Marshall.v ===== *)
(** * Marshalling (rpc/marshall.h and the marshalling half of rpc/rpc.cc)

    The [marshall] object is a heap buffer with a capacity and a write head;
    the [unmarshall] object is a received buffer with a read head and a sticky
    error flag.  Every [operator<<] and [operator>>] of the library is an
    instance of the class [Marshal]; [MarshalOk] is what the RPC layer relies
    on: writing appends an encoding and never leaves the buffer, and reading
    an encoding gives the value back.  The structures of the protocol headers
    are in Protocols.v. *)

From S2P Require Import Prelude.

(** ** Integer types that share the carrier [Z] *)

(** Distinct names, so that the overload the compiler picks is the instance
    class resolution picks. *)
Definition uchar : Set := Z.
Definition schar : Set := Z.
Definition ushort : Set := Z.
Definition sshort : Set := Z.
Definition uint : Set := Z.
Definition int : Set := Z.
Definition ullong : Set := Z.
#[global] Typeclasses Opaque uchar schar ushort sshort uint int ullong.

(** ** Headers *)

Record req_header := ReqHeader {
  rq_xid : Z; rq_proc : Z; rq_clt_nonce : Z; rq_srv_nonce : Z; rq_xid_rep : Z }.

Record reply_header := ReplyHeader { rp_xid : Z; rp_ret : Z }.

Definition sizeof_int : Z := 4.
Definition sizeof_req_header : Z := 5 * sizeof_int.
Definition sizeof_reply_header : Z := 2 * sizeof_int.
Definition sizeof_rpc_sz_t : Z := sizeof_int.

Definition static_max (a b : Z) : Z := if b <? a then a else b.

Definition DEFAULT_RPC_SZ : Z := 1024.
Definition RPC_HEADER_SZ : Z :=
  static_max sizeof_req_header sizeof_reply_header + sizeof_rpc_sz_t.

(** ** Raw memory *)

(** [m_buf = None] is the null pointer [take_buf] leaves behind.  Fresh heap
    memory holds the arbitrary byte [m_fill]. *)
Record marshall := Marshall {
  m_buf : option (list ascii); m_capa : Z; m_ind : Z; m_fill : ascii }.

(** [_buf\[i\] = c]. *)
Definition buf_write (buf : list ascii) (i : Z) (c : ascii) : res (list ascii) :=
  if (0 <=? i) && (i <? Z.of_nat (length buf))
  then Ret (<[Z.to_nat i := c]> buf) else Fail UndefinedBehaviour.

(** [memcpy(_buf + i, p, n)]. *)
Definition buf_memcpy (buf : list ascii) (i : Z) (p : list ascii) : res (list ascii) :=
  if (0 <=? i) && (i + Z.of_nat (length p) <=? Z.of_nat (length buf))
  then Ret (take (Z.to_nat i) buf ++ p ++ drop (Z.to_nat i + length p) buf)
  else Fail UndefinedBehaviour.

(** [realloc(_buf, n)]: a negative [int] is a huge [size_t] and gives a null
    pointer, which the [VERIFY] after it rejects. *)
Definition buf_realloc (fill : ascii) (buf : list ascii) (n : Z) : res (list ascii) :=
  VERIFY (0 <=? n);;
  Ret (take (Z.to_nat n) buf ++ replicate (Z.to_nat n - length buf) fill).

Definition m_deref (m : marshall) : res (list ascii) :=
  match m_buf m with Some b => Ret b | None => Fail UndefinedBehaviour end.

Definition m_isnull (m : marshall) : bool :=
  match m_buf m with Some _ => false | None => true end.

(** ** marshall *)

Definition marshall_new (fill : ascii) : marshall :=
  Marshall (Some (replicate (Z.to_nat DEFAULT_RPC_SZ) fill)) DEFAULT_RPC_SZ RPC_HEADER_SZ fill.

(** [VERIFY(_buf != NULL); _buf = realloc(_buf, _capa); VERIFY(_buf)]. *)
Definition m_realloc (m : marshall) (capa : Z) : res marshall :=
  VERIFY (negb (m_isnull m));;
  b ← m_deref m;
  b ← buf_realloc (m_fill m) b capa;
  Ret (Marshall (Some b) capa (m_ind m) (m_fill m)).

Definition m_rawbyte (m : marshall) (x : Z) : res marshall :=
  m ← (if m_capa m <=? m_ind m then
         let capa := s32 (m_capa m * 2) in
         m_realloc m capa
       else Ret m);
  b ← m_deref m;
  b ← buf_write b (m_ind m) (byte_of x);
  Ret (Marshall (Some b) (m_capa m) (m_ind m + 1) (m_fill m)).

Definition m_rawbytes (m : marshall) (p : list ascii) : res marshall :=
  let n := s32 (Z.of_nat (length p)) in
  m ← (if m_capa m <? s32 (m_ind m + n) then
         let capa := if n <? m_capa m then s32 (2 * m_capa m) else s32 (m_capa m + n) in
         m_realloc m capa
       else Ret m);
  b ← m_deref m;
  b ← buf_memcpy b (m_ind m) p;
  Ret (Marshall (Some b) (m_capa m) (m_ind m + n) (m_fill m)).

(** [std::string(_buf+RPC_HEADER_SZ, _ind-RPC_HEADER_SZ)]. *)
Definition m_get_content (m : marshall) : res (list ascii) :=
  b ← m_deref m;
  if (RPC_HEADER_SZ <=? m_ind m) && (m_ind m <=? Z.of_nat (length b))
  then Ret (take (Z.to_nat (m_ind m - RPC_HEADER_SZ)) (drop (Z.to_nat RPC_HEADER_SZ) b))
  else Fail UndefinedBehaviour.

Definition m_str (m : marshall) : res string := rmap of_chars (m_get_content m).

Definition m_pack (m : marshall) (x : Z) : res marshall :=
  m ← m_rawbyte m (Z.land (Z.shiftr x 24) 255);
  m ← m_rawbyte m (Z.land (Z.shiftr x 16) 255);
  m ← m_rawbyte m (Z.land (Z.shiftr x 8) 255);
  m_rawbyte m (Z.land x 255).

Definition m_set_ind (m : marshall) (i : Z) : marshall :=
  Marshall (m_buf m) (m_capa m) i (m_fill m).

Definition m_pack_req_header (m : marshall) (h : req_header) : res marshall :=
  let saved_sz := m_ind m in
  let m := m_set_ind m sizeof_rpc_sz_t in
  m ← m_pack m (rq_xid h);
  m ← m_pack m (rq_proc h);
  m ← m_pack m (s32 (rq_clt_nonce h));
  m ← m_pack m (s32 (rq_srv_nonce h));
  m ← m_pack m (rq_xid_rep h);
  Ret (m_set_ind m saved_sz).

Definition m_pack_reply_header (m : marshall) (h : reply_header) : res marshall :=
  let saved_sz := m_ind m in
  let m := m_set_ind m sizeof_rpc_sz_t in
  m ← m_pack m (rp_xid h);
  m ← m_pack m (rp_ret h);
  Ret (m_set_ind m saved_sz).

(** [take_buf]: the buffer with its size, and the emptied object. *)
Definition m_take_buf (m : marshall) : (option (list ascii) * Z) * marshall :=
  ((m_buf m, m_ind m), Marshall None (m_capa m) 0 (m_fill m)).

(** [cstr()] read for [size()] bytes, as [connection::send] does. *)
Definition m_pdu (m : marshall) : res (list ascii) :=
  b ← m_deref m;
  if (0 <=? m_ind m) && (m_ind m <=? Z.of_nat (length b))
  then Ret (take (Z.to_nat (m_ind m)) b) else Fail UndefinedBehaviour.

(** ** unmarshall *)

Record unmarshall := Unmarshall {
  u_buf : list ascii; u_sz : Z; u_ind : Z; u_ok : bool }.

Definition unmarshall_empty : unmarshall := Unmarshall [] 0 0 false.
Definition unmarshall_buf (b : list ascii) (sz : Z) : unmarshall := Unmarshall b sz 0 true.

Definition take_content (fill : ascii) (s : string) : unmarshall :=
  Unmarshall (replicate (Z.to_nat RPC_HEADER_SZ) fill ++ chars s)
    (string_size s + RPC_HEADER_SZ) RPC_HEADER_SZ true.

Definition take_in (another : unmarshall) : unmarshall :=
  Unmarshall (u_buf another) (u_sz another) RPC_HEADER_SZ (RPC_HEADER_SZ <=? u_sz another).

Definition okdone (u : unmarshall) : bool := u_ok u && (u_ind u =? u_sz u).

Definition u_set_ind (u : unmarshall) (i : Z) : unmarshall :=
  Unmarshall (u_buf u) (u_sz u) i (u_ok u).
Definition u_set_bad (u : unmarshall) : unmarshall :=
  Unmarshall (u_buf u) (u_sz u) (u_ind u) false.

(** The byte is a [char], so the [unsigned int] returned is sign-extended. *)
Definition u_rawbyte (u : unmarshall) : res (Z * unmarshall) :=
  if u_sz u <=? u_ind u then Ret (0, u_set_bad u)
  else match (if 0 <=? u_ind u then u_buf u !! Z.to_nat (u_ind u) else None) with
       | Some c => Ret (u32 (s8 (byte_val c)), u_set_ind u (u_ind u + 1))
       | None => Fail UndefinedBehaviour
       end.

(** The bound test is on [unsigned int]: [_ind+n] wraps at [2^32]. *)
Definition u_rawbytes (u : unmarshall) (ss : string) (n : Z) : res (string * unmarshall) :=
  if u32 (u_sz u) <? u32 (u_ind u + n) then Ret (ss, u_set_bad u)
  else if (0 <=? u_ind u) && (u_ind u + n <=? Z.of_nat (length (u_buf u)))
  then Ret (of_chars (take (Z.to_nat n) (drop (Z.to_nat (u_ind u)) (u_buf u))),
            u_set_ind u (s32 (u_ind u + n)))
  else Fail UndefinedBehaviour.

(** Four masked bytes, most significant first. *)
Definition u_four (u : unmarshall) : res (Z * unmarshall) :=
  '(b3, u) ← u_rawbyte u;
  '(b2, u) ← u_rawbyte u;
  '(b1, u) ← u_rawbyte u;
  '(b0, u) ← u_rawbyte u;
  Ret (Z.lor (Z.lor (Z.lor (Z.shiftl (Z.land b3 255) 24) (Z.shiftl (Z.land b2 255) 16))
                    (Z.shiftl (Z.land b1 255) 8)) (Z.land b0 255), u).

Definition u_unpack (u : unmarshall) : res (Z * unmarshall) :=
  '(x, u) ← u_four u; Ret (s32 x, u).

Definition u_unpack_req_header (u : unmarshall) : res (req_header * unmarshall) :=
  let u := u_set_ind u sizeof_rpc_sz_t in
  '(xid, u) ← u_unpack u;
  '(proc, u) ← u_unpack u;
  '(clt_nonce, u) ← u_unpack u;
  '(srv_nonce, u) ← u_unpack u;
  '(xid_rep, u) ← u_unpack u;
  Ret (ReqHeader xid proc (u32 clt_nonce) (u32 srv_nonce) xid_rep,
       u_set_ind u RPC_HEADER_SZ).

Definition u_unpack_reply_header (u : unmarshall) : res (reply_header * unmarshall) :=
  let u := u_set_ind u sizeof_rpc_sz_t in
  '(xid, u) ← u_unpack u;
  '(ret, u) ← u_unpack u;
  Ret (ReplyHeader xid ret, u_set_ind u RPC_HEADER_SZ).

(** ** The overloaded operators *)

(** [put m x] is [m << x]; [get u x0] is [u >> x] for a variable [x] that
    holds [x0], which a failed read of a string leaves unchanged. *)
Class Marshal (A : Type) := {
  put : marshall → A → res marshall;
  get : unmarshall → A → res (A * unmarshall) }.

Definition put_bool (m : marshall) (x : bool) : res marshall := m_rawbyte m (Z.b2z x).
Definition get_bool (u : unmarshall) (_ : bool) : res (bool * unmarshall) :=
  '(b, u) ← u_rawbyte u; Ret (negb (b =? 0), u).
#[export] Instance marshal_bool : Marshal bool := {| put := put_bool; get := get_bool |}.

Definition put_uchar (m : marshall) (x : uchar) : res marshall := m_rawbyte m x.
Definition get_uchar (u : unmarshall) (_ : uchar) : res (uchar * unmarshall) :=
  '(b, u) ← u_rawbyte u; Ret (u8 b, u).
#[export] Instance marshal_uchar : Marshal uchar := {| put := put_uchar; get := get_uchar |}.

Definition put_schar (m : marshall) (x : schar) : res marshall := put_uchar m (u8 x).
Definition get_schar (u : unmarshall) (_ : schar) : res (schar * unmarshall) :=
  '(b, u) ← u_rawbyte u; Ret (s8 b, u).
#[export] Instance marshal_schar : Marshal schar := {| put := put_schar; get := get_schar |}.

Definition put_ushort (m : marshall) (x : ushort) : res marshall :=
  m ← m_rawbyte m (Z.land (Z.shiftr x 8) 255);
  m_rawbyte m (Z.land x 255).
Definition get_ushort (u : unmarshall) (_ : ushort) : res (ushort * unmarshall) :=
  '(b1, u) ← u_rawbyte u;
  '(b0, u) ← u_rawbyte u;
  Ret (u16 (Z.lor (Z.shiftl (Z.land b1 255) 8) (Z.land b0 255)), u).
#[export] Instance marshal_ushort : Marshal ushort := {| put := put_ushort; get := get_ushort |}.

Definition put_sshort (m : marshall) (x : sshort) : res marshall := put_ushort m (u16 x).
Definition get_sshort (u : unmarshall) (_ : sshort) : res (sshort * unmarshall) :=
  '(b1, u) ← u_rawbyte u;
  '(b0, u) ← u_rawbyte u;
  Ret (s16 (Z.lor (Z.shiftl (Z.land b1 255) 8) (Z.land b0 255)), u).
#[export] Instance marshal_sshort : Marshal sshort := {| put := put_sshort; get := get_sshort |}.

Definition put_uint (m : marshall) (x : uint) : res marshall :=
  m ← m_rawbyte m (Z.land (Z.shiftr x 24) 255);
  m ← m_rawbyte m (Z.land (Z.shiftr x 16) 255);
  m ← m_rawbyte m (Z.land (Z.shiftr x 8) 255);
  m_rawbyte m (Z.land x 255).
Definition get_uint (u : unmarshall) (_ : uint) : res (uint * unmarshall) :=
  '(x, u) ← u_four u; Ret (u32 x, u).
#[export] Instance marshal_uint : Marshal uint := {| put := put_uint; get := get_uint |}.

Definition put_int (m : marshall) (x : int) : res marshall := put_uint m (u32 x).
Definition get_int (u : unmarshall) (_ : int) : res (int * unmarshall) :=
  '(x, u) ← u_four u; Ret (s32 x, u).
#[export] Instance marshal_int : Marshal int := {| put := put_int; get := get_int |}.

Definition put_ullong (m : marshall) (x : ullong) : res marshall :=
  m ← put_uint m (u32 (Z.shiftr x 32));
  put_uint m (u32 x).
Definition get_ullong (u : unmarshall) (_ : ullong) : res (ullong * unmarshall) :=
  '(h, u) ← get_uint u 0;
  '(l, u) ← get_uint u 0;
  Ret (Z.lor l (u64 (Z.shiftl h 32)), u).
#[export] Instance marshal_ullong : Marshal ullong := {| put := put_ullong; get := get_ullong |}.

Definition put_string (m : marshall) (s : string) : res marshall :=
  m ← put_uint m (u32 (string_size s));
  m_rawbytes m (chars s).
Definition get_string (u : unmarshall) (s : string) : res (string * unmarshall) :=
  '(sz, u) ← get_uint u 0;
  if u_ok u then u_rawbytes u s sz else Ret (s, u).
#[export] Instance marshal_string : Marshal string := {| put := put_string; get := get_string |}.

(** *** Containers *)

Section containers.
Context {C : Type} `{Marshal C} (z : C).

Fixpoint put_each (m : marshall) (v : list C) : res marshall :=
  match v with
  | [] => Ret m
  | c :: v => m ← put m c; put_each m v
  end.

Definition put_vector (m : marshall) (v : list C) : res marshall :=
  m ← put_uint m (u32 (Z.of_nat (length v)));
  put_each m v.

(** [z] is the value a fresh variable [C z] starts with; the loop runs to
    [n] even when the buffer is exhausted. *)
Fixpoint get_each (n : nat) (u : unmarshall) (v : list C) : res (list C * unmarshall) :=
  match n with
  | O => Ret (v, u)
  | S n => '(c, u) ← get u z; get_each n u (v ++ [c])
  end.

Definition get_vector (u : unmarshall) (_ : list C) : res (list C * unmarshall) :=
  '(n, u) ← get_uint u 0;
  get_each (Z.to_nat n) u [].
End containers.

#[export] Instance marshal_vector_string : Marshal (list string) :=
  {| put := put_vector; get := get_vector "" |}.

Section map_container.
Context {K V : Type} `{Countable K} `{Marshal K} `{Marshal V} (k0 : K) (v0 : V).

(** A [std::map] is written in key order; [l] is the map's entries in the
    order its iterator visits them. *)
Fixpoint put_entries (m : marshall) (l : list (K * V)) : res marshall :=
  match l with
  | [] => Ret m
  | (a, b) :: l => m ← put m a; m ← put m b; put_entries m l
  end.

Definition put_map (m : marshall) (l : list (K * V)) : res marshall :=
  m ← put_uint m (u32 (Z.of_nat (length l)));
  put_entries m l.

Fixpoint get_entries (n : nat) (u : unmarshall) (d : gmap K V) : res (gmap K V * unmarshall) :=
  match n with
  | O => Ret (d, u)
  | S n => '(a, u) ← get u k0; '(b, u) ← get u v0; get_entries n u (<[a:=b]> d)
  end.

Definition get_map (u : unmarshall) (_ : gmap K V) : res (gmap K V * unmarshall) :=
  '(n, u) ← get_uint u 0;
  get_entries (Z.to_nat n) u ∅.
End map_container.

(** ** What a live buffer holds *)

(** [rep m h c]: the buffer is allocated with its recorded capacity, its
    header area is [h], and the bytes after it up to the head are exactly [c]. *)
Inductive rep (m : marshall) (h c : list ascii) : Prop :=
| Rep rest fill :
    let sz := RPC_HEADER_SZ + Z.of_nat (length c) in
    let capa := Z.of_nat (length (h ++ c ++ rest)) in
    Z.of_nat (length h) = RPC_HEADER_SZ →
    m = Marshall (Some (h ++ c ++ rest)) capa sz fill →
    rep m h c.

(** A message of less than 2^30 bytes, header included: below it no [int] of
    the growth arithmetic overflows. *)
Definition fits (c : list ascii) : Prop := RPC_HEADER_SZ + Z.of_nat (length c) < 2 ^ 30.

Lemma fits_app_l c d : fits (c ++ d) → fits c.
Proof. unfold fits. rewrite length_app. lia. Qed.

Lemma hdr_sz : RPC_HEADER_SZ = 24. Proof. reflexivity. Qed.

Lemma buf_write_mid p r q x :
  buf_write (p ++ r :: q) (Z.of_nat (length p)) x = Ret (p ++ x :: q).
Proof.
  unfold buf_write. rewrite length_app; simpl.
  replace (_ && _) with true by lia.
  by rewrite Nat2Z.id, insert_app_r_alt, Nat.sub_diag by lia.
Qed.

Lemma buf_memcpy_mid p r q x :
  length x = length r → buf_memcpy (p ++ r ++ q) (Z.of_nat (length p)) x = Ret (p ++ x ++ q).
Proof.
  intros Hl. unfold buf_memcpy. rewrite !length_app.
  replace (_ && _) with true by lia.
  rewrite Nat2Z.id, take_app_length, Hl.
  by rewrite drop_app_add, drop_app_length.
Qed.

Lemma buf_realloc_grow fill b n :
  Z.of_nat (length b) ≤ n →
  buf_realloc fill b n = Ret (b ++ replicate (Z.to_nat n - length b) fill).
Proof.
  intros. unfold buf_realloc. rewrite VERIFY_true by lia. simpl.
  by rewrite take_ge by lia.
Qed.

Lemma rep_head m h c : rep m h c → m_ind m = RPC_HEADER_SZ + Z.of_nat (length c).
Proof. by intros [rest fill sz capa _ ->]. Qed.

Lemma rep_capa m h c : rep m h c → m_ind m ≤ m_capa m.
Proof. intros [rest fill sz capa Hh ->]; simpl. unfold capa, sz. rewrite !length_app. lia. Qed.

Lemma rep_len m h c :
  rep m h c → m_ind m = Z.of_nat (length (h ++ c)).
Proof. intros [rest fill sz capa Hh ->]. simpl. unfold sz. rewrite length_app. lia. Qed.

(** Growing keeps the content, *)
Lemma m_realloc_rep m h c capa' :
  rep m h c → m_capa m ≤ capa' →
  ∃ m', m_realloc m capa' = Ret m' ∧ rep m' h c ∧ m_capa m' = capa'.
Proof.
  intros [rest fill sz capa Hh ->] Hle; simpl in *.
  unfold m_realloc; simpl. rewrite buf_realloc_grow by done. simpl.
  eexists; split; [done|]. split; [|done].
  eapply (Rep _ h c (rest ++ replicate (Z.to_nat capa' - length (h ++ c ++ rest)) fill) fill);
    [done|].
  rewrite !(assoc_L (++)), (length_app (_ ++ rest)), length_replicate, <- !(assoc_L (++)).
  f_equal. fold capa in Hle. lia.
Qed.

(** and writing where there is room appends. *)
Lemma m_write_rep m h c p :
  rep m h c → m_ind m + Z.of_nat (length p) ≤ m_capa m →
  ∃ old rest, m_buf m = Some ((h ++ c) ++ old ++ rest) ∧ length p = length old ∧
    rep (Marshall (Some ((h ++ c) ++ p ++ rest)) (m_capa m)
      (m_ind m + Z.of_nat (length p)) (m_fill m)) h (c ++ p).
Proof.
  intros [rest fill sz capa Hh ->] Hroom; simpl in *.
  assert (length p ≤ length rest)%nat.
  { unfold capa, sz in *. rewrite !length_app in *. lia. }
  exists (take (length p) rest), (drop (length p) rest).
  rewrite take_drop, length_take, <- !(assoc_L (++)). split_and!; [done|lia|].
  rewrite (assoc_L (++) c p).
  assert (capa = Z.of_nat (length (h ++ (c ++ p) ++ drop (length p) rest))) as E.
  { unfold capa. rewrite !length_app, length_drop. lia. }
  rewrite E. econstructor; [done|]. f_equal. rewrite length_app. lia.
Qed.

Lemma m_rawbyte_rep m h c x :
  rep m h c → fits (c ++ [byte_of x]) →
  ∃ m', m_rawbyte m x = Ret m' ∧ rep m' h (c ++ [byte_of x]).
Proof.
  intros Hrep Hfit. unfold fits in Hfit. rewrite length_app in Hfit; simpl in Hfit.
  pose proof (rep_head _ _ _ Hrep) as Hi. pose proof (rep_capa _ _ _ Hrep). pose proof hdr_sz.
  assert (∃ m1, (if m_capa m <=? m_ind m then m_realloc m (s32 (m_capa m * 2)) else Ret m) = Ret m1 ∧
    rep m1 h c ∧ m_ind m1 + 1 ≤ m_capa m1) as (m1 & Em1 & Hm1 & Hroom).
  { destruct (Z.leb_spec (m_capa m) (m_ind m)); [|by exists m; split_and!; [..|lia]].
    rewrite s32_id by (wrap_unfold; lia).
    destruct (m_realloc_rep m h c (m_capa m * 2)) as (m' & ? & Hr & ?); [done|lia|].
    exists m'. split_and!; [done..|]. rewrite (rep_head _ _ _ Hr). lia. }
  unfold m_rawbyte. rewrite Em1. simpl.
  destruct (m_write_rep m1 h c [byte_of x] Hm1) as ([|r [|]] & rest & Hb & Hl & Hr);
    [done|done| |done].
  unfold m_deref. rewrite Hb. simpl.
  rewrite (rep_len _ _ _ Hm1), buf_write_mid, <- (rep_len _ _ _ Hm1). simpl. eauto.
Qed.

Lemma m_rawbytes_rep m h c p :
  rep m h c → fits (c ++ p) → ∃ m', m_rawbytes m p = Ret m' ∧ rep m' h (c ++ p).
Proof.
  intros Hrep Hfit. unfold fits in Hfit. rewrite length_app in Hfit.
  pose proof (rep_head _ _ _ Hrep) as Hi. pose proof (rep_capa _ _ _ Hrep). pose proof hdr_sz.
  unfold m_rawbytes. set (n := Z.of_nat (length p)) in *.
  rewrite (s32_id n), (s32_id (_ + n)) by (wrap_unfold; lia).
  set (capa := if n <? m_capa m then _ else _).
  assert (∃ m1, (if m_capa m <? m_ind m + n then m_realloc m capa else Ret m) = Ret m1 ∧
    rep m1 h c ∧ m_ind m1 + n ≤ m_capa m1) as (m1 & Em1 & Hm1 & Hroom).
  { destruct (Z.ltb_spec (m_capa m) (m_ind m + n)); [|by exists m; split_and!; [..|lia]].
    assert (capa = if n <? m_capa m then 2 * m_capa m else m_capa m + n) as Ec.
    { subst capa. rewrite !s32_id by (wrap_unfold; lia). done. }
    destruct (m_realloc_rep m h c capa) as (m' & ? & Hr & ?);
      [done|rewrite Ec; destruct (n <? m_capa m); lia|].
    exists m'. split_and!; [done..|].
    rewrite (rep_head _ _ _ Hr). destruct (Z.ltb_spec n (m_capa m)); lia. }
  rewrite Em1. simpl.
  destruct (m_write_rep m1 h c p Hm1) as (old & rest & Hb & Hl & Hr); [done|].
  unfold m_deref. rewrite Hb. simpl.
  rewrite (rep_len _ _ _ Hm1), buf_memcpy_mid, <- (rep_len _ _ _ Hm1) by done.
  simpl. eauto.
Qed.

Lemma marshall_new_rep fill :
  rep (marshall_new fill) (replicate (Z.to_nat RPC_HEADER_SZ) fill) [].
Proof.
  unfold marshall_new. apply (Rep _ _ _ (replicate (Z.to_nat (DEFAULT_RPC_SZ - RPC_HEADER_SZ)) fill) fill).
  - done.
  - reflexivity.
Qed.

Lemma m_str_rep m h c : rep m h c → m_str m = Ret (of_chars c).
Proof.
  intros [rest fill sz capa Hh ->]. unfold m_str, m_get_content; simpl. unfold sz.
  rewrite !length_app. replace (_ && _) with true by lia. simpl. do 2 f_equal.
  replace (Z.to_nat RPC_HEADER_SZ) with (length h) by lia.
  rewrite drop_app_length. replace (Z.to_nat _) with (length c) by lia.
  by rewrite take_app_length.
Qed.

Lemma m_pdu_rep m h c : rep m h c → m_pdu m = Ret (h ++ c).
Proof.
  intros Hr. pose proof (rep_len _ _ _ Hr) as Hl. destruct Hr as [rest fill sz capa Hh ->].
  unfold m_pdu; simpl in *. rewrite Hl, (assoc_L (++)).
  rewrite (length_app (h ++ c)). replace (_ && _) with true by lia.
  by rewrite Nat2Z.id, take_app_length.
Qed.

(** Packing into the header area: four bytes of it are replaced and the rest
    of the buffer is kept. *)
Definition be32 (x : Z) : list ascii :=
  [byte_of (Z.land (Z.shiftr x 24) 255); byte_of (Z.land (Z.shiftr x 16) 255);
   byte_of (Z.land (Z.shiftr x 8) 255); byte_of (Z.land x 255)].

Arguments be32 : simpl never.

Lemma m_rawbyte_in p r q capa fill x :
  Z.of_nat (length p) < capa →
  m_rawbyte (Marshall (Some (p ++ r :: q)) capa (Z.of_nat (length p)) fill) x =
  Ret (Marshall (Some ((p ++ [byte_of x]) ++ q)) capa (Z.of_nat (length (p ++ [byte_of x]))) fill).
Proof.
  intros. unfold m_rawbyte; simpl. replace (_ <=? _) with false by lia. simpl.
  rewrite buf_write_mid. simpl. rewrite <- (assoc_L (++)), length_app. simpl.
  do 3 f_equal. lia.
Qed.

Lemma m_pack_in p r q capa fill x :
  length r = 4%nat → Z.of_nat (length p) + 4 ≤ capa →
  m_pack (Marshall (Some (p ++ r ++ q)) capa (Z.of_nat (length p)) fill) x =
  Ret (Marshall (Some ((p ++ be32 x) ++ q)) capa (Z.of_nat (length (p ++ be32 x))) fill).
Proof.
  intros Hr Hc. destruct r as [|r0 [|r1 [|r2 [|r3 [|]]]]]; try done. simpl.
  unfold m_pack.
  do 4 (rewrite m_rawbyte_in by (rewrite ?length_app; simpl; lia); cbn [rbind]).
  unfold be32. rewrite <- !(assoc_L (++)). done.
Qed.

(** Splits a list of known length from the front. *)
Lemma split_at {A} (l : list A) n :
  (n ≤ length l)%nat → ∃ a b, l = a ++ b ∧ length a = n.
Proof. intros. exists (take n l), (drop n l). rewrite take_drop, length_take. split; [done|lia]. Qed.

Lemma m_set_ind_eq b capa i fill j :
  m_set_ind (Marshall b capa i fill) j = Marshall b capa j fill.
Proof. done. Qed.

Definition req_header_bytes (h : req_header) : list ascii :=
  be32 (rq_xid h) ++ be32 (rq_proc h) ++ be32 (s32 (rq_clt_nonce h)) ++
  be32 (s32 (rq_srv_nonce h)) ++ be32 (rq_xid_rep h).

Definition reply_header_bytes (h : reply_header) : list ascii :=
  be32 (rp_xid h) ++ be32 (rp_ret h).

Lemma length_be32 x : length (be32 x) = 4%nat. Proof. done. Qed.

(** The number in bytes, most significant first. *)
Definition of_be (l : list ascii) : Z := foldl (λ n c, 256 * n + byte_val c) 0 l.

Lemma of_be_be32 x : of_be (be32 x) = u32 x.
Proof.
  unfold of_be, be32. cbn [foldl]. rewrite !byte_val_of, !land_255, !Z.shiftr_div_pow2 by lia.
  change (2 ^ 24) with 16777216. change (2 ^ 16) with 65536. change (2 ^ 8) with 256. wrap_lia.
Qed.

Ltac pack_step :=
  rewrite m_pack_in by (rewrite ?length_app, ?length_be32; lia); cbn [rbind].

Lemma m_pack_req_header_rep m h c hd :
  rep m h c →
  ∃ m' sz, m_pack_req_header m hd = Ret m' ∧ length sz = 4%nat ∧
    rep m' (sz ++ req_header_bytes hd) c.
Proof.
  intros [rest fill s0 capa Hh ->]. pose proof hdr_sz.
  destruct (split_at h 4) as (sz & h1 & -> & Hsz); [lia|].
  rewrite length_app in Hh.
  destruct (split_at h1 4) as (x1 & h2 & -> & H1); [lia|]. rewrite length_app in Hh.
  destruct (split_at h2 4) as (x2 & h3 & -> & H2); [lia|]. rewrite length_app in Hh.
  destruct (split_at h3 4) as (x3 & h4 & -> & H3); [lia|]. rewrite length_app in Hh.
  destruct (split_at h4 4) as (x4 & x5 & -> & H4); [lia|]. rewrite length_app in Hh.
  assert (length x5 = 4%nat) as H5 by lia.
  unfold m_pack_req_header. rewrite m_set_ind_eq.
  replace sizeof_rpc_sz_t with (Z.of_nat (length sz)) by (rewrite Hsz; done).
  rewrite <- !(assoc_L (++)).
  assert (24 ≤ capa) by (unfold capa; rewrite !length_app; lia).
  do 5 pack_step. rewrite m_set_ind_eq. eexists _, sz. split_and!; [done|done|].
  apply (Rep _ _ _ rest fill).
  - unfold req_header_bytes. rewrite !length_app, !length_be32. lia.
  - unfold req_header_bytes, capa, s0. rewrite <- !(assoc_L (++)). f_equal.
    rewrite !length_app, !length_be32. lia.
Qed.

Lemma m_pack_reply_header_rep m h c hd :
  rep m h c →
  ∃ m' sz tl, m_pack_reply_header m hd = Ret m' ∧ length sz = 4%nat ∧
    rep m' (sz ++ reply_header_bytes hd ++ tl) c.
Proof.
  intros [rest fill s0 capa Hh ->]. pose proof hdr_sz.
  destruct (split_at h 4) as (sz & h1 & -> & Hsz); [lia|].
  rewrite length_app in Hh.
  destruct (split_at h1 4) as (x1 & h2 & -> & H1); [lia|]. rewrite length_app in Hh.
  destruct (split_at h2 4) as (x2 & tl & -> & H2); [lia|]. rewrite length_app in Hh.
  unfold m_pack_reply_header. rewrite m_set_ind_eq.
  replace sizeof_rpc_sz_t with (Z.of_nat (length sz)) by (rewrite Hsz; done).
  rewrite <- !(assoc_L (++)).
  assert (24 ≤ capa) by (unfold capa; rewrite !length_app; lia).
  do 2 pack_step. rewrite m_set_ind_eq. eexists _, sz, tl. split_and!; [done|done|].
  apply (Rep _ _ _ rest fill).
  - unfold reply_header_bytes. rewrite !length_app, !length_be32. lia.
  - unfold reply_header_bytes, capa, s0. rewrite <- !(assoc_L (++)). f_equal.
    rewrite !length_app, !length_be32. lia.
Qed.

(** ** What a read head sees *)

(** [reads u l]: no error so far, the sizes agree with the buffer, and the
    bytes between the head and the end are [l]. *)
Inductive reads (u : unmarshall) (l : list ascii) : Prop :=
| Reads p :
    Z.of_nat (length (p ++ l)) < 2 ^ 31 →
    u = Unmarshall (p ++ l) (Z.of_nat (length (p ++ l))) (Z.of_nat (length p)) true →
    reads u l.

Lemma reads_okdone u l : reads u l → okdone u = bool_decide (l = []).
Proof.
  intros [p _ ->]. unfold okdone; simpl. rewrite length_app.
  case_bool_decide as H; destruct l; simpl in *; try done; lia.
Qed.

Lemma reads_ok u l : reads u l → u_ok u = true.
Proof. by intros [p _ ->]. Qed.

Lemma land_u32_s8 c : Z.land (u32 (s8 (byte_val c))) 255 = byte_val c.
Proof. rewrite land_255. pose proof (byte_val_range c). wrap_lia. Qed.

Lemma u_rawbyte_reads u c l :
  reads u (c :: l) → ∃ u', u_rawbyte u = Ret (u32 (s8 (byte_val c)), u') ∧ reads u' l.
Proof.
  intros [p Hlt ->]. unfold u_rawbyte; simpl. rewrite length_app; simpl.
  replace (_ <=? _) with false by lia. replace (0 <=? _) with true by lia.
  rewrite Nat2Z.id, lookup_app_r, Nat.sub_diag by lia. simpl.
  eexists; split; [done|].
  apply (Reads _ _ (p ++ [c])); rewrite <- (assoc_L (++)); simpl; [done|].
  unfold u_set_ind; simpl. f_equal; rewrite ?length_app; simpl; lia.
Qed.

Lemma u_rawbytes_reads u x l ss n :
  reads u (x ++ l) → n = Z.of_nat (length x) →
  ∃ u', u_rawbytes u ss n = Ret (of_chars x, u') ∧ reads u' l.
Proof.
  intros [p Hlt ->] ->. unfold u_rawbytes; simpl.
  rewrite !length_app in *.
  rewrite !u32_id by (wrap_unfold; lia). replace (_ <? _) with false by lia.
  replace (_ && _) with true by lia. rewrite !Nat2Z.id, drop_app_length, take_app_length.
  eexists; split; [done|].
  apply (Reads _ _ (p ++ x)); rewrite <- (assoc_L (++)); [rewrite !length_app; lia|].
  unfold u_set_ind; simpl. rewrite !length_app. f_equal. rewrite s32_id by (wrap_unfold; lia). lia.
Qed.

Lemma be32_value b3 b2 b1 b0 :
  0 ≤ b3 < 256 → 0 ≤ b2 < 256 → 0 ≤ b1 < 256 → 0 ≤ b0 < 256 →
  Z.lor (Z.lor (Z.lor (Z.shiftl b3 24) (Z.shiftl b2 16)) (Z.shiftl b1 8)) b0 =
  b3 * 2 ^ 24 + (b2 * 2 ^ 16 + (b1 * 2 ^ 8 + b0)).
Proof.
  intros. rewrite <- !Z.lor_assoc.
  rewrite (lor_shiftl_add b1 b0), (lor_shiftl_add b2), (lor_shiftl_add b3); lia.
Qed.

Lemma u_four_reads u x l :
  reads u (be32 x ++ l) → ∃ u', u_four u = Ret (u32 x, u') ∧ reads u' l.
Proof.
  intros Hr. unfold be32 in Hr; simpl in Hr. unfold u_four.
  do 4 (apply u_rawbyte_reads in Hr as (?u & -> & Hr); cbn [rbind]).
  eexists; split; [|done]. rewrite !land_u32_s8, !byte_val_of, !land_255, !Z.shiftr_div_pow2 by lia.
  rewrite be32_value by (apply Z.mod_pos_bound; lia). do 2 f_equal.
  change (2 ^ 24) with 16777216. wrap_lia.
Qed.

(** ** The contract of an overload *)

Class MarshalOk (A : Type) `{Marshal A} := {
  wf : A → Prop;
  enc : A → list ascii;
  put_ok m h c a :
    rep m h c → wf a → fits (c ++ enc a) → ∃ m', put m a = Ret m' ∧ rep m' h (c ++ enc a);
  get_ok u l a a0 :
    reads u (enc a ++ l) → wf a → ∃ u', get u a0 = Ret (a, u') ∧ reads u' l }.

Lemma put_be32 m h c x :
  rep m h c → fits (c ++ be32 x) →
  ∃ m', put_uint m x = Ret m' ∧ rep m' h (c ++ be32 x).
Proof.
  intros Hrep Hfit. unfold put_uint.
  assert (∀ k, (k ≤ 4)%nat → fits (c ++ take k (be32 x))) as Hk.
  { intros k ?. unfold fits in *. rewrite length_app in *. rewrite length_take, length_be32 in *. simpl in *. lia. }
  destruct (m_rawbyte_rep m h c (Z.land (Z.shiftr x 24) 255)) as (m1 & -> & R1); [done|apply (Hk 1%nat); lia|].
  cbn [rbind].
  destruct (m_rawbyte_rep _ _ _ (Z.land (Z.shiftr x 16) 255) R1) as (m2 & -> & R2);
    [rewrite <- (assoc_L (++)); apply (Hk 2%nat); lia|].
  cbn [rbind].
  destruct (m_rawbyte_rep _ _ _ (Z.land (Z.shiftr x 8) 255) R2) as (m3 & -> & R3);
    [rewrite <- !(assoc_L (++)); apply (Hk 3%nat); lia|].
  cbn [rbind].
  destruct (m_rawbyte_rep _ _ _ (Z.land x 255) R3) as (m4 & -> & R4);
    [rewrite <- !(assoc_L (++)); apply (Hk 4%nat); lia|].
  rewrite <- !(assoc_L (++)) in R4. eauto.
Qed.

#[local] Obligation Tactic := idtac.

#[export] Program Instance bool_ok : MarshalOk bool :=
  {| wf := λ _, True; enc := λ x, [byte_of (Z.b2z x)] |}.
Next Obligation. intros m h c x Hr _ Hf. by apply m_rawbyte_rep. Qed.
Next Obligation.
  intros u l x x0 Hr _. simpl in *. unfold get_bool.
  apply u_rawbyte_reads in Hr as (u' & -> & Hr). simpl. eexists; split; [|done].
  rewrite byte_val_of. by destruct x.
Qed.

#[export] Program Instance uchar_ok : MarshalOk uchar :=
  {| wf := in_u8; enc := λ x, [byte_of x] |}.
Next Obligation. intros m h c x Hr _ Hf. by apply m_rawbyte_rep. Qed.
Next Obligation.
  intros u l x x0 Hr Hx. simpl in *. unfold get_uchar.
  apply u_rawbyte_reads in Hr as (u' & -> & Hr). simpl. eexists; split; [|done].
  rewrite byte_val_of. do 2 f_equal. wrap_lia.
Qed.

#[export] Program Instance schar_ok : MarshalOk schar :=
  {| wf := λ x, -128 ≤ x < 128; enc := λ x, [byte_of (u8 x)] |}.
Next Obligation. intros m h c x Hr _ Hf. by apply m_rawbyte_rep. Qed.
Next Obligation.
  intros u l x x0 Hr Hx. simpl in *. unfold get_schar.
  apply u_rawbyte_reads in Hr as (u' & -> & Hr). simpl. eexists; split; [|done].
  rewrite byte_val_of. do 2 f_equal. wrap_lia.
Qed.

Definition be16 (x : Z) : list ascii :=
  [byte_of (Z.land (Z.shiftr x 8) 255); byte_of (Z.land x 255)].

Arguments be16 : simpl never.

Lemma put_be16 m h c x :
  rep m h c → fits (c ++ be16 x) →
  ∃ m', put_ushort m x = Ret m' ∧ rep m' h (c ++ be16 x).
Proof.
  intros Hrep Hfit. unfold put_ushort.
  destruct (m_rawbyte_rep m h c (Z.land (Z.shiftr x 8) 255)) as (m1 & -> & R1); [done| |].
  { unfold fits, be16 in *. rewrite length_app in *. simpl in *. lia. }
  cbn [rbind].
  destruct (m_rawbyte_rep _ _ _ (Z.land x 255) R1) as (m2 & -> & R2);
    [by rewrite <- (assoc_L (++))|].
  rewrite <- !(assoc_L (++)) in R2. eauto.
Qed.

(** The two masked bytes give the low sixteen bits, whatever the target. *)
Lemma two_reads u x l :
  reads u (be16 x ++ l) →
  ∃ b1 b0 u1 u2, u_rawbyte u = Ret (b1, u1) ∧ u_rawbyte u1 = Ret (b0, u2) ∧
    Z.lor (Z.shiftl (Z.land b1 255) 8) (Z.land b0 255) = u16 x ∧ reads u2 l.
Proof.
  intros Hr. unfold be16 in Hr; simpl in Hr.
  apply u_rawbyte_reads in Hr as (u1 & E1 & Hr).
  apply u_rawbyte_reads in Hr as (u2 & E2 & Hr).
  do 4 eexists; split_and!; [done..| |done].
  rewrite !land_u32_s8, !byte_val_of, !land_255, !Z.shiftr_div_pow2 by lia.
  rewrite lor_shiftl_add by (try apply Z.mod_pos_bound; lia).
  change (2 ^ 8) with 256. wrap_lia.
Qed.

#[export] Program Instance ushort_ok : MarshalOk ushort :=
  {| wf := in_u16; enc := be16 |}.
Next Obligation. intros m h c x Hr _ Hf. by apply put_be16. Qed.
Next Obligation.
  intros u l x x0 Hr Hx. simpl in *. unfold get_ushort.
  apply (two_reads u x l) in Hr as (b1 & b0 & u1 & u2 & E1 & E2 & E & Hr).
  rewrite E1; cbn [rbind]. rewrite E2; cbn [rbind]. rewrite E. eexists; split; [|done]. do 2 f_equal. wrap_lia.
Qed.

#[export] Program Instance sshort_ok : MarshalOk sshort :=
  {| wf := in_s16; enc := λ x, be16 (u16 x) |}.
Next Obligation. intros m h c x Hr _ Hf. by apply put_be16. Qed.
Next Obligation.
  intros u l x x0 Hr Hx. simpl in *. unfold get_sshort.
  apply (two_reads u (u16 x) l) in Hr as (b1 & b0 & u1 & u2 & E1 & E2 & E & Hr).
  rewrite E1; cbn [rbind]. rewrite E2; cbn [rbind]. rewrite E. eexists; split; [|done]. do 2 f_equal. wrap_lia.
Qed.

#[export] Program Instance uint_ok : MarshalOk uint := {| wf := in_u32; enc := be32 |}.
Next Obligation. intros m h c x Hr _ Hf. by apply put_be32. Qed.
Next Obligation.
  intros u l x x0 Hr Hx. simpl in *. unfold get_uint.
  apply (u_four_reads u x l) in Hr as (u1 & -> & Hr). cbn [rbind].
  eexists; split; [|done]. do 2 f_equal. wrap_lia.
Qed.

#[export] Program Instance int_ok : MarshalOk int := {| wf := in_s32; enc := λ x, be32 (u32 x) |}.
Next Obligation. intros m h c x Hr _ Hf. by apply put_be32. Qed.
Next Obligation.
  intros u l x x0 Hr Hx. simpl in *. unfold get_int.
  apply (u_four_reads u (u32 x) l) in Hr as (u1 & -> & Hr). cbn [rbind].
  eexists; split; [|done]. do 2 f_equal. wrap_lia.
Qed.

Lemma get_uint_reads u x x0 l :
  reads u (be32 x ++ l) → in_u32 x → ∃ u', get_uint u x0 = Ret (x, u') ∧ reads u' l.
Proof. intros Hr Hx. exact (get_ok (A:=uint) u l x x0 Hr Hx). Qed.

(** A sequence of two writes (reads), from the contracts of each. *)
Lemma put_seq {A B} `{MarshalOk A} `{MarshalOk B} m h c (a : A) (b : B) :
  rep m h c → wf a → wf b → fits (c ++ enc a ++ enc b) →
  ∃ m', (m ← put m a; put m b) = Ret m' ∧ rep m' h (c ++ enc a ++ enc b).
Proof.
  intros Hr Ha Hb Hf.
  destruct (put_ok m h c a) as (m1 & -> & R1); [done..| |].
  { rewrite (assoc_L (++)) in Hf. by eapply fits_app_l. }
  cbn [rbind]. rewrite (assoc_L (++)) in *. by apply put_ok.
Qed.

#[export] Program Instance ullong_ok : MarshalOk ullong :=
  {| wf := in_u64; enc := λ x, be32 (u32 (Z.shiftr x 32)) ++ be32 (u32 x) |}.
Next Obligation.
  intros m h c x Hr Hx Hf.
  exact (put_seq (A:=uint) (B:=uint) m h c (u32 (Z.shiftr x 32)) (u32 x)
    Hr (u32_range _) (u32_range _) Hf).
Qed.
Next Obligation.
  intros u l x x0 Hr Hx. cbv beta in Hr. rewrite <- (assoc_L (++)) in Hr.
  cbn [get marshal_ullong]. unfold get_ullong.
  destruct (get_uint_reads u _ 0 _ Hr (u32_range _)) as (u1 & E1 & Hr1).
  destruct (get_uint_reads u1 _ 0 _ Hr1 (u32_range _)) as (u2 & E2 & Hr2).
  rewrite E1. cbn [rbind]. rewrite E2. cbn [rbind].
  eexists; split; [|done]. do 2 f_equal.
  rewrite Z.shiftr_div_pow2 by lia.
  assert (u64 (Z.shiftl (u32 (x / 2 ^ 32)) 32) = Z.shiftl (x / 2 ^ 32) 32) as ->.
  { rewrite !Z.shiftl_mul_pow2 by lia. wrap_lia. }
  rewrite Z.lor_comm, lor_shiftl_add by (try apply u32_range; lia). wrap_lia.
Qed.

#[export] Program Instance string_ok : MarshalOk string :=
  {| wf := λ s, string_size s < 2 ^ 31; enc := λ s, be32 (string_size s) ++ chars s |}.
Next Obligation.
  intros m h c s Hr Hs Hf. cbv beta in *. cbn [put marshal_string]. unfold put_string.
  assert (u32 (string_size s) = string_size s) as -> by (unfold string_size in *; wrap_lia).
  destruct (put_be32 m h c (string_size s)) as (m1 & -> & R1); [done| |].
  { rewrite (assoc_L (++)) in Hf. by eapply fits_app_l. }
  cbn [rbind]. rewrite (assoc_L (++)) in *. by apply m_rawbytes_rep.
Qed.
Next Obligation.
  intros u l s s0 Hr Hs. cbv beta in *. rewrite <- (assoc_L (++)) in Hr.
  cbn [get marshal_string]. unfold get_string.
  assert (in_u32 (string_size s)) as Hs' by (unfold string_size in *; wrap_lia).
  destruct (get_uint_reads u _ 0 _ Hr Hs') as (u1 & E1 & Hr1).
  rewrite E1. cbn [rbind]. rewrite (reads_ok _ _ Hr1).
  apply (u_rawbytes_reads _ _ _ s0 (string_size s)) in Hr1 as (u2 & -> & Hr2);
    [|unfold string_size; by rewrite length_chars].
  rewrite of_chars_chars. eauto.
Qed.

(** *** Containers *)

Section vector_ok.
Context {C : Type} `{MarshalOk C} (z : C).

Definition enc_vector (v : list C) : list ascii :=
  be32 (Z.of_nat (length v)) ++ mjoin (enc <$> v).

Lemma put_each_rep m h c v :
  rep m h c → Forall wf v → fits (c ++ mjoin (enc <$> v)) →
  ∃ m', put_each m v = Ret m' ∧ rep m' h (c ++ mjoin (enc <$> v)).
Proof.
  revert m c. induction v as [|x v IH]; intros m c Hr Hv Hf; simpl in *.
  { rewrite app_nil_r. eauto. }
  rewrite (assoc_L (++)) in *. apply Forall_cons_1 in Hv as [Hx Hv].
  destruct (put_ok m h c x) as (m1 & -> & R1); [done..|by eapply fits_app_l|].
  cbn [rbind]. by apply IH.
Qed.

Definition wf_vector (v : list C) : Prop := Forall wf v ∧ Z.of_nat (length v) < 2 ^ 31.

Lemma put_vector_rep m h c v :
  rep m h c → wf_vector v → fits (c ++ enc_vector v) →
  ∃ m', put_vector m v = Ret m' ∧ rep m' h (c ++ enc_vector v).
Proof.
  intros Hr [Hv Hl] Hf. unfold put_vector, enc_vector in *.
  rewrite (assoc_L (++)) in *. rewrite u32_id by (wrap_unfold; lia).
  destruct (put_be32 m h c (Z.of_nat (length v))) as (m1 & -> & R1);
    [done|by eapply fits_app_l|].
  cbn [rbind]. by apply put_each_rep.
Qed.

Lemma get_each_reads u l v acc :
  reads u (mjoin (enc <$> v) ++ l) → Forall wf v →
  ∃ u', get_each z (length v) u acc = Ret (acc ++ v, u') ∧ reads u' l.
Proof.
  revert u acc. induction v as [|x v IH]; intros u acc Hr Hv; simpl in *.
  { rewrite app_nil_r. eauto. }
  rewrite <- (assoc_L (++)) in Hr. apply Forall_cons_1 in Hv as [Hx Hv].
  destruct (get_ok u _ x z Hr Hx) as (u1 & -> & R1). cbn [rbind].
  destruct (IH u1 (acc ++ [x]) R1 Hv) as (u2 & -> & R2).
  rewrite <- (assoc_L (++)). eauto.
Qed.

Lemma get_vector_reads u l v v0 :
  reads u (enc_vector v ++ l) → wf_vector v →
  ∃ u', get_vector z u v0 = Ret (v, u') ∧ reads u' l.
Proof.
  intros Hr [Hv Hl]. unfold enc_vector in Hr. rewrite <- (assoc_L (++)) in Hr.
  unfold get_vector.
  destruct (get_uint_reads u _ 0 _ Hr) as (u1 & -> & R1); [wrap_unfold; lia|].
  cbn [rbind]. rewrite Nat2Z.id. by apply (get_each_reads u1 l v []).
Qed.
End vector_ok.

#[export] Instance vector_string_ok : MarshalOk (list string) := {|
  wf := wf_vector; enc := enc_vector;
  put_ok := put_vector_rep; get_ok := get_vector_reads "" |}.

Section map_ok.
Context {K V : Type} `{Countable K} `{MarshalOk K} `{MarshalOk V} (k0 : K) (v0 : V).

Definition enc_entry (e : K * V) : list ascii := enc e.1 ++ enc e.2.
Definition enc_entries (l : list (K * V)) : list ascii := mjoin (enc_entry <$> l).
Definition enc_map (l : list (K * V)) : list ascii :=
  be32 (Z.of_nat (length l)) ++ enc_entries l.
Definition wf_entries (l : list (K * V)) : Prop :=
  Forall (λ e, wf e.1 ∧ wf e.2) l ∧ Z.of_nat (length l) < 2 ^ 31.

Lemma put_entries_rep m h c l :
  rep m h c → Forall (λ e, wf e.1 ∧ wf e.2) l → fits (c ++ enc_entries l) →
  ∃ m', put_entries m l = Ret m' ∧ rep m' h (c ++ enc_entries l).
Proof.
  unfold enc_entries.
  revert m c. induction l as [|[a b] l IH]; intros m c Hr Hv Hf; simpl in *.
  { rewrite app_nil_r. eauto. }
  apply Forall_cons_1 in Hv as [[Ha Hb] Hv]. unfold enc_entry in *; simpl in *.
  rewrite <- (assoc_L (++) (enc a)) in *.
  destruct (put_ok m h c a) as (m1 & -> & R1);
    [done..|rewrite (assoc_L (++)) in Hf; by eapply fits_app_l|].
  cbn [rbind]. rewrite (assoc_L (++) c) in *.
  destruct (put_ok m1 h (c ++ enc a) b) as (m2 & -> & R2);
    [done..|rewrite (assoc_L (++)) in Hf; by eapply fits_app_l|].
  cbn [rbind]. rewrite (assoc_L (++) (c ++ _)) in *. by apply IH.
Qed.

Lemma put_map_rep m h c l :
  rep m h c → wf_entries l → fits (c ++ enc_map l) →
  ∃ m', put_map m l = Ret m' ∧ rep m' h (c ++ enc_map l).
Proof.
  intros Hr [Hv Hl] Hf. unfold put_map, enc_map in *.
  rewrite (assoc_L (++)) in *. rewrite u32_id by (wrap_unfold; lia).
  destruct (put_be32 m h c (Z.of_nat (length l))) as (m1 & -> & R1);
    [done|by eapply fits_app_l|].
  cbn [rbind]. by apply put_entries_rep.
Qed.

Definition insert_all (d : gmap K V) (l : list (K * V)) : gmap K V :=
  foldl (λ d e, <[e.1:=e.2]> d) d l.

Lemma get_entries_reads u r l d :
  reads u (enc_entries l ++ r) → Forall (λ e, wf e.1 ∧ wf e.2) l →
  ∃ u', get_entries k0 v0 (length l) u d = Ret (insert_all d l, u') ∧ reads u' r.
Proof.
  unfold enc_entries, insert_all.
  revert u d. induction l as [|[a b] l IH]; intros u d Hr Hv; simpl in *; [by eauto|].
  apply Forall_cons_1 in Hv as [[Ha Hb] Hv]. unfold enc_entry in Hr; simpl in *.
  rewrite <- !(assoc_L (++)) in Hr.
  destruct (get_ok u _ a k0 Hr Ha) as (u1 & -> & R1). cbn [rbind].
  destruct (get_ok u1 _ b v0 R1 Hb) as (u2 & -> & R2). cbn [rbind].
  by apply IH.
Qed.

Lemma get_map_reads u r l d0 :
  reads u (enc_map l ++ r) → wf_entries l →
  ∃ u', get_map k0 v0 u d0 = Ret (insert_all ∅ l, u') ∧ reads u' r.
Proof.
  intros Hr [Hv Hl]. unfold enc_map in Hr. rewrite <- (assoc_L (++)) in Hr.
  unfold get_map.
  destruct (get_uint_reads u _ 0 _ Hr) as (u1 & -> & R1); [wrap_unfold; lia|].
  cbn [rbind]. rewrite Nat2Z.id. by apply get_entries_reads.
Qed.

(** Inserting distinct keys one after another builds their map, in
    whatever order they come. *)
Lemma insert_all_lookup d l k v :
  NoDup l.*1 → (k, v) ∈ l → insert_all d l !! k = Some v.
Proof.
  unfold insert_all. revert d.
  induction l as [|[a b] l IH]; intros d Hnd Hin; [by apply not_elem_of_nil in Hin|].
  simpl in *. apply NoDup_cons in Hnd as [Hna Hnd].
  apply elem_of_cons in Hin as [[= -> ->]|Hin]; [|by apply IH].
  assert (∀ d', foldl (λ d e, <[e.1:=e.2]> d) d' l !! a = d' !! a) as ->;
    [|by rewrite lookup_insert_eq].
  intros d'. clear -Hna. revert d'. induction l as [|[x y] l IH]; intros d'; [done|].
  simpl in *. rewrite not_elem_of_cons in Hna. destruct Hna as [? ?].
  rewrite IH by done. by rewrite lookup_insert_ne.
Qed.

Lemma insert_all_lookup_None d l k : k ∉ l.*1 → insert_all d l !! k = d !! k.
Proof.
  unfold insert_all. revert d. induction l as [|[x y] l IH]; intros d Hk; [done|].
  simpl in *. rewrite not_elem_of_cons in Hk. destruct Hk as [? ?].
  rewrite IH by done. by rewrite lookup_insert_ne.
Qed.
End map_ok.

(** ** Headers *)

Lemma u_unpack_reads u x l :
  reads u (be32 x ++ l) → in_s32 x → ∃ u', u_unpack u = Ret (x, u') ∧ reads u' l.
Proof.
  intros Hr Hx. unfold u_unpack. apply u_four_reads in Hr as (u1 & -> & Hr). cbn [rbind].
  rewrite s32_u32, s32_id by done. eauto.
Qed.

Lemma reads_skip b p l :
  b = p ++ l → Z.of_nat (length b) < 2 ^ 31 →
  reads (u_set_ind (unmarshall_buf b (Z.of_nat (length b))) (Z.of_nat (length p))) l.
Proof. intros -> ?. by apply (Reads _ _ p). Qed.

Definition wf_req_header (h : req_header) : Prop :=
  in_s32 (rq_xid h) ∧ in_s32 (rq_proc h) ∧ in_u32 (rq_clt_nonce h) ∧
  in_u32 (rq_srv_nonce h) ∧ in_s32 (rq_xid_rep h).

Definition wf_reply_header (h : reply_header) : Prop := in_s32 (rp_xid h) ∧ in_s32 (rp_ret h).

(** Reads move the head only. *)
Lemma u_rawbyte_buf u x u' : u_rawbyte u = Ret (x, u') → u_buf u' = u_buf u.
Proof. unfold u_rawbyte. repeat case_match; naive_solver. Qed.

Lemma u_unpack_buf u x u' : u_unpack u = Ret (x, u') → u_buf u' = u_buf u.
Proof.
  unfold u_unpack, u_four.
  destruct (u_rawbyte u) as [[b3 u1]|] eqn:E1; cbn [rbind]; [|done].
  destruct (u_rawbyte u1) as [[b2 u2]|] eqn:E2; cbn [rbind]; [|done].
  destruct (u_rawbyte u2) as [[b1 u3]|] eqn:E3; cbn [rbind]; [|done].
  destruct (u_rawbyte u3) as [[b0 u4]|] eqn:E4; cbn [rbind]; [|done].
  intros [= _ <-]. apply u_rawbyte_buf in E1, E2, E3, E4. congruence.
Qed.

(** Setting the head to where the bytes before [l] end. *)
Lemma reads_rebase u l p :
  reads u l → u_buf u = p ++ l → reads (u_set_ind u (Z.of_nat (length p))) l.
Proof.
  intros [q Hlt ->] E. simpl in E. apply (inj (.++ l)) in E as ->. by apply (Reads _ _ p).
Qed.

Ltac unpack_step H :=
  let u := fresh "u" in let E := fresh "E" in
  apply u_unpack_reads in H as (u & E & H); [|by auto with machine];
  rewrite E; cbn [rbind].

(** Reading a whole request header and skipping to the arguments. *)
Lemma u_unpack_req_header_reads sz hd c :
  length sz = 4%nat → wf_req_header hd →
  Z.of_nat (length ((sz ++ req_header_bytes hd) ++ c)) < 2 ^ 31 →
  let b := (sz ++ req_header_bytes hd) ++ c in
  ∃ u', u_unpack_req_header (unmarshall_buf b (Z.of_nat (length b))) = Ret (hd, u') ∧ reads u' c.
Proof.
  intros Hsz (H1 & H2 & H3 & H4 & H5) Hlt b.
  assert (reads (u_set_ind (unmarshall_buf b (Z.of_nat (length b))) sizeof_rpc_sz_t)
    (req_header_bytes hd ++ c)) as Hr.
  { replace sizeof_rpc_sz_t with (Z.of_nat (length sz)) by (rewrite Hsz; done).
    apply reads_skip; [|done]. unfold b. by rewrite (assoc_L (++)). }
  unfold req_header_bytes in Hr. rewrite <- !(assoc_L (++)) in Hr.
  unfold u_unpack_req_header.
  do 5 unpack_step Hr.
  apply u_unpack_buf in E, E0, E1, E2, E3.
  eexists; split.
  - do 2 f_equal. rewrite !u32_s32, !u32_id by done. by destruct hd.
  - replace RPC_HEADER_SZ with (Z.of_nat (length (sz ++ req_header_bytes hd)))
      by (unfold req_header_bytes; rewrite !length_app, !length_be32, Hsz; done).
    apply reads_rebase; [done|]. by rewrite E3, E2, E1, E0, E.
Qed.

Lemma u_unpack_reply_header_reads sz hd tl c :
  length sz = 4%nat → Z.of_nat (length (sz ++ reply_header_bytes hd ++ tl)) = RPC_HEADER_SZ →
  wf_reply_header hd →
  Z.of_nat (length ((sz ++ reply_header_bytes hd ++ tl) ++ c)) < 2 ^ 31 →
  let b := (sz ++ reply_header_bytes hd ++ tl) ++ c in
  ∃ u', u_unpack_reply_header (unmarshall_buf b (Z.of_nat (length b))) = Ret (hd, u') ∧ reads u' c.
Proof.
  intros Hsz Hlen (H1 & H2) Hlt b.
  assert (reads (u_set_ind (unmarshall_buf b (Z.of_nat (length b))) sizeof_rpc_sz_t)
    ((reply_header_bytes hd ++ tl) ++ c)) as Hr.
  { replace sizeof_rpc_sz_t with (Z.of_nat (length sz)) by (rewrite Hsz; done).
    apply reads_skip; [|done]. unfold b. by rewrite <- !(assoc_L (++)). }
  unfold reply_header_bytes in Hr. rewrite <- !(assoc_L (++)) in Hr.
  unfold u_unpack_reply_header.
  do 2 unpack_step Hr.
  apply u_unpack_buf in E, E0.
  eexists; split; [by destruct hd|].
  rewrite <- Hlen. destruct Hr as [p Hp ->]. rewrite E in E0. simpl in E0.
  apply (Reads _ _ (sz ++ reply_header_bytes hd ++ tl)).
  - done.
  - unfold u_set_ind; simpl. by rewrite E0.
Qed.

(** ** Structures, field by field *)

Lemma put_next {A} `{MarshalOk A} m h c (a : A) r :
  rep m h c → wf a → fits (c ++ enc a ++ r) →
  ∃ m', put m a = Ret m' ∧ rep m' h (c ++ enc a) ∧ fits ((c ++ enc a) ++ r).
Proof.
  intros Hr Ha Hf. rewrite (assoc_L (++)) in Hf.
  destruct (put_ok m h c a) as (m' & ? & ?); [done..|by eapply fits_app_l|]. eauto.
Qed.

(** [put_field] and [get_field] run one [<<] or [>>] of a structure. *)
Ltac put_field :=
  lazymatch goal with
  | Hr : rep ?m ?h ?c, Hf : fits (?c ++ @enc ?A ?I ?O ?a ++ ?r) |- context [@put _ _ ?m ?a] =>
      let m' := fresh "m" in let R := fresh "R" in let F := fresh "F" in
      destruct (@put_next A I O m h c a r Hr) as (m' & -> & R & F); [by auto|exact Hf|];
      clear Hr Hf; cbn [rbind]
  | Hr : rep ?m ?h ?c, Hf : fits (?c ++ @enc ?A ?I ?O ?a) |- context [@put _ _ ?m ?a] =>
      let m' := fresh "m" in let R := fresh "R" in
      destruct (@put_ok A I O m h c a Hr) as (m' & -> & R); [by auto|exact Hf|];
      clear Hr Hf; cbn [rbind]
  end.

Ltac get_field :=
  lazymatch goal with
  | Hr : reads ?u (@enc ?A ?I ?O ?a ++ ?r) |- context [@get _ _ ?u ?a0] =>
      let u' := fresh "u" in let R := fresh "R" in
      destruct (@get_ok A I O u r a a0 Hr) as (u' & -> & R); [by auto|];
      clear Hr; cbn [rbind]
  end.

(** [struct_put f] and [struct_get f] run every field of the operator [f]. *)
Ltac struct_put f :=
  let m := fresh "m" in let h := fresh "h" in let c := fresh "c" in let a := fresh "a" in
  let Hr := fresh "Hr" in let Ha := fresh "Ha" in let Hf := fresh "Hf" in
  intros m h c a Hr Ha Hf; cbv beta in *; change (put m a) with (f m a); unfold f;
  destruct_and? Ha; repeat put_field; eexists; split; [reflexivity|];
  rewrite ?(assoc_L (++)) in *; assumption.
Ltac struct_get f :=
  let u := fresh "u" in let l := fresh "l" in let a := fresh "a" in let a0 := fresh "a0" in
  let Hr := fresh "Hr" in let Ha := fresh "Ha" in
  intros u l a a0 Hr Ha; cbv beta in *; change (get u a0) with (f u a0); unfold f;
  destruct_and? Ha; rewrite <- ?(assoc_L (++)) in Hr; repeat get_field;
  eexists; split; [by destruct a|assumption].

(** ** Round trip *)

(** The content a marshaller accumulates in a fresh buffer. *)
Lemma put_fresh {A} `{MarshalOk A} fill (a : A) :
  wf a → fits (enc a) →
  ∃ m, put (marshall_new fill) a = Ret m ∧ m_str m = Ret (of_chars (enc a)).
Proof.
  intros Ha Hf.
  destruct (put_ok (marshall_new fill) _ [] a (marshall_new_rep fill) Ha Hf) as (m & E & R).
  exists m. split; [done|]. by eapply m_str_rep.
Qed.

Lemma take_content_reads fill l :
  fits l → reads (take_content fill (of_chars l)) l.
Proof.
  intros Hf. unfold fits in Hf. unfold take_content. rewrite chars_of_chars.
  pose proof hdr_sz.
  apply (Reads _ _ (replicate (Z.to_nat RPC_HEADER_SZ) fill)).
  - rewrite length_app, length_replicate. lia.
  - unfold string_size. rewrite length_of_chars, length_app, length_replicate. f_equal; lia.
Qed.

(** A request header packed into the reserved area of a buffer and
    unpacked from the PDU is unchanged, leaves the read head at the arguments
    and leaves the arguments as they were. *)
Theorem req_header_roundtrip m h c hd :
  rep m h c → wf_req_header hd → fits c →
  ∃ m' b u, m_pack_req_header m hd = Ret m' ∧ m_pdu m' = Ret b ∧ m_str m' = m_str m ∧
    u_unpack_req_header (unmarshall_buf b (Z.of_nat (length b))) = Ret (hd, u) ∧ reads u c.
Proof.
  intros Hr Hw Hf.
  destruct (m_pack_req_header_rep m h c hd Hr) as (m' & sz & E & Hsz & R).
  destruct (u_unpack_req_header_reads sz hd c Hsz Hw) as (u & Eu & Ru).
  { unfold fits in Hf. pose proof hdr_sz. rewrite length_app. unfold req_header_bytes.
    rewrite !length_app, !length_be32, Hsz. lia. }
  exists m', ((sz ++ req_header_bytes hd) ++ c), u.
  by rewrite (m_pdu_rep _ _ _ R), (m_str_rep _ _ _ R), (m_str_rep _ _ _ Hr).
Qed.

Definition demo_header : req_header := ReqHeader 7 69633 3000000000 12 5.

Lemma req_header_roundtrip_witness :
  ∃ m' b u, m_pack_req_header (marshall_new "a"%char) demo_header = Ret m' ∧ m_pdu m' = Ret b ∧
    m_str m' = m_str (marshall_new "a"%char) ∧
    u_unpack_req_header (unmarshall_buf b (Z.of_nat (length b))) = Ret (demo_header, u) ∧ reads u [].
Proof.
  apply (req_header_roundtrip _ _ _ demo_header (marshall_new_rep "a"%char)).
  - repeat split; vm_compute; congruence.
  - done.
Defined.

(** The same for a reply header, which uses two of the five words. *)
Lemma reply_header_roundtrip m h c hd :
  rep m h c → wf_reply_header hd → fits c →
  ∃ m' b u, m_pack_reply_header m hd = Ret m' ∧ m_pdu m' = Ret b ∧
    u_unpack_reply_header (unmarshall_buf b (Z.of_nat (length b))) = Ret (hd, u) ∧ reads u c.
Proof.
  intros Hr Hw Hf.
  destruct (m_pack_reply_header_rep m h c hd Hr) as (m' & sz & tl & E & Hsz & R).
  assert (Z.of_nat (length (sz ++ reply_header_bytes hd ++ tl)) = RPC_HEADER_SZ) as Hl.
  { by destruct R. }
  destruct (u_unpack_reply_header_reads sz hd tl c Hsz Hl Hw) as (u & Eu & Ru).
  { unfold fits in Hf. pose proof hdr_sz. rewrite length_app. lia. }
  exists m', ((sz ++ reply_header_bytes hd ++ tl) ++ c), u.
  by rewrite (m_pdu_rep _ _ _ R).
Qed.

(** ** The bound test of [unmarshall::rawbytes] *)

(** [sized u]: the head is inside a buffer of the recorded size. *)
Definition sized (u : unmarshall) : Prop :=
  u_sz u = Z.of_nat (length (u_buf u)) ∧ 0 ≤ u_ind u ≤ u_sz u ∧ u_sz u < 2 ^ 31.

(** C38: on a buffer of the recorded size, a string length read off the wire
    is rejected or is inside the buffer exactly when the 32-bit sum of head
    and length does not wrap: a length that makes it wrap, whatever the
    buffer, is read past the end. *)
Theorem u_rawbytes_memory_safe u ss n :
  sized u → in_u32 n →
  abort_free (u_rawbytes u ss n) ↔ u_ind u + n < 2 ^ 32.
Proof.
  intros (Hsz & Hi & Hlt) Hn. unfold u_rawbytes, abort_free.
  rewrite (u32_id (u_sz u)) by (wrap_unfold; lia).
  destruct (decide (u_ind u + n < 2 ^ 32)) as [Hw|Hw].
  - rewrite u32_id by (wrap_unfold; lia). split; [done|intros _].
    destruct (Z.ltb_spec (u_sz u) (u_ind u + n)); [by eauto|].
    replace (_ && _) with true by lia. eauto.
  - assert (u32 (u_ind u + n) < u_ind u) by wrap_lia.
    replace (_ <? _) with false by lia. replace (_ && _) with false by (wrap_unfold; lia).
    split; [by intros []|done].
Qed.

Definition hostile_length : string := of_chars (be32 (2 ^ 32 - 4)).

Lemma u_rawbytes_memory_safe_witness :
  let u := u_set_ind (take_content "x"%char hostile_length) 28 in
  sized u ∧ in_u32 (2 ^ 32 - 4) ∧ ¬ abort_free (u_rawbytes u "" (2 ^ 32 - 4)) ∧
  get_string (take_content "x"%char hostile_length) "" = Fail UndefinedBehaviour.
Proof.
  intros u.
  assert (sized u) as Hs by (repeat split; vm_compute; congruence).
  assert (in_u32 (2 ^ 32 - 4)) as Hn by (split; vm_compute; congruence).
  split_and!; [exact Hs|exact Hn| |reflexivity].
  intros H. apply (u_rawbytes_memory_safe u "" (2 ^ 32 - 4) Hs Hn) in H.
  vm_compute in H. congruence.
Defined.
