(* ===== verification/Protocols.v ===== *)
(** * Wire protocols

    The argument and reply structures of paxos_protocol.h, rsm_protocol.h,
    extent_protocol.h and the procedure and status numbers of these headers
    and of lock_protocol.h, with their [operator<<] and [operator>>] as
    instances of the classes of Marshall.v, and the orders on proposal numbers
    (paxos.cc) and viewstamps (rsm_protocol.h). *)

From S2P Require Import Prelude Marshall.

(** ** Status and procedure numbers *)

Module rpc_const.
Definition bind : Z := 1.
Definition timeout_failure : Z := -1.
Definition unmarshal_args_failure : Z := -2.
Definition unmarshal_reply_failure : Z := -3.
Definition atmostonce_failure : Z := -4.
Definition oldsrv_failure : Z := -5.
Definition bind_failure : Z := -6.
Definition cancel_failure : Z := -7.
End rpc_const.

Module paxos_protocol.
Definition OK : Z := 0.
Definition ERR : Z := 1.
Definition preparereq : Z := 0x11001.
Definition acceptreq : Z := 0x11002.
Definition decidereq : Z := 0x11003.
Definition heartbeat : Z := 0x11004.
End paxos_protocol.

Module rsm_client_protocol.
Definition OK : Z := 0.
Definition ERR : Z := 1.
Definition NOTPRIMARY : Z := 2.
Definition BUSY : Z := 3.
Definition invoke : Z := 0x9001.
Definition members : Z := 0x9002.
End rsm_client_protocol.

Module rsm_protocol.
Definition OK : Z := 0.
Definition ERR : Z := 1.
Definition BUSY : Z := 2.
Definition invoke : Z := 0x10001.
Definition transferreq : Z := 0x10002.
Definition transferdonereq : Z := 0x10003.
Definition joinreq : Z := 0x10004.
End rsm_protocol.

Module rsm_test_protocol.
Definition OK : Z := 0.
Definition ERR : Z := 1.
Definition net_repair : Z := 0x12001.
Definition breakpoint : Z := 0x12002.
End rsm_test_protocol.

Module lock_protocol.
Definition OK : Z := 0.
Definition RETRY : Z := 1.
Definition RPCERR : Z := 2.
Definition NOENT : Z := 3.
Definition IOERR : Z := 4.
Definition acquire : Z := 0x7001.
Definition release : Z := 0x7002.
Definition stat : Z := 0x7003.
End lock_protocol.

Module rlock_protocol.
Definition OK : Z := 0.
Definition RPCERR : Z := 1.
Definition revoke : Z := 0x8001.
Definition retry : Z := 0x8002.
End rlock_protocol.

Module extent_protocol.
Definition OK : Z := 0.
Definition RPCERR : Z := 1.
Definition NOENT : Z := 2.
Definition IOERR : Z := 3.
Definition put : Z := 0x6001.
Definition get : Z := 0x6002.
Definition getattr : Z := 0x6003.
Definition remove : Z := 0x6004.
End extent_protocol.

(** ** Paxos *)

Record prop_t := Prop_t { pn : Z; pm : string }.

#[export] Instance prop_t_eq_dec : EqDecision prop_t.
Proof. solve_decision. Defined.

#[export] Instance prop_t_countable : Countable prop_t.
Proof.
  refine (inj_countable' (λ p, (pn p, pm p)) (λ p, Prop_t p.1 p.2) _). by intros [].
Defined.

(** [operator>] and [operator>=] of paxos.cc. *)
Definition prop_gt (a b : prop_t) : bool :=
  (pn b <? pn a) || ((pn a =? pn b) && string_gt (pm a) (pm b)).
Definition prop_ge (a b : prop_t) : bool :=
  (pn b <? pn a) || ((pn a =? pn b) && string_ge (pm a) (pm b)).

Record preparearg := PrepareArg { pa_instance : Z; pa_n : prop_t }.
Record prepareres := PrepareRes {
  pr_oldinstance : bool; pr_accept : bool; pr_n_a : prop_t; pr_v_a : string }.
Record acceptarg := AcceptArg { aa_instance : Z; aa_n : prop_t; aa_v : string }.
Record decidearg := DecideArg { da_instance : Z; da_v : string }.

(** ** RSM *)

Record viewstamp := Viewstamp { vid : Z; seqno : Z }.

#[export] Instance viewstamp_eq_dec : EqDecision viewstamp.
Proof. solve_decision. Defined.

Definition viewstamp_eqb (a b : viewstamp) : bool := (vid a =? vid b) && (seqno a =? seqno b).
Definition viewstamp_gt (a b : viewstamp) : bool :=
  (vid b <? vid a) || ((vid a =? vid b) && (seqno b <? seqno a)).
Definition viewstamp_neb (a b : viewstamp) : bool :=
  negb (vid a =? vid b) || negb (seqno a =? seqno b).

Record transferres := TransferRes { tr_state : string; tr_last : viewstamp }.
Record joinres := JoinRes { jr_log : string }.

(** ** Extents *)

Record attr := Attr { a_atime : Z; a_mtime : Z; a_ctime : Z; a_size : Z }.

(** ** Marshalling of the structures *)

Section structures.
#[local] Abbreviation put_u := (put (A:=uint)).
#[local] Abbreviation get_u := (get (A:=uint)).

Definition put_prop_t (m : marshall) (a : prop_t) : res marshall :=
  m ← put_u m (pn a); put m (pm a).
Definition get_prop_t (u : unmarshall) (a : prop_t) : res (prop_t * unmarshall) :=
  '(n, u) ← get_u u (pn a); '(m, u) ← get u (pm a); Ret (Prop_t n m, u).
#[export] Instance marshal_prop_t : Marshal prop_t := {| put := put_prop_t; get := get_prop_t |}.

Definition put_preparearg (m : marshall) (a : preparearg) : res marshall :=
  m ← put_u m (pa_instance a); put m (pa_n a).
Definition get_preparearg (u : unmarshall) (a : preparearg) : res (preparearg * unmarshall) :=
  '(i, u) ← get_u u (pa_instance a); '(n, u) ← get u (pa_n a); Ret (PrepareArg i n, u).
#[export] Instance marshal_preparearg : Marshal preparearg :=
  {| put := put_preparearg; get := get_preparearg |}.

Definition put_prepareres (m : marshall) (r : prepareres) : res marshall :=
  m ← put m (pr_oldinstance r); m ← put m (pr_accept r); m ← put m (pr_n_a r); put m (pr_v_a r).
Definition get_prepareres (u : unmarshall) (r : prepareres) : res (prepareres * unmarshall) :=
  '(o, u) ← get u (pr_oldinstance r); '(a, u) ← get u (pr_accept r);
  '(n, u) ← get u (pr_n_a r); '(v, u) ← get u (pr_v_a r); Ret (PrepareRes o a n v, u).
#[export] Instance marshal_prepareres : Marshal prepareres :=
  {| put := put_prepareres; get := get_prepareres |}.

Definition put_acceptarg (m : marshall) (a : acceptarg) : res marshall :=
  m ← put_u m (aa_instance a); m ← put m (aa_n a); put m (aa_v a).
Definition get_acceptarg (u : unmarshall) (a : acceptarg) : res (acceptarg * unmarshall) :=
  '(i, u) ← get_u u (aa_instance a); '(n, u) ← get u (aa_n a); '(v, u) ← get u (aa_v a);
  Ret (AcceptArg i n v, u).
#[export] Instance marshal_acceptarg : Marshal acceptarg :=
  {| put := put_acceptarg; get := get_acceptarg |}.

Definition put_decidearg (m : marshall) (a : decidearg) : res marshall :=
  m ← put_u m (da_instance a); put m (da_v a).
Definition get_decidearg (u : unmarshall) (a : decidearg) : res (decidearg * unmarshall) :=
  '(i, u) ← get_u u (da_instance a); '(v, u) ← get u (da_v a); Ret (DecideArg i v, u).
#[export] Instance marshal_decidearg : Marshal decidearg :=
  {| put := put_decidearg; get := get_decidearg |}.

Definition put_viewstamp (m : marshall) (v : viewstamp) : res marshall :=
  m ← put_u m (vid v); put_u m (seqno v).
Definition get_viewstamp (u : unmarshall) (v : viewstamp) : res (viewstamp * unmarshall) :=
  '(i, u) ← get_u u (vid v); '(s, u) ← get_u u (seqno v); Ret (Viewstamp i s, u).
#[export] Instance marshal_viewstamp : Marshal viewstamp :=
  {| put := put_viewstamp; get := get_viewstamp |}.

Definition put_transferres (m : marshall) (r : transferres) : res marshall :=
  m ← put m (tr_state r); put m (tr_last r).
Definition get_transferres (u : unmarshall) (r : transferres) : res (transferres * unmarshall) :=
  '(s, u) ← get u (tr_state r); '(l, u) ← get u (tr_last r); Ret (TransferRes s l, u).
#[export] Instance marshal_transferres : Marshal transferres :=
  {| put := put_transferres; get := get_transferres |}.

Definition put_joinres (m : marshall) (r : joinres) : res marshall := put m (jr_log r).
Definition get_joinres (u : unmarshall) (r : joinres) : res (joinres * unmarshall) :=
  '(l, u) ← get u (jr_log r); Ret (JoinRes l, u).
#[export] Instance marshal_joinres : Marshal joinres :=
  {| put := put_joinres; get := get_joinres |}.

Definition put_attr (m : marshall) (a : attr) : res marshall :=
  m ← put_u m (a_atime a); m ← put_u m (a_mtime a);
  m ← put_u m (a_ctime a); put_u m (a_size a).
Definition get_attr (u : unmarshall) (a : attr) : res (attr * unmarshall) :=
  '(x, u) ← get_u u (a_atime a); '(y, u) ← get_u u (a_mtime a);
  '(z, u) ← get_u u (a_ctime a); '(w, u) ← get_u u (a_size a); Ret (Attr x y z w, u).
#[export] Instance marshal_attr : Marshal attr := {| put := put_attr; get := get_attr |}.
End structures.

(** ** Their contracts *)

#[local] Obligation Tactic := idtac.

#[export] Program Instance prop_t_ok : MarshalOk prop_t := {|
  wf := λ a, wf (A:=uint) (pn a) ∧ wf (pm a);
  enc := λ a, enc (A:=uint) (pn a) ++ enc (pm a) |}.
Next Obligation. struct_put put_prop_t. Qed.
Next Obligation. struct_get get_prop_t. Qed.

#[export] Program Instance preparearg_ok : MarshalOk preparearg := {|
  wf := λ a, wf (A:=uint) (pa_instance a) ∧ wf (pa_n a);
  enc := λ a, enc (A:=uint) (pa_instance a) ++ enc (pa_n a) |}.
Next Obligation. struct_put put_preparearg. Qed.
Next Obligation. struct_get get_preparearg. Qed.

#[export] Program Instance prepareres_ok : MarshalOk prepareres := {|
  wf := λ a, wf (pr_oldinstance a) ∧ wf (pr_accept a) ∧ wf (pr_n_a a) ∧ wf (pr_v_a a);
  enc := λ a, enc (pr_oldinstance a) ++ enc (pr_accept a) ++ enc (pr_n_a a) ++ enc (pr_v_a a) |}.
Next Obligation. struct_put put_prepareres. Qed.
Next Obligation. struct_get get_prepareres. Qed.

#[export] Program Instance acceptarg_ok : MarshalOk acceptarg := {|
  wf := λ a, wf (A:=uint) (aa_instance a) ∧ wf (aa_n a) ∧ wf (aa_v a);
  enc := λ a, enc (A:=uint) (aa_instance a) ++ enc (aa_n a) ++ enc (aa_v a) |}.
Next Obligation. struct_put put_acceptarg. Qed.
Next Obligation. struct_get get_acceptarg. Qed.

#[export] Program Instance decidearg_ok : MarshalOk decidearg := {|
  wf := λ a, wf (A:=uint) (da_instance a) ∧ wf (da_v a);
  enc := λ a, enc (A:=uint) (da_instance a) ++ enc (da_v a) |}.
Next Obligation. struct_put put_decidearg. Qed.
Next Obligation. struct_get get_decidearg. Qed.

#[export] Program Instance viewstamp_ok : MarshalOk viewstamp := {|
  wf := λ a, wf (A:=uint) (vid a) ∧ wf (A:=uint) (seqno a);
  enc := λ a, enc (A:=uint) (vid a) ++ enc (A:=uint) (seqno a) |}.
Next Obligation. struct_put put_viewstamp. Qed.
Next Obligation. struct_get get_viewstamp. Qed.

#[export] Program Instance transferres_ok : MarshalOk transferres := {|
  wf := λ a, wf (tr_state a) ∧ wf (tr_last a);
  enc := λ a, enc (tr_state a) ++ enc (tr_last a) |}.
Next Obligation. struct_put put_transferres. Qed.
Next Obligation. struct_get get_transferres. Qed.

#[export] Program Instance joinres_ok : MarshalOk joinres := {|
  wf := λ a, wf (jr_log a);
  enc := λ a, enc (jr_log a) |}.
Next Obligation. struct_put put_joinres. Qed.
Next Obligation. struct_get get_joinres. Qed.

#[export] Program Instance attr_ok : MarshalOk attr := {|
  wf := λ a, wf (A:=uint) (a_atime a) ∧ wf (A:=uint) (a_mtime a) ∧ wf (A:=uint) (a_ctime a) ∧ wf (A:=uint) (a_size a);
  enc := λ a, enc (A:=uint) (a_atime a) ++ enc (A:=uint) (a_mtime a) ++ enc (A:=uint) (a_ctime a) ++ enc (A:=uint) (a_size a) |}.
Next Obligation. struct_put put_attr. Qed.
Next Obligation. struct_get get_attr. Qed.

(** ** Messages *)

(** The types that have operators: the scalars, strings, vectors of any of
    these types, and the structures of the protocols. *)
Inductive wire :=
  | Wbool | Wuchar | Wschar | Wushort | Wsshort | Wuint | Wint | Wullong | Wstring | Wvector (w : wire)
  | Wprop | Wpreparearg | Wprepareres | Wacceptarg | Wdecidearg | Wviewstamp | Wtransferres | Wjoinres | Wattr.

Fixpoint wire_type (w : wire) : Type :=
  match w with
  | Wbool => bool | Wuchar => uchar | Wschar => schar | Wushort => ushort | Wsshort => sshort | Wuint => uint
  | Wint => int | Wullong => ullong | Wstring => string | Wvector w => list (wire_type w)
  | Wprop => prop_t | Wpreparearg => preparearg | Wprepareres => prepareres | Wacceptarg => acceptarg
  | Wdecidearg => decidearg | Wviewstamp => viewstamp | Wtransferres => transferres | Wjoinres => joinres | Wattr => attr
  end.

(** What a fresh variable holds that a vector's loop reads into. *)
Definition wire_zero (w : wire) : wire_type w :=
  match w with
  | Wbool => false | Wuchar => 0 | Wschar => 0 | Wushort => 0 | Wsshort => 0 | Wuint => 0 | Wint => 0 | Wullong => 0
  | Wstring => "" | Wvector w => [] | Wprop => Prop_t 0 "" | Wpreparearg => PrepareArg 0 (Prop_t 0 "")
  | Wprepareres => PrepareRes false false (Prop_t 0 "") "" | Wacceptarg => AcceptArg 0 (Prop_t 0 "") ""
  | Wdecidearg => DecideArg 0 "" | Wviewstamp => Viewstamp 0 0 | Wtransferres => TransferRes "" (Viewstamp 0 0)
  | Wjoinres => JoinRes "" | Wattr => Attr 0 0 0 0
  end.

(** The operators of a vector, for any type that has operators. *)
Definition marshal_vector {C} `{Marshal C} (z : C) : Marshal (list C) := {| put := put_vector; get := get_vector z |}.
Definition vector_ok {C} `{MarshalOk C} (z : C) : @MarshalOk (list C) (marshal_vector z) :=
  @Build_MarshalOk (list C) (marshal_vector z) wf_vector enc_vector put_vector_rep (get_vector_reads z).

(** The operators of each type. *)
Fixpoint wire_marshal (w : wire) : Marshal (wire_type w) :=
  match w with
  | Wbool => marshal_bool | Wuchar => marshal_uchar | Wschar => marshal_schar | Wushort => marshal_ushort
  | Wsshort => marshal_sshort | Wuint => marshal_uint | Wint => marshal_int | Wullong => marshal_ullong
  | Wstring => marshal_string
  | Wvector w => @marshal_vector _ (wire_marshal w) (wire_zero w)
  | Wprop => marshal_prop_t | Wpreparearg => marshal_preparearg | Wprepareres => marshal_prepareres
  | Wacceptarg => marshal_acceptarg | Wdecidearg => marshal_decidearg | Wviewstamp => marshal_viewstamp
  | Wtransferres => marshal_transferres | Wjoinres => marshal_joinres | Wattr => marshal_attr
  end.
#[local] Existing Instance wire_marshal.

(** They have the contract; [wf] are the values that a variable of the type
    can hold, with strings and vectors of less than [2^31] elements, and [enc]
    the bytes that are sent. *)
Fixpoint wire_marshal_ok (w : wire) : MarshalOk (wire_type w) :=
  match w return @MarshalOk (wire_type w) (wire_marshal w) with
  | Wbool => bool_ok | Wuchar => uchar_ok | Wschar => schar_ok | Wushort => ushort_ok
  | Wsshort => sshort_ok | Wuint => uint_ok | Wint => int_ok | Wullong => ullong_ok
  | Wstring => string_ok
  | Wvector w => @vector_ok _ _ (wire_marshal_ok w) (wire_zero w)
  | Wprop => prop_t_ok | Wpreparearg => preparearg_ok | Wprepareres => prepareres_ok
  | Wacceptarg => acceptarg_ok | Wdecidearg => decidearg_ok | Wviewstamp => viewstamp_ok
  | Wtransferres => transferres_ok | Wjoinres => joinres_ok | Wattr => attr_ok
  end.
#[local] Existing Instance wire_marshal_ok.

(** A variable with its type; a message is written from a list of them, one
    after the other, and read into another list. *)
Record cell := Cell { ce_type : wire; ce_value : wire_type ce_type }.

Fixpoint put_cells (m : marshall) (cs : list cell) : res marshall :=
  match cs with
  | [] => Ret m
  | c :: cs => m ← put m (ce_value c); put_cells m cs
  end.

Fixpoint get_cells (u : unmarshall) (vars : list cell) : res (list cell * unmarshall) :=
  match vars with
  | [] => Ret ([], u)
  | x :: vars =>
      '(a, u) ← get u (ce_value x);
      '(cs, u) ← get_cells u vars;
      Ret (Cell (ce_type x) a :: cs, u)
  end.

Definition cells_ok (cs : list cell) : Prop := Forall (λ c, wf (ce_value c)) cs.
Definition cells_bytes (cs : list cell) : list ascii := mjoin ((λ c, enc (ce_value c)) <$> cs).

Lemma put_cells_rep m h l cs :
  rep m h l → cells_ok cs → fits (l ++ cells_bytes cs) → ∃ m', put_cells m cs = Ret m' ∧ rep m' h (l ++ cells_bytes cs).
Proof.
  unfold cells_bytes. revert m l. induction cs as [|c cs IH]; intros m l Hr Hok Hf; cbn [put_cells fmap list_fmap mjoin list_join] in *.
  { rewrite app_nil_r. eauto. }
  apply Forall_cons in Hok as [Hc Hcs]. rewrite (assoc_L (++)) in *.
  destruct (put_ok m h l (ce_value c)) as (m1 & -> & R1); [done|done|by eapply fits_app_l|]. cbn [rbind]. by apply IH.
Qed.

Lemma get_cells_reads u l cs vars :
  reads u (cells_bytes cs ++ l) → cells_ok cs → ce_type <$> vars = ce_type <$> cs →
  ∃ u', get_cells u vars = Ret (cs, u') ∧ reads u' l.
Proof.
  unfold cells_bytes. revert u vars. induction cs as [|[w a] cs IH]; intros u [|[w' a0] vars] Hr Hok Ht; try done.
  { by exists u. }
  cbn [fmap list_fmap mjoin list_join ce_type ce_value get_cells] in *. injection Ht as -> Ht.
  apply Forall_cons in Hok as [Ha Hcs]. rewrite <- (assoc_L (++)) in Hr.
  destruct (get_ok u _ a a0 Hr Ha) as (u1 & -> & R1). cbn [rbind].
  destruct (IH u1 vars R1 Hcs Ht) as (u2 & -> & R2). cbn [rbind]. by exists u2.
Qed.

(** C18: what is marshalled is unmarshalled.  Any values of the types that have
    operators (scalars, strings, vectors, the structures of the protocols),
    written one after the other into a fresh [marshall] with less than [2^30]
    bytes in all, can be taken as a string with [str()] and read back from an
    [unmarshall] of that string into variables of their types: the writes
    never abort nor leave the buffer, every read gives the value back whatever
    its variable held before, and [okdone()] is true in the end. *)
Theorem marshal_roundtrip (fill fill' : ascii) (cs vars : list cell) :
  cells_ok cs → fits (cells_bytes cs) → ce_type <$> vars = ce_type <$> cs →
  ∃ m s u, put_cells (marshall_new fill) cs = Ret m ∧ m_str m = Ret s ∧
    get_cells (take_content fill' s) vars = Ret (cs, u) ∧ okdone u = true.
Proof.
  intros Hok Hf Ht. destruct (put_cells_rep _ _ [] cs (marshall_new_rep fill) Hok Hf) as (m & Em & Rm).
  pose proof (take_content_reads fill' _ Hf) as Hr. rewrite <- (app_nil_r (cells_bytes cs)) in Hr at 2.
  destruct (get_cells_reads _ _ cs vars Hr Hok Ht) as (u & Eu & Ru).
  exists m, (of_chars (cells_bytes cs)), u. split; [done|]. split; [by eapply m_str_rep|]. split; [done|].
  by rewrite (reads_okdone _ _ Ru).
Qed.

(** One value of every kind. *)
Definition demo_cells : list cell :=
  [Cell Wbool true; Cell Wuchar 200; Cell Wschar (-3); Cell Wushort 65535; Cell Wsshort (-2); Cell Wuint 4000000000;
   Cell Wint (-7); Cell Wullong (2 ^ 63 + 5); Cell Wstring "hello"; Cell (Wvector (Wvector Wsshort)) [[-1; 2]; []];
   Cell (Wvector Wstring) ["127.0.0.1:3772"; ""]; Cell Wprop (Prop_t 3 "a"); Cell Wpreparearg (PrepareArg 2 (Prop_t 3 "a"));
   Cell Wprepareres (PrepareRes true false (Prop_t 1 "b") "v"); Cell Wacceptarg (AcceptArg 2 (Prop_t 3 "a") "v");
   Cell Wdecidearg (DecideArg 2 "v"); Cell Wviewstamp (Viewstamp 4 5); Cell Wtransferres (TransferRes "s" (Viewstamp 1 2));
   Cell Wjoinres (JoinRes "log"); Cell Wattr (Attr 1 2 3 4)].

Lemma marshal_roundtrip_witness :
  ∃ m s u, put_cells (marshall_new "000"%char) demo_cells = Ret m ∧ m_str m = Ret s ∧
    get_cells (take_content "x"%char s) ((λ c, Cell (ce_type c) (wire_zero (ce_type c))) <$> demo_cells) = Ret (demo_cells, u) ∧
    okdone u = true.
Proof.
  apply (marshal_roundtrip "000"%char "x"%char demo_cells).
  - unfold demo_cells. repeat (apply Forall_cons; split; [cbn; wrap_unfold; repeat (split || apply Forall_cons || apply Forall_nil); try done; lia|]).
    apply Forall_nil. exact I.
  - vm_compute. reflexivity.
  - reflexivity.
Defined.

(** ** Orders *)

Lemma prop_gt_irrefl a : prop_gt a a = false.
Proof. unfold prop_gt. rewrite string_gt_irrefl. lia. Qed.

Lemma prop_gt_trans a b c : prop_gt a b = true → prop_gt b c = true → prop_gt a c = true.
Proof.
  unfold prop_gt. intros H1 H2.
  destruct (Z.ltb_spec (pn b) (pn a)), (Z.ltb_spec (pn c) (pn b)); simpl in *; try lia.
  apply andb_true_iff in H1 as [E1 H1]. apply andb_true_iff in H2 as [E2 H2].
  rewrite (string_gt_trans _ _ _ H1 H2). lia.
Qed.

Lemma prop_gt_total a b : a = b ∨ prop_gt a b = true ∨ prop_gt b a = true.
Proof.
  destruct a as [n m], b as [n' m']. unfold prop_gt; simpl.
  destruct (Z.lt_trichotomy n n') as [?|[->|?]]; [right; right; lia| |right; left; lia].
  destruct (string_gt_total m m') as [-> | [-> | -> ]]; [by left|..];
    right; [left|right]; lia.
Qed.

(** [operator>=] is the complement of the converse of [operator>]. *)
Lemma prop_ge_gt a b : prop_ge a b = negb (prop_gt b a).
Proof.
  unfold prop_ge, prop_gt. rewrite string_ge_gt.
  destruct (string_gt (pm b) (pm a)); lia.
Qed.

Definition plt (a b : prop_t) : Prop := prop_gt b a = true.
Definition ple (a b : prop_t) : Prop := prop_ge b a = true.

#[export] Instance plt_dec : RelDecision plt.
Proof. intros a b. unfold plt. apply _. Defined.
#[export] Instance ple_dec : RelDecision ple.
Proof. intros a b. unfold ple. apply _. Defined.

Lemma ple_plt a b : ple a b ↔ ¬ plt b a.
Proof. unfold ple, plt. rewrite prop_ge_gt. destruct (prop_gt a b); naive_solver. Qed.

#[export] Instance plt_strict : StrictOrder plt.
Proof.
  split.
  - intros a H. unfold plt in H. by rewrite prop_gt_irrefl in H.
  - intros a b c H1 H2. by eapply prop_gt_trans.
Qed.

Lemma plt_trichotomy a b : plt a b ∨ a = b ∨ plt b a.
Proof. unfold plt. destruct (prop_gt_total a b) as [|[|]]; auto. Qed.

Lemma ple_eq_or_plt a b : ple a b ↔ a = b ∨ plt a b.
Proof.
  rewrite ple_plt. split.
  - intros H. destruct (plt_trichotomy a b) as [|[|]]; auto. done.
  - intros [->|H] H'; [by apply (irreflexivity plt b)|].
    by apply (irreflexivity plt a); etrans.
Qed.

#[export] Instance ple_total_order : TotalOrder ple.
Proof.
  split; [split; [split|]|].
  - intros a. apply ple_eq_or_plt. auto.
  - intros a b c. rewrite !ple_eq_or_plt. intros [->|H1] [->|H2]; auto.
    right. by etrans.
  - intros a b. rewrite !ple_eq_or_plt. intros [->|H1] [E|H2]; auto.
    exfalso. by apply (irreflexivity plt a); etrans.
  - intros a b. unfold strict. rewrite !ple_plt.
    destruct (plt_trichotomy a b) as [H|[->|H]]; auto.
    + left. split; [|tauto]. intros H'. by apply (irreflexivity plt a); etrans.
    + right; right. split; [|tauto]. intros H'. by apply (irreflexivity plt a); etrans.
Qed.

Lemma viewstamp_eqb_eq a b : viewstamp_eqb a b = true ↔ a = b.
Proof. destruct a, b. unfold viewstamp_eqb; simpl. split; [intros; f_equal; lia|intros [= -> ->]; lia]. Qed.

Lemma viewstamp_neb_eqb a b : viewstamp_neb a b = negb (viewstamp_eqb a b).
Proof. unfold viewstamp_neb, viewstamp_eqb. by rewrite negb_andb. Qed.
