(* ===== verification/Stubs.v ===== *)
(** * RPC stubs

    The templates that turn typed calls into marshalled requests and marshalled
    requests into typed calls: [rpcc::call] and [rpcc::call_m] (rpc/rpc.h), the
    handlers built by [rpcs::reg] (rpc/rpc.h) and by [rsm::reg] (rsm.h), and
    [rsm_client::call] and [rsm_client::call_m] (rsm_client.h), one definition
    per arity as in the sources.  What carries the request to the handler is a
    parameter of the client stubs. *)

From S2P Require Import Prelude Marshall Protocols.

(** [inhabitant] is what a freshly declared variable holds: the empty string
    or vector, or an indeterminate integer. *)
#[export] Instance uint_inhabited : Inhabited uint := populate (0 : Z).
#[export] Instance int_inhabited : Inhabited int := populate (0 : Z).
#[export] Instance ullong_inhabited : Inhabited ullong := populate (0 : Z).
#[export] Instance prop_t_inhabited : Inhabited prop_t := populate (Prop_t 0 "").
#[export] Instance viewstamp_inhabited : Inhabited viewstamp := populate (Viewstamp 0 0).
#[export] Instance preparearg_inhabited : Inhabited preparearg := populate (PrepareArg 0 inhabitant).
#[export] Instance prepareres_inhabited : Inhabited prepareres :=
  populate (PrepareRes false false inhabitant "").
#[export] Instance acceptarg_inhabited : Inhabited acceptarg := populate (AcceptArg 0 inhabitant "").
#[export] Instance decidearg_inhabited : Inhabited decidearg := populate (DecideArg 0 "").
#[export] Instance attr_inhabited : Inhabited attr := populate (Attr 0 0 0 0).

(** [handler::fn(args, ret)] of an object in state [S]: the [int] returned, the
    reply buffer and the new state. *)
Definition handler (S : Type) : Type := unmarshall → marshall → S → res (Z * marshall * S).

(** ** Server stubs *)

Section server_stubs.
Context {S R : Type} `{!Marshal R, !Inhabited R}.

Definition rpcs_reg1 {A1 : Type} `{!Marshal A1, !Inhabited A1}
    (meth : A1 → R → S → res (Z * R * S)) : handler S := λ args ret s,
  '(a1, args) ← get args inhabitant;
  if negb (okdone args) then Ret (rpc_const.unmarshal_args_failure, ret, s) else
  '(b, r, s) ← meth a1 inhabitant s;
  ret ← put ret r;
  Ret (b, ret, s).

Definition rpcs_reg2 {A1 : Type} `{!Marshal A1, !Inhabited A1} {A2 : Type} `{!Marshal A2, !Inhabited A2}
    (meth : A1 → A2 → R → S → res (Z * R * S)) : handler S := λ args ret s,
  '(a1, args) ← get args inhabitant;
  '(a2, args) ← get args inhabitant;
  if negb (okdone args) then Ret (rpc_const.unmarshal_args_failure, ret, s) else
  '(b, r, s) ← meth a1 a2 inhabitant s;
  ret ← put ret r;
  Ret (b, ret, s).

Definition rpcs_reg3 {A1 : Type} `{!Marshal A1, !Inhabited A1} {A2 : Type} `{!Marshal A2, !Inhabited A2} {A3 : Type} `{!Marshal A3, !Inhabited A3}
    (meth : A1 → A2 → A3 → R → S → res (Z * R * S)) : handler S := λ args ret s,
  '(a1, args) ← get args inhabitant;
  '(a2, args) ← get args inhabitant;
  '(a3, args) ← get args inhabitant;
  if negb (okdone args) then Ret (rpc_const.unmarshal_args_failure, ret, s) else
  '(b, r, s) ← meth a1 a2 a3 inhabitant s;
  ret ← put ret r;
  Ret (b, ret, s).

Definition rpcs_reg4 {A1 : Type} `{!Marshal A1, !Inhabited A1} {A2 : Type} `{!Marshal A2, !Inhabited A2} {A3 : Type} `{!Marshal A3, !Inhabited A3} {A4 : Type} `{!Marshal A4, !Inhabited A4}
    (meth : A1 → A2 → A3 → A4 → R → S → res (Z * R * S)) : handler S := λ args ret s,
  '(a1, args) ← get args inhabitant;
  '(a2, args) ← get args inhabitant;
  '(a3, args) ← get args inhabitant;
  '(a4, args) ← get args inhabitant;
  if negb (okdone args) then Ret (rpc_const.unmarshal_args_failure, ret, s) else
  '(b, r, s) ← meth a1 a2 a3 a4 inhabitant s;
  ret ← put ret r;
  Ret (b, ret, s).

Definition rpcs_reg5 {A1 : Type} `{!Marshal A1, !Inhabited A1} {A2 : Type} `{!Marshal A2, !Inhabited A2} {A3 : Type} `{!Marshal A3, !Inhabited A3} {A4 : Type} `{!Marshal A4, !Inhabited A4} {A5 : Type} `{!Marshal A5, !Inhabited A5}
    (meth : A1 → A2 → A3 → A4 → A5 → R → S → res (Z * R * S)) : handler S := λ args ret s,
  '(a1, args) ← get args inhabitant;
  '(a2, args) ← get args inhabitant;
  '(a3, args) ← get args inhabitant;
  '(a4, args) ← get args inhabitant;
  '(a5, args) ← get args inhabitant;
  if negb (okdone args) then Ret (rpc_const.unmarshal_args_failure, ret, s) else
  '(b, r, s) ← meth a1 a2 a3 a4 a5 inhabitant s;
  ret ← put ret r;
  Ret (b, ret, s).

Definition rpcs_reg6 {A1 : Type} `{!Marshal A1, !Inhabited A1} {A2 : Type} `{!Marshal A2, !Inhabited A2} {A3 : Type} `{!Marshal A3, !Inhabited A3} {A4 : Type} `{!Marshal A4, !Inhabited A4} {A5 : Type} `{!Marshal A5, !Inhabited A5} {A6 : Type} `{!Marshal A6, !Inhabited A6}
    (meth : A1 → A2 → A3 → A4 → A5 → A6 → R → S → res (Z * R * S)) : handler S := λ args ret s,
  '(a1, args) ← get args inhabitant;
  '(a2, args) ← get args inhabitant;
  '(a3, args) ← get args inhabitant;
  '(a4, args) ← get args inhabitant;
  '(a5, args) ← get args inhabitant;
  '(a6, args) ← get args inhabitant;
  if negb (okdone args) then Ret (rpc_const.unmarshal_args_failure, ret, s) else
  '(b, r, s) ← meth a1 a2 a3 a4 a5 a6 inhabitant s;
  ret ← put ret r;
  Ret (b, ret, s).

Definition rpcs_reg7 {A1 : Type} `{!Marshal A1, !Inhabited A1} {A2 : Type} `{!Marshal A2, !Inhabited A2} {A3 : Type} `{!Marshal A3, !Inhabited A3} {A4 : Type} `{!Marshal A4, !Inhabited A4} {A5 : Type} `{!Marshal A5, !Inhabited A5} {A6 : Type} `{!Marshal A6, !Inhabited A6} {A7 : Type} `{!Marshal A7, !Inhabited A7}
    (meth : A1 → A2 → A3 → A4 → A5 → A6 → A7 → R → S → res (Z * R * S)) : handler S := λ args ret s,
  '(a1, args) ← get args inhabitant;
  '(a2, args) ← get args inhabitant;
  '(a3, args) ← get args inhabitant;
  '(a4, args) ← get args inhabitant;
  '(a5, args) ← get args inhabitant;
  '(a6, args) ← get args inhabitant;
  '(a7, args) ← get args inhabitant;
  if negb (okdone args) then Ret (rpc_const.unmarshal_args_failure, ret, s) else
  '(b, r, s) ← meth a1 a2 a3 a4 a5 a6 a7 inhabitant s;
  ret ← put ret r;
  Ret (b, ret, s).

(** [rsm::reg] aborts on a malformed request; its five-argument version
    never reads the fifth argument. *)

Definition rsm_reg1 {A1 : Type} `{!Marshal A1, !Inhabited A1}
    (meth : A1 → R → S → res (Z * R * S)) : handler S := λ args ret s,
  '(a1, args) ← get args inhabitant;
  VERIFY (okdone args);;
  '(b, r, s) ← meth a1 inhabitant s;
  ret ← put ret r;
  Ret (b, ret, s).

Definition rsm_reg2 {A1 : Type} `{!Marshal A1, !Inhabited A1} {A2 : Type} `{!Marshal A2, !Inhabited A2}
    (meth : A1 → A2 → R → S → res (Z * R * S)) : handler S := λ args ret s,
  '(a1, args) ← get args inhabitant;
  '(a2, args) ← get args inhabitant;
  VERIFY (okdone args);;
  '(b, r, s) ← meth a1 a2 inhabitant s;
  ret ← put ret r;
  Ret (b, ret, s).

Definition rsm_reg3 {A1 : Type} `{!Marshal A1, !Inhabited A1} {A2 : Type} `{!Marshal A2, !Inhabited A2} {A3 : Type} `{!Marshal A3, !Inhabited A3}
    (meth : A1 → A2 → A3 → R → S → res (Z * R * S)) : handler S := λ args ret s,
  '(a1, args) ← get args inhabitant;
  '(a2, args) ← get args inhabitant;
  '(a3, args) ← get args inhabitant;
  VERIFY (okdone args);;
  '(b, r, s) ← meth a1 a2 a3 inhabitant s;
  ret ← put ret r;
  Ret (b, ret, s).

Definition rsm_reg4 {A1 : Type} `{!Marshal A1, !Inhabited A1} {A2 : Type} `{!Marshal A2, !Inhabited A2} {A3 : Type} `{!Marshal A3, !Inhabited A3} {A4 : Type} `{!Marshal A4, !Inhabited A4}
    (meth : A1 → A2 → A3 → A4 → R → S → res (Z * R * S)) : handler S := λ args ret s,
  '(a1, args) ← get args inhabitant;
  '(a2, args) ← get args inhabitant;
  '(a3, args) ← get args inhabitant;
  '(a4, args) ← get args inhabitant;
  VERIFY (okdone args);;
  '(b, r, s) ← meth a1 a2 a3 a4 inhabitant s;
  ret ← put ret r;
  Ret (b, ret, s).

Definition rsm_reg5 {A1 : Type} `{!Marshal A1, !Inhabited A1} {A2 : Type} `{!Marshal A2, !Inhabited A2} {A3 : Type} `{!Marshal A3, !Inhabited A3} {A4 : Type} `{!Marshal A4, !Inhabited A4} {A5 : Type} `{!Marshal A5, !Inhabited A5}
    (meth : A1 → A2 → A3 → A4 → A5 → R → S → res (Z * R * S)) : handler S := λ args ret s,
  '(a1, args) ← get args inhabitant;
  '(a2, args) ← get args inhabitant;
  '(a3, args) ← get args inhabitant;
  '(a4, args) ← get args inhabitant;
  VERIFY (okdone args);;
  '(b, r, s) ← meth a1 a2 a3 a4 inhabitant inhabitant s;
  ret ← put ret r;
  Ret (b, ret, s).
End server_stubs.

(** ** Client stubs *)

Section client_stubs.
(** [T] is the state of the transport; [call1 proc req t] is what
    [rpcc::call1] returns with the reply it received, and [invoke proc req t]
    what [rsm_client::invoke] returns with the reply string. *)
Context {R T : Type} `{!Marshal R} (fill : ascii).

Section rpcc.
Context (call1 : Z → marshall → T → res (Z * unmarshall * T)).

Definition rpcc_call_m (proc : Z) (req : marshall) (r : R) (t : T) : res (Z * R * T) :=
  '(intret, u, t) ← call1 proc req t;
  if intret <? 0 then Ret (intret, r, t) else
  '(r, u) ← get u r;
  VERIFY (okdone u);;
  Ret (intret, r, t).

Definition rpcc_call0  (proc : Z)  (r : R) (t : T)
    : res (Z * R * T) :=
  let m := marshall_new fill in
  rpcc_call_m proc m r t.

Definition rpcc_call1 {A1 : Type} `{!Marshal A1} (proc : Z) (a1 : A1) (r : R) (t : T)
    : res (Z * R * T) :=
  let m := marshall_new fill in
  m ← put m a1;
  rpcc_call_m proc m r t.

Definition rpcc_call2 {A1 : Type} `{!Marshal A1} {A2 : Type} `{!Marshal A2} (proc : Z) (a1 : A1) (a2 : A2) (r : R) (t : T)
    : res (Z * R * T) :=
  let m := marshall_new fill in
  m ← put m a1;
  m ← put m a2;
  rpcc_call_m proc m r t.

Definition rpcc_call3 {A1 : Type} `{!Marshal A1} {A2 : Type} `{!Marshal A2} {A3 : Type} `{!Marshal A3} (proc : Z) (a1 : A1) (a2 : A2) (a3 : A3) (r : R) (t : T)
    : res (Z * R * T) :=
  let m := marshall_new fill in
  m ← put m a1;
  m ← put m a2;
  m ← put m a3;
  rpcc_call_m proc m r t.

Definition rpcc_call4 {A1 : Type} `{!Marshal A1} {A2 : Type} `{!Marshal A2} {A3 : Type} `{!Marshal A3} {A4 : Type} `{!Marshal A4} (proc : Z) (a1 : A1) (a2 : A2) (a3 : A3) (a4 : A4) (r : R) (t : T)
    : res (Z * R * T) :=
  let m := marshall_new fill in
  m ← put m a1;
  m ← put m a2;
  m ← put m a3;
  m ← put m a4;
  rpcc_call_m proc m r t.

Definition rpcc_call5 {A1 : Type} `{!Marshal A1} {A2 : Type} `{!Marshal A2} {A3 : Type} `{!Marshal A3} {A4 : Type} `{!Marshal A4} {A5 : Type} `{!Marshal A5} (proc : Z) (a1 : A1) (a2 : A2) (a3 : A3) (a4 : A4) (a5 : A5) (r : R) (t : T)
    : res (Z * R * T) :=
  let m := marshall_new fill in
  m ← put m a1;
  m ← put m a2;
  m ← put m a3;
  m ← put m a4;
  m ← put m a5;
  rpcc_call_m proc m r t.

Definition rpcc_call6 {A1 : Type} `{!Marshal A1} {A2 : Type} `{!Marshal A2} {A3 : Type} `{!Marshal A3} {A4 : Type} `{!Marshal A4} {A5 : Type} `{!Marshal A5} {A6 : Type} `{!Marshal A6} (proc : Z) (a1 : A1) (a2 : A2) (a3 : A3) (a4 : A4) (a5 : A5) (a6 : A6) (r : R) (t : T)
    : res (Z * R * T) :=
  let m := marshall_new fill in
  m ← put m a1;
  m ← put m a2;
  m ← put m a3;
  m ← put m a4;
  m ← put m a5;
  m ← put m a6;
  rpcc_call_m proc m r t.

Definition rpcc_call7 {A1 : Type} `{!Marshal A1} {A2 : Type} `{!Marshal A2} {A3 : Type} `{!Marshal A3} {A4 : Type} `{!Marshal A4} {A5 : Type} `{!Marshal A5} {A6 : Type} `{!Marshal A6} {A7 : Type} `{!Marshal A7} (proc : Z) (a1 : A1) (a2 : A2) (a3 : A3) (a4 : A4) (a5 : A5) (a6 : A6) (a7 : A7) (r : R) (t : T)
    : res (Z * R * T) :=
  let m := marshall_new fill in
  m ← put m a1;
  m ← put m a2;
  m ← put m a3;
  m ← put m a4;
  m ← put m a5;
  m ← put m a6;
  m ← put m a7;
  rpcc_call_m proc m r t.
End rpcc.

Section rsm_client.
Context (invoke : Z → string → T → res (Z * string * T)).

Definition rsm_client_call_m (proc : Z) (req : marshall) (r : R) (t : T) : res (Z * R * T) :=
  s ← m_str req;
  '(intret, rep, t) ← invoke proc s t;
  VERIFY (intret =? rsm_client_protocol.OK);;
  let u := take_content fill rep in
  '(intret, u) ← get (A:=int) u intret;
  if intret <? 0 then Ret (intret, r, t) else
  '(res, u) ← get u "";
  VERIFY (okdone u);;
  let u1 := take_content fill res in
  '(r, u1) ← get u1 r;
  VERIFY (okdone u1);;
  Ret (intret, r, t).

Definition rsm_client_call1 {A1 : Type} `{!Marshal A1} (proc : Z) (a1 : A1) (r : R) (t : T)
    : res (Z * R * T) :=
  let m := marshall_new fill in
  m ← put m a1;
  rsm_client_call_m proc m r t.

Definition rsm_client_call2 {A1 : Type} `{!Marshal A1} {A2 : Type} `{!Marshal A2} (proc : Z) (a1 : A1) (a2 : A2) (r : R) (t : T)
    : res (Z * R * T) :=
  let m := marshall_new fill in
  m ← put m a1;
  m ← put m a2;
  rsm_client_call_m proc m r t.

Definition rsm_client_call3 {A1 : Type} `{!Marshal A1} {A2 : Type} `{!Marshal A2} {A3 : Type} `{!Marshal A3} (proc : Z) (a1 : A1) (a2 : A2) (a3 : A3) (r : R) (t : T)
    : res (Z * R * T) :=
  let m := marshall_new fill in
  m ← put m a1;
  m ← put m a2;
  m ← put m a3;
  rsm_client_call_m proc m r t.

Definition rsm_client_call4 {A1 : Type} `{!Marshal A1} {A2 : Type} `{!Marshal A2} {A3 : Type} `{!Marshal A3} {A4 : Type} `{!Marshal A4} (proc : Z) (a1 : A1) (a2 : A2) (a3 : A3) (a4 : A4) (r : R) (t : T)
    : res (Z * R * T) :=
  let m := marshall_new fill in
  m ← put m a1;
  m ← put m a2;
  m ← put m a3;
  m ← put m a4;
  rsm_client_call_m proc m r t.

Definition rsm_client_call5 {A1 : Type} `{!Marshal A1} {A2 : Type} `{!Marshal A2} {A3 : Type} `{!Marshal A3} {A4 : Type} `{!Marshal A4} {A5 : Type} `{!Marshal A5} (proc : Z) (a1 : A1) (a2 : A2) (a3 : A3) (a4 : A4) (a5 : A5) (r : R) (t : T)
    : res (Z * R * T) :=
  let m := marshall_new fill in
  m ← put m a1;
  m ← put m a2;
  m ← put m a3;
  m ← put m a4;
  m ← put m a5;
  rsm_client_call_m proc m r t.
End rsm_client.
End client_stubs.

(** ** Arguments as one tuple *)

(** A proof device: writing (reading) a pair is writing (reading) its
    components, so the stub of every arity is the one-argument stub at a tuple
    type. *)
Section tuples.
Context {A B : Type} `{MarshalOk A} `{MarshalOk B}.

Definition put_pair (m : marshall) (p : A * B) : res marshall := m ← put m p.1; put m p.2.
Definition get_pair (u : unmarshall) (p : A * B) : res (A * B * unmarshall) :=
  '(a, u) ← get u p.1; '(b, u) ← get u p.2; Ret ((a, b), u).
#[export] Instance marshal_pair : Marshal (A * B) := {| put := put_pair; get := get_pair |}.

#[export] Program Instance pair_ok : MarshalOk (A * B) := {|
  wf := λ p, wf p.1 ∧ wf p.2; enc := λ p, enc p.1 ++ enc p.2 |}.
Next Obligation. struct_put put_pair. Qed.
Next Obligation. struct_get get_pair. Qed.
End tuples.

#[export] Instance pair_inhabited {A B} `{Inhabited A, Inhabited B} : Inhabited (A * B) :=
  populate (inhabitant, inhabitant).

(** [run_stub] follows the reads and writes of two stubs in step. *)
Ltac run_stub :=
  cbv [marshal_pair get_pair put_pair]; cbn;
  repeat match goal with
  | |- context [rbind (get ?u ?a) _] =>
      let x := fresh "x" in let v := fresh "v" in
      destruct (get u a) as [[x v]|]; cbn; [|done]
  | |- context [rbind (put ?m ?a) _] =>
      let x := fresh "x" in destruct (put m a) as [x|]; cbn; [|done]
  end; try done.

Section curry.
Context {S R T : Type} `{!Marshal R, !Inhabited R} (fill : ascii).

Lemma rpcs_reg2_tuple {A1 : Type} `{!Marshal A1, !Inhabited A1} {A2 : Type} `{!Marshal A2, !Inhabited A2}
    (meth : A1 → A2 → R → S → res (Z * R * S)) args ret s :
  rpcs_reg2 meth args ret s =
  rpcs_reg1 (λ p : A1 * A2, meth p.1 p.2) args ret s.
Proof. unfold rpcs_reg2, rpcs_reg1. run_stub. Qed.

Lemma rpcs_reg3_tuple {A1 : Type} `{!Marshal A1, !Inhabited A1} {A2 : Type} `{!Marshal A2, !Inhabited A2} {A3 : Type} `{!Marshal A3, !Inhabited A3}
    (meth : A1 → A2 → A3 → R → S → res (Z * R * S)) args ret s :
  rpcs_reg3 meth args ret s =
  rpcs_reg1 (λ p : A1 * (A2 * A3), meth p.1 p.2.1 p.2.2) args ret s.
Proof. unfold rpcs_reg3, rpcs_reg1. run_stub. Qed.

Lemma rpcs_reg4_tuple {A1 : Type} `{!Marshal A1, !Inhabited A1} {A2 : Type} `{!Marshal A2, !Inhabited A2} {A3 : Type} `{!Marshal A3, !Inhabited A3} {A4 : Type} `{!Marshal A4, !Inhabited A4}
    (meth : A1 → A2 → A3 → A4 → R → S → res (Z * R * S)) args ret s :
  rpcs_reg4 meth args ret s =
  rpcs_reg1 (λ p : A1 * (A2 * (A3 * A4)), meth p.1 p.2.1 p.2.2.1 p.2.2.2) args ret s.
Proof. unfold rpcs_reg4, rpcs_reg1. run_stub. Qed.

Lemma rpcs_reg5_tuple {A1 : Type} `{!Marshal A1, !Inhabited A1} {A2 : Type} `{!Marshal A2, !Inhabited A2} {A3 : Type} `{!Marshal A3, !Inhabited A3} {A4 : Type} `{!Marshal A4, !Inhabited A4} {A5 : Type} `{!Marshal A5, !Inhabited A5}
    (meth : A1 → A2 → A3 → A4 → A5 → R → S → res (Z * R * S)) args ret s :
  rpcs_reg5 meth args ret s =
  rpcs_reg1 (λ p : A1 * (A2 * (A3 * (A4 * A5))), meth p.1 p.2.1 p.2.2.1 p.2.2.2.1 p.2.2.2.2) args ret s.
Proof. unfold rpcs_reg5, rpcs_reg1. run_stub. Qed.

Lemma rpcs_reg6_tuple {A1 : Type} `{!Marshal A1, !Inhabited A1} {A2 : Type} `{!Marshal A2, !Inhabited A2} {A3 : Type} `{!Marshal A3, !Inhabited A3} {A4 : Type} `{!Marshal A4, !Inhabited A4} {A5 : Type} `{!Marshal A5, !Inhabited A5} {A6 : Type} `{!Marshal A6, !Inhabited A6}
    (meth : A1 → A2 → A3 → A4 → A5 → A6 → R → S → res (Z * R * S)) args ret s :
  rpcs_reg6 meth args ret s =
  rpcs_reg1 (λ p : A1 * (A2 * (A3 * (A4 * (A5 * A6)))), meth p.1 p.2.1 p.2.2.1 p.2.2.2.1 p.2.2.2.2.1 p.2.2.2.2.2) args ret s.
Proof. unfold rpcs_reg6, rpcs_reg1. run_stub. Qed.

Lemma rpcs_reg7_tuple {A1 : Type} `{!Marshal A1, !Inhabited A1} {A2 : Type} `{!Marshal A2, !Inhabited A2} {A3 : Type} `{!Marshal A3, !Inhabited A3} {A4 : Type} `{!Marshal A4, !Inhabited A4} {A5 : Type} `{!Marshal A5, !Inhabited A5} {A6 : Type} `{!Marshal A6, !Inhabited A6} {A7 : Type} `{!Marshal A7, !Inhabited A7}
    (meth : A1 → A2 → A3 → A4 → A5 → A6 → A7 → R → S → res (Z * R * S)) args ret s :
  rpcs_reg7 meth args ret s =
  rpcs_reg1 (λ p : A1 * (A2 * (A3 * (A4 * (A5 * (A6 * A7))))), meth p.1 p.2.1 p.2.2.1 p.2.2.2.1 p.2.2.2.2.1 p.2.2.2.2.2.1 p.2.2.2.2.2.2) args ret s.
Proof. unfold rpcs_reg7, rpcs_reg1. run_stub. Qed.

Lemma rpcc_call2_tuple {A1 : Type} `{!Marshal A1} {A2 : Type} `{!Marshal A2} call1 proc (a1 : A1) (a2 : A2) (r : R) (t : T) :
  rpcc_call2 fill call1 proc a1 a2 r t =
  rpcc_call1 fill call1 proc (a1, a2) r t.
Proof. unfold rpcc_call2, rpcc_call1. run_stub. Qed.

Lemma rpcc_call3_tuple {A1 : Type} `{!Marshal A1} {A2 : Type} `{!Marshal A2} {A3 : Type} `{!Marshal A3} call1 proc (a1 : A1) (a2 : A2) (a3 : A3) (r : R) (t : T) :
  rpcc_call3 fill call1 proc a1 a2 a3 r t =
  rpcc_call1 fill call1 proc (a1, (a2, a3)) r t.
Proof. unfold rpcc_call3, rpcc_call1. run_stub. Qed.

Lemma rpcc_call4_tuple {A1 : Type} `{!Marshal A1} {A2 : Type} `{!Marshal A2} {A3 : Type} `{!Marshal A3} {A4 : Type} `{!Marshal A4} call1 proc (a1 : A1) (a2 : A2) (a3 : A3) (a4 : A4) (r : R) (t : T) :
  rpcc_call4 fill call1 proc a1 a2 a3 a4 r t =
  rpcc_call1 fill call1 proc (a1, (a2, (a3, a4))) r t.
Proof. unfold rpcc_call4, rpcc_call1. run_stub. Qed.

Lemma rpcc_call5_tuple {A1 : Type} `{!Marshal A1} {A2 : Type} `{!Marshal A2} {A3 : Type} `{!Marshal A3} {A4 : Type} `{!Marshal A4} {A5 : Type} `{!Marshal A5} call1 proc (a1 : A1) (a2 : A2) (a3 : A3) (a4 : A4) (a5 : A5) (r : R) (t : T) :
  rpcc_call5 fill call1 proc a1 a2 a3 a4 a5 r t =
  rpcc_call1 fill call1 proc (a1, (a2, (a3, (a4, a5)))) r t.
Proof. unfold rpcc_call5, rpcc_call1. run_stub. Qed.

Lemma rpcc_call6_tuple {A1 : Type} `{!Marshal A1} {A2 : Type} `{!Marshal A2} {A3 : Type} `{!Marshal A3} {A4 : Type} `{!Marshal A4} {A5 : Type} `{!Marshal A5} {A6 : Type} `{!Marshal A6} call1 proc (a1 : A1) (a2 : A2) (a3 : A3) (a4 : A4) (a5 : A5) (a6 : A6) (r : R) (t : T) :
  rpcc_call6 fill call1 proc a1 a2 a3 a4 a5 a6 r t =
  rpcc_call1 fill call1 proc (a1, (a2, (a3, (a4, (a5, a6))))) r t.
Proof. unfold rpcc_call6, rpcc_call1. run_stub. Qed.

Lemma rpcc_call7_tuple {A1 : Type} `{!Marshal A1} {A2 : Type} `{!Marshal A2} {A3 : Type} `{!Marshal A3} {A4 : Type} `{!Marshal A4} {A5 : Type} `{!Marshal A5} {A6 : Type} `{!Marshal A6} {A7 : Type} `{!Marshal A7} call1 proc (a1 : A1) (a2 : A2) (a3 : A3) (a4 : A4) (a5 : A5) (a6 : A6) (a7 : A7) (r : R) (t : T) :
  rpcc_call7 fill call1 proc a1 a2 a3 a4 a5 a6 a7 r t =
  rpcc_call1 fill call1 proc (a1, (a2, (a3, (a4, (a5, (a6, a7)))))) r t.
Proof. unfold rpcc_call7, rpcc_call1. run_stub. Qed.

End curry.

(** ** A call carried to the handler and back *)

(** The request and the reply as [rpcc::call1], [rpcs::dispatch] and
    [rpcc::got_pdu] frame them, when both reach the other side. *)
Definition exchange {S} (fill : ascii) (hd : Z → req_header) (h : handler S)
    (proc : Z) (req : marshall) (s : S) : res (Z * unmarshall * S) :=
  req ← m_pack_req_header req (hd proc);
  b ← m_pdu req;
  '(rq, args) ← u_unpack_req_header (unmarshall_buf b (Z.of_nat (length b)));
  '(ret, rep, s) ← h args (marshall_new fill) s;
  VERIFY (0 <=? ret);;
  rep ← m_pack_reply_header rep (ReplyHeader (rq_xid rq) ret);
  b ← m_pdu rep;
  '(rh, u) ← u_unpack_reply_header (unmarshall_buf b (Z.of_nat (length b)));
  Ret (rp_ret rh, take_in u, s).

Lemma take_in_at_header u c : reads u c → u_ind u = RPC_HEADER_SZ → reads (take_in u) c.
Proof.
  intros [p Hlt ->] Hi. simpl in Hi. apply (Reads _ _ p); [done|]. unfold take_in; simpl.
  rewrite <- Hi. f_equal. rewrite length_app. lia.
Qed.

Lemma u_unpack_reply_header_ind u hd u' :
  u_unpack_reply_header u = Ret (hd, u') → u_ind u' = RPC_HEADER_SZ.
Proof.
  unfold u_unpack_reply_header.
  destruct (u_unpack _) as [[x u1]|]; cbn; [|done].
  destruct (u_unpack u1) as [[y u2]|]; cbn; [|done]. by intros [= _ <-].
Qed.

(** What the contract of the method must be for a call to carry it. *)
Record carries {R} `{MarshalOk R} (b : Z) (r : R) : Prop := {
  carries_ret : 0 ≤ b < 2 ^ 31;
  carries_wf : wf r;
  carries_fits : fits (enc r) }.

Lemma exchange_reply {S R} `{MarshalOk R} fill xid (b : Z) (r : R) (s : S) :
  carries b r → in_s32 xid →
  ∃ u, (rep ← put (marshall_new fill) r;
        rep ← m_pack_reply_header rep (ReplyHeader xid b);
        pdu ← m_pdu rep;
        '(rh, u) ← u_unpack_reply_header (unmarshall_buf pdu (Z.of_nat (length pdu)));
        Ret (rp_ret rh, take_in u, s)) = Ret (b, u, s) ∧ reads u (enc r).
Proof.
  intros [Hb Hw Hf] Hx.
  destruct (put_ok (marshall_new fill) _ [] r (marshall_new_rep fill) Hw Hf) as (m & -> & R1).
  cbn [rbind].
  destruct (reply_header_roundtrip m _ _ (ReplyHeader xid b) R1)
    as (m' & pdu & u & -> & E1 & E2 & R2); [by split; [|wrap_unfold; simpl; lia]|done|].
  cbn [rbind]. rewrite E1. cbn [rbind]. rewrite E2. cbn.
  exists (take_in u). split; [done|].
  apply take_in_at_header; [done|]. by eapply u_unpack_reply_header_ind.
Qed.

Section transparent.
Context {A R S : Type} `{MarshalOk A} `{MarshalOk R} `{!Inhabited A, !Inhabited R}.
Context (meth : A → R → S → res (Z * R * S)) (fill fill' : ascii) (hd : Z → req_header).

Lemma exchange_call1 proc a r0 s b r s' :
  wf_req_header (hd proc) → wf a → fits (enc a) →
  meth a inhabitant s = Ret (b, r, s') → carries b r →
  rpcc_call1 fill (exchange fill' hd (rpcs_reg1 meth)) proc a r0 s = Ret (b, r, s').
Proof.
  intros Hh Ha Hf Hm Hc. unfold rpcc_call1.
  destruct (put_ok (marshall_new fill) _ [] a (marshall_new_rep fill) Ha Hf) as (m & -> & R1).
  cbn [rbind]. unfold rpcc_call_m, exchange.
  destruct (m_pack_req_header_rep m _ _ (hd proc) R1) as (m' & sz & -> & Hsz & R2).
  cbn [rbind]. rewrite (m_pdu_rep _ _ _ R2). cbn [rbind app].
  destruct (u_unpack_req_header_reads sz (hd proc) (enc a) Hsz Hh) as (u & -> & R3).
  { unfold fits in Hf. pose proof hdr_sz. unfold req_header_bytes.
    rewrite !length_app, !length_be32, Hsz. lia. }
  cbn [rbind]. unfold rpcs_reg1 at 1.
  rewrite <- (app_nil_r (enc a)) in R3.
  destruct (get_ok u _ a inhabitant R3 Ha) as (u1 & -> & R4). cbn [rbind].
  rewrite (reads_okdone _ _ R4), bool_decide_eq_true_2 by done. cbn [negb].
  rewrite Hm. cbn [rbind].
  destruct (exchange_reply fill' (rq_xid (hd proc)) b r s' Hc) as (u2 & E & R5);
    [by destruct Hh|].
  destruct (put (marshall_new fill') r) as [m2|] eqn:Em2; [|done]. cbn [rbind] in E |- *.
  rewrite VERIFY_true by (destruct Hc; lia). cbn [rbind]. rewrite E. cbn [rbind].
  replace (b <? 0) with false by (destruct Hc; lia).
  rewrite <- (app_nil_r (enc r)) in R5.
  destruct (get_ok u2 _ r r0 R5) as (u3 & -> & R6); [by destruct Hc|]. cbn [rbind].
  by rewrite (reads_okdone _ _ R6), bool_decide_eq_true_2.
Qed.
End transparent.

(** C19: an RPC is a method call. When the request and the reply reach the
    other side, [rpcc::call] with four arguments against a handler made by
    [rpcs::reg] returns what the registered method returns on those arguments
    and gives its reply value, whatever the reply variable held before: no
    stub aborts, and no byte of the four arguments is confused with another's. *)
Theorem rpc_transparent {A1 A2 A3 A4 R S : Type}
    `{MarshalOk A1} `{MarshalOk A2} `{MarshalOk A3} `{MarshalOk A4} `{MarshalOk R}
    `{!Inhabited A1, !Inhabited A2, !Inhabited A3, !Inhabited A4, !Inhabited R}
    (meth : A1 → A2 → A3 → A4 → R → S → res (Z * R * S))
    (fill fill' : ascii) (hd : Z → req_header) proc a1 a2 a3 a4 r0 s b r s' :
  wf_req_header (hd proc) → wf (a1, (a2, (a3, a4))) → fits (enc (a1, (a2, (a3, a4)))) →
  meth a1 a2 a3 a4 inhabitant s = Ret (b, r, s') → carries b r →
  rpcc_call4 fill (exchange fill' hd (rpcs_reg4 meth)) proc a1 a2 a3 a4 r0 s = Ret (b, r, s').
Proof.
  intros Hh Ha Hf Hm Hc. rewrite rpcc_call4_tuple.
  etrans; [|apply (exchange_call1 (λ p : A1 * (A2 * (A3 * A4)), meth p.1 p.2.1 p.2.2.1 p.2.2.2)
    fill fill' hd proc (a1, (a2, (a3, a4))) r0 s b r s' Hh Ha Hf Hm Hc)].
  unfold rpcc_call1. destruct (put (marshall_new fill) _) as [m|]; [|done]. cbn [rbind].
  unfold rpcc_call_m, exchange. 
  destruct (m_pack_req_header m (hd proc)) as [m'|]; [|done]. cbn [rbind].
  destruct (m_pdu m') as [pdu|]; [|done]. cbn [rbind].
  destruct (u_unpack_req_header _) as [[rq args]|]; [|done]. cbn [rbind].
  by rewrite rpcs_reg4_tuple.
Qed.

Definition demo_meth (clt : Z) (lid : Z) (id : string) (xid : Z) (_ : Z) (s : Z)
    : res (Z * Z * Z) := Ret (0, clt + lid + string_size id + xid, s + 1).

Lemma rpc_transparent_witness :
  rpcc_call4 (A1:=int) (A2:=ullong) (A3:=string) (A4:=ullong) (R:=int) "x"%char
    (exchange "y"%char (λ p, ReqHeader 7 p 3 4 5)
      (rpcs_reg4 (A1:=int) (A2:=ullong) (A3:=string) (A4:=ullong) (R:=int) demo_meth))
    0x7001 (-5) 40 "127.0.0.1:8000" 9 77 3 = Ret (0, 58, 4).
Proof.
  apply (rpc_transparent (A1:=int) (A2:=ullong) (A3:=string) (A4:=ullong) (R:=int) demo_meth
    "x"%char "y"%char (λ p, ReqHeader 7 p 3 4 5) 0x7001 (-5) 40 "127.0.0.1:8000" 9 77 3).
  - repeat split; vm_compute; congruence.
  - repeat split; vm_compute; congruence.
  - vm_compute; congruence.
  - reflexivity.
  - split; [lia|split; vm_compute; congruence|vm_compute; congruence].
Defined.

(** ** The five-argument [rsm::reg] *)

(** A handler registered with the five-argument [rsm::reg] aborts on
    every well-formed request whose fifth argument takes at least one byte:
    the stub never reads that argument, so [okdone()] is false. *)
Theorem rsm_reg5_aborts {A1 A2 A3 A4 A5 R S : Type}
    `{MarshalOk A1} `{MarshalOk A2} `{MarshalOk A3} `{MarshalOk A4} `{MarshalOk A5} `{!Marshal R}
    `{!Inhabited A1, !Inhabited A2, !Inhabited A3, !Inhabited A4, !Inhabited A5, !Inhabited R}
    (meth : A1 → A2 → A3 → A4 → A5 → R → S → res (Z * R * S))
    (a1 : A1) (a2 : A2) (a3 : A3) (a4 : A4) (a5 : A5) args ret s :
  wf a1 → wf a2 → wf a3 → wf a4 → enc a5 ≠ [] →
  reads args (enc a1 ++ enc a2 ++ enc a3 ++ enc a4 ++ enc a5) →
  rsm_reg5 meth args ret s = Fail VerifyFailed.
Proof.
  intros W1 W2 W3 W4 Hne Hr. unfold rsm_reg5. do 4 get_field.
  lazymatch goal with Hr : reads ?u _ |- _ => rewrite (reads_okdone u _ Hr) end.
  by rewrite bool_decide_eq_false_2.
Qed.

Definition demo_meth5 (_ _ _ _ : bool) (_ : string) (r : bool) (s : ()) : res (Z * bool * ()) :=
  Ret (0, r, s).

Lemma rsm_reg5_aborts_witness :
  rsm_reg5 demo_meth5
    (take_content "x"%char (of_chars (enc true ++ enc true ++ enc true ++ enc true ++ enc "")))
    (marshall_new "x"%char) () = Fail VerifyFailed.
Proof.
  apply (rsm_reg5_aborts demo_meth5 true true true true "").
  - done.
  - done.
  - done.
  - done.
  - discriminate.
  - apply take_content_reads. vm_compute. congruence.
Defined.
