(* ===== verification/RpcServer.v ===== *)
(** * The RPC server endpoint (class [rpcs] of rpc/rpc.h and rpc/rpc.cc)

    The at-most-once reply window, the registered procedures, the references
    to client connections and [rpcs::dispatch], which ties them together.
    Connections are heap objects with a reference count, a creation time and a
    [dead_] flag that the poll thread may set at any time; what the operating
    system does to a [send] is an argument.  The four mutexes make each of
    [checkduplicate_and_update] and [add_reply] atomic: [amo_step]
    interleaves them as the threads of the dispatch pool do. *)

From S2P Require Import Prelude Marshall Protocols Stubs.

(** ** The reply window *)

Inductive rpcstate_t := NEW | INPROGRESS | DONE | FORGOTTEN.

#[export] Instance rpcstate_t_eq_dec : EqDecision rpcstate_t.
Proof. solve_decision. Defined.

Record reply_t := ReplyT {
  rt_xid : Z; rt_cb_present : bool; rt_buf : option (list ascii); rt_sz : Z }.

Definition reply_t_new (xid : Z) : reply_t := ReplyT xid false None 0.

(** A reply as [*b] and [*sz] hold it. *)
Definition reply := (option (list ascii) * Z)%type.

Abbreviation window := (gmap Z (list reply_t)).

(** The loop that pops the acknowledged requests off the front. *)
Fixpoint trim (xid_rep : Z) (l : list reply_t) : list reply_t :=
  match l with
  | [] => []
  | e :: l' => if rt_xid e <? xid_rep then trim xid_rep l' else l
  end.

(** [while(it->xid < xid) ++it]: the entries passed over, and those from [it]
    on. *)
Fixpoint seek (xid : Z) (l : list reply_t) : list reply_t * list reply_t :=
  match l with
  | [] => ([], [])
  | e :: l' =>
      if rt_xid e <? xid then let '(p, q) := seek xid l' in (e :: p, q) else ([], l)
  end.

Definition checkduplicate_and_update (w : window) (clt_nonce xid xid_rep : Z) (out : reply)
    : res (rpcstate_t * reply * window) :=
  let '(l, w) := map_ref [] w clt_nonce in
  let l := trim xid_rep l in
  let w := <[clt_nonce := l]> w in
  match head l, last l with
  | Some front, Some back =>
      if rt_xid back <? xid then Ret (NEW, out, <[clt_nonce := l ++ [reply_t_new xid]]> w)
      else if xid <? rt_xid front then Ret (FORGOTTEN, out, w)
      else
        match seek xid l with
        | (_, []) => Fail UndefinedBehaviour
        | (p, it :: q) =>
            if rt_xid it =? xid then
              if rt_cb_present it then Ret (DONE, (rt_buf it, rt_sz it), w)
              else Ret (INPROGRESS, out, w)
            else Ret (NEW, out, <[clt_nonce := p ++ reply_t_new xid :: it :: q]> w)
        end
  | _, _ => Ret (NEW, out, <[clt_nonce := l ++ [reply_t_new xid]]> w)
  end.

(** Writing through the end iterator, when no entry has the [xid], is
    undefined. *)
Fixpoint store_reply (xid : Z) (r : reply) (l : list reply_t) : res (list reply_t) :=
  match l with
  | [] => Fail UndefinedBehaviour
  | e :: l' =>
      if rt_xid e =? xid then Ret (ReplyT xid true r.1 r.2 :: l')
      else rmap (cons e) (store_reply xid r l')
  end.

Definition add_reply (w : window) (clt_nonce xid : Z) (r : reply) : res window :=
  let '(l, w) := map_ref [] w clt_nonce in
  l ← store_reply xid r l;
  Ret (<[clt_nonce := l]> w).

(** [free_reply_window]: the buffers handed to [free], and the empty window. *)
Definition free_reply_window (w : window) : list (option (list ascii)) * window :=
  (mjoin ((λ l, rt_buf <$> l) <$> (map_to_list w).*2), ∅).

(** ** Connections *)

(** [create_time_] is seconds and microseconds; [co_sent] is what the client
    receives. *)
Record connection := Conn {
  co_create_time : Z * Z; co_refno : Z; co_dead : bool; co_sent : list (list ascii) }.

Abbreviation heap := (gmap nat connection).

Definition conn_get (h : heap) (c : nat) : res connection :=
  match h !! c with Some k => Ret k | None => Fail UndefinedBehaviour end.

Definition conn_incref (h : heap) (c : nat) : res heap :=
  k ← conn_get h c;
  Ret (<[c := Conn (co_create_time k) (co_refno k + 1) (co_dead k) (co_sent k)]> h).

(** The last reference to a dead connection deletes it. *)
Definition conn_decref (h : heap) (c : nat) : res heap :=
  k ← conn_get h c;
  let refno := co_refno k - 1 in
  VERIFY (0 <=? refno);;
  if (refno =? 0) && co_dead k then Ret (delete c h)
  else Ret (<[c := Conn (co_create_time k) refno (co_dead k) (co_sent k)]> h).

Definition conn_compare (a b : connection) : Z :=
  if (co_create_time b).1 <? (co_create_time a).1 then 1
  else if (co_create_time a).1 <? (co_create_time b).1 then -1
  else if (co_create_time b).2 <? (co_create_time a).2 then 1
  else if (co_create_time a).2 <? (co_create_time b).2 then -1
  else 0.

(** [c->send(b, sz)]: a dead connection sends nothing; [ok] is whether the
    operating system took the whole of [b], whose first word [writepdu]
    overwrites with the size. *)
Definition conn_send (ok : bool) (h : heap) (c : nat) (r : reply) : res heap :=
  k ← conn_get h c;
  if co_dead k then Ret h else
  match r with
  | (Some b, sz) =>
      if (4 <=? sz) && (sz <=? Z.of_nat (length b)) then
        if ok then
          let pdu := be32 sz ++ drop 4 (take (Z.to_nat sz) b) in
          Ret (<[c := Conn (co_create_time k) (co_refno k) false (co_sent k ++ [pdu])]> h)
        else Ret (<[c := Conn (co_create_time k) (co_refno k) true (co_sent k)]> h)
      else Fail UndefinedBehaviour
  | (None, _) => Fail UndefinedBehaviour
  end.

(** The connections in [died] are found broken by the poll thread. *)
Definition conn_died (died : list nat) (h : heap) : heap :=
  foldr (alter (λ k, Conn (co_create_time k) (co_refno k) true (co_sent k))) h died.

(** ** The server *)

Section rpcs.
Context {S : Type}.

(** [rs_obj] is the state of the objects the handlers belong to.  In
    [rs_conns] the value [None] is the null pointer [operator\[\]] creates. *)
Record rpcs := Rpcs {
  rs_nonce : Z;
  rs_reply_window : window;
  rs_conns : gmap Z (option nat);
  rs_counting : Z;
  rs_curr_counts : Z;
  rs_counts : gmap Z Z;
  rs_reachable : bool;
  rs_procs : gmap Z (handler S);
  rs_heap : heap;
  rs_obj : S }.

Definition set_window (s : rpcs) (w : window) : rpcs :=
  Rpcs (rs_nonce s) w (rs_conns s) (rs_counting s) (rs_curr_counts s) (rs_counts s)
    (rs_reachable s) (rs_procs s) (rs_heap s) (rs_obj s).
Definition set_conns (s : rpcs) (m : gmap Z (option nat)) (h : heap) : rpcs :=
  Rpcs (rs_nonce s) (rs_reply_window s) m (rs_counting s) (rs_curr_counts s) (rs_counts s)
    (rs_reachable s) (rs_procs s) h (rs_obj s).
Definition set_heap (s : rpcs) (h : heap) : rpcs := set_conns s (rs_conns s) h.
Definition set_obj (s : rpcs) (o : S) : rpcs :=
  Rpcs (rs_nonce s) (rs_reply_window s) (rs_conns s) (rs_counting s) (rs_curr_counts s)
    (rs_counts s) (rs_reachable s) (rs_procs s) (rs_heap s) o.
Definition set_reachable (s : rpcs) (r : bool) : rpcs :=
  Rpcs (rs_nonce s) (rs_reply_window s) (rs_conns s) (rs_counting s) (rs_curr_counts s)
    (rs_counts s) r (rs_procs s) (rs_heap s) (rs_obj s).

Definition reg1 (s : rpcs) (proc : Z) (h : handler S) : res rpcs :=
  VERIFY (bool_decide (rs_procs s !! proc = None));;
  let procs := <[proc := h]> (rs_procs s) in
  VERIFY (bool_decide (is_Some (procs !! proc)));;
  Ret (Rpcs (rs_nonce s) (rs_reply_window s) (rs_conns s) (rs_counting s) (rs_curr_counts s)
    (rs_counts s) (rs_reachable s) procs (rs_heap s) (rs_obj s)).

(** [rpcbind] ignores its argument. *)
Definition rpcbind (nonce : Z) (a : int) (_ : int) (o : S) : res (Z * int * S) :=
  Ret (0, s32 nonce : int, o).

(** The constructor: [random()] gives the nonce, and [bind] is registered. *)
Definition rpcs_new (random count : Z) (o : S) : res rpcs :=
  reg1 (Rpcs (u32 random) ∅ ∅ count count ∅ true ∅ ∅ o) rpc_const.bind
    (rpcs_reg1 (rpcbind (u32 random))).

(** The printing of the statistics leaves no trace in the state. *)
Definition updatestat (s : rpcs) (proc : Z) : rpcs :=
  let '(n, counts) := map_ref 0 (rs_counts s) proc in
  let curr := rs_curr_counts s - 1 in
  Rpcs (rs_nonce s) (rs_reply_window s) (rs_conns s) (rs_counting s)
    (if curr =? 0 then rs_counting s else curr) (<[proc := n + 1]> counts)
    (rs_reachable s) (rs_procs s) (rs_heap s) (rs_obj s).

(** [conns_\[clt_nonce\]]. *)
Definition conns_ref (s : rpcs) (clt_nonce : Z) : option nat * rpcs :=
  let '(c, m) := map_ref None (rs_conns s) clt_nonce in (c, set_conns s m (rs_heap s)).

Definition deref (c : option nat) : res nat :=
  match c with Some c => Ret c | None => Fail UndefinedBehaviour end.

(** "save the latest good connection to the client". *)
Definition save_conn (s : rpcs) (clt_nonce : Z) (c : nat) : res rpcs :=
  match rs_conns s !! clt_nonce with
  | None =>
      h ← conn_incref (rs_heap s) c;
      Ret (set_conns s (<[clt_nonce := Some c]> (rs_conns s)) h)
  | Some old =>
      old ← deref old;
      ko ← conn_get (rs_heap s) old;
      kc ← conn_get (rs_heap s) c;
      if conn_compare ko kc <? 0 then
        h ← conn_decref (rs_heap s) old;
        h ← conn_incref h c;
        Ret (set_conns s (<[clt_nonce := Some c]> (rs_conns s)) h)
      else Ret s
  end.

(** "get the latest connection to the client": the connection the reply goes
    to, for a request that came over [c]. *)
Definition latest_conn (s : rpcs) (clt_nonce : Z) (c : nat) : res (nat * rpcs) :=
  k ← conn_get (rs_heap s) c;
  if co_dead k then
    let '(l, s) := conns_ref s clt_nonce in
    if decide (l = Some c) then Ret (c, s) else
    h ← conn_decref (rs_heap s) c;
    let s := set_heap s h in
    l ← deref l;
    h ← conn_incref (rs_heap s) l;
    Ret (l, set_heap s h)
  else Ret (c, s).

(** What [dispatch] does up to the [switch]: the state of the request. *)
Definition dispatch_state (s : rpcs) (h : req_header) (c : nat)
    : res (rpcstate_t * reply * rpcs) :=
  let clt := rq_clt_nonce h in
  if negb (clt =? 0) then
    w ← match rs_reply_window s !! clt with
        | None => let w := <[clt := []]> (rs_reply_window s) in Ret w
        | Some _ => Ret (rs_reply_window s)
        end;
    s ← save_conn (set_window s w) clt c;
    '(stat, b1, w) ← checkduplicate_and_update (rs_reply_window s) clt (u32 (rq_xid h))
                       (u32 (rq_xid_rep h)) (None, 0);
    Ret (stat, b1, set_window s w)
  else Ret (NEW, (None, 0), s).

(** [case NEW]: run the handler, remember the reply, send it over the latest
    connection.  [died] are the connections that break while the handler
    runs. *)
Definition dispatch_new (fill : ascii) (ok : bool) (died : list nat) (s : rpcs)
    (h : req_header) (req : unmarshall) (f : handler S) (c : nat) : res (nat * rpcs) :=
  let s := if rs_counting s =? 0 then s else updatestat s (rq_proc h) in
  '(ret, rep, o) ← f req (marshall_new fill) (rs_obj s);
  let s := set_heap (set_obj s o) (conn_died died (rs_heap s)) in
  VERIFY (negb (ret =? rpc_const.unmarshal_args_failure));;
  VERIFY (0 <=? ret);;
  rep ← m_pack_reply_header rep (ReplyHeader (rq_xid h) ret);
  let '(b1, _) := m_take_buf rep in
  s ← (if 0 <? rq_clt_nonce h then
         w ← add_reply (rs_reply_window s) (rq_clt_nonce h) (u32 (rq_xid h)) b1;
         Ret (set_window s w)
       else Ret s);
  '(c, s) ← latest_conn s (rq_clt_nonce h) c;
  hp ← conn_send ok (rs_heap s) c b1;
  Ret (c, set_heap s hp).

(** A reply that carries only a header. *)
Definition error_reply (fill : ascii) (xid ret : Z) : res reply :=
  rep ← m_pack_reply_header (marshall_new fill) (ReplyHeader xid ret);
  Ret (m_take_buf rep).1.

Definition release (s : rpcs) (c : nat) : res rpcs :=
  h ← conn_decref (rs_heap s) c; Ret (set_heap s h).

Definition dispatch (fill : ascii) (ok : bool) (died : list nat) (s : rpcs)
    (c : nat) (buf : list ascii) (sz : Z) : res rpcs :=
  '(h, req) ← u_unpack_req_header (unmarshall_buf buf sz);
  if negb (u_ok req) then release s c else
  if negb (rq_srv_nonce h =? 0) && negb (rq_srv_nonce h =? rs_nonce s) then
    r ← error_reply fill (rq_xid h) rpc_const.oldsrv_failure;
    hp ← conn_send ok (rs_heap s) c r;
    Ret (set_heap s hp)
  else
  match rs_procs s !! rq_proc h with
  | None => s ← release s c; VERIFY false;; Ret s
  | Some f =>
      '(stat, b1, s) ← dispatch_state s h c;
      '(c, s) ←
        match stat with
        | NEW => dispatch_new fill ok died s h req f c
        | INPROGRESS => Ret (c, s)
        | DONE => hp ← conn_send ok (rs_heap s) c b1; Ret (c, set_heap s hp)
        | FORGOTTEN =>
            r ← error_reply fill (rq_xid h) rpc_const.atmostonce_failure;
            hp ← conn_send ok (rs_heap s) c r;
            Ret (c, set_heap s hp)
        end;
      release s c
  end.
End rpcs.
Arguments rpcs S : clear implicits.

(** ** At-most-once execution *)

(** The window as the threads of the pool drive it.  [amo_started] are the
    requests that were found [NEW], latest first: the ones whose handler
    runs.  [amo_answered] is what the handlers that have finished replied. *)
Record amo := Amo {
  amo_window : window;
  amo_started : list (Z * Z);
  amo_answered : gmap (Z * Z) reply }.

Definition amo_init : amo := Amo ∅ [] ∅.

Inductive amo_step : amo → amo → Prop :=
| amo_arrive s n x r out st out' w :
    r < x →
    checkduplicate_and_update (amo_window s) n x r out = Ret (st, out', w) →
    amo_step s (Amo w (if decide (st = NEW) then (n, x) :: amo_started s else amo_started s)
      (amo_answered s))
| amo_finish s n x rep w :
    (n, x) ∈ amo_started s → amo_answered s !! (n, x) = None →
    add_reply (amo_window s) n x rep = Ret w →
    amo_step s (Amo w (amo_started s) (<[(n, x) := rep]> (amo_answered s))).

Abbreviation amo_reachable := (rtc amo_step amo_init).

Definition entries (w : window) (n : Z) : list reply_t := default [] (w !! n).

(** The window of a client is sorted and holds the started requests from some
    acknowledged point [r] on; it is not empty once a request was started. *)
Record client_inv (s : amo) (n : Z) (l : list reply_t) : Prop := ClientInv {
  ci_sorted : StronglySorted Z.lt (rt_xid <$> l);
  ci_started : ∃ r, ∀ x, x ∈ rt_xid <$> l ↔ (n, x) ∈ amo_started s ∧ r ≤ x;
  ci_nonempty : ∀ x, (n, x) ∈ amo_started s → l ≠ [];
  ci_reply : ∀ e, e ∈ l →
    amo_answered s !! (n, rt_xid e) = if rt_cb_present e then Some (rt_buf e, rt_sz e) else None }.

Definition amo_inv (s : amo) : Prop :=
  NoDup (amo_started s) ∧ (∀ k, is_Some (amo_answered s !! k) → k ∈ amo_started s) ∧
  ∀ n, client_inv s n (entries (amo_window s) n).

Lemma trim_spec r l :
  StronglySorted Z.lt (rt_xid <$> l) →
  trim r l `suffix_of` l ∧ ∀ x, x ∈ rt_xid <$> trim r l ↔ x ∈ rt_xid <$> l ∧ r ≤ x.
Proof.
  induction l as [|e l IH]; intros Hs; cbn [trim]; [set_solver|].
  apply StronglySorted_inv in Hs as [Hs Hall]. destruct (IH Hs) as [Hsuf HIH].
  destruct (Z.ltb_spec (rt_xid e) r).
  - split; [by apply suffix_cons_r|]. intros x. rewrite HIH, fmap_cons, elem_of_cons.
    split; [naive_solver|]. intros [[->|?] ?]; [lia|done].
  - split; [done|]. intros x. split; [|by intros []]. intros Hx. split; [done|].
    rewrite fmap_cons, elem_of_cons in Hx. destruct Hx as [->|Hx]; [done|].
    rewrite Forall_forall in Hall. specialize (Hall _ Hx). lia.
Qed.

Lemma sorted_suffix (l k : list reply_t) :
  k `suffix_of` l → StronglySorted Z.lt (rt_xid <$> l) → StronglySorted Z.lt (rt_xid <$> k).
Proof.
  intros [p ->] Hs. induction p as [|e p IH]; [done|].
  apply StronglySorted_inv in Hs as [? _]. auto.
Qed.

Lemma seek_spec x l p q :
  seek x l = (p, q) →
  l = p ++ q ∧ Forall (λ e, rt_xid e < x) p ∧ (∀ e, head q = Some e → x ≤ rt_xid e).
Proof.
  revert p q. induction l as [|e l IH]; intros p q; cbn [seek]; [intros [= <- <-]; done|].
  destruct (Z.ltb_spec (rt_xid e) x).
  - destruct (seek x l) as [p' q'] eqn:E. intros [= <- <-].
    destruct (IH _ _ eq_refl) as (-> & ? & ?). split_and!; [done|by constructor|done].
  - intros [= <- <-]. split_and!; [done|done|]. by intros ? [= <-].
Qed.

Lemma sorted_head_le e (l : list reply_t) f :
  StronglySorted Z.lt (rt_xid <$> l) → head l = Some f → e ∈ l → rt_xid f ≤ rt_xid e.
Proof.
  destruct l as [|f' l]; [done|]. intros Hs [= <-] He. rewrite fmap_cons in Hs.
  apply StronglySorted_inv in Hs as [_ Hall]. rewrite elem_of_cons in He.
  destruct He as [->|He]; [done|]. rewrite Forall_fmap, Forall_forall in Hall.
  specialize (Hall e He). cbn in Hall. lia.
Qed.

Lemma sorted_last_le e (l : list reply_t) b :
  StronglySorted Z.lt (rt_xid <$> l) → last l = Some b → e ∈ l → rt_xid e ≤ rt_xid b.
Proof.
  intros Hs Hl. apply last_Some in Hl as [k ->]. induction k as [|e' k IH].
  - intros ->%list_elem_of_singleton. done.
  - apply StronglySorted_inv in Hs as [Hs Hall]. rewrite <- app_comm_cons, elem_of_cons.
    intros [->|He]; [|by apply IH]. rewrite Forall_forall in Hall.
    enough (rt_xid e' < rt_xid b) by lia. apply Hall.
    change (rt_xid b ∈ rt_xid <$> k ++ [b]). rewrite fmap_app, elem_of_app. right. by left.
Qed.

Lemma sorted_insert p q x :
  StronglySorted Z.lt (rt_xid <$> p ++ q) →
  Forall (λ e, rt_xid e < x) p → Forall (λ e, x < rt_xid e) q →
  StronglySorted Z.lt (rt_xid <$> p ++ reply_t_new x :: q).
Proof.
  induction p as [|e p IH]; cbn; intros Hs Hp Hq.
  - constructor; [done|]. by apply Forall_fmap.
  - apply StronglySorted_inv in Hs as [Hs Hall]. apply Forall_cons in Hp as [He Hp].
    constructor; [by apply IH|]. rewrite Forall_forall in *. intros y.
    rewrite fmap_app, fmap_cons, elem_of_app, elem_of_cons. cbn.
    specialize (Hall y). rewrite fmap_app, elem_of_app in Hall. intros [?|[->|?]]; auto.
Qed.

Lemma sorted_above p it q x :
  StronglySorted Z.lt (rt_xid <$> p ++ it :: q) → x < rt_xid it →
  Forall (λ e, x < rt_xid e) (it :: q).
Proof.
  intros Hs Hx. apply (sorted_suffix _ (it :: q)) in Hs; [|by exists p].
  rewrite fmap_cons in Hs. apply StronglySorted_inv in Hs as [_ Hall].
  constructor; [done|]. rewrite Forall_fmap in Hall.
  eapply Forall_impl; [exact Hall|]. cbn. lia.
Qed.

(** What [checkduplicate_and_update] does, in terms of the trimmed window. *)
Lemma checkduplicate_cases w n x r out :
  StronglySorted Z.lt (rt_xid <$> entries w n) →
  let l := trim r (entries w n) in
  ∃ st out' l',
    checkduplicate_and_update w n x r out = Ret (st, out', <[n := l']> w) ∧
    match st with
    | NEW => ∃ p q, l = p ++ q ∧ l' = p ++ reply_t_new x :: q ∧
        Forall (λ e, rt_xid e < x) p ∧ Forall (λ e, x < rt_xid e) q ∧
        (∀ f, head l = Some f → rt_xid f < x)
    | INPROGRESS => l' = l ∧ ∃ e, e ∈ l ∧ rt_xid e = x ∧ rt_cb_present e = false
    | DONE => l' = l ∧ ∃ e, e ∈ l ∧ rt_xid e = x ∧ rt_cb_present e = true ∧
        out' = (rt_buf e, rt_sz e)
    | FORGOTTEN => l' = l ∧ l ≠ [] ∧ ∀ e, e ∈ l → x < rt_xid e
    end.
Proof.
  intros Hs l. destruct (trim_spec r _ Hs) as [Hsuf Hin]. fold l in Hsuf, Hin.
  apply sorted_suffix in Hsuf; [|done]. unfold checkduplicate_and_update.
  assert (∃ w', map_ref [] w n = (entries w n, w') ∧ ∀ k, <[n:=k]> w' = <[n:=k]> w)
    as (w' & -> & Hw').
  { unfold map_ref, entries. destruct (w !! n); [by eauto|]. cbn. eexists; split; [done|].
    intros k. by rewrite insert_insert_eq. }
  fold l. destruct (head l) as [f|] eqn:Ef; [destruct (last l) as [b|] eqn:Eb|].
  2: { apply last_None in Eb. by rewrite Eb in Ef. }
  2: { destruct l; [|done]. rewrite !insert_insert_eq, Hw'. eexists NEW, _, _.
       split; [done|]. by exists [], []. }
  rewrite !insert_insert_eq.
  assert (∀ e, e ∈ l → rt_xid e ≤ rt_xid b) as Hb by (intros; by eapply sorted_last_le).
  assert (∀ e, e ∈ l → rt_xid f ≤ rt_xid e) as Hf by (intros; by eapply sorted_head_le).
  assert (f ∈ l) as Hfl by (destruct l; [done|]; injection Ef as ->; left).
  destruct (Z.ltb_spec (rt_xid b) x).
  { rewrite Hw'. eexists NEW, _, _. split; [done|]. exists l, [].
    rewrite app_nil_r. split_and!; [done|done| |done|].
    - apply Forall_forall. intros e He. specialize (Hb e He). lia.
    - intros ? [= ->]. specialize (Hb _ Hfl). lia. }
  destruct (Z.ltb_spec x (rt_xid f)).
  { rewrite Hw'. eexists FORGOTTEN, _, _. split; [done|].
    split_and!; [done|by destruct l|]. intros e He. specialize (Hf e He). lia. }
  destruct (seek x l) as [p [|it q]] eqn:Es; destruct (seek_spec _ _ _ _ Es) as (E & Hp & Hq).
  { rewrite app_nil_r in E. subst p. rewrite Forall_forall in Hp.
    apply last_Some in Eb as [k Ek]. enough (rt_xid b < x) by lia. apply Hp. rewrite Ek, elem_of_app. right. by left. }
  specialize (Hq it eq_refl). assert (it ∈ l) by (rewrite E, elem_of_app; right; by left).
  destruct (Z.eqb_spec (rt_xid it) x).
  { destruct (rt_cb_present it) eqn:Ecb; rewrite Hw'.
    - eexists DONE, _, _. split; [done|]. split; [done|]. by exists it.
    - eexists INPROGRESS, _, _. split; [done|]. split; [done|]. by exists it. }
  rewrite insert_insert_eq, Hw'. eexists NEW, _, _. split; [done|]. exists p, (it :: q).
  split_and!; [done|done|done| |].
  - rewrite E in Hsuf. eapply sorted_above; [done|lia].
  - intros ? [= <-]. rewrite E in Ef.
    destruct p as [|e p]; injection Ef as ->; [lia|by apply Forall_cons in Hp as []].
Qed.

Lemma store_reply_spec x r l l' :
  StronglySorted Z.lt (rt_xid <$> l) → store_reply x r l = Ret l' →
  rt_xid <$> l' = rt_xid <$> l ∧
  (∀ e, e ∈ l' → e = ReplyT x true r.1 r.2 ∨ (e ∈ l ∧ rt_xid e ≠ x)).
Proof.
  revert l'. induction l as [|e l IH]; intros l' Hs; cbn [store_reply]; [done|].
  rewrite fmap_cons in Hs. apply StronglySorted_inv in Hs as [Hs Hall].
  destruct (Z.eqb_spec (rt_xid e) x) as [<-|Hne].
  - intros [= <-]. rewrite !fmap_cons. split; [done|]. intros e' [->|He']%elem_of_cons; [by left|].
    right. split; [by right|]. rewrite Forall_fmap, Forall_forall in Hall.
    specialize (Hall e' He'). cbn in Hall. lia.
  - destruct (store_reply x r l) as [l0|]; [|done]. intros [= <-].
    destruct (IH l0 Hs eq_refl) as [E Hl0]. rewrite !fmap_cons, E. split; [done|].
    intros e' [->|He']%elem_of_cons; [right; split; [by left|done]|].
    destruct (Hl0 e' He') as [?|[? ?]]; [by left|]. right. split; [by right|done].
Qed.

Lemma store_reply_total x r l : abort_free (store_reply x r l) ↔ x ∈ rt_xid <$> l.
Proof.
  induction l as [|e l IH]; cbn [store_reply]; [split; [by intros []|by intros ?%elem_of_nil]|].
  rewrite fmap_cons, elem_of_cons. destruct (Z.eqb_spec (rt_xid e) x) as [<-|Hne].
  - split; [by left|intros _]. by eexists.
  - destruct (store_reply x r l) as [l'|] eqn:E; cbn [rmap].
    + split; [intros _; right; apply IH; by eexists|by eexists].
    + split; [by intros []|]. intros [->|Hx]; [done|]. apply IH in Hx. by destruct Hx.
Qed.

Lemma entries_insert w n l m :
  entries (<[n := l]> w) m = if decide (m = n) then l else entries w m.
Proof.
  unfold entries. case_decide as E; [subst; by rewrite lookup_insert_eq|by rewrite lookup_insert_ne].
Qed.

Lemma client_inv_frame s s' m l :
  client_inv s m l →
  (∀ x, (m, x) ∈ amo_started s' ↔ (m, x) ∈ amo_started s) →
  (∀ x, amo_answered s' !! (m, x) = amo_answered s !! (m, x)) →
  client_inv s' m l.
Proof.
  intros [? [r Hr] Hne Hrep] Hst Han. split; [done| | |].
  - exists r. intros x. by rewrite Hst.
  - intros x. rewrite Hst. apply Hne.
  - intros e. rewrite Han. apply Hrep.
Qed.

(** Trimming keeps the invariant, up to the window becoming empty. *)
Lemma trim_inv s n L r :
  client_inv s n L →
  let l := trim r L in
  StronglySorted Z.lt (rt_xid <$> l) ∧
  (∃ R, r ≤ R ∧ (∀ x, x ∈ rt_xid <$> l ↔ (n, x) ∈ amo_started s ∧ R ≤ x) ∧
    (l = [] → ∀ x, (n, x) ∈ amo_started s → x < r)) ∧
  (∀ e, e ∈ l → e ∈ L).
Proof.
  intros [Hs [R HR] Hne _] l. destruct (trim_spec r L Hs) as [Hsuf Hin]. fold l in Hsuf, Hin.
  split_and!; [by eapply sorted_suffix| |].
  2: { intros e He. destruct Hsuf as [k Hk]. rewrite Hk, elem_of_app. by right. }
  exists (R `max` r). split_and!; [lia| |].
  - intros x. rewrite Hin, HR. split; intros; [naive_solver lia|].
    destruct_and?. split_and!; [done|lia|lia].
  - intros El x Hx. rewrite El in Hin. specialize (Hne x Hx).
    destruct L as [|e L]; [done|].
    assert (rt_xid e ∈ rt_xid <$> e :: L) as He by (rewrite fmap_cons; left).
    pose proof (Hin (rt_xid e)) as He'. destruct (proj1 (HR _) He) as [_ ?].
    assert (rt_xid e < r). { destruct (decide (rt_xid e < r)); [done|].
      exfalso. apply (not_elem_of_nil (rt_xid e)), He'. split; [done|lia]. }
    destruct (decide (x < r)); [done|].
    assert (x ∈ rt_xid <$> e :: L) by (apply HR; split; [done|lia]).
    exfalso. apply (not_elem_of_nil x), Hin. split; [done|lia].
Qed.

(** A request found [NEW] was not started before. *)
Lemma new_not_started s n L r x p q :
  client_inv s n L → r < x → trim r L = p ++ q →
  Forall (λ e, rt_xid e < x) p → Forall (λ e, x < rt_xid e) q →
  (∀ f, head (trim r L) = Some f → rt_xid f < x) →
  (n, x) ∉ amo_started s.
Proof.
  intros HI Hrx E Hp Hq Hf Hst.
  destruct (trim_inv s n L r HI) as (_ & (R & HrR & HR & Hempty) & _).
  destruct (trim r L) as [|f l] eqn:El.
  { specialize (Hempty eq_refl x Hst). lia. }
  specialize (Hf f eq_refl).
  assert (R ≤ rt_xid f) by (apply (HR (rt_xid f)); rewrite fmap_cons; left).
  assert (x ∈ rt_xid <$> f :: l) as Hx by (apply HR; split; [done|lia]).
  rewrite E, fmap_app, elem_of_app, !list_elem_of_fmap in Hx.
  rewrite Forall_forall in Hp, Hq. destruct Hx as [(e & -> & He)|(e & -> & He)].
  - specialize (Hp e He). cbn in Hp. lia.
  - specialize (Hq e He). cbn in Hq. lia.
Qed.

Lemma arrive_new_inv s n L r x p q w :
  client_inv s n L → r < x → trim r L = p ++ q →
  Forall (λ e, rt_xid e < x) p → Forall (λ e, x < rt_xid e) q →
  (∀ f, head (trim r L) = Some f → rt_xid f < x) → amo_answered s !! (n, x) = None →
  client_inv (Amo w ((n, x) :: amo_started s) (amo_answered s)) n (p ++ reply_t_new x :: q).
Proof.
  intros HI Hrx E Hp Hq Hf Hno.
  destruct (trim_inv s n L r HI) as (Hs & (R & HrR & HR & Hempty) & Hsub).
  split; cbn [amo_started amo_answered].
  - apply sorted_insert; [by rewrite <- E|done|done].
  - exists (if decide (trim r L = []) then x else R). intros y.
    transitivity (y = x ∨ y ∈ rt_xid <$> trim r L).
    { rewrite E, !fmap_app, fmap_cons, !elem_of_app, elem_of_cons. cbn. tauto. }
    rewrite HR, elem_of_cons. case_decide as El.
    + split.
      * intros [->|[Hy HRy]]; [split; [by left|lia]|]. specialize (Hempty El y Hy). lia.
      * intros [[[= ->]|Hy] Hxy]; [by left|]. specialize (Hempty El y Hy). lia.
    + destruct (trim r L) as [|f l] eqn:E'; [done|]. specialize (Hf f eq_refl).
      assert (R ≤ rt_xid f) by (apply (HR (rt_xid f)); rewrite fmap_cons; left).
      split.
      * intros [->|[Hy HRy]]; [split; [by left|lia]|]. split; [by right|done].
      * intros [[[= ->]|Hy] Hxy]; [by left|by right].
  - intros _ _. by destruct p.
  - intros e. rewrite elem_of_app, elem_of_cons. intros [He|[->|He]]; [|done|];
      apply (ci_reply _ _ _ HI), Hsub; rewrite E, elem_of_app; [by left|by right].
Qed.

Lemma arrive_old_inv s n L r w :
  client_inv s n L → trim r L ≠ [] →
  client_inv (Amo w (amo_started s) (amo_answered s)) n (trim r L).
Proof.
  intros HI Hl. destruct (trim_inv s n L r HI) as (Hs & (R & HrR & HR & _) & Hsub).
  split; cbn [amo_started amo_answered]; [done|by exists R|done|].
  intros e He. apply (ci_reply _ _ _ HI). auto.
Qed.

Lemma amo_arrive_inv s1 n x r out st out' w :
  amo_inv s1 → r < x → checkduplicate_and_update (amo_window s1) n x r out = Ret (st, out', w) →
  amo_inv (Amo w (if decide (st = NEW) then (n, x) :: amo_started s1 else amo_started s1) (amo_answered s1)).
Proof.
  intros (Hnd & Hdom & Hall) Hrx Hck. pose proof (Hall n) as Hn.
  destruct (checkduplicate_cases (amo_window s1) n x r out (ci_sorted _ _ _ Hn))
    as (st0 & o0 & l' & E & Hcase).
  rewrite Hck in E. injection E as <- <- ->.
  assert (client_inv (Amo (<[n:=l']> (amo_window s1))
    (if decide (st = NEW) then (n, x) :: amo_started s1 else amo_started s1)
    (amo_answered s1)) n l' ∧ (st = NEW → (n, x) ∉ amo_started s1)) as [Hn' Hnew].
  { destruct st; cbn [decide decide_rel].
    - destruct Hcase as (p & q & E & -> & Hp & Hq & Hf). rewrite decide_True by done.
      assert ((n, x) ∉ amo_started s1) as Hns by (by eapply new_not_started).
      split; [|done]. eapply arrive_new_inv; try done.
      apply eq_None_not_Some. intros Hk. by apply Hns, Hdom.
    - destruct Hcase as (-> & e & He & _). split; [|done].
      apply arrive_old_inv; [done|]. intros El. rewrite El in He. by apply elem_of_nil in He.
    - destruct Hcase as (-> & e & He & _). split; [|done].
      apply arrive_old_inv; [done|]. intros El. rewrite El in He. by apply elem_of_nil in He.
    - destruct Hcase as (-> & He & _). split; [|done]. by apply arrive_old_inv. }
  split_and!; cbn [amo_window amo_started amo_answered].
  + case_decide; [apply NoDup_cons; auto|done].
  + intros k Hk. apply Hdom in Hk. case_decide; [by right|done].
  + intros m. rewrite entries_insert. destruct (decide (m = n)) as [->|E]; [done|].
    eapply client_inv_frame; [apply Hall| |done].
    intros y. cbn [amo_started]. case_decide; [|done]. rewrite elem_of_cons. naive_solver.
Qed.

Lemma amo_finish_inv s1 n x rep w :
  amo_inv s1 → (n, x) ∈ amo_started s1 → amo_answered s1 !! (n, x) = None →
  add_reply (amo_window s1) n x rep = Ret w →
  amo_inv (Amo w (amo_started s1) (<[(n, x) := rep]> (amo_answered s1))).
Proof.
  intros (Hnd & Hdom & Hall) Hst Han Hadd. pose proof (Hall n) as Hn.
  unfold add_reply in Hadd. destruct (map_ref [] (amo_window s1) n) as [l w'] eqn:Em.
  assert (l = entries (amo_window s1) n) as El.
  { pose proof (map_ref_fst [] (amo_window s1) n) as E. by rewrite Em in E. }
  assert (∀ k, <[n:=k]> w' = <[n:=k]> (amo_window s1)) as Hw'.
  { unfold map_ref in Em. destruct (amo_window s1 !! n); injection Em as <- <-; [done|].
    intros k. by rewrite insert_insert_eq. }
  destruct (store_reply x rep l) as [l'|] eqn:Es; [|done].
  injection Hadd as <-. rewrite Hw'. clear w' Em Hw'. subst l.
  destruct (store_reply_spec _ _ _ _ (ci_sorted _ _ _ Hn) Es) as [Ex Hsub].
  split_and!; cbn [amo_window amo_started amo_answered]; [done| |].
  { intros k. destruct (decide (k = (n, x))) as [->|]; [done|].
    rewrite lookup_insert_ne by done. apply Hdom. }
  intros m. rewrite entries_insert. case_decide as E; [subst m|].
  + destruct Hn as [Hs [R HR] Hne Hrep]. split; cbn [amo_started amo_answered].
    * by rewrite Ex.
    * exists R. intros y. by rewrite Ex.
    * intros y Hy ->. apply (Hne y Hy). by destruct (entries (amo_window s1) n).
    * intros e He. destruct (Hsub e He) as [->|[He' Hx]]; cbn.
      { rewrite lookup_insert_eq. by destruct rep. }
      rewrite lookup_insert_ne by congruence. auto.
  + eapply client_inv_frame; [apply Hall|done|].
    intros y. cbn [amo_answered]. rewrite lookup_insert_ne; congruence.
Qed.

Lemma amo_step_inv s s' : amo_step s s' → amo_inv s → amo_inv s'.
Proof. intros [] ?; [by eapply amo_arrive_inv|by eapply amo_finish_inv]. Qed.

Lemma amo_reachable_inv s : amo_reachable s → amo_inv s.
Proof.
  apply (rtc_ind_r (λ s, amo_inv s)).
  - split_and!; [constructor|by intros k [? ?]|]. intros n. change (client_inv amo_init n []).
    split; [constructor| |by intros ? ?%elem_of_nil|by intros ? ?%elem_of_nil].
    exists 0. intros x. cbn. split; [by intros ?%elem_of_nil|by intros [?%elem_of_nil _]].
  - intros ? ? _ Hstep. by apply amo_step_inv.
Qed.

(** C13: over any interleaving of arriving requests and finishing handlers,
    of any number of clients, no request is found [NEW] twice, so its handler
    runs at most once, and every reply kept in a window is the one that the
    handler of that very request produced.  All that is asked of the clients
    is that a request acknowledges only smaller transaction numbers. *)
Theorem at_most_once s :
  rtc amo_step amo_init s →
  NoDup (amo_started s) ∧
  ∀ n e, e ∈ entries (amo_window s) n → rt_cb_present e = true →
    (n, rt_xid e) ∈ amo_started s ∧
    amo_answered s !! (n, rt_xid e) = Some (rt_buf e, rt_sz e).
Proof.
  intros H. apply amo_reachable_inv in H as (? & Hans & Hall). split; [done|].
  intros n e He Hp. pose proof (ci_reply _ _ _ (Hall n) e He) as E. rewrite Hp in E.
  split; [|done]. apply Hans. by exists (rt_buf e, rt_sz e).
Qed.

Definition amo_demo : amo :=
  Amo {[7 := [ReplyT 1 true (Some []) 0; reply_t_new 2]]} [(7, 2); (7, 1)] {[(7, 1) := (Some [], 0)]}.

Lemma amo_demo_reachable : amo_reachable amo_demo.
Proof.
  eapply rtc_l. { apply (amo_arrive _ 7 1 0 (None, 0) NEW (None, 0) {[7 := [reply_t_new 1]]}); [lia|]. vm_compute. reflexivity. }
  eapply rtc_l. { apply (amo_finish _ 7 1 (Some [], 0)  {[7 := [ReplyT 1 true (Some []) 0]]}); [left|done|]. vm_compute. reflexivity. }
  eapply rtc_l. { apply (amo_arrive _ 7 2 1 (None, 0) NEW (None, 0) (amo_window amo_demo)); [lia|]. vm_compute. reflexivity. }
  apply rtc_refl.
Qed.

Lemma at_most_once_witness :
  NoDup (amo_started amo_demo) ∧ amo_answered amo_demo !! (7, 1) = Some (Some [], 0).
Proof.
  destruct (at_most_once amo_demo amo_demo_reachable) as [H Hr]. split; [exact H|].
  apply (Hr 7 (ReplyT 1 true (Some []) 0)); [left|reflexivity].
Defined.

Lemma checkduplicate_correct s n x r out :
  amo_inv s → r < x →
  ∃ st out' w, checkduplicate_and_update (amo_window s) n x r out = Ret (st, out', w) ∧
    ((∀ y, (n, y) ∈ amo_started s → y < x) → st = NEW) ∧
    ((n, x) ∈ amo_started s → st ≠ NEW) ∧
    (st = DONE → amo_answered s !! (n, x) = Some out') ∧
    (st = INPROGRESS → (n, x) ∈ amo_started s ∧ amo_answered s !! (n, x) = None).
Proof.
  intros (_ & _ & Hall) Hrx.
  specialize (Hall n).
  destruct (trim_inv _ _ _ r Hall) as (_ & (R & _ & HR & _) & Hsub).
  destruct (checkduplicate_cases (amo_window s) n x r out (ci_sorted _ _ _ Hall))
    as (st & out' & l' & E & Hc).
  exists st, out', (<[n := l']> (amo_window s)). split; [done|]. clear E.
  assert (∀ e, e ∈ trim r (entries (amo_window s) n) → (n, rt_xid e) ∈ amo_started s) as Hst.
  { intros e He. apply (HR (rt_xid e)), list_elem_of_fmap. by exists e. }
  destruct st; split_and!; try done.
  - destruct Hc as (p & q & E & _ & Hp & Hq & Hf). intros Hin _. by eapply new_not_started.
  - destruct Hc as (_ & e & He & <- & _). intros Hnew. specialize (Hnew _ (Hst e He)). lia.
  - destruct Hc as (_ & e & He & <- & Hcb). intros _. split; [auto|].
    pose proof (ci_reply _ _ _ Hall e (Hsub e He)) as E. by rewrite Hcb in E.
  - destruct Hc as (_ & e & He & <- & _). intros Hnew. specialize (Hnew _ (Hst e He)). lia.
  - destruct Hc as (_ & e & He & <- & Hcb & ->). intros _.
    pose proof (ci_reply _ _ _ Hall e (Hsub e He)) as E. by rewrite Hcb in E.
  - destruct Hc as (_ & Hne & Hlt). intros Hnew.
    destruct (trim r (entries (amo_window s) n)) as [|e l]; [done|].
    specialize (Hlt e ltac:(left)). specialize (Hnew _ (Hst e ltac:(left))). lia.
Qed.

(** In every reachable state [checkduplicate_and_update] returns, and its
    answer is right: [NEW] for a request newer than every started one;
    [INPROGRESS], [DONE] or [FORGOTTEN] for one that was started, [DONE] with
    the very reply its handler produced, [INPROGRESS] only while there is
    none. *)
Theorem checkduplicate_answers s n x r out :
  amo_reachable s → r < x →
  ∃ st out' w, checkduplicate_and_update (amo_window s) n x r out = Ret (st, out', w) ∧
    ((∀ y, (n, y) ∈ amo_started s → y < x) → st = NEW) ∧
    ((n, x) ∈ amo_started s → st ≠ NEW) ∧
    (st = DONE → amo_answered s !! (n, x) = Some out') ∧
    (st = INPROGRESS → (n, x) ∈ amo_started s ∧ amo_answered s !! (n, x) = None).
Proof. intros H. by apply checkduplicate_correct, amo_reachable_inv. Qed.

Lemma checkduplicate_answers_witness :
  ∃ st out' w, checkduplicate_and_update (amo_window amo_demo) 7 1 0 (None, 0) = Ret (st, out', w) ∧
    st = DONE ∧ out' = (Some [], 0).
Proof.
  destruct (checkduplicate_answers amo_demo 7 1 0 (None, 0) amo_demo_reachable ltac:(lia))
    as (st & out' & w & E & _ & _ & Hdone & _).
  exists st, out', w. split; [exact E|]. vm_compute in E. injection E as <- <- _. split; reflexivity.
Defined.

Lemma add_reply_total w n x rep : abort_free (add_reply w n x rep) ↔ x ∈ rt_xid <$> entries w n.
Proof.
  rewrite <- (store_reply_total x rep). unfold add_reply, entries.
  rewrite <- map_ref_fst. destruct (map_ref [] w n) as [l w']. cbn [fst].
  unfold abort_free. destruct (store_reply x rep l); cbn [rbind]; naive_solver.
Qed.

(** [add_reply] writes through a valid iterator exactly when the window
    still holds the request.  It need not: a client that gave up on request 1
    and says so in a later request makes the server drop the entry of the
    handler that is still running, and the reply of that handler is then
    stored through the end iterator. *)
Theorem add_reply_dangling :
  (∀ w n x rep, abort_free (add_reply w n x rep) ↔ x ∈ rt_xid <$> entries w n) ∧
  ∃ s, amo_reachable s ∧ (7, 1) ∈ amo_started s ∧ amo_answered s !! (7, 1) = None ∧
    ∀ rep, add_reply (amo_window s) 7 1 rep = Fail UndefinedBehaviour.
Proof.
  split.
  - apply add_reply_total.
  - eexists. split_and!.
    + eapply rtc_l.
      { apply (amo_arrive _ 7 1 0 (None, 0) NEW (None, 0) {[7 := [reply_t_new 1]]}); [lia|].
        vm_compute. reflexivity. }
      eapply rtc_l.
      { apply (amo_arrive _ 7 3 2 (None, 0) NEW (None, 0) {[7 := [reply_t_new 3]]}); [lia|].
        vm_compute. reflexivity. }
      apply rtc_refl.
    + right. left.
    + done.
    + reflexivity.
Qed.

(** ** [dispatch] *)

Section dispatch.
Context {S : Type}.
Implicit Types s : rpcs S.

Lemma conn_send_Ret ok h c r h' : conn_send ok h c r = Ret h' → dom h' = dom h.
Proof.
  unfold conn_send, conn_get. destruct (h !! c) as [k|] eqn:E; [|done]. cbn [rbind].
  assert (∀ k', dom (<[c:=k']> h) = dom h) as Hd.
  { intros k'. apply dom_insert_lookup_L. by eexists. }
  destruct r as [[b|] sz]; repeat case_match; intros; simplify_eq; auto.
Qed.

Lemma save_conn_Ret s n c s' :
  save_conn s n c = Ret s' →
  rs_reply_window s' = rs_reply_window s ∧ rs_obj s' = rs_obj s ∧ rs_procs s' = rs_procs s.
Proof.
  unfold save_conn. destruct (rs_conns s !! n) as [old|].
  - intros (o & _ & (ko & _ & (kc & _ & H)%rbind_Ret)%rbind_Ret)%rbind_Ret.
    destruct (_ <? 0); [|by simplify_eq].
    by apply rbind_Ret in H as (h & _ & (h' & _ & [= <-])%rbind_Ret).
  - by intros (h & _ & [= <-])%rbind_Ret.
Qed.

Lemma latest_conn_Ret s n c c' s' :
  latest_conn s n c = Ret (c', s') →
  rs_reply_window s' = rs_reply_window s ∧ rs_obj s' = rs_obj s.
Proof.
  unfold latest_conn. intros (k & _ & H)%rbind_Ret. destruct (co_dead k); [|by simplify_eq].
  unfold conns_ref in H. destruct (map_ref _ _ _) as [l m].
  destruct (decide _); [by simplify_eq|].
  apply rbind_Ret in H as (h & _ & (l' & _ & (h' & _ & [= <- <-])%rbind_Ret)%rbind_Ret). done.
Qed.

(** The window and the objects after each outcome. *)
Lemma dispatch_new_Ret fill ok died s h req f c c' s' :
  dispatch_new fill ok died s h req f c = Ret (c', s') → 0 < rq_clt_nonce h →
  (∃ ret rep, f req (marshall_new fill) (rs_obj s) = Ret (ret, rep, rs_obj s') ∧ 0 ≤ ret) ∧
  ∃ b1, add_reply (rs_reply_window s) (rq_clt_nonce h) (u32 (rq_xid h)) b1
    = Ret (rs_reply_window s').
Proof.
  unfold dispatch_new. set (s1 := if _ =? _ then _ else _). intros H Hn.
  assert (rs_obj s1 = rs_obj s ∧ rs_reply_window s1 = rs_reply_window s) as [Eo Ew].
  { subst s1. destruct (_ =? _); [done|]. unfold updatestat. by destruct (map_ref _ _ _). }
  apply rbind_Ret in H as ([[ret rep] o] & Ef & H). rewrite Eo in Ef.
  apply rbind_Ret in H as ([] & _ & H). apply rbind_Ret in H as ([] & Hret & H).
  apply VERIFY_Ret in Hret. apply rbind_Ret in H as (rep' & _ & H).
  destruct (m_take_buf rep') as [b1 m'].
  apply rbind_Ret in H as (s2 & H2 & H). replace (0 <? rq_clt_nonce h) with true in H2 by lia.
  apply rbind_Ret in H2 as (w & Hw & [= <-]).
  apply rbind_Ret in H as ([c2 s3] & Hl & H). apply latest_conn_Ret in Hl as [E1 E2].
  apply rbind_Ret in H as (hp & _ & [= <- <-]). cbn in *.
  split; [exists ret, rep; rewrite E2; split; [done|lia]|].
  exists b1. rewrite E1. by rewrite <- Ew.
Qed.

Lemma release_Ret s c s' :
  release s c = Ret s' → rs_reply_window s' = rs_reply_window s ∧ rs_obj s' = rs_obj s.
Proof. unfold release. by intros (h & _ & [= <-])%rbind_Ret. Qed.

Lemma checkduplicate_create (w : window) n x r out :
  w !! n = None →
  checkduplicate_and_update (<[n := []]> w) n x r out = checkduplicate_and_update w n x r out.
Proof. intros E. unfold checkduplicate_and_update, map_ref. by rewrite lookup_insert_eq, E. Qed.

Lemma dispatch_state_Ret s h c st b1 s' :
  dispatch_state s h c = Ret (st, b1, s') → 0 < rq_clt_nonce h →
  checkduplicate_and_update (rs_reply_window s) (rq_clt_nonce h) (u32 (rq_xid h))
    (u32 (rq_xid_rep h)) (None, 0) = Ret (st, b1, rs_reply_window s') ∧ rs_obj s' = rs_obj s.
Proof.
  unfold dispatch_state. intros H Hn. replace (rq_clt_nonce h =? 0) with false in H by lia.
  cbn [negb] in H. apply rbind_Ret in H as (w & Hw & H).
  apply rbind_Ret in H as (s1 & (Ew & Eo & _)%save_conn_Ret & H).
  apply rbind_Ret in H as ([[st1 b] w1] & Hc & [= <- <- <-]). cbn. split; [|done].
  rewrite Ew in Hc. cbn in Hc. rewrite <- Hc.
  destruct (rs_reply_window s !! rq_clt_nonce h) eqn:E; injection Hw as <-; [done|].
  by rewrite checkduplicate_create.
Qed.
End dispatch.

(** A procedure that counts its runs, and one call of it by client 7. *)
Definition demo_count : handler Z :=
  rpcs_reg1 (λ (a : int) (r : int) (n : Z), Ret (0, n : int, n + 1)).
Definition demo_server : rpcs Z :=
  Rpcs 99 ∅ ∅ 0 0 ∅ true {[4660 := demo_count]} {[1%nat := Conn (0, 0) 2 false []]} 0.
Definition demo_request : list ascii :=
  be32 0 ++ req_header_bytes (ReqHeader 1 4660 7 99 0) ++ be32 5.

Definition demo_served : rpcs Z :=
  match dispatch "x"%char true [] demo_server 1 demo_request 28 with Ret s => s | _ => demo_server end.

Lemma demo_served_Ret : dispatch "x"%char true [] demo_server 1 demo_request 28 = Ret demo_served.
Proof.
  assert (match dispatch "x"%char true [] demo_server 1 demo_request 28 with
          | Ret _ => true | Fail _ => false end = true) as H by (vm_compute; reflexivity).
  unfold demo_served. by destruct (dispatch _ _ _ _ _ _ _).
Qed.

(** ** Reference counts *)

(** A deleted connection counts as one with no reference left. *)
Definition refs (h : heap) (c : nat) : Z := from_option co_refno 0 (h !! c).

(** The references the table of latest connections holds. *)
Definition held (m : gmap Z (option nat)) (c : nat) : Z :=
  Z.of_nat (length (filter (λ p, p.2 = Some c) (map_to_list m))).

(** The references to [c] that belong to the poll thread and to jobs. *)
Definition owed {S} (s : rpcs S) (c : nat) : Z := refs (rs_heap s) c - held (rs_conns s) c.

Definition ind (b : Prop) `{Decision b} : Z := if decide b then 1 else 0.

Lemma held_fresh m n v c : m !! n = None → held (<[n := v]> m) c = held m c + ind (v = Some c).
Proof.
  intros E. unfold held, ind. rewrite map_to_list_insert by done. rewrite filter_cons. cbn.
  destruct (decide (v = Some c)); cbn; lia.
Qed.

Lemma held_replace m n o v c :
  m !! n = Some o → held (<[n := v]> m) c = held m c - ind (o = Some c) + ind (v = Some c).
Proof.
  intros E. rewrite <- (insert_delete_eq m n v), held_fresh by apply lookup_delete_eq.
  pose proof (held_fresh (delete n m) n o c (lookup_delete_eq _ _)) as H.
  rewrite insert_delete_id in H by done. lia.
Qed.

Lemma incref_refs h c h' : conn_incref h c = Ret h' → ∀ d, refs h' d = refs h d + ind (c = d).
Proof.
  unfold conn_incref, conn_get, refs, ind. destruct (h !! c) as [k|] eqn:E; [|done].
  intros [= <-] d. destruct (decide (c = d)) as [<-|].
  - by rewrite lookup_insert_eq, E.
  - rewrite lookup_insert_ne by done. lia.
Qed.

Lemma decref_refs h c h' : conn_decref h c = Ret h' → ∀ d, refs h' d = refs h d - ind (c = d).
Proof.
  unfold conn_decref, conn_get, refs, ind. destruct (h !! c) as [k|] eqn:E; [|done].
  cbn [rbind]. intros ([] & Hv & H)%rbind_Ret d. apply VERIFY_Ret in Hv.
  destruct ((co_refno k - 1 =? 0) && co_dead k) eqn:Ed; injection H as <-;
    destruct (decide (c = d)) as [<-|].
  - rewrite lookup_delete_eq, E. cbn. lia.
  - rewrite lookup_delete_ne by done. lia.
  - by rewrite lookup_insert_eq, E.
  - rewrite lookup_insert_ne by done. lia.
Qed.

Lemma send_refs ok h c r h' : conn_send ok h c r = Ret h' → ∀ d, refs h' d = refs h d.
Proof.
  unfold conn_send, conn_get, refs. destruct (h !! c) as [k|] eqn:E; [|done]. cbn [rbind].
  assert (∀ k', co_refno k' = co_refno k →
    ∀ d, from_option co_refno 0 (<[c:=k']> h !! d) = from_option co_refno 0 (h !! d)) as Hi.
  { intros k' Hk d. destruct (decide (c = d)) as [<-|];
      [by rewrite lookup_insert_eq, E|by rewrite lookup_insert_ne]. }
  destruct (co_dead k); [by intros [= <-]|].
  destruct r as [[b|] sz]; [|done]. destruct (_ && _); [|done].
  destruct ok; intros [= <-]; by apply Hi.
Qed.

Lemma died_refs died h d : refs (conn_died died h) d = refs h d.
Proof.
  unfold refs. induction died as [|c died IH]; [done|]. cbn [conn_died foldr].
  fold (conn_died died h). destruct (decide (c = d)) as [<-|].
  - rewrite lookup_alter_eq, <- IH. by destruct (conn_died died h !! c).
  - by rewrite lookup_alter_ne.
Qed.

Lemma died_dead died h c k :
  h !! c = Some k → c ∈ died →
  ∃ k', conn_died died h !! c = Some k' ∧ co_dead k' = true ∧ co_refno k' = co_refno k.
Proof.
  intros Hk. induction died as [|c' died IH]; [by intros ?%elem_of_nil|].
  rewrite elem_of_cons. intros Hd. cbn [conn_died foldr]. fold (conn_died died h).
  destruct (decide (c' = c)) as [->|].
  - rewrite lookup_alter_eq. pose proof (died_refs died h c) as E. unfold refs in E.
    rewrite Hk in E. destruct (decide (c ∈ died)) as [Hin|Hout].
    + destruct (IH Hin) as (k' & -> & _ & E'). eexists. by split.
    + assert (is_Some (conn_died died h !! c)) as [k' Ek].
      { clear -Hk. induction died as [|c' died IH]; [by eexists|]. cbn [conn_died foldr].
        by apply lookup_alter_is_Some. }
      rewrite Ek in E |- *. eexists. by split.
  - rewrite lookup_alter_ne by done. apply IH. naive_solver.
Qed.

Section references.
Context {S : Type}.
Implicit Types s : rpcs S.

Lemma save_conn_owed s n c s' : save_conn s n c = Ret s' → ∀ d, owed s' d = owed s d.
Proof.
  unfold save_conn, owed. destruct (rs_conns s !! n) as [old|] eqn:E.
  - intros (o & Ho & (ko & _ & (kc & _ & H)%rbind_Ret)%rbind_Ret)%rbind_Ret d.
    destruct old as [old|]; [|done]. injection Ho as <-.
    destruct (_ <? 0); [|by simplify_eq].
    apply rbind_Ret in H as (h1 & H1 & (h2 & H2 & [= <-])%rbind_Ret).
    pose proof (decref_refs _ _ _ H1 d). pose proof (incref_refs _ _ _ H2 d).
    cbn. rewrite (held_replace _ _ _ _ _ E). unfold ind in *. repeat case_decide; simplify_eq; lia.
  - intros (h & H & [= <-])%rbind_Ret d. pose proof (incref_refs _ _ _ H d). cbn.
    rewrite held_fresh by done. unfold ind in *. repeat case_decide; simplify_eq; lia.
Qed.

(** The job's reference moves with the job from [c] to the connection it
    goes on with. *)
Lemma latest_conn_owed s n c c' s' :
  latest_conn s n c = Ret (c', s') → ∀ d, owed s' d = owed s d - ind (c = d) + ind (c' = d).
Proof.
  unfold latest_conn, owed. intros (k & _ & H)%rbind_Ret d.
  destruct (co_dead k); [|simplify_eq; lia].
  assert (∃ l m, conns_ref s n = (l, set_conns s m (rs_heap s)) ∧ held m d = held (rs_conns s) d)
    as (l & m & E & Em).
  { unfold conns_ref, map_ref. destruct (rs_conns s !! n) eqn:E; [by eauto|].
    do 2 eexists. split; [done|]. rewrite held_fresh by done. unfold ind. case_decide; [done|lia]. }
  rewrite E in H. destruct (decide _).
  { injection H as <- <-. cbn. lia. }
  apply rbind_Ret in H as (h1 & H1 & (l' & Hl & (h2 & H2 & [= <- <-])%rbind_Ret)%rbind_Ret).
  cbn in *. pose proof (decref_refs _ _ _ H1 d). pose proof (incref_refs _ _ _ H2 d). lia.
Qed.

Lemma release_owed s c s' : release s c = Ret s' → ∀ d, owed s' d = owed s d - ind (c = d).
Proof.
  unfold release, owed. intros (h & H & [= <-])%rbind_Ret d.
  pose proof (decref_refs _ _ _ H d). cbn. lia.
Qed.

Lemma dispatch_new_owed fill ok died s h req f c c' s' :
  dispatch_new fill ok died s h req f c = Ret (c', s') →
  ∀ d, owed s' d = owed s d - ind (c = d) + ind (c' = d).
Proof.
  unfold dispatch_new. set (s1 := if _ =? _ then _ else _). intros H d.
  assert (owed s1 d = owed s d) as E1.
  { subst s1. destruct (_ =? _); [done|]. unfold updatestat. by destruct (map_ref _ _ _). }
  apply rbind_Ret in H as ([[ret rep] o] & _ & H).
  do 2 (apply rbind_Ret in H as ([] & _ & H)). apply rbind_Ret in H as (rep' & _ & H).
  destruct (m_take_buf rep') as [b1 m']. apply rbind_Ret in H as (s2 & H2 & H).
  assert (owed s2 d = owed s1 d) as E2.
  { transitivity (owed (set_heap (set_obj s1 o) (conn_died died (rs_heap s1))) d).
    - destruct (0 <? _); [|by simplify_eq]. by apply rbind_Ret in H2 as (w & _ & [= <-]).
    - unfold owed. cbn. by rewrite died_refs. }
  apply rbind_Ret in H as ([c2 s3] & Hl & (hp & Hs & [= <- <-])%rbind_Ret).
  pose proof (latest_conn_owed _ _ _ _ _ Hl d) as E3. pose proof (send_refs _ _ _ _ _ Hs d).
  unfold owed in *. cbn. lia.
Qed.

Lemma dispatch_state_owed s h c st b1 s' :
  dispatch_state s h c = Ret (st, b1, s') → ∀ d, owed s' d = owed s d.
Proof.
  unfold dispatch_state. intros H d. destruct (negb _); [|by simplify_eq].
  apply rbind_Ret in H as (w & _ & (s1 & H1 & ([[st1 b] w1] & _ & [= <- <- <-])%rbind_Ret)%rbind_Ret).
  by pose proof (save_conn_owed _ _ _ _ H1 d).
Qed.

Lemma send_owed ok s c r h : conn_send ok (rs_heap s) c r = Ret h → ∀ d, owed (set_heap s h) d = owed s d.
Proof. intros H d. pose proof (send_refs _ _ _ _ _ H d). unfold owed. cbn. lia. Qed.
End references.

(** The request in [buf] is for another instance of the server. *)
Definition stale_request {S} (s : rpcs S) (buf : list ascii) (sz : Z) : bool :=
  match u_unpack_req_header (unmarshall_buf buf sz) with
  | Ret (h, req) => u_ok req && negb (rq_srv_nonce h =? 0) && negb (rq_srv_nonce h =? rs_nonce s)
  | Fail _ => false
  end.

Lemma dispatch_owed {S} fill ok died (s : rpcs S) c buf sz s' :
  dispatch fill ok died s c buf sz = Ret s' →
  ∀ d, owed s' d = owed s d - (if stale_request s buf sz then 0 else ind (c = d)).
Proof.
  unfold dispatch, stale_request. intros ([h req] & -> & H)%rbind_Ret d.
  destruct (u_ok req); cbn [negb andb] in *; [|by apply release_owed].
  destruct (negb (rq_srv_nonce h =? 0) && negb (rq_srv_nonce h =? rs_nonce s)).
  { apply rbind_Ret in H as (r & _ & (hp & Hs & [= <-])%rbind_Ret).
    rewrite (send_owed _ _ _ _ _ Hs). lia. }
  destruct (rs_procs s !! rq_proc h) as [f|]; [|by apply rbind_Ret in H as (? & _ & ?)].
  apply rbind_Ret in H as ([[st b1] s1] & H1 & ([c2 s2] & H2 & H3)%rbind_Ret).
  rewrite (release_owed _ _ _ H3), <- (dispatch_state_owed _ _ _ _ _ _ H1).
  assert (owed s2 d = owed s1 d - ind (c = d) + ind (c2 = d)) as ->; [|lia].
  destruct st.
  - by eapply dispatch_new_owed.
  - simplify_eq. lia.
  - apply rbind_Ret in H2 as (hp & Hs & [= <- <-]). rewrite (send_owed _ _ _ _ _ Hs). lia.
  - apply rbind_Ret in H2 as (r & _ & (hp & Hs & [= <- <-])%rbind_Ret).
    rewrite (send_owed _ _ _ _ _ Hs). lia.
Qed.

(** [dispatch] gives back the one reference to the connection its job
    holds and leaves every other count balanced with the table of latest
    connections, also when the reply moves to a newer connection; except
    for a request meant for an older instance of the server, where the early
    return keeps the reference and the connection is never deleted. *)
Theorem dispatch_references {S} fill ok died (s : rpcs S) c buf sz s' :
  dispatch fill ok died s c buf sz = Ret s' →
  ∀ d, owed s' d = owed s d - (if stale_request s buf sz then 0 else ind (c = d)).
Proof. apply dispatch_owed. Qed.

Lemma dispatch_references_witness :
  dispatch "x"%char true [] demo_server 1 demo_request 28 = Ret demo_served ∧
  owed demo_server 1 = 2 ∧ owed demo_served 1 = 1.
Proof.
  split; [exact demo_served_Ret|]. split; [reflexivity|].
  rewrite (dispatch_references "x"%char true [] demo_server 1 demo_request 28 demo_served demo_served_Ret 1).
  vm_compute. reflexivity.
Defined.

(** What [demo_count] writes for its first run. *)
Definition demo_reply : marshall :=
  match demo_count (Unmarshall demo_request 28 24 true) (marshall_new "x"%char) 0 with
  | Ret (_, r, _) => r | Fail _ => marshall_new "x"%char end.

Lemma demo_reply_rep : rep demo_reply (replicate 24 "x"%char) (be32 0).
Proof. apply (Rep _ _ _ (replicate 996 "x"%char) "x"%char); vm_compute; reflexivity. Qed.

(** ** [dispatch] returns *)

(** A reply whose bytes are there to be sent. *)
Definition sendable (r : reply) : Prop := ∃ b, r.1 = Some b ∧ 4 ≤ r.2 ≤ Z.of_nat (length b).

Definition replies_ok (w : window) : Prop :=
  ∀ n e, e ∈ entries w n → rt_cb_present e = true → sendable (rt_buf e, rt_sz e).

(** The job of a request that came over [c] holds a reference to it, and the
    table of latest connections holds one for each of its entries. *)
Definition balanced {S} (s : rpcs S) (c : nat) : Prop :=
  (∀ n, rs_conns s !! n ≠ Some None) ∧ ∀ d, ind (c = d) ≤ owed s d.

Lemma held_nonneg m c : 0 ≤ held m c.
Proof. unfold held. lia. Qed.

Lemma held_pos m n c : m !! n = Some (Some c) → 1 ≤ held m c.
Proof.
  intros E. pose proof (held_replace m n (Some c) None c E) as H.
  pose proof (held_nonneg (<[n := None]> m) c). unfold ind in H.
  rewrite decide_True, decide_False in H by done. lia.
Qed.

Lemma refs_pos h c : 1 ≤ refs h c → ∃ k, h !! c = Some k ∧ 1 ≤ co_refno k.
Proof. unfold refs. destruct (h !! c) as [k|]; cbn; [by exists k|lia]. Qed.

Lemma decref_total h c : 1 ≤ refs h c → ∃ h', conn_decref h c = Ret h' ∧ ∀ d, refs h' d = refs h d - ind (c = d).
Proof.
  intros (k & E & Hk)%refs_pos. assert (abort_free (conn_decref h c)) as [h' Hh].
  { unfold conn_decref, conn_get. rewrite E. cbn [rbind]. rewrite VERIFY_true by lia. cbn [rbind].
    destruct (_ && _); by eexists. }
  exists h'. split; [done|]. by apply decref_refs.
Qed.

Lemma incref_total h c : 1 ≤ refs h c → ∃ h', conn_incref h c = Ret h' ∧ ∀ d, refs h' d = refs h d + ind (c = d).
Proof.
  intros (k & E & Hk)%refs_pos. unfold conn_incref, conn_get. rewrite E. cbn [rbind]. eexists. split; [done|].
  apply incref_refs. unfold conn_incref, conn_get. by rewrite E.
Qed.

Section returns.
Context {S : Type}.
Implicit Types s : rpcs S.

Lemma balanced_refs s c : balanced s c → 1 ≤ refs (rs_heap s) c.
Proof.
  intros [_ H]. specialize (H c). unfold owed, ind in H. rewrite decide_True in H by done.
  pose proof (held_nonneg (rs_conns s) c). lia.
Qed.

Lemma balanced_table s c n d : balanced s c → rs_conns s !! n = Some (Some d) →
  1 + ind (c = d) ≤ refs (rs_heap s) d.
Proof. intros [_ H] E%held_pos. specialize (H d). unfold owed in H. lia. Qed.

Lemma release_total s c : balanced s c → abort_free (release s c).
Proof.
  intros H%balanced_refs. destruct (decref_total _ _ H) as (h & E & _). unfold release. rewrite E. by eexists.
Qed.

Lemma send_total ok s c r : balanced s c → sendable r →
  ∃ h, conn_send ok (rs_heap s) c r = Ret h ∧ balanced (set_heap s h) c.
Proof.
  intros Hb (b & Eb & Hsz). destruct r as [o sz]. cbn in Eb, Hsz. subst o.
  destruct (refs_pos _ _ (balanced_refs _ _ Hb)) as (k & Ek & _).
  assert (abort_free (conn_send ok (rs_heap s) c (Some b, sz))) as [h Hs].
  { unfold conn_send, conn_get. rewrite Ek. cbn [rbind]. destruct (co_dead k); [by eexists|].
    replace ((4 <=? sz) && (sz <=? Z.of_nat (length b))) with true by lia. destruct ok; by eexists. }
  exists h. split; [done|]. split; [apply Hb|]. intros d. rewrite (send_owed _ _ _ _ _ Hs). apply Hb.
Qed.

Lemma save_conn_total s n c : balanced s c →
  ∃ s', save_conn s n c = Ret s' ∧ balanced s' c ∧ ∃ d, rs_conns s' !! n = Some (Some d).
Proof.
  intros Hb. pose proof (balanced_refs s c Hb) as Hc.
  assert (∃ s', save_conn s n c = Ret s' ∧ (∀ m, rs_conns s' !! m ≠ Some None) ∧
    ∃ d, rs_conns s' !! n = Some (Some d)) as (s' & E & Hn & Hd).
  { assert (∀ m, <[n := Some c]> (rs_conns s) !! m ≠ Some None) as Hins.
    { intros m. destruct (decide (n = m)) as [<-|]; [by rewrite lookup_insert_eq|].
      rewrite lookup_insert_ne by done. apply Hb. }
    unfold save_conn. destruct (rs_conns s !! n) as [[old|]|] eqn:E; [|by apply Hb in E|].
    - pose proof (balanced_table s c n old Hb E) as Ho.
      destruct (refs_pos (rs_heap s) old) as (ko & Eo & _); [unfold ind in Ho; case_decide; lia|].
      destruct (refs_pos _ _ Hc) as (kc & Ec & _). unfold conn_get. cbn [deref rbind]. rewrite Eo, Ec. cbn [rbind].
      destruct (_ <? 0); [|by exists s; split_and!; [done|apply Hb|by exists old]].
      destruct (decref_total (rs_heap s) old) as (h1 & E1 & R1); [unfold ind in Ho; case_decide; lia|].
      destruct (incref_total h1 c) as (h2 & E2 & _).
      { rewrite R1. unfold ind in *. repeat case_decide; simplify_eq; lia. }
      rewrite E1. cbn [rbind]. rewrite E2. eexists. split; [done|]. split; [done|]. exists c. apply lookup_insert_eq.
    - destruct (incref_total _ _ Hc) as (h & Eh & _). rewrite Eh. eexists. split; [done|].
      split; [done|]. exists c. apply lookup_insert_eq. }
  exists s'. split; [done|]. split; [|done]. split; [done|]. intros d. rewrite (save_conn_owed _ _ _ _ E). apply Hb.
Qed.

Lemma latest_conn_total s n c d : balanced s c → rs_conns s !! n = Some (Some d) →
  ∃ c' s', latest_conn s n c = Ret (c', s') ∧ balanced s' c'.
Proof.
  intros Hb En. pose proof (balanced_refs s c Hb) as Hc. pose proof (balanced_table s c n d Hb En) as Hd.
  assert (∃ c' s', latest_conn s n c = Ret (c', s') ∧ rs_conns s' = rs_conns s) as (c' & s' & E & Ec).
  { unfold latest_conn, conn_get, conns_ref, map_ref. destruct (refs_pos _ _ Hc) as (k & Ek & _).
    rewrite Ek, En. cbn [rbind]. destruct (co_dead k); [|by do 2 eexists].
    destruct (decide (Some d = Some c)) as [|Hne]; [by do 2 eexists|].
    cbn [rs_heap set_conns set_heap rs_conns deref rbind].
    destruct (decref_total (rs_heap s) c Hc) as (h1 & E1 & R1). rewrite E1. cbn [rbind rs_heap set_conns set_heap].
    destruct (incref_total h1 d) as (h2 & E2 & _).
    { rewrite R1. unfold ind in *. repeat case_decide; simplify_eq; lia. }
    rewrite E2. by do 2 eexists. }
  exists c', s'. split; [done|]. split; [rewrite Ec; apply Hb|]. intros e.
  rewrite (latest_conn_owed _ _ _ _ _ E). destruct Hb as [_ Hb]. specialize (Hb e). lia.
Qed.

Lemma rep_sendable m h c : rep m h c → sendable (m_take_buf m).1.
Proof.
  intros [rest fill sz capa Hh ->]. eexists. split; [done|]. pose proof hdr_sz. subst sz.
  cbn. rewrite !length_app. lia.
Qed.

Lemma error_reply_total fill xid ret : ∃ r, error_reply fill xid ret = Ret r ∧ sendable r.
Proof.
  unfold error_reply. destruct (m_pack_reply_header_rep _ _ _ (ReplyHeader xid ret) (marshall_new_rep fill))
    as (m & sz & tl & -> & _ & R). eexists. split; [done|]. by eapply rep_sendable.
Qed.

Lemma updatestat_frame s h :
  let s1 := if rs_counting s =? 0 then s else updatestat s (rq_proc h) in
  rs_obj s1 = rs_obj s ∧ rs_reply_window s1 = rs_reply_window s ∧ rs_conns s1 = rs_conns s ∧
  rs_heap s1 = rs_heap s.
Proof. cbn. destruct (_ =? _); [done|]. unfold updatestat. by destruct (map_ref _ _ _). Qed.

Lemma dispatch_state_total s h c : balanced s c → 0 < rq_clt_nonce h →
  StronglySorted Z.lt (rt_xid <$> entries (rs_reply_window s) (rq_clt_nonce h)) →
  ∃ st b1 s', dispatch_state s h c = Ret (st, b1, s') ∧ balanced s' c ∧
    ∃ d, rs_conns s' !! rq_clt_nonce h = Some (Some d).
Proof.
  intros Hb Hn Hs. unfold dispatch_state. cbv zeta. replace (rq_clt_nonce h =? 0) with false by lia. cbn [negb].
  assert (∃ w, match rs_reply_window s !! rq_clt_nonce h with
    | None => Ret (<[rq_clt_nonce h := []]> (rs_reply_window s))
    | Some _ => Ret (rs_reply_window s) end = Ret w ∧
    entries w (rq_clt_nonce h) = entries (rs_reply_window s) (rq_clt_nonce h)) as (w & -> & Ew).
  { unfold entries. destruct (rs_reply_window s !! rq_clt_nonce h) eqn:E; eexists; (split; [done|]).
    - by rewrite E.
    - by rewrite lookup_insert_eq. }
  cbn [rbind]. destruct (save_conn_total (set_window s w) (rq_clt_nonce h) c Hb) as (s1 & E1 & Hb1 & Hd).
  rewrite E1. apply save_conn_Ret in E1 as (Ew1 & _ & _). cbn [rbind]. rewrite Ew1.
  change (rs_reply_window (set_window s w)) with w.
  destruct (checkduplicate_cases w (rq_clt_nonce h) (u32 (rq_xid h)) (u32 (rq_xid_rep h)) (None, 0))
    as (st & out & l & Ec & _); [by rewrite Ew|].
  rewrite Ec. do 3 eexists. split; [done|]. by split.
Qed.

(** The reply to a request is what its handler has marshalled, with the header
    packed in front of it: the number of the request and the status. *)
Definition reply_of (h : req_header) (ret : Z) (r : marshall) (cc : list ascii) (b : reply) : Prop :=
  ∃ r' sz tl, m_pack_reply_header r (ReplyHeader (rq_xid h) ret) = Ret r' ∧ length sz = 4%nat ∧
    rep r' (sz ++ reply_header_bytes (ReplyHeader (rq_xid h) ret) ++ tl) cc ∧ b = (m_take_buf r').1.

Lemma dispatch_new_total fill ok died s h req (f : handler S) c d ret r o hh cc :
  balanced s c → 0 < rq_clt_nonce h → rs_conns s !! rq_clt_nonce h = Some (Some d) →
  u32 (rq_xid h) ∈ rt_xid <$> entries (rs_reply_window s) (rq_clt_nonce h) →
  f req (marshall_new fill) (rs_obj s) = Ret (ret, r, o) → 0 ≤ ret → rep r hh cc →
  ∃ c' s' b1, dispatch_new fill ok died s h req f c = Ret (c', s') ∧ balanced s' c' ∧
    reply_of h ret r cc b1 ∧ sendable b1 ∧
    add_reply (rs_reply_window s) (rq_clt_nonce h) (u32 (rq_xid h)) b1 = Ret (rs_reply_window s').
Proof.
  intros Hb Hn Hd Hx Hf Hret Hr. unfold dispatch_new.
  destruct (updatestat_frame s h) as (Eo & Ew & Ec & Eh). set (s1 := if _ =? _ then _ else _) in *.
  rewrite Eo, Hf. cbn [rbind]. rewrite VERIFY_true by (unfold rpc_const.unmarshal_args_failure; lia).
  cbn [rbind]. rewrite VERIFY_true by lia. cbn [rbind].
  destruct (m_pack_reply_header_rep r hh cc (ReplyHeader (rq_xid h) ret) Hr) as (r' & sz & tl & Ep & Hsz & Hr').
  assert (reply_of h ret r cc (m_take_buf r').1) as Hof by (by exists r', sz, tl).
  rewrite Ep. cbn [rbind]. pose proof (rep_sendable _ _ _ Hr') as Hsend. destruct (m_take_buf r') as [b1 m'].
  replace (0 <? rq_clt_nonce h) with true by lia.
  cbn [rs_reply_window set_heap set_obj set_conns]. rewrite Ew.
  assert (abort_free (add_reply (rs_reply_window s) (rq_clt_nonce h) (u32 (rq_xid h)) b1)) as [w Ea].
  { unfold add_reply. pose proof (map_ref_fst [] (rs_reply_window s) (rq_clt_nonce h)) as E.
    fold (entries (rs_reply_window s) (rq_clt_nonce h)) in E.
    destruct (map_ref _ _ _) as [l w0]. cbn in E. subst l.
    destruct (proj2 (store_reply_total _ b1 _) Hx) as [l' ->]. by eexists. }
  rewrite Ea. cbn [rbind]. set (s2 := set_window _ w).
  assert (balanced s2 c) as Hb2.
  { unfold balanced, owed. cbn. rewrite Ec. split; [apply Hb|]. intros e. rewrite died_refs, Eh. apply Hb. }
  destruct (latest_conn_total s2 (rq_clt_nonce h) c d Hb2) as (c' & s3 & El & Hb3); [cbn; by rewrite Ec|].
  rewrite El. apply latest_conn_Ret in El as [Ew3 _]. cbn [rbind].
  destruct (send_total ok s3 c' b1 Hb3 Hsend) as (hp & -> & Hb4). cbn [rbind].
  exists c', (set_heap s3 hp), b1. split_and!; [done|done|done|done|]. cbn. by rewrite Ew3.
Qed.

(** The answers that run no handler. *)
Lemma dispatch_old_total fill ok died s h req (f : handler S) c st b1 :
  st ≠ NEW → balanced s c → (st = DONE → sendable b1) →
  ∃ c2 s2, match st with
    | NEW => dispatch_new fill ok died s h req f c
    | INPROGRESS => Ret (c, s)
    | DONE => rbind (conn_send ok (rs_heap s) c b1) (λ hp, Ret (c, set_heap s hp))
    | FORGOTTEN =>
        rbind (error_reply fill (rq_xid h) rpc_const.atmostonce_failure)
          (λ r, rbind (conn_send ok (rs_heap s) c r) (λ hp, Ret (c, set_heap s hp)))
    end = Ret (c2, s2) ∧ balanced s2 c2 ∧
    rs_reply_window s2 = rs_reply_window s ∧ rs_obj s2 = rs_obj s.
Proof.
  intros Hne Hb Hdone. destruct st; [done| | |].
  - by exists c, s.
  - destruct (send_total ok s c b1 Hb (Hdone eq_refl)) as (hp & -> & Hb'). by exists c, (set_heap s hp).
  - destruct (error_reply_total fill (rq_xid h) rpc_const.atmostonce_failure) as (r & -> & Hr). cbn [rbind].
    destruct (send_total ok s c r Hb Hr) as (hp & -> & Hb'). by exists c, (set_heap s hp).
Qed.

Lemma checkduplicate_replies_ok w n x r out st out' w' :
  StronglySorted Z.lt (rt_xid <$> entries w n) → replies_ok w →
  checkduplicate_and_update w n x r out = Ret (st, out', w') →
  replies_ok w' ∧ (st = DONE → sendable out') ∧
  (st = NEW → x ∈ rt_xid <$> entries w' n ∧ StronglySorted Z.lt (rt_xid <$> entries w' n)).
Proof.
  intros Hs Hok E. destruct (checkduplicate_cases w n x r out Hs) as (st1 & o1 & l' & E' & Hc).
  rewrite E in E'. injection E' as <- <- ->. destruct (trim_spec r _ Hs) as [[k Hk] _].
  assert (∀ e, e ∈ trim r (entries w n) → rt_cb_present e = true → sendable (rt_buf e, rt_sz e)) as Ht.
  { intros e He. apply (Hok n). rewrite Hk. apply elem_of_app. by right. }
  split_and!.
  - intros m e. rewrite entries_insert. destruct (decide (m = n)) as [->|]; [|apply Hok]. intros He.
    destruct st; [|destruct Hc as [-> _]; by apply Ht..].
    destruct Hc as (p & q & El & -> & _). rewrite El in Ht.
    apply elem_of_app in He as [He|[->|He]%elem_of_cons]; [|done|]; apply Ht, elem_of_app; auto.
  - intros ->. destruct Hc as (_ & e & He & _ & Hcb & ->). by apply Ht.
  - intros ->. destruct Hc as (p & q & El & -> & Hp & Hq & _). rewrite entries_insert, decide_True by done.
    split; [rewrite fmap_app, fmap_cons; apply elem_of_app; right; left|].
    apply sorted_insert; [|done|done]. rewrite <- El. eapply sorted_suffix; [by exists k|done].
Qed.

Lemma add_reply_replies_ok w n x b1 w' :
  StronglySorted Z.lt (rt_xid <$> entries w n) → replies_ok w → sendable b1 →
  add_reply w n x b1 = Ret w' → replies_ok w'.
Proof.
  intros Hs Hok Hb. unfold add_reply, map_ref.
  assert (∀ w0, (∀ m, entries w0 m = entries w m) →
    rbind (store_reply x b1 (entries w n)) (λ l, Ret (<[n := l]> w0)) = Ret w' → replies_ok w') as H.
  { intros w0 Hw0 (l & Es & [= <-])%rbind_Ret m e. rewrite entries_insert.
    destruct (decide (m = n)) as [->|]; [|rewrite Hw0; apply Hok].
    intros He. destruct (store_reply_spec _ _ _ _ Hs Es) as [_ Hl].
    destruct (Hl e He) as [->|[He' _]]; [by destruct b1|by apply (Hok n)]. }
  unfold entries in H. destruct (w !! n) as [l|] eqn:E; cbn [rbind]; [by apply H|].
  apply H. intros m. destruct (decide (n = m)) as [<-|]; [by rewrite lookup_insert_eq, E|by rewrite lookup_insert_ne].
Qed.
End returns.

Lemma amo_started_fresh w w' k st an :
  amo_reachable (Amo w st an) → amo_step (Amo w st an) (Amo w' (k :: st) an) → (k ∉ st) ∧ an !! k = None.
Proof.
  intros Hr Hstep. pose proof (amo_reachable_inv _ Hr) as (_ & Hdom & _).
  pose proof (amo_reachable_inv _ (rtc_r _ _ _ Hr Hstep)) as (Hnd & _ & _).
  apply NoDup_cons in Hnd as [Hk _]. split; [done|]. apply eq_None_not_Some. intros Hs. by apply Hdom in Hs.
Qed.

Lemma not_newer (st : list (Z * Z)) n x (P : Prop) :
  ((∀ y, (n, y) ∈ st → y < x) → P) → ¬ P → ∃ y, (n, y) ∈ st ∧ x ≤ y.
Proof.
  intros H HP. destruct (decide (Exists (λ k, k.1 = n ∧ x ≤ k.2) st)) as [He|Hno].
  - apply Exists_exists in He as ([n' y] & Hin & <- & Hy). by exists y.
  - destruct HP. apply H. intros y Hin. apply Z.lt_nge. intros Hy. apply Hno, Exists_exists.
    by exists (n, y).
Qed.

(** C14: [dispatch] implements the interleaved window.  A request of an
    at-most-once client that carries no server nonce or this server's, and a
    number above the replies it acknowledges: when its handler returns a
    status that is not negative, and the reference counts of connections are
    in order, [dispatch] returns too, whatever connections break meanwhile.
    It takes the reply window from one reachable state to another; the objects
    change only if the request had never been started, and then by exactly one
    run of its handler, and what is recorded for the request is its reply: the
    number, the status and the contents that the handler has marshalled; a
    request newer than all that were started is run. *)
Theorem dispatch_refines_amo {S} fill ok died (s : rpcs S) c buf sz h req (f : handler S) ret r o hh cc st an :
  u_unpack_req_header (unmarshall_buf buf sz) = Ret (h, req) → u_ok req = true →
  0 < rq_clt_nonce h → u32 (rq_xid_rep h) < u32 (rq_xid h) →
  rq_srv_nonce h = 0 ∨ rq_srv_nonce h = rs_nonce s → rs_procs s !! rq_proc h = Some f →
  amo_reachable (Amo (rs_reply_window s) st an) → replies_ok (rs_reply_window s) → balanced s c →
  f req (marshall_new fill) (rs_obj s) = Ret (ret, r, o) → 0 ≤ ret → rep r hh cc →
  let k := (rq_clt_nonce h, u32 (rq_xid h)) in
  ∃ s' st' an', dispatch fill ok died s c buf sz = Ret s' ∧
    amo_reachable (Amo (rs_reply_window s') st' an') ∧ replies_ok (rs_reply_window s') ∧
    (st' = st ∧ an' = an ∧ rs_obj s' = rs_obj s ∧
       (∃ y, (rq_clt_nonce h, y) ∈ st ∧ u32 (rq_xid h) ≤ y) ∨
     (k ∉ st) ∧ st' = k :: st ∧ rs_obj s' = o ∧
       ∃ b, reply_of h ret r cc b ∧ sendable b ∧ an' = <[k := b]> an).
Proof.
  intros Hu Hok Hn Hx Hsrv Hf Hreach Hrep Hb Hrun Hret Hr k.
  pose proof (amo_reachable_inv _ Hreach) as Hinv. pose proof Hinv as (_ & _ & Hall).
  pose proof (ci_sorted _ _ _ (Hall (rq_clt_nonce h))) as Hs. cbn [amo_window] in Hs.
  destruct (dispatch_state_total s h c Hb Hn Hs) as (sta & b1 & s1 & Est & Hb1 & d & Hd).
  destruct (dispatch_state_Ret _ _ _ _ _ _ Est Hn) as [Hck Eo].
  destruct (checkduplicate_replies_ok _ _ _ _ _ _ _ _ Hs Hrep Hck) as (Hrep1 & Hdone & Hnew).
  destruct (checkduplicate_correct _ (rq_clt_nonce h) _ _ (None, 0) Hinv Hx)
    as (sta' & b' & w' & Eck & Hnewer & _). cbn [amo_window amo_started] in Eck, Hnewer.
  rewrite Hck in Eck. injection Eck as <- <- <-.
  pose proof (amo_arrive (Amo (rs_reply_window s) st an) _ _ _ _ _ _ _ Hx Hck) as Hstep.
  unfold dispatch. rewrite Hu. cbn [rbind]. rewrite Hok. cbn [negb].
  assert (negb (rq_srv_nonce h =? 0) && negb (rq_srv_nonce h =? rs_nonce s) = false) as ->
    by (destruct Hsrv as [->| ->]; [done|by rewrite Z.eqb_refl, andb_false_r]).
  rewrite Hf, Est. cbn [rbind].
  destruct (decide (sta = NEW)) as [->|Hsta].
  - destruct (Hnew eq_refl) as [Hin Hs1].
    destruct (dispatch_new_total fill ok died s1 h req f c d ret r o hh cc) as (c2 & s2 & b & E2 & Hb2 & Hof & Hsend & Ha);
      [done|done|done|done|by rewrite Eo|done|done|].
    rewrite E2. cbn [rbind]. destruct (release_total s2 c2 Hb2) as [s3 E3]. rewrite E3.
    apply release_Ret in E3 as [Ew3 Eo3]. rewrite <- Ew3 in Ha.
    destruct (dispatch_new_Ret _ _ _ _ _ _ _ _ _ _ E2 Hn) as [(ret' & r' & Hrun' & _) _].
    rewrite Eo, Hrun in Hrun'. injection Hrun' as _ _ Ho.
    destruct (amo_started_fresh _ _ _ _ _ Hreach Hstep) as [Hk Han].
    exists s3, (k :: st), (<[k := b]> an). split_and!; [done| | |right; split_and!; [done|done|congruence|by exists b]].
    + eapply rtc_r; [eapply rtc_r; [exact Hreach|exact Hstep]|].
      apply (amo_finish (Amo _ (k :: st) an)); [left|done|done].
    + by eapply add_reply_replies_ok.
  - destruct (dispatch_old_total fill ok died s1 h req f c sta b1 Hsta Hb1 Hdone)
      as (c2 & s2 & -> & Hb2 & Ew2 & Eo2).
    cbn [rbind]. destruct (release_total s2 c2 Hb2) as [s3 E3]. rewrite E3.
    apply release_Ret in E3 as [Ew3 Eo3]. rewrite Ew2 in Ew3.
    exists s3, st, an. split_and!; [done|rewrite Ew3; by eapply rtc_r|by rewrite Ew3|left].
    split_and!; [done|done|congruence|]. by eapply not_newer.
Qed.

Lemma dispatch_refines_amo_witness :
  ∃ s' st' an', dispatch "x"%char true [] demo_server 1 demo_request 28 = Ret s' ∧
    amo_reachable (Amo (rs_reply_window s') st' an') ∧ st' = [(7, 1)] ∧ rs_obj s' = 1 ∧
    ∃ b, reply_of (ReqHeader 1 4660 7 99 0) 0 demo_reply (be32 0) b ∧ an' = {[(7, 1) := b]}.
Proof.
  destruct (dispatch_refines_amo "x"%char true [] demo_server 1 demo_request 28
    (ReqHeader 1 4660 7 99 0) (Unmarshall demo_request 28 24 true) demo_count
    0 demo_reply 1 (replicate 24 "x"%char) (be32 0) [] ∅) as (s' & st' & an' & E & Hr & _ & Hcase).
  - vm_compute. reflexivity.
  - reflexivity.
  - cbn. lia.
  - vm_compute. reflexivity.
  - right. reflexivity.
  - reflexivity.
  - apply rtc_refl.
  - intros n e He. apply elem_of_nil in He. destruct He.
  - split; [done|]. intros d. destruct (decide (1%nat = d)) as [<-|Hd]; [vm_compute; discriminate|].
    unfold owed, refs, ind. cbn -[held]. rewrite decide_False by exact Hd.
    rewrite lookup_singleton_ne by exact Hd. vm_compute. discriminate.
  - vm_compute. reflexivity.
  - lia.
  - exact demo_reply_rep.
  - exists s', st', an'. split; [exact E|]. split; [exact Hr|].
    destruct Hcase as [(_ & _ & _ & y & Hy & _)|(_ & Hst & Ho & b & Hof & _ & Han)]; [destruct (not_elem_of_nil _ Hy)|].
    split; [exact Hst|]. split; [exact Ho|]. exists b. split; [exact Hof|exact Han].
Defined.

(** A client that asked for no at-most-once logic (nonce 0) takes the
    server down by closing its connection while its request is executed: the
    reply is redirected to [conns_\[0\]], which is a null pointer. *)
Theorem nonce_zero_reply_crashes {S} fill ok died (s : rpcs S) h req f c o ret rep k :
  rq_clt_nonce h = 0 → rs_counting s = 0 → rs_conns s !! 0 = None →
  f req (marshall_new fill) (rs_obj s) = Ret (ret, rep, o) → 0 ≤ ret →
  abort_free (m_pack_reply_header rep (ReplyHeader (rq_xid h) ret)) →
  rs_heap s !! c = Some k → 1 ≤ co_refno k → c ∈ died →
  dispatch_new fill ok died s h req f c = Fail UndefinedBehaviour.
Proof.
  intros Hn Hc H0 Hf Hret [rep' Hp] Hk Hr Hd. unfold dispatch_new.
  rewrite Hc, Z.eqb_refl, Hf. cbn [rbind].
  rewrite VERIFY_true by (unfold rpc_const.unmarshal_args_failure; lia).
  rewrite VERIFY_true by lia. cbn [rbind]. rewrite Hp. cbn [rbind].
  destruct (m_take_buf rep') as [b1 m']. rewrite Hn. cbn [Z.ltb Z.compare rbind].
  assert (∃ k', conn_died died (rs_heap s) !! c = Some k' ∧ co_dead k' = true ∧ 1 ≤ co_refno k')
    as (k' & Ek & Edead & Hr').
  { destruct (died_dead died _ c k Hk Hd) as (k' & ? & ? & ?). exists k'. split_and!; [done|done|lia]. }
  unfold latest_conn, conn_get. cbn [set_heap set_obj set_conns rs_heap rs_conns].
  rewrite Ek. cbn [rbind]. rewrite Edead. unfold conns_ref, map_ref.
  cbn [set_heap set_obj set_conns rs_heap rs_conns]. rewrite H0, decide_False by done.
  unfold conn_decref, conn_get. cbn [rs_heap set_conns]. rewrite Ek. cbn [rbind]. rewrite VERIFY_true by lia. cbn [rbind].
  by destruct (_ && co_dead k').
Qed.

Lemma nonce_zero_reply_crashes_witness :
  dispatch_new "x"%char true [1%nat] demo_server (ReqHeader 1 4660 0 99 0)
    (Unmarshall demo_request 28 24 true) demo_count 1 = Fail UndefinedBehaviour.
Proof.
  eapply (nonce_zero_reply_crashes "x"%char true [1%nat] demo_server (ReqHeader 1 4660 0 99 0)).
  - reflexivity.
  - reflexivity.
  - reflexivity.
  - vm_compute. reflexivity.
  - lia.
  - vm_compute. eexists. reflexivity.
  - reflexivity.
  - vm_compute. congruence.
  - left.
Defined.
