(* ===== verification/ThrPool.v ===== *)
(** * The bounded queue and the thread pool (rpc/fifo.h, rpc/thr_pool.h, rpc/thr_pool.cc)

    [fifo::enq] and [fifo::deq] hold the queue's mutex except while they wait,
    so each attempt is one atomic operation whose outcome may be to wait.  A
    [ThrPool] is such a queue of jobs and a set of worker threads; [pool_step]
    interleaves the clients, the workers and the destructor. *)

From S2P Require Import Prelude.

(** ** fifo *)

Section fifo.
Context {T : Type}.

Record fifo := Fifo { q_ : list T; max_ : Z }.

Definition fifo_new (limit : Z) : fifo := Fifo [] (u32 limit).

(** [bool size()]: the number of elements, converted to [bool]. *)
Definition fifo_size (f : fifo) : bool := negb (Z.of_nat (length (q_ f)) =? 0).

Inductive enq_outcome := Enqueued (f : fifo) | QueueFull | EnqWaits.

Definition fifo_enq (f : fifo) (e : T) (blocking : bool) : enq_outcome :=
  if (max_ f =? 0) || (Z.of_nat (length (q_ f)) <? max_ f)
  then Enqueued (Fifo (q_ f ++ [e]) (max_ f))
  else if blocking then EnqWaits else QueueFull.

(** [None]: the caller waits on [non_empty_c_]. *)
Definition fifo_deq (f : fifo) : option (T * fifo) :=
  match q_ f with
  | [] => None
  | e :: q => Some (e, Fifo q (max_ f))
  end.
End fifo.
Arguments fifo T : clear implicits.
Arguments enq_outcome T : clear implicits.

(** ** ThrPool *)

Section pool.
Context {J : Type}.

(** A job is [None] when its function pointer is null: the poison pill.
    [tp_alive] counts the workers that have not left [do_worker]. *)
Record ThrPool := Pool {
  tp_nthreads : nat; tp_blockadd : bool; tp_jobq : fifo (option J); tp_alive : nat }.

Definition ThrPool_new (sz : nat) (blocking : bool) : ThrPool :=
  Pool sz blocking (fifo_new (100 * Z.of_nat sz)) sz.

Definition set_jobq (p : ThrPool) (f : fifo (option J)) : ThrPool :=
  Pool (tp_nthreads p) (tp_blockadd p) f (tp_alive p).

(** [addJob], for a job with a function. *)
Definition addJob (p : ThrPool) (j : J) : enq_outcome (option J) :=
  fifo_enq (tp_jobq p) (Some j) (tp_blockadd p).

(** [takeJob]: the job and whether it has a function. *)
Definition takeJob (p : ThrPool) : option (option J * bool * ThrPool) :=
  match fifo_deq (tp_jobq p) with
  | Some (j, f) => Some (j, bool_decide (is_Some j), set_jobq p f)
  | None => None
  end.

(** One turn of a worker's loop in [do_worker]: the job it runs, or its
    exit. *)
Definition worker_turn (p : ThrPool) : option (option J * ThrPool) :=
  match takeJob p with
  | None => None
  | Some (j, true, p) => Some (j, p)
  | Some (_, false, p) =>
      Some (None, Pool (tp_nthreads p) (tp_blockadd p) (tp_jobq p) (pred (tp_alive p)))
  end.

(** The pool at work: the jobs accepted so far and the jobs started so far,
    oldest first, and how many pills the destructor still has to enqueue
    ([None] before it runs). *)
Record pool_state := PoolState {
  ps_pool : ThrPool; ps_accepted : list J; ps_started : list J; ps_pills : option nat }.

Definition pool_init (sz : nat) (blocking : bool) : pool_state :=
  PoolState (ThrPool_new sz blocking) [] [] None.

Inductive pool_step : pool_state → pool_state → Prop :=
| pool_add p acc st j f :
    addJob p j = Enqueued f →
    pool_step (PoolState p acc st None) (PoolState (set_jobq p f) (acc ++ [j]) st None)
| pool_work p acc st pills j p' :
    (0 < tp_alive p)%nat → worker_turn p = Some (j, p') →
    pool_step (PoolState p acc st pills) (PoolState p' acc (st ++ option_list j) pills)
| pool_destroy p acc st :
    pool_step (PoolState p acc st None) (PoolState p acc st (Some (tp_nthreads p)))
| pool_pill p acc st n f :
    fifo_enq (tp_jobq p) None true = Enqueued f →
    pool_step (PoolState p acc st (Some (S n))) (PoolState (set_jobq p f) acc st (Some n)).

(** The queue is the accepted jobs not yet started, in order, and behind them
    one pill for each worker that will find one. *)
Definition pool_inv (n : nat) (s : pool_state) : Prop :=
  tp_nthreads (ps_pool s) = n ∧ 0 ≤ max_ (tp_jobq (ps_pool s)) ∧
  ∃ js k, q_ (tp_jobq (ps_pool s)) = (Some <$> js) ++ replicate k None ∧
    ps_accepted s = ps_started s ++ js ∧ (tp_alive (ps_pool s) ≠ n → js = []) ∧
    match ps_pills s with
    | None => k = 0%nat ∧ tp_alive (ps_pool s) = n
    | Some m => (m + k)%nat = tp_alive (ps_pool s)
    end.

Lemma enq_Enqueued {T} (f : fifo T) e b f' :
  fifo_enq f e b = Enqueued f' → q_ f' = q_ f ++ [e] ∧ max_ f' = max_ f.
Proof. unfold fifo_enq. destruct (_ || _); [by intros [= <-]|by destruct b]. Qed.

Lemma worker_turn_spec p j p' :
  worker_turn p = Some (j, p') →
  q_ (tp_jobq p) = j :: q_ (tp_jobq p') ∧ max_ (tp_jobq p') = max_ (tp_jobq p) ∧
  tp_nthreads p' = tp_nthreads p ∧
  tp_alive p' = match j with Some _ => tp_alive p | None => pred (tp_alive p) end.
Proof.
  unfold worker_turn, takeJob, fifo_deq. destruct (q_ (tp_jobq p)) as [|[j'|] q] eqn:E; [done|..];
    cbn; intros [= <- <-]; done.
Qed.

Lemma pool_step_inv n s s' : pool_step s s' → pool_inv n s → pool_inv n s'.
Proof.
  intros Hstep (Hn & Hmax & js & k & Hq & Hacc & Hal' & Hp).
  destruct Hstep as [p acc st j f Hadd|p acc st pills j p' Hal Hw|p acc st|p acc st m f Henq];
    unfold pool_inv in *; cbn in *.
  - destruct Hp as [-> Ha]. apply enq_Enqueued in Hadd as [Hadd ->]. split_and!; [done|done|].
    exists (js ++ [j]), 0%nat. rewrite Hadd, Hq, Hacc. cbn.
    by rewrite !app_nil_r, fmap_app, <- app_assoc.
  - apply worker_turn_spec in Hw as (E & -> & -> & Ha). split_and!; [done|done|]. rewrite Hq in E.
    destruct js as [|j' js]; cbn in E.
    + destruct k as [|k]; [done|]. cbn in E. injection E as <- E. exists [], k. cbn.
      rewrite <- E, Hacc, !app_nil_r. split_and!; [done|done|done|]. rewrite Ha.
      destruct pills; [lia|naive_solver lia].
    + injection E as <- E. exists js, k. cbn. rewrite <- E, Hacc, <- app_assoc, Ha.
      split_and!; [done|done| |done]. intros Hne. by specialize (Hal' Hne).
  - destruct Hp as [-> Ha]. split_and!; [done|done|]. exists js, 0%nat.
    split_and!; [done|done|done|lia].
  - apply enq_Enqueued in Henq as [Henq ->]. split_and!; [done|done|]. exists js, (S k).
    rewrite Henq, Hq, Hacc, replicate_S_end, app_assoc. split_and!; [done|done|done|lia].
Qed.

Lemma pool_reachable_inv n b s : rtc pool_step (pool_init n b) s → pool_inv n s.
Proof.
  apply (rtc_ind_r (pool_inv n)).
  - split_and!; [done|apply u32_range|]. by exists [], 0%nat.
  - intros ? ? _. apply pool_step_inv.
Qed.

Lemma worker_turn_nonempty p e q :
  q_ (tp_jobq p) = e :: q → ∃ p', worker_turn p = Some (e, p').
Proof.
  intros E. unfold worker_turn, takeJob, fifo_deq. rewrite E.
  destruct e; cbn; by eexists.
Qed.

(** C35: jobs are started in the order they were accepted, none twice; when
    all workers of a pool that is being destroyed have left, every accepted
    job was started.  Until then the destructor is never stuck: a worker can
    take a turn, or the next pill fits into the queue. *)
Theorem pool_drains n b s :
  n ≠ 0%nat → rtc pool_step (pool_init n b) s →
  ps_started s `prefix_of` ps_accepted s ∧
  (tp_alive (ps_pool s) = 0%nat → ps_started s = ps_accepted s) ∧
  (ps_pills s ≠ None → tp_alive (ps_pool s) ≠ 0%nat → ∃ s', pool_step s s').
Proof.
  intros Hn0 H. destruct s as [p acc st pills].
  destruct (pool_reachable_inv n b _ H) as (Hn & Hmax & js & k & Hq & Hacc & Hal & Hp). cbn in *.
  split_and!; [by exists js| |].
  - intros Ha. rewrite Hal, app_nil_r in Hacc by lia. done.
  - destruct pills as [m|]; [|done]. intros _ Ha. destruct (q_ (tp_jobq p)) as [|e q] eqn:Eq.
    + destruct js; [|done]. destruct k; [|done]. destruct m as [|m]; [lia|].
      eexists. apply pool_pill. unfold fifo_enq. rewrite Eq. cbn.
      replace (_ || _) with true by lia. done.
    + destruct (worker_turn_nonempty p e q Eq) as [p' Hw].
      eexists. apply (pool_work p acc st (Some m) e p'); [lia|done].
Qed.
End pool.
Arguments ThrPool J : clear implicits.
Arguments pool_state J : clear implicits.

(** A pool of one worker that is destroyed after it accepted two jobs. *)
Definition demo_pool : pool_state Z :=
  PoolState (Pool 1 false (Fifo [] 100) 0) [5; 6] [5; 6] (Some 0%nat).

Lemma demo_pool_reachable : rtc pool_step (pool_init 1 false) demo_pool.
Proof.
  eapply rtc_l; [apply (pool_add _ _ _ 5); reflexivity|].
  eapply rtc_l; [apply (pool_add _ _ _ 6); reflexivity|].
  eapply rtc_l; [apply pool_destroy|].
  eapply rtc_l; [eapply pool_pill; reflexivity|].
  do 3 (eapply rtc_l; [eapply pool_work; [cbn; lia|reflexivity]|]).
  apply rtc_refl.
Qed.

Lemma pool_drains_witness :
  rtc pool_step (pool_init 1 false) demo_pool ∧ ps_started demo_pool = ps_accepted demo_pool.
Proof.
  split; [exact demo_pool_reachable|].
  apply (pool_drains 1 false demo_pool); [lia|exact demo_pool_reachable|reflexivity].
Defined.
