(* ===== verification/RpcClient.v ===== *)
(** * The RPC client endpoint (class [rpcc] of rpc/rpc.h and rpc/rpc.cc)

    The time arithmetic of the retransmission deadlines, the window of
    acknowledged transaction numbers, the table of outstanding calls, and
    [call1] in the three parts other threads can run between: what it does
    before the wait loop, the wait loop, and what it does after it. *)

From S2P Require Import Prelude Marshall Protocols.

(** ** struct timespec *)

Record timespec := Timespec { tv_sec : Z; tv_nsec : Z }.

Definition cmp_timespec (a b : timespec) : Z :=
  if tv_sec b <? tv_sec a then 1
  else if tv_sec a <? tv_sec b then -1
  else if tv_nsec b <? tv_nsec a then 1
  else if tv_nsec a <? tv_nsec b then -1
  else 0.

(** [while (tv_nsec > 1000000000)], run at most [fuel] times. *)
Fixpoint normalize_timespec (fuel : nat) (t : timespec) : timespec :=
  match fuel with
  | O => t
  | S fuel =>
      if 1000000000 <? tv_nsec t
      then normalize_timespec fuel (Timespec (tv_sec t + 1) (tv_nsec t - 1000000000))
      else t
  end.

(** [b/1000] and [b % 1000] truncate towards zero. *)
Definition add_timespec (a : timespec) (b : Z) : res timespec :=
  let t := Timespec (tv_sec a + Z.quot b 1000) (tv_nsec a + Z.rem b 1000 * 1000000) in
  VERIFY (0 <=? tv_nsec t);;
  Ret (normalize_timespec (Z.to_nat (tv_nsec t / 1000000000)) t).

Definition diff_timespec (end_ start : timespec) : res Z :=
  let diff := if tv_sec start <? tv_sec end_ then (tv_sec end_ - tv_sec start) * 1000 else 0 in
  VERIFY (negb (diff =? 0) || (tv_sec end_ =? tv_sec start));;
  Ret (if tv_nsec start <? tv_nsec end_
       then diff + Z.quot (tv_nsec end_ - tv_nsec start) 1000000
       else diff - Z.quot (tv_nsec start - tv_nsec end_) 1000000).

Definition nanos (t : timespec) : Z := tv_sec t * 1000000000 + tv_nsec t.

Lemma normalize_timespec_spec fuel t :
  0 ≤ tv_nsec t ≤ Z.of_nat fuel * 1000000000 + 1000000000 →
  nanos (normalize_timespec fuel t) = nanos t ∧
  0 ≤ tv_nsec (normalize_timespec fuel t) ≤ 1000000000.
Proof.
  revert t. induction fuel as [|fuel IH]; intros t Ht; cbn [normalize_timespec].
  - split; [done|lia].
  - destruct (Z.ltb_spec 1000000000 (tv_nsec t)); [|split; [done|lia]].
    destruct (IH (Timespec (tv_sec t + 1) (tv_nsec t - 1000000000))) as [E ?]; [cbn; lia|].
    split; [|done]. rewrite E. unfold nanos. cbn. lia.
Qed.

Lemma add_timespec_spec a b :
  0 ≤ tv_nsec a < 1000000000 → 0 ≤ b →
  ∃ t, add_timespec a b = Ret t ∧ nanos t = nanos a + b * 1000000 ∧
    0 ≤ tv_nsec t ≤ 1000000000 ∧
    (tv_nsec t = 1000000000 ↔ (tv_nsec a + Z.rem b 1000 * 1000000) = 1000000000).
Proof.
  intros Ha Hb. unfold add_timespec. cbn [tv_nsec].
  pose proof (Z.quot_rem b 1000 ltac:(lia)). pose proof (Z.rem_bound_pos b 1000 Hb ltac:(lia)).
  set (t0 := Timespec _ _). rewrite VERIFY_true by (subst t0; cbn; lia). cbn [rbind].
  set (ns := tv_nsec a + Z.rem b 1000 * 1000000) in *.
  assert (0 ≤ ns) by lia.
  destruct (normalize_timespec_spec (Z.to_nat (ns / 1000000000)) t0) as [E Hr].
  { change (tv_nsec t0) with ns. pose proof (Z.div_mod ns 1000000000 ltac:(lia)).
    pose proof (Z.mod_pos_bound ns 1000000000 ltac:(lia)).
    pose proof (Z.div_pos ns 1000000000 ltac:(lia) ltac:(lia)). lia. }
  eexists. split; [done|]. assert (nanos t0 = nanos a + b * 1000000) as E0.
  { unfold nanos, t0. cbn. lia. }
  split_and!; [lia|lia|lia|].
  assert (ns < 2000000000) by lia.
  destruct (decide (1000000000 ≤ ns)) as [Hge|Hlt].
  - replace (ns / 1000000000) with 1 in * by (apply Z.div_unique with (ns - 1000000000); lia).
    change (Z.to_nat 1) with 1%nat in *. cbn [normalize_timespec] in *.
    change (tv_nsec t0) with ns in *. destruct (Z.ltb_spec 1000000000 ns); cbn in *; lia.
  - rewrite Z.div_small by lia. done.
Qed.

(** Adding a non-negative number of milliseconds to a time never aborts,
    is exact, and [diff_timespec] recovers the number.  The comparison in the
    normalising loop is strict, so the out-of-range [tv_nsec = 1000000000] is
    a possible result, exactly when the nanoseconds add up to a second. *)
Theorem add_diff_timespec a b :
  0 ≤ tv_nsec a < 1000000000 → 0 ≤ b →
  ∃ t, add_timespec a b = Ret t ∧ nanos t = nanos a + b * 1000000 ∧ diff_timespec t a = Ret b ∧
    (tv_nsec t = 1000000000 ↔ (tv_nsec a + Z.rem b 1000 * 1000000) = 1000000000).
Proof.
  intros Ha Hb. destruct (add_timespec_spec a b Ha Hb) as (t & E & En & Hr & Hiff).
  exists t. split_and!; [done|done| |done]. unfold diff_timespec, nanos in *.
  destruct (Z.ltb_spec (tv_sec a) (tv_sec t)).
  - rewrite VERIFY_true by lia. cbn [rbind]. f_equal.
    destruct (Z.ltb_spec (tv_nsec a) (tv_nsec t)).
    + rewrite <- (Z.quot_unique_exact (tv_nsec t - tv_nsec a) 1000000 (b - (tv_sec t - tv_sec a) * 1000)); lia.
    + rewrite <- (Z.quot_unique_exact (tv_nsec a - tv_nsec t) 1000000 ((tv_sec t - tv_sec a) * 1000 - b)); lia.
  - pose proof (Z.rem_bound_pos b 1000 Hb ltac:(lia)).
    assert (tv_sec t = tv_sec a) as Es by lia. rewrite VERIFY_true by lia. cbn [rbind]. f_equal.
    destruct (Z.ltb_spec (tv_nsec a) (tv_nsec t)).
    + rewrite <- (Z.quot_unique_exact (tv_nsec t - tv_nsec a) 1000000 b); lia.
    + rewrite <- (Z.quot_unique_exact (tv_nsec a - tv_nsec t) 1000000 0); lia.
Qed.

Lemma add_diff_timespec_witness :
  ∃ t, add_timespec (Timespec 10 500000000) 1500 = Ret t ∧ nanos t = 12000000000 ∧
    tv_nsec t = 1000000000.
Proof.
  destruct (add_diff_timespec (Timespec 10 500000000) 1500) as (t & E & H & _ & Hn);
    [cbn; lia|lia|].
  exists t. split; [exact E|]. split; [exact H|]. apply Hn. reflexivity.
Defined.

(** ** The window of acknowledged transaction numbers *)

(** Insert before the first larger element, or at the end. *)
Fixpoint insert_xid (xid : Z) (l : list Z) : list Z :=
  match l with
  | [] => [xid]
  | y :: l' => if xid <? y then xid :: l else y :: insert_xid xid l'
  end.

(** [while (front() + 1 == x) pop_front()], where [pre] are the elements in
    front of [x]; the front is [x] itself when there are none. *)
Fixpoint pop_while (pre : list Z) (x : Z) : list Z :=
  match pre with
  | [] => []
  | y :: pre' => if u32 (y + 1) =? x then pop_while pre' x else pre
  end.

(** The loop at [compress:], at an iterator with [pre] in front of it. *)
Fixpoint compress (pre rest : list Z) : list Z :=
  match rest with
  | [] => pre
  | x :: rest' => compress (pop_while pre x ++ [x]) rest'
  end.

Definition update_xid_rep (l : list Z) (xid : Z) : res (list Z) :=
  match l with
  | [] => Fail UndefinedBehaviour
  | f :: _ =>
      if xid <=? f then Ret l else
      match insert_xid xid l with
      | [] => Fail UndefinedBehaviour
      | f' :: rest => Ret (compress [f'] rest)
      end
  end.

(** [xid_window l acked]: the list the code keeps for the set [acked] of
    finished transactions. The front is the end of the contiguous part of
    [acked]; behind it are the finished ones above it, sorted, some of them
    possibly twice. *)
Record xid_window (l : list Z) (acked : Z → Prop) : Prop := XidWindow {
  xw_sorted : StronglySorted Z.le l;
  xw_range : Forall (λ x, 0 ≤ x < 2 ^ 32 - 1) l;
  xw_front : ∃ f t, l = f :: t ∧ (f + 1 ∉ t) ∧ (∀ x, 0 ≤ x ≤ f → acked x) ∧
    ∀ x, f < x → (acked x ↔ x ∈ t) }.

Lemma insert_xid_spec xid l y : y ∈ insert_xid xid l ↔ y = xid ∨ y ∈ l.
Proof.
  induction l as [|z l IH]; cbn [insert_xid]; [set_solver|].
  destruct (xid <? z); rewrite !elem_of_cons; [done|]. rewrite IH. tauto.
Qed.

Lemma insert_xid_sorted xid l : StronglySorted Z.le l → StronglySorted Z.le (insert_xid xid l).
Proof.
  induction l as [|z l IH]; intros Hs; cbn [insert_xid]; [by repeat constructor|].
  pose proof (StronglySorted_inv Hs) as [Hl Hz]. destruct (Z.ltb_spec xid z).
  - constructor; [done|]. constructor; [lia|]. eapply Forall_impl; [exact Hz|]. cbn. lia.
  - constructor; [auto|]. apply Forall_forall. intros y. rewrite insert_xid_spec.
    rewrite Forall_forall in Hz. intros [->|Hy]; [done|auto].
Qed.

Lemma pop_while_spec f t x :
  StronglySorted Z.le (f :: t) → Forall (λ y, y ≤ x) (f :: t) → f + 1 ∉ t →
  0 ≤ f < 2 ^ 32 - 1 →
  pop_while (f :: t) x = if f + 1 =? x then [] else f :: t.
Proof.
  intros Hs Hx Hgap Hf. cbn [pop_while]. rewrite u32_id by (wrap_unfold; lia).
  destruct (Z.eqb_spec (f + 1) x) as [<-|]; [|done].
  apply StronglySorted_inv in Hs as [_ Hall].
  assert (Forall (λ y, y = f) t) as Ht.
  { apply Forall_cons in Hx as [_ Hx]. rewrite Forall_forall in *. intros y Hy.
    specialize (Hx y Hy). specialize (Hall y Hy). cbn in *.
    destruct (decide (y = f + 1)) as [->|]; [done|lia]. }
  clear -Ht Hf. induction t as [|y t IH]; [done|]. apply Forall_cons in Ht as [-> Ht].
  cbn [pop_while]. rewrite u32_id by (wrap_unfold; lia). rewrite Z.eqb_refl. auto.
Qed.

Lemma compress_spec rest : ∀ f t (L : list Z),
  L = f :: t ++ rest → StronglySorted Z.le L → Forall (λ x, 0 ≤ x < 2 ^ 32 - 1) L → f + 1 ∉ t →
  ∃ f' t', compress (f :: t) rest = f' :: t' ∧ f ≤ f' ∧
    StronglySorted Z.le (f' :: t') ∧ Forall (λ x, 0 ≤ x < 2 ^ 32 - 1) (f' :: t') ∧ (f' + 1 ∉ t') ∧
    (∀ x, f ≤ x ≤ f' → x ∈ L) ∧ (∀ x, f' < x → (x ∈ L ↔ x ∈ t')).
Proof.
  induction rest as [|x rest IH]; intros f t L -> Hs Hr Hgap; cbn [compress].
  { rewrite app_nil_r in *. exists f, t. split_and!; [done|lia|done|done|done| |].
    - intros y Hy. replace y with f by lia. left.
    - intros y Hy. rewrite elem_of_cons. split; [intros [->|?]; [lia|done]|by right]. }
  assert (StronglySorted Z.le (f :: t) ∧ Forall (λ y, y ≤ x) (f :: t)) as [Hft Hle].
  { rewrite app_comm_cons in Hs. apply StronglySorted_app_1_l in Hs as Hft. split; [done|].
    rewrite Forall_forall. intros y Hy.
    eapply StronglySorted_app_1_elem_of in Hs; [exact Hs|done|left]. }
  assert (0 ≤ f < 2 ^ 32 - 1) as Hf by (by apply Forall_cons in Hr as [? _]).
  rewrite pop_while_spec by done.
  destruct (Z.eqb_spec (f + 1) x) as [<-|Hne].
  - destruct (IH (f + 1) [] (f + 1 :: rest)) as (f' & t' & E & Hff & Hs' & Hr' & Hg' & Hin & Hout).
    + done.
    + rewrite app_comm_cons in Hs. by apply StronglySorted_app_1_r in Hs.
    + rewrite app_comm_cons, Forall_app in Hr. by destruct Hr.
    + apply not_elem_of_nil.
    + exists f', t'. cbn [app]. split_and!; [done|lia|done|done|done| |].
      * intros y Hy. destruct (decide (y = f)) as [->|]; [left|].
        rewrite app_comm_cons, elem_of_app. right. apply Hin. lia.
      * intros y Hy. rewrite <- Hout by done. rewrite app_comm_cons, elem_of_app.
        split; [|by right]. intros [Hyt|?]; [|done]. rewrite Forall_forall in Hle.
        specialize (Hle y Hyt). cbn in Hle. lia.
  - destruct (IH f (t ++ [x]) (f :: t ++ x :: rest)) as (f' & t' & E & Hrest).
    + by rewrite <- app_assoc.
    + done.
    + done.
    + rewrite elem_of_app, list_elem_of_singleton. naive_solver.
    + exists f', t'. by cbn [app].
Qed.

(** One update adds [xid] to the set, also when it was there already. *)
Lemma update_xid_rep_window l acked xid :
  xid_window l acked → 0 ≤ xid < 2 ^ 32 - 1 →
  ∃ l', update_xid_rep l xid = Ret l' ∧ xid_window l' (λ x, x = xid ∨ acked x).
Proof.
  intros [Hs Hr (f & t & -> & Hgap & Hdown & Hup)] Hx. unfold update_xid_rep.
  destruct (Z.leb_spec xid f).
  { eexists. split; [done|]. split; [done|done|]. exists f, t. split_and!; [done|done| |].
    - auto.
    - intros y Hy. rewrite <- Hup by done. split; [|by right]. intros [->|?]; [lia|done]. }
  pose proof (insert_xid_sorted xid _ Hs) as Hs'. pose proof (insert_xid_spec xid (f :: t)) as Hin.
  assert (Forall (λ x, 0 ≤ x < 2 ^ 32 - 1) (insert_xid xid (f :: t))) as Hr'.
  { rewrite Forall_forall in *. intros y. rewrite Hin. intros [->|?]; auto. }
  destruct (insert_xid xid (f :: t)) as [|f0 rest] eqn:E.
  { cbn in E. by destruct (xid <? f). }
  assert (f0 = f) as ->.
  { cbn in E. destruct (Z.ltb_spec xid f); [lia|]. by injection E. }
  destruct (compress_spec rest f [] (f :: rest) eq_refl Hs' Hr' (not_elem_of_nil _))
    as (f' & t' & -> & Hff & Hs'' & Hr'' & Hg' & Hlow & Hhigh).
  assert (∀ y, f < y → y ∈ f :: rest ↔ y = xid ∨ acked y) as Hacked.
  { intros y Hy. rewrite Hin, elem_of_cons, Hup by done. split; [|tauto].
    intros [?|[?|?]]; [by left|lia|by right]. }
  eexists. split; [done|]. split; [done|done|]. exists f', t'. split_and!; [done|done| |].
  - intros y Hy. destruct (decide (y ≤ f)) as [|Hlt]; [right; apply Hdown; lia|].
    apply Hacked; [lia|]. apply Hlow. lia.
  - intros y Hy. rewrite <- Hhigh by done. rewrite Hacked by lia. done.
Qed.

Lemma xid_window_init : xid_window [0] (λ x, x = 0).
Proof.
  split; [repeat constructor|repeat constructor; lia|]. exists 0, []. split_and!.
  - done.
  - apply not_elem_of_nil.
  - intros x Hx. lia.
  - intros x Hx. split; [lia|by intros ?%elem_of_nil].
Qed.

Lemma xid_window_ext l (P Q : Z → Prop) : (∀ x, P x ↔ Q x) → xid_window l P → xid_window l Q.
Proof.
  intros HPQ [Hs Hr (f & t & -> & Hg & Hd & Hu)]. split; [done|done|].
  exists f, t. split_and!; [done|done|intros; apply HPQ; auto|].
  intros x Hx. by rewrite <- HPQ, Hu.
Qed.

Lemma update_acked l acked xid :
  xid_window l (.∈ acked) → 0 ≤ xid < 2 ^ 31 →
  ∃ l', update_xid_rep l xid = Ret l' ∧ xid_window l' (.∈ xid :: acked).
Proof.
  intros Hw Hx. destruct (update_xid_rep_window _ _ xid Hw) as (l' & E & Hw'); [lia|].
  exists l'. split; [done|]. eapply xid_window_ext; [|exact Hw'].
  intros x. by rewrite elem_of_cons.
Qed.

(** The window after the transactions [xids] have finished, in this order. *)
Fixpoint update_all (l xids : list Z) : res (list Z) :=
  match xids with
  | [] => Ret l
  | x :: xids => l ← update_xid_rep l x; update_all l xids
  end.

Lemma update_all_window xids : ∀ l (acked : Z → Prop),
  xid_window l acked → Forall (λ x, 0 ≤ x < 2 ^ 31) xids →
  ∃ l', update_all l xids = Ret l' ∧ xid_window l' (λ x, x ∈ xids ∨ acked x).
Proof.
  induction xids as [|x xids IH]; intros l acked Hw Hx; cbn [update_all].
  { exists l. split; [done|]. eapply xid_window_ext; [|exact Hw]. intros x.
    split; [by right|]. by intros [?%elem_of_nil|]. }
  apply Forall_cons in Hx as [Hx Hxs].
  destruct (update_xid_rep_window l acked x Hw) as (l1 & -> & Hw1); [lia|]. cbn [rbind].
  destruct (IH _ _ Hw1 Hxs) as (l' & -> & Hw'). exists l'. split; [done|].
  eapply xid_window_ext; [|exact Hw']. intros y. rewrite elem_of_cons. tauto.
Qed.

(** The acknowledgement sent to the server is right.  However
    transactions finish, in any order and each any number of times, the front
    of the window is the largest number up to which all of them have
    finished. *)
Theorem xid_rep_is_contiguous xids :
  Forall (λ x, 0 ≤ x < 2 ^ 31) xids →
  ∃ front t, update_all [0] xids = Ret (front :: t) ∧
    (∀ x, 0 < x ≤ front → x ∈ xids) ∧ (front + 1 ∉ xids).
Proof.
  intros Hx.
  destruct (update_all_window xids [0] _ xid_window_init Hx)
    as (l & E & [_ _ (f & t & -> & Hg & Hd & Hu)]).
  exists f, t. split_and!; [done| |].
  - intros x Hx0. destruct (Hd x ltac:(lia)) as [?|?]; [done|lia].
  - intros Hin. apply Hg, Hu; [lia|]. by left.
Qed.

Lemma xid_rep_is_contiguous_witness :
  update_all [0] [3; 1; 3; 2; 5] = Ret [3; 3; 5] ∧
  ∃ front t, update_all [0] [3; 1; 3; 2; 5] = Ret (front :: t) ∧
    (∀ x, 0 < x ≤ front → x ∈ [3; 1; 3; 2; 5]) ∧ (front + 1 ∉ [3; 1; 3; 2; 5]).
Proof.
  split; [reflexivity|]. apply (xid_rep_is_contiguous [3; 1; 3; 2; 5]).
  repeat constructor; vm_compute; congruence.
Defined.

(** ** The client object *)

Definition to_max : Z := 120000.
Definition to_min : Z := 1000.

(** An outstanding call.  The result field is indeterminate until it is
    done. *)
Record caller := Caller { ca_un : unmarshall; ca_intret : Z; ca_done : bool }.

Record request := Request { rq_buf : list ascii; rq_id : Z }.
Definition request_clear : request := Request [] (-1).
Definition request_isvalid (r : request) : bool := negb (rq_id r =? -1).

Record rpcc := Rpcc {
  rc_clt_nonce : Z;
  rc_srv_nonce : Z;
  rc_bind_done : bool;
  rc_xid : Z;
  rc_lossytest : Z;
  rc_retrans : bool;
  rc_destroy_wait : bool;
  rc_calls : gmap Z caller;
  rc_xid_rep_window : list Z;
  rc_dup_req : request;
  rc_xid_rep_done : Z }.

(** The constructor: [random()] and the value of RPC_LOSSY are arguments. *)
Definition rpcc_new (random lossy : Z) (retrans : bool) : rpcc :=
  Rpcc (if retrans then u32 random else 0) 0 false 1 lossy retrans false ∅ [0] request_clear (-1).

Definition set_calls (c : rpcc) (m : gmap Z caller) (w : list Z) : rpcc :=
  Rpcc (rc_clt_nonce c) (rc_srv_nonce c) (rc_bind_done c) (rc_xid c) (rc_lossytest c)
    (rc_retrans c) (rc_destroy_wait c) m w (rc_dup_req c) (rc_xid_rep_done c).
Definition set_dup (c : rpcc) (d : request) (x : Z) : rpcc :=
  Rpcc (rc_clt_nonce c) (rc_srv_nonce c) (rc_bind_done c) (rc_xid c) (rc_lossytest c)
    (rc_retrans c) (rc_destroy_wait c) (rc_calls c) (rc_xid_rep_window c) d x.

(** The reply of [rpc_const::bind] gives the server's nonce. *)
Definition bind_reply (c : rpcc) (ret r : Z) : rpcc :=
  if ret =? 0 then
    Rpcc (rc_clt_nonce c) (u32 r) true (rc_xid c) (rc_lossytest c)
      (rc_retrans c) (rc_destroy_wait c) (rc_calls c) (rc_xid_rep_window c)
      (rc_dup_req c) (rc_xid_rep_done c)
  else c.

(** The first critical section of [call1]: an error code at once, or the
    transaction number, the request with its header, and [xid_rep]. *)
Inductive call_begin := BeginError (ret : Z) | BeginOk (xid : Z) (req : marshall) (xid_rep : Z).

Definition call1_begin (c : rpcc) (proc : Z) (req : marshall) : res (call_begin * rpcc) :=
  if (negb (proc =? rpc_const.bind) && negb (rc_bind_done c)) ||
     ((proc =? rpc_const.bind) && rc_bind_done c)
  then Ret (BeginError rpc_const.bind_failure, c) else
  if rc_destroy_wait c then Ret (BeginError rpc_const.cancel_failure, c) else
  let xid := rc_xid c in
  match rc_xid_rep_window c with
  | [] => Fail UndefinedBehaviour
  | front :: _ =>
      req ← m_pack_req_header req
              (ReqHeader (s32 xid) (s32 proc) (rc_clt_nonce c) (rc_srv_nonce c) (s32 front));
      Ret (BeginOk xid req (s32 front),
           Rpcc (rc_clt_nonce c) (rc_srv_nonce c) (rc_bind_done c) (u32 (xid + 1))
             (rc_lossytest c) (rc_retrans c) (rc_destroy_wait c)
             (<[s32 xid := Caller unmarshall_empty 0 false]> (rc_calls c))
             (rc_xid_rep_window c) (rc_dup_req c) (rc_xid_rep_done c))
  end.

(** A transmission in the loop: the forgotten request that is sent again by
    the loss test, and the request itself. *)
Definition call1_transmit (c : rpcc) (req : list ascii) : list (list ascii) * rpcc :=
  if request_isvalid (rc_dup_req c) && (rq_id (rc_dup_req c) <? rc_xid_rep_done c)
  then ([rq_buf (rc_dup_req c); req], set_dup c request_clear (rc_xid_rep_done c))
  else ([req], c).

(** One turn of the loop as the thread sees it: whether [get_refconn] has a
    channel, whether the client is reachable, the clock, whether the call is
    done when the turn comes to its wait, how each [pthread_cond_timedwait]
    ends, and whether the channel is dead then.  A wait ends with [ETIMEDOUT]
    or without it, and the call is done then or not. *)
Record wakeup := Wakeup { wk_timedout : bool; wk_done : bool }.
Record turn := Turn {
  tn_conn : bool; tn_reachable : bool; tn_now : timespec; tn_done : bool; tn_wakes : list wakeup; tn_dead : bool }.

(** [while (!ca.done)]: whether the call is done when the loop ends, or [None]
    when the thread stays in it.  For a deadline whose nanoseconds are no
    fraction of a second [pthread_cond_timedwait] returns [EINVAL] at once and
    keeps the mutex; nobody can set [ca.done] and the loop goes on for ever. *)
Fixpoint timed_waits (deadline : timespec) (done : bool) (wakes : list wakeup) : option bool :=
  if done then Some true else
  if negb (bool_decide (0 ≤ tv_nsec deadline < 1000000000)) then None else
  match wakes with
  | [] => None
  | w :: wakes => if wk_timedout w then Some (wk_done w) else timed_waits deadline (wk_done w) wakes
  end.

(** The variables of the loop. *)
Record loop_vars := Loop {
  lv_transmit : bool; lv_ch : bool; lv_curr_to : Z; lv_final : timespec }.

Inductive loop_end := LoopDone | LoopTimeout.

(** One turn: [None] when the thread stays in it, [inl] leaves the loop.  The
    second component tells whether the request was transmitted. *)
Definition call1_turn (retrans : bool) (v : loop_vars) (t : turn)
    : res (option (loop_end + loop_vars) * bool) :=
  let ch := if lv_transmit v then lv_ch v || tn_conn t else lv_ch v in
  let sent := lv_transmit v && ch && tn_reachable t in
  if tv_sec (lv_final v) =? 0 then Ret (Some (inl LoopTimeout), sent) else
  next ← add_timespec (tn_now t) (lv_curr_to v);
  let '(next, final) := if 0 <? cmp_timespec next (lv_final v)
                        then (lv_final v, Timespec 0 (tv_nsec (lv_final v))) else (next, lv_final v) in
  match timed_waits next (tn_done t) (tn_wakes t) with
  | None => Ret (None, sent)
  | Some true => Ret (Some (inl LoopDone), sent)
  | Some false =>
      let transmit := retrans && (negb ch || tn_dead t) in
      Ret (Some (inr (Loop transmit ch (s32 (Z.shiftl (lv_curr_to v) 1)) final)), sent)
  end.

(** The loop over the turns given: [None] when they run out before it ends or
    the thread stays in one, with the number of transmissions. *)
Fixpoint call1_loop (retrans : bool) (v : loop_vars) (ts : list turn) (sent : nat)
    : res (option loop_end * nat) :=
  match ts with
  | [] => Ret (None, sent)
  | t :: ts =>
      '(r, b) ← call1_turn retrans v t;
      let sent := if b : bool then S sent else sent in
      match r with
      | None => Ret (None, sent)
      | Some (inl e) => Ret (Some e, sent)
      | Some (inr v) => call1_loop retrans v ts sent
      end
  end.

Definition call1_wait (retrans : bool) (now : timespec) (to : Z) (ts : list turn)
    : res (option loop_end * nat) :=
  final ← add_timespec now to;
  call1_loop retrans (Loop true false to_min final) ts 0.

(** What [call1] does after the loop: the value it returns. *)
Definition call1_end (c : rpcc) (xid xid_rep : Z) (req : list ascii) : res (Z * unmarshall * rpcc) :=
  match rc_calls c !! s32 xid with
  | None => Fail UndefinedBehaviour
  | Some ca =>
      w ← update_xid_rep (rc_xid_rep_window c) xid;
      let c := set_calls c (delete (s32 xid) (rc_calls c)) w in
      let c :=
        if ca_done ca && negb (rc_lossytest c =? 0) then
          let d := if request_isvalid (rc_dup_req c) then rc_dup_req c else Request req (s32 xid) in
          set_dup c d (if rc_xid_rep_done c <? xid_rep then xid_rep else rc_xid_rep_done c)
        else c in
      Ret (if ca_done ca then ca_intret ca else rpc_const.timeout_failure, ca_un ca, c)
  end.

(** The up-call for a reply. *)
Definition rpcc_got_pdu (c : rpcc) (b : list ascii) (sz : Z) : res (bool * rpcc) :=
  '(h, rep) ← u_unpack_reply_header (unmarshall_buf b sz);
  if negb (u_ok rep) then Ret (true, c) else
  w ← update_xid_rep (rc_xid_rep_window c) (u32 (rp_xid h));
  let c := set_calls c (rc_calls c) w in
  match rc_calls c !! rp_xid h with
  | None => Ret (true, c)
  | Some ca =>
      let ca := if ca_done ca then ca else Caller (take_in rep) (rp_ret h) true in
      Ret (true, set_calls c (<[rp_xid h := ca]> (rc_calls c)) w)
  end.

(** [cancel] up to its wait: every outstanding call fails. It returns when
    the last of them has left; new calls are refused from then on. *)
Definition cancel_begin (c : rpcc) : rpcc :=
  let calls := (λ ca, Caller (ca_un ca) rpc_const.cancel_failure true) <$> rc_calls c in
  Rpcc (rc_clt_nonce c) (rc_srv_nonce c) (rc_bind_done c) (rc_xid c) (rc_lossytest c)
    (rc_retrans c) (if bool_decide (calls = ∅) then rc_destroy_wait c else true)
    calls (rc_xid_rep_window c) (rc_dup_req c) (rc_xid_rep_done c).

(** ** Channels *)

(** [get_refconn]: the reference moves the caller's [*ch] to the client's
    channel, reconnecting first when that one is missing or dead.  [fresh] is
    what [connect_to_dst] returns; the references taken and dropped are
    listed. *)
Definition get_refconn (chan : option nat) (dead : bool) (fresh : option nat) (ch : option nat)
    : option nat * option nat * list nat * list nat :=
  let reconnect := match chan with None => true | Some _ => dead end in
  let drop1 := if reconnect then option_list chan else [] in
  let chan := if reconnect then fresh else chan in
  match chan with
  | Some c => (chan, Some c, [c], drop1 ++ option_list ch)
  | None => (chan, ch, [], drop1)
  end.

(** [~rpcc]: the channel, if there is one, is closed and its reference
    dropped; no call may be outstanding. *)
Definition rpcc_delete (chan : option nat) (c : rpcc) : res (list nat) :=
  VERIFY (bool_decide (rc_calls c = ∅));;
  Ret (option_list chan).

(** ** The wait loop ends *)

Lemma cmp_timespec_later a b :
  0 ≤ tv_nsec a ≤ 1000000000 → 0 ≤ tv_nsec b → nanos b + 1000000000 < nanos a →
  cmp_timespec a b = 1.
Proof.
  unfold nanos, cmp_timespec. intros. replace (tv_sec b <? tv_sec a) with true by lia. done.
Qed.

(** The clock is not behind the start of the call, and one of the waits of the
    turn times out or finds the call done. *)
Definition good_turn (start : timespec) (t : turn) : Prop :=
  0 ≤ tv_nsec (tn_now t) < 1000000000 ∧ nanos start ≤ nanos (tn_now t) ∧
  (tn_done t = true ∨ Exists (λ w, wk_timedout w = true ∨ wk_done w = true) (tn_wakes t)).

Lemma timed_waits_end deadline done wakes :
  0 ≤ tv_nsec deadline < 1000000000 →
  done = true ∨ Exists (λ w, wk_timedout w = true ∨ wk_done w = true) wakes →
  ∃ b, timed_waits deadline done wakes = Some b.
Proof.
  intros Hd. revert done. induction wakes as [|w wakes IH]; intros done Hw; cbn [timed_waits].
  - destruct Hw as [->|Hw]; [by eexists|]. by apply Exists_nil in Hw.
  - destruct done; [by eexists|]. rewrite bool_decide_eq_true_2 by done. cbn [negb].
    destruct (wk_timedout w) eqn:Et; [by eexists|]. apply IH. destruct Hw as [|Hw]; [done|].
    apply Exists_cons in Hw as [[?|?]|?]; [congruence|by left|by right].
Qed.

(** The time-outs of the turns are whole seconds. *)
Lemma add_seconds_valid a b t :
  0 ≤ tv_nsec a < 1000000000 → 0 ≤ b → Z.rem b 1000 = 0 → add_timespec a b = Ret t → 0 ≤ tv_nsec t < 1000000000.
Proof.
  intros Ha Hb Hr E. destruct (add_timespec_spec a b Ha Hb) as (t' & E' & _ & Hn & Hiff). rewrite E in E'. injection E' as <-.
  rewrite Hr in Hiff. lia.
Qed.

Lemma call1_loop_ends retrans start to n : ∀ v ts sent,
  length ts = S n → Forall (good_turn start) ts →
  0 < lv_curr_to v → lv_curr_to v * 2 ^ Z.of_nat n < 2 ^ 31 → Z.rem (lv_curr_to v) 1000 = 0 →
  (tv_sec (lv_final v) = 0 ∨
   n ≠ 0%nat ∧ nanos (lv_final v) = nanos start + to * 1000000 ∧ 0 ≤ tv_nsec (lv_final v) < 1000000000 ∧
   to + 1001 ≤ lv_curr_to v * 2 ^ (Z.of_nat n - 1)) →
  ∃ e sent', call1_loop retrans v ts sent = Ret (Some e, sent').
Proof.
  induction n as [|n IH]; intros v [|t ts] sent Hlen Hgood Hc Hov Hrem Hfin; try done;
    apply Forall_cons in Hgood as [(Hns & Hclk & Hwake) Hgood]; cbn [call1_loop]; unfold call1_turn.
  { destruct Hfin as [->|[? _]]; [|done]. cbn. by do 2 eexists. }
  destruct (Z.eqb_spec (tv_sec (lv_final v)) 0) as [|Hsec]; [cbn; by do 2 eexists|].
  destruct Hfin as [?|(_ & Hf & Hfn & Hto)]; [done|].
  destruct (add_timespec_spec (tn_now t) (lv_curr_to v) Hns ltac:(lia)) as (next & Enext & En & Hn & _).
  pose proof (add_seconds_valid _ (lv_curr_to v) _ Hns ltac:(lia) Hrem Enext) as Hvalid. rewrite Enext.
  cbn [rbind]. destruct (if 0 <? _ then _ else _) as [deadline final] eqn:Edf.
  assert (0 ≤ tv_nsec deadline < 1000000000) as Hd by (destruct (0 <? _); by injection Edf as <- <-).
  destruct (timed_waits_end deadline (tn_done t) (tn_wakes t) Hd Hwake) as [b ->].
  destruct b; [cbn; by do 2 eexists|]. cbn [rbind].
  rewrite Nat2Z.inj_succ, Z.pow_succ_r in Hov by lia.
  replace (Z.of_nat (S n) - 1) with (Z.of_nat n) in Hto by lia.
  assert (1 ≤ 2 ^ Z.of_nat n) by (apply (Z.pow_le_mono_r 2 0); lia).
  assert (lv_curr_to v * 2 < 2 ^ 31) by nia.
  assert (s32 (Z.shiftl (lv_curr_to v) 1) = lv_curr_to v * 2) as Es.
  { rewrite Z.shiftl_mul_pow2 by lia. apply s32_id. wrap_unfold. lia. }
  apply IH; cbn [lv_curr_to lv_final]; [by injection Hlen|done|lia|rewrite Es; lia| |].
  { rewrite Es. pose proof (Z.quot_rem' (lv_curr_to v) 1000).
    replace (lv_curr_to v * 2) with (Z.quot (lv_curr_to v) 1000 * 2 * 1000) by lia. by apply Z.rem_mul. }
  rewrite Es. destruct (Z.ltb_spec 0 (cmp_timespec next (lv_final v))) as [|Hcmp]; injection Edf as <- <-; [by left|].
  right. split_and!; [|done|lia|lia|].
  - intros ->. change (2 ^ Z.of_nat 0) with 1 in *.
    rewrite (cmp_timespec_later next (lv_final v)) in Hcmp by lia. lia.
  - destruct n as [|n]; [|replace (Z.of_nat (S n) - 1) with (Z.of_nat n) by lia;
      rewrite Nat2Z.inj_succ, Z.pow_succ_r in Hto by lia; lia].
    change (2 ^ Z.of_nat 0) with 1 in *.
    rewrite (cmp_timespec_later next (lv_final v)) in Hcmp by lia. lia.
Qed.

(** The deadline of the call is a time: the nanoseconds do not add up to a
    second, which [add_timespec] would leave as they are. *)
Definition good_deadline (now : timespec) (to : Z) : Prop :=
  0 ≤ tv_nsec now < 1000000000 ∧ tv_nsec now + Z.rem to 1000 * 1000000 ≠ 1000000000.

Lemma call1_wait_ends retrans now to ts :
  0 ≤ to ≤ to_max → good_deadline now to →
  length ts = 9%nat → Forall (good_turn now) ts →
  ∃ e sent, call1_wait retrans now to ts = Ret (Some e, sent).
Proof.
  intros Hto [Hns Hne] Hlen Hgood. unfold call1_wait, to_max in *.
  destruct (add_timespec_spec now to Hns ltac:(lia)) as (final & -> & Ef & Hf & Hiff). cbn [rbind].
  apply (call1_loop_ends retrans now to 8); cbn [lv_curr_to lv_final].
  - done.
  - done.
  - unfold to_min. lia.
  - vm_compute. done.
  - done.
  - right. change (to_min * 2 ^ (Z.of_nat 8 - 1)) with 128000. split_and!; [done|done|lia|lia|lia].
Qed.


Definition demo_turns : list turn :=
  replicate 9 (Turn true true (Timespec 100 0) false [Wakeup false false; Wakeup true false] false).

Lemma demo_turns_good : Forall (good_turn (Timespec 100 0)) demo_turns.
Proof.
  apply Forall_replicate. split; [cbn; lia|]. split; [cbn; lia|]. right. apply Exists_cons. right. apply Exists_cons. left. by left.
Qed.


(** Otherwise it may not: a call that times out after half a second and is
    made half a second past a full one spins in its last wait, whatever
    happens meanwhile, unless its reply is there already. *)
Theorem bad_deadline_spins retrans n wakes conn reachable dead :
  let t := Turn conn reachable (Timespec 100 500000000) false wakes dead in
  call1_wait retrans (Timespec 100 500000000) 500 (replicate (S n) t) =
    Ret (None, if conn && reachable then 1%nat else 0%nat).
Proof. cbv zeta. destruct conn, reachable, wakes; vm_compute; reflexivity. Qed.

(** ** What a client says to its server *)

(** The client with the set of transactions it has finished and the
    transaction numbers and acknowledgements it has put on the wire, latest
    first. *)
Record client := Client {
  cl_rpcc : rpcc; cl_acked : list Z; cl_sent : list (Z * Z) }.

Definition client_init (random lossy : Z) (retrans : bool) : client :=
  Client (rpcc_new random lossy retrans) [0] [].

(** A call is begun while fewer than [2^31 - 1] were; replies carry numbers
    of requests that were sent. *)
Inductive client_step : client → client → Prop :=
| client_begin s proc req xid req' xid_rep c :
    rc_xid (cl_rpcc s) < 2 ^ 31 - 1 →
    call1_begin (cl_rpcc s) proc req = Ret (BeginOk xid req' xid_rep, c) →
    client_step s (Client c (cl_acked s) ((xid, xid_rep) :: cl_sent s))
| client_pdu s b sz h rep ok c :
    u_unpack_reply_header (unmarshall_buf b sz) = Ret (h, rep) →
    0 ≤ rp_xid h < rc_xid (cl_rpcc s) → u_ok rep = true →
    rpcc_got_pdu (cl_rpcc s) b sz = Ret (ok, c) →
    client_step s (Client c (rp_xid h :: cl_acked s) (cl_sent s))
| client_end s xid xid_rep req ret un c :
    0 ≤ xid < rc_xid (cl_rpcc s) →
    call1_end (cl_rpcc s) xid xid_rep req = Ret (ret, un, c) →
    client_step s (Client c (xid :: cl_acked s) (cl_sent s))
| client_bind s ret r :
    client_step s (Client (bind_reply (cl_rpcc s) ret r) (cl_acked s) (cl_sent s))
| client_cancel s :
    client_step s (Client (cancel_begin (cl_rpcc s)) (cl_acked s) (cl_sent s)).

Record client_inv (s : client) : Prop := ClientInv {
  cli_window : xid_window (rc_xid_rep_window (cl_rpcc s)) (.∈ cl_acked s);
  cli_xid : 1 ≤ rc_xid (cl_rpcc s) < 2 ^ 31;
  cli_acked : ∀ x, x ∈ cl_acked s → x < rc_xid (cl_rpcc s);
  cli_calls : ∀ x ca, rc_calls (cl_rpcc s) !! x = Some ca → x ∈ cl_acked s → ca_done ca = true;
  cli_sent : ∀ x r, (x, r) ∈ cl_sent s → 0 ≤ r < x ∧ x < rc_xid (cl_rpcc s);
  cli_nodup : NoDup (cl_sent s).*1 }.


Lemma client_begin_inv s proc req xid req' xid_rep c :
  client_inv s → rc_xid (cl_rpcc s) < 2 ^ 31 - 1 →
  call1_begin (cl_rpcc s) proc req = Ret (BeginOk xid req' xid_rep, c) →
  client_inv (Client c (cl_acked s) ((xid, xid_rep) :: cl_sent s)).
Proof.
  intros [Hw Hx Ha Hc Hs Hnd] Hlt H. unfold call1_begin in H.
  destruct (_ || _); [done|]. destruct (rc_destroy_wait _); [done|].
  pose proof Hw as [Hsort _ (f & t & E & _ & Hd & Hu)]. rewrite E in H.
  apply rbind_Ret in H as (m & _ & [= <- <- <- <-]).
  assert (0 ≤ f < 2 ^ 32 - 1) as Hf.
  { apply xw_range in Hw. rewrite E in Hw. by apply Forall_cons in Hw as [? _]. }
  assert (f < rc_xid (cl_rpcc s)) as Hfx by (apply Ha, Hd; lia).
  assert (u32 (rc_xid (cl_rpcc s) + 1) = rc_xid (cl_rpcc s) + 1) as Ex by (apply u32_id; wrap_unfold; lia).
  rewrite (s32_id f) by (wrap_unfold; lia).
  split; cbn [cl_rpcc cl_acked cl_sent rc_xid_rep_window rc_xid rc_calls]; rewrite ?Ex.
  - by rewrite E in Hw.
  - lia.
  - intros x Hin. apply Ha in Hin. lia.
  - intros x ca. rewrite (s32_id (rc_xid (cl_rpcc s))) by (wrap_unfold; lia).
    destruct (decide (x = rc_xid (cl_rpcc s))) as [->|].
    + intros _ Hin. apply Ha in Hin. lia.
    + rewrite lookup_insert_ne by done. apply Hc.
  - intros x r [[= -> ->]|Hin]%elem_of_cons; [lia|]. destruct (Hs x r Hin). lia.
  - rewrite fmap_cons. apply NoDup_cons. split; [|done]. cbn.
    intros ([x r] & Exr & Hin)%list_elem_of_fmap. cbn in Exr. destruct (Hs x r Hin). lia.
Qed.

Lemma client_pdu_inv s b sz h rep ok c :
  client_inv s → u_unpack_reply_header (unmarshall_buf b sz) = Ret (h, rep) →
  0 ≤ rp_xid h < rc_xid (cl_rpcc s) → u_ok rep = true →
  rpcc_got_pdu (cl_rpcc s) b sz = Ret (ok, c) →
  client_inv (Client c (rp_xid h :: cl_acked s) (cl_sent s)).
Proof.
  intros [Hw Hx Ha Hc Hs Hnd] Hu Hh Hok H. unfold rpcc_got_pdu in H. rewrite Hu in H.
  cbn [rbind] in H. rewrite Hok in H. cbn [negb] in H.
  rewrite u32_id in H by (wrap_unfold; lia).
  destruct (update_acked _ _ (rp_xid h) Hw) as (w & Ew & Hw'); [lia|]. rewrite Ew in H.
  cbn [rbind set_calls rc_calls] in H.
  assert (∀ x, x ∈ rp_xid h :: cl_acked s → x < rc_xid (cl_rpcc s)) as Ha'.
  { intros x [->|?]%elem_of_cons; [lia|auto]. }
  destruct (rc_calls (cl_rpcc s) !! rp_xid h) as [ca|] eqn:E; injection H as <- <-;
    (split; cbn [cl_rpcc cl_acked cl_sent set_calls rc_xid_rep_window rc_xid rc_calls]; try done).
  - intros x ca'. destruct (decide (x = rp_xid h)) as [->|].
    + rewrite lookup_insert_eq. intros [= <-] _. by destruct (ca_done ca) eqn:?.
    + rewrite lookup_insert_ne by done. rewrite elem_of_cons.
      intros ? [?|?]; [done|by eapply Hc].
  - intros x ca'. rewrite elem_of_cons. intros Hl [->|?]; [by rewrite E in Hl|by eapply Hc].
Qed.

Lemma client_end_inv s xid xid_rep req ret un c :
  client_inv s → 0 ≤ xid < rc_xid (cl_rpcc s) →
  call1_end (cl_rpcc s) xid xid_rep req = Ret (ret, un, c) →
  client_inv (Client c (xid :: cl_acked s) (cl_sent s)).
Proof.
  intros [Hw Hx Ha Hc Hs Hnd] Hxid H. unfold call1_end in H.
  rewrite s32_id in H by (wrap_unfold; lia).
  destruct (rc_calls (cl_rpcc s) !! xid) as [ca|] eqn:E; [|done].
  destruct (update_acked _ _ xid Hw) as (w & Ew & Hw'); [lia|]. rewrite Ew in H.
  cbn [rbind] in H. injection H as <- <- <-.
  set (c := if _ && _ then _ else _).
  assert (rc_xid_rep_window c = w ∧ rc_xid c = rc_xid (cl_rpcc s) ∧
    rc_calls c = delete xid (rc_calls (cl_rpcc s))) as (E1 & E2 & E3).
  { subst c. by destruct (_ && _). }
  split; cbn [cl_rpcc cl_acked cl_sent]; rewrite ?E1, ?E2, ?E3; try done.
  - intros x [->|?]%elem_of_cons; [lia|auto].
  - intros x ca'. rewrite lookup_delete_Some, elem_of_cons.
    intros [? ?] [->|?]; [done|by eapply Hc].
Qed.

Lemma client_step_inv s s' : client_step s s' → client_inv s → client_inv s'.
Proof.
  intros Hstep Hinv. destruct Hstep.
  - by eapply client_begin_inv.
  - by eapply client_pdu_inv.
  - by eapply client_end_inv.
  - unfold bind_reply. by destruct (_ =? _), Hinv.
  - destruct Hinv as [Hw Hx Ha Hc Hs Hnd].
    split; cbn [cl_rpcc cl_acked cl_sent cancel_begin rc_xid_rep_window rc_xid rc_calls]; try done.
    intros x ca. rewrite lookup_fmap_Some. by intros (ca' & <- & _) _.
Qed.

Lemma client_reachable_inv random lossy retrans s :
  rtc client_step (client_init random lossy retrans) s → client_inv s.
Proof.
  apply (rtc_ind_r client_inv).
  - split; cbn.
    + eapply xid_window_ext; [|apply xid_window_init]. intros x. by rewrite list_elem_of_singleton.
    + lia.
    + intros x ->%list_elem_of_singleton. lia.
    + done.
    + by intros x r ?%elem_of_nil.
    + constructor.
  - intros ? ? _. apply client_step_inv.
Qed.

(** A client keeps the promise the server's at-most-once logic relies
    on. Over all interleavings of calls, replies, time-outs and cancellation,
    every request carries a fresh transaction number and acknowledges only
    smaller ones; and a new request never acknowledges an outstanding call
    that has no answer yet. *)
Theorem client_acknowledges_finished random lossy retrans s :
  rtc client_step (client_init random lossy retrans) s →
  NoDup (cl_sent s).*1 ∧ (∀ x r, (x, r) ∈ cl_sent s → 0 ≤ r < x) ∧
  (∀ proc req xid req' xid_rep c y ca,
    rc_xid (cl_rpcc s) < 2 ^ 31 - 1 →
    call1_begin (cl_rpcc s) proc req = Ret (BeginOk xid req' xid_rep, c) →
    rc_calls (cl_rpcc s) !! y = Some ca → ca_done ca = false → 0 ≤ y → xid_rep < y).
Proof.
  intros Hr. pose proof (client_reachable_inv _ _ _ _ Hr) as Hinv.
  split_and!; [by destruct Hinv|intros x r Hin; by destruct (cli_sent _ Hinv x r Hin)|].
  intros proc req xid req' xid_rep c y ca Hlt H Hy Hdone Hy0.
  destruct Hinv as [Hw Hx Ha Hc Hs Hnd]. unfold call1_begin in H.
  destruct (_ || _); [done|]. destruct (rc_destroy_wait _); [done|].
  pose proof (xw_range _ _ Hw) as Hrange. pose proof Hw as [_ _ (f & t & E & _ & Hd & _)].
  rewrite E in H, Hrange. apply Forall_cons in Hrange as [Hf _].
  apply rbind_Ret in H as (m & _ & [= <- <- <- <-]).
  assert (f < rc_xid (cl_rpcc s)) by (apply Ha, Hd; lia).
  rewrite s32_id by (wrap_unfold; lia).
  destruct (decide (f < y)); [done|]. specialize (Hc y ca Hy (Hd y ltac:(lia))). congruence.
Qed.

(** ** Cancellation *)

(** The threads of the calls [xids] leave [call1], in this order. *)
Fixpoint end_calls (xids : list (Z * Z * list ascii)) (c : rpcc) : res (list Z * rpcc) :=
  match xids with
  | [] => Ret ([], c)
  | (xid, xid_rep, req) :: xids =>
      '(ret, _, c) ← call1_end c xid xid_rep req;
      '(rets, c) ← end_calls xids c;
      Ret (ret :: rets, c)
  end.

Lemma call1_end_done c xid xid_rep req (acked : list Z) ca :
  xid_window (rc_xid_rep_window c) (.∈ acked) → 0 ≤ xid < 2 ^ 31 →
  rc_calls c !! xid = Some ca → ca_done ca = true →
  ∃ c', call1_end c xid xid_rep req = Ret (ca_intret ca, ca_un ca, c') ∧
    rc_calls c' = delete xid (rc_calls c) ∧ rc_destroy_wait c' = rc_destroy_wait c ∧
    xid_window (rc_xid_rep_window c') (.∈ xid :: acked).
Proof.
  intros Hw Hx Hca Hd. unfold call1_end. rewrite s32_id by (wrap_unfold; lia). rewrite Hca.
  destruct (update_acked _ _ xid Hw) as (w & -> & Hw'); [lia|]. cbn [rbind]. rewrite Hd.
  eexists. split; [done|]. by destruct (_ && _).
Qed.

Lemma end_calls_empty xids : ∀ c (acked : list Z),
  xid_window (rc_xid_rep_window c) (.∈ acked) → NoDup xids.*1.*1 → Forall (λ x, 0 ≤ x < 2 ^ 31) xids.*1.*1 →
  dom (rc_calls c) = list_to_set xids.*1.*1 →
  (∀ x ca, rc_calls c !! x = Some ca → ca_done ca = true ∧ ca_intret ca = rpc_const.cancel_failure) →
  ∃ c', end_calls xids c = Ret (replicate (length xids) rpc_const.cancel_failure, c') ∧ rc_calls c' = ∅ ∧
    rc_destroy_wait c' = rc_destroy_wait c.
Proof.
  induction xids as [|[[xid xid_rep] req] xids IH]; intros c acked Hw Hnd Hr Hdom Hdone; cbn [end_calls].
  { exists c. split_and!; [done| |done]. by apply dom_empty_inv_L. }
  rewrite !fmap_cons in *. cbn [fst list_to_set] in *. apply NoDup_cons in Hnd as [Hx Hnd]. apply Forall_cons in Hr as [Hr Hrs].
  assert (is_Some (rc_calls c !! xid)) as [ca Hca] by (apply elem_of_dom; rewrite Hdom; set_solver).
  destruct (Hdone _ _ Hca) as [Hd Hi].
  destruct (call1_end_done c xid xid_rep req acked ca Hw Hr Hca Hd) as (c1 & -> & Ec1 & Ed1 & Hw1). cbn [rbind].
  destruct (IH c1 (xid :: acked) Hw1 Hnd Hrs) as (c' & -> & Ec' & Ed').
  { rewrite Ec1, dom_delete_L, Hdom. apply set_eq. intros y.
    rewrite elem_of_difference, elem_of_union, !elem_of_singleton, !elem_of_list_to_set. split; [tauto|].
    intros Hy. split; [by right|]. by intros ->. }
  { intros x ca'. rewrite Ec1, lookup_delete_Some. intros [_ ?]. by eapply Hdone. }
  exists c'. cbn [rbind]. rewrite Hi. split_and!; [done|done|congruence].
Qed.

(** A client can be cancelled and then deleted.  [cancel] makes every
    outstanding call return [cancel_failure], in whatever order their threads
    leave, and refuses the calls that are begun meanwhile; when the last of
    them has left, no call is outstanding, so that the wait of [cancel] ends
    and the assertion of the destructor holds. *)
Theorem cancelled_client_is_deleted random lossy retrans s xids chan :
  rtc client_step (client_init random lossy retrans) s →
  xids ≠ [] → NoDup xids.*1.*1 → Forall (λ x, 0 ≤ x < 2 ^ 31) xids.*1.*1 →
  dom (rc_calls (cl_rpcc s)) = list_to_set xids.*1.*1 →
  let c := cancel_begin (cl_rpcc s) in
  (∀ proc req, ∃ ret, call1_begin c proc req = Ret (BeginError ret, c)) ∧
  ∃ c', end_calls xids c = Ret (replicate (length xids) rpc_const.cancel_failure, c') ∧
    rpcc_delete chan c' = Ret (option_list chan).
Proof.
  intros Hrun Hne Hnd Hr Hdom c. pose proof (client_reachable_inv _ _ _ _ Hrun) as [Hw _ _ _ _ _]. split.
  - assert (rc_destroy_wait c = true) as Hd.
    { subst c. cbn. rewrite bool_decide_eq_false_2; [done|]. intros E%fmap_empty_inv.
      rewrite E, dom_empty_L in Hdom. destruct xids as [|[[x ?] ?] ?]; [done|]. cbn in Hdom. set_solver. }
    intros proc req. unfold call1_begin. destruct (_ || _); [by eexists|]. rewrite Hd. by eexists.
  - destruct (end_calls_empty xids c (cl_acked s)) as (c' & E & Ec & _); [done|done|done| | |].
    + subst c. cbn. by rewrite dom_fmap_L.
    + intros x ca. subst c. cbn. rewrite lookup_fmap_Some. by intros (? & <- & _).
    + exists c'. split; [done|]. unfold rpcc_delete. by rewrite bool_decide_eq_true_2.
Qed.

(** A client whose calls 1 and 2 time out before it makes call 3. *)
Definition demo_call (c : rpcc) : Z * Z * rpcc :=
  match call1_begin c 28673 (marshall_new "x"%char) with
  | Ret (BeginOk xid _ xid_rep, c) => (xid, xid_rep, c)
  | _ => (0, 0, c)
  end.
Definition demo_give_up (xid xid_rep : Z) (c : rpcc) : Z * rpcc :=
  match call1_end c xid xid_rep [] with Ret (ret, _, c) => (ret, c) | _ => (0, c) end.

Definition demo_c0 : rpcc := bind_reply (rpcc_new 7 0 true) 0 99.
Definition demo_c1 : rpcc := (demo_call demo_c0).2.
Definition demo_c2 : rpcc := (demo_give_up 1 0 demo_c1).2.
Definition demo_c3 : rpcc := (demo_call demo_c2).2.
Definition demo_c4 : rpcc := (demo_give_up 2 1 demo_c3).2.
Definition demo_c5 : rpcc := (demo_call demo_c4).2.
Definition demo_client : client := Client demo_c5 [2; 1; 0] [(3, 2); (2, 1); (1, 0)].

Lemma demo_call_begin c xid xid_rep c' :
  demo_call c = (xid, xid_rep, c') → xid ≠ 0 →
  ∃ req, call1_begin c 28673 (marshall_new "x"%char) = Ret (BeginOk xid req xid_rep, c').
Proof.
  unfold demo_call. destruct (call1_begin _ _ _) as [[[?|? ? ?] ?]|]; intros; simplify_eq. eauto.
Qed.

Lemma demo_give_up_end c xid xid_rep ret c' :
  demo_give_up xid xid_rep c = (ret, c') → ret ≠ 0 →
  ∃ un, call1_end c xid xid_rep [] = Ret (ret, un, c').
Proof.
  unfold demo_give_up. destruct (call1_end _ _ _ _) as [[[? ?] ?]|]; intros; simplify_eq. eauto.
Qed.

Lemma demo_client_reachable : rtc client_step (client_init 7 0 true) demo_client.
Proof.
  eapply rtc_l; [apply (client_bind _ 0 99)|].
  destruct (demo_call_begin demo_c0 1 0 demo_c1) as [r1 E1]; [vm_compute; reflexivity|done|].
  eapply rtc_l; [eapply client_begin; [vm_compute; reflexivity|exact E1]|].
  destruct (demo_give_up_end demo_c1 1 0 (-1) demo_c2) as [u1 E2]; [vm_compute; reflexivity|done|].
  eapply rtc_l; [eapply client_end; [|exact E2]; vm_compute; split; [congruence|reflexivity]|].
  destruct (demo_call_begin demo_c2 2 1 demo_c3) as [r2 E3]; [vm_compute; reflexivity|done|].
  eapply rtc_l; [eapply client_begin; [vm_compute; reflexivity|exact E3]|].
  destruct (demo_give_up_end demo_c3 2 1 (-1) demo_c4) as [u2 E4]; [vm_compute; reflexivity|done|].
  eapply rtc_l; [eapply client_end; [|exact E4]; vm_compute; split; [congruence|reflexivity]|].
  destruct (demo_call_begin demo_c4 3 2 demo_c5) as [r3 E5]; [vm_compute; reflexivity|done|].
  eapply rtc_l; [eapply client_begin; [vm_compute; reflexivity|exact E5]|].
  apply rtc_refl.
Qed.

Lemma cancelled_client_is_deleted_witness :
  let c := cancel_begin (cl_rpcc demo_client) in
  ∃ c', end_calls [(3, 2, [])] c = Ret ([rpc_const.cancel_failure], c') ∧ rpcc_delete (Some 4%nat) c' = Ret [4%nat].
Proof.
  destruct (cancelled_client_is_deleted 7 0 true demo_client [(3, 2, [])] (Some 4%nat) demo_client_reachable)
    as (_ & c' & E & Ed).
  - discriminate.
  - apply NoDup_singleton.
  - apply Forall_singleton. cbn -[Z.pow]. lia.
  - vm_compute. reflexivity.
  - exists c'. split; [exact E|exact Ed].
Defined.

Lemma client_acknowledges_finished_witness :
  rtc client_step (client_init 7 0 true) demo_client ∧ NoDup (cl_sent demo_client).*1.
Proof.
  split; [exact demo_client_reachable|].
  apply (client_acknowledges_finished 7 0 true demo_client). exact demo_client_reachable.
Defined.

(** A call that ran into its time-out counts as finished: the client
    then acknowledges a request of which it never saw a reply, and which the
    server may still be executing. *)
Theorem timeout_is_acknowledged :
  ∃ s, rtc client_step (client_init 7 0 true) s ∧ (3, 2) ∈ cl_sent s ∧
    ∃ c un c', call1_end c 1 0 [] = Ret (rpc_const.timeout_failure, un, c').
Proof.
  exists demo_client. split_and!; [exact demo_client_reachable|left|].
  destruct (demo_give_up_end demo_c1 1 0 (-1) demo_c2) as [u1 E2]; [vm_compute; reflexivity|done|].
  by exists demo_c1, u1, demo_c2.
Qed.
