(* ===== verification/Poll.v ===== *)
(** * Polling of descriptors (rpc/pollmgr.h, rpc/pollmgr.cc)

    [SelectAIO] and [EPollAIO] are the two implementations of the C++
    interface [aio_mgr], which is the class [AioMgr] here; [AioMgrOk] says
    what an implementation promises to [PollMgr].  The descriptor sets of
    [select] are finite sets; [epoll_ctl] keeps a map from descriptors to
    events and fails, as its manual says, when it is asked to add a
    descriptor that is there or to change or remove one that is not.  The
    one-byte writes to the pipe that wakes [select] are taken to succeed;
    [sa_bytes] counts the bytes in the pipe. *)

From stdpp Require Import functions.
From S2P Require Import Prelude.

Definition MAX_POLL_FDS : Z := 128.

Inductive poll_flag := CB_NONE | CB_RDONLY | CB_WRONLY | CB_RDWR | CB_MASK.

#[export] Instance poll_flag_eq_dec : EqDecision poll_flag.
Proof. solve_decision. Defined.

Definition flag_val (f : poll_flag) : Z :=
  match f with
  | CB_NONE => 0x0 | CB_RDONLY => 0x1 | CB_WRONLY => 0x10 | CB_RDWR => 0x11
  | CB_MASK => Z.lnot 0x11
  end.

(** ** The interface *)

Class AioMgr (A : Type) := {
  watch_fd : Z → poll_flag → A → res A;
  unwatch_fd : Z → poll_flag → A → res (bool * A);
  is_watched : Z → poll_flag → A → res bool }.

(** What a descriptor is watched for: reading, writing. *)
Definition interest : Type := bool * bool.

Definition wants (f : poll_flag) : interest :=
  match f with
  | CB_RDONLY => (true, false) | CB_WRONLY => (false, true) | _ => (true, true)
  end.
Definition add_interest (i : interest) (f : poll_flag) : interest :=
  (i.1 || (wants f).1, i.2 || (wants f).2).
Definition drop_interest (i : interest) (f : poll_flag) : interest :=
  (i.1 && negb (wants f).1, i.2 && negb (wants f).2).

(** The flags a caller may pass. *)
Definition a_flag (f : poll_flag) : Prop := f = CB_RDONLY ∨ f = CB_WRONLY ∨ f = CB_RDWR.

(** [watched a fd] is what [fd] is watched for.  Watching a descriptor and
    no longer watching it change nothing else; removing needs a descriptor
    that is watched, and tells whether nothing is left. *)
Class AioMgrOk (A : Type) `{!AioMgr A} := {
  aio_inv : A → Prop;
  watched : A → Z → interest;
  usable : A → Z → Prop;
  watch_ok : ∀ a fd f, aio_inv a → usable a fd → 0 ≤ fd < MAX_POLL_FDS → a_flag f →
    ∃ a', watch_fd fd f a = Ret a' ∧ aio_inv a' ∧
      watched a' fd = add_interest (watched a fd) f ∧
      (∀ fd', fd' ≠ fd → watched a' fd' = watched a fd') ∧ (∀ fd', usable a fd' → usable a' fd');
  unwatch_ok : ∀ a fd f, aio_inv a → usable a fd → 0 ≤ fd < MAX_POLL_FDS → a_flag f →
    watched a fd ≠ (false, false) →
    ∃ a', unwatch_fd fd f a = Ret (bool_decide (drop_interest (watched a fd) f = (false, false)), a') ∧
      aio_inv a' ∧ watched a' fd = drop_interest (watched a fd) f ∧
      (∀ fd', fd' ≠ fd → watched a' fd' = watched a fd') ∧ (∀ fd', usable a fd' → usable a' fd') }.

(** ** [SelectAIO] *)

Record SelectAIO := Select {
  sa_rfds : gset Z; sa_wfds : gset Z; sa_highfds : Z; sa_pipe : Z; sa_bytes : Z }.

(** [FD_SET] and its kin on a descriptor that does not fit in an [fd_set]. *)
Definition FD_SETSIZE : Z := 1024.
Definition fd_fits (fd : Z) : res () :=
  if (0 <=? fd) && (fd <? FD_SETSIZE) then Ret () else Fail UndefinedBehaviour.

(** The constructor; [p] is the reading end of the pipe. *)
Definition select_new (p : Z) : res SelectAIO :=
  fd_fits p;; Ret (Select {[p]} ∅ p p 0).

Definition select_watch (fd : Z) (flag : poll_flag) (s : SelectAIO) : res SelectAIO :=
  fd_fits fd;;
  let high := if sa_highfds s <=? fd then fd else sa_highfds s in
  let '(r, w) :=
    match flag with
    | CB_RDONLY => ({[fd]} ∪ sa_rfds s, sa_wfds s)
    | CB_WRONLY => (sa_rfds s, {[fd]} ∪ sa_wfds s)
    | _ => ({[fd]} ∪ sa_rfds s, {[fd]} ∪ sa_wfds s)
    end in
  Ret (Select r w high (sa_pipe s) (sa_bytes s + 1)).

Definition select_is_watched (fd : Z) (flag : poll_flag) (s : SelectAIO) : res bool :=
  fd_fits fd;;
  Ret match flag with
      | CB_RDONLY => bool_decide (fd ∈ sa_rfds s)
      | CB_WRONLY => bool_decide (fd ∈ sa_wfds s)
      | _ => bool_decide (fd ∈ sa_rfds s) && bool_decide (fd ∈ sa_wfds s)
      end.

(** [for (int i = 0; i <= highfds_; i++)] with the last descriptor that is
    set. *)
Fixpoint new_high (n : nat) (i : Z) (newh : Z) (r w : gset Z) : Z :=
  match n with
  | O => newh
  | S n =>
      let newh := if bool_decide (i ∈ r) then i else if bool_decide (i ∈ w) then i else newh in
      new_high n (i + 1) newh r w
  end.

Definition select_unwatch (fd : Z) (flag : poll_flag) (s : SelectAIO) : res (bool * SelectAIO) :=
  fd_fits fd;;
  '(r, w) ←
    match flag with
    | CB_RDONLY => Ret (sa_rfds s ∖ {[fd]}, sa_wfds s)
    | CB_WRONLY => Ret (sa_rfds s, sa_wfds s ∖ {[fd]})
    | CB_RDWR => Ret (sa_rfds s ∖ {[fd]}, sa_wfds s ∖ {[fd]})
    | _ => Fail VerifyFailed
    end;
  let gone := negb (bool_decide (fd ∈ r)) && negb (bool_decide (fd ∈ w)) in
  let high :=
    if gone && (fd =? sa_highfds s)
    then new_high (Z.to_nat (sa_highfds s + 1)) 0 (sa_pipe s) r w
    else sa_highfds s in
  let bytes := if decide (flag = CB_RDWR) then sa_bytes s + 1 else sa_bytes s in
  Ret (gone, Select r w high (sa_pipe s) bytes).

#[export] Instance select_aio : AioMgr SelectAIO :=
  {| watch_fd := select_watch; unwatch_fd := select_unwatch; is_watched := select_is_watched |}.

(** [wait_ready] up to [select]: the sets it hands over. *)
Definition select_copy (s : SelectAIO) : gset Z * gset Z * Z := (sa_rfds s, sa_wfds s, sa_highfds s).

(** What [select] comes back with. *)
Inductive select_outcome := SelReady (r w : gset Z) | SelIntr | SelError.

(** [select] clears the descriptors that are not ready, and looks at those
    below its first argument only. *)
Definition select_keep (high : Z) (given ready : gset Z) : gset Z :=
  filter (λ fd, fd < high + 1) (given ∩ ready).

(** The loop over the descriptors from [fd] on. *)
Fixpoint collect_ready (n : nat) (fd : Z) (r w : gset Z) (readable writable : list Z) (s : SelectAIO)
    : res (list Z * list Z * SelectAIO) :=
  match n with
  | O => Ret (readable, writable, s)
  | S n =>
      if (fd =? sa_pipe s) && bool_decide (fd ∈ r) then
        VERIFY (0 <? sa_bytes s);;
        collect_ready n (fd + 1) r w readable writable
          (Select (sa_rfds s) (sa_wfds s) (sa_highfds s) (sa_pipe s) (sa_bytes s - 1))
      else
        collect_ready n (fd + 1) r w
          (if bool_decide (fd ∈ r) then readable ++ [fd] else readable)
          (if bool_decide (fd ∈ w) then writable ++ [fd] else writable) s
  end.

(** [wait_ready] after [select]. *)
Definition select_ready (copy : gset Z * gset Z * Z) (o : select_outcome) (s : SelectAIO)
    : res (list Z * list Z * SelectAIO) :=
  let '(trfds, twfds, high) := copy in
  match o with
  | SelIntr => Ret ([], [], s)
  | SelError => Fail VerifyFailed
  | SelReady r w =>
      collect_ready (Z.to_nat (high + 1)) 0 (select_keep high trfds r) (select_keep high twfds w) [] [] s
  end.

(** ** [EPollAIO] *)

Definition EPOLLIN : Z := 0x1.
Definition EPOLLOUT : Z := 0x4.
Definition EPOLLET : Z := 2 ^ 31.

(** [ep_fdstatus] is the array, zero where there is no entry; [ep_kernel] the
    descriptors registered with the kernel and their events. *)
Record EPollAIO := EPoll { ep_fdstatus : gmap Z Z; ep_kernel : gmap Z Z }.

Definition epoll_new : EPollAIO := EPoll ∅ ∅.

Inductive epoll_op := EPOLL_CTL_ADD | EPOLL_CTL_MOD | EPOLL_CTL_DEL.

Definition epoll_ctl (op : epoll_op) (fd ev : Z) (k : gmap Z Z) : option (gmap Z Z) :=
  match op, k !! fd with
  | EPOLL_CTL_ADD, None => Some (<[fd := ev]> k)
  | EPOLL_CTL_MOD, Some _ => Some (<[fd := ev]> k)
  | EPOLL_CTL_DEL, Some _ => Some (delete fd k)
  | _, _ => None
  end.

Definition poll_flag_to_event (flag : poll_flag) : Z :=
  match flag with
  | CB_RDONLY => EPOLLIN
  | CB_WRONLY => EPOLLOUT
  | _ => Z.lor EPOLLIN EPOLLOUT
  end.

(** [fdstatus_\[fd\]]: the array has [MAX_POLL_FDS] entries. *)
Definition fdstatus (fd : Z) (a : EPollAIO) : res Z :=
  if 0 <=? fd then Ret (default 0 (ep_fdstatus a !! fd)) else Fail UndefinedBehaviour.

Definition status_events (st : Z) : Z :=
  let ev := EPOLLET in
  let ev := if Z.land st (flag_val CB_RDONLY) =? 0 then ev else Z.lor ev EPOLLIN in
  if Z.land st (flag_val CB_WRONLY) =? 0 then ev else Z.lor ev EPOLLOUT.

Definition epoll_watch (fd : Z) (flag : poll_flag) (a : EPollAIO) : res EPollAIO :=
  VERIFY (fd <? MAX_POLL_FDS);;
  old ← fdstatus fd a;
  let op := if old =? 0 then EPOLL_CTL_ADD else EPOLL_CTL_MOD in
  let st := Z.lor old (flag_val flag) in
  let ev := status_events st in
  (if decide (flag = CB_RDWR) then VERIFY (ev =? Z.lor (Z.lor EPOLLET EPOLLIN) EPOLLOUT) else Ret ());;
  match epoll_ctl op fd ev (ep_kernel a) with
  | None => Fail VerifyFailed
  | Some k => Ret (EPoll (<[fd := st]> (ep_fdstatus a)) k)
  end.

Definition epoll_unwatch (fd : Z) (flag : poll_flag) (a : EPollAIO) : res (bool * EPollAIO) :=
  VERIFY (fd <? MAX_POLL_FDS);;
  old ← fdstatus fd a;
  let st := Z.land old (Z.lnot (flag_val flag)) in
  let op := if st =? 0 then EPOLL_CTL_DEL else EPOLL_CTL_MOD in
  let ev := status_events st in
  (if decide (flag = CB_RDWR) then VERIFY (st =? 0) else Ret ());;
  match epoll_ctl op fd ev (ep_kernel a) with
  | None => Fail VerifyFailed
  | Some k => Ret (st =? 0, EPoll (<[fd := st]> (ep_fdstatus a)) k)
  end.

Definition epoll_is_watched (fd : Z) (flag : poll_flag) (a : EPollAIO) : res bool :=
  VERIFY (fd <? MAX_POLL_FDS);;
  st ← fdstatus fd a;
  Ret (Z.land st (flag_val CB_MASK) =? flag_val flag).

#[export] Instance epoll_aio : AioMgr EPollAIO :=
  {| watch_fd := epoll_watch; unwatch_fd := epoll_unwatch; is_watched := epoll_is_watched |}.

(** [wait_ready], on the descriptors and events [epoll_wait] filled in. *)
Definition epoll_ready (ready : list (Z * Z)) : list Z * list Z :=
  foldl (λ '(readable, writable) '(ev, fd),
    (if Z.land ev EPOLLIN =? 0 then readable else readable ++ [fd],
     if Z.land ev EPOLLOUT =? 0 then writable else writable ++ [fd])) ([], []) ready.

(** ** [PollMgr] *)

Section poll_mgr.
Context {A : Type} `{!AioMgr A}.

(** [pm_callbacks]: the callback object of each descriptor; no entry is the
    null pointer. *)
Record PollMgr := Poll { pm_callbacks : gmap Z nat; pm_aio : A; pm_pending : bool }.

Definition pollmgr_new (a : A) : PollMgr := Poll ∅ a false.

(** [callbacks_\[fd\]] for an index into the array. *)
Definition cb_index (fd : Z) : res () :=
  if (0 <=? fd) && (fd <? MAX_POLL_FDS) then Ret () else Fail UndefinedBehaviour.

Definition add_callback (fd : Z) (flag : poll_flag) (ch : nat) (p : PollMgr) : res PollMgr :=
  VERIFY (fd <? MAX_POLL_FDS);;
  a ← watch_fd fd flag (pm_aio p);
  cb_index fd;;
  VERIFY (bool_decide (pm_callbacks p !! fd = None ∨ pm_callbacks p !! fd = Some ch));;
  Ret (Poll (<[fd := ch]> (pm_callbacks p)) a (pm_pending p)).

(** [block_remove_fd] up to its wait for the poll thread, and after it. *)
Definition block_remove_begin (fd : Z) (p : PollMgr) : res PollMgr :=
  '(_, a) ← unwatch_fd fd CB_RDWR (pm_aio p);
  Ret (Poll (pm_callbacks p) a true).
Definition block_remove_end (fd : Z) (p : PollMgr) : res PollMgr :=
  cb_index fd;;
  Ret (Poll (delete fd (pm_callbacks p)) (pm_aio p) (pm_pending p)).

Definition del_callback (fd : Z) (flag : poll_flag) (p : PollMgr) : res PollMgr :=
  '(gone, a) ← unwatch_fd fd flag (pm_aio p);
  if gone : bool then
    cb_index fd;;
    Ret (Poll (delete fd (pm_callbacks p)) a (pm_pending p))
  else Ret (Poll (pm_callbacks p) a (pm_pending p)).

Definition has_callback (fd : Z) (flag : poll_flag) (c : nat) (p : PollMgr) : res bool :=
  cb_index fd;;
  if bool_decide (pm_callbacks p !! fd = Some c) then is_watched fd flag (pm_aio p) else Ret false.

(** The locked part of a turn of [wait_loop]; the result tells whether the
    threads that wait in [block_remove_fd] are woken. *)
Definition wait_top (p : PollMgr) : bool * PollMgr :=
  if pm_pending p then (true, Poll (pm_callbacks p) (pm_aio p) false) else (false, p).

(** The two loops over the ready descriptors: whom to call next. *)
Definition next_callback (fd : Z) (p : PollMgr) : res (option nat) :=
  cb_index fd;; Ret (pm_callbacks p !! fd).
End poll_mgr.
Arguments PollMgr A : clear implicits.

(** ** Both implementations keep the promise *)

Lemma new_high_spec n r w : ∀ i newh,
  (∀ j, i ≤ j < i + Z.of_nat n → j ∈ r ∪ w → j ≤ new_high n i newh r w) ∧
  (new_high n i newh r w = newh ∨
     i ≤ new_high n i newh r w < i + Z.of_nat n ∧ new_high n i newh r w ∈ r ∪ w).
Proof.
  induction n as [|n IH]; intros i newh; cbn [new_high]; [split; [lia|by left]|].
  set (h := if bool_decide (i ∈ r) then _ else _). destruct (IH (i + 1) h) as [Hall Hin].
  assert (Hi : h = newh ∧ i ∉ r ∪ w ∨ h = i ∧ i ∈ r ∪ w).
  { subst h. destruct (bool_decide_reflect (i ∈ r)); [right; set_solver|].
    destruct (bool_decide_reflect (i ∈ w)); [right|left]; set_solver. }
  split.
  - intros j Hj Hm. destruct (decide (j = i)) as [->|]; [|apply Hall; [lia|done]].
    destruct Hi as [[_ ?]|[E _]]; [done|]. destruct Hin as [->|[? _]]; lia.
  - destruct Hin as [E|[Hr Hm]]; [|right; split; [lia|done]].
    destruct Hi as [[Eh _]|[Eh Hm]]; rewrite Eh in *; [by left|]. right. rewrite E. split; [lia|done].
Qed.

(** Every watched descriptor is below the bound that [select] is given. *)
Definition select_inv (s : SelectAIO) : Prop :=
  (∀ fd, fd ∈ sa_rfds s ∪ sa_wfds s → 0 ≤ fd ≤ sa_highfds s) ∧ sa_pipe s ∈ sa_rfds s ∧
  sa_highfds s < FD_SETSIZE ∧ 0 ≤ sa_bytes s.

Definition select_watched (s : SelectAIO) (fd : Z) : interest :=
  (bool_decide (fd ∈ sa_rfds s), bool_decide (fd ∈ sa_wfds s)).

Lemma fd_fits_ok fd : 0 ≤ fd < MAX_POLL_FDS → fd_fits fd = Ret ().
Proof.
  unfold fd_fits, MAX_POLL_FDS, FD_SETSIZE. intros H.
  by replace ((0 <=? fd) && (fd <? 1024)) with true by lia.
Qed.

(** [member_solver] decides boolean membership in unions and differences. *)
Ltac member_solver :=
  repeat match goal with
  | |- context [bool_decide (?x ∈ ?s)] => destruct (bool_decide_reflect (x ∈ s))
  end; try done; exfalso; set_solver.

Lemma select_watch_ok s fd f :
  select_inv s → fd ≠ sa_pipe s → 0 ≤ fd < MAX_POLL_FDS → a_flag f →
  ∃ s', select_watch fd f s = Ret s' ∧ select_inv s' ∧
    select_watched s' fd = add_interest (select_watched s fd) f ∧
    (∀ fd', fd' ≠ fd → select_watched s' fd' = select_watched s fd') ∧ sa_pipe s' = sa_pipe s ∧
    0 < sa_bytes s'.
Proof.
  intros (Hall & Hp & Hh & Hb) Hne Hfd Hf. unfold select_watch. rewrite fd_fits_ok by done.
  cbn [rbind]. set (high := if _ <=? _ then _ else _).
  assert (fd ≤ high ∧ sa_highfds s ≤ high ∧ high < FD_SETSIZE) as (? & ? & ?).
  { subst high. unfold FD_SETSIZE, MAX_POLL_FDS in *. destruct (Z.leb_spec (sa_highfds s) fd); lia. }
  assert (∀ x, x ∈ {[fd]} ∪ (sa_rfds s ∪ sa_wfds s) → 0 ≤ x ≤ high) as Hx.
  { intros x [->%elem_of_singleton|Hin]%elem_of_union; [lia|]. specialize (Hall x Hin). lia. }
  unfold select_watched, add_interest, select_inv.
  destruct Hf as [->|[->| ->]]; eexists; (split; [done|]); cbn;
    (split_and!; [intros x Hin; apply Hx; set_solver|set_solver|done|lia| |intros fd' Hfd'|done|lia]);
    f_equal; member_solver.
Qed.

Lemma select_unwatch_ok s fd f :
  select_inv s → fd ≠ sa_pipe s → 0 ≤ fd < MAX_POLL_FDS → a_flag f →
  ∃ s', select_unwatch fd f s =
      Ret (bool_decide (drop_interest (select_watched s fd) f = (false, false)), s') ∧
    select_inv s' ∧ select_watched s' fd = drop_interest (select_watched s fd) f ∧
    (∀ fd', fd' ≠ fd → select_watched s' fd' = select_watched s fd') ∧ sa_pipe s' = sa_pipe s ∧
    sa_bytes s ≤ sa_bytes s' ∧ (f = CB_RDWR → 0 < sa_bytes s').
Proof.
  intros (Hall & Hp & Hh & Hb) Hne Hfd Hf. unfold select_unwatch. rewrite fd_fits_ok by done.
  cbn [rbind].
  assert (∃ r w, match f with
    | CB_RDONLY => Ret (sa_rfds s ∖ {[fd]}, sa_wfds s)
    | CB_WRONLY => Ret (sa_rfds s, sa_wfds s ∖ {[fd]})
    | CB_RDWR => Ret (sa_rfds s ∖ {[fd]}, sa_wfds s ∖ {[fd]})
    | _ => Fail VerifyFailed end = Ret (r, w) ∧ r ⊆ sa_rfds s ∧ w ⊆ sa_wfds s ∧ sa_pipe s ∈ r ∧
    (bool_decide (fd ∈ r), bool_decide (fd ∈ w)) = drop_interest (select_watched s fd) f ∧
    ∀ fd', fd' ≠ fd → bool_decide (fd' ∈ r) = bool_decide (fd' ∈ sa_rfds s) ∧
      bool_decide (fd' ∈ w) = bool_decide (fd' ∈ sa_wfds s)) as (r & w & -> & Hr & Hw & Hpr & Ei & Eo).
  { unfold drop_interest, select_watched.
    destruct Hf as [->|[->| ->]]; do 2 eexists; (split; [done|]); cbn;
      (split_and!; [set_solver..| |intros fd' Hfd'; split]); try f_equal; member_solver. }
  cbn [rbind]. set (high := if _ && _ then _ else _).
  assert (high < FD_SETSIZE ∧ ∀ x, x ∈ r ∪ w → 0 ≤ x ≤ high) as [Hh' Hx].
  { subst high. destruct (_ && _) eqn:E.
    - apply andb_true_iff in E as [_ E%Z.eqb_eq].
      destruct (new_high_spec (Z.to_nat (sa_highfds s + 1)) r w 0 (sa_pipe s)) as [Hn Hin].
      assert (0 ≤ sa_pipe s ≤ sa_highfds s) by (apply Hall; set_solver).
      split; [destruct Hin as [->|[? _]]; lia|]. intros x Hxm.
      assert (0 ≤ x ≤ sa_highfds s) by (apply Hall; set_solver). split; [lia|]. apply Hn; [lia|done].
    - split; [done|]. intros x Hxm. apply Hall. set_solver. }
  eexists. split; [|split_and!].
  - f_equal. f_equal. rewrite <- Ei. do 2 destruct (bool_decide (fd ∈ _)); done.
  - unfold select_inv; cbn. split_and!; [done..|]. destruct (decide (f = CB_RDWR)); lia.
  - unfold select_watched; cbn. done.
  - intros fd' Hfd'. destruct (Eo fd' Hfd') as [E1 E2]. unfold select_watched; cbn. by rewrite E1, E2.
  - done.
  - cbn. destruct (decide _); lia.
  - intros ->. cbn. rewrite decide_True by done. lia.
Qed.

#[export] Instance select_aio_ok : AioMgrOk SelectAIO.
Proof.
  refine {| aio_inv := select_inv; watched := select_watched; usable s fd := fd ≠ sa_pipe s |}.
  - intros s fd f Hi Hu Hfd Hf. destruct (select_watch_ok s fd f Hi Hu Hfd Hf) as (s' & ? & ? & ? & ? & E & _).
    exists s'. rewrite E. by split_and!.
  - intros s fd f Hi Hu Hfd Hf _.
    destruct (select_unwatch_ok s fd f Hi Hu Hfd Hf) as (s' & ? & ? & ? & ? & E & _).
    exists s'. rewrite E. by split_and!.
Defined.

(** A status is one of the four combinations, and the kernel knows the
    descriptors with another one than 0, with the events of their status. *)
Definition epoll_inv (a : EPollAIO) : Prop :=
  ∀ fd, let st := default 0 (ep_fdstatus a !! fd) in
    st ∈ [0; 1; 16; 17] ∧
    ep_kernel a !! fd = if st =? 0 then None else Some (status_events st).

Definition epoll_watched (a : EPollAIO) (fd : Z) : interest :=
  let st := default 0 (ep_fdstatus a !! fd) in
  (negb (Z.land st (flag_val CB_RDONLY) =? 0), negb (Z.land st (flag_val CB_WRONLY) =? 0)).

Lemma epoll_inv_update a fd st k :
  epoll_inv a → st ∈ [0; 1; 16; 17] →
  k = (if st =? 0 then delete fd (ep_kernel a) else <[fd := status_events st]> (ep_kernel a)) →
  epoll_inv (EPoll (<[fd := st]> (ep_fdstatus a)) k).
Proof.
  intros Hi Hst -> fd'. cbn. destruct (decide (fd = fd')) as [<-|Hne].
  - rewrite lookup_insert_eq. cbn. split; [done|].
    destruct (st =? 0); [apply lookup_delete_eq|apply lookup_insert_eq].
  - rewrite lookup_insert_ne by done. destruct (st =? 0);
      [rewrite lookup_delete_ne by done|rewrite lookup_insert_ne by done]; apply Hi.
Qed.

(** Case analysis on a status. *)
Ltac status_cases H :=
  repeat (apply elem_of_cons in H as [H|H]); [..|by apply elem_of_nil in H]; rewrite H in *.

(** [compute_lands] evaluates the bit operations on constants. *)
Ltac compute_lands :=
  repeat match goal with
  | |- context [Z.land (Zpos ?x) ?y] =>
      let v := eval vm_compute in (Z.land (Zpos x) y) in change (Z.land (Zpos x) y) with v
  | |- context [Z.land Z0 ?y] => change (Z.land Z0 y) with 0
  end; cbn.

Lemma epoll_stored a fd st k w :
  epoll_inv a → st ∈ [0; 1; 16; 17] →
  k = (if st =? 0 then delete fd (ep_kernel a) else <[fd := status_events st]> (ep_kernel a)) →
  (negb (Z.land st 1 =? 0), negb (Z.land st 16 =? 0)) = w →
  let a' := EPoll (<[fd := st]> (ep_fdstatus a)) k in
  epoll_inv a' ∧ epoll_watched a' fd = w ∧ (∀ fd', fd' ≠ fd → epoll_watched a' fd' = epoll_watched a fd').
Proof.
  intros Hi Hst Hk Hw a'. split; [by apply epoll_inv_update|]. unfold epoll_watched; cbn. split.
  - by rewrite lookup_insert_eq.
  - intros fd' Hne. by rewrite lookup_insert_ne.
Qed.

Lemma epoll_watch_ok a fd f :
  epoll_inv a → 0 ≤ fd < MAX_POLL_FDS → a_flag f →
  ∃ a', epoll_watch fd f a = Ret a' ∧ epoll_inv a' ∧
    epoll_watched a' fd = add_interest (epoll_watched a fd) f ∧
    (∀ fd', fd' ≠ fd → epoll_watched a' fd' = epoll_watched a fd').
Proof.
  intros Hi Hfd Hf. destruct (Hi fd) as [Hst Hk]. unfold epoll_watch, fdstatus.
  rewrite VERIFY_true by lia. cbn [rbind]. replace (0 <=? fd) with true by lia. cbn [rbind].
  assert (Ew : epoll_watched a fd = (negb (Z.land (default 0 (ep_fdstatus a !! fd)) 1 =? 0),
    negb (Z.land (default 0 (ep_fdstatus a !! fd)) 16 =? 0))) by done.
  rewrite Ew. clear Ew. set (st := default 0 (ep_fdstatus a !! fd)) in *. clearbody st.
  destruct Hf as [->|[->| ->]]; status_cases Hst; cbn in Hk |- *; rewrite Hk; cbn;
    (eexists; split; [done|]; apply epoll_stored; [done|set_solver|done|done]).
Qed.

Lemma epoll_unwatch_ok a fd f :
  epoll_inv a → 0 ≤ fd < MAX_POLL_FDS → a_flag f → epoll_watched a fd ≠ (false, false) →
  ∃ a', epoll_unwatch fd f a = Ret (bool_decide (drop_interest (epoll_watched a fd) f = (false, false)), a') ∧
    epoll_inv a' ∧ epoll_watched a' fd = drop_interest (epoll_watched a fd) f ∧
    (∀ fd', fd' ≠ fd → epoll_watched a' fd' = epoll_watched a fd').
Proof.
  intros Hi Hfd Hf. destruct (Hi fd) as [Hst Hk]. unfold epoll_unwatch, fdstatus.
  rewrite VERIFY_true by lia. cbn [rbind]. replace (0 <=? fd) with true by lia. cbn [rbind].
  assert (Ew : epoll_watched a fd = (negb (Z.land (default 0 (ep_fdstatus a !! fd)) 1 =? 0),
    negb (Z.land (default 0 (ep_fdstatus a !! fd)) 16 =? 0))) by done.
  rewrite Ew. clear Ew. set (st := default 0 (ep_fdstatus a !! fd)) in *. clearbody st. intros Hw.
  destruct Hf as [->|[->| ->]]; status_cases Hst; try done; cbn in Hk |- *; compute_lands; rewrite Hk; cbn;
    (eexists; split; [done|]; apply epoll_stored; [done|set_solver|done|done]).
Qed.

#[export] Instance epoll_aio_ok : AioMgrOk EPollAIO.
Proof.
  refine {| aio_inv := epoll_inv; watched := epoll_watched; usable _ _ := True |}.
  - intros a fd f Hi _ Hfd Hf. destruct (epoll_watch_ok a fd f Hi Hfd Hf) as (a' & ? & ? & ? & ?).
    exists a'. by split_and!.
  - intros a fd f Hi _ Hfd Hf Hw. destruct (epoll_unwatch_ok a fd f Hi Hfd Hf Hw) as (a' & ? & ? & ? & ?).
    exists a'. by split_and!.
Defined.

(** ** One interface, two implementations *)

Inductive aio_op := Watch (fd : Z) (f : poll_flag) | Unwatch (fd : Z) (f : poll_flag).

(** What the operations mean: a map from descriptors to interests, and for
    each removal whether nothing is left. *)
Fixpoint interests (ops : list aio_op) (w : Z → interest) : list bool * (Z → interest) :=
  match ops with
  | [] => ([], w)
  | Watch fd f :: ops => interests ops (<[fd := add_interest (w fd) f]> w)
  | Unwatch fd f :: ops =>
      let i := drop_interest (w fd) f in
      let '(bs, w) := interests ops (<[fd := i]> w) in
      (bool_decide (i = (false, false)) :: bs, w)
  end.

(** Callers pass descriptors in range, never the pipe, and remove only what
    is watched. *)
Fixpoint allowed_ops (pipe : Z) (ops : list aio_op) (w : Z → interest) : Prop :=
  match ops with
  | [] => True
  | Watch fd f :: ops =>
      0 ≤ fd < MAX_POLL_FDS ∧ fd ≠ pipe ∧ a_flag f ∧ allowed_ops pipe ops (<[fd := add_interest (w fd) f]> w)
  | Unwatch fd f :: ops =>
      0 ≤ fd < MAX_POLL_FDS ∧ fd ≠ pipe ∧ a_flag f ∧ w fd ≠ (false, false) ∧
      allowed_ops pipe ops (<[fd := drop_interest (w fd) f]> w)
  end.

Section run_aio.
Context {A : Type} `{!AioMgr A}.

Fixpoint run_aio (ops : list aio_op) (a : A) : res (list bool * A) :=
  match ops with
  | [] => Ret ([], a)
  | Watch fd f :: ops => a ← watch_fd fd f a; run_aio ops a
  | Unwatch fd f :: ops =>
      '(b, a) ← unwatch_fd fd f a;
      '(bs, a) ← run_aio ops a;
      Ret (b :: bs, a)
  end.

Lemma run_aio_ok `{!AioMgrOk A} pipe ops : ∀ a w,
  aio_inv a → (∀ fd, fd ≠ pipe → usable a fd ∧ watched a fd = w fd) → allowed_ops pipe ops w →
  ∃ a', run_aio ops a = Ret ((interests ops w).1, a') ∧ aio_inv a' ∧
    (∀ fd, fd ≠ pipe → usable a' fd ∧ watched a' fd = (interests ops w).2 fd) ∧ watched a' pipe = watched a pipe.
Proof.
  induction ops as [|[fd f|fd f] ops IH]; intros a w Hi Hw Hok; cbn [run_aio interests].
  - exists a. split_and!; [done|done| |done]. intros fd Hfd. by apply Hw.
  - destruct Hok as (Hfd & Hp & Hf & Hok). destruct (Hw fd Hp) as [Hu E].
    destruct (watch_ok a fd f Hi Hu Hfd Hf) as (a1 & -> & Hi1 & E1 & Eo & Hu1). cbn [rbind].
    rewrite <- (Eo pipe) by done. apply IH; [done| |done]. intros fd' Hp'. split; [apply Hu1, Hw, Hp'|].
    destruct (decide (fd = fd')) as [<-|Hne]; [by rewrite fn_lookup_insert, E1, E|].
    rewrite fn_lookup_insert_ne, Eo by done. by apply Hw.
  - destruct Hok as (Hfd & Hp & Hf & Hne0 & Hok). destruct (Hw fd Hp) as [Hu E].
    destruct (unwatch_ok a fd f Hi Hu Hfd Hf) as (a1 & -> & Hi1 & E1 & Eo & Hu1); [by rewrite E|]. cbn [rbind].
    destruct (IH a1 (<[fd := drop_interest (w fd) f]> w) Hi1) as (a' & -> & Hi' & Hw' & Hpipe); [|done|].
    + intros fd' Hp'. split; [apply Hu1, Hw, Hp'|].
      destruct (decide (fd = fd')) as [<-|Hne]; [by rewrite fn_lookup_insert, E1, E|].
      rewrite fn_lookup_insert_ne, Eo by done. by apply Hw.
    + cbn [rbind]. rewrite E. destruct (interests ops _) as [bs w']. exists a'. rewrite Hpipe, (Eo pipe) by done. done.
Qed.
End run_aio.

Lemma select_new_inv p : 0 ≤ p < FD_SETSIZE → select_new p = Ret (Select {[p]} ∅ p p 0) ∧
  select_inv (Select {[p]} ∅ p p 0).
Proof.
  intros Hp. unfold select_new, fd_fits. replace ((0 <=? p) && (p <? FD_SETSIZE)) with true by lia.
  split; [done|]. unfold select_inv; cbn. split_and!; [|set_solver|lia|lia].
  intros fd. rewrite elem_of_union, elem_of_singleton. intros [->|?%elem_of_empty]; [lia|done].
Qed.

(** The one method that differs: [EPollAIO::is_watched] masks out exactly the
    bits it should look at, and answers [false] for every flag a caller can
    pass, whatever is watched. *)
Theorem epoll_is_watched_never a fd f b :
  epoll_inv a → a_flag f → epoll_is_watched fd f a = Ret b → b = false.
Proof.
  intros Hi Hf. unfold epoll_is_watched, fdstatus. intros ([] & _ & (st & E & [= <-])%rbind_Ret)%rbind_Ret.
  destruct (0 <=? fd); [|done]. injection E as <-. destruct (Hi fd) as [Hst _].
  set (st := default 0 _) in *. clearbody st. by destruct Hf as [->|[->| ->]]; status_cases Hst.
Qed.

(** ** What [select] reports *)

(** [pushed P]: a descriptor is pushed when [P] holds, and is in the filtered
    list then. *)
Ltac pushed P :=
  destruct (bool_decide_reflect P); case_decide; try (by rewrite <- (assoc_L (++))); tauto.

Lemma collect_ready_ok n r w : ∀ fd rd wr s,
  (sa_pipe s ∈ r → fd ≤ sa_pipe s → 0 < sa_bytes s) →
  ∃ b, collect_ready n fd r w rd wr s =
    Ret (rd ++ filter (λ x, x ∈ r ∧ x ≠ sa_pipe s) (seqZ fd (Z.of_nat n)),
         wr ++ filter (λ x, x ∈ w ∧ (x ∉ r ∨ x ≠ sa_pipe s)) (seqZ fd (Z.of_nat n)),
         Select (sa_rfds s) (sa_wfds s) (sa_highfds s) (sa_pipe s) b) ∧ (0 ≤ sa_bytes s → 0 ≤ b).
Proof.
  induction n as [|n IH]; intros fd rd wr s Hb; cbn [collect_ready].
  { exists (sa_bytes s). cbn. rewrite !app_nil_r. by destruct s. }
  rewrite (seqZ_cons fd) by lia. replace (Z.pred (Z.of_nat (S n))) with (Z.of_nat n) by lia.
  rewrite !filter_cons.
  destruct (Z.eqb_spec fd (sa_pipe s)) as [E|E]; cbn [andb].
  - destruct (bool_decide_reflect (fd ∈ r)) as [Hr|Hr].
    + assert (0 < sa_bytes s) by (rewrite E in Hr; specialize (Hb Hr); lia).
      rewrite VERIFY_true by lia. cbn [rbind].
      destruct (IH (fd + 1) rd wr (Select (sa_rfds s) (sa_wfds s) (sa_highfds s) (sa_pipe s) (sa_bytes s - 1)))
        as (b & -> & Hb'); [cbn; lia|].
      exists b. cbn. rewrite (decide_False (P := fd ∈ r ∧ _)) by naive_solver.
      rewrite (decide_False (P := fd ∈ w ∧ _)) by naive_solver. split; [done|]. intros _. apply Hb'. cbn. lia.
    + edestruct (IH (fd + 1)) as (b & -> & Hb'); [|]; [intros Hp; rewrite E in Hr; done|].
      exists b. split; [|done]. rewrite (decide_False (P := fd ∈ r ∧ _)) by naive_solver. do 2 f_equal. f_equal.
      pushed (fd ∈ w).
  - edestruct (IH (fd + 1)) as (b & -> & Hb'); [|]; [intros; apply Hb; [done|lia]|].
    exists b. split; [|done]. do 2 f_equal. f_equal.
    + pushed (fd ∈ r).
    + pushed (fd ∈ w).
Qed.

(** What a wait reports from the sets it copied: descriptors that were in
    the copy and are ready, each once. *)
Lemma select_ready_sound trfds twfds high r w s rd wr s' :
  select_ready (trfds, twfds, high) (SelReady r w) s = Ret (rd, wr, s') →
  (sa_pipe s ∈ r → 0 < sa_bytes s) →
  (∀ fd, fd ∈ rd ↔ fd ∈ trfds ∩ r ∧ 0 ≤ fd ≤ high ∧ fd ≠ sa_pipe s) ∧
  (∀ fd, fd ∈ wr → fd ∈ twfds ∩ w) ∧
  (∀ fd, fd ∈ twfds ∩ w → fd ≠ sa_pipe s → 0 ≤ fd ≤ high → fd ∈ wr) ∧
  sa_rfds s' = sa_rfds s ∧ sa_wfds s' = sa_wfds s ∧ sa_pipe s' = sa_pipe s ∧ sa_highfds s' = sa_highfds s.
Proof.
  cbn [select_ready]. intros H Hb. unfold select_keep in H.
  edestruct (collect_ready_ok (Z.to_nat (high + 1))) as (b & E & _); [|rewrite E in H; injection H as <- <- <-].
  { intros Hp _. apply Hb. set_solver. }
  split_and!; try done; intros fd; cbn [app]; rewrite list_elem_of_filter, elem_of_seqZ, ?elem_of_filter.
  - split; [intros ([[? ?] ?] & ?); split_and!; [done|lia|lia|done]|].
    intros (? & ? & ?). split; [|lia]. split; [|done]. split; [lia|done].
  - by intros (((? & ?) & _) & _).
  - intros ? ? ?. split; [|lia]. split; [|by right]. split; [lia|done].
Qed.

(** No ready descriptor is missed.  In every state the operations can
    lead to, a wait that copies the sets and whose [select] finds the
    descriptors [r] and [w] ready returns exactly the watched ones among
    them, except for the pipe: [highfds_] is a bound of all of them. *)
Theorem select_reports s r w :
  select_inv s → (sa_pipe s ∈ r → 0 < sa_bytes s) → sa_pipe s ∉ sa_wfds s →
  ∃ rd wr s', select_ready (select_copy s) (SelReady r w) s = Ret (rd, wr, s') ∧
    (∀ fd, fd ∈ rd ↔ (select_watched s fd).1 = true ∧ fd ∈ r ∧ fd ≠ sa_pipe s) ∧
    (∀ fd, fd ∈ wr ↔ (select_watched s fd).2 = true ∧ fd ∈ w) ∧
    (∀ fd, select_watched s' fd = select_watched s fd).
Proof.
  intros (Hall & _) Hb Hp. unfold select_copy.
  assert (∃ rd wr s', select_ready (sa_rfds s, sa_wfds s, sa_highfds s) (SelReady r w) s = Ret (rd, wr, s'))
    as (rd & wr & s' & E).
  { cbn. edestruct (collect_ready_ok (Z.to_nat (sa_highfds s + 1))) as (b & -> & _); [|by eauto].
    intros H _. apply Hb. unfold select_keep in H. set_solver. }
  exists rd, wr, s'. split; [done|].
  destruct (select_ready_sound _ _ _ _ _ _ _ _ _ E Hb) as (Hr & Hw1 & Hw2 & E1 & E2 & _).
  unfold select_watched. cbn. split_and!.
  - intros fd. rewrite Hr, bool_decide_eq_true, elem_of_intersection. split; [naive_solver|].
    intros (H1 & H2 & H3). split_and!; try done; apply Hall; set_solver.
  - intros fd. rewrite bool_decide_eq_true. split; [intros H%Hw1; set_solver|]. intros [H1 H2].
    apply Hw2; [set_solver|by intros ->|]. apply Hall. set_solver.
  - intros fd. by rewrite E1, E2.
Qed.

Definition demo_select : SelectAIO := Select {[3; 7; 9]} {[9]} 9 3 1.

Lemma demo_select_inv : select_inv demo_select.
Proof.
  unfold select_inv, demo_select, FD_SETSIZE; cbn. split_and!; [|set_solver|lia|lia].
  intros fd Hfd. assert (fd = 3 ∨ fd = 7 ∨ fd = 9) by set_solver. lia.
Qed.

Lemma select_reports_witness :
  ∃ rd wr s', select_ready (select_copy demo_select) (SelReady {[3; 9]} {[9]}) demo_select = Ret (rd, wr, s') ∧
    (∀ fd, fd ∈ rd ↔ (select_watched demo_select fd).1 = true ∧ fd ∈ ({[3; 9]} : gset Z) ∧ fd ≠ 3) ∧
    (∀ fd, fd ∈ wr ↔ (select_watched demo_select fd).2 = true ∧ fd ∈ ({[9]} : gset Z)) ∧
    (∀ fd, select_watched s' fd = select_watched demo_select fd).
Proof.
  apply (select_reports demo_select {[3; 9]} {[9]} demo_select_inv).
  - intros _. cbn. lia.
  - cbn. intros H%elem_of_singleton. lia.
Defined.

(** ** What [epoll] reports *)

(** The events that are there for [fd] when the descriptors of [r] can be read
    and those of [w] written. *)
Definition ready_events (r w : gset Z) (fd : Z) : Z :=
  Z.lor (if bool_decide (fd ∈ r) then EPOLLIN else 0) (if bool_decide (fd ∈ w) then EPOLLOUT else 0).

(** [epoll_wait] fills in every registered descriptor with those of its events
    that are there, if there are any.  (The descriptors are registered with
    [EPOLLET], and the kernel reports what has become ready since the last
    call.) *)
Definition epoll_reports (k : gmap Z Z) (r w : gset Z) (evs : list (Z * Z)) : Prop :=
  ∀ ev fd, (ev, fd) ∈ evs ↔ ∃ reg, k !! fd = Some reg ∧ ev = Z.land reg (ready_events r w fd) ∧ ev ≠ 0.

Lemma epoll_ready_elem evs fd :
  (fd ∈ (epoll_ready evs).1 ↔ ∃ ev, (ev, fd) ∈ evs ∧ Z.land ev EPOLLIN ≠ 0) ∧
  (fd ∈ (epoll_ready evs).2 ↔ ∃ ev, (ev, fd) ∈ evs ∧ Z.land ev EPOLLOUT ≠ 0).
Proof.
  unfold epoll_ready. induction evs as [|[ev x] evs IH] using rev_ind.
  { cbn. split; (split; [by intros ?%not_elem_of_nil|by intros (? & ?%not_elem_of_nil & _)]). }
  rewrite foldl_app. destruct (foldl _ _ evs) as [rd wr]. cbn [fst snd] in IH. destruct IH as [IH1 IH2]. cbn [foldl fst snd].
  assert (∀ P : Z → Prop, (∃ ev', (ev', fd) ∈ evs ++ [(ev, x)] ∧ P ev') ↔ (∃ ev', (ev', fd) ∈ evs ∧ P ev') ∨ fd = x ∧ P ev) as Hsnoc.
  { intros P. split.
    - intros (ev' & [Hin|[= -> ->]%list_elem_of_singleton]%elem_of_app & HP); [left; by exists ev'|by right].
    - intros [(ev' & Hin & HP)|[-> HP]]; [exists ev'|exists ev]; (split; [|done]); apply elem_of_app; [by left|right; by apply list_elem_of_singleton]. }
  rewrite !Hsnoc, <- IH1, <- IH2.
  split; [destruct (Z.eqb_spec (Z.land ev EPOLLIN) 0)|destruct (Z.eqb_spec (Z.land ev EPOLLOUT) 0)];
    rewrite ?elem_of_app, ?list_elem_of_singleton; naive_solver.
Qed.

Lemma epoll_wait_reports a r w evs fd :
  epoll_inv a → epoll_reports (ep_kernel a) r w evs →
  (fd ∈ (epoll_ready evs).1 ↔ (epoll_watched a fd).1 = true ∧ fd ∈ r) ∧
  (fd ∈ (epoll_ready evs).2 ↔ (epoll_watched a fd).2 = true ∧ fd ∈ w).
Proof.
  intros Hi He. unfold epoll_reports in He. destruct (epoll_ready_elem evs fd) as [-> ->]. setoid_rewrite He. destruct (Hi fd) as [Hst Hk].
  unfold epoll_watched, ready_events. cbn [fst snd]. set (st := default 0 _) in *. clearbody st.
  assert (∀ P : Z → Prop, (∃ ev, (∃ reg, ep_kernel a !! fd = Some reg ∧
      ev = Z.land reg (ready_events r w fd) ∧ ev ≠ 0) ∧ P ev) ↔
    if st =? 0 then False else let ev := Z.land (status_events st) (ready_events r w fd) in ev ≠ 0 ∧ P ev) as Hex.
  { intros P. rewrite Hk. destruct (st =? 0); naive_solver. }
  unfold ready_events in Hex. rewrite !Hex. clear Hex Hk He.
  destruct (bool_decide_reflect (fd ∈ r)), (bool_decide_reflect (fd ∈ w)); status_cases Hst; vm_compute; intuition congruence.
Qed.

(** ** One interface, both implementations *)

(** The interest in a descriptor covers the flag. *)
Definition covers (i : interest) (f : poll_flag) : bool := (i.1 || negb (wants f).1) && (i.2 || negb (wants f).2).

(** C29: where [select] and [epoll] can be exchanged and where not.  On every
    sequence of [watch_fd] and [unwatch_fd] calls that the interface allows,
    starting with nothing watched, the two implementations run without
    aborting, give the same answers, and then watch every descriptor for the
    same events, those of the abstract map; a [wait_ready] in which the kernel
    reports the same descriptors as ready returns the same descriptors from
    both, the watched ones among them; but [is_watched] of [select] tells
    whether the descriptor is watched, and that of [epoll] is always false. *)
Theorem select_epoll_agree p ops :
  0 ≤ p < FD_SETSIZE → allowed_ops p ops (λ _, (false, false)) →
  let w := (interests ops (λ _, (false, false))).2 in
  ∃ s s' e', select_new p = Ret s ∧
    run_aio ops s = Ret ((interests ops (λ _, (false, false))).1, s') ∧
    run_aio ops epoll_new = Ret ((interests ops (λ _, (false, false))).1, e') ∧
    (∀ fd, fd ≠ p → select_watched s' fd = w fd ∧ epoll_watched e' fd = w fd) ∧
    (∀ rs ws evs, (p ∈ rs → 0 < sa_bytes s') → p ∉ ws → epoll_reports (ep_kernel e') rs ws evs →
       ∃ rd wr s'', select_ready (select_copy s') (SelReady rs ws) s' = Ret (rd, wr, s'') ∧
         ∀ fd, fd ≠ p → (fd ∈ rd ↔ fd ∈ (epoll_ready evs).1) ∧ (fd ∈ wr ↔ fd ∈ (epoll_ready evs).2) ∧
           (fd ∈ rd ↔ (w fd).1 = true ∧ fd ∈ rs) ∧ (fd ∈ wr ↔ (w fd).2 = true ∧ fd ∈ ws)) ∧
    (∀ fd f, fd ≠ p → 0 ≤ fd < MAX_POLL_FDS → a_flag f →
       select_is_watched fd f s' = Ret (covers (w fd) f) ∧ epoll_is_watched fd f e' = Ret false).
Proof.
  intros Hp Hok w. destruct (select_new_inv p Hp) as [En Hi].
  destruct (run_aio_ok p ops (Select {[p]} ∅ p p 0) (λ _, (false, false))) as (s' & Es & Hsi & Hs & Hsp);
    [exact Hi| |done|].
  { intros fd Hfd. split; [done|]. cbn. unfold select_watched. cbn. f_equal; member_solver. }
  destruct (run_aio_ok p ops epoll_new (λ _, (false, false))) as (e' & Ee & Hei & He & _); [| |done|].
  { intros fd. cbn. rewrite lookup_empty. cbn. split; [set_solver|done]. }
  { intros fd Hfd. split; [done|]. cbn. unfold epoll_watched. cbn. by rewrite lookup_empty. }
  fold w in Hs, He. cbn [watched usable select_aio_ok epoll_aio_ok aio_inv] in *.
  assert (sa_pipe s' = p) as Epipe.
  { destruct (decide (sa_pipe s' = p)) as [?|Hne]; [done|]. by destruct (Hs _ Hne). }
  assert (p ∉ sa_wfds s') as Hpw.
  { unfold select_watched in Hsp. injection Hsp as _ Hsp. cbn in Hsp. intros Hin. rewrite bool_decide_eq_true_2 in Hsp by done.
    symmetry in Hsp. apply bool_decide_eq_true_1 in Hsp. by apply elem_of_empty in Hsp. }
  exists (Select {[p]} ∅ p p 0), s', e'. split; [done|]. split; [done|]. split; [done|]. split; [|split].
  - intros fd Hfd. split; [by apply Hs|by apply He].
  - intros rs ws evs Hb Hws Hevs. destruct (select_reports s' rs ws) as (rd & wr & s'' & E & Hrd & Hwr & _);
      [done|by rewrite Epipe|by rewrite Epipe|].
    exists rd, wr, s''. split; [done|]. intros fd Hfd. destruct (epoll_wait_reports e' rs ws evs fd Hei Hevs) as [-> ->].
    rewrite Hrd, Hwr, Epipe. destruct (Hs fd Hfd) as [_ ->]. destruct (He fd Hfd) as [_ ->]. naive_solver.
  - intros fd f Hfd Hr Hf. destruct (Hs fd Hfd) as [_ Ew]. split.
    + unfold select_is_watched. rewrite fd_fits_ok by done. cbn [rbind]. rewrite <- Ew. unfold select_watched, covers.
      destruct Hf as [->|[->| ->]]; cbn [wants fst snd negb]; by rewrite ?orb_false_r, ?orb_true_r, ?andb_true_r.
    + destruct (epoll_is_watched fd f e') as [b|] eqn:E.
      * by rewrite (epoll_is_watched_never e' fd f b Hei Hf E).
      * unfold epoll_is_watched, fdstatus in E. rewrite VERIFY_true in E by lia. cbn [rbind] in E.
        by replace (0 <=? fd) with true in E by lia.
Qed.

Definition demo_aio_ops : list aio_op :=
  [Watch 7 CB_RDONLY; Watch 9 CB_RDONLY; Watch 7 CB_WRONLY; Unwatch 7 CB_WRONLY; Unwatch 9 CB_RDWR].

Lemma select_epoll_agree_witness :
  ∃ s s' e', select_new 3 = Ret s ∧
    run_aio demo_aio_ops s = Ret ([false; true], s') ∧
    run_aio demo_aio_ops epoll_new = Ret ([false; true], e') ∧
    select_watched s' 7 = (true, false) ∧ epoll_watched e' 7 = (true, false) ∧
    select_is_watched 7 CB_RDONLY s' = Ret true ∧ epoll_is_watched 7 CB_RDONLY e' = Ret false.
Proof.
  destruct (select_epoll_agree 3 demo_aio_ops) as (s & s' & e' & E1 & E2 & E3 & Hw & _ & Hi).
  - unfold FD_SETSIZE. lia.
  - unfold demo_aio_ops, MAX_POLL_FDS, a_flag. cbn [allowed_ops].
    split_and!; try lia; try (by auto); unfold a_flag; by auto.
  - exists s, s', e'. split; [exact E1|]. split; [exact E2|]. split; [exact E3|].
    destruct (Hw 7) as [Hw1 Hw2]; [lia|]. destruct (Hi 7 CB_RDONLY) as [Hi1 Hi2]; [lia|unfold MAX_POLL_FDS; lia|by left|].
    split; [exact Hw1|]. split; [exact Hw2|]. split; [exact Hi1|exact Hi2].
Defined.

(** ** The poll thread and the threads that remove descriptors *)

(** Where the poll thread is in [wait_loop]: before the locked section,
    before [wait_ready], inside [select], in the loops over the ready
    descriptors, inside a callback. *)
Inductive poll_pc :=
| PTop | PCopy | PSelect (copy : gset Z * gset Z * Z)
| PRun (rd wr : list Z) | PIn (fd : Z) (ch : nat) (rd wr : list Z).

(** [pw_waiting] and [pw_woken]: the descriptors of the threads that wait in
    [block_remove_fd] and of those that were woken; [pw_gone]: the
    descriptors whose removal has returned. *)
Record poll_world := PWorld {
  pw_mgr : PollMgr SelectAIO; pw_pc : poll_pc; pw_waiting : list Z; pw_woken : list Z; pw_gone : gset Z }.

Definition set_mgr (m : PollMgr SelectAIO) (w : poll_world) : poll_world :=
  PWorld m (pw_pc w) (pw_waiting w) (pw_woken w) (pw_gone w).
Definition set_pc (pc : poll_pc) (w : poll_world) : poll_world :=
  PWorld (pw_mgr w) pc (pw_waiting w) (pw_woken w) (pw_gone w).

(** The pipe is readable when there is a byte in it. *)
Definition kernel_honest (s : SelectAIO) (o : select_outcome) : Prop :=
  match o with SelReady r _ => sa_pipe s ∈ r → 0 < sa_bytes s | _ => True end.

(** Where [wait_loop] goes on with the ready descriptors. *)
Definition after_ready (rd wr : list Z) : poll_pc :=
  match rd, wr with [], [] => PTop | _, _ => PRun rd wr end.

(** The steps of the poll thread; [allow] says which outcomes of [select] are
    considered. *)
Inductive poll_step (allow : SelectAIO → select_outcome → Prop) : poll_world → poll_world → Prop :=
| PS_top w b m :
    pw_pc w = PTop → wait_top (pw_mgr w) = (b, m) →
    poll_step allow w (PWorld m PCopy (if b then [] else pw_waiting w)
      (if b then pw_waiting w ++ pw_woken w else pw_woken w) (pw_gone w))
| PS_copy w :
    pw_pc w = PCopy → poll_step allow w (set_pc (PSelect (select_copy (pm_aio (pw_mgr w)))) w)
| PS_ready w copy o rd wr s :
    pw_pc w = PSelect copy → allow (pm_aio (pw_mgr w)) o →
    select_ready copy o (pm_aio (pw_mgr w)) = Ret (rd, wr, s) →
    poll_step allow w (set_pc (after_ready rd wr)
      (set_mgr (Poll (pm_callbacks (pw_mgr w)) s (pm_pending (pw_mgr w))) w))
| PS_readable w fd c rd wr :
    pw_pc w = PRun (fd :: rd) wr → next_callback fd (pw_mgr w) = Ret c →
    poll_step allow w (set_pc (match c with Some ch => PIn fd ch rd wr | None => PRun rd wr end) w)
| PS_writable w fd c wr :
    pw_pc w = PRun [] (fd :: wr) → next_callback fd (pw_mgr w) = Ret c →
    poll_step allow w (set_pc (match c with Some ch => PIn fd ch [] wr | None => PRun [] wr end) w)
| PS_return w fd ch rd wr :
    pw_pc w = PIn fd ch rd wr → poll_step allow w (set_pc (PRun rd wr) w)
| PS_done w :
    pw_pc w = PRun [] [] → poll_step allow w (set_pc PTop w).

(** All threads.  A descriptor is not given a callback while a thread removes
    it.  [spurious]: whether [pthread_cond_wait] may return without a
    broadcast, as POSIX allows it to. *)
Inductive poll_sys (spurious : bool) : poll_world → poll_world → Prop :=
| PY_poll w w' : poll_step kernel_honest w w' → poll_sys spurious w w'
| PY_add w fd f ch m :
    (fd ∉ pw_waiting w) → (fd ∉ pw_woken w) → fd ≠ sa_pipe (pm_aio (pw_mgr w)) → a_flag f →
    add_callback fd f ch (pw_mgr w) = Ret m →
    poll_sys spurious w (PWorld m (pw_pc w) (pw_waiting w) (pw_woken w) (pw_gone w ∖ {[fd]}))
| PY_del w fd f m :
    fd ≠ sa_pipe (pm_aio (pw_mgr w)) → 0 ≤ fd < MAX_POLL_FDS → a_flag f →
    del_callback fd f (pw_mgr w) = Ret m →
    poll_sys spurious w (set_mgr m w)
| PY_remove w fd m :
    fd ≠ sa_pipe (pm_aio (pw_mgr w)) → 0 ≤ fd < MAX_POLL_FDS → block_remove_begin fd (pw_mgr w) = Ret m →
    poll_sys spurious w (PWorld m (pw_pc w) (fd :: pw_waiting w) (pw_woken w) (pw_gone w))
| PY_wake w fd l1 l2 :
    spurious = true → pw_waiting w = l1 ++ fd :: l2 →
    poll_sys spurious w (PWorld (pw_mgr w) (pw_pc w) (l1 ++ l2) (fd :: pw_woken w) (pw_gone w))
| PY_removed w fd l1 l2 m :
    pw_woken w = l1 ++ fd :: l2 → block_remove_end fd (pw_mgr w) = Ret m →
    poll_sys spurious w (PWorld m (pw_pc w) (pw_waiting w) (l1 ++ l2) ({[fd]} ∪ pw_gone w)).

Definition poll_init (s : SelectAIO) : poll_world := PWorld (pollmgr_new s) PTop [] [] ∅.

(** The descriptors the poll thread may still call back, from what it has
    collected. *)
Definition pc_fds (pc : poll_pc) (fd : Z) : Prop :=
  match pc with
  | PTop | PCopy => False
  | PSelect (r, w, _) => fd ∈ r ∪ w
  | PRun rd wr => fd ∈ rd ++ wr
  | PIn fd' _ rd wr => fd = fd' ∨ fd ∈ rd ++ wr
  end.

(** The descriptors that [callbacks_] is indexed with are in range. *)
Definition in_range (fd : Z) : Prop := 0 ≤ fd < MAX_POLL_FDS.
Definition watched_range (s : SelectAIO) : Prop := ∀ fd,
  ((select_watched s fd).1 = true → fd = sa_pipe s ∨ in_range fd) ∧
  ((select_watched s fd).2 = true → fd ≠ sa_pipe s ∧ in_range fd).
Definition pc_range (pipe : Z) (pc : poll_pc) : Prop :=
  match pc with
  | PTop | PCopy => True
  | PSelect (r, w, _) => ∀ fd, (fd ∈ r → fd = pipe ∨ in_range fd) ∧ (fd ∈ w → fd ≠ pipe ∧ in_range fd)
  | PRun rd wr | PIn _ _ rd wr => ∀ fd, fd ∈ rd ++ wr → in_range fd
  end.

Record poll_inv (w : poll_world) : Prop := {
  pi_watched : watched_range (pm_aio (pw_mgr w));
  pi_range : pc_range (sa_pipe (pm_aio (pw_mgr w))) (pw_pc w);
  pi_aio : select_inv (pm_aio (pw_mgr w));
  pi_waiting : ∀ fd, fd ∈ pw_waiting w →
    select_watched (pm_aio (pw_mgr w)) fd = (false, false) ∧ pm_pending (pw_mgr w) = true;
  pi_removed : ∀ fd, fd ∈ pw_woken w ∨ fd ∈ pw_gone w →
    select_watched (pm_aio (pw_mgr w)) fd = (false, false) ∧ ¬ pc_fds (pw_pc w) fd;
  pi_gone : ∀ fd, fd ∈ pw_gone w → pm_callbacks (pw_mgr w) !! fd = None;
  pi_pipe : ∀ r wr high, pw_pc w = PSelect (r, wr, high) →
    sa_pipe (pm_aio (pw_mgr w)) ∈ r ∧ 0 ≤ sa_pipe (pm_aio (pw_mgr w)) ≤ high;
  pi_bytes : pm_pending (pw_mgr w) = true →
    pw_pc w = PCopy ∨ (∃ copy, pw_pc w = PSelect copy) → 0 < sa_bytes (pm_aio (pw_mgr w)) }.


Lemma cb_index_Ret fd : cb_index fd = Ret () → 0 ≤ fd < MAX_POLL_FDS.
Proof. unfold cb_index. destruct (_ && _) eqn:E; [|done]. lia. Qed.

(** What the operations of [PollMgr] do to the descriptors that nobody
    watches. *)
Lemma add_callback_keeps fd f ch m m' :
  select_inv (pm_aio m) → fd ≠ sa_pipe (pm_aio m) → a_flag f → add_callback fd f ch m = Ret m' →
  select_inv (pm_aio m') ∧ sa_pipe (pm_aio m') = sa_pipe (pm_aio m) ∧ 0 < sa_bytes (pm_aio m') ∧
  pm_pending m' = pm_pending m ∧ pm_callbacks m' = <[fd := ch]> (pm_callbacks m) ∧ in_range fd ∧
  ∀ fd', fd' ≠ fd → select_watched (pm_aio m') fd' = select_watched (pm_aio m) fd'.
Proof.
  intros Hi Hp Hf. unfold add_callback. intros ([] & _ & (a & Ea & H)%rbind_Ret)%rbind_Ret.
  apply rbind_Ret in H as ([] & Hfd%cb_index_Ret & H). apply rbind_Ret in H as ([] & _ & [= <-]).
  destruct (select_watch_ok _ fd f Hi Hp Hfd Hf) as (s' & Es & Hi' & _ & Ho & Ep & Hb).
  cbn in Ea. rewrite Es in Ea. injection Ea as <-. by split_and!.
Qed.

Lemma unwatch_keeps fd f s b s' :
  select_inv s → fd ≠ sa_pipe s → 0 ≤ fd < MAX_POLL_FDS → a_flag f → select_unwatch fd f s = Ret (b, s') →
  select_inv s' ∧ sa_pipe s' = sa_pipe s ∧ sa_bytes s ≤ sa_bytes s' ∧
  (∀ fd', select_watched s fd' = (false, false) → select_watched s' fd' = (false, false)) ∧
  (watched_range s → watched_range s') ∧ (f = CB_RDWR → 0 < sa_bytes s' ∧ select_watched s' fd = (false, false)).
Proof.
  intros Hi Hp Hfd Hf E. destruct (select_unwatch_ok _ fd f Hi Hp Hfd Hf) as (t & Et & ? & Ew & Ho & Ept & ? & Hb).
  rewrite Et in E. injection E as _ <-. split_and!; [done..| | |].
  - intros fd' E0. destruct (decide (fd' = fd)) as [->|]; [by rewrite Ew, E0|by rewrite Ho].
  - intros Hr fd'. rewrite Ept.
    destruct (decide (fd' = fd)) as [->|]; [|rewrite Ho by done; apply Hr].
    rewrite Ew. cbn. destruct (Hr fd). split; intros [? _]%andb_true_iff; auto.
  - intros ->. split; [by apply Hb|]. rewrite Ew. unfold drop_interest. cbn. by rewrite !andb_false_r.
Qed.

Lemma del_callback_keeps fd f m m' :
  select_inv (pm_aio m) → fd ≠ sa_pipe (pm_aio m) → 0 ≤ fd < MAX_POLL_FDS → a_flag f →
  del_callback fd f m = Ret m' →
  select_inv (pm_aio m') ∧ sa_pipe (pm_aio m') = sa_pipe (pm_aio m) ∧
  sa_bytes (pm_aio m) ≤ sa_bytes (pm_aio m') ∧
  pm_pending m' = pm_pending m ∧ (∀ fd', pm_callbacks m !! fd' = None → pm_callbacks m' !! fd' = None) ∧
  (watched_range (pm_aio m) → watched_range (pm_aio m')) ∧
  ∀ fd', select_watched (pm_aio m) fd' = (false, false) → select_watched (pm_aio m') fd' = (false, false).
Proof.
  intros Hi Hp Hfd Hf. unfold del_callback. intros ([g a] & Ea & H)%rbind_Ret.
  cbn in Ea. destruct (unwatch_keeps _ _ _ _ _ Hi Hp Hfd Hf Ea) as (? & ? & ? & ? & ? & _).
  destruct g; [apply rbind_Ret in H as ([] & _ & [= <-])|injection H as <-]; cbn; split_and!; try done.
  intros fd' E. destruct (decide (fd = fd')) as [<-|]; [apply lookup_delete_eq|by rewrite lookup_delete_ne].
Qed.

Lemma ready_keeps copy o s rd wr s' :
  select_inv s → kernel_honest s o → select_ready copy o s = Ret (rd, wr, s') →
  select_inv s' ∧ sa_pipe s' = sa_pipe s ∧ (∀ fd, select_watched s' fd = select_watched s fd) ∧
  (∀ fd, fd ∈ rd ++ wr → pc_fds (PSelect copy) fd) ∧
  (pc_range (sa_pipe s) (PSelect copy) → ∀ fd, fd ∈ rd ++ wr → in_range fd).
Proof.
  destruct copy as [[r w] high]. intros Hi Ho H.
  destruct o as [r' w'| |]; [|injection H as <- <- <-; split_and!; try done; set_solver|done].
  destruct (select_ready_sound _ _ _ _ _ _ _ _ _ H Ho) as (Hr & Hw & _ & E1 & E2 & E3 & E4).
  cbn [select_ready] in H.
  edestruct (collect_ready_ok (Z.to_nat (high + 1))) as (b & E & Hb); [|rewrite E in H; injection H as _ _ <-].
  { intros Hp _. apply Ho. unfold select_keep in Hp. set_solver. }
  destruct Hi as (? & ? & ? & Hb0). split_and!; [|done|done| |].
  - split_and!; try done. by apply Hb.
  - intros fd [[Hin _]%Hr|Hin%Hw]%elem_of_app; cbn; set_solver.
  - cbn. intros Hrg fd [(Hin & _ & Hne)%Hr|Hin%Hw]%elem_of_app; apply elem_of_intersection in Hin as [Hin _].
    + by destruct (Hrg fd) as [[] _].
    + by apply Hrg.
Qed.

(** The poll thread moves on to a point where it holds no more. *)
Lemma set_pc_inv w pc :
  poll_inv w → (∀ fd, pc_fds pc fd → pc_fds (pw_pc w) fd) → pc ≠ PCopy → (∀ copy, pc ≠ PSelect copy) →
  pc_range (sa_pipe (pm_aio (pw_mgr w))) pc → poll_inv (set_pc pc w).
Proof.
  intros [Hwr Hpr Hi Hw Hr Hg Hp Hb] Hfds Hc Hs Hrange. split; cbn; try done.
  - intros fd [? H]%Hr. split; [done|]. intros H'. apply H, Hfds, H'.
  - intros r wr high E. by destruct (Hs _ E).
  - intros _ [?|[? E]]; [done|by destruct (Hs _ E)].
Qed.

Lemma poll_step_inv w w' : poll_inv w → poll_step kernel_honest w w' → poll_inv w'.
Proof.
  intros Hinv Hst. pose proof Hinv as [Hwr Hpr Hi Hw Hr Hg Hp Hb].
  destruct Hst as [w b m E Em|w E|w copy o rd wr s E Ho Es|w fd c rd wr E Ec|w fd c wr E Ec|w fd ch rd wr E|w E];
    rewrite E in Hpr, Hr, Hp, Hb.
  - unfold wait_top in Em. destruct (pm_pending (pw_mgr w)) eqn:Epend; injection Em as <- <-; cbn in *.
    + split; cbn; try done; [by intros ? ?%elem_of_nil|].
      intros fd [[H|H]%elem_of_app|H]; (split; [|by intros []]); [by apply Hw|by apply Hr; auto..].
    + split; cbn; try done; [intros fd H%Hw; naive_solver|intros; congruence].
  - split; cbn; try done; [| |by intros _ _ _ [= <- <- <-]; destruct Hi as (Ha & ? & _); split; [|apply Ha; set_solver]|].
    + intros fd. destruct (Hwr fd) as [H1 H2]. cbn in H1, H2. rewrite bool_decide_eq_true in H1, H2. done.
    + intros fd H%Hr. destruct H as [H _]. split; [done|]. unfold select_watched in H.
      injection H as H1%bool_decide_eq_false H2%bool_decide_eq_false. set_solver.
    + intros Hpend _. apply Hb; auto.
  - destruct (ready_keeps _ _ _ _ _ _ Hi Ho Es) as (Hi' & Ep & Ew & Hin & Hrg).
    assert (∀ fd, pc_fds (after_ready rd wr) fd → fd ∈ rd ++ wr) as Hafter.
    { intros fd. by destruct rd, wr. }
    assert (∀ copy, after_ready rd wr ≠ PSelect copy) by (by destruct rd, wr).
    assert (after_ready rd wr ≠ PCopy) by (by destruct rd, wr).
    split; cbn; try done; [intros fd; rewrite Ep, Ew; apply Hwr| | |intros fd Hfd%Hr; rewrite Ew; naive_solver| |].
    + unfold after_ready. specialize (Hrg Hpr). by destruct rd, wr.
    + intros fd. rewrite Ew. apply Hw.
    + intros ? ? ? ?. exfalso. naive_solver.
    + intros _. naive_solver.
  - apply set_pc_inv; [done| |by destruct c..|]; [rewrite E|]; destruct c; cbn in *; set_solver.
  - apply set_pc_inv; [done| |by destruct c..|]; [rewrite E|]; destruct c; cbn in *; set_solver.
  - apply set_pc_inv; [done| |done..]. rewrite E. cbn. auto.
  - by apply set_pc_inv.
Qed.

Lemma poll_sys_inv w w' : poll_inv w → poll_sys false w w' → poll_inv w'.
Proof.
  intros Hinv Hst. destruct Hst as [w w' Hst|w fd f ch m Hn1 Hn2 Hpi Hf E|w fd f m Hpi Hfd Hf E|w fd m Hpi Hfd E
    |w fd l1 l2 Hsp _|w fd l1 l2 m E Em]; [by eapply poll_step_inv| | | |done|];
    destruct Hinv as [Hwr Hpr Hi Hw Hr Hg Hp Hb].
  - destruct (add_callback_keeps _ _ _ _ _ Hi Hpi Hf E) as (Hi' & Ep & Hb' & Epd & Ec & Hfd & Ew).
    split; cbn; try done; rewrite ?Ep, ?Epd, ?Ec; try done.
    + intros fd'. rewrite Ep. destruct (decide (fd' = fd)) as [->|]; [by split; auto|rewrite Ew by done; apply Hwr].
    + intros fd' H. rewrite Ew by (by intros ->). by apply Hw.
    + intros fd' H. rewrite Ew by set_solver. apply Hr. set_solver.
    + intros fd' H. rewrite lookup_insert_ne by set_solver. apply Hg. set_solver.
  - destruct (del_callback_keeps _ _ _ _ Hi Hpi Hfd Hf E) as (Hi' & Ep & Hb' & Epd & Ec & Hwr' & Ew).
    split; cbn; try done; rewrite ?Ep, ?Epd; auto.
    + intros fd' [H ?]%Hw. by split; [apply Ew|].
    + intros fd' [H ?]%Hr. by split; [apply Ew|].
    + intros H1 H2. specialize (Hb H1 H2). lia.
  - unfold block_remove_begin in E. apply rbind_Ret in E as ([b a] & Ea & [= <-]). cbn in Ea.
    destruct (unwatch_keeps _ _ _ _ _ Hi Hpi Hfd ltac:(by right; right) Ea) as (Hi' & Ep & _ & Ew & Hwr' & Hrd).
    destruct (Hrd eq_refl) as [Hb' Ew']. split; cbn; try done; rewrite ?Ep; auto.
    + intros fd' [->|[H _]%Hw]%elem_of_cons; split; auto.
    + intros fd' [H ?]%Hr. by split; [apply Ew|].
  - unfold block_remove_end in Em. apply rbind_Ret in Em as ([] & _ & [= <-]).
    split; cbn; try done; intros fd' H.
    + apply Hr. rewrite E. set_solver.
    + destruct (decide (fd = fd')) as [->|]; [apply lookup_delete_eq|]. rewrite lookup_delete_ne by done.
      apply Hg. set_solver.
Qed.

Lemma poll_init_inv p : 0 ≤ p < FD_SETSIZE → poll_inv (poll_init (Select {[p]} ∅ p p 0)).
Proof.
  intros Hp. destruct (select_new_inv p Hp) as [_ Hi]. split; cbn; try done.
  - intros fd. cbn. rewrite !bool_decide_eq_true. set_solver.
  - by intros fd ?%elem_of_nil.
  - intros fd [?%elem_of_nil|?%elem_of_empty]; done.
Qed.

Lemma poll_reachable_inv s p w :
  select_new p = Ret s → rtc (poll_sys false) (poll_init s) w → poll_inv w.
Proof.
  intros Es Hrun. assert (0 ≤ p < FD_SETSIZE) as Hp.
  { unfold select_new, fd_fits in Es. destruct (_ && _) eqn:E; [lia|done]. }
  destruct (select_new_inv p Hp) as [Es' _]. rewrite Es' in Es. injection Es as <-.
  eapply (rtc_ind_r poll_inv); [by apply poll_init_inv| |exact Hrun].
  intros y z _ Hst Hinv. by eapply poll_sys_inv.
Qed.

(** C21: what the comment on [block_remove_fd] promises.  Once it has
    returned for a descriptor, and until the descriptor is given a new
    callback, the poll thread is not inside a callback of it, holds no report
    about it, and no step of any thread leads into a callback of it; this in
    every interleaving in which [pthread_cond_wait] returns only after a
    broadcast. *)
Theorem removed_fd_never_called s p w fd :
  select_new p = Ret s → rtc (poll_sys false) (poll_init s) w → fd ∈ pw_gone w →
  ¬ pc_fds (pw_pc w) fd ∧ select_watched (pm_aio (pw_mgr w)) fd = (false, false) ∧
  pm_callbacks (pw_mgr w) !! fd = None ∧
  ∀ w' ch rd wr, poll_sys false w w' → pw_pc w' ≠ PIn fd ch rd wr.
Proof.
  intros Es Hrun Hg. pose proof (poll_reachable_inv _ _ _ Es Hrun) as Hinv.
  destruct (pi_removed _ Hinv fd (or_intror Hg)) as [? Hpc].
  split_and!; [done|done|by apply (pi_gone _ Hinv)|]. intros w' ch rd wr Hst E.
  assert (∀ ch rd wr, pw_pc w ≠ PIn fd ch rd wr) as Hne by (intros ? ? ? E'; rewrite E' in Hpc; cbn in Hpc; naive_solver).
  destruct Hst as [w w' Hst| | | | |]; try (by eapply Hne).
  pose proof (pi_gone _ Hinv fd Hg) as Hc.
  destruct Hst as [| |? ? ? rd' wr'| ? ? ? ? ? E1 E2|? ? ? ? E1 E2| |]; cbn in E; try done.
  - by destruct rd', wr'.
  - rewrite E1 in Hpc. cbn in Hpc. destruct c; [injection E as <- <- <- <-|done]. set_solver.
  - rewrite E1 in Hpc. cbn in Hpc. destruct c; [injection E as <- <- <- <-|done]. set_solver.
Qed.

(** Replays a run given by its steps. *)
Ltac run_step t := eapply rtc_l; [t; try done; try (by vm_compute); try lia; by unfold a_flag; auto|]; cbn.

(** The descriptor 7 is watched, reported, called back, and another thread
    starts to remove it. *)
Lemma called_then_removed spurious : ∃ w,
  rtc (poll_sys spurious) (poll_init (Select {[3]} ∅ 3 3 0)) w ∧
  pw_pc w = PIn 7 1 [] [] ∧ pw_waiting w = [7] ∧ pw_woken w = [] ∧
  pm_pending (pw_mgr w) = true ∧ pm_callbacks (pw_mgr w) = {[7 := 1%nat]}.
Proof.
  eexists. split.
  - run_step ltac:(eapply (PY_add _ _ 7 CB_RDONLY 1); [by apply not_elem_of_nil..| | |]).
    run_step ltac:(apply PY_poll; eapply PS_top).
    run_step ltac:(apply PY_poll; eapply PS_copy).
    run_step ltac:(apply PY_poll; eapply (PS_ready _ _ _ (SelReady {[7]} ∅))).
    run_step ltac:(apply PY_poll; eapply PS_readable).
    run_step ltac:(eapply (PY_remove _ _ 7)).
    apply rtc_refl.
  - cbn. by split_and!.
Qed.

Lemma removal_run : ∃ w, rtc (poll_sys false) (poll_init (Select {[3]} ∅ 3 3 0)) w ∧ 7 ∈ pw_gone w.
Proof.
  destruct (called_then_removed false) as (w & Hrun & E1 & E2 & E3 & E4 & E5).
  eexists. split.
  - etrans; [exact Hrun|].
    run_step ltac:(apply PY_poll; eapply PS_return).
    run_step ltac:(apply PY_poll; eapply PS_done).
    eapply rtc_l; [apply PY_poll, (PS_top _ _ true (Poll (pm_callbacks (pw_mgr w)) (pm_aio (pw_mgr w)) false)); [done|]|].
    { cbn. unfold wait_top. by rewrite E4. }
    cbn. rewrite E2, E3. eapply rtc_l; [eapply (PY_removed _ _ 7 [] []); done|]. apply rtc_refl.
  - cbn. set_solver.
Qed.

Lemma removed_fd_never_called_witness : ∃ w, 7 ∈ pw_gone w ∧ ¬ pc_fds (pw_pc w) 7.
Proof.
  destruct removal_run as (w & Hrun & Hg). exists w. split; [exact Hg|].
  apply (removed_fd_never_called (Select {[3]} ∅ 3 3 0) 3 w 7 eq_refl Hrun Hg).
Defined.

(** [block_remove_fd] waits without a loop around [pthread_cond_wait]: when
    that returns spuriously, the removal returns while the poll thread is
    inside the callback. *)
Theorem spurious_wakeup_breaks_removal : ∃ w,
  rtc (poll_sys true) (poll_init (Select {[3]} ∅ 3 3 0)) w ∧ 7 ∈ pw_gone w ∧ pw_pc w = PIn 7 1 [] [].
Proof.
  destruct (called_then_removed true) as (w & Hrun & E1 & E2 & E3 & E4 & E5).
  eexists. split.
  - etrans; [exact Hrun|].
    eapply rtc_l; [by eapply (PY_wake _ _ 7 [] [])|]. cbn. rewrite E3.
    eapply rtc_l; [eapply (PY_removed _ _ 7 [] []); done|]. apply rtc_refl.
  - cbn. split; [set_solver|done].
Qed.

(** ** A removal is not left waiting *)

(** Nothing is ready but the pipe, and the pipe only when there is a byte. *)
Definition quiet (s : SelectAIO) (o : select_outcome) : Prop :=
  o = SelReady {[sa_pipe s]} ∅ ∧ 0 < sa_bytes s.

(** The poll thread gets through its callbacks. *)
Lemma loops_finish rd wr : ∀ w,
  pw_pc w = PRun rd wr → (∀ fd, fd ∈ rd ++ wr → in_range fd) →
  rtc (poll_step quiet) w (set_pc PTop w).
Proof.
  assert (∀ fd w, in_range fd → next_callback fd (pw_mgr w) = Ret (pm_callbacks (pw_mgr w) !! fd)) as Hnext.
  { intros fd w H. unfold next_callback, cb_index, in_range in *.
    by replace ((0 <=? fd) && (fd <? MAX_POLL_FDS)) with true by lia. }
  revert wr. induction rd as [|fd rd IH]; [induction wr as [|fd wr IHw]; intros w E Hin|intros wr w E Hin].
  - apply rtc_once. by apply PS_done.
  - eapply rtc_l; [eapply PS_writable, Hnext; [done|set_solver]|].
    destruct (pm_callbacks (pw_mgr w) !! fd) as [ch|].
    + eapply rtc_l; [by eapply PS_return|]. apply (IHw (set_pc (PRun [] wr) w)); set_solver.
    + apply (IHw (set_pc (PRun [] wr) w)); set_solver.
  - eapply rtc_l; [eapply PS_readable, Hnext; [done|set_solver]|].
    destruct (pm_callbacks (pw_mgr w) !! fd) as [ch|].
    + eapply rtc_l; [by eapply PS_return|]. apply (IH wr (set_pc (PRun rd wr) w)); set_solver.
    + apply (IH wr (set_pc (PRun rd wr) w)); set_solver.
Qed.

Lemma filter_none {A} (P : A → Prop) `{!∀ x, Decision (P x)} (l : list A) : (∀ x, ¬ P x) → filter P l = [].
Proof. intros Hn. induction l as [|x l IH]; [done|]. by rewrite filter_cons, decide_False by apply Hn. Qed.

Lemma select_returns w copy :
  poll_inv w → pw_pc w = PSelect copy → 0 < sa_bytes (pm_aio (pw_mgr w)) →
  ∃ m, poll_step quiet w (set_pc PTop (set_mgr m w)) ∧ pm_pending m = pm_pending (pw_mgr w).
Proof.
  intros Hinv E Hb. destruct copy as [[r wr] high].
  destruct (pi_pipe _ Hinv _ _ _ E) as [Hp Hh]. pose proof (pi_range _ Hinv) as Hrg. rewrite E in Hrg. cbn in Hrg.
  set (s := pm_aio (pw_mgr w)) in *.
  edestruct (collect_ready_ok (Z.to_nat (high + 1)) (select_keep high r {[sa_pipe s]})
    (select_keep high wr ∅) 0 [] [] s) as (b & Er & _); [done|].
  eexists (Poll (pm_callbacks (pw_mgr w)) _ (pm_pending (pw_mgr w))). split; [|done].
  eapply (PS_ready _ _ _ (SelReady {[sa_pipe s]} ∅) [] []); [done|by split|].
  cbn [select_ready]. fold s. rewrite Er. f_equal. f_equal. f_equal.
  - by apply filter_none; unfold select_keep; set_solver.
  - by apply filter_none; unfold select_keep; set_solver.
Qed.

(** A thread that waits in [block_remove_fd] is not left waiting.  In
    every reachable state the poll thread gets to the broadcast that wakes
    the waiting threads by its own steps, even if no descriptor ever becomes
    ready: when it is in [select], the byte written by the removal is in the
    pipe and the pipe is among the descriptors it selects on.  Its steps never
    abort and never index [callbacks_] out of range. *)
Theorem waiting_remover_is_woken s p w fd :
  select_new p = Ret s → rtc (poll_sys false) (poll_init s) w → fd ∈ pw_waiting w →
  ∃ w', rtc (poll_step quiet) w w' ∧ fd ∈ pw_woken w'.
Proof.
  intros Es Hrun Hfd. pose proof (poll_reachable_inv _ _ _ Es Hrun) as Hinv.
  destruct (pi_waiting _ Hinv fd Hfd) as [_ Hpend].
  assert (∀ w, pw_pc w = PTop → fd ∈ pw_waiting w → pm_pending (pw_mgr w) = true →
    ∃ w', rtc (poll_step quiet) w w' ∧ fd ∈ pw_woken w') as Htop.
  { clear. intros w E Hfd Hp. eexists. split; [apply rtc_once; eapply PS_top; [done|]|].
    - unfold wait_top. rewrite Hp. done.
    - cbn. set_solver. }
  assert (∀ w copy, poll_inv w → pw_pc w = PSelect copy → fd ∈ pw_waiting w → 
    ∃ w', rtc (poll_step quiet) w w' ∧ fd ∈ pw_woken w') as Hsel.
  { clear -Htop. intros w copy Hinv E Hfd. destruct (pi_waiting _ Hinv fd Hfd) as [_ Hpend].
    destruct (select_returns w copy Hinv E) as (m & Hst & Em); [apply (pi_bytes _ Hinv); eauto|].
    edestruct (Htop (set_pc PTop (set_mgr m w))) as (w' & Hr & Hin); [done|done|cbn; congruence|].
    exists w'. split; [by eapply rtc_l|done]. }
  pose proof (pi_range _ Hinv) as Hrg. destruct (pw_pc w) as [| |copy|rd wr|fd' ch rd wr] eqn:E; cbn in Hrg.
  - by apply Htop.
  - pose proof (PS_copy kernel_honest w E) as Hst.
    destruct (Hsel _ _ (poll_step_inv _ _ Hinv Hst) eq_refl Hfd) as (w' & Hr & Hin).
    exists w'. split; [|done]. eapply rtc_l; [by apply PS_copy|done].
  - by eapply Hsel.
  - destruct (Htop (set_pc PTop w)) as (w' & Hr & Hin); [done..|]. exists w'. split; [|done].
    etrans; [by eapply loops_finish|done].
  - destruct (Htop (set_pc PTop w)) as (w' & Hr & Hin); [done..|]. exists w'. split; [|done].
    eapply rtc_l; [by eapply PS_return|]. etrans; [by eapply (loops_finish rd wr)|done].
Qed.

Lemma waiting_remover_is_woken_witness : ∃ w, pw_waiting w = [7] ∧ pw_pc w = PIn 7 1 [] [] ∧
  ∃ w', rtc (poll_step quiet) w w' ∧ 7 ∈ pw_woken w'.
Proof.
  destruct (called_then_removed false) as (w & Hrun & E1 & E2 & _). exists w. split; [exact E2|]. split; [exact E1|].
  apply (waiting_remover_is_woken (Select {[3]} ∅ 3 3 0) 3 w 7 eq_refl Hrun).
  rewrite E2. apply list_elem_of_here.
Defined.
