(* ===== verification/Connection.v ===== *)
(** * Connections (rpc/connection.h, rpc/connection.cc)

    A connection frames messages over a stream socket: every PDU starts with
    its size in network order.  [send] writes what the socket takes and lets
    the poll thread write the rest in [write_cb]; [read_cb] collects a PDU
    from the pieces that arrive and hands it to the owner's [got_pdu].  What
    a call of [read] or [write] comes back with is an argument; the poll
    manager is any implementation of [AioMgr].  [send] is cut where it gives
    up the mutex of the connection. *)

From S2P Require Import Prelude Marshall Poll.

Definition MAX_PDU : Z := Z.shiftl 10 20.

(** [cb_buf] is the memory [buf] points to. *)
Record charbuf := Charbuf { cb_buf : option (list ascii); cb_sz : Z; cb_solong : Z }.

Definition charbuf_new : charbuf := Charbuf None 0 0.

(** [cn_this] is the address under which the poll manager knows it. *)
Record connection := Connection {
  cn_this : nat; cn_fd : Z; cn_dead : bool; cn_wpdu : charbuf; cn_rpdu : charbuf;
  cn_waiters : Z; cn_refno : Z; cn_lossy : Z }.

Definition set_dead (c : connection) : connection :=
  Connection (cn_this c) (cn_fd c) true (cn_wpdu c) (cn_rpdu c) (cn_waiters c) (cn_refno c) (cn_lossy c).
Definition set_wpdu (b : charbuf) (c : connection) : connection :=
  Connection (cn_this c) (cn_fd c) (cn_dead c) b (cn_rpdu c) (cn_waiters c) (cn_refno c) (cn_lossy c).
Definition set_rpdu (b : charbuf) (c : connection) : connection :=
  Connection (cn_this c) (cn_fd c) (cn_dead c) (cn_wpdu c) b (cn_waiters c) (cn_refno c) (cn_lossy c).
Definition set_waiters (n : Z) (c : connection) : connection :=
  Connection (cn_this c) (cn_fd c) (cn_dead c) (cn_wpdu c) (cn_rpdu c) n (cn_refno c) (cn_lossy c).

(** ** Writing and reading a PDU *)

(** [write]: a number of bytes taken, or an error. *)
Inductive write_outcome := WrN (n : nat) | WrAgain | WrError.

(** The second component is what the socket took. *)
Definition writepdu (o : write_outcome) (w : charbuf) : res (bool * list ascii * charbuf) :=
  VERIFY (0 <=? cb_solong w);;
  if cb_solong w =? cb_sz w then Ret (true, [], w) else
  match cb_buf w with
  | None => Fail UndefinedBehaviour
  | Some b =>
      b ← (if cb_solong w =? 0 then buf_memcpy b 0 (be32 (cb_sz w)) else Ret b);
      if (cb_solong w <=? cb_sz w) && (cb_sz w <=? Z.of_nat (length b)) then
        let bytes := drop (Z.to_nat (cb_solong w)) (take (Z.to_nat (cb_sz w)) b) in
        match o with
        | WrN n =>
            let put := take n bytes in
            Ret (true, put, Charbuf (Some b) (cb_sz w) (cb_solong w + Z.of_nat (length put)))
        | WrAgain => Ret (true, [], Charbuf (Some b) (cb_sz w) (cb_solong w))
        | WrError => Ret (false, [], Charbuf (Some b) 0 (-1))
        end
      else Fail UndefinedBehaviour
  end.

(** [read]: bytes (at least one), the end of the stream, or an error. *)
Inductive read_outcome := RdBytes (l : list ascii) | RdEof | RdAgain | RdError.

(** [ntohl] on four bytes, as an [int]. *)
Definition ntohl (l : list ascii) : Z :=
  s32 (of_be l).
Arguments ntohl : simpl never.

(** The first half of [readpdu]: read the size and allocate the buffer.
    [None]: return [false].  [malloc] gives memory filled with [fill] bytes,
    or a null pointer when [oom]. *)
Definition read_size (fill : ascii) (oom : bool) (o : read_outcome) (r : charbuf) : res (option charbuf) :=
  match o with
  | RdEof => Ret None
  | RdAgain => Fail VerifyFailed
  | RdError => Ret None
  | RdBytes l =>
      if negb (Z.of_nat (length l) =? sizeof_int) then Ret None else
      let sz := ntohl l in
      if MAX_PDU <? sz then Ret None else
      VERIFY (bool_decide (cb_buf r = None));;
      VERIFY (negb oom);;
      b ← buf_memcpy (replicate (Z.to_nat (u32 (sz + sizeof_int))) fill) 0 l;
      Ret (Some (Charbuf (Some b) sz sizeof_int))
  end.

(** The second half.  After the end of the stream [errno] is what an earlier
    call left in it: [stale] when that is [EAGAIN].  The kernel stores the
    bytes where it is told to. *)
Definition read_body (stale : bool) (o : read_outcome) (r : charbuf) : res (bool * charbuf) :=
  match o with
  | RdBytes l =>
      match cb_buf r with
      | None => Fail UndefinedBehaviour
      | Some b =>
          b ← buf_memcpy b (cb_solong r) l;
          Ret (true, Charbuf (Some b) (cb_sz r) (cb_solong r + Z.of_nat (length l)))
      end
  | RdAgain => Ret (true, r)
  | RdEof => if stale then Ret (true, r) else Ret (false, charbuf_new)
  | RdError => Ret (false, charbuf_new)
  end.

(** What the environment of one [readpdu] gives it. *)
Record read_env := ReadEnv {
  re_fill : ascii; re_oom : bool; re_size : read_outcome; re_stale : bool; re_body : read_outcome }.

Definition readpdu (e : read_env) (r : charbuf) : res (bool * charbuf) :=
  if cb_sz r =? 0 then
    x ← read_size (re_fill e) (re_oom e) (re_size e) r;
    match x with
    | None => Ret (false, r)
    | Some r => read_body (re_stale e) (re_body e) r
    end
  else read_body (re_stale e) (re_body e) r.

(** How many bytes the second [read] asks for: an [int] turned into a
    [size_t]. *)
Definition body_count (r : charbuf) : Z := u32 (cb_sz r - cb_solong r).

(** What [read] may come back with: at most the bytes asked for. *)
Definition size_honest (o : read_outcome) : Prop :=
  match o with RdBytes l => 0 < Z.of_nat (length l) ≤ sizeof_int | _ => True end.
Definition body_honest (o : read_outcome) (r : charbuf) : Prop :=
  match o with RdBytes l => 0 < Z.of_nat (length l) ≤ body_count r | _ => True end.

(** ** The methods *)

Section connection.
Context {A : Type} `{!AioMgr A}.
Abbreviation mgr := (PollMgr A).

(** The constructor, for the descriptor [fd]. *)
Definition connection_new (this : nat) (fd lossy : Z) (m : mgr) : res (connection * mgr) :=
  m ← add_callback fd CB_RDONLY this m;
  Ret (Connection this fd false charbuf_new charbuf_new 0 1 lossy, m).

(** [connect_to_dst]: [s] is the socket, [connected] whether [connect]
    succeeded. *)
Definition connect_to_dst (this : nat) (s : Z) (connected : bool) (lossy : Z) (m : mgr)
    : res (option connection * mgr) :=
  if negb connected then Ret (None, m) else
  '(c, m) ← connection_new this s lossy m;
  Ret (Some c, m).

(** The destructor; the result tells whether it frees a half-read PDU. *)
Definition connection_delete (c : connection) : res bool :=
  VERIFY (cn_dead c);;
  let freed := bool_decide (is_Some (cb_buf (cn_rpdu c))) in
  VERIFY (bool_decide (cb_buf (cn_wpdu c) = None));;
  Ret freed.

Definition isdead (c : connection) : bool := cn_dead c.

(** [closeconn] up to the wait in [block_remove_fd]; [None] for the early
    return. *)
Definition closeconn (c : connection) (m : mgr) : res (option (connection * mgr)) :=
  if cn_dead c then Ret None else
  let c := set_dead c in
  m ← block_remove_begin (cn_fd c) m;
  Ret (Some (c, m)).

(** [send]: entering, the condition it waits on, and the condition it waits
    on for the poll thread to finish its PDU. *)
Definition send_enter (c : connection) : connection := set_waiters (cn_waiters c + 1) c.
Definition send_blocked (c : connection) : bool :=
  negb (cn_dead c) && bool_decide (is_Some (cb_buf (cn_wpdu c))).
Definition send_incomplete (c : connection) : bool :=
  negb (cn_dead c) && (0 <=? cb_solong (cn_wpdu c)) && (cb_solong (cn_wpdu c) <? cb_sz (cn_wpdu c)).

(** The end of [send]: its result, and whether waiting senders are woken. *)
Definition send_finish (c : connection) : bool * bool * connection :=
  let ret := negb (cn_dead c) && (cb_solong (cn_wpdu c) =? cb_sz (cn_wpdu c)) in
  (ret, 0 <? cn_waiters c, set_wpdu charbuf_new c).

(** Where a call of [send] gives up the mutex: it returned, it waits for the
    poll thread, or it waits in [block_remove_fd]. *)
Inductive send_point := SReturned (ret : bool) | SWait | SRemove.

(** [send(b, sz)] from the end of its first wait.  [lose]: the random number
    is below [lossy_], so the socket is shut down; the third component of the
    result is what the socket took. *)
Definition send_take (b : list ascii) (sz : Z) (o : write_outcome) (c : connection) (m : mgr)
    : res (send_point * list ascii * connection * mgr) :=
  let c := set_waiters (cn_waiters c - 1) c in
  if cn_dead c then Ret (SReturned false, [], c, m) else
  '(ok, put, w) ← writepdu o (Charbuf (Some b) sz 0);
  let c := set_wpdu w c in
  if negb ok then
    let c := set_dead c in
    m ← block_remove_begin (cn_fd c) m;
    Ret (SRemove, put, c, m)
  else if cb_solong w =? cb_sz w then
    let '(ret, _, c) := send_finish c in
    Ret (SReturned ret, put, c, m)
  else
    m ← add_callback (cn_fd c) CB_WRONLY (cn_this c) m;
    Ret (SWait, put, c, m).

(** Whether [send] shuts the socket down before it writes. *)
Definition send_loses (random : Z) (c : connection) : bool :=
  negb (cn_lossy c =? 0) && (Z.rem random 100 <? cn_lossy c).

(** [write_cb]; the second component tells whether a sender is signalled. *)
Definition write_cb (s : Z) (o : write_outcome) (c : connection) (m : mgr)
    : res (list ascii * bool * connection * mgr) :=
  VERIFY (negb (cn_dead c));;
  VERIFY (cn_fd c =? s);;
  if cb_sz (cn_wpdu c) =? 0 then
    m ← del_callback (cn_fd c) CB_WRONLY m;
    Ret ([], false, c, m)
  else
    '(ok, put, w) ← writepdu o (cn_wpdu c);
    let c := set_wpdu w c in
    if negb ok then
      m ← del_callback (cn_fd c) CB_RDWR m;
      Ret (put, true, set_dead c, m)
    else
      VERIFY (0 <=? cb_solong w);;
      Ret (put, negb (cb_solong w <? cb_sz w), c, m).

(** [read_cb]: [got_pdu] is the owner's method, on its state. *)
Definition read_cb {W} (got_pdu : list ascii → Z → W → bool * W) (s : Z) (e : read_env)
    (c : connection) (m : mgr) (w : W) : res (bool * connection * mgr * W) :=
  VERIFY (cn_fd c =? s);;
  if cn_dead c then Ret (false, c, m, w) else
  '(succ, r) ←
    (if bool_decide (cb_buf (cn_rpdu c) = None) || (cb_solong (cn_rpdu c) <? cb_sz (cn_rpdu c))
     then readpdu e (cn_rpdu c) else Ret (true, cn_rpdu c));
  let c := set_rpdu r c in
  '(c, m) ←
    (if negb succ then m ← del_callback (cn_fd c) CB_RDWR m; Ret (set_dead c, m) else Ret (c, m));
  match cb_buf r with
  | Some b =>
      if cb_sz r =? cb_solong r then
        let '(taken, w) := got_pdu b (cb_sz r) w in
        Ret (negb succ, if taken : bool then set_rpdu charbuf_new c else c, m, w)
      else Ret (negb succ, c, m, w)
  | None => Ret (negb succ, c, m, w)
  end.
End connection.

(** ** What a size field may do *)

Lemma MAX_PDU_val : MAX_PDU = 10485760. Proof. reflexivity. Qed.

Lemma ntohl_be32 x : in_s32 x → ntohl (be32 x) = x.
Proof. intros H. unfold ntohl. rewrite of_be_be32. wrap_lia. Qed.

Lemma ntohl_range l : in_s32 (ntohl l).
Proof. unfold ntohl. wrap_lia. Qed.

Lemma memcpy_in b i p :
  0 ≤ i → i + Z.of_nat (length p) ≤ Z.of_nat (length b) →
  buf_memcpy b i p = Ret (take (Z.to_nat i) b ++ p ++ drop (Z.to_nat i + length p) b).
Proof.
  intros H1 H2. unfold buf_memcpy. by replace ((0 <=? i) && _) with true by lia.
Qed.

Lemma memcpy_out b i p :
  i < 0 ∨ Z.of_nat (length b) < i + Z.of_nat (length p) → buf_memcpy b i p = Fail UndefinedBehaviour.
Proof.
  intros H. unfold buf_memcpy. by replace ((0 <=? i) && _) with false by lia.
Qed.

Lemma memcpy_length b i p b' : buf_memcpy b i p = Ret b' → length b' = length b.
Proof.
  unfold buf_memcpy. destruct (_ && _) eqn:E; [|done]. intros [= <-].
  rewrite !length_app, length_take, length_drop. lia.
Qed.

(** C37: exactly which sizes are safe.  When a PDU announces a size, no
    honest behaviour of the socket makes [readpdu] write outside its buffer
    if the size is at least 4 or below -4; from -4 to 3 the check against
    [MAX_PDU] lets it pass and bytes that follow are stored past the end of
    the buffer. *)
Theorem readpdu_memory_safe l :
  length l = 4%nat →
  (∀ e, re_size e = RdBytes l → body_honest (re_body e) (Charbuf None (ntohl l) sizeof_int) →
    readpdu e charbuf_new ≠ Fail UndefinedBehaviour) ↔ ntohl l < -4 ∨ 4 ≤ ntohl l.
Proof.
  intros Hl. pose proof (ntohl_range l) as Hr.
  assert (∀ e, re_size e = RdBytes l → ntohl l ≤ MAX_PDU → re_oom e = false →
    readpdu e charbuf_new = rbind (buf_memcpy (replicate (Z.to_nat (u32 (ntohl l + sizeof_int))) (re_fill e)) 0 l)
      (λ b, read_body (re_stale e) (re_body e) (Charbuf (Some b) (ntohl l) sizeof_int))) as Hread.
  { intros e Ee Hs Ho. unfold readpdu, read_size. rewrite Ee, Hl, Ho. cbn -[buf_memcpy Z.ltb MAX_PDU].
    replace (MAX_PDU <? ntohl l) with false by lia. cbn -[buf_memcpy].
    by destruct (buf_memcpy _ _ _). }
  split.
  - intros Hall. destruct (decide (ntohl l < -4 ∨ 4 ≤ ntohl l)) as [|Hn]; [done|]. exfalso.
    apply (Hall (ReadEnv "x" false (RdBytes l) false (RdBytes (replicate 8 "x"%char)))); [done| |].
    { unfold body_honest, body_count, sizeof_int. cbn. wrap_lia. }
    rewrite Hread; [|done|rewrite MAX_PDU_val; lia|done]. unfold sizeof_int.
    destruct (decide (0 ≤ ntohl l)).
    + edestruct (buf_memcpy _ 0 l) as [b|] eqn:Eb; [apply memcpy_length in Eb|].
      2: { rewrite memcpy_in in Eb; [done|lia|rewrite length_replicate, Hl; wrap_lia]. }
      cbn -[buf_memcpy].
      rewrite memcpy_out; [done|]. right. rewrite Eb, length_replicate. cbn. wrap_lia.
    + rewrite memcpy_out; [done|]. rewrite length_replicate, Hl. right. wrap_lia.
  - intros Hok e Ee Hb. destruct (Z.ltb_spec MAX_PDU (ntohl l)) as [Hs|Hs].
    { unfold readpdu, read_size. rewrite Ee, Hl. cbn -[Z.ltb MAX_PDU].
      by replace (MAX_PDU <? ntohl l) with true by lia. }
    destruct (re_oom e) eqn:Eo.
    { unfold readpdu, read_size. rewrite Ee, Hl, Eo. cbn -[Z.ltb MAX_PDU].
      by replace (MAX_PDU <? ntohl l) with false by lia. }
    rewrite Hread by done. unfold sizeof_int in *.
    assert (u32 (ntohl l + 4) = if decide (ntohl l < 0) then 2 ^ 32 + ntohl l + 4 else ntohl l + 4) as Eu.
    { destruct (decide (ntohl l < 0)); rewrite MAX_PDU_val in Hs; wrap_lia. }
    rewrite Eu. set (b0 := replicate _ _). assert (length b0 = Z.to_nat (if decide (ntohl l < 0)
      then 2 ^ 32 + ntohl l + 4 else ntohl l + 4)) as Eb0 by apply length_replicate.
    destruct (buf_memcpy b0 0 l) as [b|] eqn:Eb; [apply memcpy_length in Eb|].
    2: { rewrite memcpy_in in Eb; [done|lia|]. rewrite Eb0, Hl. destruct (decide _); wrap_lia. }
    cbn [rbind]. unfold read_body. destruct (re_body e) as [p| | |] eqn:Ep; try done; [|by destruct (re_stale e)].
    cbn [cb_buf cb_solong]. rewrite memcpy_in; [done|lia|].
    rewrite Eb, Eb0. unfold body_honest, body_count in Hb.
    cbn [cb_sz cb_solong] in Hb. assert (u32 (ntohl l - 4) ≤ if decide (ntohl l < 0) then 2 ^ 32 + ntohl l - 4 else ntohl l - 4).
    { destruct (decide (ntohl l < 0)); rewrite MAX_PDU_val in Hs; wrap_lia. }
    destruct (decide (ntohl l < 0)); wrap_lia.
Qed.

Lemma readpdu_memory_safe_witness :
  (∀ e, re_size e = RdBytes (be32 2) → body_honest (re_body e) (Charbuf None (ntohl (be32 2)) sizeof_int) →
    readpdu e charbuf_new ≠ Fail UndefinedBehaviour) ↔ ntohl (be32 2) < -4 ∨ 4 ≤ ntohl (be32 2).
Proof. apply (readpdu_memory_safe (be32 2)). reflexivity. Defined.

(** ** Two ends of a stream *)

(** What [send(b, sz)] puts on the stream. *)
Definition frame (b : list ascii) (sz : Z) : list ascii := be32 sz ++ drop 4 (take (Z.to_nat sz) b).

(** The bytes one [read_cb] takes from the socket. *)
Definition outcome_bytes (o : read_outcome) : list ascii := match o with RdBytes l => l | _ => [] end.
Definition consumed (e : read_env) (r : charbuf) : list ascii :=
  if bool_decide (cb_buf r = None) || (cb_solong r <? cb_sz r) then
    if cb_sz r =? 0 then
      outcome_bytes (re_size e) ++
      match read_size (re_fill e) (re_oom e) (re_size e) r with
      | Ret (Some _) => outcome_bytes (re_body e)
      | _ => []
      end
    else outcome_bytes (re_body e)
  else [].

(** The calls of [read] return no more than they were asked for. *)
Definition env_honest (e : read_env) (r : charbuf) : Prop :=
  size_honest (re_size e) ∧
  if cb_sz r =? 0 then
    match read_size (re_fill e) (re_oom e) (re_size e) r with
    | Ret (Some r) => body_honest (re_body e) r
    | _ => True
    end
  else body_honest (re_body e) r.

Section link.
Context {A : Type} `{!AioMgr A}.

(** One direction of a stream between [lk_tx] and [lk_rx]: the bytes on their
    way, the PDUs that [send] took, those for which it returned [true], and
    those that [got_pdu] consumed.  [lk_point]: where the thread is that
    owns [wpdu_]. *)
Record link := Link {
  lk_tx : connection; lk_txm : PollMgr A; lk_point : option send_point; lk_wire : list ascii;
  lk_rx : connection; lk_rxm : PollMgr A;
  lk_taken : list (list ascii); lk_true : list (list ascii); lk_got : list (list ascii) }.

Definition with_tx (c : connection) (m : PollMgr A) (l : link) : link :=
  Link c m (lk_point l) (lk_wire l) (lk_rx l) (lk_rxm l) (lk_taken l) (lk_true l) (lk_got l).

(** The owner of the receiving end consumes a PDU, or not. *)
Definition record_pdu (ans : bool) (b : list ascii) (sz : Z) (got : list (list ascii))
    : bool * list (list ascii) :=
  (ans, if ans then got ++ [take (Z.to_nat sz) b] else got).

(** The point the mutex is given up at, if any. *)
Definition held (p : send_point) : option send_point :=
  match p with SReturned _ => None | _ => Some p end.
Definition returned_true (p : send_point) (f : list ascii) : list (list ascii) :=
  match p with SReturned true => [f] | _ => [] end.

Inductive link_step : link → link → Prop :=
| LS_enter l : link_step l (with_tx (send_enter (lk_tx l)) (lk_txm l) l)
| LS_send l b sz random o p put c m :
    sizeof_int ≤ sz ≤ Z.of_nat (length b) → in_s32 sz →
    send_blocked (lk_tx l) = false → (send_loses random (lk_tx l) = true → o = WrError) →
    send_take b sz o (lk_tx l) (lk_txm l) = Ret (p, put, c, m) →
    link_step l
      (if cn_dead (lk_tx l) then with_tx c m l else
       Link c m (held p) (lk_wire l ++ put) (lk_rx l) (lk_rxm l)
         (lk_taken l ++ [frame b sz]) (lk_true l ++ returned_true p (frame b sz)) (lk_got l))
| LS_write l s o put sig c m :
    write_cb s o (lk_tx l) (lk_txm l) = Ret (put, sig, c, m) →
    link_step l
      (Link c m (lk_point l) (lk_wire l ++ put) (lk_rx l) (lk_rxm l) (lk_taken l) (lk_true l) (lk_got l))
| LS_finish l w ret wake c m :
    lk_point l = Some SWait ∧ send_incomplete (lk_tx l) = false ∧ m = lk_txm l ∨
    lk_point l = Some SRemove ∧ block_remove_end (cn_fd (lk_tx l)) (lk_txm l) = Ret m →
    send_finish (lk_tx l) = (ret, wake, c) → cb_buf (cn_wpdu (lk_tx l)) = Some w →
    link_step l
      (Link c m None (lk_wire l) (lk_rx l) (lk_rxm l) (lk_taken l)
         (lk_true l ++ returned_true (SReturned ret) (take (Z.to_nat (cb_sz (cn_wpdu (lk_tx l)))) w)) (lk_got l))
| LS_close l c m :
    closeconn (lk_tx l) (lk_txm l) = Ret (Some (c, m)) → link_step l (with_tx c m l)
| LS_tx_read l s e {W} (got_pdu : list ascii → Z → W → bool * W) w sig c m w' :
    read_cb got_pdu s e (lk_tx l) (lk_txm l) w = Ret (sig, c, m, w') → link_step l (with_tx c m l)
| LS_read l s e ans sig c m got wire :
    lk_wire l = consumed e (cn_rpdu (lk_rx l)) ++ wire → env_honest e (cn_rpdu (lk_rx l)) →
    read_cb (record_pdu ans) s e (lk_rx l) (lk_rxm l) (lk_got l) = Ret (sig, c, m, got) →
    link_step l
      (Link (lk_tx l) (lk_txm l) (lk_point l) (if cn_dead (lk_rx l) then lk_wire l else wire) c m
        (lk_taken l) (lk_true l) got)
| LS_rx_close l c m :
    closeconn (lk_rx l) (lk_rxm l) = Ret (Some (c, m)) →
    link_step l (Link (lk_tx l) (lk_txm l) (lk_point l) (lk_wire l) c m (lk_taken l) (lk_true l) (lk_got l)).

(** Two fresh connections. *)
Definition fresh (c : connection) : Prop :=
  cn_dead c = false ∧ cn_wpdu c = charbuf_new ∧ cn_rpdu c = charbuf_new.
Definition link_init (l : link) : Prop :=
  fresh (lk_tx l) ∧ fresh (lk_rx l) ∧ lk_point l = None ∧ lk_wire l = [] ∧
  lk_taken l = [] ∧ lk_true l = [] ∧ lk_got l = [].
End link.
Arguments link A : clear implicits.

(** ** The invariant of a stream *)

Definition frame_ok (f : list ascii) : Prop :=
  4 ≤ Z.of_nat (length f) < 2 ^ 31 ∧ take 4 f = be32 (Z.of_nat (length f)).

Lemma length_frame b sz : sizeof_int ≤ sz ≤ Z.of_nat (length b) → Z.of_nat (length (frame b sz)) = sz.
Proof.
  unfold sizeof_int, frame. intros H. rewrite length_app, length_be32, length_drop, length_take. lia.
Qed.

Lemma frame_is_ok b sz : sizeof_int ≤ sz ≤ Z.of_nat (length b) → in_s32 sz → frame_ok (frame b sz).
Proof.
  intros H Hs. unfold frame_ok. rewrite length_frame by done. split; [unfold sizeof_int in H; wrap_lia|].
  unfold frame. by rewrite take_app_le, (take_ge (be32 sz) 4) by (by rewrite length_be32).
Qed.

Lemma frame_again b f :
  frame_ok f → take (length f) b = f → frame b (Z.of_nat (length f)) = f.
Proof.
  intros [_ H4] Hf. unfold frame. rewrite Nat2Z.id, Hf, <- H4. apply take_drop.
Qed.

Lemma take_min_length {A} n (l : list A) : take (n `min` length l) l = take n l.
Proof.
  destruct (decide (n ≤ length l)%nat); [by rewrite Nat.min_l|].
  rewrite Nat.min_r, !take_ge by lia. done.
Qed.

(** What [writepdu] does to a PDU of which [solong] bytes are written. *)
Lemma writepdu_ok o b sz solong f :
  sizeof_int ≤ sz ≤ Z.of_nat (length b) → 0 ≤ solong ≤ sz →
  f = (if solong =? 0 then frame b sz else take (Z.to_nat sz) b) →
  (∃ put b', writepdu o (Charbuf (Some b) sz solong) =
      Ret (true, put, Charbuf (Some b') sz (solong + Z.of_nat (length put))) ∧
    take (Z.to_nat sz) b' = f ∧ sz ≤ Z.of_nat (length b') ∧
    drop (Z.to_nat solong) f = put ++ drop (Z.to_nat (solong + Z.of_nat (length put))) f ∧
    solong + Z.of_nat (length put) ≤ sz) ∨
  (∃ b', writepdu o (Charbuf (Some b) sz solong) = Ret (false, [], Charbuf (Some b') 0 (-1))).
Proof.
  unfold sizeof_int. intros Hsz Hso Hf. unfold writepdu. cbn [cb_solong cb_sz cb_buf].
  rewrite VERIFY_true by lia. cbn [rbind]. destruct (Z.eqb_spec solong sz) as [->|Hne].
  { left. exists [], b. replace (sz =? 0) with false in Hf by lia. cbn [length app].
    rewrite Z.add_0_r. split_and!; [done|by subst|lia|done|lia]. }
  assert (∃ b', (if solong =? 0 then buf_memcpy b 0 (be32 sz) else Ret b) = Ret b' ∧
    length b' = length b ∧ take (Z.to_nat sz) b' = f) as (b' & -> & El & Et).
  { destruct (solong =? 0); [|by exists b].
    rewrite memcpy_in by (rewrite ?length_be32; lia). rewrite length_be32. cbn [Z.to_nat Nat.add].
    rewrite take_0. cbn [app]. eexists. split; [done|]. rewrite length_app, length_be32, length_drop.
    split; [lia|]. subst f. unfold frame. rewrite take_app_ge by (rewrite length_be32; lia).
    rewrite length_be32, take_drop_commute. do 3 f_equal. lia. }
  cbn [rbind]. rewrite El. replace (_ && _) with true by lia. rewrite Et.
  assert (Z.of_nat (length f) = sz) as Elf by (rewrite <- Et, length_take; lia).
  destruct o as [n| |]; [left..|right]; [| |by eauto].
  - eexists _, b'. split; [done|]. split_and!; [done|lia| |].
    + set (k := length (take n (drop (Z.to_nat solong) f))).
      rewrite <- (take_drop k (drop (Z.to_nat solong) f)) at 1.
      rewrite drop_drop. f_equal; [|f_equal; lia].
      subst k. rewrite length_take. apply take_min_length.
    + rewrite length_take, length_drop. lia.
  - exists [], b'. cbn [length app]. rewrite Z.add_0_r. split_and!; [done|done|lia|done|lia].
Qed.

(** The part of the PDU that is being read. *)
Definition part (r : charbuf) : list ascii :=
  match cb_buf r with Some b => take (Z.to_nat (cb_solong r)) b | None => [] end.

(** The buffer holds the beginning of the frame [f]. *)
Definition reading (f : list ascii) (r : charbuf) : Prop :=
  ∃ b, cb_buf r = Some b ∧ cb_sz r = Z.of_nat (length f) ∧ sizeof_int ≤ cb_solong r ≤ cb_sz r ∧
    Z.of_nat (length b) = cb_sz r + 4 ∧ part r = take (Z.to_nat (cb_solong r)) f.

Definition rx_ok (later : list (list ascii)) (r : charbuf) : Prop :=
  r = charbuf_new ∨ ∃ f later', later = f :: later' ∧ reading f r.

Lemma read_body_ok stale o f r rest more succ r' :
  frame_ok f → reading f r → body_honest o r →
  part r ++ outcome_bytes o ++ rest = f ++ more → read_body stale o r = Ret (succ, r') →
  if succ then reading f r' ∧ part r' = part r ++ outcome_bytes o else r' = charbuf_new.
Proof.
  intros [Hf _] Hrd Hb Heq. destruct Hrd as (b & Eb & Es & Hso & El & Ep).
  unfold read_body. destruct o as [l| | |]; cbn [outcome_bytes app] in *; rewrite ?Eb.
  - unfold body_honest, body_count in Hb. unfold sizeof_int in Hso.
    assert (Z.of_nat (length l) ≤ cb_sz r - cb_solong r) as Hl by (rewrite Es in *; wrap_lia).
    rewrite memcpy_in by lia. intros [= <- <-].
    assert (part (Charbuf (Some (take (Z.to_nat (cb_solong r)) b ++ l ++ drop (Z.to_nat (cb_solong r) + length l) b))
      (cb_sz r) (cb_solong r + Z.of_nat (length l))) = part r ++ l) as Ep'.
    { unfold part. rewrite Eb. cbn. rewrite (assoc_L (++)). rewrite take_app_le.
      - apply take_ge. rewrite length_app, length_take. lia.
      - rewrite length_app, length_take. lia. }
    split; [|done]. eexists. cbn [cb_buf cb_sz cb_solong]. split_and!; [done|done|unfold sizeof_int; lia|lia| |].
    { rewrite !length_app, length_take, length_drop. lia. }
    rewrite Ep'. apply (f_equal (take (Z.to_nat (cb_solong r + Z.of_nat (length l))))) in Heq.
    rewrite (assoc_L (++)), take_app_le in Heq.
    2: { rewrite length_app, Ep, length_take. lia. }
    rewrite (take_app_le f) in Heq by lia. rewrite <- Heq. symmetry. apply take_ge.
    rewrite length_app, Ep, length_take. lia.
  - destruct stale; intros [= <- <-]; [|done]. rewrite app_nil_r. split; [|done]. by exists b.
  - intros [= <- <-]. rewrite app_nil_r. split; [|done]. by exists b.
  - by intros [= <- <-].
Qed.

(** What is read when nothing of a PDU was read yet. *)
Lemma read_size_ok fill oom o later u r' :
  Forall frame_ok later → size_honest o → outcome_bytes o ++ u = mjoin later →
  read_size fill oom o charbuf_new = Ret (Some r') →
  ∃ f later', later = f :: later' ∧ reading f r' ∧ part r' = outcome_bytes o.
Proof.
  intros Hok Hh Heq. unfold read_size. destruct o as [l| | |]; try done. cbn [outcome_bytes] in Heq.
  destruct (Z.eqb_spec (Z.of_nat (length l)) sizeof_int) as [Hl|]; [|done]. cbn [negb]. unfold sizeof_int in Hl.
  destruct later as [|f later]; [by destruct l|]. apply Forall_cons in Hok as [[Hf H4] _].
  assert (l = be32 (Z.of_nat (length f))) as ->.
  { rewrite <- H4. apply (f_equal (take 4)) in Heq. cbn [mjoin list_join] in Heq.
    rewrite (take_app_le l), (take_app_le f), (take_ge l) in Heq by lia. done. }
  rewrite ntohl_be32 by wrap_lia. destruct (Z.ltb_spec MAX_PDU (Z.of_nat (length f))) as [|Hs]; [done|].
  rewrite MAX_PDU_val in Hs.
  intros ([] & _ & ([] & _ & (b & Eb & [= <-])%rbind_Ret)%rbind_Ret)%rbind_Ret. exists f, later. split; [done|]. pose proof (memcpy_length _ _ _ _ Eb) as Elb.
  rewrite length_replicate in Elb. rewrite memcpy_in in Eb by (rewrite ?length_replicate, ?length_be32; unfold sizeof_int; wrap_lia).
  cbn [Z.to_nat Nat.add] in Eb. rewrite take_0 in Eb. injection Eb as Eb.
  assert (part (Charbuf (Some b) (Z.of_nat (length f)) sizeof_int) = be32 (Z.of_nat (length f))) as Ep.
  { subst b. unfold part, sizeof_int. done. }
  split; [|done]. exists b. cbn [cb_buf cb_sz cb_solong]. unfold sizeof_int in *.
  split_and!; [done|done|lia|lia|rewrite Elb; wrap_lia|]. rewrite Ep. symmetry. exact H4.
Qed.

Lemma readpdu_stream later e r wire u succ r' :
  Forall frame_ok later → rx_ok later r → env_honest e r →
  (cb_buf r = None ∨ cb_solong r < cb_sz r) →
  part r ++ consumed e r ++ wire ++ u = mjoin later → readpdu e r = Ret (succ, r') →
  if succ then rx_ok later r' ∧ part r' = part r ++ consumed e r else r' = charbuf_new.
Proof.
  intros Hok Hrx [Hs Hb] Hmore Heq. unfold readpdu, consumed in *.
  assert (bool_decide (cb_buf r = None) || (cb_solong r <? cb_sz r) = true) as Em.
  { destruct Hmore as [->|]; [done|]. apply orb_true_iff. right. lia. }
  rewrite Em in *. destruct Hrx as [->|(f & later' & -> & Hrd)].
  - cbn [cb_sz charbuf_new Z.eqb] in *.
    intros (x & Ex & H)%rbind_Ret. rewrite Ex in Hb, Heq |- *. destruct x as [r1|].
    + assert (∃ f later', later = f :: later' ∧ reading f r1 ∧ part r1 = outcome_bytes (re_size e))
        as (f & later' & -> & Hrd & Ep).
      { eapply read_size_ok; [done|done| |done]. rewrite <- Heq. cbn [part cb_buf charbuf_new app].
        rewrite <- (assoc_L (++)). done. }
      pose proof Hok as [Hf _]%Forall_cons.
      eapply (read_body_ok _ _ f r1 (wire ++ u) (mjoin later')) in H; [|done..|].
      * destruct succ; [|done]. destruct H as [H1 H2]. split; [right; by exists f, later'|]. by rewrite H2, Ep.
      * rewrite Ep. cbn [part cb_buf charbuf_new app] in Heq. rewrite <- !(assoc_L (++)) in Heq. done.
    + by injection H as <- <-.
  - pose proof Hok as [[Hf Hf4] _]%Forall_cons. pose proof Hrd as (b & Eb & Es & _).
    replace (cb_sz r =? 0) with false in * by lia. intros H.
    eapply (read_body_ok _ _ f r (wire ++ u) (mjoin later')) in H; [|done..].
    destruct succ; [|done]. destruct H as [H1 H2]. split; [right; by exists f, later'|done].
Qed.

(** The bytes: [u] is what [send] took and has not written; all but the last
    PDU, [tail], are written in full. *)
Definition data_inv (taken acked got : list (list ascii)) (wire : list ascii) (rx : connection)
    (u : list ascii) (complete tail : list (list ascii)) : Prop :=
  taken = complete ++ tail ∧ (length tail ≤ 1)%nat ∧ (∃ x, mjoin tail = x ++ u) ∧
  acked `sublist_of` complete ∧ Forall frame_ok taken ∧
  ∃ later, taken = got ++ later ∧
    (cn_dead rx = false → part (cn_rpdu rx) ++ wire ++ u = mjoin later ∧ rx_ok later (cn_rpdu rx)).

Section data.
Implicit Types taken acked got complete tail : list (list ascii).

Lemma data_take taken acked got wire rx complete f :
  data_inv taken acked got wire rx [] complete [] → frame_ok f →
  data_inv (taken ++ [f]) acked got wire rx f complete [f].
Proof.
  intros (-> & _ & _ & Htr & Hok & later & El & Hrx) Hf. rewrite app_nil_r in *.
  split_and!; [done|done|exists []; cbn; by rewrite app_nil_r|done|by apply Forall_app_2; [|apply Forall_singleton]|].
  exists (later ++ [f]). split; [by rewrite El, (assoc_L (++))|]. intros Hd.
  destruct (Hrx Hd) as [E Hr]. rewrite ?app_nil_r in E. rewrite join_app, <- E. cbn.
  rewrite app_nil_r, <- (assoc_L (++)). split; [done|].
  destruct Hr as [?|(g & l' & -> & ?)]; [by left|right]. by exists g, (l' ++ [f]).
Qed.

Lemma data_put taken acked got wire rx put u complete tail :
  data_inv taken acked got wire rx (put ++ u) complete tail →
  data_inv taken acked got (wire ++ put) rx u complete tail.
Proof.
  intros (Et & Hl & [x Ex] & Htr & Hok & later & El & Hrx).
  split_and!; [done|done|exists (x ++ put); by rewrite Ex, (assoc_L (++))|done|done|].
  exists later. split; [done|]. intros Hd. destruct (Hrx Hd) as [E Hr]. by rewrite <- (assoc_L (++)).
Qed.

Lemma data_done taken acked got wire rx complete f :
  data_inv taken acked got wire rx [] complete [f] →
  data_inv taken (acked ++ [f]) got wire rx [] (complete ++ [f]) [].
Proof.
  intros (Et & _ & _ & Htr & Hok & Hlater).
  split_and!; [by rewrite app_nil_r|cbn; lia|by exists []|by apply sublist_app|done|done].
Qed.

(** The receiver dies, or its send side changes. *)
Lemma data_rx taken acked got wire rx rx' u complete tail :
  data_inv taken acked got wire rx u complete tail →
  (cn_dead rx' = false → cn_dead rx = false ∧ cn_rpdu rx' = cn_rpdu rx) →
  data_inv taken acked got wire rx' u complete tail.
Proof.
  intros (Et & Hl & Hx & Htr & Hok & later & El & Hrx) H. split_and!; [done..|].
  exists later. split; [done|]. intros Hd. destruct (H Hd) as [Hd' ->]. by apply Hrx.
Qed.
End data.

Section link_inv.
Context {A : Type} `{!AioMgr A}.

Lemma data_read taken acked wire u complete tail got got' (rx c : connection) (mg m : PollMgr A) ans s e sig :
  data_inv taken acked got (consumed e (cn_rpdu rx) ++ wire) rx u complete tail →
  env_honest e (cn_rpdu rx) → cn_dead rx = false →
  read_cb (record_pdu ans) s e rx mg got = Ret (sig, c, m, got') →
  data_inv taken acked got' wire c u complete tail.
Proof.
  intros (Et & Hl & Hx & Htr & Hok & later & El & Hrx) He Hd. destruct (Hrx Hd) as [E Hr].
  assert (Forall frame_ok later) as Hlater by (rewrite El in Hok; by apply Forall_app in Hok as [_ ?]).
  unfold read_cb. rewrite Hd. intros ([] & _ & ([succ r] & Er & H)%rbind_Ret)%rbind_Ret.
  apply rbind_Ret in H as ([c1 m1] & Ec & H).
  assert (if succ then rx_ok later r ∧ part r = part (cn_rpdu rx) ++ consumed e (cn_rpdu rx) else r = charbuf_new) as Hr'.
  { destruct (bool_decide (cb_buf (cn_rpdu rx) = None) || (cb_solong (cn_rpdu rx) <? cb_sz (cn_rpdu rx))) eqn:Em.
    - apply (readpdu_stream later e (cn_rpdu rx) wire u succ r Hlater Hr He); [|rewrite <- E; by rewrite <- !(assoc_L (++))|exact Er].
      apply orb_true_iff in Em as [Em%bool_decide_eq_true|Em]; [by left|right; lia].
    - injection Er as <- <-. split; [done|]. unfold consumed. rewrite Em. by rewrite app_nil_r. }
  destruct succ.
  - cbn [negb] in Ec. injection Ec as <- <-. destruct Hr' as [Hr' Ep].
    assert (part r ++ wire ++ u = mjoin later) as E' by (by rewrite Ep, <- E, <- !(assoc_L (++))).
    destruct Hr' as [->|(f & later' & -> & Hrd)].
    { cbn in H. injection H as _ <- _ <-. split_and!; [done..|]. exists later. split; [done|]. intros _.
      cbn. split; [done|by left]. }
    pose proof Hrd as (b & Eb & Es & Hso & Elb & Epf). rewrite Eb in H.
    destruct (Z.eqb_spec (cb_sz r) (cb_solong r)) as [Esz|].
    2: { injection H as _ <- _ <-. split_and!; [done..|]. exists (f :: later'). split; [done|]. intros _.
      cbn [set_rpdu cn_rpdu]. split; [done|]. right. by exists f, later'. }
    cbn [record_pdu] in H. destruct ans; injection H as _ <- _ <-.
    + assert (take (Z.to_nat (cb_sz r)) b = f) as Ef.
      { unfold part in Epf. rewrite Eb, <- Esz in Epf. rewrite Epf. apply take_ge. lia. }
      split_and!; [done..|]. exists later'. rewrite Ef. split; [by rewrite El, <- (assoc_L (++))|]. intros _.
      cbn [set_rpdu cn_rpdu]. split; [|by left]. cbn [part charbuf_new cb_buf app].
      rewrite Epf, <- Esz, Es, Nat2Z.id, firstn_all in E'. by apply (inj (app f)) in E'.
    + split_and!; [done..|]. exists (f :: later'). split; [done|]. intros _.
      cbn [set_rpdu cn_rpdu]. split; [done|]. right. by exists f, later'.
  - subst r. cbn [negb] in Ec. apply rbind_Ret in Ec as (m2 & _ & [= <- <-]). cbn in H. injection H as _ <- _ <-.
    split_and!; [done..|]. by exists later.
Qed.

(** The sending end: what is left of the PDU in [wpdu_]. *)
Definition tx_ok (p : option send_point) (c : connection) (u : list ascii) (tail : list (list ascii)) : Prop :=
  match p with
  | None => cn_wpdu c = charbuf_new ∧ (cn_dead c = false → tail = [])
  | Some SWait =>
      ∃ b, cb_buf (cn_wpdu c) = Some b ∧
        (cn_dead c = false → ∃ f, tail = [f] ∧ cb_sz (cn_wpdu c) = Z.of_nat (length f) ∧
          0 ≤ cb_solong (cn_wpdu c) ≤ cb_sz (cn_wpdu c) ∧ (length f ≤ length b)%nat ∧
          take (length f) b = f ∧ u = drop (Z.to_nat (cb_solong (cn_wpdu c))) f)
  | Some SRemove => cn_dead c = true ∧ is_Some (cb_buf (cn_wpdu c))
  | Some (SReturned _) => False
  end.

Definition link_inv (l : link A) : Prop :=
  ∃ u complete tail,
    data_inv (lk_taken l) (lk_true l) (lk_got l) (lk_wire l) (lk_rx l) u complete tail ∧
    tx_ok (lk_point l) (lk_tx l) u tail.

Lemma tx_ok_dead p c c' u tail :
  tx_ok p c u tail → cn_wpdu c' = cn_wpdu c → (cn_dead c' = false → cn_dead c = false) → tx_ok p c' u tail.
Proof.
  intros H E Hd. destruct p as [[r| |]|]; cbn in *; rewrite ?E.
  - done.
  - destruct H as (b & Eb & H). eauto.
  - destruct H as [H ?]. split; [|done]. destruct (cn_dead c'); [done|]. by rewrite Hd in H.
  - destruct H. eauto.
Qed.

Lemma read_cb_keeps_wpdu {W} (g : list ascii → Z → W → bool * W) s e c (m : PollMgr A) w sig c' m' w' :
  read_cb g s e c m w = Ret (sig, c', m', w') →
  cn_wpdu c' = cn_wpdu c ∧ (cn_dead c' = false → cn_dead c = false).
Proof.
  unfold read_cb. intros ([] & _ & H)%rbind_Ret. destruct (cn_dead c) eqn:Hd.
  { injection H as _ <- _ _. split; [done|congruence]. }
  apply rbind_Ret in H as ([succ r] & _ & H). apply rbind_Ret in H as ([c1 m1] & Ec & H).
  split; [|done]. assert (cn_wpdu c1 = cn_wpdu c) as <-.
  { destruct succ; cbn [negb] in Ec; [by injection Ec as <- _|]. by apply rbind_Ret in Ec as (? & _ & [= <- _]). }
  destruct (cb_buf r); [|by injection H as _ <- _ _]. destruct (_ =? _); [|by injection H as _ <- _ _].
  destruct (g _ _ _) as [t w1]. injection H as _ <- _ _. by destruct t.
Qed.

Lemma closeconn_dies c (m : PollMgr A) c' m' :
  closeconn c m = Ret (Some (c', m')) → c' = set_dead c.
Proof.
  unfold closeconn. destruct (cn_dead c); [done|]. by intros (m1 & _ & [= <- _])%rbind_Ret.
Qed.

(** A PDU is taken over by [send]. *)
Lemma send_take_inv taken acked got wire rx complete tail u b sz o c (m : PollMgr A) p put c' m' :
  sizeof_int ≤ sz ≤ Z.of_nat (length b) → in_s32 sz → cn_dead c = false →
  data_inv taken acked got wire rx u complete tail → tail = [] →
  send_take b sz o c m = Ret (p, put, c', m') →
  ∃ u' complete' tail',
    data_inv (taken ++ [frame b sz]) (acked ++ returned_true p (frame b sz)) got (wire ++ put) rx u' complete' tail' ∧
    tx_ok (held p) c' u' tail'.
Proof.
  intros Hsz Hs Hd Hdata -> H. assert (u = []) as ->.
  { destruct Hdata as (_ & _ & [x E] & _). cbn in E. by destruct x, u. }
  apply (data_take _ _ _ _ _ _ (frame b sz)) in Hdata; [|by apply frame_is_ok].
  pose proof (length_frame b sz Hsz) as Hlen. unfold sizeof_int in *.
  unfold send_take in H. cbn [cn_dead set_waiters] in H. rewrite Hd in H.
  destruct (writepdu_ok o b sz 0 (frame b sz)) as [(put' & b' & Ew & Et & Elb & Edrop & Hle)|(b' & Ew)]; [done|lia|done| |];
    rewrite Ew in H; cbn [rbind negb] in H; rewrite ?Z.add_0_l in *.
  - rewrite drop_0 in Edrop. cbn [cb_solong cb_sz] in H.
    destruct (Z.eqb_spec (Z.of_nat (length put')) sz) as [E|E].
    + cbn -[set_wpdu set_waiters] in H. injection H as <- <- <- _. rewrite Hd. cbn [negb andb].
      replace (Z.of_nat (length put') =? sz) with true by lia. cbn [returned_true held].
      assert (frame b sz = put') as Ef. { rewrite Edrop, drop_ge by lia. apply app_nil_r. }
      exists [], (complete ++ [frame b sz]), []. split; [|by split].
      rewrite <- Ef. apply data_done, (data_put _ _ _ _ _ (frame b sz) []). by rewrite app_nil_r.
    + apply rbind_Ret in H as (m1 & _ & [= <- <- <- _]). cbn [returned_true held]. rewrite app_nil_r.
      exists (drop (Z.to_nat (Z.of_nat (length put'))) (frame b sz)), complete, [frame b sz].
      split; [apply data_put; by rewrite <- Edrop|]. cbn. exists b'. split; [done|]. intros _.
      exists (frame b sz). rewrite Nat2Z.id. split_and!; [done|lia|lia|lia|lia| |done].
      rewrite <- Et at 2. f_equal. lia.
  - apply rbind_Ret in H as (m1 & _ & [= <- <- <- _]). cbn [returned_true held]. rewrite !app_nil_r.
    exists (frame b sz), complete, [frame b sz]. split; [done|]. cbn. by eauto.
Qed.

(** The poll thread writes more of it. *)
Lemma write_cb_inv taken acked got wire rx complete tail u p s o c (m : PollMgr A) put sig c' m' :
  data_inv taken acked got wire rx u complete tail → tx_ok p c u tail →
  write_cb s o c m = Ret (put, sig, c', m') →
  ∃ u', data_inv taken acked got (wire ++ put) rx u' complete tail ∧ tx_ok p c' u' tail.
Proof.
  intros Hdata Htx. unfold write_cb. intros ([] & Hd%VERIFY_Ret & H)%rbind_Ret.
  apply negb_true_iff in Hd. apply rbind_Ret in H as ([] & _ & H).
  destruct (Z.eqb_spec (cb_sz (cn_wpdu c)) 0) as [E0|E0].
  { apply rbind_Ret in H as (m1 & _ & [= <- _ <- _]). exists u. by rewrite app_nil_r. }
  destruct p as [[r| |]|]; cbn in Htx; [done| |by rewrite Hd in Htx; destruct Htx|by destruct Htx as [E _]; rewrite E in E0].
  destruct Htx as (b & Eb & Halive). destruct (Halive Hd) as (f & -> & Ez & Hso & Hlb & Ef & ->).
  destruct (cn_wpdu c) as [buf sz solong]. cbn in Eb, Ez, Hso, E0, H. subst buf sz. cbn [cb_solong] in Hdata.
  assert (frame_ok f) as Hfok.
  { destruct Hdata as (-> & _ & _ & _ & Hok & _). apply Forall_app in Hok as [_ Hok].
    by apply Forall_cons in Hok as [? _]. }
  destruct (writepdu_ok o b (Z.of_nat (length f)) solong f) as [(put' & b' & Ew & Et & Elb & Edrop & Hle)|(b' & Ew)].
  { destruct Hfok as [? _]. unfold sizeof_int. lia. }
  { lia. }
  { rewrite Nat2Z.id, Ef. by rewrite frame_again by done; destruct (solong =? 0). }
  - rewrite Ew in H. cbn [rbind negb] in H. apply rbind_Ret in H as ([] & _ & [= <- _ <- _]).
    exists (drop (Z.to_nat (solong + Z.of_nat (length put'))) f).
    split; [apply data_put; by rewrite <- Edrop|]. cbn. exists b'. split; [done|]. intros _.
    exists f. rewrite Nat2Z.id in Et. split_and!; [done|done|lia|lia|lia|done|done].
  - rewrite Ew in H. cbn [rbind negb] in H. apply rbind_Ret in H as (m1 & _ & [= <- _ <- _]).
    rewrite app_nil_r. exists (drop (Z.to_nat solong) f). split; [done|]. cbn. by exists b'.
Qed.

Lemma finish_inv (l : link A) w ret wake c m :
  link_inv l →
  lk_point l = Some SWait ∧ send_incomplete (lk_tx l) = false ∧ m = lk_txm l ∨
    lk_point l = Some SRemove ∧ block_remove_end (cn_fd (lk_tx l)) (lk_txm l) = Ret m →
  send_finish (lk_tx l) = (ret, wake, c) → cb_buf (cn_wpdu (lk_tx l)) = Some w →
  link_inv (Link c m None (lk_wire l) (lk_rx l) (lk_rxm l) (lk_taken l)
    (lk_true l ++ returned_true (SReturned ret) (take (Z.to_nat (cb_sz (cn_wpdu (lk_tx l)))) w)) (lk_got l)).
Proof.
  intros (u & complete & tail & Hdata & Htx) Hp Hfin Ew. unfold send_finish in Hfin. injection Hfin as <- _ <-.
  destruct (cn_dead (lk_tx l)) eqn:Hd.
  { exists u, complete, tail. cbn. rewrite app_nil_r. split; [done|]. split; [done|congruence]. }
  destruct Hp as [(Ep & Hinc & _)|[Ep _]]; rewrite Ep in Htx; cbn in Htx; [|destruct Htx; congruence].
  destruct Htx as (b & Eb & Halive). destruct (Halive Hd) as (f & -> & Ez & Hso & Hlb & Ef & ->).
  rewrite Ew in Eb. injection Eb as <-. unfold send_incomplete in Hinc. rewrite Hd in Hinc. cbn [negb andb] in *.
  assert (cb_solong (cn_wpdu (lk_tx l)) = cb_sz (cn_wpdu (lk_tx l))) as E by lia.
  rewrite E, Z.eqb_refl in *. cbn [returned_true]. rewrite Ez, Nat2Z.id in *. rewrite Ef.
  rewrite drop_ge in Hdata by lia. exists [], (complete ++ [f]), []. split; [by apply data_done|]. by cbn.
Qed.

Lemma link_step_inv (l l' : link A) : link_inv l → link_step l l' → link_inv l'.
Proof.
  intros Hinv Hst. destruct Hst as [l|l b sz random o p put c m Hsz Hs Hbl Hlose H|l s o put sig c m H
    |l w ret wake c m Hp Hfin Ew|l c m H|l s e W g w sig c m w' H|l s e ans sig c m got wire Ewire He H|l c m H].
  - destruct Hinv as (u & complete & tail & Hdata & Htx). exists u, complete, tail. split; [done|].
    by eapply tx_ok_dead.
  - destruct Hinv as (u & complete & tail & Hdata & Htx). destruct (cn_dead (lk_tx l)) eqn:Hd.
    + unfold send_take in H. cbn [cn_dead set_waiters] in H. rewrite Hd in H. injection H as _ _ <- _.
      exists u, complete, tail. split; [done|]. by eapply tx_ok_dead.
    + assert (tail = []) as Etail.
      { unfold send_blocked in Hbl. rewrite Hd in Hbl. apply bool_decide_eq_false in Hbl.
        destruct (lk_point l) as [[r| |]|]; cbn in Htx; [done| |by destruct Htx; congruence|by apply Htx].
        destruct Htx as (b' & Eb & _). destruct Hbl. by rewrite Eb. }
      destruct (send_take_inv _ _ _ _ _ _ _ _ _ _ _ _ _ _ _ _ _ Hsz Hs Hd Hdata Etail H) as (u' & cp & t' & ? & ?).
      by exists u', cp, t'.
  - destruct Hinv as (u & complete & tail & Hdata & Htx).
    destruct (write_cb_inv _ _ _ _ _ _ _ _ _ _ _ _ _ _ _ _ _ Hdata Htx H) as (u' & ? & ?).
    by exists u', complete, tail.
  - by eapply finish_inv.
  - apply closeconn_dies in H as ->. destruct Hinv as (u & complete & tail & Hdata & Htx).
    exists u, complete, tail. split; [done|]. by eapply tx_ok_dead.
  - apply read_cb_keeps_wpdu in H as [E Hd]. destruct Hinv as (u & complete & tail & Hdata & Htx).
    exists u, complete, tail. split; [done|]. by eapply tx_ok_dead.
  - destruct Hinv as (u & complete & tail & Hdata & Htx). exists u, complete, tail. split; [|done]. cbn.
    destruct (cn_dead (lk_rx l)) eqn:Hd.
    + unfold read_cb in H. rewrite Hd in H. apply rbind_Ret in H as ([] & _ & [= _ <- _ <-]). done.
    + rewrite Ewire in Hdata. by eapply data_read.
  - apply closeconn_dies in H as ->. destruct Hinv as (u & complete & tail & Hdata & Htx).
    exists u, complete, tail. split; [|done]. by eapply data_rx.
Qed.

Lemma link_reachable_inv (l0 l : link A) : link_init l0 → rtc link_step l0 l → link_inv l.
Proof.
  intros (Htx & Hrx & Ep & Ew & Et & Ea & Eg) Hrun. eapply (rtc_ind_r link_inv); [| |exact Hrun].
  - exists [], [], []. destruct Htx as (? & Et1 & _), Hrx as (? & _ & Er1). rewrite Ep, Ew, Et, Ea, Eg. split; [|done].
    split_and!; [done|cbn; lia|by exists []|done|done|]. exists []. split; [done|]. intros _.
    rewrite Er1. split; [done|by left].
  - intros y z _ Hst Hinv. by eapply link_step_inv.
Qed.

Lemma no_frames (l : list (list ascii)) :
  Forall frame_ok l → length (mjoin l) = 0%nat → l = [].
Proof.
  intros Hok H. destruct l as [|f l]; [done|]. apply Forall_cons in Hok as [[Hf _] _].
  cbn in H. rewrite length_app in H. lia.
Qed.

(** C17: PDUs are delivered whole, in order and without loss in between.
    Whatever the sockets and the poll threads do, the PDUs that [got_pdu]
    consumed are a prefix of those [send] took, each with its size in its
    first four bytes; and when the receiver is alive, has read all bytes on
    their way and is not in the middle of a PDU, every PDU for which [send]
    returned [true] has been consumed. *)
Theorem link_delivers (l0 l : link A) :
  link_init l0 → rtc link_step l0 l →
  lk_got l `prefix_of` lk_taken l ∧ Forall frame_ok (lk_got l) ∧
  (cn_dead (lk_rx l) = false → lk_wire l = [] → cb_buf (cn_rpdu (lk_rx l)) = None →
    lk_true l `sublist_of` lk_got l).
Proof.
  intros Hi Hrun. destruct (link_reachable_inv l0 l Hi Hrun) as (u & complete & tail & Hdata & _).
  destruct Hdata as (Et & Htl & [x Ex] & Htr & Hok & later & El & Hrx).
  split; [by exists later|]. rewrite El in Hok. apply Forall_app in Hok as [Hgot Hlater]. split; [done|].
  intros Hd Ew Eb. destruct (Hrx Hd) as [E _]. unfold part in E. rewrite Ew, Eb in E. cbn in E.
  rewrite <- (app_nil_r (lk_got l)). etrans; [exact Htr|].
  rewrite Et in El. destruct tail as [|f [|]]; [| |cbn in Htl; lia].
  - rewrite app_nil_r in El. cbn in Ex. destruct x; [|done]. cbn in Ex. subst u.
    apply (no_frames later) in Hlater; [|by rewrite <- E]. by rewrite El, Hlater.
  - destruct later as [|g later]; [by rewrite app_nil_r in El; rewrite app_nil_r, <- El; apply sublist_inserts_r|].
    induction later as [|z lt _] using rev_ind.
    + apply app_inj_tail in El as [-> _]. by rewrite app_nil_r.
    + exfalso. rewrite app_comm_cons, (assoc_L (++)) in El. apply app_inj_tail in El as [_ ->].
      apply (f_equal length) in Ex. cbn in Ex. rewrite E in Ex. cbn in Ex. rewrite join_app in Ex. cbn in Ex.
      rewrite !length_app in Ex. cbn in Ex. apply Forall_cons in Hlater as [[Hg _] _]. lia.
Qed.
End link_inv.

(** ** A run *)

Definition demo_tx : connection := Connection 1 7 false charbuf_new charbuf_new 0 1 0.
Definition demo_rx : connection := Connection 2 9 false charbuf_new charbuf_new 0 1 0.
Definition demo_poll (fd : Z) (this : nat) : PollMgr EPollAIO :=
  match add_callback fd CB_RDONLY this (pollmgr_new epoll_new) with Ret m => m | Fail _ => pollmgr_new epoll_new end.
Definition demo_link : link EPollAIO :=
  Link demo_tx (demo_poll 7 1) None [] demo_rx (demo_poll 9 2) [] [] [].
Definition demo_msg : list ascii := replicate 4 "0"%char ++ ["h"; "i"]%char.

(** Evaluates the state a run has reached. *)
Ltac normalise_state :=
  match goal with |- rtc _ ?x _ => let v := eval vm_compute in x in change x with v end.

(** Six bytes are sent, three of them by the poll thread, and read in two
    turns. *)
Lemma demo_link_run : ∃ l, rtc link_step demo_link l ∧
  lk_got l = [frame demo_msg 6] ∧ lk_taken l = [frame demo_msg 6] ∧ lk_true l = [frame demo_msg 6] ∧
  cn_dead (lk_rx l) = false ∧ lk_wire l = [] ∧ cb_buf (cn_rpdu (lk_rx l)) = None.
Proof.
  eexists. split.
  - normalise_state. eapply rtc_l; [apply LS_enter|]. normalise_state.
    eapply rtc_l; [eapply (LS_send _ demo_msg 6 0 (WrN 3)); [vm_compute; by split|done|done|done|vm_compute; reflexivity]|].
    normalise_state. eapply rtc_l; [eapply (LS_write _ 7 (WrN 100)); vm_compute; reflexivity|].
    normalise_state. eapply rtc_l; [eapply LS_finish; [left; split_and!; reflexivity|reflexivity|reflexivity]|].
    normalise_state. eapply rtc_l; [eapply (LS_read _ 9 (ReadEnv "x" false (RdBytes (be32 6)) false RdAgain) true);
      [reflexivity|by vm_compute|vm_compute; reflexivity]|].
    normalise_state. eapply rtc_l; [eapply (LS_read _ 9 (ReadEnv "x" false RdEof false (RdBytes ["h"; "i"]%char)) true);
      [reflexivity|by vm_compute|vm_compute; reflexivity]|].
    normalise_state. apply rtc_refl.
  - split_and!; reflexivity.
Qed.

Lemma link_delivers_witness : ∃ l : link EPollAIO,
  rtc link_step demo_link l ∧ lk_got l `prefix_of` lk_taken l ∧ lk_true l `sublist_of` lk_got l ∧ length (lk_true l) = 1%nat.
Proof.
  destruct demo_link_run as (l & Hrun & Eg & Et & Ea & Ed & Ew & Eb). exists l. split; [exact Hrun|].
  assert (link_init demo_link) as Hi by (by split_and!).
  destruct (link_delivers demo_link l Hi Hrun) as (H1 & _ & H2).
  split; [exact H1|]. split; [apply (H2 Ed Ew Eb)|]. by rewrite Ea.
Defined.

(** ** Closing *)

(** A thread that closes the connection while the poll thread is about to
    call [write_cb] aborts the process: [write_cb] insists that the connection
    is not dead, where [read_cb] returns. *)
Theorem closing_aborts_write_cb {A} `{!AioMgr A} c (m m' m1 : PollMgr A) c' s o :
  closeconn c m = Ret (Some (c', m')) → write_cb s o c' m1 = Fail VerifyFailed.
Proof. intros ->%closeconn_dies. done. Qed.

(** The end of the stream is not noticed in the middle of a PDU when an
    earlier call left [EAGAIN] in [errno]: [read_cb] changes nothing, and the
    descriptor stays readable. *)
Theorem stale_errno_hides_eof {A} `{!AioMgr A} {W} (g : list ascii → Z → W → bool * W) e c (m : PollMgr A) w b :
  cn_dead c = false → cb_buf (cn_rpdu c) = Some b → cb_sz (cn_rpdu c) ≠ 0 →
  cb_solong (cn_rpdu c) < cb_sz (cn_rpdu c) → re_body e = RdEof → re_stale e = true →
  read_cb g (cn_fd c) e c m w = Ret (false, c, m, w).
Proof.
  intros Hd Eb Hz Hlt Ee Es. unfold read_cb, readpdu, read_body. rewrite Z.eqb_refl, Hd. cbn [VERIFY rbind].
  rewrite Eb. replace (cb_solong (cn_rpdu c) <? cb_sz (cn_rpdu c)) with true by lia. rewrite orb_true_r.
  replace (cb_sz (cn_rpdu c) =? 0) with false by lia. rewrite Ee, Es. cbn [rbind negb].
  replace (cb_sz (cn_rpdu c) =? cb_solong (cn_rpdu c)) with false by lia. rewrite Eb. by destruct c.
Qed.
