(* ===== verification/Endpoint.v ===== *)
(** * A server endpoint: listener, pool and server (rpc/connection.cc, rpc/rpc.cc)

    [tcpsconn] accepts connections and collects the dead ones, the poll
    thread hands requests to [rpcs::got_pdu], which puts a job into the
    thread pool, and the workers run [rpcs::dispatch].  The three share the
    connections, which live as long as someone holds a reference.  Jobs are
    heap objects too: the queue holds their addresses. *)

From S2P Require Import Prelude Marshall Protocols Stubs RpcServer ThrPool.

Record djob_t := Djob { dj_conn : nat; dj_buf : list ascii; dj_sz : Z }.

Section endpoint.
Context {S : Type}.

(** [ep_listen] is [tcpsconn::conns_]; [ep_jobs] the job objects. *)
Record endpoint := Endpoint {
  ep_srv : rpcs S; ep_listen : gmap Z nat; ep_jobs : gmap nat djob_t; ep_pool : @ThrPool nat }.

Definition set_srv (s : rpcs S) (e : endpoint) : endpoint :=
  Endpoint s (ep_listen e) (ep_jobs e) (ep_pool e).

(** The constructor of [rpcs], with the pool it creates. *)
Definition endpoint_new (random count : Z) (o : S) : res endpoint :=
  s ← rpcs_new random count o;
  Ret (Endpoint s ∅ ∅ (ThrPool_new 6 false)).

(** The garbage collection in [process_accept]. *)
Fixpoint collect (l : list (Z * nat)) (conns : gmap Z nat) (h : heap) : res (gmap Z nat * heap) :=
  match l with
  | [] => Ret (conns, h)
  | (fd, c) :: l =>
      k ← conn_get h c;
      if co_dead k && (co_refno k =? 1) then
        h ← conn_decref h c;
        collect l (delete fd conns) h
      else collect l conns h
  end.

(** [process_accept]: [s1] is what [accept] returned, [ch] the address of the
    new connection and [now] the time.  [None]: the thread exits. *)
Definition process_accept (s1 : option Z) (ch : nat) (now : Z * Z) (e : endpoint) : res (option endpoint) :=
  match s1 with
  | None => Ret None
  | Some s1 =>
      let h := <[ch := Conn now 1 false []]> (rs_heap (ep_srv e)) in
      '(conns, h) ← collect (map_entries (ep_listen e)) (ep_listen e) h;
      Ret (Some (Endpoint (set_heap (ep_srv e) h) (<[s1 := ch]> conns) (ep_jobs e) (ep_pool e)))
  end.

(** A turn of [tcpsconn::accept_conn]: how [select] ended, with what it found
    readable.  [None]: the thread returns. *)
Inductive accept_event := AccIntr | AccError | AccReady (pipe tcp : bool).
Definition accept_conn (ev : accept_event) (s1 : option Z) (ch : nat) (now : Z * Z) (e : endpoint)
    : res (option endpoint) :=
  match ev with
  | AccIntr => Ret (Some e)
  | AccError => VERIFY false;; Ret None
  | AccReady pipe tcp =>
      if pipe then Ret None
      else if tcp then process_accept s1 ch now e
      else VERIFY false;; Ret None
  end.

(** [rpcs::got_pdu]; [j] is the address of the new job, [reachable] the value
    of [reachable_] when it is read again.  [None]: the caller waits for
    the queue. *)
Definition rpcs_got_pdu (j : nat) (reachable : bool) (c : nat) (b : list ascii) (sz : Z) (e : endpoint)
    : res (option (bool * endpoint)) :=
  if negb (rs_reachable (ep_srv e)) then Ret (Some (true, e)) else
  let jobs := <[j := Djob c b sz]> (ep_jobs e) in
  h ← conn_incref (rs_heap (ep_srv e)) c;
  let s := set_heap (ep_srv e) h in
  '(succ, pool) ←
    match addJob (ep_pool e) j with
    | Enqueued f => Ret (Some true, set_jobq (ep_pool e) f)
    | QueueFull => Ret (Some false, ep_pool e)
    | EnqWaits => Ret (None, ep_pool e)
    end;
  match succ with
  | None => Ret None
  | Some succ =>
      if negb succ || negb reachable then
        h ← conn_decref (rs_heap s) c;
        Ret (Some (succ, Endpoint (set_heap s h) (ep_listen e) (delete j jobs) pool))
      else Ret (Some (succ, Endpoint s (ep_listen e) jobs pool))
  end.

(** A worker runs the next job, which [dispatch] deletes.  [None]: no job, or
    a poison pill. *)
Definition run_job (fill : ascii) (ok : bool) (died : list nat) (e : endpoint) : res (option endpoint) :=
  match worker_turn (ep_pool e) with
  | Some (Some j, pool) =>
      match ep_jobs e !! j with
      | None => Fail UndefinedBehaviour
      | Some job =>
          s ← dispatch fill ok died (ep_srv e) (dj_conn job) (dj_buf job) (dj_sz job);
          Ret (Some (Endpoint s (ep_listen e) (delete j (ep_jobs e)) pool))
      end
  | _ => Ret None
  end.

(** The loop of [tcpsconn::~tcpsconn]. *)
Fixpoint close_all (l : list (Z * nat)) (h : heap) : res heap :=
  match l with
  | [] => Ret h
  | (_, c) :: l =>
      k ← conn_get h c;
      let h := conn_died [c] h in
      h ← conn_decref h c;
      close_all l h
  end.

(** [delete listener_] in [rpcs::~rpcs]; the workers then run what is
    queued. *)
Definition listener_delete (e : endpoint) : res endpoint :=
  h ← close_all (map_entries (ep_listen e)) (rs_heap (ep_srv e));
  Ret (Endpoint (set_heap (ep_srv e) h) ∅ (ep_jobs e) (ep_pool e)).

(** [rpcs::~rpcs]: the listener is deleted, the pool's destructor waits for the
    workers to run what is queued, and the stored replies are freed. *)
Definition works (e e' : endpoint) : Prop := ∃ fill ok died, run_job fill ok died e = Ret (Some e').
Inductive rpcs_delete (e : endpoint) : list (option (list ascii)) → endpoint → Prop :=
| RD_delete e1 e2 :
    listener_delete e = Ret e1 → rtc works e1 e2 → q_ (tp_jobq (ep_pool e2)) = [] →
    rpcs_delete e (free_reply_window (rs_reply_window (ep_srv e2))).1
      (set_srv (set_window (ep_srv e2) (free_reply_window (rs_reply_window (ep_srv e2))).2) e2).

(** The endpoint at work.  A connection that is not deleted keeps its
    descriptor open, so [accept] gives another one; objects get addresses
    that are not in use.  [got_pdu] reads [reachable_] twice and anyone can
    write it meanwhile; [steady]: nobody does. *)
Inductive ep_step (steady : bool) : endpoint → endpoint → Prop :=
| ES_accept e ev s1 ch now e' :
    ep_listen e !! s1 = None → rs_heap (ep_srv e) !! ch = None →
    accept_conn ev (Some s1) ch now e = Ret (Some e') → ep_step steady e e'
| ES_pdu e j reachable c k b sz succ e' :
    ep_jobs e !! j = None → rs_heap (ep_srv e) !! c = Some k → co_dead k = false →
    (steady = true → reachable = rs_reachable (ep_srv e)) →
    rpcs_got_pdu j reachable c b sz e = Ret (Some (succ, e')) → ep_step steady e e'
| ES_work e fill ok died e' :
    run_job fill ok died e = Ret (Some e') → ep_step steady e e'
| ES_dies e c :
    ep_step steady e (set_srv (set_heap (ep_srv e) (conn_died [c] (rs_heap (ep_srv e)))) e)
| ES_reachable e r : ep_step steady e (set_srv (set_reachable (ep_srv e) r) e).

(** ** The references add up *)

(** How many references the listener and the queue hold. *)
Definition listed (m : gmap Z nat) (c : nat) : Z :=
  Z.of_nat (length (filter (λ p, p.2 = c) (map_to_list m))).
Definition job_conn (jobs : gmap nat djob_t) (j : option nat) : option nat :=
  match j with Some j => dj_conn <$> jobs !! j | None => None end.
Definition queued_in (jobs : gmap nat djob_t) (q : list (option nat)) (c : nat) : Z :=
  Z.of_nat (length (filter (λ j, job_conn jobs j = Some c) q)).
Definition queued (e : endpoint) : nat → Z := queued_in (ep_jobs e) (q_ (tp_jobq (ep_pool e))).

(** [leak c] is the number of references that were never given back. *)
Record ep_inv (e : endpoint) (leak : nat → Z) : Prop := {
  ei_counts : ∀ c, owed (ep_srv e) c = listed (ep_listen e) c + queued e c + leak c;
  ei_leak : ∀ c, 0 ≤ leak c;
  ei_once : ∀ a b c, ep_listen e !! a = Some c → ep_listen e !! b = Some c → a = b;
  ei_jobs : ∀ j, Some j ∈ q_ (tp_jobq (ep_pool e)) → is_Some (ep_jobs e !! j);
  ei_nodup : NoDup (q_ (tp_jobq (ep_pool e)));
  ei_pool : tp_blockadd (ep_pool e) = false ∧ None ∉ q_ (tp_jobq (ep_pool e)) }.
End endpoint.
Arguments endpoint S : clear implicits.

Lemma listed_fresh m fd c d : m !! fd = None → listed (<[fd := c]> m) d = listed m d + ind (c = d).
Proof.
  intros E. unfold listed, ind. rewrite map_to_list_insert by done. rewrite filter_cons. cbn.
  destruct (decide (c = d)); cbn; lia.
Qed.

Lemma listed_delete m fd c d : m !! fd = Some c → listed (delete fd m) d = listed m d - ind (c = d).
Proof.
  intros E. pose proof (listed_fresh (delete fd m) fd c d (lookup_delete_eq _ _)) as H.
  rewrite insert_delete_id in H by done. lia.
Qed.

Lemma listed_nonneg m c : 0 ≤ listed m c.
Proof. unfold listed. lia. Qed.

Lemma listed_pos m fd c : m !! fd = Some c → 1 ≤ listed m c.
Proof.
  intros E. pose proof (listed_delete m fd c c E) as H. pose proof (listed_nonneg (delete fd m) c).
  unfold ind in H. rewrite decide_True in H by done. lia.
Qed.

Lemma listed_once m fd c :
  (∀ a b c, m !! a = Some c → m !! b = Some c → a = b) → m !! fd = Some c → listed m c = 1.
Proof.
  intros Hinj E. pose proof (listed_delete m fd c c E) as H. unfold ind in H. rewrite decide_True in H by done.
  assert (listed (delete fd m) c = 0); [|lia]. unfold listed.
  destruct (filter (λ p, p.2 = c) (map_to_list (delete fd m))) as [|[fd' c'] l] eqn:El; [done|]. exfalso.
  assert ((fd', c') ∈ filter (λ p, p.2 = c) (map_to_list (delete fd m))) as Hin by (rewrite El; left).
  apply list_elem_of_filter in Hin as [Ec [Hne Hin]%elem_of_map_to_list%lookup_delete_Some]. cbn in Ec. subst c'.
  by apply Hne, (Hinj _ _ c).
Qed.

Lemma refs_insert_new (h : heap) c k d :
  h !! c = None → refs (<[c := k]> h) d = refs h d + ind (c = d) * co_refno k.
Proof.
  intros E. unfold refs, ind. destruct (decide (c = d)) as [<-|].
  - rewrite lookup_insert_eq, E. cbn. lia.
  - rewrite lookup_insert_ne by done. lia.
Qed.

(** Collecting keeps the counts balanced and deletes the connections that
    are dead and only listed. *)
Lemma collect_ok l : ∀ conns (h : heap),
  NoDup l.*1 → (∀ fd c, (fd, c) ∈ l → conns !! fd = Some c ∧ 1 ≤ refs h c) →
  (∀ a b c, conns !! a = Some c → conns !! b = Some c → a = b) →
  ∃ conns' h', collect l conns h = Ret (conns', h') ∧
    (∀ d, refs h' d - listed conns' d = refs h d - listed conns d) ∧ conns' ⊆ conns ∧ h' ⊆ h ∧
    ∀ fd c k, (fd, c) ∈ l → h !! c = Some k → co_dead k = true → co_refno k = 1 → h' !! c = None.
Proof.
  induction l as [|[fd c] l IH]; intros conns h Hnd Hin Hinj.
  { exists conns, h. split_and!; [done..|]. by intros ? ? ? ?%elem_of_nil. }
  rewrite fmap_cons in Hnd. apply NoDup_cons in Hnd as [Hfd Hnd]. cbn [fst] in Hfd.
  destruct (Hin fd c) as [Ec Hc]; [left|]. destruct (refs_pos h c Hc) as (k & Ek & Hk).
  assert (∀ fd' c', (fd', c') ∈ l → fd' ≠ fd ∧ c' ≠ c) as Hother.
  { intros fd' c' H'. assert (fd' ≠ fd) as Hne.
    { intros ->. apply Hfd, list_elem_of_fmap. by exists (fd, c'). }
    split; [done|]. intros ->. apply Hne, (Hinj _ _ c); [|done]. apply Hin. by right. }
  cbn [collect]. unfold conn_get. rewrite Ek. cbn [rbind].
  destruct (co_dead k && (co_refno k =? 1)) eqn:Edead.
  - apply andb_true_iff in Edead as [Ed E1%Z.eqb_eq].
    assert (conn_decref h c = Ret (delete c h)) as Edec.
    { unfold conn_decref, conn_get. rewrite Ek. cbn [rbind]. by rewrite E1, Ed. }
    rewrite Edec. cbn [rbind]. pose proof (decref_refs _ _ _ Edec) as Hr1.
    destruct (IH (delete fd conns) (delete c h)) as (conns' & h' & E' & Hbal & Hsub & Hh & Hgone); [done|..].
    + intros fd' c' H'. destruct (Hother fd' c' H'). rewrite lookup_delete_ne, Hr1 by done.
      destruct (Hin fd' c'); [by right|]. unfold ind. rewrite decide_False by done. split; [done|lia].
    + intros a b d (_ & Ha)%lookup_delete_Some (_ & Hb)%lookup_delete_Some. by eapply Hinj.
    + exists conns', h'. rewrite E'. split_and!; [done| |by etrans; [|apply delete_subseteq]..|].
      * intros d. rewrite Hbal, Hr1, (listed_delete _ _ _ _ Ec). lia.
      * intros fd' c' k' [[= -> ->]|H']%elem_of_cons Ek' Hd' H1'.
        -- eapply lookup_weaken_None; [apply lookup_delete_eq|done].
        -- destruct (Hother fd' c' H'). eapply Hgone; [done| |done|done]. by rewrite lookup_delete_ne.
  - destruct (IH conns h) as (conns' & h' & E' & Hbal & Hsub & Hh & Hgone); [done| |done|].
    { intros fd' c' H'. apply Hin. by right. }
    exists conns', h'. rewrite E'. split_and!; [done..|].
    intros fd' c' k' [[= -> ->]|H']%elem_of_cons Ek' Hd' H1'; [|by eapply Hgone].
    exfalso. rewrite Ek in Ek'. injection Ek' as ->. rewrite Hd', H1' in Edead. done.
Qed.

Lemma queued_frame jobs jobs' q c :
  (∀ j, Some j ∈ q → jobs' !! j = jobs !! j) → queued_in jobs' q c = queued_in jobs q c.
Proof.
  intros H. unfold queued_in. f_equal. f_equal. induction q as [|j q IH]; [done|]. rewrite !filter_cons.
  assert (job_conn jobs' j = job_conn jobs j) as -> by (destruct j; cbn; [rewrite H; [done|left]|done]).
  rewrite IH; [done|]. intros j' Hj. apply H. by right.
Qed.

Lemma queued_add jobs q j job c :
  jobs !! j = Some job → queued_in jobs (q ++ [Some j]) c = queued_in jobs q c + ind (dj_conn job = c).
Proof.
  intros E. unfold queued_in, ind. rewrite filter_app, length_app, filter_cons. cbn. rewrite E. cbn.
  destruct (decide (dj_conn job = c)) as [->|Hne]; [rewrite decide_True by done|rewrite decide_False by congruence];
    cbn; lia.
Qed.

Lemma queued_cons jobs q j job c :
  jobs !! j = Some job → queued_in jobs (Some j :: q) c = queued_in jobs q c + ind (dj_conn job = c).
Proof.
  intros E. unfold queued_in, ind. rewrite filter_cons. cbn. rewrite E. cbn.
  destruct (decide (dj_conn job = c)) as [->|Hne]; [rewrite decide_True by done|rewrite decide_False by congruence];
    cbn; lia.
Qed.

Lemma queued_nonneg jobs q c : 0 ≤ queued_in jobs q c.
Proof. unfold queued_in. lia. Qed.

Section endpoint_inv.
Context {S : Type}.
Implicit Types e : endpoint S.

(** Whoever is listed, queued or in the table of clients is in the heap. *)
Lemma inv_refs e leak c : ep_inv e leak →
  refs (rs_heap (ep_srv e)) c =
    listed (ep_listen e) c + held (rs_conns (ep_srv e)) c + queued e c + leak c.
Proof. intros H. pose proof (ei_counts _ _ H c) as E. unfold owed in E. lia. Qed.

Lemma inv_listed e leak fd c : ep_inv e leak → ep_listen e !! fd = Some c → 1 ≤ refs (rs_heap (ep_srv e)) c.
Proof.
  intros H E. rewrite (inv_refs _ _ _ H). pose proof (listed_pos _ _ _ E).
  pose proof (held_nonneg (rs_conns (ep_srv e)) c). pose proof (ei_leak _ _ H c).
  pose proof (queued_nonneg (ep_jobs e) (q_ (tp_jobq (ep_pool e))) c). unfold queued. lia.
Qed.

Lemma process_accept_inv e leak s1 ch now :
  ep_inv e leak → ep_listen e !! s1 = None → rs_heap (ep_srv e) !! ch = None →
  ∃ e', process_accept (Some s1) ch now e = Ret (Some e') ∧ ep_inv e' leak ∧
    ∀ fd c k, ep_listen e !! fd = Some c → rs_heap (ep_srv e) !! c = Some k → co_dead k = true → co_refno k = 1 →
      rs_heap (ep_srv e') !! c = None.
Proof.
  intros H Hs Hch. cbn [process_accept]. set (h := <[ch := _]> _).
  assert (∀ d, refs h d = refs (rs_heap (ep_srv e)) d + ind (ch = d)) as Hr.
  { intros d. unfold h. rewrite refs_insert_new by done. cbn. lia. }
  destruct (collect_ok (map_entries (ep_listen e)) (ep_listen e) h) as (conns' & h' & -> & Hbal & Hsub & Hh & Hgone).
  { apply map_entries_NoDup. }
  { intros fd c E%map_entries_spec. split; [done|]. rewrite Hr. pose proof (inv_listed _ _ _ _ H E).
    unfold ind. destruct (decide _); lia. }
  { apply (ei_once _ _ H). }
  cbn [rbind]. eexists. split; [done|]. assert (conns' !! s1 = None) as Hs' by (by eapply lookup_weaken_None).
  split; [|].
  - pose proof H as [Hc Hl Ho Hj Hn Hp]. split; cbn; try done.
    + intros c. specialize (Hbal c). rewrite Hr in Hbal. specialize (Hc c). unfold owed in *. cbn.
      rewrite listed_fresh by done. unfold queued in *. cbn. lia.
    + assert (∀ fd, conns' !! fd ≠ Some ch) as Hnew.
      { intros fd E%(lookup_weaken _ (ep_listen e)); [|done]. apply (inv_listed e leak) in E; [|done].
        unfold refs in E. rewrite Hch in E. cbn in E. lia. }
      intros a b c. rewrite !lookup_insert_Some. intros [[<- <-]|[? Ha]] [[<- Eb]|[? Hb]]; [done|by destruct (Hnew b)|by subst c; destruct (Hnew a)|].
      by apply (Ho _ _ c); eapply lookup_weaken.
  - intros fd c k E Ek Hd H1. cbn. eapply Hgone; [by apply map_entries_spec| |done|done].
    unfold h. rewrite lookup_insert_ne; [done|]. by intros ->; rewrite Ek in Hch.
Qed.

Lemma got_pdu_inv e leak j c k b sz succ e' :
  ep_inv e leak → ep_jobs e !! j = None → rs_heap (ep_srv e) !! c = Some k →
  rpcs_got_pdu j (rs_reachable (ep_srv e)) c b sz e = Ret (Some (succ, e')) → ep_inv e' leak.
Proof.
  intros H Hj Hc. unfold rpcs_got_pdu. destruct (rs_reachable (ep_srv e)); cbn [negb]; [|by intros [= _ <-]].
  pose proof H as [Hcnt Hl Ho Hjobs Hn [Hbl Hpill]].
  assert (Some j ∉ q_ (tp_jobq (ep_pool e))) as Hjq.
  { intros [? E]%Hjobs. by rewrite Hj in E. }
  intros (h1 & E1 & H1)%rbind_Ret. pose proof (incref_refs _ _ _ E1) as Hr1.
  destruct (addJob (ep_pool e) j) as [f| |] eqn:Ea; cbn [rbind] in H1; [| |done].
  - cbn [negb orb] in H1. injection H1 as _ <-. apply enq_Enqueued in Ea as [Eq _].
    split; cbn; try done; rewrite ?Eq.
    + intros d. specialize (Hcnt d). specialize (Hr1 d). unfold owed, queued in *. cbn. rewrite Eq.
      rewrite (queued_add _ _ _ (Djob c b sz)) by apply lookup_insert_eq. cbn.
      rewrite (queued_frame (ep_jobs e)); [lia|]. intros j' Hj'. apply lookup_insert_ne. congruence.
    + intros j' [Hj'|[= ->]%list_elem_of_singleton]%elem_of_app; [|by rewrite lookup_insert_eq].
      rewrite lookup_insert_ne by congruence. by apply Hjobs.
    + apply NoDup_app. split_and!; [done| |apply NoDup_singleton]. intros x Hx ->%list_elem_of_singleton. done.
    + split; [done|]. rewrite elem_of_app, list_elem_of_singleton. naive_solver.
  - cbn [negb orb] in H1. apply rbind_Ret in H1 as (h2 & E2 & [= _ <-]). pose proof (decref_refs _ _ _ E2) as Hr2.
    assert (delete j (<[j := Djob c b sz]> (ep_jobs e)) = ep_jobs e) as Ej by (by apply delete_insert_id).
    split; cbn; rewrite ?Ej; try done. intros d. specialize (Hcnt d). specialize (Hr1 d). specialize (Hr2 d).
    unfold owed, queued in *. cbn in *. rewrite ?Ej. lia.
Qed.

Lemma run_job_inv e leak fill ok died e' :
  ep_inv e leak → run_job fill ok died e = Ret (Some e') →
  ∃ leak', ep_inv e' leak' ∧
    ∀ j job, head (q_ (tp_jobq (ep_pool e))) = Some (Some j) → ep_jobs e !! j = Some job →
      stale_request (ep_srv e) (dj_buf job) (dj_sz job) = false → ∀ d, leak' d = leak d.
Proof.
  intros H. unfold run_job. destruct (worker_turn (ep_pool e)) as [[[j|] p']|] eqn:Ew; [|done..].
  pose proof H as [Hcnt Hl Ho Hjobs Hn [Hbl Hpill]].
  assert (tp_blockadd p' = tp_blockadd (ep_pool e)) as Ebl.
  { unfold worker_turn, takeJob in Ew. destruct (fifo_deq _) as [[[j'|] f]|]; [|done..]. by injection Ew as _ <-. }
  apply worker_turn_spec in Ew as (Eq & _ & _ & _).
  destruct (ep_jobs e !! j) as [job|] eqn:Ej; [|done]. intros (s1 & Es & [= <-])%rbind_Ret.
  rewrite Eq in Hn, Hjobs, Hpill. apply NoDup_cons in Hn as [Hjq Hn].
  exists (λ d, leak d + if stale_request (ep_srv e) (dj_buf job) (dj_sz job) then ind (dj_conn job = d) else 0).
  assert (∀ j', Some j' ∈ q_ (tp_jobq p') → delete j (ep_jobs e) !! j' = ep_jobs e !! j') as Hframe.
  { intros j' Hj'. apply lookup_delete_ne. by intros ->. }
  split; [split; cbn; try done|].
  - intros d. rewrite (dispatch_owed _ _ _ _ _ _ _ _ Es d), Hcnt. unfold queued. cbn. rewrite Eq.
    rewrite (queued_cons _ _ _ _ _ Ej), (queued_frame (ep_jobs e) (delete j (ep_jobs e))) by done.
    destruct (stale_request _ _ _); lia.
  - intros d. specialize (Hl d). unfold ind. destruct (stale_request _ _ _); [destruct (decide (dj_conn job = d))|]; lia.
  - intros j' Hj'. rewrite Hframe by done. apply Hjobs. by right.
  - split; [congruence|]. intros Hx. apply Hpill. by right.
  - rewrite Eq. intros j0 job0 [= <-] E0 Hst. rewrite Ej in E0. injection E0 as <-. rewrite Hst.
    intros d. lia.
Qed.

Lemma ep_step_inv e e' leak : ep_inv e leak → ep_step true e e' → ∃ leak', ep_inv e' leak'.
Proof.
  intros H Hst. destruct Hst as [e ev s1 ch now e' Hs Hch E|e j r c k b sz succ e' Hj Hc _ Hr E|e fill ok died e' E|e c|e r].
  - destruct ev as [| |[] []]; cbn [accept_conn VERIFY rbind] in E; try done; [injection E as <-; eauto|].
    destruct (process_accept_inv e leak s1 ch now H Hs Hch) as (e2 & E2 & H2 & _). rewrite E in E2. injection E2 as <-. eauto.
  - exists leak. rewrite Hr in E by done. by eapply got_pdu_inv.
  - destruct (run_job_inv _ _ _ _ _ _ H E) as (leak' & H' & _). eauto.
  - exists leak. destruct H as [Hcnt Hl Ho Hjobs Hn Hp]. split; try done. intros d. rewrite <- Hcnt.
    unfold owed. cbn -[conn_died]. by rewrite died_refs.
  - exists leak. by destruct H.
Qed.

Lemma new_inv random count o e : endpoint_new random count o = Ret e → ep_inv e (λ _, 0).
Proof.
  unfold endpoint_new, rpcs_new, reg1. intros (s & E & [= <-])%rbind_Ret.
  apply rbind_Ret in E as ([] & _ & ([] & _ & [= <-])%rbind_Ret).
  split; cbn; try done; [intros j H; by apply elem_of_nil in H|constructor|].
  split; [done|apply not_elem_of_nil].
Qed.

Lemma ep_reachable_inv random count o e0 e :
  endpoint_new random count o = Ret e0 → rtc (ep_step true) e0 e → ∃ leak, ep_inv e leak.
Proof.
  intros E0 Hrun. eapply (rtc_ind_r (λ e, ∃ leak, ep_inv e leak)); [| |exact Hrun].
  - exists (λ _, 0). by eapply new_inv.
  - intros x y _ Hst [leak H]. by eapply ep_step_inv.
Qed.

(** C22: the reference counts of connections are right across the listener,
    the pool and the table of clients.  In every state that an endpoint
    reaches, provided that nobody writes [reachable_] between the two times
    that a [got_pdu] reads it (rpcs::set_reachable, which only the tests of
    the replicated state machine call, is free to run at all other times), a
    connection's count is the number of places that hold it (the
    listener's table, the queued jobs, the clients' table) plus a number of
    references that were lost; so all these places hold connections and jobs
    that have not been deleted. *)
Theorem endpoint_references random count o e0 e :
  endpoint_new random count o = Ret e0 → rtc (ep_step true) e0 e →
  (∃ leak, ∀ c, 0 ≤ leak c ∧ refs (rs_heap (ep_srv e)) c =
    listed (ep_listen e) c + held (rs_conns (ep_srv e)) c + queued e c + leak c) ∧
  (∀ fd c, ep_listen e !! fd = Some c → is_Some (rs_heap (ep_srv e) !! c)) ∧
  (∀ n c, rs_conns (ep_srv e) !! n = Some (Some c) → is_Some (rs_heap (ep_srv e) !! c)) ∧
  (∀ j, Some j ∈ q_ (tp_jobq (ep_pool e)) →
    ∃ job, ep_jobs e !! j = Some job ∧ is_Some (rs_heap (ep_srv e) !! dj_conn job)).
Proof.
  intros E0 Hrun. destruct (ep_reachable_inv _ _ _ _ _ E0 Hrun) as [leak H].
  assert (∀ c, 1 ≤ refs (rs_heap (ep_srv e)) c → is_Some (rs_heap (ep_srv e) !! c)) as Hin.
  { intros c (k & -> & _)%refs_pos. done. }
  assert (∀ c, 0 ≤ listed (ep_listen e) c ∧ 0 ≤ held (rs_conns (ep_srv e)) c ∧ 0 ≤ queued e c ∧ 0 ≤ leak c) as Hpos.
  { intros c. split_and!; [apply listed_nonneg|apply held_nonneg|apply queued_nonneg|apply (ei_leak _ _ H)]. }
  split_and!.
  - exists leak. intros c. split; [apply (ei_leak _ _ H)|by apply inv_refs].
  - intros fd c E. by eapply Hin, inv_listed.
  - intros n c E%held_pos. apply Hin. rewrite (inv_refs _ _ _ H). specialize (Hpos c). lia.
  - intros j Hj. destruct (ei_jobs _ _ H j Hj) as [job Ej]. exists job. split; [done|]. apply Hin.
    rewrite (inv_refs _ _ _ H). specialize (Hpos (dj_conn job)).
    assert (1 ≤ queued e (dj_conn job)); [|lia]. unfold queued, queued_in.
    assert (Some j ∈ filter (λ x, job_conn (ep_jobs e) x = Some (dj_conn job)) (q_ (tp_jobq (ep_pool e)))) as Hf.
    { apply list_elem_of_filter. split; [cbn; by rewrite Ej|done]. }
    destruct (filter _ _) as [|x l]; [by apply elem_of_nil in Hf|]. cbn. lia.
Qed.

(** The listener's garbage collection.  An [accept] never aborts, and
    it deletes every listed connection that is dead, that no client's table
    entry and no queued job refers to, and of which no reference was lost. *)
Theorem accept_collects e leak s1 ch now :
  ep_inv e leak → ep_listen e !! s1 = None → rs_heap (ep_srv e) !! ch = None →
  ∃ e', process_accept (Some s1) ch now e = Ret (Some e') ∧ ep_inv e' leak ∧
    ∀ fd c k, ep_listen e !! fd = Some c → rs_heap (ep_srv e) !! c = Some k → co_dead k = true →
      held (rs_conns (ep_srv e)) c = 0 → queued e c = 0 → leak c = 0 →
      rs_heap (ep_srv e') !! c = None ∧ ∀ fd', ep_listen e' !! fd' ≠ Some c.
Proof.
  intros H Hs Hch. destruct (process_accept_inv e leak s1 ch now H Hs Hch) as (e' & E & H' & Hgone).
  exists e'. split_and!; [done|done|]. intros fd c k El Ek Hd Hh Hq Hlk.
  assert (rs_heap (ep_srv e') !! c = None) as Hnone.
  { eapply Hgone; [done|done|done|]. pose proof (inv_refs _ _ c H) as Hr. unfold refs in Hr. rewrite Ek in Hr. cbn in Hr.
    rewrite (listed_once _ fd c (ei_once _ _ H) El) in Hr. lia. }
  split; [done|]. intros fd' E'. apply (inv_listed _ _ _ _ H') in E'. unfold refs in E'. rewrite Hnone in E'. cbn in E'. lia.
Qed.

Lemma close_all_ok l : ∀ h : heap,
  (∀ c, Z.of_nat (length (filter (λ p : Z * nat, p.2 = c) l)) ≤ refs h c) →
  ∃ h', close_all l h = Ret h' ∧ ∀ d, refs h' d = refs h d - Z.of_nat (length (filter (λ p : Z * nat, p.2 = d) l)).
Proof.
  induction l as [|[fd c] l IH]; intros h Hc; cbn [close_all].
  { exists h. split; [done|]. intros d. cbn. lia. }
  assert (Hcnt : ∀ d, Z.of_nat (length (filter (λ p : Z * nat, p.2 = d) ((fd, c) :: l))) =
    ind (c = d) + Z.of_nat (length (filter (λ p : Z * nat, p.2 = d) l))).
  { intros d. rewrite filter_cons. unfold ind. cbn [snd]. destruct (decide (c = d)); cbn [length]; lia. }
  assert (H1 : 1 ≤ refs h c). { specialize (Hc c). rewrite Hcnt in Hc. unfold ind in Hc. rewrite decide_True in Hc by done. lia. }
  destruct (refs_pos h c H1) as (k & Ek & _). unfold conn_get. rewrite Ek. cbn [rbind].
  destruct (decref_total (conn_died [c] h) c) as (h1 & -> & Hr1); [by rewrite died_refs|]. cbn [rbind].
  destruct (IH h1) as (h2 & -> & Hr2).
  { intros d. rewrite Hr1, died_refs. specialize (Hc d). rewrite Hcnt in Hc. lia. }
  exists h2. split; [done|]. intros d. rewrite Hr2, Hr1, died_refs, Hcnt. lia.
Qed.

(** Deleting the listener gives back what it holds, and nothing aborts. *)
Lemma listener_delete_inv e leak :
  ep_inv e leak → ∃ e', listener_delete e = Ret e' ∧ ep_inv e' leak ∧ ep_listen e' = ∅.
Proof.
  intros H. assert (Hl : ∀ c, Z.of_nat (length (filter (λ p : Z * nat, p.2 = c) (map_entries (ep_listen e)))) = listed (ep_listen e) c).
  { intros c. unfold listed, map_entries. by rewrite (merge_sort_Permutation key_le (map_to_list (ep_listen e))). }
  unfold listener_delete. destruct (close_all_ok (map_entries (ep_listen e)) (rs_heap (ep_srv e))) as (h & -> & Hr).
  { intros c. rewrite Hl, (inv_refs _ _ _ H). pose proof (held_nonneg (rs_conns (ep_srv e)) c).
    pose proof (queued_nonneg (ep_jobs e) (q_ (tp_jobq (ep_pool e))) c). pose proof (ei_leak _ _ H c). unfold queued. lia. }
  cbn [rbind]. eexists. split; [done|]. split; [|done]. destruct H as [Hc Hlk Ho Hj Hn Hp]. split; try done.
  intros c. cbn [ep_srv ep_listen]. specialize (Hc c). unfold owed in *. cbn [rs_heap rs_conns set_heap set_conns].
  rewrite Hr, Hl. unfold queued in *. cbn [ep_jobs ep_pool]. change (listed ∅ c) with 0. cbn. cbn in Hc. lia.
Qed.

(** A server that is deleted does not give back the connections of its
    clients.  [~rpcs] never aborts in the listener's destructor, and frees the
    stored replies; but nobody drops the references in [conns_], so in the
    end every client's last connection is still allocated. *)
Theorem deleted_server_keeps_connections random count o e0 e :
  endpoint_new random count o = Ret e0 → rtc (ep_step true) e0 e →
  abort_free (listener_delete e) ∧
  ∀ bufs e', rpcs_delete e bufs e' →
    ep_listen e' = ∅ ∧ rs_reply_window (ep_srv e') = ∅ ∧
    ∀ n c, rs_conns (ep_srv e') !! n = Some (Some c) → 1 ≤ refs (rs_heap (ep_srv e')) c.
Proof.
  intros E0 Hrun. destruct (ep_reachable_inv _ _ _ _ _ E0 Hrun) as [leak H].
  destruct (listener_delete_inv e leak H) as (e1 & E1 & H1 & El1). split; [by eexists|].
  intros bufs e' [e1' e2 E1' Hw Hq]. rewrite E1 in E1'. injection E1' as <-.
  assert (Hinv : (∃ leak, ep_inv e2 leak) ∧ ep_listen e2 = ∅).
  { revert e2 Hw Hq. intros e2 Hw _. revert e2 Hw. apply (rtc_ind_r (λ e2, (∃ leak, ep_inv e2 leak) ∧ ep_listen e2 = ∅)); [by eauto|].
    intros a b _ (fill & ok & died & E) [[lk Ha] Hla]. destruct (run_job_inv _ _ _ _ _ _ Ha E) as (lk' & Hb & _). split; [by eauto|].
    unfold run_job in E. destruct (worker_turn (ep_pool a)) as [[[j|] pool]|]; [|done..].
    destruct (ep_jobs a !! j); [|done]. by apply rbind_Ret in E as (s & _ & [= <-]). }
  destruct Hinv as [[lk H2] Hl2]. cbn [set_srv ep_srv ep_listen set_window rs_reply_window rs_conns rs_heap free_reply_window snd].
  split; [done|]. split; [done|]. intros n c Hc. rewrite (inv_refs _ _ c H2).
  pose proof (held_pos _ _ _ Hc). pose proof (listed_nonneg (ep_listen e2) c). pose proof (ei_leak _ _ H2 c).
  pose proof (queued_nonneg (ep_jobs e2) (q_ (tp_jobq (ep_pool e2))) c). unfold queued. lia.
Qed.

(** [got_pdu] reads [reachable_] a second time after it has queued the job:
    if the flag was cleared in between, it deletes the job that a worker
    will run. *)
Theorem unreachable_race_frees_job e j c k b sz fill ok died :
  rs_reachable (ep_srv e) = true → rs_heap (ep_srv e) !! c = Some k → 1 ≤ co_refno k →
  q_ (tp_jobq (ep_pool e)) = [] → 0 < max_ (tp_jobq (ep_pool e)) →
  ∃ e', rpcs_got_pdu j false c b sz e = Ret (Some (true, e')) ∧ run_job fill ok died e' = Fail UndefinedBehaviour.
Proof.
  intros Hr Hc Hk Hq Hm. unfold rpcs_got_pdu. rewrite Hr. cbn [negb].
  destruct (incref_total (rs_heap (ep_srv e)) c) as (h1 & E1 & Hr1). { unfold refs. rewrite Hc. cbn. lia. }
  rewrite E1. cbn [rbind]. unfold addJob, fifo_enq. rewrite Hq. cbn [length].
  replace (Z.of_nat 0 <? max_ (tp_jobq (ep_pool e))) with true by lia. rewrite orb_true_r. cbn [rbind negb orb].
  destruct (decref_total h1 c) as (h2 & E2 & _).
  { rewrite Hr1. unfold refs, ind. rewrite Hc, decide_True by done. cbn. lia. }
  cbn [set_heap set_conns rs_heap]. rewrite E2. cbn [rbind]. eexists. split; [done|].
  unfold run_job, worker_turn, takeJob. cbn. by rewrite lookup_delete_eq.
Qed.
End endpoint_inv.

(** ** A run: a connection is accepted, sends a request that is no PDU, and
    dies. *)
Definition ret_or {A} (d : A) (x : res A) : A := match x with Ret a => a | Fail _ => d end.
Definition demo_srv : rpcs Z := Rpcs 0 ∅ ∅ 0 0 ∅ true ∅ ∅ 0.
Definition demo_ep0 : endpoint Z := ret_or (Endpoint demo_srv ∅ ∅ (ThrPool_new 6 false)) (endpoint_new 5 0 0).
Definition demo_ep1 : endpoint Z := default demo_ep0 (ret_or None (process_accept (Some 10) 1 (100, 0) demo_ep0)).
Definition demo_ep2 : endpoint Z :=
  (default (true, demo_ep1) (ret_or None (rpcs_got_pdu 1 true 1 ["a"; "b"]%char 2 demo_ep1))).2.
Definition demo_ep3 : endpoint Z := set_srv (set_heap (ep_srv demo_ep1) (conn_died [1%nat] (rs_heap (ep_srv demo_ep1)))) demo_ep1.

Lemma demo_ep_run : rtc (ep_step true) demo_ep0 demo_ep2.
Proof.
  eapply rtc_l; [eapply (ES_accept _ _ (AccReady false true) 10 1 (100, 0) demo_ep1); reflexivity|].
  eapply rtc_l; [|apply rtc_refl].
  eapply (ES_pdu _ _ 1 true 1 (Conn (100, 0) 1 false []) ["a"; "b"]%char 2 true demo_ep2); [reflexivity..|intros _; reflexivity|reflexivity].
Qed.

Lemma endpoint_references_witness :
  q_ (tp_jobq (ep_pool demo_ep2)) = [Some 1%nat] ∧ refs (rs_heap (ep_srv demo_ep2)) 1 = 2 ∧
  ∃ job, ep_jobs demo_ep2 !! 1%nat = Some job ∧ is_Some (rs_heap (ep_srv demo_ep2) !! dj_conn job).
Proof.
  split; [reflexivity|]. split; [reflexivity|].
  destruct (endpoint_references 5 0 (0 : Z) demo_ep0 demo_ep2 eq_refl demo_ep_run) as (_ & _ & _ & H).
  apply H. apply list_elem_of_here.
Defined.

(** When the flag is cleared between the two reads, the queue holds a job that
    was deleted. *)
Theorem race_breaks_references :
  ∃ e, rtc (ep_step false) demo_ep0 e ∧ q_ (tp_jobq (ep_pool e)) = [Some 1%nat] ∧ ep_jobs e !! 1%nat = None.
Proof.
  eexists. split.
  - eapply rtc_l; [eapply (ES_accept _ _ (AccReady false true) 10 1 (100, 0) demo_ep1); reflexivity|].
    apply rtc_once. eapply (ES_pdu _ _ 1 false 1 (Conn (100, 0) 1 false []) ["a"; "b"]%char 2 true); [reflexivity..|discriminate|reflexivity].
  - split; reflexivity.
Qed.

Lemma demo_ep3_inv : ep_inv demo_ep3 (λ _, 0).
Proof.
  assert (ep_inv demo_ep0 (λ _, 0)) as H0 by (apply (new_inv 5 0 (0 : Z)); reflexivity).
  destruct (process_accept_inv demo_ep0 (λ _, 0) 10 1 (100, 0) H0) as (e' & E & H1 & _); [reflexivity|reflexivity|].
  assert (e' = demo_ep1) as -> by (unfold demo_ep1; rewrite E; reflexivity).
  destruct H1 as [Hcnt Hl Ho Hjobs Hn Hp]. split; try done. intros d. rewrite <- Hcnt.
  unfold demo_ep3, owed. cbn [set_srv ep_srv set_heap set_conns rs_heap rs_conns]. by rewrite died_refs.
Qed.

Lemma accept_collects_witness : ∃ e',
  process_accept (Some 11) 2 (200, 0) demo_ep3 = Ret (Some e') ∧
  rs_heap (ep_srv e') !! 1%nat = None ∧ ∀ fd', ep_listen e' !! fd' ≠ Some 1%nat.
Proof.
  destruct (accept_collects demo_ep3 (λ _, 0) 11 2 (200, 0) demo_ep3_inv) as (e' & E & _ & H); [reflexivity|reflexivity|].
  exists e'. split; [exact E|]. apply (H 10 1%nat (Conn (100, 0) 1 true [])); reflexivity.
Defined.
