(* ===== verification/Extent.v ===== *)
(** * The extent service (extent_server.cc, extent_client.cc)

    The server keeps the bytes and the attributes of numbered extents; the
    client caches both and writes an extent back when it is flushed.  The
    functions that read the clock take its value [now]; where the code leaves
    a field uninitialised the value is an argument. *)

From S2P Require Import Prelude Marshall Protocols.

(** ** The server *)

Record extent_server := ExtentServer {
  es_contents : gmap Z string;
  es_attributes : gmap Z attr }.

Definition extent_server_new : extent_server :=
  ExtentServer {[ 1 := "" ]} {[ 1 := Attr 0 0 0 0 ]}.

(** [buf.length()] stored in an [unsigned int]. *)
Definition length_u32 (buf : string) : Z := u32 (string_size buf).

(** [put] leaves [atime] uninitialised: [junk]. *)
Definition es_put (junk now : Z) (id : Z) (buf : string) (s : extent_server) : Z * extent_server :=
  (extent_protocol.OK,
   ExtentServer (<[id := buf]> (es_contents s))
     (<[id := Attr junk (u32 now) (u32 now) (length_u32 buf)]> (es_attributes s))).

Definition set_atime (now : Z) (a : attr) : attr := Attr (u32 now) (a_mtime a) (a_ctime a) (a_size a).

Definition es_get (now : Z) (id : Z) (buf : string) (s : extent_server) : Z * string * extent_server :=
  match es_contents s !! id with
  | None => (extent_protocol.IOERR, buf, s)
  | Some content =>
      let '(a, attrs) := map_ref (Attr 0 0 0 0) (es_attributes s) id in
      (extent_protocol.OK, content, ExtentServer (es_contents s) (<[id := set_atime now a]> attrs))
  end.

Definition es_getattr (id : Z) (a : attr) (s : extent_server) : Z * attr * extent_server :=
  match es_attributes s !! id with
  | None => (extent_protocol.IOERR, a, s)
  | Some a => (extent_protocol.OK, a, s)
  end.

Definition es_remove (id : Z) (s : extent_server) : Z * extent_server :=
  match es_contents s !! id with
  | None => (extent_protocol.IOERR, s)
  | Some _ => (extent_protocol.OK,
      ExtentServer (delete id (es_contents s)) (delete id (es_attributes s)))
  end.

(** ** The client *)

(** The calls of the stub [cl], with what the variable they are to fill holds
    before; a call without a reply leaves it alone. *)
Record extent_net (W : Type) := ExtentNet {
  xn_put : Z → string → W → Z * W;
  xn_get : Z → string → W → Z * string * W;
  xn_getattr : Z → attr → W → Z * attr * W;
  xn_remove : Z → W → Z * W }.
Arguments ExtentNet {W}.
Arguments xn_put {W}.
Arguments xn_get {W}.
Arguments xn_getattr {W}.
Arguments xn_remove {W}.

Record extent_client := ExtentClient {
  ec_contents : gmap Z string;
  ec_attributes : gmap Z attr }.

Definition extent_client_new : extent_client := ExtentClient ∅ ∅.

(** Both maps forget the extent. *)
Definition ec_erase (eid : Z) (c : extent_client) : extent_client :=
  ExtentClient (delete eid (ec_contents c)) (delete eid (ec_attributes c)).

Section client.
Context {W : Type} (net : extent_net W).

(** [junk]: the uninitialised local [attr]. *)
Definition ec_get (junk : attr) (now : Z) (eid : Z) (buf : string) (c : extent_client) (w : W)
    : Z * string * extent_client * W :=
  let ret := extent_protocol.OK in
  let '(ret, attrs, w) :=
    match ec_attributes c !! eid with
    | Some _ => (ret, ec_attributes c, w)
    | None =>
        let '(ret, attr, w) := xn_getattr net eid junk w in
        (ret, <[eid := attr]> (ec_attributes c), w)
    end in
  let '(a, attrs) := map_ref (Attr 0 0 0 0) attrs eid in
  let attrs := <[eid := set_atime now a]> attrs in
  let '(ret, buf, contents, w) :=
    match ec_contents c !! eid with
    | Some content => (ret, content, ec_contents c, w)
    | None =>
        let '(ret, buf, w) := xn_get net eid buf w in
        (ret, buf, <[eid := buf]> (ec_contents c), w)
    end in
  let c := ExtentClient contents attrs in
  (ret, buf, if ret =? extent_protocol.OK then c else ec_erase eid c, w).

Definition ec_getattr (eid : Z) (attr : attr) (c : extent_client) (w : W)
    : Z * Protocols.attr * extent_client * W :=
  match ec_attributes c !! eid with
  | Some a => (extent_protocol.OK, a, c, w)
  | None =>
      let '(ret, a, w) := xn_getattr net eid attr w in
      let c := ExtentClient (ec_contents c) (<[eid := a]> (ec_attributes c)) in
      (ret, a, if ret =? extent_protocol.OK then c else ec_erase eid c, w)
  end.

Definition ec_put (now : Z) (eid : Z) (buf : string) (c : extent_client) : Z * extent_client :=
  let '(a, attrs) := map_ref (Attr 0 0 0 0) (ec_attributes c) eid in
  (extent_protocol.OK,
   ExtentClient (<[eid := buf]> (ec_contents c))
     (<[eid := Attr (a_atime a) (u32 now) (u32 now) (length_u32 buf)]> attrs)).

Definition ec_remove (eid : Z) (c : extent_client) : Z * extent_client :=
  (extent_protocol.OK, ec_erase eid c).

Definition ec_flush (eid : Z) (c : extent_client) (w : W) : Z * extent_client * W :=
  let '(ret, w) :=
    match ec_attributes c !! eid with
    | None => xn_remove net eid w
    | Some _ =>
        match ec_contents c !! eid with
        | Some buf => xn_put net eid buf w
        | None => (extent_protocol.OK, w)
        end
    end in
  (ret, ec_erase eid c, w).
End client.

(** ** The server implements a map *)

Inductive extent_request :=
| PutReq (id : Z) (buf : string)
| GetReq (id : Z)
| GetAttrReq (id : Z)
| RemoveReq (id : Z).

(** The answer without the times: a status and the bytes or the size. *)
Inductive extent_reply := Answered (ret : Z) (data : option (string + Z)).

Definition es_serve (junk now : Z) (q : extent_request) (s : extent_server) : extent_reply * extent_server :=
  match q with
  | PutReq id buf => let '(ret, s) := es_put junk now id buf s in (Answered ret None, s)
  | GetReq id =>
      let '(ret, buf, s) := es_get now id "" s in
      (Answered ret (if ret =? extent_protocol.OK then Some (inl buf) else None), s)
  | GetAttrReq id =>
      let '(ret, a, s) := es_getattr id (Attr 0 0 0 0) s in
      (Answered ret (if ret =? extent_protocol.OK then Some (inr (a_size a)) else None), s)
  | RemoveReq id => let '(ret, s) := es_remove id s in (Answered ret None, s)
  end.

(** The same requests on a map from numbers to bytes. *)
Definition store_serve (q : extent_request) (m : gmap Z string) : extent_reply * gmap Z string :=
  match q with
  | PutReq id buf => (Answered extent_protocol.OK None, <[id := buf]> m)
  | GetReq id =>
      match m !! id with
      | Some buf => (Answered extent_protocol.OK (Some (inl buf)), m)
      | None => (Answered extent_protocol.IOERR None, m)
      end
  | GetAttrReq id =>
      match m !! id with
      | Some buf => (Answered extent_protocol.OK (Some (inr (length_u32 buf))), m)
      | None => (Answered extent_protocol.IOERR None, m)
      end
  | RemoveReq id =>
      match m !! id with
      | Some _ => (Answered extent_protocol.OK None, delete id m)
      | None => (Answered extent_protocol.IOERR None, m)
      end
  end.

(** Each extent has attributes with its size, and only extents do. *)
Definition es_inv (s : extent_server) : Prop :=
  ∀ id, a_size <$> es_attributes s !! id = length_u32 <$> es_contents s !! id.

Lemma es_inv_cases s id :
  es_inv s →
  (∃ buf a, es_contents s !! id = Some buf ∧ es_attributes s !! id = Some a ∧ a_size a = length_u32 buf) ∨
  (es_contents s !! id = None ∧ es_attributes s !! id = None).
Proof.
  intros Hi. specialize (Hi id).
  destruct (es_contents s !! id) as [buf|], (es_attributes s !! id) as [a|]; simpl in Hi; naive_solver.
Qed.

Lemma es_inv_insert s id buf a :
  es_inv s → a_size a = length_u32 buf →
  es_inv (ExtentServer (<[id := buf]> (es_contents s)) (<[id := a]> (es_attributes s))).
Proof.
  intros Hi Ha j. simpl. destruct (decide (id = j)) as [<-|Hne].
  - rewrite !lookup_insert_eq. simpl. by rewrite Ha.
  - rewrite !lookup_insert_ne by done. apply Hi.
Qed.

Lemma es_serve_refines junk now q s :
  es_inv s →
  es_inv (es_serve junk now q s).2 ∧
  store_serve q (es_contents s) = ((es_serve junk now q s).1, es_contents (es_serve junk now q s).2).
Proof.
  intros Hi. destruct q as [id buf|id|id|id]; simpl.
  - split; [by apply es_inv_insert|done].
  - unfold es_get, map_ref. destruct (es_inv_cases s id Hi) as [(buf & a & E1 & E2 & E3)|[E1 E2]];
      rewrite E1, ?E2; simpl; [|done]. split; [|done].
    rewrite <- (insert_id (es_contents s) id buf) at 1 by done. by apply es_inv_insert.
  - unfold es_getattr. destruct (es_inv_cases s id Hi) as [(buf & a & E1 & E2 & E3)|[E1 E2]];
      rewrite E1, E2; simpl; [by rewrite E3|done].
  - unfold es_remove. destruct (es_inv_cases s id Hi) as [(buf & a & E1 & E2 & E3)|[E1 E2]];
      rewrite E1; simpl; [|done]. split; [|done]. intros j. simpl.
    destruct (decide (id = j)) as [<-|Hne]; [by rewrite !lookup_delete_eq|].
    rewrite !lookup_delete_ne by done. apply Hi.
Qed.

(** A sequence of requests with the clock and the junk of each. *)
Fixpoint es_serve_all (qs : list (Z * Z * extent_request)) (s : extent_server)
    : list extent_reply * extent_server :=
  match qs with
  | [] => ([], s)
  | (junk, now, q) :: qs =>
      let '(r, s) := es_serve junk now q s in
      let '(rs, s) := es_serve_all qs s in (r :: rs, s)
  end.
Fixpoint store_serve_all (qs : list extent_request) (m : gmap Z string)
    : list extent_reply * gmap Z string :=
  match qs with
  | [] => ([], m)
  | q :: qs =>
      let '(r, m) := store_serve q m in
      let '(rs, m) := store_serve_all qs m in (r :: rs, m)
  end.

(** The extent server is a map.  From its initial state, with any clock,
    it answers every sequence of put, get, getattr and remove requests with
    the statuses, bytes and sizes that a map from extent numbers to bytes
    gives, starting with the empty root directory. *)
Theorem extent_server_correct qs :
  store_serve_all (snd <$> qs) {[ 1 := "" ]} =
    ((es_serve_all qs extent_server_new).1, es_contents (es_serve_all qs extent_server_new).2).
Proof.
  assert (Hi : es_inv extent_server_new).
  { intros id. destruct (decide (id = 1)) as [->|Hne]; [done|].
    simpl. by rewrite !lookup_singleton_ne. }
  change {[ 1 := "" ]} with (es_contents extent_server_new).
  revert Hi. generalize extent_server_new as s. induction qs as [|[[junk now] q] qs IH]; intros s Hi; [done|].
  rewrite fmap_cons. cbn [store_serve_all es_serve_all snd].
  destruct (es_serve_refines junk now q s Hi) as [Hi' E]. rewrite E.
  destruct (es_serve junk now q s) as [r s']; simpl in *. specialize (IH s' Hi').
  rewrite IH.
  by destruct (es_serve_all qs s').
Qed.

(** ** The cache *)

(** The calls of the stub when the server executes them: the reply carries
    the variable the server's stub declared, also when the status is an
    error. *)
Definition server_net (junk now : Z) : extent_net extent_server := {|
  xn_put id buf s := es_put junk now id buf s;
  xn_get id _ s := es_get now id "" s;
  xn_getattr id _ s := es_getattr id (Attr 0 0 0 0) s;
  xn_remove id s := es_remove id s |}.

(** What the client sees: its cache over the server. *)
Definition ec_view (c : extent_client) (s : extent_server) : gmap Z string := ec_contents c ∪ es_contents s.

(** The cached attributes carry the size of the extent the client sees, and
    cached bytes have attributes. *)
Definition ec_inv (c : extent_client) (s : extent_server) : Prop :=
  es_inv s ∧
  (∀ id a, ec_attributes c !! id = Some a → a_size <$> Some a = length_u32 <$> ec_view c s !! id) ∧
  (∀ id, is_Some (ec_contents c !! id) → is_Some (ec_attributes c !! id)).

(** What the lock discipline lets the file system ask of the client. *)
Inductive client_request :=
| CGet (id : Z)
| CGetAttr (id : Z)
| CPut (id : Z) (buf : string)
| CFlush (id : Z).

Definition ec_serve (junk : attr) (jnk now : Z) (q : client_request) (c : extent_client) (s : extent_server)
    : extent_reply * extent_client * extent_server :=
  let net := server_net jnk now in
  match q with
  | CGet id =>
      let '(ret, buf, c, s) := ec_get net junk now id "" c s in
      (Answered ret (if ret =? extent_protocol.OK then Some (inl buf) else None), c, s)
  | CGetAttr id =>
      let '(ret, a, c, s) := ec_getattr net id junk c s in
      (Answered ret (if ret =? extent_protocol.OK then Some (inr (a_size a)) else None), c, s)
  | CPut id buf => let '(ret, c) := ec_put now id buf c in (Answered ret None, c, s)
  | CFlush id => let '(ret, c, s) := ec_flush net id c s in (Answered ret None, c, s)
  end.

Definition view_serve (q : client_request) (m : gmap Z string) : extent_reply * gmap Z string :=
  match q with
  | CGet id => store_serve (GetReq id) m
  | CGetAttr id => store_serve (GetAttrReq id) m
  | CPut id buf => store_serve (PutReq id buf) m
  | CFlush id => (Answered extent_protocol.OK None, m)
  end.

(** A flush is for an extent the client has cached. *)
Definition allowed (q : client_request) (c : extent_client) : Prop :=
  match q with CFlush id => is_Some (ec_attributes c !! id) | _ => True end.

Lemma view_cached c s id buf : ec_contents c !! id = Some buf → ec_view c s !! id = Some buf.
Proof. intros E. unfold ec_view. by apply lookup_union_Some_l. Qed.

Lemma view_server c s id : ec_contents c !! id = None → ec_view c s !! id = es_contents s !! id.
Proof. intros E. unfold ec_view. by apply lookup_union_r. Qed.

(** Caching what the server has does not change the view. *)
Lemma view_fill c s id buf attrs :
  ec_contents c !! id = None → es_contents s !! id = Some buf →
  ec_view (ExtentClient (<[id := buf]> (ec_contents c)) attrs) s = ec_view c s.
Proof.
  intros E1 E2. apply map_eq. intros j. destruct (decide (id = j)) as [<-|Hne].
  - rewrite (view_cached _ _ _ buf) by (simpl; by rewrite lookup_insert_eq). by rewrite view_server.
  - unfold ec_view; simpl. rewrite !lookup_union, lookup_insert_ne by done. done.
Qed.

Lemma es_get_hit now id b s buf :
  es_inv s → es_contents s !! id = Some buf →
  ∃ s', es_get now id b s = (extent_protocol.OK, buf, s') ∧ es_contents s' = es_contents s ∧ es_inv s'.
Proof.
  intros Hi E. destruct (es_serve_refines 0 now (GetReq id) s Hi) as [Hi' _]. simpl in Hi'.
  unfold es_get in *. rewrite E in *. destruct (map_ref _ _ _) as [a attrs]. simpl in *. by eauto.
Qed.

(** The invariant of a client whose cache holds [id] and whose other entries
    are those of [c]. *)
Lemma ec_inv_insert c s s' id buf a attrs contents :
  ec_inv c s → es_inv s' → a_size a = length_u32 buf →
  contents !! id = Some buf →
  (∀ j, j ≠ id → contents !! j = ec_contents c !! j ∧ attrs !! j = ec_attributes c !! j ∧
    es_contents s' !! j = es_contents s !! j) →
  ec_inv (ExtentClient contents (<[id := a]> attrs)) s'.
Proof.
  intros (Hs & Hz & Hd) Hs' Ha Hb Ho. split; [done|].
  assert (Hv : ∀ j, j ≠ id → ec_view (ExtentClient contents (<[id := a]> attrs)) s' !! j = ec_view c s !! j).
  { intros j Hj. destruct (Ho j Hj) as (E1 & _ & E3). unfold ec_view; simpl. by rewrite !lookup_union, E1, E3. }
  split; simpl.
  - intros j b. destruct (decide (id = j)) as [<-|Hne].
    + rewrite lookup_insert_eq. intros [= <-]. by rewrite (view_cached _ _ _ buf), Ha.
    + rewrite lookup_insert_ne by done. destruct (Ho j) as (_ & E2 & _); [done|].
      rewrite E2, Hv by done. apply Hz.
  - intros j. destruct (decide (id = j)) as [<-|Hne]; [by rewrite lookup_insert_eq|].
    rewrite lookup_insert_ne by done. destruct (Ho j) as (E1 & E2 & _); [done|]. rewrite E1, E2. apply Hd.
Qed.

(** Forgetting an extent whose bytes are not cached. *)
Lemma ec_erase_insert c id buf a attrs :
  ec_contents c !! id = None → ec_attributes c !! id = None →
  (∀ j, j ≠ id → attrs !! j = ec_attributes c !! j) →
  ec_erase id (ExtentClient (<[id := buf]> (ec_contents c)) (<[id := a]> attrs)) = c.
Proof.
  intros E1 E2 Hj. destruct c as [contents attributes]. unfold ec_erase; simpl in *. f_equal.
  - by rewrite delete_insert_id.
  - apply map_eq. intros j. destruct (decide (id = j)) as [<-|Hne]; [by rewrite lookup_delete_eq|].
    rewrite lookup_delete_ne, lookup_insert_ne by done. auto.
Qed.

Lemma ec_get_refines junk jnk now id b0 c s :
  ec_inv c s →
  match ec_view c s !! id with
  | Some buf => ∃ c' s', ec_get (server_net jnk now) junk now id b0 c s = (extent_protocol.OK, buf, c', s') ∧
      ec_inv c' s' ∧ ec_view c' s' = ec_view c s
  | None => ∃ b, ec_get (server_net jnk now) junk now id b0 c s = (extent_protocol.IOERR, b, c, s)
  end.
Proof.
  intros Hi. pose proof Hi as (Hs & Hz & Hd). unfold ec_get.
  destruct (ec_attributes c !! id) as [a|] eqn:Ea; cbn zeta.
  - unfold map_ref at 1. rewrite Ea. pose proof (Hz id a Ea) as Hsz.
    destruct (ec_contents c !! id) as [buf|] eqn:Ec.
    + rewrite (view_cached _ _ _ buf Ec) in Hsz |- *. simpl in Hsz. injection Hsz as Hsz. simpl.
      do 2 eexists. split; [done|]. split; [|done]. by eapply (ec_inv_insert c s).
    + rewrite (view_server _ _ _ Ec) in Hsz |- *.
      destruct (es_contents s !! id) as [buf|] eqn:Es; [|done]. simpl in Hsz. injection Hsz as Hsz.
      destruct (es_get_hit now id "" s buf Hs Es) as (s' & E & Hc' & Hs'). cbn [xn_get server_net].
      rewrite E. simpl. do 2 eexists. split; [done|]. split.
      * eapply (ec_inv_insert c s); [done..|by rewrite lookup_insert_eq|].
        intros j Hj. rewrite lookup_insert_ne, Hc' by done. done.
      * unfold ec_view; simpl. rewrite Hc'. by apply (view_fill c s id buf ∅).
  - assert (Ec : ec_contents c !! id = None).
    { destruct (ec_contents c !! id) eqn:Ec; [|done]. destruct (Hd id) as [? ?]; [by rewrite Ec|]. congruence. }
    cbn [xn_get xn_getattr server_net]. unfold es_getattr. rewrite (view_server _ _ _ Ec), Ec.
    destruct (es_inv_cases s id Hs) as [(buf & a & E1 & E2 & E3)|[E1 E2]]; rewrite E1, E2; cbn zeta.
    + unfold map_ref at 1. rewrite lookup_insert_eq.
      destruct (es_get_hit now id "" s buf Hs E1) as (s' & E & Hc' & Hs'). rewrite E. simpl.
      do 2 eexists. split; [done|]. split.
      * eapply (ec_inv_insert c s); [done..|by rewrite lookup_insert_eq|].
        intros j Hj. rewrite !lookup_insert_ne, Hc' by done. done.
      * unfold ec_view; simpl. rewrite Hc'. by apply (view_fill c s id buf ∅).
    + unfold map_ref at 1. rewrite lookup_insert_eq. unfold es_get. rewrite E1. simpl.
      eexists. do 2 f_equal. apply ec_erase_insert; [done..|]. intros j Hj. by rewrite lookup_insert_ne.
Qed.

Lemma ec_getattr_refines junk jnk now id c s :
  ec_inv c s →
  match ec_view c s !! id with
  | Some buf => ∃ a c', ec_getattr (server_net jnk now) id junk c s = (extent_protocol.OK, a, c', s) ∧
      a_size a = length_u32 buf ∧ ec_inv c' s ∧ ec_view c' s = ec_view c s
  | None => ∃ a, ec_getattr (server_net jnk now) id junk c s = (extent_protocol.IOERR, a, c, s)
  end.
Proof.
  intros Hi. pose proof Hi as (Hs & Hz & Hd). unfold ec_getattr.
  destruct (ec_attributes c !! id) as [a|] eqn:Ea.
  - pose proof (Hz id a Ea) as Hsz. destruct (ec_view c s !! id) as [buf|]; [|done].
    simpl in Hsz. injection Hsz as Hsz. by eauto 10.
  - assert (Ec : ec_contents c !! id = None).
    { destruct (ec_contents c !! id) eqn:Ec; [|done]. destruct (Hd id) as [? ?]; [by rewrite Ec|]. congruence. }
    cbn [xn_getattr server_net]. unfold es_getattr. rewrite (view_server _ _ _ Ec).
    destruct (es_inv_cases s id Hs) as [(buf & a & E1 & E2 & E3)|[E1 E2]]; rewrite E1, E2; simpl.
    + do 2 eexists. split; [done|]. split; [done|]. split; [|done]. split; [done|]. simpl. split.
      * intros j b. destruct (decide (id = j)) as [<-|Hne]; [|rewrite lookup_insert_ne by done; apply Hz].
        rewrite lookup_insert_eq. intros [= <-].
        change (ec_view (ExtentClient (ec_contents c) _) s) with (ec_view c s).
        by rewrite (view_server _ _ _ Ec), E1, E3.
      * intros j Hj. destruct (decide (id = j)) as [<-|Hne]; [by rewrite lookup_insert_eq|].
        rewrite lookup_insert_ne by done. by apply Hd.
    + eexists. do 2 f_equal. destruct c as [contents attributes]. unfold ec_erase; simpl in *.
      by rewrite delete_id, delete_insert_id.
Qed.

Lemma ec_put_refines now id buf c s :
  ec_inv c s →
  ec_inv (ec_put now id buf c).2 s ∧ ec_view (ec_put now id buf c).2 s = <[id := buf]> (ec_view c s).
Proof.
  intros Hi. unfold ec_put.
  assert (Ha : ∀ j, j ≠ id → (map_ref (Attr 0 0 0 0) (ec_attributes c) id).2 !! j = ec_attributes c !! j).
  { intros j Hj. unfold map_ref. destruct (ec_attributes c !! id); simpl; [done|]. by rewrite lookup_insert_ne. }
  destruct (map_ref _ _ _) as [a attrs]; simpl in *. split.
  - eapply (ec_inv_insert c s); [done|by destruct Hi|done|by rewrite lookup_insert_eq|].
    intros j Hj. rewrite lookup_insert_ne by done. auto.
  - unfold ec_view; simpl. by rewrite insert_union_l.
Qed.

Lemma ec_erase_view c s s' id :
  ec_inv c s → es_inv s' → es_contents s' = partial_alter (λ _, ec_view c s !! id) id (es_contents s) →
  ec_inv (ec_erase id c) s' ∧ ec_view (ec_erase id c) s' = ec_view c s.
Proof.
  intros (Hs & Hz & Hd) Hs' Hc.
  assert (Hv : ec_view (ec_erase id c) s' = ec_view c s).
  { apply map_eq. intros j. unfold ec_view at 1; simpl. rewrite lookup_union.
    destruct (decide (id = j)) as [<-|Hne].
    - rewrite lookup_delete_eq, Hc, lookup_partial_alter_eq. by destruct (ec_view c s !! id).
    - rewrite lookup_delete_ne, Hc, lookup_partial_alter_ne by done. unfold ec_view. by rewrite lookup_union. }
  split; [|done]. split; [done|]. rewrite Hv. simpl. split.
  - intros j a. destruct (decide (id = j)) as [<-|Hne]; [by rewrite lookup_delete_eq|].
    rewrite lookup_delete_ne by done. apply Hz.
  - intros j. destruct (decide (id = j)) as [<-|Hne]; [rewrite !lookup_delete_eq; by intros []|].
    rewrite !lookup_delete_ne by done. apply Hd.
Qed.

Lemma ec_flush_refines jnk now id c s :
  ec_inv c s → is_Some (ec_attributes c !! id) →
  ∃ c' s', ec_flush (server_net jnk now) id c s = (extent_protocol.OK, c', s') ∧
    ec_inv c' s' ∧ ec_view c' s' = ec_view c s ∧
    es_contents s' = partial_alter (λ _, ec_view c s !! id) id (es_contents s) ∧ c' = ec_erase id c.
Proof.
  intros Hi [a Ea]. unfold ec_flush. rewrite Ea. pose proof Hi as (Hs & Hz & _).
  destruct (ec_contents c !! id) as [buf|] eqn:Ec; cbn [xn_put server_net es_put].
  - assert (E : es_contents (es_put jnk now id buf s).2 = partial_alter (λ _, ec_view c s !! id) id (es_contents s)).
    { by rewrite (view_cached _ _ _ buf Ec). }
    do 2 eexists. split; [done|]. rewrite (and_assoc (ec_inv _ _)). split; [|done].
    apply ec_erase_view; [done|by apply es_inv_insert|done].
  - assert (E : es_contents s = partial_alter (λ _, ec_view c s !! id) id (es_contents s)).
    { rewrite (view_server _ _ _ Ec). by rewrite partial_alter_self. }
    do 2 eexists. split; [done|]. rewrite (and_assoc (ec_inv _ _)). split; [|done].
    by apply ec_erase_view.
Qed.

Lemma ec_serve_refines junk jnk now q c s :
  ec_inv c s → allowed q c →
  let '(r, c', s') := ec_serve junk jnk now q c s in
  ec_inv c' s' ∧ view_serve q (ec_view c s) = (r, ec_view c' s').
Proof.
  intros Hi Ha. destruct q as [id|id|id buf|id]; cbn -[extent_protocol.OK ec_get ec_getattr].
  - pose proof (ec_get_refines junk jnk now id "" c s Hi) as Hg.
    destruct (ec_view c s !! id) as [buf|] eqn:Ev.
    + destruct Hg as (c' & s' & -> & Hi' & Hv). cbn. by rewrite Hv.
    + destruct Hg as (b & ->). done.
  - pose proof (ec_getattr_refines junk jnk now id c s Hi) as Hg.
    destruct (ec_view c s !! id) as [buf|] eqn:Ev.
    + destruct Hg as (a & c' & -> & Hsz & Hi' & Hv). cbn. by rewrite Hv, Hsz.
    + destruct Hg as (b & ->). done.
  - destruct (ec_put_refines now id buf c s Hi) as [Hi' Hv].
    destruct (ec_put now id buf c) as [ret c'] eqn:E. simpl in *. rewrite Hv. split; [done|].
    unfold ec_put in E. destruct (map_ref _ _ _). by injection E as <- _.
  - destruct (ec_flush_refines jnk now id c s Hi Ha) as (c' & s' & -> & Hi' & Hv & _). by rewrite Hv.
Qed.

(** Requests of the file system in order, each with its clock and junk. *)
Fixpoint ec_serve_all (qs : list (attr * Z * Z * client_request)) (c : extent_client) (s : extent_server)
    : list extent_reply * extent_client * extent_server :=
  match qs with
  | [] => ([], c, s)
  | (junk, jnk, now, q) :: qs =>
      let '(r, c, s) := ec_serve junk jnk now q c s in
      let '(rs, c, s) := ec_serve_all qs c s in (r :: rs, c, s)
  end.
Fixpoint view_serve_all (qs : list client_request) (m : gmap Z string) : list extent_reply * gmap Z string :=
  match qs with
  | [] => ([], m)
  | q :: qs =>
      let '(r, m) := view_serve q m in
      let '(rs, m) := view_serve_all qs m in (r :: rs, m)
  end.
Fixpoint allowed_all (qs : list (attr * Z * Z * client_request)) (c : extent_client) (s : extent_server) : Prop :=
  match qs with
  | [] => True
  | (junk, jnk, now, q) :: qs =>
      allowed q c ∧ let '(_, c, s) := ec_serve junk jnk now q c s in allowed_all qs c s
  end.

(** C34: the cache of the extent client is transparent.  A client that starts
    with an empty cache, and flushes only extents it has cached, answers every
    sequence of get, getattr, put and flush with the statuses, bytes and sizes
    of a map that starts with the contents of the server; flushing changes
    nothing that the client can see. *)
Theorem extent_cache_transparent qs s :
  es_inv s → allowed_all qs extent_client_new s →
  let '(rs, c, s') := ec_serve_all qs extent_client_new s in
  view_serve_all (snd <$> qs) (es_contents s) = (rs, ec_view c s').
Proof.
  intros Hs. assert (Hi : ec_inv extent_client_new s).
  { split; [done|]. split; [done|]. intros id [? H]. done. }
  assert (Hv : es_contents s = ec_view extent_client_new s) by (symmetry; apply map_empty_union).
  rewrite Hv. clear Hv Hs. revert Hi. generalize extent_client_new as c. revert s.
  induction qs as [|[[[junk jnk] now] q] qs IH]; intros s c Hi Ha; [done|].
  rewrite fmap_cons. cbn [ec_serve_all view_serve_all allowed_all snd] in *. destruct Ha as [Ha Has].
  pose proof (ec_serve_refines junk jnk now q c s Hi Ha) as Hr.
  destruct (ec_serve junk jnk now q c s) as [[r c1] s1]. destruct Hr as [Hi1 ->].
  specialize (IH s1 c1 Hi1 Has). destruct (ec_serve_all qs c1 s1) as [[rs c2] s2]. by rewrite IH.
Qed.

Lemma extent_cache_transparent_witness :
  let qs := [(Attr 9 9 9 9, 5, 100, CPut 7 "hello"); (Attr 9 9 9 9, 5, 101, CGet 7);
             (Attr 9 9 9 9, 5, 102, CFlush 7); (Attr 9 9 9 9, 5, 103, CGetAttr 7)] in
  let '(rs, c, s') := ec_serve_all qs extent_client_new extent_server_new in
  view_serve_all (snd <$> qs) (es_contents extent_server_new) = (rs, ec_view c s').
Proof.
  intros qs. apply (extent_cache_transparent qs extent_server_new).
  - intros id. destruct (decide (id = 1)) as [->|Hne]; [done|]. simpl. by rewrite !lookup_singleton_ne.
  - vm_compute. repeat split. by eexists.
Defined.

(** A flush publishes.  When a client flushes an extent it has cached,
    what it saw of the extent is what any client that has not cached it reads
    next, and every other extent is as the server had it. *)
Theorem flush_publishes junk jnk now now' id c s d :
  ec_inv c s → is_Some (ec_attributes c !! id) → ec_view c s !! id = Some d →
  ∃ s', ec_flush (server_net jnk now) id c s = (extent_protocol.OK, ec_erase id c, s') ∧
    (∀ j, j ≠ id → es_contents s' !! j = es_contents s !! j) ∧
    ∀ c', ec_inv c' s' → ec_contents c' !! id = None →
      ∃ c'' s'', ec_get (server_net jnk now') junk now' id "" c' s' = (extent_protocol.OK, d, c'', s'').
Proof.
  intros Hi Ha Hd. destruct (ec_flush_refines jnk now id c s Hi Ha) as (c1 & s1 & E & Hi1 & Hv & Hs & ->).
  exists s1. split; [done|]. rewrite Hs. split; [intros j Hj; by apply lookup_partial_alter_ne|]. intros c' Hi' Hc'.
  pose proof (ec_get_refines junk jnk now' id "" c' s1 Hi') as Hg.
  rewrite (view_server _ _ _ Hc'), Hs, lookup_partial_alter_eq, Hd in Hg. destruct Hg as (c2 & s2 & -> & _). by eauto.
Qed.

Definition demo_dirty : extent_client := (ec_put 100 7 "hello" extent_client_new).2.

Lemma demo_dirty_inv : ec_inv demo_dirty extent_server_new.
Proof.
  apply ec_put_refines. split; [|split; [done|]].
  - intros id. destruct (decide (id = 1)) as [->|Hne]; [done|]. simpl. by rewrite !lookup_singleton_ne.
  - intros id [? H]. done.
Qed.

Lemma flush_publishes_witness :
  ∃ s', ec_flush (server_net 5 101) 7 demo_dirty extent_server_new = (extent_protocol.OK, ec_erase 7 demo_dirty, s') ∧
    (∀ j, j ≠ 7 → es_contents s' !! j = es_contents extent_server_new !! j) ∧
    ∀ c', ec_inv c' s' → ec_contents c' !! 7 = None →
      ∃ c'' s'', ec_get (server_net 5 102) (Attr 9 9 9 9) 102 7 "" c' s' = (extent_protocol.OK, "hello", c'', s'').
Proof.
  apply (flush_publishes (Attr 9 9 9 9) 5 101 102 7 demo_dirty extent_server_new "hello").
  - apply demo_dirty_inv.
  - by eexists.
  - reflexivity.
Defined.

(** A flush of an extent that is not in the cache deletes it.  [flush]
    takes the absence of cached attributes for a removal: when the client has
    merely not used the extent since it got the lock, the server loses it. *)
Theorem flush_untouched_removes jnk now id c s d :
  ec_attributes c !! id = None → es_contents s !! id = Some d →
  ∃ c' s', ec_flush (server_net jnk now) id c s = (extent_protocol.OK, c', s') ∧
    es_contents s' = delete id (es_contents s).
Proof.
  intros Ha Hd. unfold ec_flush. rewrite Ha. cbn [xn_remove server_net]. unfold es_remove. rewrite Hd. by eauto.
Qed.

Lemma flush_untouched_removes_witness :
  ∃ c' s', ec_flush (server_net 5 100) 1 extent_client_new extent_server_new = (extent_protocol.OK, c', s') ∧
    es_contents s' = delete 1 (es_contents extent_server_new).
Proof. apply (flush_untouched_removes 5 100 1 extent_client_new extent_server_new ""); reflexivity. Defined.

(** A removed extent comes back.  [remove] forgets the extent in the
    cache only, so the next [get] of the same client fetches it from the
    server again, with the contents it had there. *)
Theorem removed_extent_returns junk jnk now id c s d :
  es_inv s → es_contents s !! id = Some d →
  ∃ c' s', ec_get (server_net jnk now) junk now id "" (ec_remove id c).2 s = (extent_protocol.OK, d, c', s').
Proof.
  intros Hs Hd. simpl. unfold ec_get. cbn [ec_attributes ec_contents ec_erase]. rewrite !lookup_delete_eq.
  cbn [xn_getattr xn_get server_net]. unfold es_getattr.
  destruct (es_inv_cases s id Hs) as [(buf & a & E1 & E2 & E3)|[E1 E2]]; [|congruence].
  rewrite E2. unfold map_ref at 1. rewrite lookup_insert_eq.
  destruct (es_get_hit now id "" s d Hs Hd) as (s' & -> & _). by eauto.
Qed.

Lemma removed_extent_returns_witness :
  ∃ c' s', ec_get (server_net 5 101) (Attr 9 9 9 9) 101 1 "" (ec_remove 1 extent_client_new).2 extent_server_new
    = (extent_protocol.OK, "", c', s').
Proof.
  apply (removed_extent_returns (Attr 9 9 9 9) 5 101 1 extent_client_new extent_server_new ""); [|reflexivity].
  intros id. destruct (decide (id = 1)) as [->|Hne]; [done|]. simpl. by rewrite !lookup_singleton_ne.
Defined.
