(* ===== verification/Session.v ===== *)
(** * A client and a server (rpc/rpc.cc, extent_smain.cc)

    [rpcc::call1], the connection, [rpcs::got_pdu], the pool, [rpcs::dispatch]
    and [rpcc::got_pdu] put together: a call of a client carried to a server
    and back, by the code of both sides.  On top of it the extent service as
    its main program sets it up. *)

From S2P Require Import Prelude Marshall Protocols Stubs Connection RpcServer ThrPool RpcClient Endpoint Extent.

(** ** A call *)

Section remote.
Context {S : Type}.

(** A packet reaches the server over the connection [k]: the poll thread
    hands it to [got_pdu] and a worker takes the next job; [j] is the address
    of the new job. *)
Definition serve_pdu (fill : ascii) (k j : nat) (pdu : list ascii) (e : endpoint S) : res (endpoint S) :=
  r ← rpcs_got_pdu j (rs_reachable (ep_srv e)) k pdu (Z.of_nat (length pdu)) e;
  match r with
  | Some (true, e) => r ← run_job fill true [] e; Ret (default e r)
  | Some (false, e) => Ret e
  | None => Ret e
  end.

(** [readpdu] returns false for a packet of more than [MAX_PDU] bytes, and
    [read_cb] gives the connection up. *)
Definition too_big (pdu : list ascii) : bool := MAX_PDU <? Z.of_nat (length pdu).

Fixpoint serve_pdus (fill : ascii) (k j : nat) (pdus : list (list ascii)) (e : endpoint S) : res (endpoint S) :=
  match pdus with
  | [] => Ret e
  | pdu :: pdus =>
      if too_big pdu then Ret (set_srv (set_heap (ep_srv e) (conn_died [k] (rs_heap (ep_srv e)))) e) else
      e ← serve_pdu fill k j pdu e; serve_pdus fill k j pdus e
  end.

(** What the client receives over [k]. *)
Definition sent_over (k : nat) (e : endpoint S) : list (list ascii) :=
  match rs_heap (ep_srv e) !! k with Some c => co_sent c | None => [] end.

Fixpoint receive_pdus (pdus : list (list ascii)) (c : rpcc) : res rpcc :=
  match pdus with
  | [] => Ret c
  | pdu :: pdus =>
      if too_big pdu then Ret c else
      '(_, c) ← rpcc_got_pdu c pdu (Z.of_nat (length pdu)); receive_pdus pdus c
  end.

(** [call1] over a connection that stays up unless a packet is too big: the
    packets it transmits are served, the replies come back, and the wait
    ends. *)
Definition remote_call1 (fill : ascii) (k j : nat) (proc : Z) (req : marshall) (t : rpcc * endpoint S)
    : res (Z * unmarshall * (rpcc * endpoint S)) :=
  let '(c, e) := t in
  '(b, c) ← call1_begin c proc req;
  match b with
  | BeginError ret => Ret (ret, unmarshall_empty, (c, e))
  | BeginOk xid req xid_rep =>
      b ← m_pdu req;
      let '(out, c) := call1_transmit c b in
      e' ← serve_pdus fill k j ((λ b, frame b (Z.of_nat (length b))) <$> out) e;
      c ← receive_pdus (drop (length (sent_over k e)) (sent_over k e')) c;
      '(ret, un, c) ← call1_end c xid xid_rep b;
      Ret (ret, un, (c, e'))
  end.
End remote.

(** ** [dispatch] replies *)

Section replies.
Context {S : Type}.
Implicit Types s : rpcs S.

(** [alive_at s c l]: the connection [c] is up and has been sent [l]. *)
Definition alive_at s (c : nat) (l : list (list ascii)) : Prop :=
  ∃ k, rs_heap s !! c = Some k ∧ co_dead k = false ∧ co_sent k = l.

(** The parts of the server that requests leave alone. *)
Definition same_setup s s' : Prop :=
  rs_nonce s' = rs_nonce s ∧ rs_procs s' = rs_procs s ∧ rs_reachable s' = rs_reachable s.

#[export] Instance same_setup_refl : Reflexive same_setup.
Proof. by intros s. Qed.
#[export] Instance same_setup_trans : Transitive same_setup.
Proof. intros s1 s2 s3 (? & ? & ?) (? & ? & ?). split_and!; congruence. Qed.

Lemma incref_alive h c d h' k l :
  conn_incref h d = Ret h' → h !! c = Some k → co_dead k = false → co_sent k = l →
  ∃ k', h' !! c = Some k' ∧ co_dead k' = false ∧ co_sent k' = l.
Proof.
  unfold conn_incref, conn_get. intros H Ek Hd Hs. destruct (h !! d) as [kd|] eqn:E; [|done]. injection H as <-.
  destruct (decide (d = c)) as [->|]; [|exists k; by rewrite lookup_insert_ne].
  rewrite lookup_insert_eq. simplify_eq. by eexists.
Qed.

(** Only dead connections are deleted. *)
Lemma decref_alive h c d h' k l :
  conn_decref h d = Ret h' → h !! c = Some k → co_dead k = false → co_sent k = l →
  ∃ k', h' !! c = Some k' ∧ co_dead k' = false ∧ co_sent k' = l.
Proof.
  unfold conn_decref, conn_get. intros H Ek Hd Hs. destruct (h !! d) as [kd|] eqn:E; [|done].
  cbn [rbind] in H. apply rbind_Ret in H as ([] & _ & H). destruct (decide (d = c)) as [->|].
  - rewrite Ek in E. injection E as <-. rewrite Hd, andb_false_r in H. injection H as <-.
    rewrite lookup_insert_eq. by eexists.
  - exists k. destruct (_ && _); injection H as <-; by rewrite ?lookup_delete_ne, ?lookup_insert_ne.
Qed.

Lemma save_conn_alive s n c s' l :
  save_conn s n c = Ret s' → alive_at s c l → alive_at s' c l ∧ same_setup s s'.
Proof.
  unfold save_conn. intros H (k & Ek & Hd & Hl). destruct (rs_conns s !! n) as [old|].
  - apply rbind_Ret in H as (o & _ & (ko & _ & (kc & _ & H)%rbind_Ret)%rbind_Ret).
    destruct (_ <? 0); [|injection H as <-; split; [by exists k|done]].
    apply rbind_Ret in H as (h1 & E1 & (h2 & E2 & [= <-])%rbind_Ret). split; [|done].
    destruct (decref_alive _ _ _ _ _ _ E1 Ek Hd Hl) as (k1 & Ek1 & Hd1 & Hl1).
    exact (incref_alive _ _ _ _ _ _ E2 Ek1 Hd1 Hl1).
  - apply rbind_Ret in H as (h1 & E1 & [= <-]). split; [|done]. exact (incref_alive _ _ _ _ _ _ E1 Ek Hd Hl).
Qed.

Lemma dispatch_state_alive s h c st b1 s' l :
  dispatch_state s h c = Ret (st, b1, s') → alive_at s c l → alive_at s' c l ∧ same_setup s s'.
Proof.
  unfold dispatch_state. cbv zeta. intros H Ha. destruct (negb _); [|injection H as <- <- <-; done].
  apply rbind_Ret in H as (w & _ & (s1 & E1 & ([[st1 b] w1] & _ & [= <- <- <-])%rbind_Ret)%rbind_Ret).
  by apply (save_conn_alive (set_window s w) _ _ _ l) in E1.
Qed.

(** The bytes of a reply, as they leave the server. *)
Definition reply_pdu (xid ret : Z) (l pdu : list ascii) : Prop :=
  ∃ sz tl, length sz = 4%nat ∧ pdu = (sz ++ reply_header_bytes (ReplyHeader xid ret) ++ tl) ++ l ∧
    Z.of_nat (length (sz ++ reply_header_bytes (ReplyHeader xid ret) ++ tl)) = RPC_HEADER_SZ.

Lemma send_alive h c k l m hh cc h' :
  h !! c = Some k → co_dead k = false → co_sent k = l → rep m hh cc →
  conn_send true h c (m_take_buf m).1 = Ret h' →
  ∃ k', h' !! c = Some k' ∧ co_dead k' = false ∧
    co_sent k' = l ++ [be32 (RPC_HEADER_SZ + Z.of_nat (length cc)) ++ drop 4 (hh ++ cc)].
Proof.
  intros Ek Hd Hl Hr. pose proof (rep_sendable _ _ _ Hr) as (b & _ & Hsz).
  destruct Hr as [rest fill sz capa Hh ->]. cbn in Hsz |- *. unfold conn_send, conn_get. rewrite Ek. cbn [rbind].
  rewrite Hd. replace (_ && _) with true.
  2: { symmetry. rewrite !length_app. pose proof hdr_sz. unfold sz. lia. }
  intros [= <-]. rewrite lookup_insert_eq. eexists. split_and!; [done|done|]. cbn. rewrite Hl. do 3 f_equal.
  rewrite (assoc_L (++)). f_equal. unfold sz. replace (Z.to_nat _) with (length (hh ++ cc)); [by rewrite take_app_length|].
  rewrite length_app. lia.
Qed.

Lemma dispatch_new_alive fill s h req (f : handler S) c c' s' l ret r o hh cc :
  dispatch_new fill true [] s h req f c = Ret (c', s') → alive_at s c l →
  f req (marshall_new fill) (rs_obj s) = Ret (ret, r, o) → rep r hh cc →
  c' = c ∧ rs_obj s' = o ∧ same_setup s s' ∧ ∃ pdu, alive_at s' c (l ++ [pdu]) ∧ reply_pdu (rq_xid h) ret cc pdu.
Proof.
  unfold dispatch_new. intros H (k & Ek & Hd & Hl) Hf Hr.
  destruct (updatestat_frame s h) as (Eo & _ & _ & Eh).
  assert (same_setup s (if rs_counting s =? 0 then s else updatestat s (rq_proc h))) as Hs1.
  { destruct (_ =? _); [done|]. unfold updatestat. by destruct (map_ref _ _ _). }
  set (s1 := if _ =? _ then _ else _) in *. rewrite Eo, Hf in H. cbn [rbind] in H.
  do 2 (apply rbind_Ret in H as ([] & _ & H)). apply rbind_Ret in H as (r' & Er & H).
  destruct (m_pack_reply_header_rep r hh cc (ReplyHeader (rq_xid h) ret) Hr) as (r2 & sz & tl & Er2 & Hsz & Hr').
  rewrite Er in Er2. injection Er2 as <-.
  destruct (m_take_buf r') as [b1 m'] eqn:Eb.
  apply rbind_Ret in H as (s2 & E2 & H).
  assert (rs_heap s2 = rs_heap s ∧ rs_obj s2 = o ∧ same_setup s s2) as (Eh2 & Eo2 & Hs2).
  { destruct (0 <? _); [apply rbind_Ret in E2 as (w & _ & [= <-])|injection E2 as <-]; split_and!; try done; apply Hs1. }
  apply rbind_Ret in H as ([c2 s3] & E3 & (hp & Es & [= <- <-])%rbind_Ret).
  unfold latest_conn, conn_get in E3. rewrite Eh2, Ek in E3. cbn [rbind] in E3. rewrite Hd in E3.
  injection E3 as <- <-. split_and!; [done|done|done|].
  replace b1 with (m_take_buf r').1 in Es by (by rewrite Eb).
  rewrite Eh2 in Es.
  destruct (send_alive _ _ _ _ _ _ _ _ Ek Hd Hl Hr' Es) as (k' & Ek' & Hd' & Hl').
  eexists. split; [by exists k'|]. eexists _, tl. split; [apply length_be32|].
  split. { rewrite <- !(assoc_L (++)). by rewrite drop_app_length'. }
  destruct Hr' as [? ? ? ? Hh _]. rewrite length_app in Hh |- *. by rewrite length_be32, <- Hsz.
Qed.

Lemma release_alive s c s' l : release s c = Ret s' → alive_at s c l →
  alive_at s' c l ∧ same_setup s s' ∧ rs_obj s' = rs_obj s ∧ rs_conns s' = rs_conns s.
Proof.
  unfold release. intros (h & E & [= <-])%rbind_Ret (k & Ek & Hd & Hl).
  split_and!; [|done..]. exact (decref_alive _ _ _ _ _ _ E Ek Hd Hl).
Qed.

(** The window of a server, and that its table has no null pointer. *)
Record window_ok s (n x : Z) : Prop := {
  wo_window : ∃ st an, amo_reachable (Amo (rs_reply_window s) st an) ∧ ∀ y, (n, y) ∈ st → y ≤ x;
  wo_replies : replies_ok (rs_reply_window s);
  wo_conns : ∀ m, rs_conns s !! m ≠ Some None }.

(** A request that is newer than all others of its client, over a connection
    that stays up. *)
Lemma dispatch_serves fill s c l buf sz h req (f : handler S) ret r o hh cc :
  u_unpack_req_header (unmarshall_buf buf sz) = Ret (h, req) → u_ok req = true →
  0 < rq_clt_nonce h → u32 (rq_xid_rep h) < u32 (rq_xid h) →
  rq_srv_nonce h = 0 ∨ rq_srv_nonce h = rs_nonce s → rs_procs s !! rq_proc h = Some f →
  window_ok s (rq_clt_nonce h) (u32 (rq_xid h) - 1) → balanced s c → alive_at s c l →
  f req (marshall_new fill) (rs_obj s) = Ret (ret, r, o) → 0 ≤ ret → rep r hh cc →
  ∃ s' pdu, dispatch fill true [] s c buf sz = Ret s' ∧ rs_obj s' = o ∧ same_setup s s' ∧
    alive_at s' c (l ++ [pdu]) ∧ reply_pdu (rq_xid h) ret cc pdu ∧
    window_ok s' (rq_clt_nonce h) (u32 (rq_xid h)).
Proof.
  intros Hu Hok Hn Hx Hsrv Hf [(st & an & Hreach & Hst) Hrep _] Hb Ha Hrun Hret Hr.
  pose proof (amo_reachable_inv _ Hreach) as Hinv. pose proof Hinv as (_ & _ & Hall).
  pose proof (ci_sorted _ _ _ (Hall (rq_clt_nonce h))) as Hs. cbn [amo_window] in Hs.
  destruct (dispatch_state_total s h c Hb Hn Hs) as (sta & b1 & s1 & Est & Hb1 & d & Hd).
  destruct (dispatch_state_Ret _ _ _ _ _ _ Est Hn) as [Hck Eo].
  destruct (dispatch_state_alive _ _ _ _ _ _ _ Est Ha) as [Ha1 Hs1].
  destruct (checkduplicate_replies_ok _ _ _ _ _ _ _ _ Hs Hrep Hck) as (Hrep1 & _ & Hnew).
  destruct (checkduplicate_correct _ (rq_clt_nonce h) _ _ (None, 0) Hinv Hx)
    as (sta' & b' & w' & Eck & Hnewer & _). cbn [amo_window amo_started] in Eck, Hnewer.
  rewrite Hck in Eck. injection Eck as <- <- <-.
  pose proof (amo_arrive (Amo (rs_reply_window s) st an) _ _ _ _ _ _ _ Hx Hck) as Hstep.
  rewrite Hnewer in * by (intros y Hy; specialize (Hst y Hy); lia). clear Hnewer.
  destruct (Hnew eq_refl) as [Hin Hso1].
  destruct (dispatch_new_total fill true [] s1 h req f c d ret r o hh cc) as (c2 & s2 & b & E2 & Hb2 & _ & Hsend & Hadd);
    [done|done|done|done|by rewrite Eo|done|done|].
  destruct (dispatch_new_alive _ _ _ _ _ _ _ _ _ _ _ _ _ _ E2 Ha1 ltac:(by rewrite Eo) Hr)
    as (-> & Eo2 & Hs2 & pdu & Ha2 & Hp).
  destruct (release_total s2 c Hb2) as [s3 E3].
  destruct (release_alive _ _ _ _ E3 Ha2) as (Ha3 & Hs3 & Eo3 & Ec3). pose proof (release_Ret _ _ _ E3) as [Ew3 _].
  exists s3, pdu. unfold dispatch. rewrite Hu. cbn [rbind]. rewrite Hok, Hf, Est. cbn [negb].
  replace (_ && _) with false by lia.
  cbn [rbind]. rewrite E2. cbn [rbind].
  destruct (amo_started_fresh _ _ _ _ _ Hreach Hstep) as [Hk Han].
  split_and!; [done|congruence|by etrans; [|etrans]|done|done|]. split; [|rewrite Ew3; by eapply add_reply_replies_ok|rewrite Ec3; apply Hb2].
  exists ((rq_clt_nonce h, u32 (rq_xid h)) :: st), (<[(rq_clt_nonce h, u32 (rq_xid h)) := b]> an). split.
  - eapply rtc_r; [eapply rtc_r; [exact Hreach|exact Hstep]|]. rewrite Ew3.
    apply (amo_finish (Amo _ (_ :: st) an)); [left|done|done].
  - intros y [[= ->]|Hy]%elem_of_cons; [done|]. specialize (Hst y Hy). lia.
Qed.
End replies.

(** ** The server's side *)

Section server.
Context {S : Type} (k j : nat).
Implicit Types e : endpoint S.

(** The server can take the next request over [k] of the client [n], whose
    requests up to [x] were served: nothing is queued and the references of
    connections add up. *)
Record server_ready (n x : Z) e : Prop := {
  sr_window : window_ok (ep_srv e) n x;
  sr_refs : ∃ leak, ep_inv e leak;
  sr_conn : ∃ l, alive_at (ep_srv e) k l;
  sr_reachable : rs_reachable (ep_srv e) = true;
  sr_queue : q_ (tp_jobq (ep_pool e)) = [];
  sr_max : 0 < max_ (tp_jobq (ep_pool e));
  sr_jobs : ep_jobs e !! j = None }.

Lemma ep_inv_owed e leak c : ep_inv e leak → 0 ≤ owed (ep_srv e) c.
Proof.
  intros H. rewrite (ei_counts _ _ H c). pose proof (listed_nonneg (ep_listen e) c). pose proof (ei_leak _ _ H c).
  pose proof (queued_nonneg (ep_jobs e) (q_ (tp_jobq (ep_pool e))) c). unfold queued. lia.
Qed.

Lemma alive_sent e l : alive_at (ep_srv e) k l → sent_over k e = l.
Proof. intros (c & E & _ & <-). unfold sent_over. by rewrite E. Qed.

(** The packet becomes a job. *)
Lemma got_pdu_ready n x e pdu :
  server_ready n x e →
  ∃ e1, rpcs_got_pdu j (rs_reachable (ep_srv e)) k pdu (Z.of_nat (length pdu)) e = Ret (Some (true, e1)) ∧
    ep_jobs e1 = <[j := Djob k pdu (Z.of_nat (length pdu))]> (ep_jobs e) ∧
    worker_turn (ep_pool e1) = Some (Some j, ep_pool e) ∧ (∃ leak, ep_inv e1 leak) ∧
    (∀ l, alive_at (ep_srv e) k l → alive_at (ep_srv e1) k l) ∧ balanced (ep_srv e1) k ∧
    same_setup (ep_srv e) (ep_srv e1) ∧ rs_obj (ep_srv e1) = rs_obj (ep_srv e) ∧
    window_ok (ep_srv e1) n x ∧ ep_listen e1 = ep_listen e ∧ dom (rs_heap (ep_srv e1)) = dom (rs_heap (ep_srv e)).
Proof.
  intros [Hw [leak Hi] (l & c & Ec & Hd & Hl) Hr Hq Hm Hj].
  assert (∃ h, conn_incref (rs_heap (ep_srv e)) k = Ret h) as [h Eh].
  { unfold conn_incref, conn_get. rewrite Ec. by eexists. }
  assert (∃ e1, rpcs_got_pdu j (rs_reachable (ep_srv e)) k pdu (Z.of_nat (length pdu)) e = Ret (Some (true, e1)) ∧
    e1 = Endpoint (set_heap (ep_srv e) h) (ep_listen e) (<[j := Djob k pdu (Z.of_nat (length pdu))]> (ep_jobs e))
      (set_jobq (ep_pool e) (Fifo [Some j] (max_ (tp_jobq (ep_pool e)))))) as (e1 & E1 & Ee1).
  { unfold rpcs_got_pdu. rewrite Hr. cbn [negb]. rewrite Eh. cbn [rbind]. unfold addJob, fifo_enq.
    rewrite Hq. cbn [length]. replace (_ || _) with true by lia. cbn [rbind negb orb app]. by eexists. }
  exists e1. split; [done|]. pose proof (got_pdu_inv _ _ _ _ _ _ _ _ _ Hi Hj Ec E1) as Hi1. subst e1. cbn.
  split_and!; [done| |by exists leak| | |done|done| |done|].
  - unfold worker_turn, takeJob, fifo_deq. cbn. do 2 f_equal.
    destruct (ep_pool e) as [a b [q m] d]. cbn in Hq. by subst q.
  - intros l' (c' & Ec' & Hd' & Hl'). rewrite Ec in Ec'. injection Ec' as <-. by eapply incref_alive.
  - split; [apply Hw|]. intros d. pose proof (incref_refs _ _ _ Eh d) as E. pose proof (ep_inv_owed e leak d Hi) as Ho.
    unfold owed in *. cbn. lia.
  - destruct Hw. by split.
  - unfold conn_incref, conn_get in Eh. rewrite Ec in Eh. injection Eh as <-. apply dom_insert_lookup_L. by eexists.
Qed.

(** The whole way of a request through the server. *)
Lemma serve_pdu_ok fill n x e pdu h req (f : handler S) ret r o hh cc :
  server_ready n x e →
  u_unpack_req_header (unmarshall_buf pdu (Z.of_nat (length pdu))) = Ret (h, req) → u_ok req = true →
  rq_clt_nonce h = n → 0 < n → u32 (rq_xid h) = x + 1 → u32 (rq_xid_rep h) = x →
  rq_srv_nonce h = 0 ∨ rq_srv_nonce h = rs_nonce (ep_srv e) →
  rs_procs (ep_srv e) !! rq_proc h = Some f →
  f req (marshall_new fill) (rs_obj (ep_srv e)) = Ret (ret, r, o) → 0 ≤ ret → rep r hh cc →
  ∃ e' reply, serve_pdu fill k j pdu e = Ret e' ∧ rs_obj (ep_srv e') = o ∧ same_setup (ep_srv e) (ep_srv e') ∧
    sent_over k e' = sent_over k e ++ [reply] ∧ reply_pdu (rq_xid h) ret cc reply ∧ server_ready n (x + 1) e'.
Proof.
  intros Hs Hu Hok Hn Hpos Hx Hxr Hsrv Hf Hrun Hret Hr.
  destruct (got_pdu_ready n x e pdu Hs) as (e1 & E1 & Ej & Ew & [leak1 Hi1] & Ha & Hb & Hsame & Eo & Hw1 & _).
  destruct Hs as [_ _ [l Hl] Hre Hq Hm Hj]. pose proof Hsame as (En & Ep & Er).
  destruct (dispatch_serves fill (ep_srv e1) k l pdu (Z.of_nat (length pdu)) h req f ret r o hh cc)
    as (s2 & reply & E2 & Eo2 & Hs2 & Ha2 & Hp2 & Hw2);
    [done|done|lia|lia|by rewrite En|by rewrite Ep|subst n; by rewrite Hx, Z.add_simpl_r|done|by apply Ha
    |by rewrite Eo|done|done|].
  assert (run_job fill true [] e1 = Ret (Some (Endpoint s2 (ep_listen e1) (delete j (ep_jobs e1)) (ep_pool e)))) as E3.
  { unfold run_job. rewrite Ew, Ej, lookup_insert_eq. cbn [dj_conn dj_buf dj_sz]. by rewrite E2. }
  destruct (run_job_inv _ _ _ _ _ _ Hi1 E3) as (leak2 & Hi2 & _).
  eexists _, reply. unfold serve_pdu. rewrite E1. cbn [rbind]. rewrite E3. cbn [rbind default]. split; [done|].
  cbn [ep_srv]. split_and!; [done|by etrans|rewrite (alive_sent _ _ Hl); by apply alive_sent|done|].
  split; cbn; try done.
  - subst n. by rewrite Hx in Hw2.
  - by exists leak2.
  - by eexists.
  - destruct Hs2 as (_ & _ & ->). congruence.
  - apply lookup_delete_eq.
Qed.
End server.

(** ** The client's side *)

(** The client has no call outstanding; its calls up to [x] were answered. *)
Record client_ready (x : Z) (c : rpcc) : Prop := {
  cr_range : 0 ≤ x;
  cr_xid : rc_xid c = x + 1;
  cr_window : rc_xid_rep_window c = [x];
  cr_calls : rc_calls c = ∅;
  cr_open : rc_destroy_wait c = false;
  cr_lossy : rc_lossytest c = 0;
  cr_dup : rc_dup_req c = request_clear;
  cr_nonce : 0 < rc_clt_nonce c < 2 ^ 32;
  cr_srv : in_u32 (rc_srv_nonce c) }.

Lemma small_wraps x : 0 ≤ x < 2 ^ 31 → s32 x = x ∧ u32 x = x.
Proof. intros. split; wrap_lia. Qed.

Lemma update_next x : 0 ≤ x → x + 1 < 2 ^ 31 → update_xid_rep [x] (x + 1) = Ret [x + 1].
Proof.
  intros Hx Hlt. unfold update_xid_rep. replace (x + 1 <=? x) with false by lia. cbn [insert_xid].
  replace (x + 1 <? x) with false by lia. cbn [compress pop_while app].
  by rewrite (proj2 (small_wraps (x + 1) ltac:(lia))), Z.eqb_refl.
Qed.

Lemma update_again x : update_xid_rep [x] x = Ret [x].
Proof. unfold update_xid_rep. by rewrite Z.leb_refl. Qed.

(** What the server sees of a packet. *)
Lemma frame_request sz hd l :
  length sz = 4%nat → wf_req_header hd → fits l →
  let b := (sz ++ req_header_bytes hd) ++ l in
  ∃ u, u_unpack_req_header (unmarshall_buf (frame b (Z.of_nat (length b))) (Z.of_nat (length (frame b (Z.of_nat (length b))))))
    = Ret (hd, u) ∧ reads u l.
Proof.
  intros Hsz Hw Hf b.
  assert (frame b (Z.of_nat (length b)) = (be32 (Z.of_nat (length b)) ++ req_header_bytes hd) ++ l) as ->.
  { unfold frame. rewrite Nat2Z.id, firstn_all. unfold b. rewrite <- !(assoc_L (++)). by rewrite drop_app_length'. }
  apply u_unpack_req_header_reads; [apply length_be32|done|].
  unfold fits in Hf. pose proof hdr_sz. unfold req_header_bytes. rewrite !length_app, !length_be32. lia.
Qed.

(** A packet with these contents gets through. *)
Definition transported (l : list ascii) : Prop := RPC_HEADER_SZ + Z.of_nat (length l) ≤ MAX_PDU.

Lemma transported_fits l : transported l → fits l.
Proof. unfold transported, fits. rewrite MAX_PDU_val. lia. Qed.

Lemma transported_short l : (length l ≤ 1000)%nat → transported l.
Proof. intros H. unfold transported. rewrite MAX_PDU_val. pose proof hdr_sz. lia. Qed.

Lemma transported_int (x : int) : transported (enc x).
Proof. apply transported_short. cbn [enc int_ok]. rewrite length_be32. lia. Qed.

Lemma transported_ullong (x : ullong) : transported (enc x).
Proof. apply transported_short. cbn [enc ullong_ok]. rewrite length_app, !length_be32. lia. Qed.

Lemma request_transported sz hd l :
  length sz = 4%nat → transported l →
  let b := (sz ++ req_header_bytes hd) ++ l in too_big (frame b (Z.of_nat (length b))) = false.
Proof.
  intros Hsz Hl b. unfold too_big. pose proof hdr_sz. assert (Hb : Z.of_nat (length b) = 24 + Z.of_nat (length l)).
  { unfold b, req_header_bytes. rewrite !length_app, !length_be32, Hsz. lia. }
  rewrite length_frame by (unfold sizeof_int; lia). unfold transported in Hl. lia.
Qed.

Lemma reply_transported x ret l pdu : reply_pdu x ret l pdu → transported l → too_big pdu = false.
Proof.
  intros (sz & tl & _ & -> & Hlen) Hl. unfold too_big. rewrite length_app. unfold transported in Hl. lia.
Qed.

Section client.
Context {S : Type} (fill : ascii) (k j : nat).
Implicit Types e : endpoint S.

(** The reply of the next call arrives. *)
Lemma receive_reply x c ca ret cc reply :
  rc_xid_rep_window c = [x] → rc_calls c = {[ x + 1 := ca ]} → ca_done ca = false →
  0 ≤ x → x + 1 < 2 ^ 31 → in_s32 ret → transported cc → reply_pdu (x + 1) ret cc reply →
  ∃ un, receive_pdus [reply] c = Ret (set_calls c {[ x + 1 := Caller un ret true ]} [x + 1]) ∧ reads un cc.
Proof.
  intros Ew Ec Hd Hx Hlt Hret Hfc Hrep. cbn [receive_pdus]. rewrite (reply_transported _ _ _ _ Hrep Hfc).
  apply transported_fits in Hfc as Hf. destruct Hrep as (sz & tl & Hsz & -> & Hlen). unfold rpcc_got_pdu.
  destruct (u_unpack_reply_header_reads sz (ReplyHeader (x + 1) ret) tl cc Hsz Hlen) as (u & Eu & Ru).
  { split; cbn; wrap_unfold; lia. }
  { unfold fits in Hf. pose proof hdr_sz. rewrite length_app. lia. }
  rewrite Eu. cbn [rbind]. rewrite (reads_ok _ _ Ru). cbn [negb rp_xid rp_ret].
  rewrite Ew, (proj2 (small_wraps (x + 1) ltac:(lia))), update_next by lia. cbn [rbind].
  cbn [rc_calls set_calls]. rewrite Ec, lookup_singleton_eq, Hd. cbn [rbind]. exists (take_in u).
  split; [|apply take_in_at_header; [done|by eapply u_unpack_reply_header_ind]]. do 2 f_equal.
  by rewrite insert_singleton_eq.
Qed.

Lemma remote_call1_ok x c e proc req h0 l (f : handler S) ret r o hh cc :
  client_ready x c → server_ready k j (rc_clt_nonce c) x e → x + 1 < 2 ^ 31 →
  (proc =? rpc_const.bind) = negb (rc_bind_done c) → 0 ≤ proc < 2 ^ 31 →
  rc_srv_nonce c = 0 ∨ rc_srv_nonce c = rs_nonce (ep_srv e) →
  rep req h0 l → transported l → rs_procs (ep_srv e) !! proc = Some f →
  (∀ u, reads u l → f u (marshall_new fill) (rs_obj (ep_srv e)) = Ret (ret, r, o)) →
  0 ≤ ret < 2 ^ 31 → rep r hh cc → transported cc →
  ∃ un c' e', remote_call1 fill k j proc req (c, e) = Ret (ret, un, (c', e')) ∧ reads un cc ∧
    rs_obj (ep_srv e') = o ∧ same_setup (ep_srv e) (ep_srv e') ∧ client_ready (x + 1) c' ∧
    server_ready k j (rc_clt_nonce c) (x + 1) e' ∧ rc_clt_nonce c' = rc_clt_nonce c ∧
    rc_srv_nonce c' = rc_srv_nonce c ∧ rc_bind_done c' = rc_bind_done c.
Proof.
  intros [Hx Exid Ewin Ecalls Eopen Elossy Edup Hn Hsn] Hs Hlt Hproc Hp Hsrv Hreq Hfl Hf Hrun Hret Hr Hfc.
  set (hd := ReqHeader (x + 1) proc (rc_clt_nonce c) (rc_srv_nonce c) x).
  assert (wf_req_header hd) as Hwf by (split_and!; cbn; wrap_unfold; try lia; apply Hsn).
  destruct (m_pack_req_header_rep req h0 l hd Hreq) as (req' & sz & Ereq & Hsz & Hreq').
  unfold remote_call1, call1_begin.
  replace (_ || _) with false by (rewrite Hproc; by destruct (rc_bind_done c)).
  rewrite Eopen, Ewin, Exid. rewrite (proj1 (small_wraps (x + 1) ltac:(lia))), (proj1 (small_wraps proc Hp)).
  rewrite (proj1 (small_wraps x ltac:(lia))). fold hd. rewrite Ereq. cbn [rbind].
  rewrite (m_pdu_rep _ _ _ Hreq'). cbn [rbind]. unfold call1_transmit. cbn [rc_dup_req rc_xid_rep_done].
  rewrite Edup. change (request_isvalid request_clear) with false. cbn [andb fmap list_fmap serve_pdus].
  destruct (frame_request sz hd l Hsz Hwf (transported_fits _ Hfl)) as (u & Eu & Ru). cbv zeta in Eu.
  rewrite (request_transported sz hd l Hsz Hfl). set (b := (sz ++ _) ++ l) in *.
  destruct (serve_pdu_ok k j fill (rc_clt_nonce c) x e _ hd u f ret r o hh cc Hs Eu (reads_ok _ _ Ru))
    as (e' & reply & Es & Eo & Hsame & Esent & Hreply & Hs'); try done; [lia|cbn; apply small_wraps; lia|cbn; apply small_wraps; lia|by apply Hrun|lia|].
  rewrite Es. cbn [rbind]. rewrite Esent, drop_app_length.
  match goal with |- context [receive_pdus [reply] ?c0] => set (c1 := c0) end.
  destruct (receive_reply x c1 (Caller unmarshall_empty 0 false) ret cc reply) as (un & Er & Run); try done; [|wrap_unfold; lia|].
  { cbn. rewrite Ecalls. by rewrite insert_empty. }
  rewrite Er. cbn [rbind]. unfold call1_end. rewrite (proj1 (small_wraps (x + 1) ltac:(lia))).
  cbn [rc_calls set_calls]. rewrite lookup_singleton_eq. cbn [rc_xid_rep_window set_calls]. rewrite update_again.
  cbn [rbind ca_done ca_intret ca_un andb rc_lossytest set_calls]. subst c1. cbn [rc_lossytest]. rewrite Elossy. cbn [negb Z.eqb rbind].
  do 3 eexists. split; [done|]. split_and!; [done|done|done| |done|done|done|done].
  split; cbn; try done; [lia|wrap_lia|apply delete_singleton_eq].
Qed.
End client.

(** ** Typed calls *)

Section calls.
Context {S : Type} (fill fill' : ascii) (k j : nat).
Implicit Types e : endpoint S.

(** The handler [f] runs a method that returns [b] and [r] for the argument
    [a] and leaves the object in state [o]. *)
Definition serves {A R} `{MarshalOk A} `{MarshalOk R} (f : handler S) (s : S) (a : A) (b : Z) (r : R) (o : S) : Prop :=
  ∀ u, reads u (enc a) → f u (marshall_new fill) s = rbind (put (marshall_new fill) r) (λ ret, Ret (b, ret, o)).

Lemma reg1_serves {A R} `{MarshalOk A} `{MarshalOk R} `{!Inhabited A, !Inhabited R} (meth : A → R → S → res (Z * R * S)) s a b r o :
  wf a → meth a inhabitant s = Ret (b, r, o) → serves (rpcs_reg1 meth) s a b r o.
Proof.
  intros Ha Hm u Hu. unfold rpcs_reg1. rewrite <- (app_nil_r (enc a)) in Hu.
  destruct (get_ok u _ a inhabitant Hu Ha) as (u1 & -> & R1). cbn [rbind].
  rewrite (reads_okdone _ _ R1), bool_decide_eq_true_2 by done. cbn [negb]. by rewrite Hm.
Qed.

Lemma reg2_serves {A B R} `{MarshalOk A} `{MarshalOk B} `{MarshalOk R} `{!Inhabited A, !Inhabited B, !Inhabited R}
    (meth : A → B → R → S → res (Z * R * S)) s a a' b r o :
  wf a → wf a' → meth a a' inhabitant s = Ret (b, r, o) → serves (rpcs_reg2 meth) s (a, a') b r o.
Proof.
  intros Ha Ha' Hm u Hu. rewrite rpcs_reg2_tuple.
  by apply (reg1_serves (λ p : A * B, meth p.1 p.2) s (a, a') b r o).
Qed.

(** A call with the argument [a], whoever registered the handler. *)
Lemma typed_call_ok {A R} `{MarshalOk A} `{MarshalOk R} x c e proc (a : A) (r0 : R) (f : handler S) b r o :
  client_ready x c → server_ready k j (rc_clt_nonce c) x e → x + 1 < 2 ^ 31 →
  (proc =? rpc_const.bind) = negb (rc_bind_done c) → 0 ≤ proc < 2 ^ 31 →
  rc_srv_nonce c = 0 ∨ rc_srv_nonce c = rs_nonce (ep_srv e) →
  rs_procs (ep_srv e) !! proc = Some f → wf a → transported (enc a) →
  serves f (rs_obj (ep_srv e)) a b r o → carries b r → transported (enc r) →
  ∃ c' e', rpcc_call1 fill' (remote_call1 fill k j) proc a r0 (c, e) = Ret (b, r, (c', e')) ∧
    rs_obj (ep_srv e') = o ∧ same_setup (ep_srv e) (ep_srv e') ∧ client_ready (x + 1) c' ∧
    server_ready k j (rc_clt_nonce c) (x + 1) e' ∧ rc_clt_nonce c' = rc_clt_nonce c ∧
    rc_srv_nonce c' = rc_srv_nonce c ∧ rc_bind_done c' = rc_bind_done c.
Proof.
  intros Hc Hs Hx Hproc Hp Hsrv Hf Ha Hfa Hserves [Hb Hwr Hfr] Htr.
  destruct (put_ok (marshall_new fill') _ [] a (marshall_new_rep fill') Ha (transported_fits _ Hfa)) as (m & Em & Rm).
  destruct (put_ok (marshall_new fill) _ [] r (marshall_new_rep fill) Hwr Hfr) as (m2 & Em2 & Rm2).
  destruct (remote_call1_ok fill k j x c e proc m _ _ f b m2 o (replicate (Z.to_nat RPC_HEADER_SZ) fill) (enc r)
    Hc Hs Hx Hproc Hp Hsrv Rm Hfa Hf) as (un & c' & e' & E & Run & Hrest); [|done|done|done|].
  { intros u Hu. rewrite (Hserves u Hu), Em2. done. }
  exists c', e'. split; [|done]. unfold rpcc_call1. rewrite Em. cbn [rbind]. unfold rpcc_call_m. rewrite E. cbn [rbind].
  replace (b <? 0) with false by lia. cbn [app] in Run. rewrite <- (app_nil_r (enc r)) in Run.
  destruct (get_ok un _ r r0 Run Hwr) as (u3 & -> & R3). cbn [rbind].
  by rewrite (reads_okdone _ _ R3), bool_decide_eq_true_2.
Qed.
End calls.

(** ** Sessions *)

Section session.
Context {S : Type} (fill fill' : ascii) (k j : nat).

(** A client that is bound to the server and whose calls up to [x] were
    served, over the connection [k]. *)
Record session (x : Z) (t : rpcc * endpoint S) : Prop := {
  se_client : client_ready x t.1;
  se_server : server_ready k j (rc_clt_nonce t.1) x t.2;
  se_bound : rc_bind_done t.1 = true;
  se_nonce : rc_srv_nonce t.1 = rs_nonce (ep_srv t.2) }.

Lemma session_call {A R} `{MarshalOk A} `{MarshalOk R} x t proc (a : A) (r0 : R) (f : handler S) b r o :
  session x t → x + 1 < 2 ^ 31 → proc ≠ rpc_const.bind → 0 ≤ proc < 2 ^ 31 →
  rs_procs (ep_srv t.2) !! proc = Some f → wf a → transported (enc a) →
  serves fill f (rs_obj (ep_srv t.2)) a b r o → carries b r → transported (enc r) →
  ∃ t', rpcc_call1 fill' (remote_call1 fill k j) proc a r0 t = Ret (b, r, t') ∧
    rs_obj (ep_srv t'.2) = o ∧ same_setup (ep_srv t.2) (ep_srv t'.2) ∧ session (x + 1) t'.
Proof.
  intros [Hc Hs Hb Hn] Hx Hbind Hp Hf Ha Hfa Hser Hcar Htr. destruct t as [c e]. cbn in *.
  destruct (typed_call_ok fill fill' k j x c e proc a r0 f b r o) as (c' & e' & E & Eo & Hsame & Hc' & Hs' & En & Es & Eb);
    [done|done|done| |done|by right|done..|].
  { rewrite Hb. cbn. lia. }
  exists (c', e'). split_and!; [done|done|done|]. split; cbn; [done|by rewrite En|congruence|].
  destruct Hsame as (-> & _). congruence.
Qed.

(** [rpcc::bind]. *)
Definition rpcc_bind (t : rpcc * endpoint S) : res (Z * (rpcc * endpoint S)) :=
  '(ret, r, (c, e)) ← rpcc_call1 (A1:=int) (R:=int) fill' (remote_call1 fill k j) rpc_const.bind 0 0 t;
  Ret (ret, (bind_reply c ret r, e)).

(** [connect_to_dst] and [bind]: the server accepts a connection [k] with the
    descriptor [fd], and the first call asks for its nonce.  RPC_LOSSY is not
    set. *)
Definition client_connect (fd : Z) (now : Z * Z) (random : Z) (e : endpoint S) : res (rpcc * endpoint S) :=
  r ← process_accept (Some fd) k now e;
  '(_, t) ← rpcc_bind (rpcc_new random 0 true, default e r);
  Ret t.

(** A server that waits for requests and whose window knows nothing of the
    client [n]. *)
Record idle (n : Z) (e : endpoint S) : Prop := {
  id_window : window_ok (ep_srv e) n 0;
  id_refs : ∃ leak, ep_inv e leak;
  id_bind : rs_procs (ep_srv e) !! rpc_const.bind = Some (rpcs_reg1 (rpcbind (rs_nonce (ep_srv e))));
  id_nonce : in_u32 (rs_nonce (ep_srv e));
  id_reachable : rs_reachable (ep_srv e) = true;
  id_queue : q_ (tp_jobq (ep_pool e)) = [];
  id_max : 0 < max_ (tp_jobq (ep_pool e));
  id_jobs : ep_jobs e !! j = None }.

(** Only dead connections are collected. *)
Lemma collect_alive l : ∀ conns (h : heap) conns' h' c kc,
  collect l conns h = Ret (conns', h') → h !! c = Some kc → co_dead kc = false → h' !! c = Some kc.
Proof.
  induction l as [|[fd d] l IH]; intros conns h conns' h' c kc; cbn [collect]; [by intros [= <- <-]|].
  intros (kd & Ed & H)%rbind_Ret E Hd. unfold conn_get in Ed. destruct (h !! d) as [kd'|] eqn:Ed'; [|done]. injection Ed as ->.
  destruct (co_dead kd) eqn:Edead; cbn [andb] in H; [|by eapply IH].
  destruct (co_refno kd =? 1); [|by eapply IH]. apply rbind_Ret in H as (h1 & E1 & H).
  eapply IH; [exact H| |done]. unfold conn_decref, conn_get in E1. rewrite Ed' in E1. cbn [rbind] in E1.
  apply rbind_Ret in E1 as ([] & _ & E1). assert (d ≠ c) by (intros ->; congruence).
  destruct (_ && _); injection E1 as <-; [by rewrite lookup_delete_ne|by rewrite lookup_insert_ne].
Qed.

Lemma collect_fresh l : ∀ conns (h : heap) conns' h',
  collect l conns h = Ret (conns', h') →
  (∀ fd, conns !! fd = None → conns' !! fd = None) ∧ (∀ c, h !! c = None → h' !! c = None).
Proof.
  induction l as [|[fd d] l IH]; intros conns h conns' h'; cbn [collect]; [by intros [= <- <-]|].
  intros (kd & Ed & H)%rbind_Ret. destruct (_ && _); [|by eapply IH].
  apply rbind_Ret in H as (h1 & E1 & H). destruct (IH _ _ _ _ H) as [H1 H2]. split.
  - intros fd' E. apply H1. by rewrite lookup_delete_None; right.
  - intros c E. apply H2. unfold conn_get in Ed. destruct (h !! d) as [kd'|] eqn:Ed'; [|done].
    unfold conn_decref, conn_get in E1. rewrite Ed' in E1. cbn [rbind] in E1.
    apply rbind_Ret in E1 as ([] & _ & E1). assert (d ≠ c) by (intros ->; congruence).
    destruct (_ && _); injection E1 as <-; [by rewrite lookup_delete_ne|by rewrite lookup_insert_ne].
Qed.

Lemma accept_ready n e fd now :
  idle n e → ep_listen e !! fd = None → rs_heap (ep_srv e) !! k = None →
  ∃ e1, process_accept (Some fd) k now e = Ret (Some e1) ∧ server_ready k j n 0 e1 ∧
    same_setup (ep_srv e) (ep_srv e1) ∧ rs_obj (ep_srv e1) = rs_obj (ep_srv e) ∧
    (∀ m x, window_ok (ep_srv e) m x → window_ok (ep_srv e1) m x) ∧
    (∀ fd', fd' ≠ fd → ep_listen e !! fd' = None → ep_listen e1 !! fd' = None) ∧
    (∀ c, c ≠ k → rs_heap (ep_srv e) !! c = None → rs_heap (ep_srv e1) !! c = None).
Proof.
  intros [Hw [leak Hi] Hb Hn Hr Hq Hm Hj] Hfd Hk.
  destruct (process_accept_inv e leak fd k now Hi Hfd Hk) as (e1 & E & Hi1 & _). exists e1. split; [done|].
  cbn [process_accept] in E. apply rbind_Ret in E as ([conns h] & Ec & [= <-]).
  pose proof (collect_alive _ _ _ _ _ k (Conn now 1 false []) Ec (lookup_insert_eq _ _ _) eq_refl) as Eh.
  destruct (collect_fresh _ _ _ _ _ Ec) as [Hf1 Hf2]. split_and!; [|done|done| | |].
  - split; cbn; try done; [|by eexists|exists []; by eexists]. by destruct Hw.
  - intros m x []. by split.
  - intros fd' Hne E. cbn. rewrite lookup_insert_ne by done. by apply Hf1.
  - intros c Hne E. cbn. apply Hf2. by rewrite lookup_insert_ne.
Qed.

Lemma rpcc_bind_ok n e fd now random :
  u32 random = n → idle n e → ep_listen e !! fd = None → rs_heap (ep_srv e) !! k = None → 0 < n →
  ∃ e1 t, process_accept (Some fd) k now e = Ret (Some e1) ∧ rpcc_bind (rpcc_new random 0 true, e1) = Ret (0, t) ∧ session 1 t ∧
    same_setup (ep_srv e) (ep_srv t.2) ∧ rs_obj (ep_srv t.2) = rs_obj (ep_srv e).
Proof.
  intros En Hid Hfd Hk Hpos. destruct (accept_ready n e fd now Hid Hfd Hk) as (e1 & E1 & Hs1 & Hsame & Eo & _).
  pose proof Hsame as (Enon & Ep & _). destruct Hid.
  destruct (typed_call_ok (A:=int) (R:=int) fill fill' k j 0 (rpcc_new random 0 true) e1 rpc_const.bind 0 0
    (rpcs_reg1 (rpcbind (rs_nonce (ep_srv e)))) 0 (s32 (rs_nonce (ep_srv e))) (rs_obj (ep_srv e)))
    as (c' & e' & E & Eo' & Hsame' & Hc' & Hs' & En' & _ & _);
    [|by cbn; rewrite En|done|done|done|by left|by rewrite Ep|done|apply transported_int| | |by apply transported_int|].
  { split; cbn; try done. pose proof (u32_range random). wrap_unfold. lia. }
  { rewrite Eo. by apply reg1_serves. }
  { split; [lia|apply s32_range|done]. }
  exists e1, (bind_reply c' 0 (s32 (rs_nonce (ep_srv e))), e'). split; [done|]. unfold rpcc_bind. rewrite E. cbn [rbind].
  split_and!; [done| |by etrans|done]. split.
  - destruct Hc'. unfold bind_reply. cbn [fst Z.eqb]. split; cbn; [done..|apply u32_range].
  - cbn. by rewrite En'.
  - done.
  - cbn. destruct Hsame' as (-> & _). rewrite Enon. rewrite u32_s32. by apply u32_id.
Qed.

(** A server that has just been started. *)
Record started (random : Z) (o : S) (e : endpoint S) : Prop := {
  sd_nonce : rs_nonce (ep_srv e) = u32 random;
  sd_bind : rs_procs (ep_srv e) !! rpc_const.bind = Some (rpcs_reg1 (rpcbind (u32 random)));
  sd_window : rs_reply_window (ep_srv e) = ∅;
  sd_conns : rs_conns (ep_srv e) = ∅;
  sd_heap : rs_heap (ep_srv e) = ∅;
  sd_reachable : rs_reachable (ep_srv e) = true;
  sd_listen : ep_listen e = ∅;
  sd_jobs : ep_jobs e = ∅;
  sd_pool : ep_pool e = ThrPool_new 6 false;
  sd_obj : rs_obj (ep_srv e) = o }.

Lemma started_inv random o e : started random o e → ep_inv e (λ _, 0).
Proof.
  intros []. split; rewrite ?sd_listen0, ?sd_pool0; cbn; try done.
  - intros c. unfold owed, queued. rewrite ?sd_conns0, ?sd_heap0, ?sd_jobs0, ?sd_listen0, ?sd_pool0. done.
  - intros j' H. by apply elem_of_nil in H.
  - constructor.
  - split; [done|apply not_elem_of_nil].
Qed.

Lemma started_idle random o e n : started random o e → idle n e.
Proof.
  intros Hst. pose proof (started_inv _ _ _ Hst) as Hi. destruct Hst.
  split; rewrite ?sd_pool0, ?sd_jobs0, ?sd_nonce0; try done; [|by eexists|apply u32_range].
  split; cbn; rewrite ?sd_window0, ?sd_conns0; [|by intros ? ? ?%elem_of_nil|done].
  exists [], ∅. split; [apply rtc_refl|]. by intros y ?%elem_of_nil.
Qed.

Lemma client_connect_ok srandom o e fd now random :
  started srandom o e → 0 < u32 random →
  ∃ t, client_connect fd now random e = Ret t ∧ session 1 t ∧
    same_setup (ep_srv e) (ep_srv t.2) ∧ rs_obj (ep_srv t.2) = o.
Proof.
  intros Hst Hr.
  destruct (rpcc_bind_ok _ e fd now random eq_refl (started_idle _ _ _ _ Hst)) as (e1 & t & E1 & E2 & Hs & Hsame & Eo);
    [by destruct Hst as [? ? ? ? ? ? ->]|by destruct Hst as [? ? ? ? ->]|done|].
  exists t. unfold client_connect. rewrite E1. cbn [rbind default id]. rewrite E2. cbn [rbind].
  split_and!; [done|done|done|]. rewrite Eo. by destruct Hst.
Qed.
End session.

(** ** A server that was restarted *)

Section old_server.
Context {S : Type} (fill : ascii) (k j : nat).

(** A request that names another instance of the server is refused, and
    nothing but the connection changes. *)
Lemma dispatch_old_server (s : rpcs S) c l buf sz h req :
  u_unpack_req_header (unmarshall_buf buf sz) = Ret (h, req) → u_ok req = true →
  rq_srv_nonce h ≠ 0 → rq_srv_nonce h ≠ rs_nonce s → alive_at s c l →
  ∃ s' pdu, dispatch fill true [] s c buf sz = Ret s' ∧ alive_at s' c (l ++ [pdu]) ∧
    reply_pdu (rq_xid h) rpc_const.oldsrv_failure [] pdu ∧ same_setup s s' ∧ rs_obj s' = rs_obj s ∧
    rs_reply_window s' = rs_reply_window s ∧ rs_conns s' = rs_conns s ∧ dom (rs_heap s') = dom (rs_heap s).
Proof.
  intros Hu Hok H0 Hn (kc & Ek & Hd & Hl).
  destruct (m_pack_reply_header_rep _ _ _ (ReplyHeader (rq_xid h) rpc_const.oldsrv_failure) (marshall_new_rep fill))
    as (m & sz' & tl & Em & Hsz & Hrep).
  destruct (rep_sendable _ _ _ Hrep) as (b & Eb & Hb).
  assert (∃ hp, conn_send true (rs_heap s) c (m_take_buf m).1 = Ret hp) as [hp Es].
  { unfold conn_send, conn_get. rewrite Ek. cbn [rbind]. rewrite Hd.
    destruct (m_take_buf m).1 as [b0 sz0]. cbn [fst snd] in Eb, Hb. subst b0. replace (_ && _) with true by lia. by eexists. }
  destruct (send_alive _ _ _ _ _ _ _ _ Ek Hd Hl Hrep Es) as (k' & Ek' & Hd' & Hl').
  eexists (set_heap s hp), _. split.
  - unfold dispatch. rewrite Hu. cbn [rbind]. rewrite Hok. cbn [negb]. rewrite !(proj2 (Z.eqb_neq _ _)) by done. cbn [negb andb].
    unfold error_reply. rewrite Em. cbn [rbind]. by rewrite Es.
  - split_and!; [by exists k'| |done|done|done|done|by apply conn_send_Ret in Es]. rewrite app_nil_r. exists (be32 (RPC_HEADER_SZ + Z.of_nat (length (@nil ascii)))), tl.
    split; [apply length_be32|]. rewrite app_nil_r. split; [by rewrite drop_app_length'|].
    destruct Hrep as [? ? ? ? Hh _]. rewrite length_app in Hh |- *. by rewrite length_be32, <- Hsz.
Qed.

(** The call of a client of the old instance. *)
Lemma remote_call1_old x n y (c : rpcc) (e : endpoint S) proc req h0 l :
  client_ready x c → server_ready k j n y e → x + 1 < 2 ^ 31 → proc ≠ rpc_const.bind → 0 ≤ proc < 2 ^ 31 →
  rc_bind_done c = true → rc_srv_nonce c ≠ 0 → rc_srv_nonce c ≠ rs_nonce (ep_srv e) → rep req h0 l → transported l →
  ∃ un c' e', remote_call1 fill k j proc req (c, e) = Ret (rpc_const.oldsrv_failure, un, (c', e')) ∧ client_ready (x + 1) c' ∧
    rs_obj (ep_srv e') = rs_obj (ep_srv e) ∧ same_setup (ep_srv e) (ep_srv e') ∧ server_ready k j n y e' ∧
    ep_listen e' = ep_listen e ∧ dom (rs_heap (ep_srv e')) = dom (rs_heap (ep_srv e)) ∧
    (∀ m z, window_ok (ep_srv e) m z → window_ok (ep_srv e') m z).
Proof.
  intros [Hx Exid Ewin Ecalls Eopen Elossy Edup Hn Hsn] Hs Hlt Hproc Hp Hbd H0 Hne Hreq Hfl.
  set (hd := ReqHeader (x + 1) proc (rc_clt_nonce c) (rc_srv_nonce c) x).
  assert (wf_req_header hd) as Hwf by (split_and!; cbn; wrap_unfold; try lia; apply Hsn).
  destruct (m_pack_req_header_rep req h0 l hd Hreq) as (req' & sz & Ereq & Hsz & Hreq').
  unfold remote_call1, call1_begin. rewrite Hbd, (proj2 (Z.eqb_neq proc rpc_const.bind) Hproc). cbn [negb andb orb].
  rewrite Eopen, Ewin, Exid. rewrite (proj1 (small_wraps (x + 1) ltac:(lia))), (proj1 (small_wraps proc Hp)).
  rewrite (proj1 (small_wraps x ltac:(lia))). fold hd. rewrite Ereq. cbn [rbind].
  rewrite (m_pdu_rep _ _ _ Hreq'). cbn [rbind]. unfold call1_transmit. cbn [rc_dup_req rc_xid_rep_done].
  rewrite Edup. change (request_isvalid request_clear) with false. cbn [andb fmap list_fmap serve_pdus].
  destruct (frame_request sz hd l Hsz Hwf (transported_fits _ Hfl)) as (u & Eu & Ru). cbv zeta in Eu.
  rewrite (request_transported sz hd l Hsz Hfl). set (b := (sz ++ _) ++ l) in *. set (pdu := frame b _) in *.
  destruct (got_pdu_ready k j n y e pdu Hs) as (e1 & E1 & Ej & Ew & [leak1 Hi1] & Ha & _ & Hsame & Eo & Hw1 & Elist & Edom).
  pose proof Hs as [_ _ [ls Hl] Hre Hq Hm Hj]. pose proof Hsame as (En & Ep & Er).
  destruct (dispatch_old_server (ep_srv e1) k ls pdu (Z.of_nat (length pdu)) hd u Eu (reads_ok _ _ Ru) H0)
    as (s2 & reply & E2 & Ha2 & Hp2 & Hs2 & Eo2 & Ew2 & Ec2 & Ed2); [by rewrite En|by apply Ha|].
  assert (run_job fill true [] e1 = Ret (Some (Endpoint s2 (ep_listen e1) (delete j (ep_jobs e1)) (ep_pool e)))) as E3.
  { unfold run_job. rewrite Ew, Ej, lookup_insert_eq. cbn [dj_conn dj_buf dj_sz]. by rewrite E2. }
  destruct (run_job_inv _ _ _ _ _ _ Hi1 E3) as (leak2 & Hi2 & _). set (e2 := Endpoint _ _ _ _) in *.
  assert (serve_pdu fill k j pdu e = Ret e2) as Es by (unfold serve_pdu; rewrite E1; cbn [rbind]; by rewrite E3).
  rewrite Es. cbn [rbind]. rewrite (alive_sent k e ls Hl), (alive_sent k e2 (ls ++ [reply]) Ha2), drop_app_length.
  match goal with |- context [receive_pdus [reply] ?c0] => set (c1 := c0) end.
  destruct (receive_reply x c1 (Caller unmarshall_empty 0 false) rpc_const.oldsrv_failure [] reply) as (un & Erc & Run); try done.
  { cbn. rewrite Ecalls. by rewrite insert_empty. }
  rewrite Erc. cbn [rbind]. unfold call1_end. rewrite (proj1 (small_wraps (x + 1) ltac:(lia))).
  cbn [rc_calls set_calls]. rewrite lookup_singleton_eq. cbn [rc_xid_rep_window set_calls]. rewrite update_again.
  cbn [rbind ca_done ca_intret ca_un andb rc_lossytest set_calls]. subst c1. cbn [rc_lossytest]. rewrite Elossy. cbn [negb Z.eqb rbind].
  assert (∀ m z, window_ok (ep_srv e) m z → window_ok s2 m z) as Hwin.
  { intros m z Hwz. destruct (got_pdu_ready k j m z e pdu) as (e1' & E1' & _ & _ & _ & _ & _ & _ & _ & Hw1' & _).
    { destruct Hs. by split. }
    rewrite E1 in E1'. injection E1' as <-. destruct Hw1' as [Hww Hwr Hwc]. split; [by rewrite Ew2|by rewrite Ew2|by rewrite Ec2]. }
  do 3 eexists. split; [done|]. split_and!.
  - split; cbn; try done; [lia|wrap_lia|apply delete_singleton_eq].
  - subst e2. cbn. congruence.
  - subst e2. cbn. by etrans.
  - subst e2. destruct Hs. split; cbn; try done; [by apply Hwin|by eexists|by eexists| |apply lookup_delete_eq].
    destruct Hs2 as (_ & _ & ->). congruence.
  - exact Elist.
  - subst e2. cbn. congruence.
  - done.
Qed.
End old_server.

(** ** Starting a server *)

Section start.
Context {S : Type}.

Lemma reg1_fresh (s : rpcs S) proc h :
  rs_procs s !! proc = None →
  ∃ s', reg1 s proc h = Ret s' ∧ rs_procs s' = <[proc := h]> (rs_procs s) ∧
    rs_nonce s' = rs_nonce s ∧ rs_reply_window s' = rs_reply_window s ∧ rs_conns s' = rs_conns s ∧
    rs_heap s' = rs_heap s ∧ rs_reachable s' = rs_reachable s ∧ rs_obj s' = rs_obj s.
Proof.
  intros E. unfold reg1. rewrite bool_decide_eq_true_2 by done. cbn [VERIFY rbind].
  rewrite bool_decide_eq_true_2; [|by rewrite lookup_insert_eq]. cbn [VERIFY rbind]. by eexists.
Qed.

(** Registering another number keeps a server as it was started. *)
Lemma started_reg random o (e : endpoint S) proc h :
  started random o e → rs_procs (ep_srv e) !! proc = None →
  ∃ s', reg1 (ep_srv e) proc h = Ret s' ∧ started random o (set_srv s' e) ∧
    rs_procs s' = <[proc := h]> (rs_procs (ep_srv e)).
Proof.
  intros [Hn Hb Hw Hc Hh Hr Hl Hj Hp Ho] E.
  destruct (reg1_fresh (ep_srv e) proc h E) as (s' & E' & Ep & En & Ew & Ec & Eh & Er & Eo).
  exists s'. split_and!; [done| |done]. split; cbn [set_srv ep_srv ep_listen ep_jobs ep_pool]; try congruence.
  rewrite Ep, lookup_insert_ne; [done|]. by intros ->; rewrite Hb in E.
Qed.

Lemma endpoint_started random count o :
  ∃ e : endpoint S, endpoint_new random count o = Ret e ∧ started random o e ∧
    rs_procs (ep_srv e) = {[ rpc_const.bind := rpcs_reg1 (rpcbind (u32 random)) ]}.
Proof.
  unfold endpoint_new, rpcs_new, reg1. cbn [rs_procs]. rewrite bool_decide_eq_true_2 by apply lookup_empty.
  cbn [VERIFY rbind]. rewrite bool_decide_eq_true_2; [|by rewrite lookup_insert_eq]. cbn [VERIFY rbind].
  eexists. split; [done|]. split; [|done]. by split.
Qed.
End start.

(** ** The extent service *)

(** The server object; [eo_requests] counts the requests, so that each reads
    its own clock. *)
Record extent_obj := ExtentObj { eo_requests : nat; eo_server : extent_server }.

Section extent.
(** What [time] returns during the [i]-th request, and what an uninitialised
    [atime] holds. *)
Context (clock junk : nat → Z).

Definition ext_get (id : ullong) (buf : string) (o : extent_obj) : res (Z * string * extent_obj) :=
  let '(ret, buf, s) := es_get (clock (eo_requests o)) id buf (eo_server o) in
  Ret (ret, buf, ExtentObj (S (eo_requests o)) s).
Definition ext_getattr (id : ullong) (a : attr) (o : extent_obj) : res (Z * attr * extent_obj) :=
  let '(ret, a, s) := es_getattr id a (eo_server o) in
  Ret (ret, a, ExtentObj (S (eo_requests o)) s).
Definition ext_put (id : ullong) (buf : string) (r : int) (o : extent_obj) : res (Z * int * extent_obj) :=
  let '(ret, s) := es_put (junk (eo_requests o)) (clock (eo_requests o)) id buf (eo_server o) in
  Ret (ret, r, ExtentObj (S (eo_requests o)) s).
Definition ext_remove (id : ullong) (r : int) (o : extent_obj) : res (Z * int * extent_obj) :=
  let '(ret, s) := es_remove id (eo_server o) in
  Ret (ret, r, ExtentObj (S (eo_requests o)) s).

(** The main program: [count] is the value of RPC_COUNT. *)
Definition extent_smain (random count : Z) : res (endpoint extent_obj) :=
  e ← endpoint_new random count (ExtentObj 0 extent_server_new);
  s ← reg1 (ep_srv e) extent_protocol.get (rpcs_reg1 ext_get);
  s ← reg1 s extent_protocol.getattr (rpcs_reg1 ext_getattr);
  s ← reg1 s extent_protocol.put (rpcs_reg2 ext_put);
  s ← reg1 s extent_protocol.remove (rpcs_reg1 ext_remove);
  Ret (set_srv s e).

(** The calls of the extent client. *)
Section calls.
Context {T : Type} (fill : ascii) (call1 : Z → marshall → T → res (Z * unmarshall * T)).

Definition extent_call (q : extent_request) (t : T) : res (extent_reply * T) :=
  match q with
  | PutReq id buf =>
      '(ret, _, t) ← rpcc_call2 (A1:=ullong) (A2:=string) (R:=int) fill call1 extent_protocol.put id buf 0 t;
      Ret (Answered ret None, t)
  | GetReq id =>
      '(ret, buf, t) ← rpcc_call1 (A1:=ullong) (R:=string) fill call1 extent_protocol.get id "" t;
      Ret (Answered ret (if ret =? extent_protocol.OK then Some (inl buf) else None), t)
  | GetAttrReq id =>
      '(ret, a, t) ← rpcc_call1 (A1:=ullong) (R:=attr) fill call1 extent_protocol.getattr id inhabitant t;
      Ret (Answered ret (if ret =? extent_protocol.OK then Some (inr (a_size a)) else None), t)
  | RemoveReq id =>
      '(ret, _, t) ← rpcc_call1 (A1:=ullong) (R:=int) fill call1 extent_protocol.remove id 0 t;
      Ret (Answered ret None, t)
  end.

Fixpoint extent_calls (qs : list extent_request) (t : T) : res (list extent_reply * T) :=
  match qs with
  | [] => Ret ([], t)
  | q :: qs =>
      '(r, t) ← extent_call q t;
      '(rs, t) ← extent_calls qs t;
      Ret (r :: rs, t)
  end.
End calls.
End extent.

(** A request that fits into a packet: the number of the extent takes 8 bytes
    and the length of the string 4. *)
Definition packable (buf : string) : Prop := RPC_HEADER_SZ + 12 + string_size buf ≤ MAX_PDU.
Definition request_ok (q : extent_request) : Prop :=
  match q with
  | PutReq id buf => in_u64 id ∧ packable buf
  | GetReq id | GetAttrReq id | RemoveReq id => in_u64 id
  end.

(** The extents and the attributes can be sent. *)
Definition store_ok (s : extent_server) : Prop :=
  (∀ id buf, es_contents s !! id = Some buf → packable buf) ∧
  (∀ id a, es_attributes s !! id = Some a → wf a).

Section extent_service.
Context (clock junk : nat → Z) (fill fill' : ascii) (k j : nat).
Context (Hjunk : ∀ i, in_u32 (junk i)).

(** The four methods are registered under the numbers the client uses. *)
Lemma extent_smain_ok random count :
  ∃ e, extent_smain clock junk random count = Ret e ∧ started random (ExtentObj 0 extent_server_new) e ∧
    rs_procs (ep_srv e) !! extent_protocol.get = Some (rpcs_reg1 (ext_get clock)) ∧
    rs_procs (ep_srv e) !! extent_protocol.getattr = Some (rpcs_reg1 ext_getattr) ∧
    rs_procs (ep_srv e) !! extent_protocol.put = Some (rpcs_reg2 (ext_put clock junk)) ∧
    rs_procs (ep_srv e) !! extent_protocol.remove = Some (rpcs_reg1 ext_remove).
Proof.
  unfold extent_smain.
  destruct (endpoint_started random count (ExtentObj 0 extent_server_new)) as (e & -> & H0 & E0). cbn [rbind].
  destruct (started_reg _ _ e extent_protocol.get (rpcs_reg1 (ext_get clock)) H0) as (s1 & -> & H1 & E1).
  { rewrite E0. by rewrite lookup_singleton_ne. } cbn [rbind].
  destruct (started_reg _ _ _ extent_protocol.getattr (rpcs_reg1 ext_getattr) H1) as (s2 & E & H2 & E2).
  { cbn [set_srv ep_srv]. rewrite E1, E0. by rewrite lookup_insert_ne, lookup_singleton_ne. }
  cbn [set_srv ep_srv ep_listen ep_jobs ep_pool] in *. rewrite E. clear E. cbn [rbind].
  destruct (started_reg _ _ _ extent_protocol.put (rpcs_reg2 (ext_put clock junk)) H2) as (s3 & E & H3 & E3).
  { cbn [set_srv ep_srv]. rewrite E2, E1, E0. by rewrite !lookup_insert_ne, lookup_singleton_ne. }
  cbn [set_srv ep_srv ep_listen ep_jobs ep_pool] in *. rewrite E. clear E. cbn [rbind].
  destruct (started_reg _ _ _ extent_protocol.remove (rpcs_reg1 ext_remove) H3) as (s4 & E & H4 & E4).
  { cbn [set_srv ep_srv]. rewrite E3, E2, E1, E0. by rewrite !lookup_insert_ne, lookup_singleton_ne. }
  cbn [set_srv ep_srv ep_listen ep_jobs ep_pool] in *. rewrite E. clear E. cbn [rbind].
  eexists. split; [done|]. split; [done|]. cbn [set_srv ep_srv]. rewrite E4, E3, E2, E1.
  split_and!; repeat (rewrite lookup_insert_ne by done); by rewrite lookup_insert_eq.
Qed.

Definition extent_procs (s : rpcs extent_obj) : Prop :=
  rs_procs s !! extent_protocol.get = Some (rpcs_reg1 (ext_get clock)) ∧
  rs_procs s !! extent_protocol.getattr = Some (rpcs_reg1 ext_getattr) ∧
  rs_procs s !! extent_protocol.put = Some (rpcs_reg2 (ext_put clock junk)) ∧
  rs_procs s !! extent_protocol.remove = Some (rpcs_reg1 ext_remove).

Lemma attr_insert_ok (m : gmap Z attr) id a :
  (∀ i b, m !! i = Some b → wf b) → wf a → ∀ i b, <[id := a]> m !! i = Some b → wf b.
Proof. intros Hm Ha i b [[_ <-]|[_ Hi]]%lookup_insert_Some; [done|by eapply Hm]. Qed.

Lemma store_ok_serve i q s : request_ok q → store_ok s → store_ok (es_serve (junk i) (clock i) q s).2.
Proof.
  intros Hq [Hc Ha]. destruct q as [id buf|id|id|id]; cbn.
  - split; cbn.
    + intros i' b [[_ <-]|[_ Hi]]%lookup_insert_Some; [apply Hq|by eapply Hc].
    + apply attr_insert_ok; [done|]. split_and!; cbn; [apply Hjunk|apply u32_range..].
  - unfold es_get. destruct (es_contents s !! id) as [b|] eqn:E; [|done]. unfold map_ref.
    destruct (es_attributes s !! id) as [a|] eqn:Ea; cbn; (split; [done|]); cbn.
    + apply attr_insert_ok; [done|]. destruct (Ha _ _ Ea) as (_ & ? & ? & ?). split_and!; cbn; [apply u32_range|done..].
    + rewrite insert_insert_eq. apply attr_insert_ok; [done|]. split_and!; cbn; [apply u32_range|done..].
  - unfold es_getattr. by destruct (es_attributes s !! id).
  - unfold es_remove. destruct (es_contents s !! id); [|done]. split; cbn; intros i' b [_ Hi]%lookup_delete_Some;
      [by eapply Hc|by eapply Ha].
Qed.

Lemma packable_transported (id : ullong) s : packable s → wf s ∧ transported (enc (id, s)) ∧ transported (enc s).
Proof.
  unfold packable, transported. rewrite MAX_PDU_val. intros Hs. pose proof hdr_sz. unfold string_size in Hs.
  split; [unfold wf; cbn -[Z.pow]; unfold string_size; lia|].
  cbn [enc pair_ok string_ok fst snd]. rewrite !length_app, length_be32, length_chars.
  assert (length (enc id) = 8%nat) as -> by (cbn [enc ullong_ok]; by rewrite length_app, !length_be32). lia.
Qed.

Lemma transported_attr (a : attr) : transported (enc a).
Proof. apply transported_short. destruct a. cbn -[be32]. rewrite !length_app, !length_be32. lia. Qed.

(** One call of the client is one request served. *)
Lemma extent_call_ok x t n s q :
  session k j x t → x + 1 < 2 ^ 31 → rs_obj (ep_srv t.2) = ExtentObj n s → extent_procs (ep_srv t.2) →
  store_ok s → request_ok q →
  ∃ t', extent_call fill' (remote_call1 fill k j) q t = Ret ((es_serve (junk n) (clock n) q s).1, t') ∧
    rs_obj (ep_srv t'.2) = ExtentObj (S n) (es_serve (junk n) (clock n) q s).2 ∧
    same_setup (ep_srv t.2) (ep_srv t'.2) ∧ session k j (x + 1) t'.
Proof.
  intros Hs Hx Eo (Pget & Pattr & Pput & Prem) [Hc Ha] Hq.
  destruct q as [id buf|id|id|id]; cbn [extent_call es_serve request_ok] in *.
  - rewrite rpcc_call2_tuple. destruct Hq as [Hid Hbuf]. destruct (packable_transported id _ Hbuf) as (Hwb & Hfb & _).
    destruct (session_call (A:=ullong * string) (R:=int) fill fill' k j x t extent_protocol.put (@pair ullong string id buf) 0
      _ extent_protocol.OK 0 (ExtentObj (S n) (es_put (junk n) (clock n) id buf s).2) Hs Hx ltac:(done) ltac:(done) Pput)
      as (t' & E1 & E2 & E3 & E4); [done|done| |done|apply transported_int|].
    + rewrite Eo. by apply reg2_serves.
    + exists t'. rewrite E1. cbn [rbind]. split_and!; [reflexivity|exact E2|exact E3|exact E4].
  - destruct (es_get (clock n) id "" s) as [[ret buf] s'] eqn:E.
    destruct (session_call (A:=ullong) (R:=string) fill fill' k j x t extent_protocol.get id ""
      _ ret buf (ExtentObj (S n) s') Hs Hx ltac:(done) ltac:(done) Pget) as (t' & E1 & E2 & E3 & E4); [done|apply transported_ullong| | | |].
    + rewrite Eo. apply reg1_serves; [done|]. unfold ext_get. cbn [eo_requests eo_server]. 
      change (inhabitant : string) with "". by rewrite E.
    + unfold es_get in E. destruct (es_contents s !! id) as [b|] eqn:Eb; [|by injection E as <- <- <-].
      destruct (map_ref _ _ _). injection E as <- <- <-. destruct (packable_transported id _ (Hc _ _ Eb)) as (Hwb & _ & Hfb).
      split; [done|done|]. by apply transported_fits.
    + unfold es_get in E. destruct (es_contents s !! id) as [b|] eqn:Eb; [|injection E as <- <- <-; apply (packable_transported id ""); unfold packable; rewrite MAX_PDU_val; by vm_compute].
      destruct (map_ref _ _ _). injection E as <- <- <-. apply (packable_transported id _ (Hc _ _ Eb)).
    + exists t'. rewrite E1. cbn [rbind]. split_and!; [reflexivity|exact E2|exact E3|exact E4].
  - destruct (es_getattr id inhabitant s) as [[ret a] s'] eqn:E.
    destruct (session_call (A:=ullong) (R:=attr) fill fill' k j x t extent_protocol.getattr id inhabitant
      _ ret a (ExtentObj (S n) s') Hs Hx ltac:(done) ltac:(done) Pattr) as (t' & E1 & E2 & E3 & E4); [done|apply transported_ullong| | |apply transported_attr|].
    + rewrite Eo. apply reg1_serves; [done|]. unfold ext_getattr. cbn [eo_requests eo_server]. by rewrite E.
    + unfold es_getattr in E. destruct (es_attributes s !! id) as [b|] eqn:Eb; injection E as <- <- <-; split; try done.
      by eapply Ha.
    + exists t'. rewrite E1. change (Attr 0 0 0 0) with (inhabitant : attr). rewrite E. cbn [rbind].
      split_and!; [reflexivity|exact E2|exact E3|exact E4].
  - destruct (es_remove id s) as [ret s'] eqn:E.
    destruct (session_call (A:=ullong) (R:=int) fill fill' k j x t extent_protocol.remove id 0
      _ ret 0 (ExtentObj (S n) s') Hs Hx ltac:(done) ltac:(done) Prem) as (t' & E1 & E2 & E3 & E4); [done|apply transported_ullong| | |apply transported_int|].
    + rewrite Eo. apply reg1_serves; [done|]. unfold ext_remove. cbn [eo_requests eo_server]. by rewrite E.
    + unfold es_remove in E. by destruct (es_contents s !! id); injection E as <- <-.
    + exists t'. rewrite E1. cbn [rbind]. split_and!; [reflexivity|exact E2|exact E3|exact E4].
Qed.

Lemma extent_calls_ok qs : ∀ x t n s,
  session k j x t → x + Z.of_nat (length qs) < 2 ^ 31 → rs_obj (ep_srv t.2) = ExtentObj n s →
  extent_procs (ep_srv t.2) → store_ok s → es_inv s → Forall request_ok qs →
  ∃ rs t', extent_calls fill' (remote_call1 fill k j) qs t = Ret (rs, t') ∧
    session k j (x + Z.of_nat (length qs)) t' ∧
    store_serve_all qs (es_contents s) = (rs, es_contents (eo_server (rs_obj (ep_srv t'.2)))).
Proof.
  induction qs as [|q qs IH]; intros x t n s Hs Hx Eo Hp Hok Hi Hqs.
  { exists [], t. cbn. rewrite Eo, Z.add_0_r. done. }
  cbn [length] in Hx |- *. apply Forall_cons in Hqs as [Hq Hqs].
  destruct (extent_call_ok x t n s q) as (t1 & E1 & Eo1 & Hsame & Hs1); [done|lia|done..|].
  destruct (IH (x + 1) t1 (S n) (es_serve (junk n) (clock n) q s).2) as (rs & t' & E & Hs' & Est);
    [done|lia|done| |by apply store_ok_serve|by apply es_serve_refines|done|].
  { destruct Hsame as (_ & Ep & _). unfold extent_procs. by rewrite Ep. }
  exists ((es_serve (junk n) (clock n) q s).1 :: rs), t'. cbn [extent_calls store_serve_all]. rewrite E1. cbn [rbind].
  rewrite E. cbn [rbind]. split; [done|]. split; [by replace (x + _) with (x + 1 + Z.of_nat (length qs)) by lia|].
  rewrite (proj2 (es_serve_refines (junk n) (clock n) q s Hi)). by rewrite Est.
Qed.
End extent_service.

(** C15: the extent service works end to end.  A server started by the main
    program of the extent server and a client that connects to it: every
    sequence of put, get, getattr and remove calls that the client makes is
    marshalled, framed, queued, dispatched, executed once, answered and
    unmarshalled so that the client gets the statuses, bytes and sizes that a
    map from extent numbers to bytes gives, and no assertion of either side
    fails, as long as the buffers that are put are small enough for packets
    of at most [MAX_PDU] bytes; the connection stays up and nothing is lost. *)
Theorem extent_service_end_to_end clock junk fill fill' k j fd now srandom count random qs :
  (∀ i, in_u32 (junk i)) → 0 < u32 random → Forall request_ok qs → Z.of_nat (length qs) < 2 ^ 31 - 1 →
  ∃ e t t' rs,
    extent_smain clock junk srandom count = Ret e ∧ client_connect fill fill' k j fd now random e = Ret t ∧
    extent_calls fill' (remote_call1 fill k j) qs t = Ret (rs, t') ∧
    store_serve_all qs {[ 1 := "" ]} = (rs, es_contents (eo_server (rs_obj (ep_srv t'.2)))).
Proof.
  intros Hj Hr Hqs Hlen.
  destruct (extent_smain_ok clock junk srandom count) as (e & E & Hst & Hprocs).
  destruct (client_connect_ok fill fill' k j srandom _ e fd now random Hst Hr) as (t & Et & Hs & Hsame & Eo).
  destruct (extent_calls_ok clock junk fill fill' k j Hj qs 1 t 0 extent_server_new) as (rs & t' & Ec & _ & Est);
    [done|lia|done| | | |done|].
  { destruct Hsame as (_ & Ep & _). unfold extent_procs. by rewrite Ep. }
  { split; cbn; intros id x [<- <-]%lookup_singleton_Some; [unfold packable; rewrite MAX_PDU_val; by vm_compute|]. by split_and!. }
  { intros id. destruct (decide (id = 1)) as [->|Hne]; [done|]. cbn. by rewrite !lookup_singleton_ne. }
  exists e, t, t', rs. done.
Qed.

Definition demo_extent_calls : list extent_request :=
  [PutReq 7 "hello"; GetReq 7; GetAttrReq 7; RemoveReq 7; GetReq 7].

Lemma extent_service_end_to_end_witness : ∃ e t t' rs,
  extent_smain (λ i, Z.of_nat i) (λ _, 5) 11 0 = Ret e ∧ client_connect "x" "y" 1 1 10 (100, 0) 3 e = Ret t ∧
  extent_calls "y" (remote_call1 "x" 1 1) demo_extent_calls t = Ret (rs, t') ∧
  rs = [Answered 0 None; Answered 0 (Some (inl "hello")); Answered 0 (Some (inr 5)); Answered 0 None; Answered 3 None].
Proof.
  destruct (extent_service_end_to_end (λ i, Z.of_nat i) (λ _, 5) "x" "y" 1 1 10 (100, 0) 11 0 3 demo_extent_calls)
    as (e & t & t' & rs & E1 & E2 & E3 & E4).
  - intros i. unfold in_u32. lia.
  - reflexivity.
  - unfold demo_extent_calls. repeat (apply Forall_cons; split; [unfold request_ok, in_u64, packable, string_size; rewrite ?MAX_PDU_val; cbn -[Z.pow]; pose proof hdr_sz; lia|]).
    constructor.
  - reflexivity.
  - exists e, t, t', rs. split; [exact E1|]. split; [exact E2|]. split; [exact E3|].
    change (store_serve_all demo_extent_calls {[ 1 := "" ]}) with
      ([Answered 0 None; Answered 0 (Some (inl "hello")); Answered 0 (Some (inr 5)); Answered 0 None; Answered 3 None],
       ({[ 1 := "" ]} : gmap Z string)) in E4. congruence.
Defined.
