(* ===== verification/RpcSystem.v ===== *)
(** * Clients and a server over an unreliable network (rpc/rpc.cc)

    Any number of clients with any number of calls under way, one server, and
    a network that loses, repeats and reorders packets.  The pieces of the
    code that run under one lock are the steps: the beginning of [call1],
    [rpcc::got_pdu], the end of [call1], [cancel] and [bind] on the side of a
    client; the arrival of a request in [dispatch], and the end of a handler,
    on the side of the server.  What has been sent may be delivered at any
    later time, any number of times or never: that covers retransmissions, the
    loss test and connections that break. *)

From stdpp Require Import functions.
From S2P Require Import Prelude Marshall Protocols Stubs Connection RpcServer RpcClient Session.

Section system.
Context {S : Type}.

(** An execution of a handler for the request [ex_xid] of [ex_client]. *)
Record exec := Exec {
  ex_client : Z; ex_xid : Z; ex_proc : Z; ex_args : list ascii;
  ex_before : S; ex_ret : Z; ex_reply : list ascii; ex_after : S }.
Definition ex_key (x : exec) : Z * Z := (ex_client x, ex_xid x).

(** What a call returned. *)
Record returned := Returned { rd_client : Z; rd_xid : Z; rd_ret : Z; rd_un : unmarshall }.

(** [ss_client] is indexed by the nonces of the clients; [ss_asked] has the
    header and the arguments of every call that was begun; [ss_jobs] are the
    requests whose handlers run; [ss_log] are the executions, latest first. *)
Record rpc_system := RpcSystem {
  ss_client : Z → client;
  ss_asked : gmap (Z * Z) (req_header * list ascii);
  ss_requests : list (list ascii);
  ss_amo : amo;
  ss_jobs : list (req_header * unmarshall);
  ss_obj : S;
  ss_log : list exec;
  ss_replies : list (Z * list ascii);
  ss_returned : list returned }.

(** The bytes that [send] puts on the wire for a buffer. *)
Definition packet_of (r : reply) : list ascii :=
  match r with (Some b, sz) => frame b sz | (None, _) => [] end.

(** What [dispatch] answers at once to a request in the given state. *)
Definition answer_at_once (fill : ascii) (h : req_header) (st : rpcstate_t) (out : reply) : res (list (Z * list ascii)) :=
  match st with
  | NEW | INPROGRESS => Ret []
  | DONE => Ret [(rq_clt_nonce h, packet_of out)]
  | FORGOTTEN =>
      r ← error_reply fill (rq_xid h) rpc_const.atmostonce_failure;
      Ret [(rq_clt_nonce h, packet_of r)]
  end.

(** [procs] and [nonce] are the server's; [patient] tells whether calls wait
    for their replies, and the first call of a client is over before it makes
    others. *)
Context (fill : ascii) (procs : gmap Z (handler S)) (nonce : Z) (patient : bool).

Inductive rpc_step : rpc_system → rpc_system → Prop :=
| sys_begin C A Q M J o L R D n proc req h0 l xid req' xid_rep c b :
    0 < n < 2 ^ 32 → rc_xid (cl_rpcc (C n)) < 2 ^ 31 - 1 → in_s32 proc → rep req h0 l → fits l →
    (patient = true → proc = rpc_const.bind → rc_calls (cl_rpcc (C n)) = ∅) →
    call1_begin (cl_rpcc (C n)) proc req = Ret (BeginOk xid req' xid_rep, c) → m_pdu req' = Ret b →
    rpc_step (RpcSystem C A Q M J o L R D)
      (RpcSystem (<[n := Client c (cl_acked (C n)) ((xid, xid_rep) :: cl_sent (C n))]> C)
        (<[(n, xid) := (ReqHeader (s32 xid) (s32 proc) n (rc_srv_nonce (cl_rpcc (C n))) xid_rep, l)]> A)
        (frame b (Z.of_nat (length b)) :: Q) M J o L R D)
| sys_old_server C A Q M J o L R D pdu h u r :
    pdu ∈ Q → u_unpack_req_header (unmarshall_buf pdu (Z.of_nat (length pdu))) = Ret (h, u) →
    rq_srv_nonce h ≠ 0 → rq_srv_nonce h ≠ nonce →
    error_reply fill (rq_xid h) rpc_const.oldsrv_failure = Ret r →
    rpc_step (RpcSystem C A Q M J o L R D)
      (RpcSystem C A Q M J o L ((rq_clt_nonce h, packet_of r) :: R) D)
| sys_arrive C A Q w st an J o L R D pdu h u f st' out w' ans :
    pdu ∈ Q → u_unpack_req_header (unmarshall_buf pdu (Z.of_nat (length pdu))) = Ret (h, u) →
    rq_srv_nonce h = 0 ∨ rq_srv_nonce h = nonce → procs !! rq_proc h = Some f →
    checkduplicate_and_update w (rq_clt_nonce h) (u32 (rq_xid h)) (u32 (rq_xid_rep h)) (None, 0) = Ret (st', out, w') →
    answer_at_once fill h st' out = Ret ans →
    rpc_step (RpcSystem C A Q (Amo w st an) J o L R D)
      (RpcSystem C A Q
        (Amo w' (if decide (st' = NEW) then (rq_clt_nonce h, u32 (rq_xid h)) :: st else st) an)
        (if decide (st' = NEW) then (h, u) :: J else J) o L (ans ++ R) D)
| sys_finish C A Q w st an J J' o L R D h u f ret m o' hh cc m' w' :
    J ≡ₚ (h, u) :: J' → procs !! rq_proc h = Some f →
    f u (marshall_new fill) o = Ret (ret, m, o') → 0 ≤ ret < 2 ^ 31 → rep m hh cc → fits cc →
    m_pack_reply_header m (ReplyHeader (rq_xid h) ret) = Ret m' →
    add_reply w (rq_clt_nonce h) (u32 (rq_xid h)) (m_take_buf m').1 = Ret w' →
    rpc_step (RpcSystem C A Q (Amo w st an) J o L R D)
      (RpcSystem C A Q
        (Amo w' st (<[(rq_clt_nonce h, u32 (rq_xid h)) := (m_take_buf m').1]> an)) J' o'
        (Exec (rq_clt_nonce h) (u32 (rq_xid h)) (rq_proc h) (drop (Z.to_nat (u_ind u)) (u_buf u)) o ret cc o' :: L)
        ((rq_clt_nonce h, packet_of (m_take_buf m').1) :: R) D)
| sys_reply C A Q M J o L R D n pdu h u ok c :
    (n, pdu) ∈ R → u_unpack_reply_header (unmarshall_buf pdu (Z.of_nat (length pdu))) = Ret (h, u) →
    rpcc_got_pdu (cl_rpcc (C n)) pdu (Z.of_nat (length pdu)) = Ret (ok, c) →
    rpc_step (RpcSystem C A Q M J o L R D)
      (RpcSystem (<[n := Client c (rp_xid h :: cl_acked (C n)) (cl_sent (C n))]> C) A Q M J o L R D)
| sys_end C A Q M J o L R D n xid xid_rep b ca ret un c :
    rc_calls (cl_rpcc (C n)) !! xid = Some ca → (patient = true → ca_done ca = true) →
    call1_end (cl_rpcc (C n)) xid xid_rep b = Ret (ret, un, c) →
    rpc_step (RpcSystem C A Q M J o L R D)
      (RpcSystem (<[n := Client c (xid :: cl_acked (C n)) (cl_sent (C n))]> C) A Q M J o L R
        (Returned n xid ret un :: D))
| sys_bind C A Q M J o L R D n xid h l ret un r un' :
    Returned n xid ret un ∈ D → A !! (n, xid) = Some (h, l) → rq_proc h = rpc_const.bind →
    0 ≤ ret → get (A:=int) un 0 = Ret (r, un') →
    rpc_step (RpcSystem C A Q M J o L R D)
      (RpcSystem (<[n := Client (bind_reply (cl_rpcc (C n)) ret r) (cl_acked (C n)) (cl_sent (C n))]> C) A Q M J o L R D)
| sys_cancel C A Q M J o L R D n :
    patient = false →
    rpc_step (RpcSystem C A Q M J o L R D)
      (RpcSystem (<[n := Client (cancel_begin (cl_rpcc (C n))) (cl_acked (C n)) (cl_sent (C n))]> C) A Q M J o L R D).

(** Nothing has been sent; [lossy] is the value of RPC_LOSSY. *)
Definition rpc_init (lossy : Z) (o : S) : rpc_system :=
  RpcSystem (λ n, client_init n lossy true) ∅ [] amo_init [] o [] [] [].
End system.
Arguments exec S : clear implicits.
Arguments rpc_system S : clear implicits.

(** ** The window and the acknowledgements *)

(** The request [x] of client [n] is behind the window and was not started:
    it never will be. *)
Definition lost (M : amo) (n x : Z) : Prop :=
  ((n, x) ∉ amo_started M) ∧ ∃ f, head (entries (amo_window M) n) = Some f ∧ x < rt_xid f.

Lemma head_trim_above r l f x :
  head l = Some f → x < rt_xid f → StronglySorted Z.lt (rt_xid <$> l) →
  (trim r l = [] ∧ x < r) ∨ ∃ f', head (trim r l) = Some f' ∧ x < rt_xid f'.
Proof.
  intros Hf Hx Hs. destruct (trim_spec r l Hs) as [Hsuf Hin].
  destruct (trim r l) as [|f' l'] eqn:E.
  - left. split; [done|]. destruct l as [|f0 l]; [done|]. injection Hf as ->.
    destruct (decide (r ≤ rt_xid f)) as [Hle|]; [|lia].
    destruct (elem_of_nil (rt_xid f)) as [Hn _]. destruct Hn. apply Hin. split; [rewrite fmap_cons; left|done].
  - right. exists f'. split; [done|]. destruct Hsuf as [k Ek].
    enough (rt_xid f ≤ rt_xid f') by lia.
    apply (sorted_head_le f' l f Hs Hf). rewrite Ek, elem_of_app. right. left.
Qed.

(** A lost request stays lost, whatever arrives. *)
Lemma lost_arrive w st an n x m y r out st' out' w' :
  amo_inv (Amo w st an) → r < y → lost (Amo w st an) n x →
  checkduplicate_and_update w m y r out = Ret (st', out', w') →
  lost (Amo w' (if decide (st' = NEW) then (m, y) :: st else st) an) n x.
Proof.
  intros Hinv Hry (Hns & f & Hf & Hx) Hck. cbn in *. destruct Hinv as (_ & _ & Hall). specialize (Hall m) as Hm.
  destruct (checkduplicate_cases w m y r out (ci_sorted _ _ _ Hm)) as (st0 & o0 & l' & E & Hcase).
  rewrite Hck in E. injection E as <- <- ->. unfold lost. cbn [amo_started amo_window]. rewrite entries_insert.
  destruct (decide (n = m)) as [->|Hne].
  2: { split; [|by exists f]. case_decide; [|done]. rewrite elem_of_cons. naive_solver. }
  destruct (head_trim_above r _ f x Hf Hx (ci_sorted _ _ _ Hm)) as [[El Hxr]|(f' & Hf' & Hx')].
  - destruct st'; cbn [decide].
    + destruct Hcase as (p & q & E & -> & _ & _ & _). rewrite El in E. symmetry in E. apply app_nil in E as [-> ->].
      rewrite decide_True by done. split; [rewrite elem_of_cons; intros [[= ->]|?]; [lia|done]|].
      exists (reply_t_new y). split; [done|]. cbn. lia.
    + destruct Hcase as (_ & e & He & _). rewrite El in He. by apply elem_of_nil in He.
    + destruct Hcase as (_ & e & He & _). rewrite El in He. by apply elem_of_nil in He.
    + by destruct Hcase as (_ & Hne & _).
  - destruct st'.
    + destruct Hcase as (p & q & E & -> & Hp & Hq & Hh). rewrite decide_True by done.
      specialize (Hh f' Hf'). split; [rewrite elem_of_cons; intros [[= ->]|?]; [lia|done]|].
      destruct p as [|e p]; cbn [app] in E |- *.
      * exfalso. rewrite E in Hf'. destruct q as [|e q]; [done|]. injection Hf' as ->.
        apply Forall_cons in Hq as [? _]. lia.
      * rewrite E in Hf'. injection Hf' as ->. by exists f'.
    + destruct Hcase as (-> & _). split; [done|]. by exists f'.
    + destruct Hcase as (-> & _). split; [done|]. by exists f'.
    + destruct Hcase as (-> & _). split; [done|]. by exists f'.
Qed.

(** Storing a reply moves no entry. *)
Lemma add_reply_entries w n x r w' m :
  add_reply w n x r = Ret w' → (∀ k, StronglySorted Z.lt (rt_xid <$> entries w k)) →
  rt_xid <$> entries w' m = rt_xid <$> entries w m.
Proof.
  intros H Hs. unfold add_reply in H. destruct (map_ref [] w n) as [l w1] eqn:Em.
  assert (l = entries w n) as -> by (pose proof (map_ref_fst [] w n) as E; by rewrite Em in E).
  apply rbind_Ret in H as (l' & El & [= <-]). destruct (store_reply_spec _ _ _ _ (Hs n) El) as [Ex _].
  rewrite entries_insert. destruct (decide (m = n)) as [->|Hne]; [done|].
  unfold map_ref in Em. destruct (w !! n); injection Em as _ <-; [done|]. by rewrite entries_insert, decide_False.
Qed.

Lemma head_xids (l l' : list reply_t) f :
  rt_xid <$> l' = rt_xid <$> l → head l = Some f → ∃ f', head l' = Some f' ∧ rt_xid f' = rt_xid f.
Proof. destruct l as [|e l], l' as [|e' l']; cbn; try done. intros [= ? ?] [= ->]. by exists e'. Qed.

Lemma lost_finish w st an n x m y r w' an' :
  amo_inv (Amo w st an) → add_reply w m y r = Ret w' → lost (Amo w st an) n x → lost (Amo w' st an') n x.
Proof.
  intros (_ & _ & Hall) H (Hns & f & Hf & Hx). split; [done|]. cbn in *.
  pose proof (add_reply_entries w m y r w' n H (λ k, ci_sorted _ _ _ (Hall k))) as E.
  destruct (head_xids _ _ f E Hf) as (f' & Hf' & Ex). exists f'. split; [done|lia].
Qed.

(** An unfinished request stays in the window: what is acknowledged is
    smaller. *)
Lemma window_arrive w st an n x m y r out st' out' w' :
  amo_inv (Amo w st an) → r < y → (m = n → r < x) →
  checkduplicate_and_update w m y r out = Ret (st', out', w') →
  x ∈ rt_xid <$> entries w n ∨ (st' = NEW ∧ (n, x) = (m, y)) → x ∈ rt_xid <$> entries w' n.
Proof.
  intros (_ & _ & Hall) Hry Hrx Hck Hin. specialize (Hall m) as Hm. cbn in Hm.
  destruct (checkduplicate_cases w m y r out (ci_sorted _ _ _ Hm)) as (st0 & o0 & l' & E & Hcase).
  rewrite Hck in E. injection E as <- <- ->. rewrite entries_insert.
  destruct (decide (n = m)) as [->|Hne]; [|by destruct Hin as [?|[_ [= ? ?]]]]. specialize (Hrx eq_refl).
  assert (x ∈ rt_xid <$> entries w m → x ∈ rt_xid <$> trim r (entries w m)) as Htrim.
  { intros ?. apply (trim_spec r _ (ci_sorted _ _ _ Hm)). split; [done|lia]. }
  destruct st'.
  - destruct Hcase as (p & q & E & -> & _). rewrite fmap_app, fmap_cons, elem_of_app, elem_of_cons. cbn.
    destruct Hin as [Hin|[_ [= ->]]]; [|tauto]. apply Htrim in Hin. rewrite E, fmap_app, elem_of_app in Hin. tauto.
  - destruct Hcase as (-> & _). destruct Hin as [Hin|[? _]]; [by apply Htrim|done].
  - destruct Hcase as (-> & _). destruct Hin as [Hin|[? _]]; [by apply Htrim|done].
  - destruct Hcase as (-> & _). destruct Hin as [Hin|[? _]]; [by apply Htrim|done].
Qed.

(** The answers to an unfinished request. *)
Lemma forgotten_is_lost w st an n x r out out' w' :
  amo_inv (Amo w st an) → r < x → ((n, x) ∈ st → x ∈ rt_xid <$> entries w n) →
  checkduplicate_and_update w n x r out = Ret (FORGOTTEN, out', w') → lost (Amo w' st an) n x.
Proof.
  intros (_ & _ & Hall) Hrx Hwin Hck. specialize (Hall n) as Hn. cbn in Hn.
  destruct (checkduplicate_cases w n x r out (ci_sorted _ _ _ Hn)) as (st0 & o0 & l' & E & Hcase).
  rewrite Hck in E. injection E as <- <- ->. destruct Hcase as (-> & Hne & Hlt). split; cbn.
  - intros Hst. specialize (Hwin Hst). assert (x ∈ rt_xid <$> trim r (entries w n)) as Hx.
    { apply (trim_spec r _ (ci_sorted _ _ _ Hn)). split; [done|lia]. }
    apply list_elem_of_fmap in Hx as (e & -> & He). specialize (Hlt e He). lia.
  - rewrite entries_insert, decide_True by done. destruct (trim r (entries w n)) as [|f l]; [done|].
    exists f. split; [done|]. apply Hlt. left.
Qed.

(** ** The clients *)

Abbreviation acked C n := (cl_acked (C n : client)).

Definition key (h : req_header) : Z * Z := (rq_clt_nonce h, u32 (rq_xid h)).

(** What was asked for stands in the header and in the client's record. *)
Record asked_ok (C : Z → client) (n x : Z) (h : req_header) (l : list ascii) : Prop := {
  ao_nonce : 0 < n < 2 ^ 32;
  ao_xid : rq_xid h = x;
  ao_range : 1 ≤ x < 2 ^ 31;
  ao_clt : rq_clt_nonce h = n;
  ao_wf : wf_req_header h;
  ao_fits : fits l;
  ao_sent : (x, rq_xid_rep h) ∈ cl_sent (C n) }.

(** A packet that carries a request. *)
Definition request_pdu (h : req_header) (l pdu : list ascii) : Prop :=
  ∃ sz, length sz = 4%nat ∧ pdu = (sz ++ req_header_bytes h) ++ l.

Record clients_ok (C : Z → client) (A : gmap (Z * Z) (req_header * list ascii)) (Q : list (list ascii)) : Prop := {
  co_client : ∀ n, client_inv (C n);
  co_nonce : ∀ n, rc_clt_nonce (cl_rpcc (C n)) = u32 n;
  co_srv : ∀ n, in_u32 (rc_srv_nonce (cl_rpcc (C n)));
  co_acks : ∀ n x r, (x, r) ∈ cl_sent (C n) → ∀ y, 0 ≤ y ≤ r → y ∈ acked C n;
  co_asked : ∀ n x h l, A !! (n, x) = Some (h, l) → asked_ok C n x h l;
  co_calls : ∀ n x ca, rc_calls (cl_rpcc (C n)) !! x = Some ca → is_Some (A !! (n, x));
  co_requests : ∀ pdu, pdu ∈ Q → ∃ n x h l, A !! (n, x) = Some (h, l) ∧ request_pdu h l pdu;
  co_carried : ∀ k h l, A !! k = Some (h, l) → ∃ pdu, pdu ∈ Q ∧ request_pdu h l pdu }.

(** The clients after a step of [n]. *)
Definition grows (C C' : Z → client) : Prop :=
  ∀ n, (∀ x, x ∈ acked C n → x ∈ acked C' n) ∧ (∀ p, p ∈ cl_sent (C n) → p ∈ cl_sent (C' n)).

Lemma grows_at C n c :
  (∀ x, x ∈ acked C n → x ∈ cl_acked c) → (∀ p, p ∈ cl_sent (C n) → p ∈ cl_sent c) →
  grows C (<[n := c]> C).
Proof.
  intros Ha Hs m. destruct (decide (m = n)) as [->|]; [by rewrite fn_lookup_insert|by rewrite fn_lookup_insert_ne].
Qed.

Lemma asked_ok_grows C C' n x h l : grows C C' → asked_ok C n x h l → asked_ok C' n x h l.
Proof. intros Hg []. split; try done. by apply Hg. Qed.

Lemma call1_begin_acks s proc req xid req' r c :
  client_inv s → rc_xid (cl_rpcc s) < 2 ^ 31 - 1 →
  call1_begin (cl_rpcc s) proc req = Ret (BeginOk xid req' r, c) →
  xid = rc_xid (cl_rpcc s) ∧ (∀ y, 0 ≤ y ≤ r → y ∈ cl_acked s) ∧ 0 ≤ r < xid ∧ rc_xid c = xid + 1 ∧
  rc_calls c = <[xid := Caller unmarshall_empty 0 false]> (rc_calls (cl_rpcc s)) ∧
  rc_clt_nonce c = rc_clt_nonce (cl_rpcc s) ∧ rc_srv_nonce c = rc_srv_nonce (cl_rpcc s) ∧
  rc_bind_done c = rc_bind_done (cl_rpcc s) ∧
  m_pack_req_header req (ReqHeader (s32 xid) (s32 proc) (rc_clt_nonce (cl_rpcc s)) (rc_srv_nonce (cl_rpcc s)) r) = Ret req'.
Proof.
  intros [Hw Hx Ha _ _ _] Hlt H. unfold call1_begin in H.
  destruct (_ || _); [done|]. destruct (rc_destroy_wait _); [done|].
  pose proof (xw_range _ _ Hw) as Hr. pose proof Hw as [_ _ (f & t & E & _ & Hd & _)]. rewrite E in H, Hr.
  apply Forall_cons in Hr as [Hf _]. apply rbind_Ret in H as (m & Em & [= <- <- <- <-]).
  assert (f < rc_xid (cl_rpcc s)) as Hfx by (apply Ha, Hd; lia).
  rewrite (s32_id f) in * by (wrap_unfold; lia). rewrite (s32_id (rc_xid _)) in * by (wrap_unfold; lia). cbn.
  split_and!; [done|exact Hd|lia|lia|apply u32_id; wrap_unfold; lia|done..].
Qed.

Lemma clients_begin C A Q n proc req h0 l xid req' r c b :
  clients_ok C A Q → 0 < n < 2 ^ 32 → rc_xid (cl_rpcc (C n)) < 2 ^ 31 - 1 → in_s32 proc → rep req h0 l → fits l →
  call1_begin (cl_rpcc (C n)) proc req = Ret (BeginOk xid req' r, c) → m_pdu req' = Ret b →
  A !! (n, xid) = None ∧
  clients_ok (<[n := Client c (acked C n) ((xid, r) :: cl_sent (C n))]> C)
    (<[(n, xid) := (ReqHeader (s32 xid) (s32 proc) n (rc_srv_nonce (cl_rpcc (C n))) r, l)]> A)
    (frame b (Z.of_nat (length b)) :: Q).
Proof.
  intros Hok Hn Hlt Hp Hrep Hfit Hb Em. pose proof (co_client _ _ _ Hok n) as Hc.
  destruct (call1_begin_acks _ _ _ _ _ _ _ Hc Hlt Hb) as (Ex & Hacks & Hr & Ex' & Ecalls & Ec & Es & _ & Epack).
  pose proof (cli_xid _ Hc) as Hx. rewrite (co_nonce _ _ _ Hok), (u32_id n) in Epack by (wrap_unfold; lia).
  set (h := ReqHeader (s32 xid) (s32 proc) n (rc_srv_nonce (cl_rpcc (C n))) r) in *.
  assert (A !! (n, xid) = None) as Hfresh.
  { destruct (A !! (n, xid)) as [[h1 l1]|] eqn:E; [|done]. apply (co_asked _ _ _ Hok) in E as [].
    destruct (cli_sent _ Hc _ _ ao_sent0). lia. }
  split; [done|].
  assert (request_pdu h l (frame b (Z.of_nat (length b)))) as Hpdu.
  { destruct (m_pack_req_header_rep _ _ _ h Hrep) as (m' & sz & E & Hsz & Hrep'). rewrite Epack in E. injection E as <-.
    rewrite (m_pdu_rep _ _ _ Hrep') in Em. injection Em as <-. exists (be32 (Z.of_nat (length ((sz ++ req_header_bytes h) ++ l)))).
    split; [apply length_be32|]. unfold frame. rewrite Nat2Z.id, firstn_all, <- !(assoc_L (++)). by rewrite drop_app_length'. }
  set (C' := <[n := _]> C).
  assert (grows C C') as Hg by (apply grows_at; [done|intros p; cbn; by right]).
  assert (∀ m, cl_rpcc (C' m) = if decide (m = n) then c else cl_rpcc (C m)) as EC.
  { intros m. unfold C'. destruct (decide (m = n)) as [->|]; [by rewrite fn_lookup_insert|by rewrite fn_lookup_insert_ne]. }
  split.
  - intros m. unfold C'. destruct (decide (m = n)) as [->|]; [rewrite fn_lookup_insert|rewrite fn_lookup_insert_ne by done].
    + by eapply client_begin_inv.
    + apply Hok.
  - intros m. rewrite EC. destruct (decide (m = n)) as [->|]; [rewrite Ec|]; apply Hok.
  - intros m. rewrite EC. destruct (decide (m = n)) as [->|]; [rewrite Es|]; apply Hok.
  - intros m x r' Hin y Hy. apply Hg. unfold C' in Hin.
    destruct (decide (m = n)) as [->|]; [rewrite fn_lookup_insert in Hin|rewrite fn_lookup_insert_ne in Hin by done].
    + cbn in Hin. apply elem_of_cons in Hin as [[= -> ->]|Hin]; [by apply Hacks|by eapply (co_acks _ _ _ Hok)].
    + by eapply (co_acks _ _ _ Hok).
  - intros m x h' l'. destruct (decide ((m, x) = (n, xid))) as [[= -> ->]|Hne].
    + rewrite lookup_insert_eq. intros [= <- <-].
      split; cbn; try done; [apply s32_id; wrap_unfold; lia|lia| |unfold C'; rewrite fn_lookup_insert; left].
      split_and!; cbn; try apply s32_range; [wrap_unfold; lia| |wrap_unfold; lia]. apply Hok.
    + rewrite lookup_insert_ne by done. intros E. eapply asked_ok_grows; [exact Hg|by apply Hok].
  - intros m x ca. rewrite EC. destruct (decide ((m, x) = (n, xid))) as [[= -> ->]|Hne]; [by rewrite lookup_insert_eq|].
    rewrite (lookup_insert_ne A) by done. destruct (decide (m = n)) as [->|]; [|apply Hok].
    rewrite Ecalls, lookup_insert_ne by congruence. apply Hok.
  - intros pdu [->|Hin]%elem_of_cons.
    + exists n, xid, h, l. by rewrite lookup_insert_eq.
    + destruct (co_requests _ _ _ Hok pdu Hin) as (m & x & h' & l' & E & Hp'). exists m, x, h', l'.
      split; [|done]. rewrite lookup_insert_ne; [done|]. intros [= <- <-]. congruence.
  - intros k h' l'. destruct (decide (k = (n, xid))) as [->|].
    + rewrite lookup_insert_eq. intros [= <- <-]. eexists. split; [left|exact Hpdu].
    + rewrite lookup_insert_ne by done. intros E. destruct (co_carried _ _ _ Hok k h' l' E) as (pdu & Hin & Hp').
      exists pdu. split; [by right|done].
Qed.

(** The other steps of a client send nothing. *)
Record quiet (c c' : client) : Prop := {
  qu_inv : client_inv c';
  qu_nonce : rc_clt_nonce (cl_rpcc c') = rc_clt_nonce (cl_rpcc c);
  qu_srv : in_u32 (rc_srv_nonce (cl_rpcc c'));
  qu_acked : ∀ x, x ∈ cl_acked c → x ∈ cl_acked c';
  qu_sent : cl_sent c' = cl_sent c;
  qu_calls : ∀ x, is_Some (rc_calls (cl_rpcc c') !! x) → is_Some (rc_calls (cl_rpcc c) !! x) }.

Lemma quiet_grows C n c : quiet (C n) c → grows C (<[n := c]> C).
Proof. intros [_ _ _ Ha Hs _]. apply grows_at; [done|by rewrite Hs]. Qed.

Lemma clients_quiet C A Q n c : clients_ok C A Q → quiet (C n) c → clients_ok (<[n := c]> C) A Q.
Proof.
  intros [Hc Hn Hsn Hk Has Hca Hq Hcar] Hqu. pose proof (quiet_grows _ _ _ Hqu) as Hg. destruct Hqu as [Hi Hn' Hs Ha Hsent Hcalls].
  split; try done.
  - intros m. destruct (decide (m = n)) as [->|]; [by rewrite fn_lookup_insert|by rewrite fn_lookup_insert_ne].
  - intros m. destruct (decide (m = n)) as [->|]; [rewrite fn_lookup_insert, Hn'|rewrite fn_lookup_insert_ne by done]; apply Hn.
  - intros m. destruct (decide (m = n)) as [->|]; [by rewrite fn_lookup_insert|by rewrite fn_lookup_insert_ne].
  - intros m x r Hin y Hy. apply Hg. eapply Hk; [|exact Hy].
    destruct (decide (m = n)) as [->|]; [rewrite fn_lookup_insert, Hsent in Hin|rewrite fn_lookup_insert_ne in Hin by done]; exact Hin.
  - intros m x h l E. eapply asked_ok_grows; [exact Hg|]. by apply Has.
  - intros m x ca. destruct (decide (m = n)) as [->|]; [rewrite fn_lookup_insert|rewrite fn_lookup_insert_ne by done; apply Hca].
    intros E. destruct (Hcalls x) as [ca' E']; [by eexists|]. by eapply Hca.
Qed.

Lemma got_pdu_shape c pdu sz h u ok c' :
  u_unpack_reply_header (unmarshall_buf pdu sz) = Ret (h, u) → u_ok u = true → rpcc_got_pdu c pdu sz = Ret (ok, c') →
  rc_clt_nonce c' = rc_clt_nonce c ∧ rc_srv_nonce c' = rc_srv_nonce c ∧ rc_xid c' = rc_xid c ∧ rc_bind_done c' = rc_bind_done c ∧
  ∀ x, rc_calls c' !! x = if decide (x = rp_xid h)
    then (λ ca, if ca_done ca then ca else Caller (take_in u) (rp_ret h) true) <$> rc_calls c !! x else rc_calls c !! x.
Proof.
  intros Hu Hok H. unfold rpcc_got_pdu in H. rewrite Hu in H. cbn [rbind] in H. rewrite Hok in H. cbn [negb] in H.
  apply rbind_Ret in H as (w & _ & H). cbn in H.
  destruct (rc_calls c !! rp_xid h) as [ca|] eqn:E; injection H as _ <-; cbn; split_and!; try done; intros x.
  - destruct (decide (x = rp_xid h)) as [->|]; [by rewrite lookup_insert_eq, E|by rewrite lookup_insert_ne].
  - destruct (decide (x = rp_xid h)) as [->|]; [by rewrite E|done].
Qed.

Lemma quiet_reply C A Q n pdu h u ok c :
  clients_ok C A Q → is_Some (A !! (n, rp_xid h)) →
  u_unpack_reply_header (unmarshall_buf pdu (Z.of_nat (length pdu))) = Ret (h, u) → u_ok u = true →
  rpcc_got_pdu (cl_rpcc (C n)) pdu (Z.of_nat (length pdu)) = Ret (ok, c) →
  quiet (C n) (Client c (rp_xid h :: acked C n) (cl_sent (C n))).
Proof.
  intros Hok [[h' l] Has] Hu Huok Hg. destruct (co_asked _ _ _ Hok _ _ _ _ Has) as [Hn Hx Hr Hc Hw Hf Hs].
  pose proof (co_client _ _ _ Hok n) as Hi. destruct (cli_sent _ Hi _ _ Hs) as [_ Hlt].
  destruct (got_pdu_shape _ _ _ _ _ _ _ Hu Huok Hg) as (En & Es & _ & _ & Ecalls).
  split; cbn; [|done|rewrite Es; apply Hok|by right|done|].
  - eapply client_pdu_inv; [done|done|lia|done|done].
  - intros x. rewrite Ecalls. destruct (decide _); [|done]. by rewrite fmap_is_Some.
Qed.

Lemma call1_end_shape c xid xid_rep b ret un c' ca :
  call1_end c xid xid_rep b = Ret (ret, un, c') → in_s32 xid → rc_calls c !! xid = Some ca →
  rc_clt_nonce c' = rc_clt_nonce c ∧ rc_srv_nonce c' = rc_srv_nonce c ∧ rc_xid c' = rc_xid c ∧ rc_bind_done c' = rc_bind_done c ∧
  rc_calls c' = delete xid (rc_calls c) ∧ un = ca_un ca ∧
  ret = if ca_done ca then ca_intret ca else rpc_const.timeout_failure.
Proof.
  intros H Hx E. unfold call1_end in H. rewrite (s32_id xid Hx), E in H.
  apply rbind_Ret in H as (w & _ & [= <- <- <-]). by destruct (_ && _).
Qed.

Lemma quiet_end C A Q n xid xid_rep b ca ret un c :
  clients_ok C A Q → rc_calls (cl_rpcc (C n)) !! xid = Some ca →
  call1_end (cl_rpcc (C n)) xid xid_rep b = Ret (ret, un, c) →
  1 ≤ xid < 2 ^ 31 ∧ quiet (C n) (Client c (xid :: acked C n) (cl_sent (C n))).
Proof.
  intros Hok E H. destruct (co_calls _ _ _ Hok _ _ _ E) as [[h' l] Has].
  destruct (co_asked _ _ _ Hok _ _ _ _ Has) as [Hn Hx Hr Hc Hw Hf Hs].
  pose proof (co_client _ _ _ Hok n) as Hi. destruct (cli_sent _ Hi _ _ Hs) as [_ Hlt].
  destruct (call1_end_shape _ _ _ _ _ _ _ _ H ltac:(wrap_unfold; lia) E) as (En & Es & _ & _ & Ecalls & _ & _).
  split; [done|]. split; cbn; [|done|rewrite Es; apply Hok|by right|done|].
  - eapply client_end_inv; [done|lia|done].
  - intros x. rewrite Ecalls. intros [? [_ ?]%lookup_delete_Some]. by eexists.
Qed.

Lemma quiet_bind C A Q n ret r :
  clients_ok C A Q → quiet (C n) (Client (bind_reply (cl_rpcc (C n)) ret r) (acked C n) (cl_sent (C n))).
Proof.
  intros Hok. pose proof (co_client _ _ _ Hok n) as Hi.
  split; cbn; [by apply (client_step_inv _ _ (client_bind (C n) ret r))|..]; unfold bind_reply; destruct (ret =? 0); try done; cbn.
  - apply u32_range.
  - apply Hok.
Qed.

Lemma quiet_cancel C A Q n :
  clients_ok C A Q → quiet (C n) (Client (cancel_begin (cl_rpcc (C n))) (acked C n) (cl_sent (C n))).
Proof.
  intros Hok. pose proof (co_client _ _ _ Hok n) as Hi.
  split; cbn; [by apply (client_step_inv _ _ (client_cancel (C n)))|done|apply Hok|done|done|].
  intros x. by rewrite lookup_fmap, fmap_is_Some.
Qed.

(** ** The server *)

Section server.
Context {S : Type} (fill : ascii) (procs : gmap Z (handler S)) (nonce : Z).

Definition good_nonce (h : req_header) : Prop := rq_srv_nonce h = 0 ∨ rq_srv_nonce h = nonce.

(** The handler of the procedure asked for ran on the arguments that were
    sent, and this is what it returned. *)
Definition exec_ok (A : gmap (Z * Z) (req_header * list ascii)) (e : exec S) : Prop :=
  ∃ h u (f : handler S) m hh, A !! ex_key e = Some (h, ex_args e) ∧ good_nonce h ∧ ex_proc e = rq_proc h ∧ reads u (ex_args e) ∧
    procs !! ex_proc e = Some f ∧ f u (marshall_new fill) (ex_before e) = Ret (ex_ret e, m, ex_after e) ∧
    rep m hh (ex_reply e) ∧ 0 ≤ ex_ret e < 2 ^ 31 ∧ fits (ex_reply e).

(** The executions follow one another on the object. *)
Fixpoint chain (o0 : S) (L : list (exec S)) (o : S) : Prop :=
  match L with
  | [] => o = o0
  | e :: L => ex_after e = o ∧ chain o0 L (ex_before e)
  end.

Record server_ok (C : Z → client) (A : gmap (Z * Z) (req_header * list ascii)) (M : amo)
    (J : list (req_header * unmarshall)) (o0 o : S) (L : list (exec S)) : Prop := {
  so_amo : amo_inv M;
  so_started : ∀ k, k ∈ amo_started M → ∃ h l, A !! k = Some (h, l) ∧ good_nonce h;
  so_window : ∀ n x, (n, x) ∈ amo_started M → x ∉ acked C n → x ∈ rt_xid <$> entries (amo_window M) n;
  so_jobs : ∀ h u, (h, u) ∈ J → ∃ l, A !! key h = Some (h, l) ∧ good_nonce h ∧ reads u l ∧
    is_Some (procs !! rq_proc h) ∧ key h ∈ amo_started M ∧ amo_answered M !! key h = None;
  so_running : ∀ k, k ∈ amo_started M → amo_answered M !! k = None → k ∈ (key ∘ fst) <$> J;
  so_nodup : NoDup ((key ∘ fst) <$> J);
  so_log : ∀ e, e ∈ L → exec_ok A e;
  so_once : NoDup (ex_key <$> L);
  so_replied : ∀ e, e ∈ L → ∃ r, amo_answered M !! ex_key e = Some r ∧
    reply_pdu (ex_xid e) (ex_ret e) (ex_reply e) (packet_of r);
  so_answered : ∀ k, is_Some (amo_answered M !! k) → k ∈ ex_key <$> L;
  so_chain : chain o0 L o }.

(** The server does not notice what the clients do. *)
Lemma server_grows C C' A A' M J o0 o L :
  server_ok C A M J o0 o L → grows C C' → (∀ k v, A !! k = Some v → A' !! k = Some v) →
  server_ok C' A' M J o0 o L.
Proof.
  intros [] Hg HA. split; try done.
  - intros k Hk. destruct (so_started0 k Hk) as (h & l & E & ?). exists h, l. split; [by apply HA|done].
  - intros n x Hst Hna. apply so_window0; [done|]. intros Ha. by apply Hna, Hg.
  - intros h u Hin. destruct (so_jobs0 h u Hin) as (l & E & Hrest). exists l. split; [by apply HA|exact Hrest].
  - intros e He. destruct (so_log0 e He) as (h & u & f & m & hh & E & Hrest). exists h, u, f, m, hh.
    split; [by apply HA|exact Hrest].
Qed.

(** What a packet on its way to the server says. *)
Lemma request_unpacked C A Q pdu h u :
  clients_ok C A Q → pdu ∈ Q → u_unpack_req_header (unmarshall_buf pdu (Z.of_nat (length pdu))) = Ret (h, u) →
  ∃ l, A !! key h = Some (h, l) ∧ reads u l ∧ asked_ok C (rq_clt_nonce h) (rq_xid h) h l ∧
    u32 (rq_xid h) = rq_xid h ∧ u32 (rq_xid_rep h) = rq_xid_rep h ∧ 0 ≤ rq_xid_rep h < rq_xid h ∧
    (∀ y, 0 ≤ y ≤ rq_xid_rep h → y ∈ acked C (rq_clt_nonce h)).
Proof.
  intros Hok Hin Hu. destruct (co_requests _ _ _ Hok pdu Hin) as (n & x & h' & l & Has & sz & Hsz & ->).
  pose proof (co_asked _ _ _ Hok _ _ _ _ Has) as Hao. pose proof Hao as [Hn Hx Hr Hc Hw Hf Hs].
  destruct (u_unpack_req_header_reads sz h' l Hsz Hw) as (u' & E & Hread).
  { unfold fits in Hf. pose proof hdr_sz. unfold req_header_bytes. rewrite !length_app, !length_be32. lia. }
  cbv zeta in E. rewrite Hu in E. injection E as -> ->.
  destruct (cli_sent _ (co_client _ _ _ Hok n) _ _ Hs) as [Hrep _].
  exists l. unfold key. rewrite Hc, Hx, !u32_id by (wrap_unfold; lia). rewrite <- Hc in *.
  split_and!; [done|done|done|done|done|lia|lia|]. by apply (co_acks _ _ _ Hok _ x).
Qed.

Lemma server_arrive C A Q w st an J o0 o L pdu h u f st' out w' :
  clients_ok C A Q → server_ok C A (Amo w st an) J o0 o L → pdu ∈ Q →
  u_unpack_req_header (unmarshall_buf pdu (Z.of_nat (length pdu))) = Ret (h, u) →
  good_nonce h → procs !! rq_proc h = Some f →
  checkduplicate_and_update w (rq_clt_nonce h) (u32 (rq_xid h)) (u32 (rq_xid_rep h)) (None, 0) = Ret (st', out, w') →
  server_ok C A (Amo w' (if decide (st' = NEW) then key h :: st else st) an)
    (if decide (st' = NEW) then (h, u) :: J else J) o0 o L.
Proof.
  intros Hok [] Hin Hu Hgood Hf Hck.
  destruct (request_unpacked _ _ _ _ _ _ Hok Hin Hu) as (l & Has & Hread & Hao & Ex & Er & Hr & Hacks).
  pose proof (amo_arrive_inv _ _ _ _ _ _ _ _ so_amo0 (ltac:(lia) : u32 (rq_xid_rep h) < u32 (rq_xid h)) Hck) as Hinv.
  cbn in Hinv. fold (key h) in Hinv.
  assert (st' = NEW → (key h ∉ st) ∧ an !! key h = None) as Hnew.
  { intros ->. destruct Hinv as (Hnd & _). rewrite decide_True in Hnd by done. apply NoDup_cons in Hnd as [Hn _].
    split; [done|]. apply eq_None_not_Some. intros Hs. by apply Hn, so_amo0. }
  cbn in *. split; cbn; try done.
  - intros k Hk. case_decide; [apply elem_of_cons in Hk as [->|Hk]; [by eauto|]|]; by apply so_started0.
  - intros n x Hst Hna. refine (window_arrive w st an n x _ _ _ _ st' out w' so_amo0 _ _ Hck _); [lia| |].
    + intros <-. destruct (decide (u32 (rq_xid_rep h) < x)) as [|Hge]; [done|]. exfalso. apply Hna, Hacks.
      destruct (so_started0 (rq_clt_nonce h, x)) as (h' & l' & E & _).
      { case_decide; [apply elem_of_cons in Hst as [[= Eq]|?]; [lia|done]|done]. }
      apply (co_asked _ _ _ Hok) in E as []. lia.
    + case_decide; [apply elem_of_cons in Hst as [[= -> ->]|Hst]; [by right|]|]; left; by apply so_window0.
  - intros h' u' Hj.
    assert ((h', u') ∈ J ∨ (st' = NEW ∧ h' = h ∧ u' = u)) as [Hj'|(-> & -> & ->)].
    { case_decide; [apply elem_of_cons in Hj as [[= -> ->]|?]; [by right|by left]|by left]. }
    + destruct (so_jobs0 h' u' Hj') as (l' & E & Hg' & Hr' & Hp' & Hst' & Ha'). exists l'.
      split_and!; try done. case_decide; [by right|done].
    + exists l. rewrite decide_True by done. split_and!; [done|done|done|by eexists|left|by apply Hnew].
  - intros k Hk Ha. case_decide; [rewrite fmap_cons; apply elem_of_cons in Hk as [->|Hk]; [left|right]|]; by apply so_running0.
  - case_decide; [|done]. rewrite fmap_cons. apply NoDup_cons. split; [|done]. cbn.
    intros ([h' u'] & E & Hj)%list_elem_of_fmap. cbn in E. destruct (so_jobs0 h' u' Hj) as (_ & _ & _ & _ & _ & Hst & _).
    rewrite <- E in Hst. by apply Hnew.
Qed.

Lemma reply_packet_pdu m hh cc xid ret m' :
  rep m hh cc → m_pack_reply_header m (ReplyHeader xid ret) = Ret m' → reply_pdu xid ret cc (packet_of (m_take_buf m').1).
Proof.
  intros Hr E. destruct (m_pack_reply_header_rep m hh cc (ReplyHeader xid ret) Hr) as (m2 & sz & tl & E2 & Hsz & Hr2).
  rewrite E in E2. injection E2 as <-. destruct Hr2 as [rest fl s0 capa Hh ->]. cbn [m_take_buf fst packet_of m_buf m_ind].
  exists (be32 s0), tl. split; [apply length_be32|]. split.
  - unfold frame. rewrite (assoc_L (++)). replace (Z.to_nat s0) with (length ((sz ++ reply_header_bytes (ReplyHeader xid ret) ++ tl) ++ cc)).
    2: { unfold s0. rewrite length_app. lia. }
    rewrite take_app_length, <- !(assoc_L (++)). by rewrite drop_app_length'.
  - rewrite length_app in Hh |- *. by rewrite length_be32, <- Hsz.
Qed.

Lemma server_finish C A w st an J J' o0 o L h u f ret m o' hh cc m' w' :
  server_ok C A (Amo w st an) J o0 o L → J ≡ₚ (h, u) :: J' → procs !! rq_proc h = Some f →
  f u (marshall_new fill) o = Ret (ret, m, o') → 0 ≤ ret < 2 ^ 31 → rep m hh cc → fits cc →
  m_pack_reply_header m (ReplyHeader (rq_xid h) ret) = Ret m' → u32 (rq_xid h) = rq_xid h →
  add_reply w (rq_clt_nonce h) (u32 (rq_xid h)) (m_take_buf m').1 = Ret w' →
  server_ok C A (Amo w' st (<[key h := (m_take_buf m').1]> an)) J' o0 o'
    (Exec (rq_clt_nonce h) (u32 (rq_xid h)) (rq_proc h) (drop (Z.to_nat (u_ind u)) (u_buf u)) o ret cc o' :: L).
Proof.
  intros [] HJ Hf Hrun Hret Hrep Hfit Em Ex Hadd.
  destruct (so_jobs0 h u) as (l & Has & Hgood & Hread & _ & Hst & Hna); [rewrite HJ; left|]. cbn in *.
  assert (drop (Z.to_nat (u_ind u)) (u_buf u) = l) as El.
  { destruct Hread as [p _ ->]. cbn. by rewrite Nat2Z.id, drop_app_length. }
  assert (NoDup ((key ∘ fst) <$> (h, u) :: J')) as Hnd by (by rewrite <- HJ).
  rewrite fmap_cons in Hnd. apply NoDup_cons in Hnd as [Hfresh Hnd]. cbn in Hfresh.
  pose proof (amo_finish_inv (Amo w st an) _ _ _ _ so_amo0 Hst Hna Hadd) as Hinv. cbn in Hinv. fold (key h) in Hinv.
  set (e := Exec _ _ _ _ _ _ _ _). assert (ex_key e = key h) as Ek by done.
  assert (∀ e', e' ∈ L → ex_key e' ≠ key h) as Hother.
  { intros e' He' E. destruct (so_replied0 e' He') as (r & Hr & _). rewrite E in Hr. congruence. }
  split; cbn [amo_started amo_window amo_answered]; try done.
  - intros n x Hs Hk. rewrite (add_reply_entries w _ _ _ w' n Hadd); [by apply so_window0|].
    intros k. apply (ci_sorted (Amo w st an) k), so_amo0.
  - intros h' u' Hj. destruct (so_jobs0 h' u') as (l' & E & Hg' & Hr' & Hp' & Hst' & Ha'); [rewrite HJ; by right|].
    exists l'. split_and!; try done. rewrite lookup_insert_ne; [done|]. intros E'. apply Hfresh.
    apply list_elem_of_fmap. by exists (h', u').
  - intros k Hk Ha. destruct (decide (k = key h)) as [->|Hne]; [by rewrite lookup_insert_eq in Ha|].
    rewrite lookup_insert_ne in Ha by done. specialize (so_running0 k Hk Ha). rewrite HJ, fmap_cons in so_running0.
    by apply elem_of_cons in so_running0 as [->|].
  - intros e' [->|He']%elem_of_cons; [|by apply so_log0]. exists h, u, f, m, hh. rewrite Ek. cbn. rewrite El. done.
  - rewrite fmap_cons. apply NoDup_cons. split; [|done]. intros (e' & E & He')%list_elem_of_fmap.
    by apply (Hother e' He').
  - intros e' [->|He']%elem_of_cons.
    + eexists. rewrite Ek, lookup_insert_eq. split; [done|]. cbn. rewrite Ex. by eapply reply_packet_pdu.
    + destruct (so_replied0 e' He') as (r & Hr & Hp). exists r. split; [|done]. rewrite lookup_insert_ne; [done|].
      intros E. by apply (Hother e' He').
  - intros k Hk. rewrite fmap_cons, elem_of_cons, Ek. destruct (decide (k = key h)) as [->|Hne]; [by left|right].
    rewrite lookup_insert_ne in Hk by done. by apply so_answered0.
Qed.
End server.

(** ** What the callers learn *)

Section link.
Context {S : Type} (fill : ascii) (procs : gmap Z (handler S)) (nonce : Z).

(** A reply to the request [x] of client [n]: the outcome of an execution of
    that request, or a failure of one that was and will not be executed. *)
Definition verdict (A : gmap (Z * Z) (req_header * list ascii)) (M : amo) (L : list (exec S))
    (n x ret : Z) (cc : list ascii) : Prop :=
  (∃ e, e ∈ L ∧ ex_key e = (n, x) ∧ ex_ret e = ret ∧ ex_reply e = cc) ∨
  (ret = rpc_const.oldsrv_failure ∧ ∃ h l, A !! (n, x) = Some (h, l) ∧ ¬ good_nonce nonce h) ∨
  (ret = rpc_const.atmostonce_failure ∧ lost M n x).

(** A late failure may also reach a call that is over. *)
Definition reply_ok (C : Z → client) A M (L : list (exec S)) (n : Z) (pdu : list ascii) : Prop :=
  ∃ x ret cc, reply_pdu x ret cc pdu ∧ fits cc ∧ in_s32 ret ∧ is_Some (A !! (n, x)) ∧
    (verdict A M L n x ret cc ∨ (ret = rpc_const.atmostonce_failure ∧ x ∈ acked C n)).

Definition caller_ok A M (L : list (exec S)) (n x : Z) (ca : caller) : Prop :=
  ca_done ca = true → ca_intret ca = rpc_const.cancel_failure ∨
    ∃ cc, reads (ca_un ca) cc ∧ verdict A M L n x (ca_intret ca) cc.

Definition returned_ok A M (L : list (exec S)) (d : returned) : Prop :=
  is_Some (A !! (rd_client d, rd_xid d)) ∧
  (rd_ret d = rpc_const.timeout_failure ∨ rd_ret d = rpc_const.cancel_failure ∨
    ∃ cc, reads (rd_un d) cc ∧ verdict A M L (rd_client d) (rd_xid d) (rd_ret d) cc).

Record link_ok (C : Z → client) A M (L : list (exec S)) (R : list (Z * list ascii)) (D : list returned) : Prop := {
  lk_replies : ∀ n pdu, (n, pdu) ∈ R → reply_ok C A M L n pdu;
  lk_done : ∀ n x ca, rc_calls (cl_rpcc (C n)) !! x = Some ca → caller_ok A M L n x ca;
  lk_returned : ∀ d, d ∈ D → returned_ok A M L d }.

Section mono.
Context (A A' : gmap (Z * Z) (req_header * list ascii)) (M M' : amo) (L L' : list (exec S)).
Context (HA : ∀ k v, A !! k = Some v → A' !! k = Some v) (HM : ∀ n x, lost M n x → lost M' n x).
Context (HL : ∀ e, e ∈ L → e ∈ L').

Lemma verdict_mono n x ret cc : verdict A M L n x ret cc → verdict A' M' L' n x ret cc.
Proof.
  intros [(e & He & Hrest)|[[? (h & l & E & ?)]|[? ?]]].
  - left. exists e. split; [by apply HL|done].
  - right. left. split; [done|]. exists h, l. split; [by apply HA|done].
  - right. right. split; [done|by apply HM].
Qed.

Lemma asked_mono k : is_Some (A !! k) → is_Some (A' !! k).
Proof. intros [v E]. exists v. by apply HA. Qed.

Lemma caller_mono n x ca : caller_ok A M L n x ca → caller_ok A' M' L' n x ca.
Proof. intros H Hd. destruct (H Hd) as [?|(cc & ? & ?)]; [by left|right]. exists cc. split; [done|by apply verdict_mono]. Qed.

Lemma returned_mono d : returned_ok A M L d → returned_ok A' M' L' d.
Proof.
  intros [Ha H]. split; [by apply asked_mono|]. destruct H as [?|[?|(cc & ? & ?)]]; [by left|by right; left|].
  right. right. exists cc. split; [done|by apply verdict_mono].
Qed.

Lemma reply_mono C C' n pdu : grows C C' → reply_ok C A M L n pdu → reply_ok C' A' M' L' n pdu.
Proof.
  intros Hg (x & ret & cc & Hp & Hf & Hr & Ha & Hv). exists x, ret, cc. split_and!; [done..|by apply asked_mono|].
  destruct Hv as [Hv|[? ?]]; [left; by apply verdict_mono|right]. split; [done|by apply Hg].
Qed.

(** A step of the server sends [R']. *)
Lemma link_server C R R' D :
  link_ok C A M L R D → (∀ n pdu, (n, pdu) ∈ R' → reply_ok C A' M' L' n pdu) → link_ok C A' M' L' (R' ++ R) D.
Proof.
  intros [Hr Hd Hn] Hnew. split.
  - intros n pdu [Hin|Hin]%elem_of_app; [by apply Hnew|]. eapply reply_mono; [done|by apply Hr].
  - intros n x ca E. eapply caller_mono, Hd, E.
  - intros d Hin. by apply returned_mono, Hn.
Qed.

(** A step of the client [n]. *)
Lemma link_client C R D D' n c :
  link_ok C A M L R D → grows C (<[n := c]> C) →
  (∀ x ca, rc_calls (cl_rpcc c) !! x = Some ca → caller_ok A' M' L' n x ca) →
  (∀ d, d ∈ D' → returned_ok A' M' L' d) → link_ok (<[n := c]> C) A' M' L' R (D' ++ D).
Proof.
  intros [Hr Hd Hn] Hg Hc Hret. split.
  - intros m pdu Hin. eapply reply_mono; [done|by apply Hr].
  - intros m x ca. destruct (decide (m = n)) as [->|]; [rewrite fn_lookup_insert; apply Hc|].
    rewrite fn_lookup_insert_ne by done. intros E. eapply caller_mono, Hd, E.
  - intros d [Hin|Hin]%elem_of_app; [by apply Hret|]. by apply returned_mono, Hn.
Qed.
End mono.

Lemma error_reply_pdu xid ret r :
  error_reply fill xid ret = Ret r → reply_pdu xid ret [] (packet_of r).
Proof.
  unfold error_reply. intros (m & E & [= <-])%rbind_Ret. eapply reply_packet_pdu; [|exact E]. apply marshall_new_rep.
Qed.

(** What a client reads in a reply. *)
Lemma reply_unpacked x ret cc pdu h u :
  reply_pdu x ret cc pdu → fits cc → in_s32 ret → in_s32 x →
  u_unpack_reply_header (unmarshall_buf pdu (Z.of_nat (length pdu))) = Ret (h, u) →
  h = ReplyHeader x ret ∧ u_ok u = true ∧ reads (take_in u) cc.
Proof.
  intros (sz & tl & Hsz & -> & Hlen) Hf Hr Hx Hu.
  destruct (u_unpack_reply_header_reads sz (ReplyHeader x ret) tl cc Hsz Hlen) as (u' & E & Hread).
  { by split. }
  { unfold fits in Hf. pose proof hdr_sz. rewrite length_app. lia. }
  cbv zeta in E. rewrite Hu in E. injection E as -> ->. split_and!; [done|by eapply reads_ok|].
  apply take_in_at_header; [done|]. by eapply u_unpack_reply_header_ind.
Qed.

(** The answer [dispatch] gives at once. *)
Lemma answer_ok C A Q w st an J o0 o L pdu h u f st' out w' ans :
  clients_ok C A Q → server_ok fill procs nonce C A (Amo w st an) J o0 o L → pdu ∈ Q →
  u_unpack_req_header (unmarshall_buf pdu (Z.of_nat (length pdu))) = Ret (h, u) →
  good_nonce nonce h → procs !! rq_proc h = Some f →
  checkduplicate_and_update w (rq_clt_nonce h) (u32 (rq_xid h)) (u32 (rq_xid_rep h)) (None, 0) = Ret (st', out, w') →
  answer_at_once fill h st' out = Ret ans →
  ∀ n p, (n, p) ∈ ans → reply_ok C A (Amo w' (if decide (st' = NEW) then key h :: st else st) an) L n p.
Proof.
  intros Hok Hsrv Hin Hu Hgood Hf Hck Hans n p Hp.
  destruct (request_unpacked _ _ _ _ _ _ Hok Hin Hu) as (l & Has & Hread & Hao & Ex & Er & Hr & Hacks).
  destruct (checkduplicate_correct (Amo w st an) (rq_clt_nonce h) (u32 (rq_xid h)) (u32 (rq_xid_rep h)) (None, 0)
    (so_amo _ _ _ _ _ _ _ _ _ _ Hsrv)) as (st0 & out0 & w0 & E & _ & _ & Hdone & _); [lia|].
  cbn [amo_window amo_started amo_answered] in E, Hdone. rewrite Hck in E. injection E as <- <- <-.
  destruct st'; cbn [answer_at_once] in Hans.
  - injection Hans as <-. by apply elem_of_nil in Hp.
  - injection Hans as <-. by apply elem_of_nil in Hp.
  - injection Hans as <-. apply list_elem_of_singleton in Hp as [= -> ->]. specialize (Hdone eq_refl).
    destruct (list_elem_of_fmap ex_key L (key h)) as [Hl _].
    destruct Hl as (e & Ek & He). { apply (so_answered _ _ _ _ _ _ _ _ _ _ Hsrv). by exists out. }
    destruct (so_replied _ _ _ _ _ _ _ _ _ _ Hsrv e He) as (r & Hr' & Hpdu). cbn in Hr'.
    rewrite <- Ek in Hr'. unfold key in Hr'. rewrite Hdone in Hr'. injection Hr' as <-.
    destruct (so_log _ _ _ _ _ _ _ _ _ _ Hsrv e He) as (h' & u' & f' & m & hh & _ & _ & _ & _ & _ & _ & _ & Hret & Hfit).
    injection Ek as E1 E2. exists (ex_xid e), (ex_ret e), (ex_reply e).
    split_and!; [done|done|wrap_unfold; lia|rewrite <- E2, Ex; unfold key in Has; rewrite Ex in Has; by eexists|].
    left. left. exists e. split_and!; [done|by rewrite E1|done|done].
  - apply rbind_Ret in Hans as (r & E & [= <-]). apply list_elem_of_singleton in Hp as [= -> ->].
    unfold key in Has. rewrite Ex in Has. exists (rq_xid h), rpc_const.atmostonce_failure, [].
    split_and!; [by apply error_reply_pdu|done|done|by eexists|].
    destruct (decide (rq_xid h ∈ acked C (rq_clt_nonce h))) as [Ha|Hna]; [by right|left]. right. right. split; [done|].
    rewrite Ex, Er in Hck. refine (forgotten_is_lost w st an _ _ _ _ _ w' (so_amo _ _ _ _ _ _ _ _ _ _ Hsrv) _ _ Hck); [lia|].
    intros Hst. by apply (so_window _ _ _ _ _ _ _ _ _ _ Hsrv).
Qed.
End link.

(** ** The invariant *)

Section invariant.
Context {S : Type} (fill : ascii) (procs : gmap Z (handler S)) (nonce : Z) (patient : bool).

Record sys_inv (o0 : S) (s : rpc_system S) : Prop := {
  sy_clients : clients_ok (ss_client s) (ss_asked s) (ss_requests s);
  sy_server : server_ok fill procs nonce (ss_client s) (ss_asked s) (ss_amo s) (ss_jobs s) o0 (ss_obj s) (ss_log s);
  sy_link : link_ok nonce (ss_client s) (ss_asked s) (ss_amo s) (ss_log s) (ss_replies s) (ss_returned s) }.

(** The steps of a client that send nothing. *)
Lemma sys_quiet o0 C A Q M J o L R D D' n c :
  sys_inv o0 (RpcSystem C A Q M J o L R D) → quiet (C n) c →
  (∀ x ca, rc_calls (cl_rpcc c) !! x = Some ca → caller_ok nonce A M L n x ca) →
  (∀ d, d ∈ D' → returned_ok nonce A M L d) →
  sys_inv o0 (RpcSystem (<[n := c]> C) A Q M J o L R (D' ++ D)).
Proof.
  intros [Hc Hs Hl] Hq Hca Hd. cbn in *. pose proof (quiet_grows _ _ _ Hq) as Hg. split; cbn.
  - by apply clients_quiet.
  - by eapply server_grows.
  - by eapply link_client.
Qed.

Lemma sys_begin_inv o0 C A Q M J o L R D n proc req h0 l xid req' xid_rep c b :
  sys_inv o0 (RpcSystem C A Q M J o L R D) →
  0 < n < 2 ^ 32 → rc_xid (cl_rpcc (C n)) < 2 ^ 31 - 1 → in_s32 proc → rep req h0 l → fits l →
  call1_begin (cl_rpcc (C n)) proc req = Ret (BeginOk xid req' xid_rep, c) → m_pdu req' = Ret b →
  sys_inv o0 (RpcSystem (<[n := Client c (acked C n) ((xid, xid_rep) :: cl_sent (C n))]> C)
    (<[(n, xid) := (ReqHeader (s32 xid) (s32 proc) n (rc_srv_nonce (cl_rpcc (C n))) xid_rep, l)]> A)
    (frame b (Z.of_nat (length b)) :: Q) M J o L R D).
Proof.
  intros [Hc Hs Hl] Hn Hlt Hp Hrep Hfit Hb Em. cbn in *.
  destruct (clients_begin _ _ _ _ _ _ _ _ _ _ _ _ _ Hc Hn Hlt Hp Hrep Hfit Hb Em) as [Hfresh Hc'].
  destruct (call1_begin_acks _ _ _ _ _ _ _ (co_client _ _ _ Hc n) Hlt Hb) as (Ex & _ & _ & _ & Ecalls & _).
  set (h := ReqHeader _ _ _ _ _) in *.
  assert (∀ k v, A !! k = Some v → <[(n, xid) := (h, l)]> A !! k = Some v) as HA.
  { intros k v E. rewrite lookup_insert_ne; [done|]. intros <-. congruence. }
  assert (grows C (<[n := Client c (acked C n) ((xid, xid_rep) :: cl_sent (C n))]> C)) as Hg.
  { apply grows_at; [done|intros p; cbn; by right]. }
  split; cbn; [done|by eapply server_grows|].
  apply (link_client nonce A _ M M L L HA ltac:(done) ltac:(done) C R D [] n _ Hl Hg); [|by intros d ?%elem_of_nil].
  cbn. rewrite Ecalls. intros x ca. destruct (decide (x = xid)) as [->|Hne].
  - rewrite lookup_insert_eq. by intros [= <-].
  - rewrite lookup_insert_ne by done. intros E. eapply caller_mono; [exact HA|done|done|]. by eapply (lk_done _ _ _ _ _ _ _ Hl).
Qed.

Lemma sys_reply_inv o0 C A Q M J o L R D n pdu h u ok c :
  sys_inv o0 (RpcSystem C A Q M J o L R D) → (n, pdu) ∈ R →
  u_unpack_reply_header (unmarshall_buf pdu (Z.of_nat (length pdu))) = Ret (h, u) →
  rpcc_got_pdu (cl_rpcc (C n)) pdu (Z.of_nat (length pdu)) = Ret (ok, c) →
  sys_inv o0 (RpcSystem (<[n := Client c (rp_xid h :: acked C n) (cl_sent (C n))]> C) A Q M J o L R D).
Proof.
  intros Hinv Hin Hu Hg. pose proof Hinv as [Hc Hs Hl]. cbn in *.
  destruct (lk_replies _ _ _ _ _ _ _ Hl n pdu Hin) as (x & ret & cc & Hp & Hf & Hr & Ha & Hv).
  pose proof Ha as [[h' l] Has]. pose proof (ao_range _ _ _ _ _ (co_asked _ _ _ Hc _ _ _ _ Has)) as Hx.
  destruct (reply_unpacked x ret cc pdu h u Hp Hf Hr ltac:(wrap_unfold; lia) Hu) as (-> & Huok & Hread). cbn [rp_xid].
  destruct (got_pdu_shape _ _ _ _ _ _ _ Hu Huok Hg) as (_ & _ & _ & _ & Ecalls). cbn [rp_xid rp_ret] in Ecalls.
  apply (sys_quiet o0 C A Q M J o L R D []); [done|by eapply (quiet_reply C A Q n pdu (ReplyHeader x ret))| |by intros d ?%elem_of_nil].
  cbn. intros y ca. rewrite Ecalls. destruct (decide (y = x)) as [->|]; [|by apply (lk_done _ _ _ _ _ _ _ Hl)].
  destruct (rc_calls (cl_rpcc (C n)) !! x) as [ca0|] eqn:E0; [|done]. cbn. intros [= <-].
  destruct (ca_done ca0) eqn:Ed; [by apply (lk_done _ _ _ _ _ _ _ Hl)|]. intros _. cbn. right. exists cc. split; [done|].
  destruct Hv as [Hv|[_ Hack]]; [done|]. pose proof (cli_calls _ (co_client _ _ _ Hc n) _ _ E0 Hack). congruence.
Qed.

Lemma sys_end_inv o0 C A Q M J o L R D n xid xid_rep b ca ret un c :
  sys_inv o0 (RpcSystem C A Q M J o L R D) → rc_calls (cl_rpcc (C n)) !! xid = Some ca →
  call1_end (cl_rpcc (C n)) xid xid_rep b = Ret (ret, un, c) →
  sys_inv o0 (RpcSystem (<[n := Client c (xid :: acked C n) (cl_sent (C n))]> C) A Q M J o L R (Returned n xid ret un :: D)).
Proof.
  intros Hinv E H. pose proof Hinv as [Hc Hs Hl]. cbn in *.
  destruct (quiet_end _ _ _ _ _ _ _ _ _ _ _ Hc E H) as [Hx Hq].
  destruct (call1_end_shape _ _ _ _ _ _ _ _ H ltac:(wrap_unfold; lia) E) as (_ & _ & _ & _ & Ecalls & -> & Eret).
  apply (sys_quiet o0 C A Q M J o L R D [_]); [done|done| |].
  - cbn. intros y ca'. rewrite Ecalls. intros [_ Ey]%lookup_delete_Some. by apply (lk_done _ _ _ _ _ _ _ Hl).
  - intros d ->%list_elem_of_singleton. split; [by apply (co_calls _ _ _ Hc _ _ _ E)|]. cbn. rewrite Eret.
    destruct (ca_done ca) eqn:Ed; [|by left]. right. by apply (lk_done _ _ _ _ _ _ _ Hl).
Qed.

Lemma sys_arrive_inv o0 C A Q w st an J o L R D pdu h u f st' out w' ans :
  sys_inv o0 (RpcSystem C A Q (Amo w st an) J o L R D) → pdu ∈ Q →
  u_unpack_req_header (unmarshall_buf pdu (Z.of_nat (length pdu))) = Ret (h, u) →
  good_nonce nonce h → procs !! rq_proc h = Some f →
  checkduplicate_and_update w (rq_clt_nonce h) (u32 (rq_xid h)) (u32 (rq_xid_rep h)) (None, 0) = Ret (st', out, w') →
  answer_at_once fill h st' out = Ret ans →
  sys_inv o0 (RpcSystem C A Q (Amo w' (if decide (st' = NEW) then key h :: st else st) an)
    (if decide (st' = NEW) then (h, u) :: J else J) o L (ans ++ R) D).
Proof.
  intros [Hc Hs Hl] Hin Hu Hgood Hf Hck Hans. cbn in *. split; cbn; [done|by eapply server_arrive|].
  destruct (request_unpacked _ _ _ _ _ _ Hc Hin Hu) as (l & _ & _ & _ & Ex & Er & Hr & _).
  eapply (link_server nonce A A (Amo w st an) _ L L); [done| |done|done|by eapply answer_ok].
  intros n x Hlost. eapply lost_arrive; [apply Hs| |done|exact Hck]. lia.
Qed.

Lemma sys_finish_inv o0 C A Q w st an J J' o L R D h u f ret m o' hh cc m' w' :
  sys_inv o0 (RpcSystem C A Q (Amo w st an) J o L R D) → J ≡ₚ (h, u) :: J' → procs !! rq_proc h = Some f →
  f u (marshall_new fill) o = Ret (ret, m, o') → 0 ≤ ret < 2 ^ 31 → rep m hh cc → fits cc →
  m_pack_reply_header m (ReplyHeader (rq_xid h) ret) = Ret m' →
  add_reply w (rq_clt_nonce h) (u32 (rq_xid h)) (m_take_buf m').1 = Ret w' →
  sys_inv o0 (RpcSystem C A Q (Amo w' st (<[key h := (m_take_buf m').1]> an)) J' o'
    (Exec (rq_clt_nonce h) (u32 (rq_xid h)) (rq_proc h) (drop (Z.to_nat (u_ind u)) (u_buf u)) o ret cc o' :: L)
    ((rq_clt_nonce h, packet_of (m_take_buf m').1) :: R) D).
Proof.
  intros [Hc Hs Hl] HJ Hf Hrun Hret Hrep Hfit Em Hadd. cbn in *.
  destruct (so_jobs _ _ _ _ _ _ _ _ _ _ Hs h u) as (l & Has & _); [rewrite HJ; left|].
  pose proof (ao_xid _ _ _ _ _ (co_asked _ _ _ Hc _ _ _ _ Has)) as Ex.
  split; cbn; [done|by eapply server_finish|].
  eapply (link_server nonce A A (Amo w st an) _ L _ ltac:(done) _ _ C R [_]); [done|].
  intros n p Hin. apply list_elem_of_singleton in Hin as [= -> ->].
  exists (rq_xid h), ret, cc. unfold key in Has. rewrite <- Ex in Has.
  split_and!; [by eapply reply_packet_pdu|done|wrap_unfold; lia|by eexists|]. left. left. eexists. split; [left|].
  cbn. by rewrite <- Ex.
  Unshelve.
  - intros n x Hlost. eapply lost_finish; [apply Hs|exact Hadd|done].
  - intros e He. by right.
Qed.

Lemma rpc_step_inv o0 s s' : rpc_step fill procs nonce patient s s' → sys_inv o0 s → sys_inv o0 s'.
Proof.
  intros Hstep Hinv. pose proof Hinv as [Hc Hs Hl]. destruct Hstep; cbn in *.
  - by eapply sys_begin_inv.
  - split; cbn; [done|done|]. destruct (request_unpacked _ _ _ _ _ _ Hc ltac:(done) ltac:(done)) as (l & Has & _ & Hao & Ex & _).
    unfold key in Has. rewrite Ex in Has.
    apply (link_server nonce A A M M L L ltac:(done) ltac:(done) ltac:(done) C R [_]); [done|].
    intros n p Hin. apply list_elem_of_singleton in Hin as [= -> ->]. exists (rq_xid h), rpc_const.oldsrv_failure, [].
    split_and!; [by eapply error_reply_pdu|done|done|by eexists|]. left. right. left. split; [done|]. exists h, l.
    split; [done|]. by intros [?|?].
  - by eapply sys_arrive_inv.
  - by eapply sys_finish_inv.
  - by eapply sys_reply_inv.
  - by eapply sys_end_inv.
  - apply (sys_quiet o0 C A Q M J o L R D []); [done|by eapply quiet_bind| |by intros d ?%elem_of_nil].
    cbn. intros x ca E. apply (lk_done _ _ _ _ _ _ _ Hl n). revert E. unfold bind_reply. by destruct (ret =? 0).
  - apply (sys_quiet o0 C A Q M J o L R D []); [done|by eapply quiet_cancel| |by intros d ?%elem_of_nil].
    cbn. intros x ca. rewrite lookup_fmap_Some. intros (ca' & <- & _) _. by left.
Qed.

Lemma rpc_init_inv lossy o0 : sys_inv o0 (rpc_init lossy o0).
Proof.
  split; cbn.
  - split; cbn; try done.
    + intros n. apply (client_reachable_inv n lossy true), rtc_refl.
    + by intros n x r ?%elem_of_nil.
    + by intros pdu ?%elem_of_nil.
  - split; cbn; [apply amo_reachable_inv, rtc_refl|by intros k ?%elem_of_nil|by intros n x ?%elem_of_nil
      |by intros h u ?%elem_of_nil|by intros k ?%elem_of_nil|constructor|by intros e ?%elem_of_nil|constructor
      |by intros e ?%elem_of_nil|by intros k [? ?]|done].
  - split; cbn; [by intros n pdu ?%elem_of_nil|done|by intros d ?%elem_of_nil].
Qed.

Lemma rpc_reachable_inv lossy o0 s : rtc (rpc_step fill procs nonce patient) (rpc_init lossy o0) s → sys_inv o0 s.
Proof.
  apply (rtc_ind_r (sys_inv o0)); [apply rpc_init_inv|]. intros y z _. apply rpc_step_inv.
Qed.
End invariant.

(** ** What a call returns *)

Lemma log_started {S} fill procs nonce C A M J (o0 o : S) L e :
  server_ok fill procs nonce C A M J o0 o L → e ∈ L → is_Some (amo_answered M !! ex_key e) ∧ ex_key e ∈ amo_started M.
Proof.
  intros Hs He. destruct (so_replied _ _ _ _ _ _ _ _ _ _ Hs e He) as (r & Hr & _).
  split; [by eexists|]. destruct (so_amo _ _ _ _ _ _ _ _ _ _ Hs) as (_ & Hans & _). apply Hans. by eexists.
Qed.

(** The outcome [d] of a call is that of the execution [e]. *)
Definition outcome_of {S} (d : returned) (e : exec S) : Prop :=
  ex_key e = (rd_client d, rd_xid d) ∧ rd_ret d = ex_ret e ∧ reads (rd_un d) (ex_reply e).

(** C3: RPC is at most once, end to end.  Any number of clients call a server
    over a network that loses, repeats and reorders packets, with time-outs
    and cancellation.  The executions of handlers follow one another on the
    object, and no request is executed twice.  A call returns the outcome of
    the one execution of its request, on the arguments it sent; or a failure
    of the server, and then its request has not been executed and never will
    be by this server; or it gave up. *)
Theorem rpc_at_most_once {S} fill procs nonce patient lossy (o0 : S) s :
  rtc (rpc_step fill procs nonce patient) (rpc_init lossy o0) s →
  NoDup (ex_key <$> ss_log s) ∧ chain o0 (ss_log s) (ss_obj s) ∧
  (∀ e, e ∈ ss_log s → exec_ok fill procs nonce (ss_asked s) e) ∧
  ∀ d, d ∈ ss_returned s →
    (∃ e, e ∈ ss_log s ∧ outcome_of d e) ∨
    ((rd_ret d = rpc_const.oldsrv_failure ∨ rd_ret d = rpc_const.atmostonce_failure) ∧
      ((rd_client d, rd_xid d) ∉ amo_started (ss_amo s)) ∧
      ∀ e, e ∈ ss_log s → ex_key e ≠ (rd_client d, rd_xid d)) ∨
    rd_ret d = rpc_const.timeout_failure ∨ rd_ret d = rpc_const.cancel_failure.
Proof.
  intros Hr. destruct (rpc_reachable_inv _ _ _ _ _ _ _ Hr) as [Hc Hs Hl]. pose proof Hs as [].
  split_and!; [done|done|done|]. intros d Hd. destruct (lk_returned _ _ _ _ _ _ _ Hl d Hd) as [_ [?|[?|(cc & Hread & Hv)]]]; [tauto|tauto|].
  assert ((rd_client d, rd_xid d) ∉ amo_started (ss_amo s) →
    ∀ e, e ∈ ss_log s → ex_key e ≠ (rd_client d, rd_xid d)) as Hno.
  { intros Hn e He E. apply Hn. rewrite <- E. by apply (log_started _ _ _ _ _ _ _ _ _ _ _ Hs He). }
  destruct Hv as [(e & He & Ek & Er & <-)|[[Er (h & l & E & Hbad)]|[Er [Hn _]]]].
  - left. exists e. by split_and!.
  - right. left. split; [by left|].
    assert ((rd_client d, rd_xid d) ∉ amo_started (ss_amo s)) as Hn.
    { intros Hst. destruct (so_started0 _ Hst) as (h' & l' & E' & Hg). rewrite E in E'. by injection E' as <- <-. }
    by split; [|apply Hno].
  - right. left. split; [by right|]. by split; [|apply Hno].
Qed.

(** ** Calls that wait *)

(** What holds in addition when no call gives up and [bind] comes first. *)
Section patient.
Context {S : Type} (fill : ascii) (procs : gmap Z (handler S)) (nonce : Z).
Context (Hnonce : in_u32 nonce) (Hbind : procs !! rpc_const.bind = Some (rpcs_reg1 (rpcbind nonce))).

Record waits (C : Z → client) (A : gmap (Z * Z) (req_header * list ascii)) (M : amo) (D : list returned) : Prop := {
  wt_acked : ∀ n y, 1 ≤ y → y ∈ acked C n → is_Some (amo_answered M !! (n, y));
  wt_head : ∀ n f x, head (entries (amo_window M) n) = Some f → is_Some (A !! (n, x)) →
    x ∉ acked C n → (n, x) ∉ amo_started M → rt_xid f < x;
  wt_begun : ∀ n x, 1 ≤ x < rc_xid (cl_rpcc (C n)) → x ∈ acked C n ∨ is_Some (rc_calls (cl_rpcc (C n)) !! x);
  wt_bind : ∀ n, rc_bind_done (cl_rpcc (C n)) = true ∨ 2 < rc_xid (cl_rpcc (C n)) → 1 ∈ acked C n;
  wt_srv : ∀ n, rc_srv_nonce (cl_rpcc (C n)) = 0 ∨ rc_srv_nonce (cl_rpcc (C n)) = nonce;
  wt_good : ∀ k h l, A !! k = Some (h, l) → good_nonce nonce h;
  wt_calls : ∀ n x ca, rc_calls (cl_rpcc (C n)) !! x = Some ca → ca_done ca = true →
    ca_intret ca ≠ rpc_const.cancel_failure ∧ ca_intret ca ≠ rpc_const.timeout_failure;
  wt_returned : ∀ d, d ∈ D → (rd_xid d ∈ acked C (rd_client d)) ∧
    rd_ret d ≠ rpc_const.cancel_failure ∧ rd_ret d ≠ rpc_const.timeout_failure }.

(** Nothing is lost. *)
Lemma waits_not_lost C A M D n x :
  waits C A M D → amo_inv M → 1 ≤ x → is_Some (A !! (n, x)) → ¬ lost M n x.
Proof.
  intros Hw (_ & Hans & _) Hx Ha (Hns & f & Hf & Hlt).
  destruct (decide (x ∈ acked C n)) as [Hk|Hk]; [by apply Hns, Hans, (wt_acked _ _ _ _ Hw)|].
  pose proof (wt_head _ _ _ _ Hw n f x Hf Ha Hk Hns). lia.
Qed.

(** Every verdict is an outcome. *)
Lemma waits_verdict C A Q M J o0 o L D n x ret cc :
  clients_ok C A Q → server_ok fill procs nonce C A M J o0 o L → waits C A M D → is_Some (A !! (n, x)) →
  verdict nonce A M L n x ret cc →
  ∃ e, e ∈ L ∧ ex_key e = (n, x) ∧ ex_ret e = ret ∧ ex_reply e = cc.
Proof.
  intros Hc Hs Hw Ha [He|[(_ & h & l & E & Hbad)|[_ Hlost]]]; [done| |].
  - by destruct Hbad; eapply (wt_good _ _ _ _ Hw).
  - exfalso. revert Hlost. apply (waits_not_lost C A M D n x Hw); [apply Hs| |done].
    destruct Ha as [[h l] E]. apply (co_asked _ _ _ Hc) in E as []. lia.
Qed.

Lemma verdict_ret A M L n x ret cc :
  (∀ e, e ∈ L → exec_ok fill procs nonce A e) → verdict nonce A M L n x ret cc →
  ret ≠ rpc_const.cancel_failure ∧ ret ≠ rpc_const.timeout_failure.
Proof.
  intros Hlog [(e & He & _ & <- & _)|[[-> _]|[-> _]]]; [|done|done].
  destruct (Hlog e He) as (? & ? & ? & ? & ? & _ & _ & _ & _ & _ & _ & _ & ? & _).
  unfold rpc_const.cancel_failure, rpc_const.timeout_failure. lia.
Qed.

(** The first entry after a request has arrived is not newer than what the
    request acknowledges, or is the first one from before. *)
Lemma head_after_arrive w st an n y r out st' out' w' f :
  amo_inv (Amo w st an) → r < y → checkduplicate_and_update w n y r out = Ret (st', out', w') →
  head (entries w n) = Some f → (rt_xid f < r → (n, r) ∈ st) →
  ∃ f', head (entries w' n) = Some f' ∧ (rt_xid f' = rt_xid f ∨ rt_xid f' ≤ r).
Proof.
  intros (_ & _ & Hall) Hry Hck Hf Hr. specialize (Hall n) as Hn. cbn in Hn.
  destruct (checkduplicate_cases w n y r out (ci_sorted _ _ _ Hn)) as (st0 & o0 & l' & E & Hcase).
  rewrite Hck in E. injection E as <- <- ->. rewrite entries_insert, decide_True by done.
  set (l0 := entries w n) in *. pose proof (ci_sorted _ _ _ Hn) as Hs. destruct (trim_spec r l0 Hs) as [Hsuf Hin].
  assert (∃ f', head (trim r l0) = Some f' ∧ (rt_xid f' = rt_xid f ∨ rt_xid f' ≤ r)) as (f' & Hf' & Hle).
  { destruct (decide (rt_xid f < r)) as [Hlt|Hge].
    - assert (r ∈ rt_xid <$> trim r l0) as Hx.
      { apply Hin. split; [|done]. destruct (ci_started _ _ _ Hn) as [R HR]. apply HR. split; [by apply Hr|].
        assert (R ≤ rt_xid f); [|lia]. apply HR, list_elem_of_fmap. exists f. split; [done|].
        destruct l0; [done|]. injection Hf as ->. left. }
      apply list_elem_of_fmap in Hx as (e & -> & He). destruct (trim (rt_xid e) l0) as [|f' l] eqn:Et; [by apply elem_of_nil in He|].
      exists f'. split; [done|right]. apply (sorted_head_le e (f' :: l)); [|done|done]. by eapply sorted_suffix.
    - exists f. split; [|by left]. destruct l0 as [|e l]; [done|]. injection Hf as ->. cbn [trim].
      by rewrite (proj2 (Z.ltb_ge _ _)) by lia. }
  destruct st'.
  - destruct Hcase as (p & q & E & -> & Hp & Hq & Hh). specialize (Hh f' Hf'). destruct p as [|e p].
    + exfalso. cbn in E. rewrite E in Hf'. destruct q as [|e q]; [done|]. injection Hf' as ->.
      apply Forall_cons in Hq as [? _]. lia.
    + rewrite E in Hf'. injection Hf' as ->. by exists f'.
  - destruct Hcase as (-> & _). by exists f'.
  - destruct Hcase as (-> & _). by exists f'.
  - destruct Hcase as (-> & _). by exists f'.
Qed.

(** A quiet step of the client [n] that acknowledges only answered requests. *)
Lemma waits_quiet C A M D n c xs :
  waits C A M D →
  cl_acked c = xs ++ acked C n → (∀ y, y ∈ xs → 1 ≤ y → is_Some (amo_answered M !! (n, y))) →
  rc_xid (cl_rpcc c) = rc_xid (cl_rpcc (C n)) →
  (∀ x, is_Some (rc_calls (cl_rpcc (C n)) !! x) → x ∈ xs ∨ is_Some (rc_calls (cl_rpcc c) !! x)) →
  (rc_bind_done (cl_rpcc c) = true → 1 ∈ cl_acked c) →
  rc_srv_nonce (cl_rpcc c) = 0 ∨ rc_srv_nonce (cl_rpcc c) = nonce →
  (∀ x ca, rc_calls (cl_rpcc c) !! x = Some ca → ca_done ca = true →
    ca_intret ca ≠ rpc_const.cancel_failure ∧ ca_intret ca ≠ rpc_const.timeout_failure) →
  waits (<[n := c]> C) A M D.
Proof.
  intros [] Ha Hxs Hx Hcalls Hb Hsrv Hdone.
  assert (∀ m y, y ∈ acked C m → y ∈ acked (<[n := c]> C) m) as Hmono.
  { intros m y Hy. destruct (decide (m = n)) as [->|]; [rewrite fn_lookup_insert, Ha, elem_of_app; by right|].
    by rewrite fn_lookup_insert_ne. }
  split; try done.
  - intros m y Hy. destruct (decide (m = n)) as [->|]; [rewrite fn_lookup_insert, Ha, elem_of_app|rewrite fn_lookup_insert_ne by done; by apply wt_acked0].
    intros [?|?]; [by apply Hxs|by apply wt_acked0].
  - intros m f x Hf Hk Hna Hns. apply (wt_head0 m f x Hf Hk); [|done]. intros Hin. by apply Hna, Hmono.
  - intros m x. destruct (decide (m = n)) as [->|]; [|rewrite fn_lookup_insert_ne by done; apply wt_begun0].
    rewrite fn_lookup_insert, Hx, Ha, elem_of_app. intros Hr. destruct (wt_begun0 n x Hr) as [?|Hs]; [tauto|].
    destruct (Hcalls x Hs); tauto.
  - intros m. destruct (decide (m = n)) as [->|]; [|rewrite fn_lookup_insert_ne by done; apply wt_bind0].
    rewrite fn_lookup_insert, Hx. intros [Hbd|Hgt]; [by apply Hb|]. rewrite Ha, elem_of_app. right. by apply wt_bind0; right.
  - intros m. destruct (decide (m = n)) as [->|]; [by rewrite fn_lookup_insert|rewrite fn_lookup_insert_ne by done; apply wt_srv0].
  - intros m x ca. destruct (decide (m = n)) as [->|]; [rewrite fn_lookup_insert; apply Hdone|rewrite fn_lookup_insert_ne by done; apply wt_calls0].
  - intros d Hd. destruct (wt_returned0 d Hd) as [? ?]. by split; [apply Hmono|].
Qed.

Lemma waits_begin C A Q M D J o0 o L n proc req xid req' xid_rep c l :
  clients_ok C A Q → server_ok fill procs nonce C A M J o0 o L → waits C A M D → rc_xid (cl_rpcc (C n)) < 2 ^ 31 - 1 →
  (proc = rpc_const.bind → rc_calls (cl_rpcc (C n)) = ∅) →
  call1_begin (cl_rpcc (C n)) proc req = Ret (BeginOk xid req' xid_rep, c) →
  waits (<[n := Client c (acked C n) ((xid, xid_rep) :: cl_sent (C n))]> C)
    (<[(n, xid) := (ReqHeader (s32 xid) (s32 proc) n (rc_srv_nonce (cl_rpcc (C n))) xid_rep, l)]> A) M D.
Proof.
  intros Hc Hs Hw Hlt Hfirst Hb.
  destruct (call1_begin_acks _ _ _ _ _ _ _ (co_client _ _ _ Hc n) Hlt Hb) as (Ex & _ & _ & Ex' & Ecalls & Ec & Es & Ebd & _).
  assert (rc_bind_done (cl_rpcc (C n)) = true ∨ 1 < xid → 1 ∈ acked C n) as H1.
  { intros H. destruct (rc_bind_done (cl_rpcc (C n))) eqn:Ebn; [apply (wt_bind _ _ _ _ Hw); by left|].
    destruct H as [?|H]; [done|]. assert (proc = rpc_const.bind) as Ep.
    { unfold call1_begin in Hb. rewrite Ebn in Hb. destruct (Z.eqb_spec proc rpc_const.bind); [done|by cbn in Hb]. }
    destruct (wt_begun _ _ _ _ Hw n 1) as [?|[ca E]]; [lia|done|]. by rewrite (Hfirst Ep) in E. }
  destruct Hw. set (c' := Client c _ _).
  assert (∀ m, acked (<[n := c']> C) m = acked C m) as EA.
  { intros m. destruct (decide (m = n)) as [->|]; [by rewrite fn_lookup_insert|by rewrite fn_lookup_insert_ne]. }
  split; try setoid_rewrite EA; try done.
  - intros m f x Hf Hk Hna Hns. destruct (decide ((m, x) = (n, xid))) as [[= -> ->]|Hne].
    + assert (rt_xid f ∈ rt_xid <$> entries (amo_window M) n) as Hin.
      { apply list_elem_of_fmap. exists f. split; [done|]. destruct (entries _ _); [done|]. injection Hf as ->. left. }
      destruct (so_amo _ _ _ _ _ _ _ _ _ _ Hs) as (_ & _ & Hall).
      destruct (ci_started _ _ _ (Hall n)) as [R HR]. apply HR in Hin as [Hst _].
      destruct (so_started _ _ _ _ _ _ _ _ _ _ Hs _ Hst) as (h' & l' & E & _). apply (co_asked _ _ _ Hc) in E as [].
      destruct (cli_sent _ (co_client _ _ _ Hc n) _ _ ao_sent0). lia.
    + rewrite lookup_insert_ne in Hk by done. by apply (wt_head0 m f x).
  - intros m x. destruct (decide (m = n)) as [->|]; [|rewrite fn_lookup_insert_ne by done; apply wt_begun0].
    rewrite fn_lookup_insert. cbn. rewrite Ex', Ecalls. intros Hr. destruct (decide (x = xid)) as [->|]; [right; by rewrite lookup_insert_eq|].
    rewrite lookup_insert_ne by done. apply wt_begun0. lia.
  - intros m. destruct (decide (m = n)) as [->|]; [|rewrite fn_lookup_insert_ne by done; apply wt_bind0].
    rewrite fn_lookup_insert. cbn. rewrite Ebd, Ex'. intros [?|?]; apply H1; [by left|right; lia].
  - intros m. destruct (decide (m = n)) as [->|]; [rewrite fn_lookup_insert; cbn; rewrite Es|rewrite fn_lookup_insert_ne by done]; apply wt_srv0.
  - intros k h' l'. destruct (decide (k = (n, xid))) as [->|]; [rewrite lookup_insert_eq; intros [= <- <-]; apply (wt_srv0 n)|].
    rewrite lookup_insert_ne by done. apply wt_good0.
  - intros m x ca. destruct (decide (m = n)) as [->|]; [|rewrite fn_lookup_insert_ne by done; apply wt_calls0].
    rewrite fn_lookup_insert. cbn. rewrite Ecalls. destruct (decide (x = xid)) as [->|]; [rewrite lookup_insert_eq; by intros [= <-]|].
    rewrite lookup_insert_ne by done. apply wt_calls0.
Qed.

Lemma waits_arrive C A Q w st an D J o0 o L pdu h u st' out w' :
  clients_ok C A Q → server_ok fill procs nonce C A (Amo w st an) J o0 o L → waits C A (Amo w st an) D → pdu ∈ Q →
  u_unpack_req_header (unmarshall_buf pdu (Z.of_nat (length pdu))) = Ret (h, u) →
  checkduplicate_and_update w (rq_clt_nonce h) (u32 (rq_xid h)) (u32 (rq_xid_rep h)) (None, 0) = Ret (st', out, w') →
  waits C A (Amo w' (if decide (st' = NEW) then key h :: st else st) an) D.
Proof.
  intros Hc Hs Hw Hin Hu Hck.
  destruct (request_unpacked _ _ _ _ _ _ Hc Hin Hu) as (l & Has & _ & Hao & Ex & Er & Hr & Hacks).
  pose proof (so_amo _ _ _ _ _ _ _ _ _ _ Hs) as Hinv. pose proof Hinv as (_ & Hans & Hall).
  destruct Hw. cbn in *. split; cbn; try done. intros n f x Hf Hk Hna Hns.
  assert ((n, x) ∉ st) as Hns0 by (case_decide; [by apply not_elem_of_cons in Hns as [_ ?]|done]).
  destruct (decide (n = rq_clt_nonce h)) as [->|Hne].
  2: { apply (wt_head0 n f x); try done. revert Hf. destruct (checkduplicate_cases w (rq_clt_nonce h) (u32 (rq_xid h)) (u32 (rq_xid_rep h)) (None, 0)
         (ci_sorted _ _ _ (Hall _))) as (? & ? & l' & E & _). rewrite Hck in E. injection E as <- <- ->.
       by rewrite entries_insert, decide_False. }
  destruct Hk as [[h' l'] Hk]. pose proof (co_asked _ _ _ Hc _ _ _ _ Hk) as [].
  assert (rq_xid_rep h < x) as Hrx. { destruct (decide (rq_xid_rep h < x)); [done|]. destruct Hna. apply Hacks. lia. }
  destruct (entries w (rq_clt_nonce h)) as [|f0 l0] eqn:E0.
  - assert (∀ y, (rq_clt_nonce h, y) ∉ st) as Hnone.
    { intros y Hy. specialize (ci_nonempty _ _ _ (Hall (rq_clt_nonce h)) y Hy). cbn. by rewrite E0. }
    assert (rc_xid (cl_rpcc (C (rq_clt_nonce h))) ≤ 2) as H2.
    { destruct (decide (2 < rc_xid (cl_rpcc (C (rq_clt_nonce h))))) as [Hgt|]; [|lia].
      destruct (Hnone 1). apply Hans, wt_acked0; [lia|]. apply wt_bind0. by right. }
    destruct Hao as [_ _ Hra _ _ _ Hsa].
    destruct (cli_sent _ (co_client _ _ _ Hc _) _ _ ao_sent0), (cli_sent _ (co_client _ _ _ Hc _) _ _ Hsa).
    assert (x = rq_xid h) as -> by lia.
    destruct (checkduplicate_correct (Amo w st an) (rq_clt_nonce h) (u32 (rq_xid h)) (u32 (rq_xid_rep h)) (None, 0) Hinv)
      as (st0 & out0 & w0 & E & Hnew & _); [lia|]. cbn in E, Hnew. rewrite Hck in E. injection E as <- <- <-.
    rewrite Hnew, decide_True in Hns by (done || by intros y ?%Hnone). exfalso. apply Hns. unfold key. rewrite Ex. left.
  - destruct (head_after_arrive w st an (rq_clt_nonce h) (u32 (rq_xid h)) (u32 (rq_xid_rep h)) (None, 0) st' out w' f0 Hinv)
      as (f' & Hf' & Hle); [lia|done|by rewrite E0| |].
    { intros Hlt. apply Hans, wt_acked0.
      - assert (f0 ∈ entries w (rq_clt_nonce h)) as Hf0 by (rewrite E0; left).
        destruct (ci_started _ _ _ (Hall (rq_clt_nonce h))) as [R HR]. destruct (proj1 (HR (rt_xid f0))) as [Hst _].
        { apply list_elem_of_fmap. by exists f0. }
        destruct (so_started _ _ _ _ _ _ _ _ _ _ Hs _ Hst) as (h1 & l1 & E1 & _). apply (co_asked _ _ _ Hc) in E1 as []. lia.
      - rewrite Er. apply Hacks. lia. }
    rewrite Hf in Hf'. injection Hf' as <-. destruct Hle as [->|]; [|lia].
    apply (wt_head0 (rq_clt_nonce h) f0 x); [by rewrite E0|by eexists|done|done].
Qed.

Lemma waits_finish C A w st an D n y r w' :
  amo_inv (Amo w st an) → waits C A (Amo w st an) D → add_reply w n y r = Ret w' →
  waits C A (Amo w' st (<[(n, y) := r]> an)) D.
Proof.
  intros (_ & _ & Hall) [] Hadd. cbn in *. split; cbn; try done.
  - intros m x Hx Hk. destruct (decide ((m, x) = (n, y))) as [->|]; [by rewrite lookup_insert_eq|].
    rewrite lookup_insert_ne by done. by apply wt_acked0.
  - intros m f x Hf Hk Hna Hns.
    pose proof (add_reply_entries w n y r w' m Hadd (λ k, ci_sorted _ _ _ (Hall k))) as E. symmetry in E.
    destruct (head_xids _ _ f E Hf) as (f' & Hf' & <-). by apply (wt_head0 m f' x).
Qed.
End patient.

Lemma rep_contents m h c h' c' : rep m h c → rep m h' c' → c = c'.
Proof.
  intros H H'. pose proof (m_pdu_rep _ _ _ H) as E. rewrite (m_pdu_rep _ _ _ H') in E. injection E as E.
  destruct H as [? ? ? ? Hl _], H' as [? ? ? ? Hl' _]. apply app_inj_1 in E as [_ ->]; [done|lia].
Qed.

(** [bind] tells the nonce of the server. *)
Lemma bind_outcome {S} fill (nonce : Z) u (o : S) ret m o' hh cc un r un' :
  in_u32 nonce → rpcs_reg1 (rpcbind nonce) u (marshall_new fill) o = Ret (ret, m, o') → 0 ≤ ret → rep m hh cc →
  reads un cc → get (A:=int) un 0 = Ret (r, un') → u32 r = nonce.
Proof.
  intros Hn H Hret Hrep Hread Hget. unfold rpcs_reg1 in H. apply rbind_Ret in H as ([a u1] & _ & H).
  destruct (okdone u1); cbn [negb] in H; [|injection H as <- _ _; done].
  apply rbind_Ret in H as ([[b x] o1] & [= <- <- <-] & H). apply rbind_Ret in H as (m1 & Em & [= _ <- _]).
  destruct (put_ok (A:=int) (marshall_new fill) _ [] (s32 nonce) (marshall_new_rep fill)) as (m2 & E2 & R2); [apply s32_range|done|].
  rewrite Em in E2. injection E2 as <-. rewrite (rep_contents _ _ _ _ _ Hrep R2) in Hread.
  cbn [app] in Hread. rewrite <- (app_nil_r (enc _)) in Hread.
  destruct (get_ok (A:=int) un [] (s32 nonce) 0 Hread) as (u3 & E3 & _); [apply s32_range|]. rewrite Hget in E3. injection E3 as -> _.
  rewrite u32_s32. by apply u32_id.
Qed.

Section waiting.
Context {S : Type} (fill : ascii) (procs : gmap Z (handler S)) (nonce : Z).
Context (Hnonce : in_u32 nonce) (Hbind : procs !! rpc_const.bind = Some (rpcs_reg1 (rpcbind nonce))).

Definition sys_waits (s : rpc_system S) : Prop := waits nonce (ss_client s) (ss_asked s) (ss_amo s) (ss_returned s).

Lemma waits_reply o0 C A Q M J o L R D n pdu h u ok c :
  sys_inv fill procs nonce o0 (RpcSystem C A Q M J o L R D) → waits nonce C A M D → (n, pdu) ∈ R →
  u_unpack_reply_header (unmarshall_buf pdu (Z.of_nat (length pdu))) = Ret (h, u) →
  rpcc_got_pdu (cl_rpcc (C n)) pdu (Z.of_nat (length pdu)) = Ret (ok, c) →
  waits nonce (<[n := Client c (rp_xid h :: acked C n) (cl_sent (C n))]> C) A M D.
Proof.
  intros [Hc Hs Hl] Hw Hin Hu Hg. cbn in *.
  destruct (lk_replies _ _ _ _ _ _ _ Hl n pdu Hin) as (x & ret & cc & Hp & Hf & Hr & Ha & Hv).
  pose proof Ha as [[h' l] Has]. pose proof (ao_range _ _ _ _ _ (co_asked _ _ _ Hc _ _ _ _ Has)) as Hx.
  destruct (reply_unpacked x ret cc pdu h u Hp Hf Hr ltac:(wrap_unfold; lia) Hu) as (-> & Huok & _). cbn [rp_xid].
  destruct (got_pdu_shape _ _ _ _ _ _ _ Hu Huok Hg) as (_ & Esn & Exid & Ebd & Ecalls). cbn [rp_xid rp_ret] in Ecalls.
  apply (waits_quiet nonce C A M D n (Client c _ _) [x]); cbn; try done.
  - intros y ->%list_elem_of_singleton _. destruct Hv as [Hv|[_ Hk]]; [|apply (wt_acked _ _ _ _ _ Hw); [lia|done]].
    destruct (waits_verdict _ _ _ _ _ _ _ _ _ _ _ _ _ _ _ _ Hc Hs Hw Ha Hv) as (e & He & <- & _).
    by apply (log_started _ _ _ _ _ _ _ _ _ _ _ Hs He).
  - intros y Hy. right. rewrite Ecalls. destruct (decide (y = x)); [by rewrite fmap_is_Some|done].
  - rewrite Ebd. intros Hb. right. apply (wt_bind _ _ _ _ _ Hw). by left.
  - rewrite Esn. apply (wt_srv _ _ _ _ _ Hw).
  - intros y ca. rewrite Ecalls. destruct (decide (y = x)) as [->|]; [|apply (wt_calls _ _ _ _ _ Hw)].
    destruct (rc_calls (cl_rpcc (C n)) !! x) as [ca0|] eqn:E0; [|done]. cbn. intros [= <-].
    destruct (ca_done ca0) eqn:Ed; [by intros _; apply (wt_calls _ _ _ _ _ Hw n x)|]. intros _. cbn.
    destruct Hv as [Hv|[-> _]]; [|done]. eapply verdict_ret; [|exact Hv]. apply Hs.
Qed.

Lemma waits_end o0 C A Q M J o L R D n xid xid_rep b ca ret un c :
  sys_inv fill procs nonce o0 (RpcSystem C A Q M J o L R D) → waits nonce C A M D →
  rc_calls (cl_rpcc (C n)) !! xid = Some ca → ca_done ca = true →
  call1_end (cl_rpcc (C n)) xid xid_rep b = Ret (ret, un, c) →
  waits nonce (<[n := Client c (xid :: acked C n) (cl_sent (C n))]> C) A M (Returned n xid ret un :: D).
Proof.
  intros [Hc Hs Hl] Hw E Hd H. cbn in *. destruct (quiet_end _ _ _ _ _ _ _ _ _ _ _ Hc E H) as [Hx _].
  destruct (call1_end_shape _ _ _ _ _ _ _ _ H ltac:(wrap_unfold; lia) E) as (_ & Esn & Exid & Ebd & Ecalls & -> & Eret).
  rewrite Hd in Eret. destruct (wt_calls _ _ _ _ _ Hw n xid ca E Hd) as [Hnc Hnt].
  assert (waits nonce (<[n := Client c (xid :: acked C n) (cl_sent (C n))]> C) A M D) as Hw'.
  { apply (waits_quiet nonce C A M D n (Client c _ _) [xid]); cbn; try done.
    - intros y ->%list_elem_of_singleton _. destruct (lk_done _ _ _ _ _ _ _ Hl n xid ca E Hd) as [?|(cc & _ & Hv)]; [done|].
      destruct (waits_verdict _ _ _ _ _ _ _ _ _ _ _ _ _ _ _ _ Hc Hs Hw (co_calls _ _ _ Hc _ _ _ E) Hv) as (e & He & <- & _).
      by apply (log_started _ _ _ _ _ _ _ _ _ _ _ Hs He).
    - intros y Hy. rewrite Ecalls. destruct (decide (y = xid)) as [->|]; [left; by apply list_elem_of_singleton|right].
      by rewrite lookup_delete_ne.
    - rewrite Ebd. intros Hb. right. apply (wt_bind _ _ _ _ _ Hw). by left.
    - rewrite Esn. apply (wt_srv _ _ _ _ _ Hw).
    - intros y ca'. rewrite Ecalls. intros [_ ?]%lookup_delete_Some. by apply (wt_calls _ _ _ _ _ Hw n y). }
  destruct Hw'. split; try done. intros d [->|Hin]%elem_of_cons; [|by apply wt_returned0]. cbn.
  rewrite fn_lookup_insert, Eret. split; [left|done].
Qed.

Lemma waits_bind_step o0 C A Q M J o L R D n xid h l ret un r un' :
  sys_inv fill procs nonce o0 (RpcSystem C A Q M J o L R D) → waits nonce C A M D →
  Returned n xid ret un ∈ D → A !! (n, xid) = Some (h, l) → rq_proc h = rpc_const.bind →
  0 ≤ ret → get (A:=int) un 0 = Ret (r, un') →
  waits nonce (<[n := Client (bind_reply (cl_rpcc (C n)) ret r) (acked C n) (cl_sent (C n))]> C) A M D.
Proof.
  intros [Hc Hs Hl] Hw Hd Has Hp Hret Hget. cbn in *.
  destruct (lk_returned _ _ _ _ _ _ _ Hl _ Hd) as [Ha Hv]. cbn in Ha, Hv.
  destruct (wt_returned _ _ _ _ _ Hw _ Hd) as [Hk [Hnc Hnt]]. cbn in Hk, Hnc, Hnt.
  destruct Hv as [?|[?|(cc & Hread & Hv)]]; [done|done|].
  destruct (waits_verdict _ _ _ _ _ _ _ _ _ _ _ _ _ _ _ _ Hc Hs Hw Ha Hv) as (e & He & Ek & Er & Ec).
  destruct (so_log _ _ _ _ _ _ _ _ _ _ Hs e He) as (h' & u & f & m & hh & Has' & _ & Ep & _ & Ef & Hrun & Hrep & _ & _).
  rewrite Ek, Has in Has'. injection Has' as <- _. rewrite Ep, Hp, Hbind in Ef. injection Ef as <-.
  pose proof (bind_outcome _ _ _ _ _ _ _ _ _ _ _ _ Hnonce Hrun (ltac:(lia) : 0 ≤ ex_ret e) Hrep (eq_ind_r (reads un) Hread Ec) Hget) as Er'.
  assert (1 ∈ acked C n) as H1.
  { pose proof (co_asked _ _ _ Hc _ _ _ _ Has) as []. destruct (cli_sent _ (co_client _ _ _ Hc n) _ _ ao_sent0).
    destruct (decide (xid = 1)) as [->|]; [done|]. apply (wt_bind _ _ _ _ _ Hw). right. lia. }
  apply (waits_quiet nonce C A M D n (Client _ _ _) []); cbn; try done; unfold bind_reply; destruct (ret =? 0); cbn; try done.
  - by intros y ?%elem_of_nil.
  - by intros y ?%elem_of_nil.
  - by right.
  - by right.
  - by right.
  - apply (wt_srv _ _ _ _ _ Hw).
  - apply (wt_calls _ _ _ _ _ Hw).
  - apply (wt_calls _ _ _ _ _ Hw).
Qed.

Lemma waits_step o0 s s' :
  rpc_step fill procs nonce true s s' → sys_inv fill procs nonce o0 s → sys_waits s → sys_waits s'.
Proof.
  intros Hstep Hinv Hw. pose proof Hinv as [Hc Hs Hl]. destruct Hstep; cbn in *; unfold sys_waits in *; cbn in *; try done.
  - eapply waits_begin; try done. by auto.
  - by eapply waits_arrive.
  - eapply waits_finish; [apply Hs|done|done].
  - by eapply waits_reply.
  - eapply waits_end; try done. by auto.
  - by eapply waits_bind_step.
Qed.

Lemma waiting_reachable lossy o0 s :
  rtc (rpc_step fill procs nonce true) (rpc_init lossy o0) s → sys_inv fill procs nonce o0 s ∧ sys_waits s.
Proof.
  apply (rtc_ind_r (λ s, sys_inv fill procs nonce o0 s ∧ sys_waits s)).
  - split; [apply rpc_init_inv|]. unfold sys_waits. split; cbn; try done.
    + intros n y Hy ->%list_elem_of_singleton. lia.
    + lia.
    + intros n [?|?]; [done|lia].
    + by left.
    + by intros d ?%elem_of_nil.
  - intros y z _ Hstep [Hi Hw]. split; [by eapply rpc_step_inv|by eapply waits_step].
Qed.
End waiting.

(** Every call that has returned has the outcome of an execution. *)
Lemma waiting_outcome {S} fill procs nonce (o0 : S) s d :
  sys_inv fill procs nonce o0 s → sys_waits nonce s → d ∈ ss_returned s → ∃ e, e ∈ ss_log s ∧ outcome_of d e ∧ 0 ≤ rd_ret d.
Proof.
  intros [Hc Hs Hl] Hw Hd. destruct (wt_returned _ _ _ _ _ Hw d Hd) as (_ & Hnc & Hnt).
  destruct (lk_returned _ _ _ _ _ _ _ Hl d Hd) as [Ha [?|[?|(cc & Hread & Hv)]]]; [done|done|].
  destruct (waits_verdict _ _ _ _ _ _ _ _ _ _ _ _ _ _ _ _ Hc Hs Hw Ha Hv) as (e & He & Ek & Er & <-).
  exists e. destruct (so_log _ _ _ _ _ _ _ _ _ _ Hs e He) as (? & ? & ? & ? & ? & _ & _ & _ & _ & _ & _ & _ & ? & _).
  split_and!; [done|by split_and!|lia].
Qed.

(** C4: Calls that wait do not fail.  If every call waits for its reply and a
    client makes its other calls after [bind], then whatever the network
    loses, repeats or reorders and however the calls of all clients overlap,
    every call that returns has the outcome of the one execution of its
    request: the server never takes a live request for a forgotten one, and it
    never loses the entry of a running handler, where recording the reply
    would write through a stale iterator. *)
Theorem patient_calls_succeed {S} fill procs nonce lossy (o0 : S) s :
  in_u32 nonce → procs !! rpc_const.bind = Some (rpcs_reg1 (rpcbind nonce)) →
  rtc (rpc_step fill procs nonce true) (rpc_init lossy o0) s →
  (∀ d, d ∈ ss_returned s → ∃ e, e ∈ ss_log s ∧ outcome_of d e ∧ 0 ≤ rd_ret d) ∧
  (∀ h u r, (h, u) ∈ ss_jobs s →
    abort_free (add_reply (amo_window (ss_amo s)) (rq_clt_nonce h) (u32 (rq_xid h)) r)).
Proof.
  intros Hn Hb Hr. destruct (waiting_reachable fill procs nonce Hn Hb lossy o0 s Hr) as [Hi Hw]. split.
  - intros d. by eapply waiting_outcome.
  - destruct Hi as [Hc Hs Hl]. intros h u r Hj. destruct (so_jobs _ _ _ _ _ _ _ _ _ _ Hs h u Hj) as (l & Has & _ & _ & _ & Hst & Hna).
    apply add_reply_total, (so_window _ _ _ _ _ _ _ _ _ _ Hs); [done|]. intros Hk.
    pose proof (ao_range _ _ _ _ _ (co_asked _ _ _ Hc _ _ _ _ Has)) as Hx.
    destruct (wt_acked _ _ _ _ _ Hw (rq_clt_nonce h) (u32 (rq_xid h)) ltac:(lia) Hk) as [v E]. unfold key in Hna. congruence.
Qed.

(** ** Completion *)

Section completion.
Context {S : Type} (fill : ascii) (procs : gmap Z (handler S)) (nonce : Z).
Context (Hnonce : in_u32 nonce) (Hbind : procs !! rpc_const.bind = Some (rpcs_reg1 (rpcbind nonce))).

(** A step that begins no call; a step that leaves the clients other than [n]
    alone, too. *)
Definition quiet_step (s s' : rpc_system S) : Prop := rpc_step fill procs nonce true s s' ∧ ss_asked s' = ss_asked s.
Definition own_step (n : Z) (s s' : rpc_system S) : Prop :=
  quiet_step s s' ∧ ∀ n', n' ≠ n → ss_client s' n' = ss_client s n'.
Abbreviation step := own_step.
Abbreviation inv o0 s := (sys_inv fill procs nonce o0 s ∧ sys_waits nonce s).

(** The call [x] of client [n] waits for its reply. *)
Definition outstanding (s : rpc_system S) (n x : Z) : Prop :=
  ∃ ca, rc_calls (cl_rpcc (ss_client s n)) !! x = Some ca ∧ ca_done ca = false.

(** It has the outcome of an execution of its request. *)
Definition completed (s : rpc_system S) (n x : Z) : Prop :=
  ∃ ca e, rc_calls (cl_rpcc (ss_client s n)) !! x = Some ca ∧ ca_done ca = true ∧ e ∈ ss_log s ∧
    ex_key e = (n, x) ∧ ca_intret ca = ex_ret e ∧ reads (ca_un ca) (ex_reply e).

Lemma unanswered_not_acked s o0 n x : sys_inv fill procs nonce o0 s → outstanding s n x → x ∉ acked (ss_client s) n.
Proof.
  intros [Hc _ _] (ca & E & Hd) Hk. pose proof (cli_calls _ (co_client _ _ _ Hc n) x ca E Hk). congruence.
Qed.

(** A reply under way is delivered. *)
Lemma reply_completes o0 s n x pdu e :
  inv o0 s → outstanding s n x → e ∈ ss_log s → ex_key e = (n, x) → (n, pdu) ∈ ss_replies s →
  reply_pdu x (ex_ret e) (ex_reply e) pdu → ∃ s', step n s s' ∧ completed s' n x.
Proof.
  intros [[Hc Hs Hl] Hw] (ca & E & Hd) He Ek Hin Hp. destruct s as [C A Q M J o L R D]. cbn in *.
  destruct (so_log _ _ _ _ _ _ _ _ _ _ Hs e He) as (h & u0 & f & m & hh & Has & _ & _ & _ & _ & _ & _ & Hret & Hfit).
  rewrite Ek in Has. pose proof (co_asked _ _ _ Hc _ _ _ _ Has) as []. destruct (cli_sent _ (co_client _ _ _ Hc n) _ _ ao_sent0) as [_ Hlt].
  assert (∃ u, u_unpack_reply_header (unmarshall_buf pdu (Z.of_nat (length pdu))) = Ret (ReplyHeader x (ex_ret e), u)) as [u Eu].
  { destruct Hp as (sz & tl & Hsz & -> & Hlen).
    destruct (u_unpack_reply_header_reads sz (ReplyHeader x (ex_ret e)) tl (ex_reply e) Hsz Hlen) as (u & Eu & _).
    { split; cbn; wrap_unfold; lia. }
    { unfold fits in Hfit. pose proof hdr_sz. rewrite length_app. lia. }
    by exists u. }
  destruct (reply_unpacked x (ex_ret e) (ex_reply e) pdu _ u Hp Hfit ltac:(wrap_unfold; lia) ltac:(wrap_unfold; lia) Eu) as (_ & Huok & Hread).
  assert (∃ c, rpcc_got_pdu (cl_rpcc (C n)) pdu (Z.of_nat (length pdu)) = Ret (true, c)) as [c Eg].
  { unfold rpcc_got_pdu. rewrite Eu. cbn [rbind]. rewrite Huok. cbn [negb rp_xid]. rewrite u32_id by (wrap_unfold; lia).
    destruct (update_acked _ _ x (cli_window _ (co_client _ _ _ Hc n))) as (w & -> & _); [lia|]. cbn [rbind set_calls rc_calls].
    rewrite E. by eexists. }
  destruct (got_pdu_shape _ _ _ _ _ _ _ Eu Huok Eg) as (_ & _ & _ & _ & Ecalls). cbn [rp_xid rp_ret] in Ecalls.
  eexists. split.
  { split; [split; [by eapply (sys_reply _ _ _ _ C A Q M J o L R D n pdu)|done]|]. intros n' Hn'. cbn. by rewrite fn_lookup_insert_ne. }
  eexists _, e. cbn.
  rewrite fn_lookup_insert. cbn. rewrite Ecalls, decide_True, E by done. cbn. rewrite Hd. by split_and!.
Qed.

(** The handler of the request returns a result that fits a packet. *)
Definition handler_returns (f : handler S) (l : list ascii) : Prop :=
  ∀ u o, reads u l → ∃ ret m o' hh cc, f u (marshall_new fill) o = Ret (ret, m, o') ∧ 0 ≤ ret < 2 ^ 31 ∧ rep m hh cc ∧ fits cc.

(** A handler that runs comes to its end, and its reply arrives. *)
Lemma running_completes o0 s n x h l f :
  inv o0 s → outstanding s n x → ss_asked s !! (n, x) = Some (h, l) → procs !! rq_proc h = Some f → handler_returns f l →
  (n, x) ∈ amo_started (ss_amo s) → amo_answered (ss_amo s) !! (n, x) = None → ∃ s', nsteps (step n) 2 s s' ∧ completed s' n x.
Proof.
  intros [Hi Hw] Hout Has Hf Htotal Hst Hna. pose proof Hi as [Hc Hs Hl]. pose proof (unanswered_not_acked s o0 n x Hi Hout) as Hk.
  destruct s as [C A Q [w st an] J o L R D]. cbn in *.
  pose proof (so_running _ _ _ _ _ _ _ _ _ _ Hs (n, x) Hst Hna) as Hj. apply list_elem_of_fmap in Hj as ([h' u] & Ek & Hj). cbn in Ek.
  destruct (so_jobs _ _ _ _ _ _ _ _ _ _ Hs h' u Hj) as (l' & Has' & _ & Hread & _ & _ & _).
  rewrite <- Ek, Has in Has'. injection Has' as <- <-. injection Ek as En Ex.
  apply elem_of_Permutation in Hj as [J' HJ].
  destruct (Htotal u o Hread) as (ret & m & o' & hh & cc & Hrun & Hret & Hrep & Hfit).
  destruct (m_pack_reply_header_rep m hh cc (ReplyHeader (rq_xid h) ret) Hrep) as (m' & sz & tl & Em & _ & _).
  destruct (proj2 (add_reply_total w (rq_clt_nonce h) (u32 (rq_xid h)) (m_take_buf m').1)) as [w' Hadd].
  { rewrite <- En, <- Ex. by apply (so_window _ _ _ _ _ _ _ _ _ _ Hs). }
  pose proof (sys_finish fill procs nonce true C A Q w st an J J' o L R D h u f ret m o' hh cc m' w' HJ Hf Hrun Hret Hrep Hfit Em Hadd) as Hstep.
  set (s1 := RpcSystem _ _ _ _ _ _ _ _ _) in Hstep at 2.
  assert (inv o0 s1) as Hinv1 by (split; [by eapply rpc_step_inv|by eapply waits_step]).
  pose proof (ao_xid _ _ _ _ _ (co_asked _ _ _ Hc _ _ _ _ Has)) as Exid.
  destruct (reply_completes o0 s1 n x (packet_of (m_take_buf m').1)
    (Exec (rq_clt_nonce h) (u32 (rq_xid h)) (rq_proc h) (drop (Z.to_nat (u_ind u)) (u_buf u)) o ret cc o')) as (s2 & Hstep2 & Hdone).
  - done.
  - done.
  - left.
  - unfold ex_key. cbn. by rewrite <- En, <- Ex.
  - rewrite En. left.
  - cbn. rewrite <- Exid. by eapply reply_packet_pdu.
  - exists s2. split; [|done]. eapply nsteps_l; [by split; [split; [exact Hstep|]|]|]. by apply nsteps_once.
Qed.

(** The request is delivered once more: it is taken up, or it is known. *)
Lemma arrive_again o0 C A Q w st an J o L R D n x h l f :
  inv o0 (RpcSystem C A Q (Amo w st an) J o L R D) → outstanding (RpcSystem C A Q (Amo w st an) J o L R D) n x →
  A !! (n, x) = Some (h, l) → procs !! rq_proc h = Some f →
  ∃ st' out w' u,
    step n (RpcSystem C A Q (Amo w st an) J o L R D)
      (RpcSystem C A Q (Amo w' (if decide (st' = NEW) then (n, x) :: st else st) an)
        (if decide (st' = NEW) then (h, u) :: J else J) o L
        ((if decide (st' = DONE) then [(n, packet_of out)] else []) ++ R) D) ∧
    st' ≠ FORGOTTEN ∧ ((n, x) ∈ st → st' ≠ NEW) ∧ (st' = DONE → an !! (n, x) = Some out) ∧
    (st' = INPROGRESS → (n, x) ∈ st ∧ an !! (n, x) = None).
Proof.
  intros [Hi Hw] Hout Has Hf. pose proof Hi as [Hc Hs Hl]. pose proof (unanswered_not_acked _ o0 n x Hi Hout) as Hk. cbn in *.
  destruct (co_carried _ _ _ Hc _ _ _ Has) as (pdu & Hin & sz & Hsz & ->).
  pose proof (co_asked _ _ _ Hc _ _ _ _ Has) as [].
  destruct (u_unpack_req_header_reads sz h l Hsz ao_wf0) as (u & Eu & _).
  { unfold fits in ao_fits0. pose proof hdr_sz. unfold req_header_bytes. rewrite !length_app, !length_be32. lia. }
  cbv zeta in Eu. set (pdu := (sz ++ req_header_bytes h) ++ l) in *.
  destruct (request_unpacked _ _ _ _ _ _ Hc Hin Eu) as (_ & _ & _ & _ & Ex & Er & Hr & Hacks).
  destruct (checkduplicate_correct (Amo w st an) (rq_clt_nonce h) (u32 (rq_xid h)) (u32 (rq_xid_rep h)) (None, 0)
    (so_amo _ _ _ _ _ _ _ _ _ _ Hs)) as (st' & out & w' & Hck & _ & Hold & Hdone & Hprog); [lia|].
  cbn [amo_window amo_started amo_answered] in *.
  assert (key h = (n, x)) as Ek by (unfold key; congruence).
  assert (st' ≠ FORGOTTEN) as Hnf.
  { intros ->. pose proof (waits_arrive fill procs nonce _ _ _ _ _ _ _ _ _ _ _ _ _ _ _ _ _ Hc Hs Hw Hin Eu Hck) as Hw'.
    cbn in Hw'. rewrite Ex, Er in Hck. rewrite ao_clt0, ao_xid0 in Hck.
    pose proof (forgotten_is_lost w st an n x (rq_xid_rep h) _ _ w' (so_amo _ _ _ _ _ _ _ _ _ _ Hs) ltac:(lia)
      (λ Hst, so_window _ _ _ _ _ _ _ _ _ _ Hs n x Hst Hk) Hck) as Hlost.
    revert Hlost. apply (waits_not_lost nonce C A _ D n x Hw'); [|lia|by eexists].
    exact (amo_arrive_inv (Amo w st an) n x _ _ _ _ _ (so_amo _ _ _ _ _ _ _ _ _ _ Hs) (ltac:(lia) : rq_xid_rep h < x) Hck). }
  exists st', out, w', u. split.
  - assert (answer_at_once fill h st' out = Ret (if decide (st' = DONE) then [(n, packet_of out)] else [])) as Hans.
    { destruct st'; cbn; try done. by rewrite ao_clt0. }
    pose proof (sys_arrive fill procs nonce true C A Q w st an J o L R D pdu h u f st' out w' _ Hin Eu
      (wt_good _ _ _ _ _ Hw _ _ _ Has) Hf Hck Hans) as Hstep.
    fold (key h) in Hstep. rewrite Ek in Hstep. by split; [split|].
  - rewrite ao_clt0, Ex, ao_xid0 in *. done.
Qed.

Lemma call_completes_soon o0 s n x h l f :
  inv o0 s → outstanding s n x → ss_asked s !! (n, x) = Some (h, l) → procs !! rq_proc h = Some f → handler_returns f l →
  ∃ k s', (k ≤ 3)%nat ∧ nsteps (step n) k s s' ∧ completed s' n x.
Proof.
  intros Hi Hout Has Hf Htotal. destruct (decide ((n, x) ∈ amo_started (ss_amo s) ∧ amo_answered (ss_amo s) !! (n, x) = None))
    as [[Hst Hna]|Hno].
  { destruct (running_completes o0 s n x h l f) as (s' & Hr & Hd); [done..|]. exists 2%nat, s'. split_and!; [lia|done|done]. }
  destruct s as [C A Q [w st an] J o L R D]. cbn in Has, Hno.
  destruct (arrive_again _ _ _ _ _ _ _ _ _ _ _ _ _ _ _ _ _ Hi Hout Has Hf) as (st' & out & w' & u & Hstep & Hnf & Hold & Hdone & Hprog).
  set (s1 := RpcSystem _ _ _ _ _ _ _ _ _) in Hstep at 2.
  assert (inv o0 s1) as Hi1 by (destruct Hstep as [[Hstep _] _]; split; [by eapply rpc_step_inv; [|apply Hi]|by eapply waits_step; [done|done|done|apply Hi|apply Hi]]).
  pose proof Hi as [[_ Hs _] _]. destruct (so_amo _ _ _ _ _ _ _ _ _ _ Hs) as (_ & Hans & _). cbn in Hs, Hans.
  destruct st'; cbn [decide] in *.
  - destruct (running_completes o0 s1 n x h l f Hi1) as (s2 & Hr & Hd); [done|done|done|done| | |].
    + subst s1. cbn. rewrite decide_True by done. left.
    + cbn. apply eq_None_not_Some. intros Hsome. by apply (Hold (Hans _ Hsome)).
    + exists 3%nat, s2. split_and!; [lia|by eapply nsteps_l|done].
  - destruct Hno. by apply Hprog.
  - specialize (Hdone eq_refl). destruct (list_elem_of_fmap ex_key L (n, x)) as [Hl _].
    destruct Hl as (e & Ek & He). { apply (so_answered _ _ _ _ _ _ _ _ _ _ Hs). by exists out. }
    destruct (so_replied _ _ _ _ _ _ _ _ _ _ Hs e He) as (r & Hr & Hp). rewrite <- Ek in Hr. cbn in Hr.
    rewrite Hdone in Hr. injection Hr as <-. injection Ek as En Ex. rewrite <- Ex in Hp.
    destruct (reply_completes o0 s1 n x (packet_of out) e Hi1) as (s2 & Hr & Hd); [done|done|by unfold ex_key; congruence| |done|].
    + subst s1. cbn. rewrite decide_True by done. left.
    + exists 2%nat, s2. split_and!; [lia| |done]. eapply nsteps_l; [exact Hstep|]. by apply nsteps_once.
  - done.
Qed.

Lemma own_steps n k s s' : nsteps (step n) k s s' → rtc quiet_step s s'.
Proof. intros H%rtc_nsteps_2. revert H. apply (rtc_subrel (step n)). by intros x y []. Qed.

Lemma call_completes o0 s n x h l f :
  inv o0 s → outstanding s n x → ss_asked s !! (n, x) = Some (h, l) → procs !! rq_proc h = Some f → handler_returns f l →
  ∃ s', rtc quiet_step s s' ∧ completed s' n x.
Proof.
  intros Hi Hout Has Hf Ht. destruct (call_completes_soon o0 s n x h l f) as (k & s' & _ & Hr & Hd); [done..|].
  exists s'. split; [by eapply own_steps|done].
Qed.
End completion.

Lemma quiet_steps {S} fill procs nonce (s s' : rpc_system S) :
  rtc (quiet_step fill procs nonce) s s' → rtc (rpc_step fill procs nonce true) s s'.
Proof. apply (rtc_subrel (quiet_step fill procs nonce)). by intros x y []. Qed.

(** C12: A call can always be completed.  In a run in which no call returns
    before its reply has arrived, no client cancels and each client binds
    before its other calls, whatever packets were lost, repeated or reordered:
    from every point of the run, for every call that still waits, there is a
    way to go on of at most three steps, in which no call begins and no other
    client takes part, after which the call has the outcome of the one
    execution of its request, provided that its handler returns.  (The request
    is delivered once more and either taken up or answered from the window,
    the handler ends, the reply is delivered.) *)
Theorem rpc_can_complete {S} fill procs nonce lossy (o0 : S) s n x h l f :
  in_u32 nonce → procs !! rpc_const.bind = Some (rpcs_reg1 (rpcbind nonce)) →
  rtc (rpc_step fill procs nonce true) (rpc_init lossy o0) s → outstanding s n x →
  ss_asked s !! (n, x) = Some (h, l) → procs !! rq_proc h = Some f → handler_returns fill f l →
  ∃ k s', (k ≤ 3)%nat ∧ nsteps (own_step fill procs nonce n) k s s' ∧ completed s' n x ∧ NoDup (ex_key <$> ss_log s').
Proof.
  intros Hn Hb Hr Hout Has Hf Htotal.
  destruct (call_completes_soon fill procs nonce Hn Hb o0 s n x h l f) as (k & s' & Hk & Hr' & Hd); [by eapply waiting_reachable|done..|].
  exists k, s'. split_and!; [done|done|done|]. apply own_steps, quiet_steps in Hr'. eapply so_once, sy_server, rpc_reachable_inv. by etrans.
Qed.

(** ** Runs *)

Section runs.
Context {S : Type} (fill : ascii) (procs : gmap Z (handler S)) (nonce : Z) (patient : bool).
Context (Hnonce : in_u32 nonce) (Hbind : procs !! rpc_const.bind = Some (rpcs_reg1 (rpcbind nonce))).

(** A client asks for the nonce. *)
Lemma bind_begins lossy o n : 0 < n < 2 ^ 32 →
  ∃ s h, rpc_step fill procs nonce patient (rpc_init lossy o) s ∧ outstanding s n 1 ∧
    ss_asked s !! (n, 1) = Some (h, enc (A:=int) 0) ∧ rq_proc h = rpc_const.bind ∧ rc_xid (cl_rpcc (ss_client s n)) = 2.
Proof.
  intros Hn. destruct (put_ok (A:=int) (marshall_new fill) _ [] 0 (marshall_new_rep fill)) as (req & _ & Hrep); [done|done|].
  cbn [app] in Hrep. set (C := λ n, client_init n lossy true).
  destruct (m_pack_req_header_rep req _ _ (ReqHeader 1 rpc_const.bind (rc_clt_nonce (cl_rpcc (C n))) 0 0) Hrep) as (req' & sz & E & _ & Hrep').
  set (c := Rpcc (u32 n) 0 false 2 lossy true false {[ 1 := Caller unmarshall_empty 0 false ]} [0] request_clear (-1)).
  assert (call1_begin (cl_rpcc (C n)) rpc_const.bind req = Ret (BeginOk 1 req' 0, c)) as Eb.
  { transitivity (rbind (m_pack_req_header req (ReqHeader 1 rpc_const.bind (rc_clt_nonce (cl_rpcc (C n))) 0 0))
      (λ req, Ret (BeginOk 1 req 0, c))); [reflexivity|by rewrite E]. }
  eexists _, _. split.
  - eapply (sys_begin fill procs nonce patient C ∅ [] amo_init [] o [] [] [] n rpc_const.bind req); try done. by apply m_pdu_rep.
  - split_and!.
    + eexists. cbn. rewrite fn_lookup_insert. by split; [apply lookup_singleton_eq|].
    + cbn. by rewrite lookup_insert_eq.
    + done.
    + cbn. by rewrite fn_lookup_insert.
Qed.

Lemma bind_returns : handler_returns fill (rpcs_reg1 (rpcbind nonce) : handler S) (enc (A:=int) 0).
Proof.
  intros u o Hu. pose proof (reg1_serves (A:=int) (R:=int) fill (rpcbind nonce) o 0 0 (s32 nonce) o) as Hser.
  rewrite (Hser ltac:(done) ltac:(done) u Hu).
  destruct (put_ok (A:=int) (marshall_new fill) _ [] (s32 nonce) (marshall_new_rep fill)) as (m & E & Hrep);
    [apply s32_range|done|]. rewrite E. cbn [rbind]. eexists 0, m, o, _, _. split_and!; [done|done|done|exact Hrep|done].
Qed.

(** A completed call returns. *)
Lemma done_returns o0 s n x ca :
  sys_inv fill procs nonce o0 s → rc_calls (cl_rpcc (ss_client s n)) !! x = Some ca → ca_done ca = true →
  ∃ s' ret un, rpc_step fill procs nonce patient s s' ∧ ss_asked s' = ss_asked s ∧ Returned n x ret un ∈ ss_returned s'.
Proof.
  intros [Hc _ _] E Hd. destruct s as [C A Q M J o L R D]. cbn in *.
  destruct (co_calls _ _ _ Hc _ _ _ E) as [[h l] Has]. pose proof (co_asked _ _ _ Hc _ _ _ _ Has) as [].
  assert (∃ ret un c, call1_end (cl_rpcc (C n)) x 0 [] = Ret (ret, un, c)) as (ret & un & c & Hend).
  { unfold call1_end. rewrite s32_id, E by (wrap_unfold; lia).
    destruct (update_acked _ _ x (cli_window _ (co_client _ _ _ Hc n))) as (w & -> & _); [lia|]. by do 3 eexists. }
  eexists _, ret, un. split; [by eapply (sys_end _ _ _ _ C A Q M J o L R D n x 0 [] ca)|]. split; [done|left].
Qed.
End runs.

Definition demo_null : handler () := λ _ m o, Ret (0, m, o).
Definition demo_procs : gmap Z (handler ()) :=
  {[ rpc_const.bind := rpcs_reg1 (rpcbind 99); 5 := demo_null ]}.

(** Client 7 binds. *)
Lemma demo_bound : ∃ s ret un,
  rtc (rpc_step "000"%char demo_procs 99 true) (rpc_init 0 ()) s ∧ Returned 7 1 ret un ∈ ss_returned s.
Proof.
  assert (demo_procs !! rpc_const.bind = Some (rpcs_reg1 (rpcbind 99))) as Hb by (apply lookup_insert_eq).
  destruct (bind_begins "000"%char demo_procs 99 true 0 () 7) as (s1 & h & H1 & Hout & Has & Hp & _); [lia|].
  pose proof (rtc_once _ _ H1) as Hr1. pose proof (waiting_reachable "000"%char demo_procs 99 ltac:(done) Hb 0 () s1 Hr1) as Hi1.
  destruct (call_completes "000"%char demo_procs 99 ltac:(done) Hb () s1 7 1 h _ _ Hi1 Hout Has (eq_ind_r (λ p, demo_procs !! p = _) Hb Hp)
    (bind_returns "000"%char 99)) as (s2 & Hr2 & Hd).
  apply quiet_steps in Hr2. assert (rtc (rpc_step "000"%char demo_procs 99 true) (rpc_init 0 ()) s2) as Hr by (by etrans).
  destruct Hd as (ca & _ & Eca & Hd & _).
  destruct (done_returns "000"%char demo_procs 99 true () s2 7 1 ca) as (s3 & ret & un & H3 & _ & Hin); [by eapply rpc_reachable_inv|done|done|].
  exists s3, ret, un. split; [|done]. by eapply rtc_r.
Qed.

Lemma rpc_at_most_once_witness : ∃ (s : rpc_system ()) ret un,
  Returned 7 1 ret un ∈ ss_returned s ∧ NoDup (ex_key <$> ss_log s) ∧
  ((∃ e, e ∈ ss_log s ∧ outcome_of (Returned 7 1 ret un) e) ∨
   ((ret = rpc_const.oldsrv_failure ∨ ret = rpc_const.atmostonce_failure) ∧
     ((7, 1) ∉ amo_started (ss_amo s)) ∧ ∀ e, e ∈ ss_log s → ex_key e ≠ (7, 1)) ∨
   ret = rpc_const.timeout_failure ∨ ret = rpc_const.cancel_failure).
Proof.
  destruct demo_bound as (s & ret & un & Hr & Hin).
  destruct (rpc_at_most_once "000"%char demo_procs 99 true 0 () s Hr) as (Hnd & _ & _ & Hall).
  exists s, ret, un. split; [exact Hin|]. split; [exact Hnd|]. exact (Hall _ Hin).
Defined.

Lemma patient_calls_succeed_witness : ∃ (s : rpc_system ()) ret un e,
  Returned 7 1 ret un ∈ ss_returned s ∧ e ∈ ss_log s ∧ outcome_of (Returned 7 1 ret un) e ∧ 0 ≤ ret.
Proof.
  destruct demo_bound as (s & ret & un & Hr & Hin).
  destruct (patient_calls_succeed "000"%char demo_procs 99 0 () s) as [Hall _]; [split; reflexivity || lia|apply lookup_insert_eq|exact Hr|].
  destruct (Hall _ Hin) as (e & He & Ho & Hret). exists s, ret, un, e. split; [exact Hin|]. split; [exact He|]. split; [exact Ho|exact Hret].
Defined.

Lemma rpc_can_complete_witness : ∃ s s',
  outstanding s 7 1 ∧ rtc (own_step "000"%char demo_procs 99 7) s s' ∧ completed s' 7 1.
Proof.
  destruct (bind_begins "000"%char demo_procs 99 true 0 () 7) as (s & h & H1 & Hout & Has & Hp & _); [lia|].
  assert (demo_procs !! rpc_const.bind = Some (rpcs_reg1 (rpcbind 99))) as Hb by (apply lookup_insert_eq).
  destruct (rpc_can_complete "000"%char demo_procs 99 0 () s 7 1 h (enc (A:=int) 0) (rpcs_reg1 (rpcbind 99))) as (k & s' & _ & Hr & Hd & _).
  - split; reflexivity || lia.
  - exact Hb.
  - exact (rtc_once _ _ H1).
  - exact Hout.
  - exact Has.
  - rewrite Hp. exact Hb.
  - apply bind_returns.
  - exists s, s'. split; [exact Hout|]. split; [exact (rtc_nsteps_2 _ _ _ Hr)|exact Hd].
Defined.

(** ** A call that fails although it waits *)

(** A request with one [int], and a reply with one. *)
Definition demo_put (x : int) : marshall :=
  match put (marshall_new "000"%char) x with Ret m => m | Fail _ => marshall_new "000"%char end.

Lemma demo_put_rep x : in_s32 x → rep (demo_put x) (replicate (Z.to_nat RPC_HEADER_SZ) "000"%char) (enc (A:=int) x).
Proof.
  intros Hx. destruct (put_ok (A:=int) (marshall_new "000"%char) _ [] x (marshall_new_rep "000"%char)) as (m & E & H); [done|done|].
  unfold demo_put. by rewrite E.
Qed.

(** Evaluates the left-hand side of an equation whose right-hand side is to be
    found. *)
Ltac run_eq :=
  lazymatch goal with |- ?a = ?r => let b := eval vm_compute in a in change (b = r) end; reflexivity.
Ltac norm_in t k := let b := eval vm_compute in t in k b.
(** Evaluates the parts of the state that a step has changed. *)
Ltac run_norm :=
  lazymatch goal with
  | |- rtc _ (RpcSystem (<[7 := Client ?c ?a ?s]> ?C) ?A ?Q ?M ?J ?o ?L ?R ?D) _ =>
      norm_in a ltac:(fun a' => norm_in s ltac:(fun s' => norm_in A ltac:(fun A' => norm_in Q ltac:(fun Q' =>
      norm_in M ltac:(fun M' => norm_in J ltac:(fun J' => norm_in R ltac:(fun R' =>
        change (RpcSystem (<[7 := Client c a s]> C) A Q M J o L R D)
          with (RpcSystem (<[7 := Client c a' s']> C) A' Q' M' J' o L R' D))))))))
  end.
(** Steps of client 7. *)
Ltac run_begin p :=
  eapply rtc_l;
  [eapply (sys_begin _ _ _ _ _ _ _ _ _ _ _ _ _ 7 p (demo_put 0)); [done|done|done|by apply demo_put_rep|done|done|run_eq|run_eq]|]; run_norm.
Tactic Notation "run_arrive" constr(f) integer(i) :=
  eapply rtc_l; [eapply (sys_arrive _ _ _ _ _ _ _ _ _ _ _ _ _ _ _ _ _ _ f); [do i right; left|run_eq|by (left + right)|reflexivity|run_eq|run_eq]|]; run_norm.
Ltac run_reply := eapply rtc_l; [eapply (sys_reply _ _ _ _ _ _ _ _ _ _ _ _ _ 7); [left|run_eq|run_eq]|]; run_norm.
Ltac run_end x := eapply rtc_l; [eapply (sys_end _ _ _ _ _ _ _ _ _ _ _ _ _ 7 x 0 []); [run_eq|done|run_eq]|]; run_norm.

(** A time-out is taken for an acknowledgement, and a later call pays for it.
    Request 2 is lost and its call gives up; the calls 3 and 4 are made at the
    same time, and 4 is delivered first.  The server, which has nothing left
    in its window, starts it with 4; when 3 is delivered it is behind the
    window and refused as forgotten.  Call 3 has waited for its reply and its
    request was never executed, yet it fails. *)
Theorem timeout_makes_other_call_fail : ∃ s un,
  rtc (rpc_step "000"%char demo_procs 99 false) (rpc_init 0 ()) s ∧
  Returned 7 3 rpc_const.atmostonce_failure un ∈ ss_returned s ∧
  ((7, 3) ∉ amo_started (ss_amo s)) ∧
  ∀ d, d ∈ ss_returned s → rd_ret d = rpc_const.timeout_failure → rd_xid d = 2.
Proof.
  eexists _, _. split.
  - run_begin rpc_const.bind. run_arrive (rpcs_reg1 (S:=()) (rpcbind 99)) 0.
    eapply rtc_l.
    { eapply (sys_finish _ _ _ _ _ _ _ _ _ _ _ [] _ _ _ _ _ _ (rpcs_reg1 (rpcbind 99)) 0 (demo_put 99)); [reflexivity|reflexivity| |done|by apply demo_put_rep|done|run_eq|run_eq].
      vm_compute. reflexivity. }
    run_norm.
    run_reply. run_end 1.
    eapply rtc_l; [eapply (sys_bind _ _ _ _ _ _ _ _ _ _ _ _ _ 7 1); [left|run_eq|reflexivity|done|run_eq]|]; run_norm.
    run_begin 5. run_end 2. run_begin 5. run_begin 5.
    run_arrive demo_null 0.
    run_arrive demo_null 1.
    run_reply. run_end 3. apply rtc_refl.
  - split_and!.
    + left.
    + apply (bool_decide_unpack _). vm_compute. exact I.
    + cbn [ss_returned]. intros d Hd. repeat (apply elem_of_cons in Hd as [->|Hd]; [done|]). by apply elem_of_nil in Hd.
Qed.
