(* ===== verification/Streams.v ===== *)
(** * The iostream operations the sources use

    Formatted input and output of words and decimal numbers, [get] and
    [getline], as log.cc, config.cc and yfs_client.cc use them.  A stream is
    its unread characters with a fail bit; an operation on a failed stream
    changes nothing.  An extraction that starts at the end of the input fails
    and leaves its variable alone, as the sentry object does. *)

From S2P Require Import Prelude.

Definition newline : ascii := "010"%char.
Definition space : ascii := " "%char.

(** [isspace] in the C locale. *)
Definition is_space (c : ascii) : bool :=
  let n := byte_val c in (n =? 32) || ((9 <=? n) && (n <=? 13)).
Definition is_digit (c : ascii) : bool :=
  let n := byte_val c in (48 <=? n) && (n <=? 57).

Record istream := IStream { is_rest : list ascii; is_fail : bool }.

Definition istream_of (s : list ascii) : istream := IStream s false.
Definition istream_bad (i : istream) : istream := IStream (is_rest i) true.

(** The longest prefix whose characters satisfy [p], and the rest. *)
Fixpoint span (p : ascii → bool) (l : list ascii) : list ascii * list ascii :=
  match l with
  | c :: l' => if p c then let '(a, b) := span p l' in (c :: a, b) else ([], l)
  | [] => ([], [])
  end.

Definition skip_space (l : list ascii) : list ascii := (span is_space l).2.

Definition at_end (l : list ascii) : bool := match l with [] => true | _ => false end.

(** [is >> s]. *)
Definition read_word (i : istream) (s : string) : string * istream :=
  if is_fail i then (s, i) else
  let l := skip_space (is_rest i) in
  if at_end l then (s, IStream [] true) else
  let '(w, r) := span (negb ∘ is_space) l in (of_chars w, IStream r false).

Definition digits_value (l : list ascii) : Z :=
  foldl (λ acc c, acc * 10 + (byte_val c - 48)) 0 l.

(** [is >> x] for an unsigned [x] with the values below [bound]: no digits
    store 0, a value out of range the largest one, and both fail. *)
Definition read_number (bound : Z) (i : istream) (x : Z) : Z * istream :=
  if is_fail i then (x, i) else
  let l := skip_space (is_rest i) in
  if at_end l then (x, IStream [] true) else
  let '(ds, r) := span is_digit l in
  if at_end ds then (0, IStream r true)
  else if digits_value ds <? bound then (digits_value ds, IStream r false)
  else (bound - 1, IStream r true).
Definition read_unsigned : istream → Z → Z * istream := read_number (2 ^ 32).
Definition read_ullong : istream → Z → Z * istream := read_number (2 ^ 64).

(** [is.get()]. *)
Definition read_char (i : istream) : istream :=
  if is_fail i then i else
  match is_rest i with
  | [] => IStream [] true
  | _ :: r => IStream r false
  end.

(** [getline(is, s)]. *)
Definition read_line (i : istream) (s : string) : string * istream :=
  if is_fail i then (s, i) else
  if at_end (is_rest i) then ("", IStream [] true) else
  let '(w, r) := span (λ c, negb (bool_decide (c = newline))) (is_rest i) in
  (of_chars w, IStream (tail r) false).

(** [os << x] for an unsigned [x]: at most twenty decimal digits. *)
Fixpoint show_digits (fuel : nat) (x : Z) : list ascii :=
  match fuel with
  | O => []
  | S fuel =>
      if x <? 10 then [byte_of (48 + x)]
      else show_digits fuel (x / 10) ++ [byte_of (48 + x mod 10)]
  end.
Definition show_unsigned (x : Z) : list ascii := show_digits 20 x.

(** ** Reading back what was written *)

Lemma span_app p l r :
  Forall (λ c, p c = true) l → match r with c :: _ => p c = false | [] => True end →
  span p (l ++ r) = (l, r).
Proof.
  intros Hl Hr. induction Hl as [|c l Hc _ IH]; cbn.
  - destruct r as [|c r]; cbn; [done|]. by rewrite Hr.
  - by rewrite Hc, IH.
Qed.

Lemma span_spec p l : (span p l).1 ++ (span p l).2 = l ∧ Forall (λ c, p c = true) (span p l).1.
Proof.
  induction l as [|c l [IH1 IH2]]; cbn; [done|]. destruct (p c) eqn:E; cbn; [|done].
  destruct (span p l) as [a b]; cbn in *. split; [congruence|by constructor].
Qed.

Lemma at_end_app l r : l ≠ [] → at_end (l ++ r) = false.
Proof. by destruct l. Qed.

(** A word: not empty and without white space. *)
Definition word (w : list ascii) : Prop := w ≠ [] ∧ Forall (λ c, is_space c = false) w.
(** What may stand on a line. *)
Definition one_line (s : list ascii) : Prop := newline ∉ s.

(** Skipping stops at a character that is not a space. *)
Definition starts_solid (l : list ascii) : Prop :=
  match l with c :: _ => is_space c = false | [] => False end.

Lemma word_starts w r : word w → starts_solid (w ++ r).
Proof. intros [Hne Hw]. destruct w; [done|]. by apply Forall_cons in Hw as [? _]. Qed.

Lemma skip_space_solid l : starts_solid l → skip_space l = l.
Proof. destruct l as [|c l]; cbn; [done|]. unfold skip_space. cbn. by intros ->. Qed.

Lemma skip_space_one c l : is_space c = true → skip_space (c :: l) = skip_space l.
Proof. unfold skip_space. cbn. intros ->. by destruct (span is_space l). Qed.

(** The separator that ends a word. *)
Definition ends_word (r : list ascii) : Prop :=
  match r with c :: _ => is_space c = true | [] => True end.

Lemma read_word_ok i w r s :
  is_fail i = false → skip_space (is_rest i) = w ++ r → word w → ends_word r →
  read_word i s = (of_chars w, IStream r false).
Proof.
  intros Hf Hs Hw Hr. unfold read_word. rewrite Hf, Hs.
  destruct Hw as [Hne Hw]. rewrite at_end_app, (span_app (negb ∘ is_space) w r); [done|..|done].
  - eapply Forall_impl; [exact Hw|]. cbn. by intros ? ->.
  - destruct r as [|c r]; cbn in *; [done|]. by rewrite Hr.
Qed.

Lemma byte_val_digit d : 0 ≤ d < 10 → byte_val (byte_of (48 + d)) = 48 + d.
Proof. intros. rewrite byte_val_of, Z.mod_small; lia. Qed.

Lemma is_digit_of d : 0 ≤ d < 10 → is_digit (byte_of (48 + d)) = true.
Proof. intros. unfold is_digit. rewrite byte_val_digit by done. lia. Qed.

Lemma is_digit_solid c : is_digit c = true → is_space c = false.
Proof. unfold is_digit, is_space. lia. Qed.

Lemma show_digits_spec fuel x :
  0 ≤ x < 10 ^ Z.of_nat fuel → fuel ≠ O →
  Forall (λ c, is_digit c = true) (show_digits fuel x) ∧
  show_digits fuel x ≠ [] ∧ digits_value (show_digits fuel x) = x.
Proof.
  revert x. induction fuel as [|fuel IH]; intros x Hx Hf; [done|]. cbn [show_digits].
  rewrite Nat2Z.inj_succ, Z.pow_succ_r in Hx by lia.
  destruct (Z.ltb_spec x 10) as [Hlt|Hge].
  - split_and!; [|done|]; [repeat constructor; apply is_digit_of; lia|].
    cbn. rewrite byte_val_digit by lia. lia.
  - assert (0 ≤ x / 10 < 10 ^ Z.of_nat fuel) as Hd.
    { split; [apply Z.div_pos; lia|apply Z.div_lt_upper_bound; lia]. }
    pose proof (Z.mod_pos_bound x 10 ltac:(lia)) as Hm.
    destruct (IH (x / 10) Hd) as (H1 & H2 & H3).
    { intros ->. cbn in Hd. pose proof (Z.div_mod x 10 ltac:(lia)). lia. }
    split_and!.
    + apply Forall_app. split; [done|]. repeat constructor. apply is_digit_of. lia.
    + by destruct (show_digits fuel (x / 10)).
    + unfold digits_value in *. rewrite foldl_app, H3. cbn. rewrite byte_val_digit by lia.
      pose proof (Z.div_mod x 10 ltac:(lia)). lia.
Qed.

Lemma show_unsigned_spec x :
  0 ≤ x < 2 ^ 64 →
  Forall (λ c, is_digit c = true) (show_unsigned x) ∧
  show_unsigned x ≠ [] ∧ digits_value (show_unsigned x) = x.
Proof. intros. apply show_digits_spec; [|done]. change (10 ^ Z.of_nat 20) with 100000000000000000000. lia. Qed.

Lemma show_unsigned_word x : 0 ≤ x < 2 ^ 64 → word (show_unsigned x).
Proof.
  intros Hx. destruct (show_unsigned_spec x Hx) as (H1 & H2 & _). split; [done|].
  eapply Forall_impl; [exact H1|]. apply is_digit_solid.
Qed.

Lemma read_number_stop bound i x r x0 :
  is_fail i = false → skip_space (is_rest i) = show_unsigned x ++ r →
  0 ≤ x < bound → bound ≤ 2 ^ 64 → match r with c :: _ => is_digit c = false | [] => True end →
  read_number bound i x0 = (x, IStream r false).
Proof.
  intros Hf Hs Hx Hb Hr. unfold read_number. rewrite Hf, Hs.
  destruct (show_unsigned_spec x) as (H1 & H2 & H3); [lia|].
  rewrite at_end_app, (span_app is_digit (show_unsigned x) r) by done.
  rewrite H3. replace (x <? bound) with true by lia. by destruct (show_unsigned x).
Qed.

Lemma read_number_ok bound i x r x0 :
  is_fail i = false → skip_space (is_rest i) = show_unsigned x ++ r →
  0 ≤ x < bound → bound ≤ 2 ^ 64 → ends_word r →
  read_number bound i x0 = (x, IStream r false).
Proof.
  intros Hf Hs Hx Hb Hr. apply read_number_stop; try done.
  destruct r as [|c r]; cbn in *; [done|]. destruct (is_digit c) eqn:E; [|done].
  apply is_digit_solid in E. congruence.
Qed.

Lemma read_line_ok i s r s0 :
  is_fail i = false → is_rest i = s ++ newline :: r → one_line s →
  read_line i s0 = (of_chars s, IStream r false).
Proof.
  intros Hf Hr Hs. unfold read_line. rewrite Hf, Hr.
  rewrite (span_app _ s (newline :: r)).
  - by destruct s as [|c s].
  - apply Forall_forall. intros c Hc. rewrite bool_decide_eq_false_2; [done|].
    intros ->. done.
  - by rewrite bool_decide_eq_true_2.
Qed.
