(* ===== verification/Sockaddr.v ===== *)
(** * Addresses (rpc/rpc.cc, rpc/connection.cc, lock_client_cache_rsm.cc)

    The order of socket addresses, [make_sockaddr], the socket a server
    listens on, and the name under which a caching lock client can be called
    back.  A [char *] argument is a list of characters without the NUL that
    ends it; a local array is its list of cells, with undefined behaviour
    outside of them.  The resolver functions of the C library are parameters. *)

From S2P Require Import Prelude Streams.

(** The three fields of [sockaddr_in] the code uses; address and port are in
    network order. *)
Record sockaddr_in := SockaddrIn { sin_family : Z; sin_port : Z; s_addr : Z }.

#[export] Instance sockaddr_in_eq_dec : EqDecision sockaddr_in.
Proof. solve_decision. Defined.

Definition AF_INET : Z := 2.
Definition INADDR_NONE : Z := 2 ^ 32 - 1.

(** [operator<]. *)
Definition sockaddr_ltb (a b : sockaddr_in) : bool :=
  (s_addr a <? s_addr b) || ((s_addr a =? s_addr b) && (sin_port a <? sin_port b)).

(** ** The C library *)

Definition NUL : ascii := "000"%char.
Definition colon : ascii := ":"%char.

(** [s.c_str()]: the string up to its first NUL. *)
Definition c_str (s : string) : list ascii := (span (λ c, negb (bool_decide (c = NUL))) (chars s)).1.

(** [index(s, c)]. *)
Fixpoint index_of (s : list ascii) (c : ascii) : option nat :=
  match s with
  | [] => None
  | d :: s => if decide (d = c) then Some O else S <$> index_of s c
  end.

(** [memcpy(a + off, l, length l)] into an array. *)
Definition array_write (a : list ascii) (off : nat) (l : list ascii) : res (list ascii) :=
  if (off + length l <=? length a)%nat then Ret (take off a ++ l ++ drop (off + length l) a)
  else Fail UndefinedBehaviour.

(** The C string an array holds. *)
Definition array_str (a : list ascii) : res (list ascii) :=
  let '(s, r) := span (λ c, negb (bool_decide (c = NUL))) a in
  if at_end r then Fail UndefinedBehaviour else Ret s.

(** [atoi]: undefined where the number is not an [int]. *)
Definition atoi (s : list ascii) : res Z :=
  let s := skip_space s in
  let '(neg, s) :=
    match s with
    | c :: s' => if decide (c = "-"%char) then (true, s')
                 else if decide (c = "+"%char) then (false, s') else (false, s)
    | [] => (false, [])
    end in
  let v := digits_value (span is_digit s).1 in
  let v := if neg : bool then - v else v in
  if decide (in_s32 v) then Ret v else Fail UndefinedBehaviour.

(** [htons] on a little-endian machine; its argument is converted to 16 bits.
    [ntohs] is the same function. *)
Definition htons (x : Z) : Z := Z.lor (Z.shiftl (Z.land (u16 x) 255) 8) (Z.shiftr (u16 x) 8).
Definition ntohs : Z → Z := htons.

(** ** [make_sockaddr] *)

Section resolver.
(** [inet_addr], and [gethostbyname] with the length and the address of its
    answer. *)
Context (inet_addr : list ascii → Z) (gethostbyname : list ascii → option (Z * Z)).

Definition make_sockaddr_host (host port : list ascii) : res sockaddr_in :=
  let a := inet_addr host in
  a ← (if negb (a =? INADDR_NONE) then Ret a else
       match gethostbyname host with
       | None => Fail Exited
       | Some (h_length, h_addr) => if negb (h_length =? 4) then Fail Exited else Ret h_addr
       end);
  p ← atoi port;
  Ret (SockaddrIn AF_INET (htons p) a).

Definition localhost : list ascii := chars "127.0.0.1".

(** [junk]: what the array [host] holds before it is written. *)
Definition make_sockaddr (junk : ascii) (hostandport : list ascii) : res sockaddr_in :=
  let host := replicate 200 junk in
  '(host, port) ←
    match index_of hostandport colon with
    | None => host ← array_write host 0 (localhost ++ [NUL]); Ret (host, hostandport)
    | Some n =>
        host ← array_write host 0 (take n hostandport);
        host ← array_write host n [NUL];
        Ret (host, drop (n + 1) hostandport)
    end;
  host ← array_str host;
  make_sockaddr_host host port.
End resolver.

(** ** The socket of a server *)

(** What the system calls of [tcpsconn]'s constructor return: the descriptor
    of [socket], [bind], [listen], [getsockname] with the port it stores, and
    [pipe]. *)
Record listen_os := ListenOs {
  lo_socket : Z; lo_bind : sockaddr_in → Z; lo_listen : Z;
  lo_getsockname : Z * Z; lo_pipe : Z; lo_thread : Z }.

(** [tcpsconn::tcpsconn]: the port it listens on. *)
Definition tcpsconn_new (os : listen_os) (port : Z) : res Z :=
  let sin := SockaddrIn AF_INET (htons port) 0 in
  VERIFY (negb (lo_socket os <? 0));;
  VERIFY (negb (lo_bind os sin <? 0));;
  VERIFY (negb (lo_listen os <? 0));;
  VERIFY ((lo_getsockname os).1 =? 0);;
  let port_ := ntohs (lo_getsockname os).2 in
  VERIFY (negb (lo_pipe os <? 0));;
  VERIFY (negb (lo_thread os =? 0));;
  Ret port_.

(** ** The name of a lock client *)

(** [rlock_port] of lock_client_cache_rsm's constructor, from [rand()]. *)
Definition rlock_port (rand : Z) : Z := Z.lor (Z.rem rand 32000) (Z.shiftl 1 10).

(** [id]: where the server calls back. *)
Definition client_id (port : Z) : string := of_chars (localhost ++ [colon] ++ show_unsigned port).

(** ** The order *)

#[export] Instance sockaddr_ltb_strict : StrictOrder (λ a b, sockaddr_ltb a b = true).
Proof.
  split; [intros a|intros a b c]; unfold complement, sockaddr_ltb; lia.
Qed.

Lemma sockaddr_ltb_total a b :
  sin_family a = sin_family b → sockaddr_ltb a b = true ∨ a = b ∨ sockaddr_ltb b a = true.
Proof.
  destruct a as [f p x], b as [f' p' x']; unfold sockaddr_ltb; cbn. intros ->.
  destruct (decide (x = x')) as [->|]; [|lia]. destruct (decide (p = p')) as [->|]; [auto|lia].
Qed.

(** ** Parsing *)

Lemma htons_value x : htons x = (x mod 256) * 256 + (x / 256) mod 256.
Proof.
  unfold htons. rewrite land_255, (Z.shiftr_div_pow2 _ 8), lor_shiftl_add by (try lia; wrap_lia). wrap_lia.
Qed.

Lemma ntohs_htons x : ntohs (htons x) = u16 x.
Proof. unfold ntohs. rewrite !htons_value. wrap_lia. Qed.

Lemma htons_inj x y : in_u16 x → in_u16 y → htons x = htons y → x = y.
Proof.
  intros Hx Hy E. apply (f_equal ntohs) in E. by rewrite !ntohs_htons, !u16_id in E.
Qed.

Lemma atoi_show x : 0 ≤ x < 2 ^ 31 → atoi (show_unsigned x) = Ret x.
Proof.
  intros Hx. destruct (show_unsigned_spec x) as (Hd & Hne & Hv); [lia|].
  pose proof (show_unsigned_word x ltac:(lia)) as Hw. unfold atoi.
  rewrite skip_space_solid by (rewrite <- (app_nil_r (show_unsigned x)); by apply word_starts).
  destruct (show_unsigned x) as [|c s] eqn:E; [done|]. pose proof (proj1 (proj1 (Forall_cons _ _ _) Hd)) as Hc.
  rewrite !decide_False by (intros ->; done). cbn [fst snd].
  rewrite <- (app_nil_r (c :: s)), span_app by done. cbn [fst]. rewrite Hv.
  rewrite decide_True by wrap_lia. done.
Qed.

Lemma index_of_app h c r : c ∉ h → index_of (h ++ c :: r) c = Some (length h).
Proof.
  induction h as [|d h IH]; cbn; intros Hn; [by rewrite decide_True|].
  apply not_elem_of_cons in Hn as [Hd Hn]. by rewrite decide_False, IH by congruence.
Qed.

Lemma index_of_none h c : c ∉ h → index_of h c = None.
Proof.
  induction h as [|d h IH]; cbn; intros Hn; [done|].
  apply not_elem_of_cons in Hn as [Hd Hn]. by rewrite decide_False, IH by congruence.
Qed.

Lemma array_str_app s r : NUL ∉ s → array_str (s ++ NUL :: r) = Ret s.
Proof.
  intros Hs. unfold array_str. rewrite span_app; [done| |by rewrite bool_decide_eq_true_2].
  apply Forall_forall. intros c Hc. rewrite bool_decide_eq_false_2; [done|]. by intros ->.
Qed.

Lemma array_write_end a s l :
  (length s + length l <= length a)%nat →
  rbind (array_write a 0 s) (λ a, array_write a (length s) l) = array_write a 0 (s ++ l).
Proof.
  intros Hlen. unfold array_write at 1 3. rewrite length_app. cbn [Nat.add].
  rewrite !(proj2 (Nat.leb_le _ _)) by lia. cbn [rbind take app]. unfold array_write.
  change (take 0 a) with (@nil ascii). cbn [app].
  rewrite length_app, length_drop, (proj2 (Nat.leb_le _ _)) by lia.
  rewrite take_app_length, drop_app, drop_ge, drop_drop by lia. cbn [app].
  rewrite <- (assoc_L (++)). do 4 f_equal. lia.
Qed.

Section parsing.
Context (inet_addr : list ascii → Z) (gethostbyname : list ascii → option (Z * Z)) (junk : ascii).

Definition host_ok (h : list ascii) : Prop := (colon ∉ h) ∧ (NUL ∉ h).

(** A host that fits the array is taken as it is, and one that does not
    overflows it. *)
Lemma make_sockaddr_split h port : host_ok h →
  make_sockaddr inet_addr gethostbyname junk (h ++ colon :: port) =
  if (length h <? 200)%nat then make_sockaddr_host inet_addr gethostbyname h port else Fail UndefinedBehaviour.
Proof.
  intros [Hc Hn]. unfold make_sockaddr. rewrite index_of_app by done.
  rewrite take_app_length, <- (Nat.add_0_r (length h)), Nat.add_0_r.
  rewrite drop_app, drop_ge, Nat.add_comm, Nat.add_sub by lia. cbn [app drop].
  destruct (Nat.ltb_spec (length h) 200) as [Hlt|Hge].
  - pose proof (array_write_end (replicate 200 junk) h [NUL]) as E. cbn [length] in E.
    rewrite length_replicate in E. specialize (E ltac:(lia)).
    destruct (array_write (replicate 200 junk) 0 h) as [a|] eqn:E1.
    + cbn [rbind] in E |- *. rewrite E. unfold array_write. rewrite length_app, length_replicate. cbn [length Nat.add].
      rewrite (proj2 (Nat.leb_le _ _)) by lia. cbn [rbind]. rewrite take_0, <- (assoc_L (++)).
      cbn [app]. by rewrite array_str_app.
    + exfalso. unfold array_write in E1. rewrite length_replicate, (proj2 (Nat.leb_le _ _)) in E1 by (cbn; lia). done.
  - unfold array_write at 1. rewrite length_replicate. cbn [Nat.add].
    destruct (Nat.leb_spec (length h) 200) as [Hle|]; [|done]. assert (length h = 200%nat) as -> by lia.
    cbn [rbind]. unfold array_write. rewrite take_0, !length_app, length_drop, length_replicate.
    by replace (_ <=? _)%nat with false by (symmetry; apply Nat.leb_gt; cbn; lia).
Qed.

(** Without a colon the whole argument is the port, of this machine. *)
Lemma make_sockaddr_port port : colon ∉ port →
  make_sockaddr inet_addr gethostbyname junk port = make_sockaddr_host inet_addr gethostbyname localhost port.
Proof. intros Hc. unfold make_sockaddr. by rewrite index_of_none. Qed.

Lemma make_sockaddr_host_known h a p :
  inet_addr h = a → a ≠ INADDR_NONE → 0 ≤ p < 2 ^ 31 →
  make_sockaddr_host inet_addr gethostbyname h (show_unsigned p) = Ret (SockaddrIn AF_INET (htons p) a).
Proof.
  intros Ea Ha Hp. unfold make_sockaddr_host. rewrite Ea, atoi_show by done.
  by rewrite (proj2 (Z.eqb_neq _ _)) by done.
Qed.
End parsing.

Lemma rlock_port_range rand : 0 ≤ rand → 1024 ≤ rlock_port rand < 2 ^ 15.
Proof.
  intros Hr. unfold rlock_port. pose proof (Z.rem_bound_pos rand 32000 Hr ltac:(lia)) as Hm.
  set (x := Z.rem rand 32000) in *. change (Z.shiftl 1 10) with 1024. split.
  - pose proof (Z.lor_nonneg x 1024). apply Z.ldiff_le; [lia|]. apply Z.bits_inj'. intros i Hi. rewrite Z.ldiff_spec, Z.lor_spec, Z.bits_0.
    destruct (Z.testbit x i), (Z.testbit 1024 i); done.
  - apply (Z.log2_lt_cancel (Z.lor x 1024)). change (Z.log2 (2 ^ 15)) with 15.
    rewrite Z.log2_lor by lia. apply Z.max_lub_lt; [|reflexivity].
    destruct (decide (x = 0)) as [->|]; [reflexivity|]. apply Z.log2_lt_pow2; lia.
Qed.

Lemma localhost_ok : host_ok localhost.
Proof. split; refine (bool_decide_unpack _ _); vm_compute; exact I. Qed.

Lemma digits_not_nul x : 0 ≤ x < 2 ^ 64 → NUL ∉ show_unsigned x.
Proof.
  intros Hx Hin. destruct (show_unsigned_spec x Hx) as (Hd & _). rewrite Forall_forall in Hd.
  specialize (Hd _ Hin). done.
Qed.

Lemma c_str_whole l : NUL ∉ l → c_str (of_chars l) = l.
Proof.
  intros Hn. unfold c_str. rewrite chars_of_chars. rewrite <- (app_nil_r l) at 1. rewrite span_app; [done| |done].
  apply Forall_forall. intros c Hc. rewrite bool_decide_eq_false_2; [done|]. by intros ->.
Qed.

Lemma c_str_client_id p : 0 ≤ p < 2 ^ 64 → c_str (client_id p) = localhost ++ colon :: show_unsigned p.
Proof.
  intros Hp. apply c_str_whole. rewrite not_elem_of_app, not_elem_of_cons.
  split_and!; [apply localhost_ok|done|by apply digits_not_nul].
Qed.

(** C39: How long a host name may be.  [make_sockaddr] copies what stands
    before the colon into an array of 200 characters without looking at its
    length.  With at most 199 characters it hands host and port on unchanged,
    and an address in dotted form gets that address and the port in network
    order; with 200 characters or more it writes past the array. *)
Theorem make_sockaddr_host_bound inet_addr gethostbyname junk h p :
  host_ok h → 0 ≤ p < 2 ^ 31 →
  let dst := make_sockaddr inet_addr gethostbyname junk (h ++ colon :: show_unsigned p) in
  ((length h < 200)%nat →
    dst = make_sockaddr_host inet_addr gethostbyname h (show_unsigned p) ∧
    (inet_addr h ≠ INADDR_NONE → dst = Ret (SockaddrIn AF_INET (htons p) (inet_addr h)))) ∧
  ((200 <= length h)%nat → dst = Fail UndefinedBehaviour).
Proof.
  intros Hh Hp dst. subst dst. rewrite make_sockaddr_split by done. split; intros Hlen.
  - rewrite (proj2 (Nat.ltb_lt _ _)) by lia. split; [done|]. intros Ha. by apply make_sockaddr_host_known.
  - by rewrite (proj2 (Nat.ltb_ge _ _)) by lia.
Qed.

(** 127.0.0.1 in network order, as [inet_addr] returns it. *)
Definition demo_inet_addr (h : list ascii) : Z := if decide (h = localhost) then 16777343 else INADDR_NONE.

Lemma make_sockaddr_host_bound_witness :
  make_sockaddr demo_inet_addr (λ _, None) NUL (localhost ++ colon :: show_unsigned 3772)
    = Ret (SockaddrIn AF_INET 48142 16777343) ∧
  make_sockaddr demo_inet_addr (λ _, None) NUL (replicate 200 "a"%char ++ colon :: show_unsigned 3772)
    = Fail UndefinedBehaviour.
Proof.
  split.
  - destruct (make_sockaddr_host_bound demo_inet_addr (λ _, None) NUL localhost 3772 localhost_ok ltac:(lia)) as [H _].
    apply H; [cbn; lia|]. vm_compute. done.
  - apply (make_sockaddr_host_bound demo_inet_addr (λ _, None) NUL (replicate 200 "a"%char) 3772); [|lia|cbn; lia].
    split; refine (bool_decide_unpack _ _); vm_compute; exact I.
Defined.

(** A lock client can be called back.  The client takes a port at
    random, opens its server there and sends "127.0.0.1:port" with its
    requests; the port is one an ordinary user may bind, the listener ends up
    on it, and the name it sent is parsed by the lock server to exactly that
    address and port.  Clients on different ports have different names. *)
Theorem client_id_is_dialled inet_addr gethostbyname junk rand os port :
  0 ≤ rand → inet_addr localhost ≠ INADDR_NONE →
  (lo_getsockname os).2 = htons (rlock_port rand) → tcpsconn_new os (rlock_port rand) = Ret port →
  port = rlock_port rand ∧ 1024 ≤ port < 2 ^ 16 ∧
  make_sockaddr inet_addr gethostbyname junk (c_str (client_id port))
    = Ret (SockaddrIn AF_INET (htons port) (inet_addr localhost)) ∧
  ∀ port', in_u16 port' → client_id port' = client_id port → port' = port.
Proof.
  intros Hr Ha Hname Hnew. pose proof (rlock_port_range rand Hr) as Hp.
  assert (port = rlock_port rand) as ->.
  { unfold tcpsconn_new in Hnew. do 6 (apply rbind_Ret in Hnew as ([] & _ & Hnew)). injection Hnew as <-.
    rewrite Hname, ntohs_htons, u16_id; [done|wrap_lia]. }
  split_and!; [done|lia|lia| |].
  - rewrite c_str_client_id, make_sockaddr_split by (apply localhost_ok || lia). by apply make_sockaddr_host_known; lia.
  - intros q Hq E. apply (f_equal c_str) in E. rewrite !c_str_client_id in E by (wrap_unfold; lia).
    apply (inj (app localhost)) in E. injection E as E. apply (f_equal atoi) in E.
    rewrite !atoi_show in E by (wrap_unfold; lia). congruence.
Qed.

Lemma client_id_is_dialled_witness :
  let os := ListenOs 3 (λ _, 0) 0 (0, htons (rlock_port 77)) 0 1 in
  tcpsconn_new os (rlock_port 77) = Ret 1101 ∧
  make_sockaddr demo_inet_addr (λ _, None) NUL (c_str (client_id 1101)) = Ret (SockaddrIn AF_INET (htons 1101) 16777343).
Proof.
  intros os. split; [reflexivity|].
  destruct (client_id_is_dialled demo_inet_addr (λ _, None) NUL 77 os 1101) as (_ & _ & H & _); [lia|done|done|done|].
  exact H.
Defined.
