(* ===== verification/RpcTest.v ===== *)
(** * The test of the RPC library (rpc/rpctest.cc)

    The handlers and the server of the test, the options, and the calls of
    [simple_tests] and [failure_test] with every check; the threads, and what
    RPC_LOSSY does, are in RpcTestThreads.v.  The calls of the main
    thread are written over any transport; the class [SrvCalls] is what they
    rely on, and a session with the started server is an instance.  Random
    numbers and clock readings are arguments. *)

From S2P Require Import Prelude Marshall Protocols Stubs Connection RpcServer ThrPool RpcClient Endpoint Session Sockaddr.

(** ** The handlers *)

(** The object [service] has no fields. *)
Abbreviation srv := unit.

Definition handle_22 (a b : string) (_ : string) (o : srv) : res (Z * string * srv) := Ret (0, a +:+ b, o).

(** [a + 1] and [a + 2] are sums of [int]. *)
Definition int_add (a b : Z) : res Z := if decide (in_s32 (a + b)) then Ret (a + b) else Fail UndefinedBehaviour.
Definition handle_fast (a : int) (_ : int) (o : srv) : res (Z * int * srv) := r ← int_add a 1; Ret (0, r : int, o).
Definition handle_slow (a : int) (_ : int) (o : srv) : res (Z * int * srv) := r ← int_add a 2; Ret (0, r : int, o).

(** [std::string(len, 'x')]: a negative length is a huge one, and the
    exception is not caught. *)
Definition xs (len : Z) : string := of_chars (replicate (Z.to_nat len) "x"%char).
Definition handle_bigrep (len : int) (_ : string) (o : srv) : res (Z * string * srv) :=
  if len <? 0 then Fail Exited else Ret (0, xs len, o).

Definition startserver (random count : Z) : res (endpoint srv) :=
  e ← endpoint_new random count ();
  s ← reg1 (ep_srv e) 22 (rpcs_reg2 handle_22);
  s ← reg1 s 23 (rpcs_reg1 handle_fast);
  s ← reg1 s 24 (rpcs_reg1 handle_slow);
  s ← reg1 s 25 (rpcs_reg1 handle_bigrep);
  Ret (set_srv s e).

(** ** [testmarshall] *)

Definition testmarshall (fill : ascii) : res () :=
  let rh := ReqHeader 1 2 3 4 5 in
  m ← m_pack_req_header (marshall_new fill) rh;
  VERIFY (m_ind m =? RPC_HEADER_SZ);;
  let i : int := 12345 in let l : ullong := 1223344455 in let s : string := "hallo...." in
  m ← put m i;
  m ← put m l;
  m ← put m s;
  let '((b, sz), _) := m_take_buf m in
  VERIFY (sz =? RPC_HEADER_SZ + sizeof_int + 8 + string_size s + sizeof_int);;
  match b with
  | None => Fail UndefinedBehaviour
  | Some b =>
      '(rh1, un) ← u_unpack_req_header (unmarshall_buf b sz);
      VERIFY (bool_decide ((rq_xid rh, rq_proc rh, rq_clt_nonce rh, rq_srv_nonce rh, rq_xid_rep rh) =
        (rq_xid rh1, rq_proc rh1, rq_clt_nonce rh1, rq_srv_nonce rh1, rq_xid_rep rh1)));;
      '(i1, un) ← get (A:=int) un 0;
      '(l1, un) ← get (A:=ullong) un 0;
      '(s1, un) ← get (A:=string) un "";
      VERIFY (okdone un);;
      VERIFY ((i1 =? i) && (l1 =? l) && bool_decide (s1 = s))
  end.

(** ** The clients *)

Section clients.
Context {T : Type} (fill : ascii) (call1 : Z → marshall → T → res (Z * unmarshall * T)).

Definition call_22 (a b rep : string) (t : T) : res (Z * string * T) := rpcc_call2 (R:=string) fill call1 22 a b rep t.
Definition call_int (proc : Z) (a : int) (rep : int) (t : T) : res (Z * int * T) := rpcc_call1 (R:=int) fill call1 proc a rep t.
Definition call_25 (a : int) (rep : string) (t : T) : res (Z * string * T) := rpcc_call1 (R:=string) fill call1 25 a rep t.

(** A [bind] that gets no answer: [ts] are the turns of the loop of [call1],
    in none of which the call is done. *)
Definition bind_unanswered (random lossy to : Z) (now : timespec) (ts : list turn) : res Z :=
  m ← put (A:=int) (marshall_new fill) 0;
  '(b, c) ← call1_begin (rpcc_new random lossy true) rpc_const.bind m;
  match b with
  | BeginError ret => Ret ret
  | BeginOk xid req xid_rep =>
      pdu ← m_pdu req;
      '(r, _) ← call1_wait true now to ts;
      match r with
      | None => Fail UndefinedBehaviour
      | Some _ => '(ret, _, _) ← call1_end c xid xid_rep pdu; Ret ret
      end
  end.

(** [simple_tests]; [random], [lossy], [now] and [ts] belong to the [bind] to
    a port nobody listens on, [t0] and [t1] are the times around it. *)
Definition simple_tests (random lossy : Z) (now : timespec) (ts : list turn) (t0 t1 : Z) (t : T) : res T :=
  '(intret, rep, t) ← call_22 "hello" " goodbye" "" t;
  VERIFY (intret =? 0);;
  VERIFY (bool_decide (rep = "hello goodbye"));;
  '(intret, rep, t) ← call_25 70000 rep t;
  VERIFY (intret =? 0);;
  VERIFY (string_size rep =? 70000);;
  '(intret, xx, t) ← call_int 23 77 0 t;
  VERIFY ((intret =? 0) && (xx =? 78));;
  '(_, rep', t) ← call_22 (xs 1000) "x" "" t;
  VERIFY (string_size rep' =? 1001);;
  '(intret, rep, t) ← call_22 (xs 1000000) "z" rep t;
  VERIFY (string_size rep =? 1000001);;
  intret ← bind_unanswered random lossy 3000 now ts;
  VERIFY ((intret <? 0) && (t1 - t0 <=? 4));;
  Ret t.
End clients.

(** ** What the clients rely on *)

(** [ok n t]: [n] more calls can be made. *)
Class SrvCalls {T : Type} (fill : ascii) (call1 : Z → marshall → T → res (Z * unmarshall * T)) (ok : nat → T → Prop) := {
  sc_22 n a b r t : ok (S n) t → string_size a + string_size b ≤ 10 ^ 7 →
    ∃ t', call_22 fill call1 a b r t = Ret (0, a +:+ b, t') ∧ ok n t';
  sc_fast n (a : int) r t : ok (S n) t → in_s32 a → in_s32 (a + 1) →
    ∃ t', call_int fill call1 23 a r t = Ret (0, a + 1, t') ∧ ok n t';
  sc_slow n (a : int) r t : ok (S n) t → in_s32 a → in_s32 (a + 2) →
    ∃ t', call_int fill call1 24 a r t = Ret (0, a + 2, t') ∧ ok n t';
  sc_bigrep n (a : int) r t : ok (S n) t → 0 ≤ a ≤ 10 ^ 7 →
    ∃ t', call_25 fill call1 a r t = Ret (0, xs a, t') ∧ ok n t' }.

Lemma string_size_xs n : 0 ≤ n → string_size (xs n) = n.
Proof. intros H. unfold string_size, xs. rewrite length_of_chars, length_replicate. lia. Qed.

Lemma string_size_app a b : string_size (a +:+ b) = string_size a + string_size b.
Proof. unfold string_size. rewrite <- !length_chars, chars_app, length_app. lia. Qed.

Lemma int_add_ok a b : in_s32 (a + b) → int_add a b = Ret (a + b).
Proof. intros H. unfold int_add. by rewrite decide_True. Qed.

(** A [bind] without an answer times out. *)
Lemma bind_unanswered_fails fill random lossy to now ts :
  0 ≤ to ≤ to_max → good_deadline now to → length ts = 9%nat → Forall (good_turn now) ts →
  bind_unanswered fill random lossy to now ts = Ret rpc_const.timeout_failure.
Proof.
  intros Hto Hns Hlen Hg. unfold bind_unanswered.
  destruct (put_ok (A:=int) (marshall_new fill) _ [] 0 (marshall_new_rep fill)) as (m & -> & Hrep); [done|done|]. cbn [rbind].
  set (hd := ReqHeader 1 rpc_const.bind (u32 random) 0 0).
  destruct (m_pack_req_header_rep m _ _ hd Hrep) as (m' & sz & E & _ & Hrep').
  set (c := Rpcc (u32 random) 0 false 2 lossy true false {[ 1 := Caller unmarshall_empty 0 false ]} [0] request_clear (-1)).
  assert (call1_begin (rpcc_new random lossy true) rpc_const.bind m = Ret (BeginOk 1 m' 0, c)) as ->.
  { transitivity (rbind (m_pack_req_header m hd) (λ req, Ret (BeginOk 1 req 0, c))); [reflexivity|by rewrite E]. }
  cbn [rbind]. rewrite (m_pdu_rep _ _ _ Hrep'). cbn [rbind].
  destruct (call1_wait_ends true now to ts Hto Hns Hlen Hg) as (e & sent & ->). reflexivity.
Qed.

(** A time-out of three seconds. *)
Lemma three_seconds now : 0 ≤ tv_nsec now < 1000000000 →
  good_deadline now 3000 ∧ add_timespec now 3000 = Ret (Timespec (tv_sec now + 3) (tv_nsec now)).
Proof.
  intros Hn. split; [split; [done|]; change (Z.rem 3000 1000) with 0; lia|]. unfold add_timespec.
  change (Z.quot 3000 1000) with 3. change (Z.rem 3000 1000) with 0. cbn [tv_nsec]. rewrite Z.mul_0_l, Z.add_0_r.
  rewrite VERIFY_true by lia. cbn [rbind]. by rewrite Z.div_small by lia.
Qed.

(** The inputs of a [bind] that nobody answers. *)
Definition bind_env_ok (now : timespec) (ts : list turn) : Prop :=
  0 ≤ tv_nsec now < 1000000000 ∧ length ts = 9%nat ∧ Forall (good_turn now) ts.

(** The clock of the test shows the second in which the [bind] starts, and
    the [bind] is back less than a second after its deadline. *)
Definition bind_times (now : timespec) (t0 t1 : Z) : Prop :=
  t0 = tv_sec now ∧ ∃ deadline, add_timespec now 3000 = Ret deadline ∧ t1 ≤ tv_sec deadline + 1.

Section passes.
Context {T : Type} (fill : ascii) (call1 : Z → marshall → T → res (Z * unmarshall * T)) (ok : nat → T → Prop).
Context `{!SrvCalls fill call1 ok}.

Lemma simple_tests_ok random lossy now ts t0 t1 n t :
  bind_env_ok now ts → bind_times now t0 t1 → ok (5 + n) t →
  ∃ t', simple_tests fill call1 random lossy now ts t0 t1 t = Ret t' ∧ ok n t'.
Proof.
  intros (Hns & Hlen & Hg) (-> & d & Ed & Htime) Ht. destruct (three_seconds now Hns) as [Hd E3]. rewrite Ed in E3. injection E3 as ->.
  cbn [tv_sec] in Htime. unfold simple_tests. cbn [Nat.add] in Ht.
  pose proof (string_size_xs 1000 ltac:(lia)) as Hk. pose proof (string_size_xs 1000000 ltac:(lia)) as Hm.
  revert Hk Hm. generalize (xs 1000) (xs 1000000). intros sk sm Hk Hm.
  destruct (sc_22 _ "hello" " goodbye" "" t Ht ltac:(done)) as (s1 & -> & H1). cbn [rbind VERIFY Z.eqb]. rewrite bool_decide_eq_true_2 by done.
  cbn [rbind VERIFY].
  destruct (sc_bigrep _ 70000 ("hello" +:+ " goodbye") s1 H1 ltac:(lia)) as (s2 & -> & H2).
  pose proof (string_size_xs 70000 ltac:(lia)) as Hb. revert Hb. generalize (xs 70000). intros sb Hb.
  cbn [rbind VERIFY Z.eqb]. rewrite Hb, Z.eqb_refl. cbn [rbind VERIFY].
  destruct (sc_fast _ 77 0 s2 H2) as (s3 & -> & H3); [done|done|]. cbn [rbind]. rewrite VERIFY_true by done. cbn [rbind].
  destruct (sc_22 _ sk "x" "" s3 H3) as (s4 & -> & H4); [by rewrite Hk|]. cbn [rbind].
  rewrite string_size_app, Hk, VERIFY_true by done. cbn [rbind].
  destruct (sc_22 _ sm "z" sb s4 H4) as (s5 & -> & H5); [by rewrite Hm|]. cbn [rbind].
  rewrite string_size_app, Hm, VERIFY_true by done. cbn [rbind].
  rewrite bind_unanswered_fails by (done || unfold to_max; lia). cbn [rbind]. rewrite VERIFY_true by (unfold rpc_const.timeout_failure; lia).
  by exists s5.
Qed.
End passes.

(** ** A session provides it *)

Definition srv_procs (s : rpcs srv) : Prop :=
  rs_procs s !! 22 = Some (rpcs_reg2 handle_22) ∧ rs_procs s !! 23 = Some (rpcs_reg1 handle_fast) ∧
  rs_procs s !! 24 = Some (rpcs_reg1 handle_slow) ∧ rs_procs s !! 25 = Some (rpcs_reg1 handle_bigrep).

Lemma startserver_ok random count :
  ∃ e, startserver random count = Ret e ∧ started random () e ∧ srv_procs (ep_srv e).
Proof.
  unfold startserver.
  destruct (endpoint_started random count ()) as (e & -> & H0 & E0). cbn [rbind].
  destruct (started_reg _ _ e 22 (rpcs_reg2 handle_22) H0) as (s1 & -> & H1 & E1).
  { rewrite E0. by rewrite lookup_singleton_ne. } cbn [rbind].
  destruct (started_reg _ _ _ 23 (rpcs_reg1 handle_fast) H1) as (s2 & E & H2 & E2).
  { cbn [set_srv ep_srv]. rewrite E1, E0. by rewrite lookup_insert_ne, lookup_singleton_ne. }
  cbn [set_srv ep_srv ep_listen ep_jobs ep_pool] in *. rewrite E. clear E. cbn [rbind].
  destruct (started_reg _ _ _ 24 (rpcs_reg1 handle_slow) H2) as (s3 & E & H3 & E3).
  { cbn [set_srv ep_srv]. rewrite E2, E1, E0. by rewrite !lookup_insert_ne, lookup_singleton_ne. }
  cbn [set_srv ep_srv ep_listen ep_jobs ep_pool] in *. rewrite E. clear E. cbn [rbind].
  destruct (started_reg _ _ _ 25 (rpcs_reg1 handle_bigrep) H3) as (s4 & E & H4 & E4).
  { cbn [set_srv ep_srv]. rewrite E3, E2, E1, E0. by rewrite !lookup_insert_ne, lookup_singleton_ne. }
  cbn [set_srv ep_srv ep_listen ep_jobs ep_pool] in *. rewrite E. clear E. cbn [rbind].
  eexists. split; [done|]. split; [done|]. unfold srv_procs. cbn [set_srv ep_srv]. rewrite E4, E3, E2, E1.
  split_and!; repeat (rewrite lookup_insert_ne by done); by rewrite lookup_insert_eq.
Qed.

Section session_calls.
Context (fill fill' : ascii) (k j : nat) (nonce : Z).

(** A session with room for [n] more calls. *)
Definition session_ok (n : nat) (t : rpcc * endpoint srv) : Prop :=
  ∃ x, session k j x t ∧ x + Z.of_nat n < 2 ^ 31 ∧ srv_procs (ep_srv t.2) ∧ rs_nonce (ep_srv t.2) = nonce.

Lemma srv_procs_same s s' : same_setup s s' → srv_procs s → srv_procs s'.
Proof. intros (_ & E & _). unfold srv_procs. by rewrite E. Qed.

Lemma call_ok {A R} `{MarshalOk A} `{MarshalOk R} n t proc (a : A) (r0 r : R) f :
  session_ok (S n) t → proc ≠ rpc_const.bind → 0 ≤ proc < 2 ^ 31 → (srv_procs (ep_srv t.2) → rs_procs (ep_srv t.2) !! proc = Some f) →
  wf a → transported (enc a) → serves fill f () a 0 r () → wf r → transported (enc r) →
  ∃ t', rpcc_call1 fill' (remote_call1 fill k j) proc a r0 t = Ret (0, r, t') ∧ session_ok n t'.
Proof.
  intros (x & Hs & Hx & Hp & En) Hb Hr Hf Ha Hfa Hser Hwr Hfr.
  destruct (session_call fill fill' k j x t proc a r0 f 0 r () Hs) as (t' & E & Eo & Hsame & Hs');
    [lia|done|done|by apply Hf|done|done| |by split; [| |apply transported_fits]|done|].
  { by destruct (rs_obj (ep_srv t.2)). }
  exists t'. split; [exact E|]. exists (x + 1). split_and!; [exact Hs'|lia|by eapply srv_procs_same|].
  by destruct Hsame as (-> & _).
Qed.

Lemma string_enc_fits s : string_size s < 2 ^ 29 → wf s ∧ fits (enc s).
Proof.
  intros Hs. split; [unfold wf; cbn -[Z.pow]; lia|]. unfold fits. cbn [enc string_ok]. pose proof hdr_sz.
  rewrite length_app, length_be32, length_chars. unfold string_size in Hs. lia.
Qed.

Lemma string_transported s : string_size s ≤ 10 ^ 7 → wf s ∧ transported (enc s).
Proof.
  intros Hs. split; [apply string_enc_fits; lia|]. unfold transported. rewrite MAX_PDU_val. cbn [enc string_ok]. pose proof hdr_sz.
  rewrite length_app, length_be32, length_chars. unfold string_size in Hs. lia.
Qed.

Lemma strings_transported a b :
  string_size a + string_size b ≤ 10 ^ 7 →
  wf (A:=string * string) (@pair string string a b) ∧ transported (enc (A:=string * string) (@pair string string a b)).
Proof.
  intros Hs. destruct (string_transported a) as [Ha _]; [unfold string_size in *; lia|].
  destruct (string_transported b) as [Hb _]; [unfold string_size in *; lia|]. split; [done|].
  unfold transported. rewrite MAX_PDU_val. cbn [enc pair_ok string_ok fst snd]. pose proof hdr_sz.
  rewrite !length_app, !length_be32, !length_chars. unfold string_size in Hs. lia.
Qed.

#[export] Instance session_srv_calls : SrvCalls fill' (remote_call1 fill k j) session_ok.
Proof.
  split.
  - intros n a b r t Ht Hsz. unfold call_22. rewrite rpcc_call2_tuple.
    destruct (strings_transported a b Hsz) as [Hw Hf].
    destruct (string_transported (a +:+ b)) as [Hw' Hf']; [by rewrite string_size_app|].
    eapply (call_ok (A:=string * string) n t 22 (@pair string string a b) r (a +:+ b) (rpcs_reg2 handle_22));
      [done|done|done|by intros []|done|done| |done|done].
    + apply reg2_serves; [apply Hw|apply Hw|done].
  - intros n a r t Ht Ha Ha1.
    eapply (call_ok (A:=int) (R:=int) n t 23 a r (a + 1) (rpcs_reg1 handle_fast)); [done|done|done|by intros (? & ? & ?)|done|apply transported_int| |done|apply transported_int].
    apply reg1_serves; [done|]. unfold handle_fast. by rewrite int_add_ok.
  - intros n a r t Ht Ha Ha2.
    eapply (call_ok (A:=int) (R:=int) n t 24 a r (a + 2) (rpcs_reg1 handle_slow)); [done|done|done|by intros (? & ? & ? & ?)|done|apply transported_int| |done|apply transported_int].
    apply reg1_serves; [done|]. unfold handle_slow. by rewrite int_add_ok.
  - intros n a r t Ht Ha. destruct (string_transported (xs a)) as [Hw Hf]; [rewrite string_size_xs; lia|].
    eapply (call_ok (A:=int) (R:=string) n t 25 a r (xs a) (rpcs_reg1 handle_bigrep)); [done|done|done|by intros (? & ? & ? & ?)| |apply transported_int| |done|done].
    + cbn. wrap_unfold. lia.
    + apply reg1_serves; [cbn; wrap_unfold; lia|]. unfold handle_bigrep. by rewrite (proj2 (Z.ltb_ge _ _)) by lia.
Qed.
End session_calls.

(** ** The whole test *)

Section main.
Context (fill fill' : ascii) (j : nat).

(** A server and a client that are started anew: the nonces, the descriptor
    and the time of the connection. *)
Record fresh := Fresh { fr_srandom : Z; fr_count : Z; fr_random : Z; fr_fd : Z; fr_time : Z * Z }.

(** What the environment does during [failure_test]: the [bind] to the server
    that was deleted, the connection the old client gets to the new server,
    and the two replacements. *)
Record failure_env := FailureEnv {
  fe_random : Z; fe_now : timespec; fe_turns : list turn; fe_old_fd : Z; fe_old_time : Z * Z;
  fe_first : fresh; fe_second : fresh }.

(** The calls of [failure_test], without its threads and with a client for
    which no packet is lost: the result are the two pairs of a client and a
    server on which the threads run. *)
Definition failure_test (k0 k : nat) (v : failure_env) (client : rpcc)
    : res ((rpcc * endpoint srv) * (rpcc * endpoint srv)) :=
  ret ← bind_unanswered fill' (fe_random v) 0 3000 (fe_now v) (fe_turns v);
  VERIFY (ret <? 0);;
  let f := fe_first v in
  e ← startserver (fr_srandom f) (fr_count f);
  r ← process_accept (Some (fe_old_fd v)) k0 (fe_old_time v) e;
  '(intret, rep, (_, e)) ← call_22 fill' (remote_call1 fill k0 j) "hello" " goodbye" "" (client, default e r);
  VERIFY (intret =? rpc_const.oldsrv_failure);;
  r ← process_accept (Some (fr_fd f)) k (fr_time f) e;
  '(ret, t) ← rpcc_bind fill fill' k j (rpcc_new (fr_random f) 0 true, default e r);
  VERIFY (0 <=? ret);;
  '(ret, t) ← rpcc_bind fill fill' k j t;
  VERIFY (ret <? 0);;
  '(intret, rep, t) ← call_22 fill' (remote_call1 fill k j) "hello" " goodbye" rep t;
  VERIFY (intret =? 0);;
  VERIFY (bool_decide (rep = "hello goodbye"));;
  let f := fe_second v in
  e ← startserver (fr_srandom f) (fr_count f);
  r ← process_accept (Some (fr_fd f)) k (fr_time f) e;
  '(ret, t') ← rpcc_bind fill fill' k j (rpcc_new (fr_random f) 0 true, default e r);
  VERIFY (0 <=? ret);;
  Ret (t, t').

(** [clients[0] = new rpcc(dst); VERIFY(clients[0]->bind() == 0)]. *)
Definition new_client (k : nat) (f : fresh) (e : endpoint srv) : res (rpcc * endpoint srv) :=
  r ← process_accept (Some (fr_fd f)) k (fr_time f) e;
  '(ret, t) ← rpcc_bind fill fill' k j (rpcc_new (fr_random f) 0 true, default e r);
  VERIFY (ret =? 0);;
  Ret t.

(** The options of the command line, as [getopt] returns them. *)
Record options := Options { op_isclient : bool; op_isserver : bool; op_debug : Z; op_port : Z; op_lossy : bool }.

Fixpoint getopts (opts : list (ascii * list ascii)) (o : options) : res options :=
  match opts with
  | [] => Ret o
  | (ch, optarg) :: opts =>
      o ← (if bool_decide (ch = "c"%char) then Ret (Options true (op_isserver o) (op_debug o) (op_port o) (op_lossy o))
           else if bool_decide (ch = "s"%char) then Ret (Options (op_isclient o) true (op_debug o) (op_port o) (op_lossy o))
           else if bool_decide (ch = "d"%char) then
             n ← atoi optarg; Ret (Options (op_isclient o) (op_isserver o) n (op_port o) (op_lossy o))
           else if bool_decide (ch = "p"%char) then
             n ← atoi optarg; Ret (Options (op_isclient o) (op_isserver o) (op_debug o) n (op_lossy o))
           else if bool_decide (ch = "l"%char) then
             Ret (Options (op_isclient o) (op_isserver o) (op_debug o) (op_port o) true)
           else Ret o);
      getopts opts o
  end.

(** [main] up to the tests: without a role the process has both. *)
Definition rpctest_options (pid : Z) (opts : list (ascii * list ascii)) : res options :=
  o ← getopts opts (Options false false 0 (20000 + Z.rem pid 10000) false);
  Ret (if negb (op_isserver o) && negb (op_isclient o)
       then Options true true (op_debug o) (op_port o) (op_lossy o) else o).
End main.

Section main_ok.
Context (fill fill' : ascii) (j : nat).

(** A bound client refuses to bind again. *)
Lemma rebind_fails k N t n : session_ok k j N n t → rpcc_bind fill fill' k j t = Ret (rpc_const.bind_failure, t).
Proof.
  intros (x & [Hc _ Hb _] & _). destruct t as [c e]. cbn in Hb. unfold rpcc_bind, rpcc_call1.
  destruct (put_ok (A:=int) (marshall_new fill') _ [] 0 (marshall_new_rep fill')) as (m & -> & _); [done|done|]. cbn [rbind].
  unfold rpcc_call_m, remote_call1, call1_begin. rewrite Hb. cbn [Z.eqb rpc_const.bind Pos.eqb negb andb orb rbind Z.ltb].
  reflexivity.
Qed.

(** A server and a client, started anew. *)
Lemma fresh_start k f : 0 < u32 (fr_random f) →
  ∃ e r t, startserver (fr_srandom f) (fr_count f) = Ret e ∧ process_accept (Some (fr_fd f)) k (fr_time f) e = Ret r ∧
    rpcc_bind fill fill' k j (rpcc_new (fr_random f) 0 true, default e r) = Ret (0, t) ∧ session k j 1 t ∧ srv_procs (ep_srv t.2) ∧
    rc_srv_nonce t.1 = u32 (fr_srandom f).
Proof.
  intros Hr. destruct (startserver_ok (fr_srandom f) (fr_count f)) as (e & -> & Hst & Hp).
  destruct (rpcc_bind_ok fill fill' k j _ e (fr_fd f) (fr_time f) (fr_random f) eq_refl (started_idle j _ _ _ _ Hst)) as (e1 & t & E1 & E2 & Hs & Hsame & _);
    [by destruct Hst as [? ? ? ? ? ? ->]|by destruct Hst as [? ? ? ? ->]|done|].
  exists e, (Some e1), t. split_and!; [done|done|done|done|by eapply srv_procs_same|].
  rewrite (se_nonce _ _ _ _ Hs). destruct Hsame as (-> & _). by destruct Hst.
Qed.

(** A call with two strings to a restarted server. *)
Lemma old_call_22 k x n y c (e : endpoint srv) a b r0 :
  client_ready x c → server_ready k j n y e → x + 1 < 2 ^ 31 → rc_bind_done c = true →
  rc_srv_nonce c ≠ 0 → rc_srv_nonce c ≠ rs_nonce (ep_srv e) → string_size a + string_size b ≤ 10 ^ 7 →
  ∃ c' e', call_22 fill' (remote_call1 fill k j) a b r0 (c, e) = Ret (rpc_const.oldsrv_failure, r0, (c', e')) ∧
    same_setup (ep_srv e) (ep_srv e') ∧ server_ready k j n y e' ∧ ep_listen e' = ep_listen e ∧
    dom (rs_heap (ep_srv e')) = dom (rs_heap (ep_srv e)) ∧ (∀ m z, window_ok (ep_srv e) m z → window_ok (ep_srv e') m z).
Proof.
  intros Hc Hs Hx Hb H0 Hne Hsz. unfold call_22. rewrite rpcc_call2_tuple. unfold rpcc_call1.
  destruct (strings_transported a b Hsz) as [Hw Hf].
  destruct (put_ok (A:=string * string) (marshall_new fill') _ [] (@pair string string a b) (marshall_new_rep fill') Hw (transported_fits _ Hf)) as (m & -> & Hrep).
  cbn [rbind app] in *. unfold rpcc_call_m.
  destruct (remote_call1_old fill k j x n y c e 22 m (replicate (Z.to_nat RPC_HEADER_SZ) fill')
    (enc (A:=string * string) (@pair string string a b)) Hc Hs Hx) as (un & c' & e' & -> & _ & _ & Hrest); try done.
  cbn [rbind]. exists c', e'. split; [done|]. exact Hrest.
Qed.

Lemma still_idle k n y m (e e' : endpoint srv) :
  idle j m e → same_setup (ep_srv e) (ep_srv e') → server_ready k j n y e' → window_ok (ep_srv e') m 0 → idle j m e'.
Proof. intros [] (En & Ep & Er) [] Hw. split; try done; congruence. Qed.

(** Every check of [failure_test] passes. *)
Lemma failure_test_ok k0 k v c x :
  client_ready x c → x + 1 < 2 ^ 31 → rc_bind_done c = true → rc_srv_nonce c ≠ 0 →
  rc_srv_nonce c ≠ u32 (fr_srandom (fe_first v)) → k ≠ k0 → fr_fd (fe_first v) ≠ fe_old_fd v →
  bind_env_ok (fe_now v) (fe_turns v) → 0 < u32 (fr_random (fe_first v)) → 0 < u32 (fr_random (fe_second v)) →
  ∃ t, failure_test fill fill' j k0 k v c = Ret t.
Proof.
  intros Hc Hx Hb H0 Hne Hk Hfd (Hns & Hlen & Hg) Hr1 Hr2. unfold failure_test. destruct (three_seconds _ Hns) as [Hd _].
  rewrite bind_unanswered_fails by (done || unfold to_max; lia). cbn [rbind VERIFY Z.ltb rpc_const.timeout_failure Z.compare].
  destruct (startserver_ok (fr_srandom (fe_first v)) (fr_count (fe_first v))) as (e & -> & Hst & Hp). cbn [rbind].
  set (m := u32 (fr_random (fe_first v))) in *. pose proof (started_idle j _ _ e m Hst) as Hid.
  assert (ep_listen e = ∅ ∧ rs_heap (ep_srv e) = ∅ ∧ rs_nonce (ep_srv e) = u32 (fr_srandom (fe_first v))) as (El & Eh & En) by (by destruct Hst).
  destruct (accept_ready k0 j m e (fe_old_fd v) (fe_old_time v) Hid) as (e1 & Ea & Hs1 & Hsame1 & _ & Hw1 & Hl1 & Hh1);
    [by rewrite El|by rewrite Eh|]. rewrite Ea. cbn [rbind default id].
  destruct (old_call_22 k0 x m 0 c e1 "hello" " goodbye" "" Hc Hs1 Hx Hb H0) as (c' & e2 & E2 & Hsame2 & Hs2 & El2 & Ed2 & Hw2); [|done|].
  { destruct Hsame1 as (-> & _). by rewrite En. }
  rewrite E2. cbn [rbind]. rewrite VERIFY_true by done. cbn [rbind].
  assert (idle j m e2) as Hid2 by (eapply (still_idle k0 m 0 m e); [done|by etrans|done|apply Hw2, Hw1, Hid]).
  destruct (rpcc_bind_ok fill fill' k j m e2 (fr_fd (fe_first v)) (fr_time (fe_first v)) (fr_random (fe_first v)) eq_refl Hid2)
    as (e3 & t & E3 & E4 & Hs3 & Hsame3 & _).
  { rewrite El2. apply Hl1; [done|]. by rewrite El. }
  { apply not_elem_of_dom. rewrite Ed2. apply not_elem_of_dom, Hh1; [done|]. by rewrite Eh. }
  { done. }
  rewrite E3. cbn [rbind default id]. rewrite E4. cbn [rbind]. rewrite VERIFY_true by done. cbn [rbind].
  set (N := rs_nonce (ep_srv t.2)).
  assert (session_ok k j N 41 t) as Ht.
  { exists 1. split_and!; [done|done| |done]. eapply srv_procs_same; [|exact Hp]. by etrans; [|etrans]. }
  rewrite (rebind_fails k N t 41 Ht). cbn [rbind]. rewrite VERIFY_true by done. cbn [rbind].
  destruct (sc_22 (SrvCalls:=session_srv_calls fill fill' k j N) 40 "hello" " goodbye" "" t Ht ltac:(done)) as (t1 & -> & Ht1).
  cbn [rbind VERIFY Z.eqb]. rewrite bool_decide_eq_true_2 by done. cbn [rbind VERIFY].
  destruct (fresh_start k (fe_second v) Hr2) as (e5 & r5 & t5 & -> & E6 & E7 & _). cbn [rbind].
  rewrite E6. cbn [rbind]. rewrite E7. cbn [rbind]. rewrite VERIFY_true by done. cbn [rbind].
  by exists (t1, t5).
Qed.
End main_ok.

Lemma testmarshall_ok fill : testmarshall fill = Ret ().
Proof. vm_compute. reflexivity. Qed.

(** A server and a client for it. *)
Lemma new_client_ok fill fill' j k f : 0 < u32 (fr_random f) →
  ∃ e t, startserver (fr_srandom f) (fr_count f) = Ret e ∧ new_client fill fill' j k f e = Ret t ∧ session k j 1 t ∧
    srv_procs (ep_srv t.2) ∧ rc_srv_nonce t.1 = u32 (fr_srandom f).
Proof.
  intros Hr. destruct (fresh_start fill fill' j k f Hr) as (e & r & t & E0 & E1 & E2 & Hs & Hp & En).
  exists e, t. split; [done|]. unfold new_client. rewrite E1. cbn [rbind]. rewrite E2. cbn [rbind].
  rewrite VERIFY_true by reflexivity. cbn [rbind]. split; [reflexivity|]. split; [exact Hs|]. split; [exact Hp|exact En].
Qed.


Lemma demo_bind_env : bind_env_ok (Timespec 100 0) demo_turns.
Proof. split; [cbn; lia|]. split; [reflexivity|exact demo_turns_good]. Qed.


(** The calls of [failure_test] pass: a client of the server's previous life is
    refused, a second [bind] of the same client fails, and replacements of
    client and server work. *)
Theorem failure_test_passes fill fill' j k0 k v f :
  0 < u32 (fr_random f) → 0 < u32 (fr_srandom f) → u32 (fr_srandom (fe_first v)) ≠ u32 (fr_srandom f) →
  k ≠ k0 → fr_fd (fe_first v) ≠ fe_old_fd v → bind_env_ok (fe_now v) (fe_turns v) →
  0 < u32 (fr_random (fe_first v)) → 0 < u32 (fr_random (fe_second v)) →
  ∃ e t t', startserver (fr_srandom f) (fr_count f) = Ret e ∧ new_client fill fill' j k0 f e = Ret t ∧
    failure_test fill fill' j k0 k v t.1 = Ret t'.
Proof.
  intros Hr Hs Hne Hk Hfd He Hr1 Hr2. destruct (new_client_ok fill fill' j k0 f Hr) as (e & t & E0 & E1 & [Hc _ Hb _] & _ & En).
  destruct (failure_test_ok fill fill' j k0 k v t.1 1 Hc) as (t' & E); [lia|done|lia|by rewrite En; apply not_eq_sym|done|done|done|done|done|].
  exists e, t, t'. split; [exact E0|]. split; [exact E1|exact E].
Qed.

Definition demo_failure : failure_env :=
  FailureEnv 5 (Timespec 100 0) demo_turns 11 (200, 0) (Fresh 32 0 33 12 (201, 0)) (Fresh 42 0 43 13 (202, 0)).

Lemma failure_test_passes_witness : ∃ e t t',
  startserver 26 0 = Ret e ∧ new_client "a" "b" 1 1 (Fresh 26 0 27 10 (150, 0)) e = Ret t ∧
  failure_test "a" "b" 1 1 2 demo_failure t.1 = Ret t'.
Proof.
  apply (failure_test_passes "a"%char "b"%char 1 1 2 demo_failure (Fresh 26 0 27 10 (150, 0)));
    [reflexivity|reflexivity|done|lia|done|exact demo_bind_env|reflexivity|reflexivity].
Defined.

(** The port is one of ten thousand unless it is given. *)
Theorem default_port pid o :
  0 < pid → rpctest_options pid [] = Ret o → op_isserver o = true ∧ op_isclient o = true ∧ 20000 ≤ op_port o < 30000.
Proof.
  intros Hp [= <-]. split; [done|]. split; [done|]. cbn. pose proof (Z.rem_bound_pos pid 10000 ltac:(lia) ltac:(lia)). lia.
Qed.
