(* ===== verification/RpcTestThreads.v ===== *)
(** * The threads of the test of the RPC library (rpc/rpctest.cc)

    The functions [client1], [client2] and [client3] as programs that make
    calls, and their threads over the system of clients, network and server of
    RpcSystem.v: the threads of one client share it, requests and replies are
    lost, repeated and reordered, and the handlers of several requests run at
    once. *)

From stdpp Require Import functions.
From S2P Require Import Prelude Marshall Protocols Stubs Connection RpcServer ThrPool RpcClient Endpoint Session RpcSystem RpcTest.

(** ** Programs *)

(** What a thread does next: it is over, the process aborts, or it calls
    [call1] and goes on with what it returns. *)
Inductive prog :=
  | Exit
  | Abort (f : failure)
  | CallTo (proc : Z) (req : marshall) (k : Z → unmarshall → prog).

Definition after {A} (c : res A) (k : A → prog) : prog :=
  match c with Ret a => k a | Fail f => Abort f end.
Definition check (b : bool) (k : prog) : prog := after (VERIFY b) (λ _, k).

Section clients.
Context (fill : ascii).

(** [rpcc::call_m] and [rpcc::call] with one argument. *)
Definition call_m {R} `{!Marshal R} (proc : Z) (req : marshall) (r : R) (k : Z → R → prog) : prog :=
  CallTo proc req (λ intret u,
    if intret <? 0 then k intret r else
    after (get u r) (λ p, check (okdone p.2) (k intret p.1))).
Definition call {A R} `{!Marshal A} `{!Marshal R} (proc : Z) (a : A) (r : R) (k : Z → R → prog) : prog :=
  after (put (marshall_new fill) a) (λ m, call_m proc m r k).

(** The first loop of [client1]; [rs] are the results of [random()]. *)
Fixpoint client1_sizes (rs : list Z) (k : prog) : prog :=
  match rs with
  | [] => k
  | r :: rs =>
      let arg : int := Z.rem r 2000 in
      call (R:=string) 25 arg "" (λ ret rep,
        check (ret =? 0)
        (check (string_size rep =? arg)
        (client1_sizes rs k)))
  end.

(** A turn of the second loop: two random numbers, the readings of the clock
    before and after the call, and what [rep] holds before it. *)
Record order_turn := OrderTurn { ot_which : Z; ot_arg : Z; ot_start : timespec; ot_end : timespec; ot_rep : Z }.

Fixpoint client1_order (rs : list order_turn) (k : prog) : prog :=
  match rs with
  | [] => k
  | r :: rs =>
      let which := negb (Z.rem (ot_which r) 2 =? 0) in
      let arg : int := Z.rem (ot_arg r) 1000 in
      call (R:=int) (if which then 23 else 24) arg (ot_rep r) (λ ret rep,
        after (diff_timespec (ot_end r) (ot_start r)) (λ _,
        check (ret =? 0)
        (after (int_add arg (if which then 1 else 2)) (λ e,
        check (rep =? e)
        (client1_order rs k)))))
  end.

(** [client1]: a hundred turns each. *)
Definition client1 (rs : list Z) (rs' : list order_turn) : prog := client1_sizes rs (client1_order rs' Exit).

(** [client2]: as many turns as ten seconds allow. *)
Fixpoint client2 (rs : list Z) : prog :=
  match rs with
  | [] => Exit
  | r :: rs =>
      let arg : int := Z.rem r 2000 in
      call (R:=string) 25 arg "" (λ _ rep,
        check (string_size rep =? arg)
        (client2 rs))
  end.

(** [client3]: the calls with [i], ..., [3]; [junk] is what [rep] holds
    before them. *)
Fixpoint client3_from (n : nat) (junk : nat → Z) (i : Z) : prog :=
  match n with
  | O => Exit
  | S n =>
      call (A:=int) (R:=int) 24 i (junk n) (λ ret rep,
        after (int_add i 2) (λ e,
        check ((ret =? rpc_const.timeout_failure) || (rep =? e))
        (client3_from n junk (i + 1))))
  end.
Definition client3 (junk : nat → Z) : prog := client3_from 4 junk 0.

(** ** The threads of the tests *)

(** A thread that runs, or waits for the reply of its call [xid]. *)
Inductive tstate := Running (p : prog) | Waiting (xid : Z) (k : Z → unmarshall → prog).

(** A thread with the nonce of the client it uses.  [concurrent_test]: ten
    threads that share two clients; [lossy_test]: one thread; [failure_test]:
    ten threads of one client, twice. *)
Definition NUM_CL : nat := 2.
Definition concurrent_test (clients : nat → Z) (rs : nat → list Z) (rs' : nat → list order_turn) : list (Z * tstate) :=
  (λ i, (clients (i mod NUM_CL)%nat, Running (client1 (rs i) (rs' i)))) <$> seq 0 10.
Definition lossy_test (clients : nat → Z) (rs : nat → list Z) : list (Z * tstate) :=
  (λ i, (clients (i mod NUM_CL)%nat, Running (client2 (rs i)))) <$> seq 0 1.
Definition failure_threads (client : Z) (junk : nat → nat → Z) : list (Z * tstate) :=
  (λ i, (client, Running (client3 (junk i)))) <$> seq 0 10.
End clients.

(** ** The stub *)

Section run.
Context {T : Type} (call1 : Z → marshall → T → res (Z * unmarshall * T)).

(** A program run on its own. *)
Fixpoint run_prog (p : prog) (t : T) : res T :=
  match p with
  | Exit => Ret t
  | Abort f => Fail f
  | CallTo proc req k => '(ret, u, t) ← call1 proc req t; run_prog (k ret u) t
  end.

Lemma run_after {A} (c : res A) k t : run_prog (after c k) t = rbind c (λ a, run_prog (k a) t).
Proof. by destruct c. Qed.

(** A call of a program is a call through the stub of Stubs.v. *)
Lemma run_call {A R} `{!Marshal A} `{!Marshal R} fill proc (a : A) (r : R) k t :
  run_prog (call fill proc a r k) t = rbind (rpcc_call1 fill call1 proc a r t) (λ '(ret, r, t), run_prog (k ret r) t).
Proof.
  unfold call, rpcc_call1, rpcc_call_m. rewrite run_after. destruct (put (marshall_new fill) a) as [m|]; [|done]. cbn.
  destruct (call1 proc m t) as [[[ret u] t']|]; [|done]. cbn. destruct (ret <? 0); [done|]. rewrite run_after.
  destruct (get u r) as [[r' u']|]; [|done]. cbn. unfold check. rewrite run_after. by destruct (VERIFY (okdone u')).
Qed.
End run.

(** ** Threads over the system *)

Section threads.
Context (fill fill' : ascii) (procs : gmap Z (handler srv)) (nonce : Z).

Record test := Test { te_sys : rpc_system srv; te_threads : list (Z * tstate) }.

(** A thread enters [call1]: an error at once, or the call has begun and its
    request is on its way. *)
Definition begin_call (s : rpc_system srv) (n proc : Z) (req : marshall) : res (Z + Z * rpc_system srv) :=
  '(r, c) ← call1_begin (cl_rpcc (ss_client s n)) proc req;
  match r with
  | BeginError ret => Ret (inl ret)
  | BeginOk xid req' xid_rep =>
      b ← m_pdu req';
      let h := ReqHeader (s32 xid) (s32 proc) n (rc_srv_nonce (cl_rpcc (ss_client s n))) xid_rep in
      Ret (inr (xid,
        RpcSystem (<[n := Client c (cl_acked (ss_client s n)) ((xid, xid_rep) :: cl_sent (ss_client s n))]> (ss_client s))
          (<[(n, xid) := (h, drop (Z.to_nat RPC_HEADER_SZ) b)]> (ss_asked s))
          (frame b (Z.of_nat (length b)) :: ss_requests s) (ss_amo s) (ss_jobs s) (ss_obj s) (ss_log s) (ss_replies s) (ss_returned s)))
  end.

Inductive test_step : test → test → Prop :=
| test_system s s' ths : quiet_step fill procs nonce s s' → test_step (Test s ths) (Test s' ths)
| test_call s ths i n proc req k xid s' :
    ths !! i = Some (n, Running (CallTo proc req k)) → rc_xid (cl_rpcc (ss_client s n)) < 2 ^ 31 - 1 →
    begin_call s n proc req = Ret (inr (xid, s')) → test_step (Test s ths) (Test s' (<[i := (n, Waiting xid k)]> ths))
| test_refused s ths i n proc req k ret :
    ths !! i = Some (n, Running (CallTo proc req k)) → begin_call s n proc req = Ret (inl ret) →
    test_step (Test s ths) (Test s (<[i := (n, Running (k ret unmarshall_empty))]> ths))
| test_return s ths i n xid k ret un :
    ths !! i = Some (n, Waiting xid k) → Returned n xid ret un ∈ ss_returned s →
    test_step (Test s ths) (Test s (<[i := (n, Running (k ret un))]> ths)).

(** ** Programs that pass *)

(** The handler answers the arguments [l] with 0 and [cc]. *)
Definition handler_gives (f : handler srv) (l cc : list ascii) : Prop :=
  ∀ u, reads u l → ∃ m hh, f u (marshall_new fill) () = Ret (0, m, ()) ∧ rep m hh cc.

(** A program of at most [m] calls whose checks hold when every call gets the
    reply of its handler. *)
Inductive good : nat → prog → Prop :=
| good_exit m : good m Exit
| good_call m proc req h0 l k f cc :
    rep req h0 l → fits l → proc ≠ rpc_const.bind → in_s32 proc → procs !! proc = Some f →
    handler_gives f l cc → fits cc → (∀ un, reads un cc → good m (k 0 un)) → good (S m) (CallTo proc req k).

Lemma serves_gives {A R} `{MarshalOk A} `{MarshalOk R} (f : handler srv) (a : A) (r : R) :
  serves fill f () a 0 r () → wf r → fits (enc r) → handler_gives f (enc a) (enc r).
Proof.
  intros Hs Hw Hf u Hu. rewrite (Hs u Hu). destruct (put_ok (marshall_new fill) _ [] r (marshall_new_rep fill) Hw Hf) as (m & -> & Hm).
  cbn [rbind app] in *. by exists m, (replicate (Z.to_nat RPC_HEADER_SZ) fill).
Qed.

Lemma good_typed {A R} `{MarshalOk A} `{MarshalOk R} m proc (a : A) (r0 r : R) f k :
  wf a → fits (enc a) → proc ≠ rpc_const.bind → in_s32 proc → procs !! proc = Some f → serves fill f () a 0 r () →
  wf r → fits (enc r) → good m (k 0 r) → good (S m) (call fill' proc a r0 k).
Proof.
  intros Ha Hfa Hb Hp Hf Hs Hr Hfr Hk. unfold call.
  destruct (put_ok (marshall_new fill') _ [] a (marshall_new_rep fill') Ha Hfa) as (q & -> & Hq). cbn [after app] in *.
  eapply good_call; [exact Hq|done|done|done|exact Hf|by apply serves_gives|done|]. intros un Hu. cbn.
  rewrite <- (app_nil_r (enc r)) in Hu. destruct (get_ok un _ r r0 Hu Hr) as (u' & -> & Hu'). cbn.
  by rewrite (reads_okdone _ _ Hu'), bool_decide_eq_true_2.
Qed.

(** The handlers of the test are registered. *)
Context (Hnonce : in_u32 nonce) (Hbind : procs !! rpc_const.bind = Some (rpcs_reg1 (rpcbind nonce))).
Context (H23 : procs !! 23 = Some (rpcs_reg1 handle_fast)) (H24 : procs !! 24 = Some (rpcs_reg1 handle_slow)).
Context (H25 : procs !! 25 = Some (rpcs_reg1 handle_bigrep)).

Lemma good_25 m (a : int) r0 k : 0 ≤ a < 2 ^ 29 → good m (k 0 (xs a)) → good (S m) (call (R:=string) fill' 25 a r0 k).
Proof.
  intros Ha Hk. destruct (string_enc_fits (xs a)) as [Hw Hf]; [rewrite string_size_xs; lia|].
  eapply (good_typed (A:=int) (R:=string) m 25 a r0 (xs a)); [cbn; wrap_unfold; lia|done|done|done|exact H25| |done|done|exact Hk].
  apply reg1_serves; [cbn; wrap_unfold; lia|]. unfold handle_bigrep. by rewrite (proj2 (Z.ltb_ge _ _)) by lia.
Qed.
Lemma good_23 m (a : int) r0 k : 0 ≤ a < 2 ^ 29 → good m (k 0 (a + 1)) → good (S m) (call (R:=int) fill' 23 a r0 k).
Proof.
  intros Ha Hk. eapply (good_typed (A:=int) (R:=int) m 23 a r0 (a + 1 : int)); [cbn; wrap_unfold; lia|done|done|done|exact H23| |cbn; wrap_unfold; lia|done|exact Hk].
  apply reg1_serves; [cbn; wrap_unfold; lia|]. unfold handle_fast. by rewrite int_add_ok by (wrap_unfold; lia).
Qed.
Lemma good_24 m (a : int) r0 k : 0 ≤ a < 2 ^ 29 → good m (k 0 (a + 2)) → good (S m) (call (R:=int) fill' 24 a r0 k).
Proof.
  intros Ha Hk. eapply (good_typed (A:=int) (R:=int) m 24 a r0 (a + 2 : int)); [cbn; wrap_unfold; lia|done|done|done|exact H24| |cbn; wrap_unfold; lia|done|exact Hk].
  apply reg1_serves; [cbn; wrap_unfold; lia|]. unfold handle_slow. by rewrite int_add_ok by (wrap_unfold; lia).
Qed.

(** The clock does not run backwards over a second, nor does it jump by
    twenty-four days. *)
Definition clock_ok (r : order_turn) : Prop := tv_sec (ot_start r) ≤ tv_sec (ot_end r) < tv_sec (ot_start r) + 2147483.
Definition turn_ok (r : order_turn) : Prop := 0 ≤ ot_which r ∧ 0 ≤ ot_arg r ∧ clock_ok r.

Lemma good_sizes rs k : ∀ m, Forall (λ r, 0 ≤ r) rs → good m k → good (length rs + m) (client1_sizes fill' rs k).
Proof.
  induction rs as [|r rs IH]; intros m Hr Hk; [done|]. apply Forall_cons in Hr as [Hr Hrs].
  pose proof (Z.rem_bound_pos r 2000 Hr ltac:(lia)) as Hb. cbn [client1_sizes length Nat.add]. apply good_25; [lia|].
  rewrite string_size_xs, !Z.eqb_refl by lia. by apply IH.
Qed.

Lemma good_order rs k : ∀ m, Forall turn_ok rs → good m k → good (length rs + m) (client1_order fill' rs k).
Proof.
  induction rs as [|r rs IH]; intros m Hr Hk; [done|]. apply Forall_cons in Hr as [(Hw & Ha & Hc) Hrs].
  pose proof (Z.rem_bound_pos (ot_arg r) 1000 Ha ltac:(lia)) as Hb. cbn [client1_order length Nat.add].
  assert (∃ d, diff_timespec (ot_end r) (ot_start r) = Ret d) as [d Ed].
  { unfold diff_timespec, clock_ok in *. rewrite VERIFY_true; [cbn [rbind]; by eexists|].
    destruct (Z.ltb_spec (tv_sec (ot_start r)) (tv_sec (ot_end r))); lia. }
  destruct (negb _); [apply good_23|apply good_24]; try lia; rewrite Ed, int_add_ok by (wrap_unfold; lia);
    cbn [after check VERIFY Z.eqb]; rewrite Z.eqb_refl; by apply IH.
Qed.

Lemma good_client1 rs rs' : Forall (λ r, 0 ≤ r) rs → Forall turn_ok rs' → good (length rs + length rs') (client1 fill' rs rs').
Proof.
  intros Hrs Hrs'. apply good_sizes; [done|]. rewrite <- (Nat.add_0_r (length rs')). apply good_order; [done|constructor].
Qed.

Lemma good_client2 rs : Forall (λ r, 0 ≤ r) rs → good (length rs) (client2 fill' rs).
Proof.
  induction rs as [|r rs IH]; intros Hr; [constructor|]. apply Forall_cons in Hr as [Hr Hrs].
  pose proof (Z.rem_bound_pos r 2000 Hr ltac:(lia)) as Hb. cbn [client2 length]. apply good_25; [lia|].
  rewrite string_size_xs, Z.eqb_refl by lia. by apply IH.
Qed.

Lemma good_client3 junk : good 4 (client3 fill' junk).
Proof.
  unfold client3. assert (∀ m i, 0 ≤ i ≤ 4 → 0 ≤ i + Z.of_nat m ≤ 4 → good m (client3_from fill' m junk i)) as H.
  { induction m as [|m IH]; intros i Hi Hm; [constructor|]. cbn [client3_from]. apply good_24; [lia|].
    rewrite int_add_ok by (wrap_unfold; lia). cbn [after]. rewrite Z.eqb_refl, orb_true_r. apply IH; lia. }
  apply H; lia.
Qed.

(** ** What the system keeps *)

(** The call [x] of client [n] has not been forgotten. *)
Definition pending (s : rpc_system srv) (n x : Z) : Prop :=
  is_Some (rc_calls (cl_rpcc (ss_client s n)) !! x) ∨ ∃ ret un, Returned n x ret un ∈ ss_returned s.

(** What a step leaves to a client. *)
Record kept (s s' : rpc_system srv) (n : Z) : Prop := {
  kp_open : rc_destroy_wait (cl_rpcc (ss_client s' n)) = rc_destroy_wait (cl_rpcc (ss_client s n));
  kp_bound : rc_bind_done (cl_rpcc (ss_client s n)) = true → rc_bind_done (cl_rpcc (ss_client s' n)) = true;
  kp_xid : rc_xid (cl_rpcc (ss_client s' n)) = rc_xid (cl_rpcc (ss_client s n));
  kp_pending : ∀ x, pending s n x → pending s' n x }.

Lemma kept_same s s' n : ss_client s' n = ss_client s n → (∀ d, d ∈ ss_returned s → d ∈ ss_returned s') → kept s s' n.
Proof.
  intros E Hd. split; rewrite ?E; try done. unfold pending. rewrite E. intros x [?|(ret & un & ?)]; [by left|right; eauto].
Qed.

Lemma got_pdu_kept c b sz ok c' : rpcc_got_pdu c b sz = Ret (ok, c') →
  rc_destroy_wait c' = rc_destroy_wait c ∧ rc_bind_done c' = rc_bind_done c ∧ rc_xid c' = rc_xid c ∧
  ∀ x, is_Some (rc_calls c !! x) → is_Some (rc_calls c' !! x).
Proof.
  unfold rpcc_got_pdu. intros ([h u] & _ & H)%rbind_Ret. destruct (negb _); [by injection H as _ <-|].
  apply rbind_Ret in H as (w & _ & H). cbn in H.
  destruct (rc_calls c !! rp_xid h) as [ca|] eqn:E; injection H as _ <-; cbn; split_and!; try done.
  intros x Hx. destruct (decide (x = rp_xid h)) as [->|]; [rewrite lookup_insert_eq; by eexists|by rewrite lookup_insert_ne].
Qed.

Lemma call1_begin_shape c proc req xid req' xid_rep c' :
  call1_begin c proc req = Ret (BeginOk xid req' xid_rep, c') →
  xid = rc_xid c ∧ rc_destroy_wait c' = rc_destroy_wait c ∧ rc_bind_done c' = rc_bind_done c ∧ rc_xid c' = u32 (xid + 1) ∧
  rc_calls c' = <[s32 xid := Caller unmarshall_empty 0 false]> (rc_calls c).
Proof.
  unfold call1_begin. destruct (_ || _); [done|]. destruct (rc_destroy_wait c); [done|]. destruct (rc_xid_rep_window c); [done|].
  intros (r & _ & [= <- <- <- <-])%rbind_Ret. done.
Qed.

(** A begun call is new. *)
Lemma begun_fresh C A Q n xid : clients_ok C A Q → rc_xid (cl_rpcc (C n)) ≤ xid → A !! (n, xid) = None.
Proof.
  intros Hc Hx. destruct (A !! (n, xid)) as [[h l]|] eqn:E; [|done]. exfalso.
  pose proof (ao_sent _ _ _ _ _ (co_asked _ _ _ Hc _ _ _ _ E)) as Hs.
  destruct (cli_sent _ (co_client _ _ _ Hc n) _ _ Hs). lia.
Qed.

Lemma quiet_kept s s' n : sys_inv fill procs nonce () s → quiet_step fill procs nonce s s' → kept s s' n.
Proof.
  intros [Hc _ _] [Hstep Ha]. destruct Hstep; cbn in *; try (by apply kept_same).
  - exfalso. destruct (call1_begin_shape _ _ _ _ _ _ _ H5) as (-> & _).
    pose proof (begun_fresh _ _ _ n0 _ Hc (Z.le_refl _)) as Hf. rewrite <- Ha, lookup_insert_eq in Hf. done.
  - destruct (got_pdu_kept _ _ _ _ _ H1) as (Hd & Hb & Hx & Hk). destruct (decide (n = n0)) as [->|Hne];
      [|apply kept_same; cbn; [by rewrite fn_lookup_insert_ne|done]].
    split; unfold pending; cbn; rewrite fn_lookup_insert; cbn; try done; [by rewrite Hb|].
    intros x [?|?]; [left; auto|by right].
  - destruct (decide (n = n0)) as [->|Hne]; [|apply kept_same; cbn; [by rewrite fn_lookup_insert_ne|by right]].
    destruct (quiet_end _ _ _ _ _ _ _ _ _ _ _ Hc H H1) as [Hxr _].
    destruct (call1_end_shape _ _ _ _ _ _ _ _ H1 ltac:(wrap_unfold; lia) H) as (_ & _ & Hx & Hb & Hcalls & _).
    split; unfold pending; cbn; rewrite fn_lookup_insert; cbn; rewrite ?Hx, ?Hb, ?Hcalls; try done.
    + unfold call1_end in H1. destruct (rc_calls (cl_rpcc (C n0)) !! s32 xid); [|done]. apply rbind_Ret in H1 as (w & _ & [= _ _ <-]). by destruct (_ && _).
    + intros x [?|(r & u & ?)]; [|right; exists r, u; by right]. destruct (decide (x = xid)) as [->|]; [right; exists ret, un; left|].
      left. by rewrite lookup_delete_ne.
  - destruct (decide (n = n0)) as [->|Hne]; [|apply kept_same; cbn; [by rewrite fn_lookup_insert_ne|done]].
    split; unfold pending; cbn; rewrite fn_lookup_insert; cbn; unfold bind_reply; by destruct (ret =? 0).
Qed.

(** ** The invariant *)

(** [m] bounds the calls that the thread still makes. *)
Definition thread_good (s : rpc_system srv) (n : Z) (m : nat) (st : tstate) : Prop :=
  match st with
  | Running p => good m p
  | Waiting xid k => ∃ h l f cc, ss_asked s !! (n, xid) = Some (h, l) ∧ procs !! rq_proc h = Some f ∧
      handler_gives f l cc ∧ fits cc ∧ (∀ un, reads un cc → good m (k 0 un)) ∧ pending s n xid
  end.

(** The client can make [m] more calls. *)
Record client_free (s : rpc_system srv) (m : nat) (n : Z) : Prop := {
  cf_nonce : 0 < n < 2 ^ 32;
  cf_open : rc_destroy_wait (cl_rpcc (ss_client s n)) = false;
  cf_bound : rc_bind_done (cl_rpcc (ss_client s n)) = true;
  cf_room : rc_xid (cl_rpcc (ss_client s n)) + Z.of_nat m < 2 ^ 31 }.

Record test_inv (ms : list nat) (t : test) : Prop := {
  ti_sys : sys_inv fill procs nonce () (te_sys t);
  ti_waits : sys_waits nonce (te_sys t);
  ti_length : length ms = length (te_threads t);
  ti_client : ∀ i n st, te_threads t !! i = Some (n, st) → client_free (te_sys t) (sum_list ms) n;
  ti_threads : ∀ i n st m, te_threads t !! i = Some (n, st) → ms !! i = Some m → thread_good (te_sys t) n m st }.

Lemma client_free_kept s s' m n : kept s s' n → client_free s m n → client_free s' m n.
Proof. intros [Ho Hb Hx _] []. split; [done|by rewrite Ho|auto|by rewrite Hx]. Qed.

Lemma thread_good_kept s s' n m st :
  (∀ x, pending s n x → pending s' n x) → (∀ k v, ss_asked s !! k = Some v → ss_asked s' !! k = Some v) → thread_good s n m st → thread_good s' n m st.
Proof.
  intros Hk Ha. destruct st as [p|xid k]; [done|]. intros (h & l & f & cc & E & Hf & Hg & Hcc & Hgood & Hp).
  exists h, l, f, cc. split_and!; auto.
Qed.

Lemma sum_list_insert (ms : list nat) i m m' : ms !! i = Some m → (sum_list (<[i := m']> ms) + m = sum_list ms + m')%nat.
Proof.
  revert i. induction ms as [|x ms IH]; intros [|i] E; try done.
  - injection E as ->. change (m' + sum_list ms + m = m + sum_list ms + m')%nat. lia.
  - change (x + sum_list (<[i := m']> ms) + m = x + sum_list ms + m')%nat. specialize (IH i E). lia.
Qed.

Lemma system_inv ms s s' ths :
  test_inv ms (Test s ths) → quiet_step fill procs nonce s s' → test_inv ms (Test s' ths).
Proof.
  intros [Hi Hw Hlen Hc Ht] Hstep. cbn in *. pose proof (λ n, quiet_kept s s' n Hi Hstep) as Hk. destruct Hstep as [Hstep Ha].
  split; cbn; [by eapply rpc_step_inv|by eapply waits_step|done| |].
  - intros i n st E. eapply client_free_kept; [done|]. by eapply Hc.
  - intros i n st m E Em. eapply thread_good_kept; [by apply Hk| |by eapply Ht]. by rewrite Ha.
Qed.

(** A thread of a good program enters [call1]. *)
Lemma begin_call_ok s n m proc req h0 l :
  sys_inv fill procs nonce () s → client_free s (S m) n → rep req h0 l → fits l → proc ≠ rpc_const.bind → in_s32 proc →
  ∃ xid s' h, begin_call s n proc req = Ret (inr (xid, s')) ∧ rpc_step fill procs nonce true s s' ∧
    ss_asked s' = <[(n, xid) := (h, l)]> (ss_asked s) ∧ ss_asked s !! (n, xid) = None ∧ rq_proc h = proc ∧
    pending s' n xid ∧ client_free s' m n ∧ (∀ n' x, pending s n' x → pending s' n' x) ∧ ∀ n', n' ≠ n → kept s s' n'.
Proof.
  intros Hi [Hn Ho Hb Hx] Hr Hf Hp Hp'. destruct s as [C A Q M J o L R D]. cbn in *. pose proof (sy_clients _ _ _ _ _ Hi) as Hc. cbn in Hc.
  pose proof (cli_window _ (co_client _ _ _ Hc n)) as [_ _ (f & tl & Ewin & _)].
  set (hd := ReqHeader (s32 (rc_xid (cl_rpcc (C n)))) (s32 proc) (rc_clt_nonce (cl_rpcc (C n))) (rc_srv_nonce (cl_rpcc (C n))) (s32 f)).
  destruct (m_pack_req_header_rep req h0 l hd Hr) as (req' & sz & Ereq & Hsz & Hr').
  assert (∃ c, call1_begin (cl_rpcc (C n)) proc req = Ret (BeginOk (rc_xid (cl_rpcc (C n))) req' (s32 f), c)) as [c Eb].
  { unfold call1_begin. rewrite Hb, Ho, Ewin, (proj2 (Z.eqb_neq _ _) Hp). fold hd. rewrite Ereq. by eexists. }
  pose proof (m_pdu_rep _ _ _ Hr') as Em.
  destruct (call1_begin_shape _ _ _ _ _ _ _ Eb) as (_ & Ho' & Hb' & Hx' & Hcalls).
  pose proof (cli_xid _ (co_client _ _ _ Hc n)) as Hxr.
  assert (drop (Z.to_nat RPC_HEADER_SZ) ((sz ++ req_header_bytes hd) ++ l) = l) as Ed.
  { apply drop_app_length'. unfold req_header_bytes. rewrite !length_app, Hsz, !length_be32. reflexivity. }
  eexists _, _, _. split_and!.
  - unfold begin_call. cbn [ss_client]. rewrite Eb. cbn [rbind]. rewrite Em. cbn [rbind]. reflexivity.
  - cbn. rewrite Ed.
    eapply (sys_begin fill procs nonce true C A Q M J o L R D n proc req h0 l _ req' (s32 f) c); [done|lia|done|exact Hr|done|by intros _ ?|exact Eb|exact Em].
  - cbn. by rewrite Ed.
  - apply (begun_fresh _ _ _ n _ Hc (Z.le_refl _)).
  - cbn. by apply s32_id.
  - left. cbn. rewrite fn_lookup_insert. cbn. rewrite Hcalls, s32_id, lookup_insert_eq by (wrap_unfold; lia). by eexists.
  - split; cbn; rewrite ?fn_lookup_insert; cbn; [done|by rewrite Ho'|by rewrite Hb'|]. rewrite Hx', u32_id by (wrap_unfold; lia). lia.
  - intros n' x [Hx1|?]; [left|by right]. cbn in *. destruct (decide (n' = n)) as [->|]; [|by rewrite fn_lookup_insert_ne].
    rewrite fn_lookup_insert. cbn. rewrite Hcalls. apply lookup_insert_is_Some'. by right.
  - intros n' Hn'. apply kept_same; cbn; [by rewrite fn_lookup_insert_ne|done].
Qed.

(** The reply of a call is the one of its handler. *)
Lemma returned_reply s n xid ret un h l f cc :
  sys_inv fill procs nonce () s → sys_waits nonce s → Returned n xid ret un ∈ ss_returned s →
  ss_asked s !! (n, xid) = Some (h, l) → procs !! rq_proc h = Some f → handler_gives f l cc → ret = 0 ∧ reads un cc.
Proof.
  intros Hi Hw Hd Ha Hf Hg. destruct (waiting_outcome _ _ _ _ _ _ Hi Hw Hd) as (e & He & (Ek & Er & Hread) & _). cbn in *.
  destruct (so_log _ _ _ _ _ _ _ _ _ _ (sy_server _ _ _ _ _ Hi) e He) as (h' & u & f' & m & hh & Ha' & _ & Ep & Hu & Hf' & Hrun & Hm & _).
  rewrite Ek, Ha in Ha'. injection Ha' as <- El. rewrite Ep, Hf in Hf'. injection Hf' as <-. rewrite <- El in Hu.
  destruct (Hg u Hu) as (m' & hh' & Hrun' & Hm'). destruct (ex_before e). rewrite Hrun in Hrun'. injection Hrun' as E1 <- _.
  rewrite Er, E1. split; [done|]. by rewrite <- (rep_contents _ _ _ _ _ Hm Hm').
Qed.

Lemma call_inv ms s ths i n proc req k xid s' :
  test_inv ms (Test s ths) → ths !! i = Some (n, Running (CallTo proc req k)) → begin_call s n proc req = Ret (inr (xid, s')) →
  ∃ m, ms !! i = Some (S m) ∧ test_inv (<[i := m]> ms) (Test s' (<[i := (n, Waiting xid k)]> ths)).
Proof.
  intros [Hi Hw Hlen Hc Ht] Ei Eb. cbn in *.
  destruct (lookup_lt_is_Some_2 ms i) as [m Em]; [rewrite Hlen; by eapply lookup_lt_Some|].
  pose proof (Ht _ _ _ _ Ei Em) as Hg. cbn in Hg. inversion Hg as [|m' ? ? h0 l ? f cc Hrep Hfit Hp Hp' Hf Hgive Hcc Hk]; subst. clear Hg.
  exists m'. split; [done|]. pose proof (sum_list_insert ms i (S m') m' Em) as Hsum.
  destruct (begin_call_ok s n (sum_list (<[i := m']> ms)) proc req h0 l Hi) as (xid' & s1 & h & E & Hstep & Ha & Hfresh & Eh & Hpend & Hfree & Hpends & Hkept);
    try done. { replace (S _) with (sum_list ms) by lia. by eapply Hc. }
  rewrite E in Eb. injection Eb as <- <-.
  assert (∀ k v, ss_asked s !! k = Some v → ss_asked s1 !! k = Some v) as HA.
  { intros k' v Ek. rewrite Ha, lookup_insert_ne; [done|]. intros <-. congruence. }
  split; cbn; [by eapply rpc_step_inv|by eapply waits_step|by rewrite !length_insert| |].
  - intros i' n' st E'. destruct (decide (n' = n)) as [->|Hn']; [done|].
    assert (ths !! i' = Some (n', st)) as Ei'.
    { destruct (decide (i = i')) as [<-|]; [|by rewrite list_lookup_insert_ne in E'].
      rewrite list_lookup_insert_eq in E' by (by eapply lookup_lt_Some). congruence. }
    eapply client_free_kept; [by apply Hkept|]. destruct (Hc _ _ _ Ei'). split; try done. lia.
  - intros i' n' st m E' Em'. destruct (decide (i = i')) as [<-|].
    + rewrite list_lookup_insert_eq in E' by (by eapply lookup_lt_Some). rewrite list_lookup_insert_eq in Em' by (by eapply lookup_lt_Some). simplify_eq. cbn.
      exists h, l, f, cc. rewrite Ha, lookup_insert_eq. by split_and!.
    + rewrite list_lookup_insert_ne in E' by done. rewrite list_lookup_insert_ne in Em' by done. eapply thread_good_kept; [by apply Hpends|done|by eapply Ht].
Qed.

(** A thread whose call has returned goes on. *)
Lemma return_inv ms s ths i n xid k ret un :
  test_inv ms (Test s ths) → ths !! i = Some (n, Waiting xid k) → Returned n xid ret un ∈ ss_returned s →
  test_inv ms (Test s (<[i := (n, Running (k ret un))]> ths)).
Proof.
  intros [Hi Hw Hlen Hc Ht] Ei Hd. cbn in *. split; cbn; [done|done|by rewrite length_insert| |].
  - intros i' n' st E'. destruct (decide (i = i')) as [<-|].
    + rewrite list_lookup_insert_eq in E' by (by eapply lookup_lt_Some). simplify_eq. by eapply Hc.
    + rewrite list_lookup_insert_ne in E' by done. by eapply Hc.
  - intros i' n' st m E' Em'. destruct (decide (i = i')) as [<-|].
    + rewrite list_lookup_insert_eq in E' by (by eapply lookup_lt_Some). simplify_eq. cbn.
      destruct (Ht _ _ _ _ Ei Em') as (h & l & f & cc & Ha & Hf & Hg & Hcc & Hgood & _).
      destruct (returned_reply s n' xid ret un h l f cc) as [-> ?]; auto.
    + rewrite list_lookup_insert_ne in E' by done. by eapply Ht.
Qed.

Lemma not_refused ms s ths i n proc req k ret :
  test_inv ms (Test s ths) → ths !! i = Some (n, Running (CallTo proc req k)) → begin_call s n proc req ≠ Ret (inl ret).
Proof.
  intros [Hi Hw Hlen Hc Ht] Ei Eb. cbn in *.
  destruct (lookup_lt_is_Some_2 ms i) as [m Em]; [rewrite Hlen; by eapply lookup_lt_Some|].
  pose proof (Ht _ _ _ _ Ei Em) as Hg. cbn in Hg. inversion Hg as [|m' ? ? h0 l ? f cc Hrep Hfit Hp Hp' Hf Hgive Hcc Hk]; subst.
  pose proof (sum_list_insert ms i (S m') m' Em) as Hsum.
  destruct (begin_call_ok s n (sum_list (<[i := m']> ms)) proc req h0 l Hi) as (xid' & s1 & h & E & _); try done; [|congruence].
  replace (S _) with (sum_list ms) by lia. by eapply Hc.
Qed.

Lemma test_step_inv ms t t' : test_inv ms t → test_step t t' → ∃ ms', test_inv ms' t'.
Proof.
  intros Hi Hstep. destruct Hstep as [s s' ths Hq|s ths i n proc req k xid s' Ei _ Eb|s ths i n proc req k ret Ei Eb|s ths i n xid k ret un Ei Hd].
  - exists ms. by eapply system_inv.
  - destruct (call_inv _ _ _ _ _ _ _ _ _ _ Hi Ei Eb) as (m & _ & ?). eauto.
  - by destruct (not_refused _ _ _ _ _ _ _ _ ret Hi Ei).
  - exists ms. by eapply return_inv.
Qed.

Lemma test_inv_good ms t i n f : test_inv ms t → te_threads t !! i ≠ Some (n, Running (Abort f)).
Proof.
  intros [_ _ Hlen _ Ht] Ei. destruct (lookup_lt_is_Some_2 ms i) as [m Em]; [rewrite Hlen; by eapply lookup_lt_Some|].
  pose proof (Ht _ _ _ _ Ei Em) as Hg. inversion Hg.
Qed.

(** ** The tests can be completed *)

Lemma gives_returns f l cc : handler_gives f l cc → fits cc → handler_returns fill f l.
Proof. intros Hg Hf u [] Hu. destruct (Hg u Hu) as (m & hh & -> & Hm). exists 0, m, (), hh, cc. by split_and!. Qed.

Lemma system_steps ms s s' ths :
  rtc (quiet_step fill procs nonce) s s' → test_inv ms (Test s ths) → rtc test_step (Test s ths) (Test s' ths) ∧ test_inv ms (Test s' ths).
Proof.
  induction 1 as [s|s s1 s' Hstep _ IH]; intros Hi; [by split; [apply rtc_refl|]|].
  destruct IH as [Hr Hi']; [by eapply system_inv|]. split; [|done]. eapply rtc_l; [by apply test_system|done].
Qed.

(** The call of a thread that waits returns. *)
Lemma waiting_goes_on ms s ths i n xid k :
  test_inv ms (Test s ths) → ths !! i = Some (n, Waiting xid k) →
  ∃ s' p, rtc test_step (Test s ths) (Test s' (<[i := (n, Running p)]> ths)) ∧ test_inv ms (Test s' (<[i := (n, Running p)]> ths)).
Proof.
  intros Hi Ei.
  assert (∀ s1, rtc (quiet_step fill procs nonce) s s1 → (∃ ret un, Returned n xid ret un ∈ ss_returned s1) →
    ∃ s' p, rtc test_step (Test s ths) (Test s' (<[i := (n, Running p)]> ths)) ∧ test_inv ms (Test s' (<[i := (n, Running p)]> ths))) as Hret.
  { intros s1 Hr (ret & un & Hd). destruct (system_steps ms s s1 ths Hr Hi) as [Hr' Hi']. exists s1, (k ret un).
    split; [|by eapply return_inv]. eapply rtc_r; [exact Hr'|]. by eapply test_return. }
  assert (∀ s1 ca, rtc (quiet_step fill procs nonce) s s1 → rc_calls (cl_rpcc (ss_client s1 n)) !! xid = Some ca → ca_done ca = true →
    ∃ s' p, rtc test_step (Test s ths) (Test s' (<[i := (n, Running p)]> ths)) ∧ test_inv ms (Test s' (<[i := (n, Running p)]> ths))) as Hdone.
  { intros s1 ca Hr E Hd. destruct (system_steps ms s s1 ths Hr Hi) as [_ Hi'].
    destruct (done_returns fill procs nonce true () s1 n xid ca (ti_sys _ _ Hi') E Hd) as (s2 & ret & un & Hstep & Ha & Hin).
    apply (Hret s2); [|by exists ret, un]. eapply rtc_r; [exact Hr|]. by split. }
  destruct (lookup_lt_is_Some_2 ms i) as [m Em]; [rewrite (ti_length _ _ Hi); by eapply lookup_lt_Some|].
  destruct (ti_threads _ _ Hi _ _ _ _ Ei Em) as (h & l & f & cc & Ha & Hf & Hg & Hcc & _ & [[ca E]|Hd]).
  - destruct (ca_done ca) eqn:Hd; [by eapply (Hdone s ca (rtc_refl _ _))|]. cbn in *.
    destruct (call_completes fill procs nonce Hnonce Hbind () s n xid h l f) as (s1 & Hr & ca' & e & E' & Hd' & _);
      [by destruct Hi|by exists ca|done|done|by eapply gives_returns|]. by eapply (Hdone s1 ca').
  - by apply (Hret s (rtc_refl _ _)).
Qed.

Definition is_waiting (p : Z * tstate) : bool := match p.2 with Waiting _ _ => true | _ => false end.
Definition finished (t : test) : Prop := ∀ i n st, te_threads t !! i = Some (n, st) → st = Running Exit.

Definition waiting_count (ths : list (Z * tstate)) : nat := sum_list ((λ p, if is_waiting p then 1%nat else 0%nat) <$> ths).
Lemma waiting_count_insert ths i p q : ths !! i = Some p →
  (waiting_count (<[i := q]> ths) + (if is_waiting p then 1 else 0) = waiting_count ths + (if is_waiting q then 1 else 0))%nat.
Proof.
  intros E. unfold waiting_count. rewrite list_fmap_insert. apply sum_list_insert. by rewrite list_lookup_fmap, E.
Qed.

Definition is_over (p : Z * tstate) : bool := match p.2 with Running Exit => true | _ => false end.

Lemma finished_or_not (ths : list (Z * tstate)) : (∃ i n st, ths !! i = Some (n, st) ∧ is_over (n, st) = false) ∨
  ∀ i n st, ths !! i = Some (n, st) → st = Running Exit.
Proof.
  destruct (decide (Forall (λ p, is_over p = true) ths)) as [Hall|Hno].
  - right. intros i n st E. pose proof (Forall_lookup_1 _ _ _ _ Hall E) as Ho. by destruct st as [[]|].
  - left. apply not_Forall_Exists in Hno; [|intros x; apply _]. apply Exists_exists in Hno as ([n st] & Hin & Ho).
    apply list_elem_of_lookup in Hin as [i E]. exists i, n, st. split; [done|]. by apply not_true_is_false.
Qed.

Lemma can_finish b : ∀ ms t, (2 * sum_list ms + waiting_count (te_threads t) < b)%nat → test_inv ms t →
  ∃ t', rtc test_step t t' ∧ finished t'.
Proof.
  induction b as [|b IH]; intros ms [s ths] Hb Hi; [lia|]. cbn [te_threads] in Hb.
  destruct (finished_or_not ths) as [(i & n & st & Ei & Ho)|Hall]; [|exists (Test s ths); by split; [apply rtc_refl|]].
  destruct st as [p|xid k].
  - destruct p as [|f|proc req k]; [done|by destruct (test_inv_good ms _ i n f Hi)|].
    pose proof Hi as [Hsys _ Hlen Hc Ht]. cbn in Hsys, Hlen, Hc, Ht.
    destruct (lookup_lt_is_Some_2 ms i) as [m Em]; [rewrite Hlen; by eapply lookup_lt_Some|].
    pose proof (Ht _ _ _ _ Ei Em) as Hg. cbn in Hg. inversion Hg as [|m' ? ? h0 l ? f cc Hrep Hfit Hp Hp' Hf Hgive Hcc Hk]; subst.
    pose proof (sum_list_insert ms i (S m') m' Em) as Hsum. pose proof (Hc _ _ _ Ei) as Hfree.
    destruct (begin_call_ok s n (sum_list (<[i := m']> ms)) proc req h0 l Hsys) as (xid & s1 & h & E & _); try done.
    { by replace (S _) with (sum_list ms) by lia. }
    destruct (call_inv _ _ _ _ _ _ _ _ _ _ Hi Ei E) as (m & Em' & Hi'). rewrite Em in Em'. injection Em' as <-.
    pose proof (waiting_count_insert ths i _ (n, Waiting xid k) Ei) as Hcount. cbn [is_waiting snd] in Hcount.
    destruct (IH (<[i := m']> ms) (Test s1 (<[i := (n, Waiting xid k)]> ths))) as (t' & Hr & Hfin); [cbn [te_threads]; lia|done|]. exists t'. split; [|done].
    eapply rtc_l; [|exact Hr]. eapply test_call; [done| |done]. destruct Hfree. lia.
  - destruct (waiting_goes_on _ _ _ _ _ _ _ Hi Ei) as (s' & p & Hr & Hi').
    pose proof (waiting_count_insert ths i _ (n, Running p) Ei) as Hcount. cbn [is_waiting snd] in Hcount.
    destruct (IH ms (Test s' (<[i := (n, Running p)]> ths))) as (t' & Hr' & Hfin); [cbn [te_threads]; lia|done|]. exists t'. split; [by etrans|done].
Qed.

(** ** The tests *)

(** Threads that start with good programs, over clients that are bound. *)
Record tests_start (s : rpc_system srv) (ms : list nat) (ths : list (Z * tstate)) : Prop := {
  st_length : length ms = length ths;
  st_clients : ∀ i n st, ths !! i = Some (n, st) → 0 < n < 2 ^ 32 ∧ rc_bind_done (cl_rpcc (ss_client s n)) = true ∧
    rc_xid (cl_rpcc (ss_client s n)) + Z.of_nat (sum_list ms) < 2 ^ 31;
  st_good : ∀ i n st m, ths !! i = Some (n, st) → ms !! i = Some m → ∃ p, st = Running p ∧ good m p }.

(** No client of a patient system is cancelled. *)
Lemma patient_open lossy s n : rtc (rpc_step fill procs nonce true) (rpc_init lossy ()) s →
  rc_destroy_wait (cl_rpcc (ss_client s n)) = false.
Proof.
  revert s. apply (rtc_ind_r (λ s, rc_destroy_wait (cl_rpcc (ss_client s n)) = false)); [done|].
  intros s s' Hr Hstep IH.
  assert (ss_asked s' = ss_asked s ∨ rc_destroy_wait (cl_rpcc (ss_client s' n)) = false) as [Ha|?]; [|by rewrite (kp_open _ _ _ (quiet_kept s s' n (rpc_reachable_inv _ _ _ _ _ _ _ Hr) (conj Hstep Ha)))|done].
  destruct Hstep; cbn in *; try (by left). right. destruct (decide (n = n0)) as [->|]; [|by rewrite fn_lookup_insert_ne].
  rewrite fn_lookup_insert. cbn. by destruct (call1_begin_shape _ _ _ _ _ _ _ H5) as (_ & -> & _).
Qed.

Lemma tests_pass lossy s ms ths t :
  rtc (rpc_step fill procs nonce true) (rpc_init lossy ()) s → tests_start s ms ths → rtc test_step (Test s ths) t →
  (∀ i n f, te_threads t !! i ≠ Some (n, Running (Abort f))) ∧ ∃ t', rtc test_step t t' ∧ finished t'.
Proof.
  intros Hr [Hlen Hc Hg] Ht.
  assert (test_inv ms (Test s ths)) as Hi.
  { destruct (waiting_reachable fill procs nonce Hnonce Hbind lossy () s Hr) as [Hi Hw]. split; cbn; [done|done|done| |].
    - intros i n st E. destruct (Hc _ _ _ E) as (Hn & Hb & Hx). split; try done. by eapply patient_open.
    - intros i n st m E Em. by destruct (Hg _ _ _ _ E Em) as (p & -> & Hp). }
  assert (∃ ms', test_inv ms' t) as [ms' Hi'].
  { revert t Ht. apply (rtc_ind_r (λ t, ∃ ms, test_inv ms t)); [by exists ms|]. intros t t' _ Hstep [ms' Hi']. by eapply test_step_inv. }
  split; [intros i n f; by eapply test_inv_good|]. eapply can_finish; [apply Nat.lt_succ_diag_r|done].
Qed.
End threads.

(** A client that is bound and has made few calls. *)
Definition bound (s : rpc_system srv) (n : Z) : Prop :=
  0 < n < 2 ^ 32 ∧ rc_bind_done (cl_rpcc (ss_client s n)) = true ∧ rc_xid (cl_rpcc (ss_client s n)) < 2 ^ 30.

(** The threads of the three tests, for random numbers that are not negative
    and a clock that does not run backwards. *)
Inductive rpctest_threads (fill' : ascii) (s : rpc_system srv) : list (Z * tstate) → Prop :=
| threads_concurrent clients rs rs' :
    bound s (clients 0%nat) → bound s (clients 1%nat) →
    (∀ i, length (rs i) = 100%nat ∧ Forall (λ r, 0 ≤ r) (rs i)) → (∀ i, length (rs' i) = 100%nat ∧ Forall turn_ok (rs' i)) →
    rpctest_threads fill' s (concurrent_test fill' clients rs rs')
| threads_lossy clients rs :
    bound s (clients 0%nat) → Z.of_nat (length (rs 0%nat)) < 2 ^ 30 → Forall (λ r, 0 ≤ r) (rs 0%nat) →
    rpctest_threads fill' s (lossy_test fill' clients rs)
| threads_failure client junk :
    bound s client → rpctest_threads fill' s (failure_threads fill' client junk).

Lemma lookup_seq_fmap {A} (f : nat → A) k i x : (f <$> seq 0 k) !! i = Some x → (i < k)%nat ∧ x = f i.
Proof. rewrite list_lookup_fmap. intros (j & [-> ?]%lookup_seq & ->)%fmap_Some. split; [lia|done]. Qed.

Lemma rpctest_threads_start fill fill' (e : endpoint srv) s ths :
  srv_procs (ep_srv e) → rpctest_threads fill' s ths →
  ∃ ms, tests_start fill (rs_procs (ep_srv e)) s ms ths.
Proof.
  intros (_ & H23 & H24 & H25) [clients rs rs' H0 H1 Hrs Hrs'|clients rs H0 Hlen Hrs|client junk H0].
  - exists (replicate 10 200%nat). split; [done| |].
    + intros i n st [Hi E]%lookup_seq_fmap. assert (n = clients (i mod NUM_CL)%nat) as -> by exact (f_equal fst E).
      assert (bound s (clients (i mod NUM_CL)%nat)) as (? & ? & ?).
      { pose proof (Nat.mod_upper_bound i NUM_CL ltac:(done)). unfold NUM_CL in *. by destruct (i mod 2)%nat as [|[|]]; try lia. }
      split; [done|]. split; [done|]. change (sum_list (replicate 10 200%nat)) with 2000%nat. lia.
    + intros i n st m [Hi [= _ ->]]%lookup_seq_fmap [-> _]%lookup_replicate. eexists. split; [done|].
      destruct (Hrs i) as [E Hr], (Hrs' i) as [E' Hr'].
      replace 200%nat with (length (rs i) + length (rs' i))%nat by lia. by apply good_client1.
  - exists [length (rs 0%nat)]. split; [done| |].
    + intros i n st [Hi [= -> _]]%lookup_seq_fmap. assert (i = 0%nat) as -> by lia. destruct H0 as (? & ? & ?).
      split; [done|]. split; [done|]. cbn. lia.
    + intros i n st m [Hi [= _ ->]]%lookup_seq_fmap. assert (i = 0%nat) as -> by lia. intros [= <-]. eexists. split; [done|]. by apply good_client2.
  - exists (replicate 10 4%nat). split; [done| |].
    + intros i n st [Hi [= -> _]]%lookup_seq_fmap. destruct H0 as (? & ? & ?). split; [done|]. split; [done|].
      change (sum_list (replicate 10 4%nat)) with 40%nat. lia.
    + intros i n st m [Hi [= _ ->]]%lookup_seq_fmap [-> _]%lookup_replicate. eexists. split; [done|]. by apply good_client3.
Qed.

(** C11: The threads of the library's own test pass.  The ten threads of
    [concurrent_test] that share two clients, the thread of [lossy_test], the
    ten threads of one client in [failure_test]: whatever the network loses,
    repeats and reorders, however the calls and the handlers overlap, and with
    RPC_LOSSY set or not, no check of a thread fails as long as the calls
    wait for their replies; and from every point of such a run all threads
    can still come to their end. *)
Theorem rpctest_threads_pass fill fill' random count e lossy s ths t :
  startserver random count = Ret e →
  rtc (rpc_step fill (rs_procs (ep_srv e)) (rs_nonce (ep_srv e)) true) (rpc_init lossy ()) s →
  rpctest_threads fill' s ths → rtc (test_step fill (rs_procs (ep_srv e)) (rs_nonce (ep_srv e))) (Test s ths) t →
  (∀ i n f, te_threads t !! i ≠ Some (n, Running (Abort f))) ∧
  ∃ t', rtc (test_step fill (rs_procs (ep_srv e)) (rs_nonce (ep_srv e))) t t' ∧ finished t'.
Proof.
  intros He Hr Hths Ht. destruct (startserver_ok random count) as (e' & He' & Hst & Hp). rewrite He in He'. injection He' as <-.
  destruct (rpctest_threads_start fill fill' e s ths Hp Hths) as [ms Hs]. destruct Hst.
  refine (tests_pass fill _ _ _ _ lossy s ms ths t Hr Hs Ht); [|by rewrite sd_nonce]. rewrite sd_nonce. apply u32_range.
Qed.

(** ** A run *)

Lemma quiet_run fill (procs : gmap Z (handler srv)) nonce s s' n :
  in_u32 nonce → procs !! rpc_const.bind = Some (rpcs_reg1 (rpcbind nonce)) →
  rtc (quiet_step fill procs nonce) s s' → sys_inv fill procs nonce () s → sys_waits nonce s →
  rc_xid (cl_rpcc (ss_client s' n)) = rc_xid (cl_rpcc (ss_client s n)) ∧ ss_asked s' = ss_asked s ∧
  sys_inv fill procs nonce () s' ∧ sys_waits nonce s'.
Proof.
  intros Hnon Hb. induction 1 as [s|s s1 s' Hstep _ IH]; intros Hi Hw; [done|].
  pose proof (kp_xid _ _ _ (quiet_kept fill procs nonce s s1 n Hi Hstep)) as Hx. destruct Hstep as [Hstep Ha].
  destruct IH as (Hx' & Ha' & Hi' & Hw'); [by eapply rpc_step_inv|by eapply waits_step|]. split_and!; [congruence|congruence|done|done].
Qed.

(** A client binds. *)
Lemma client_binds fill (procs : gmap Z (handler srv)) nonce lossy n :
  in_u32 nonce → procs !! rpc_const.bind = Some (rpcs_reg1 (rpcbind nonce)) → 0 < n < 2 ^ 32 →
  ∃ s, rtc (rpc_step fill procs nonce true) (rpc_init lossy ()) s ∧ bound s n.
Proof.
  intros Hnon Hb Hn. destruct (bind_begins fill procs nonce true lossy () n Hn) as (s1 & h & H1 & Hout & Ha & Hp & Hx).
  pose proof (rtc_once _ _ H1) as Hr1. pose proof (waiting_reachable fill procs nonce Hnon Hb lossy () s1 Hr1) as Hi1.
  assert (procs !! rq_proc h = Some (rpcs_reg1 (rpcbind nonce))) as Hf by (by rewrite Hp).
  destruct (call_completes fill procs nonce Hnon Hb () s1 n 1 h _ _ Hi1 Hout Ha Hf (bind_returns fill nonce)) as (s2 & Hq & ca & e & E & Hd & _).
  destruct (quiet_run fill procs nonce s1 s2 n Hnon Hb Hq) as (_ & _ & Hi2 & _); [apply Hi1|apply Hi1|].
  destruct (done_returns fill procs nonce true () s2 n 1 ca Hi2 E Hd) as (s3 & ret & un & H3 & Ha3 & Hin).
  assert (rtc (quiet_step fill procs nonce) s1 s3) as Hq3 by (eapply rtc_r; [exact Hq|by split]).
  destruct (quiet_run fill procs nonce s1 s3 n Hnon Hb Hq3) as (Hx3 & Ha4 & Hi3 & Hw3); [apply Hi1|apply Hi1|].
  rewrite <- Ha4 in Ha.
  destruct (returned_reply fill procs nonce s3 n 1 ret un h _ _ (enc (A:=int) (s32 nonce)) Hi3 Hw3 Hin Ha Hf) as [-> Hread].
  { apply (serves_gives fill (A:=int) (R:=int)); [by apply reg1_serves|apply s32_range|done]. }
  rewrite <- (app_nil_r (enc _)) in Hread. destruct (get_ok (A:=int) un [] (s32 nonce) 0 Hread (s32_range nonce)) as (un' & Eget & _).
  destruct s3 as [C A Q M J o L R D]. cbn in Hin, Ha, Hx3.
  eexists. split.
  - eapply rtc_r; [etrans; [exact Hr1|by apply quiet_steps]|]. by eapply (sys_bind _ _ _ _ C A Q M J o L R D n 1 h _ 0 un _ un').
  - split; [done|]. cbn. rewrite fn_lookup_insert. cbn. by rewrite Hx3, Hx.
Qed.

Lemma rpctest_threads_pass_witness : ∃ e s,
  startserver 22 0 = Ret e ∧
  ∀ t, rtc (test_step "a"%char (rs_procs (ep_srv e)) (rs_nonce (ep_srv e))) (Test s (lossy_test "b"%char (λ _, 7) (λ _, [5; 1999]))) t →
    (∀ i n f, te_threads t !! i ≠ Some (n, Running (Abort f))) ∧
    ∃ t', rtc (test_step "a"%char (rs_procs (ep_srv e)) (rs_nonce (ep_srv e))) t t' ∧ finished t'.
Proof.
  destruct (startserver_ok 22 0) as (e & He & Hst & _). destruct Hst.
  destruct (client_binds "a"%char (rs_procs (ep_srv e)) (rs_nonce (ep_srv e)) 5 7) as (s & Hr & Hbound).
  - rewrite sd_nonce. vm_compute. split; congruence.
  - rewrite sd_nonce. exact sd_bind.
  - lia.
  - exists e, s. split; [exact He|]. intros t Ht.
    apply (rpctest_threads_pass "a"%char "b"%char 22 0 e 5 s (lossy_test "b"%char (λ _, 7) (λ _, [5; 1999])) t He Hr); [|exact Ht].
    apply threads_lossy; [exact Hbound|cbn; lia|repeat constructor; lia].
Defined.
