(* ===== verification/Paxos.v ===== *)
(** * Paxos: acceptor, durable log and proposer (paxos.cc, paxos.h, log.cc, log.h)

    The acceptor's state includes its log file, as the list of its
    characters, because every operation writes to it and a restarted acceptor
    reads it back.  The up-call [cfg->paxos_commit] is the last thing its
    callers do, so an operation returns it as a value.  The proposer is
    written against a record of operations, [paxos_net], that stands for the
    remote procedure calls to the other nodes and for its own acceptor. *)

From S2P Require Import Prelude Marshall Protocols Stubs Streams.

(** ** Sets of nodes *)

(** The loops run over the index; the comma goes after every element but the
    last. *)
Fixpoint print_members (nodes : list string) : string :=
  match nodes with
  | [] => ""
  | [x] => x
  | x :: nodes => x +:+ "," +:+ print_members nodes
  end.

Fixpoint isamember (m : string) (nodes : list string) : bool :=
  match nodes with
  | [] => false
  | x :: nodes => if bool_decide (x = m) then true else isamember m nodes
  end.

(** The number of servers of [l1] that are in [l2]. *)
Fixpoint count_members (l1 l2 : list string) : Z :=
  match l1 with
  | [] => 0
  | x :: l1 => (if isamember x l2 then 1 else 0) + count_members l1 l2
  end.

Definition majority (l1 l2 : list string) : bool :=
  Z.shiftr (Z.of_nat (length l1)) 1 + 1 <=? count_members l1 l2.

(** ** The log file *)

(** The fields with a space between them, and a newline. *)
Fixpoint log_record (fields : list (list ascii)) : list ascii :=
  match fields with
  | [] => [newline]
  | [f] => f ++ [newline]
  | f :: fields => f ++ space :: log_record fields
  end.

(** Each function appends to the file it is given. *)
Definition loginstance (file : list ascii) (instance : Z) (v : string) : list ascii :=
  file ++ log_record [chars "done"; show_unsigned instance; chars v].
Definition logprop (file : list ascii) (n_h : prop_t) : list ascii :=
  file ++ log_record [chars "propseen"; show_unsigned (pn n_h); chars (pm n_h)].
Definition logaccept (file : list ascii) (n : prop_t) (v : string) : list ascii :=
  file ++ log_record [chars "accepted"; show_unsigned (pn n); chars (pm n); chars v].

(** ** The acceptor *)

(** [ac_cfg]: whether a configuration object is to be told of commits. *)
Record acceptor := Acceptor {
  ac_me : string;
  ac_cfg : bool;
  n_h : prop_t;
  n_a : prop_t;
  v_a : string;
  instance_h : Z;
  values : gmap Z string;
  ac_log : list ascii }.

Definition set_prop (s : acceptor) (nh : prop_t) : acceptor :=
  Acceptor (ac_me s) (ac_cfg s) nh (n_a s) (v_a s) (instance_h s) (values s) (ac_log s).
Definition set_accepted (s : acceptor) (na : prop_t) (v : string) : acceptor :=
  Acceptor (ac_me s) (ac_cfg s) (n_h s) na v (instance_h s) (values s) (ac_log s).
Definition set_values (s : acceptor) (m : gmap Z string) : acceptor :=
  Acceptor (ac_me s) (ac_cfg s) (n_h s) (n_a s) (v_a s) (instance_h s) m (ac_log s).
Definition set_log (s : acceptor) (f : list ascii) : acceptor :=
  Acceptor (ac_me s) (ac_cfg s) (n_h s) (n_a s) (v_a s) (instance_h s) (values s) f.

(** One record of the file, after its type was read. *)
Definition logread_record (type : string) (from : istream) (s : acceptor)
    : res (istream * acceptor) :=
  if bool_decide (type = "done") then
    let '(instance, from) := read_unsigned from 0 in
    let from := read_char from in
    let '(v, from) := read_line from "" in
    Ret (from, Acceptor (ac_me s) (ac_cfg s) (Prop_t 0 (pm (n_h s))) (Prop_t 0 (pm (n_a s))) ""
                 instance (<[instance := v]> (values s)) (ac_log s))
  else if bool_decide (type = "propseen") then
    let '(n, from) := read_unsigned from (pn (n_h s)) in
    let '(m, from) := read_word from (pm (n_h s)) in
    Ret (from, set_prop s (Prop_t n m))
  else if bool_decide (type = "accepted") then
    let '(n, from) := read_unsigned from (pn (n_a s)) in
    let '(m, from) := read_word from (pm (n_a s)) in
    let from := read_char from in
    let '(v, from) := read_line from "" in
    Ret (from, set_accepted s (Prop_t n m) v)
  else VERIFY false;; Ret (from, s).

(** [while (from >> type)]; each turn reads at least one character. *)
Fixpoint logread_loop (fuel : nat) (from : istream) (s : acceptor) : res acceptor :=
  match fuel with
  | O => Ret s
  | S fuel =>
      let '(type, from) := read_word from "" in
      if is_fail from then Ret s else
      '(from, s) ← logread_record type from s;
      logread_loop fuel from s
  end.

Definition logread (s : acceptor) : res acceptor :=
  logread_loop (S (length (ac_log s))) (istream_of (ac_log s)) s.

(** [dump]: the lines of the file, each with a newline. *)
Fixpoint dump_loop (fuel : nat) (from : istream) (r : list ascii) : list ascii :=
  match fuel with
  | O => r
  | S fuel =>
      let '(v, from) := read_line from "" in
      if is_fail from then r else dump_loop fuel from (r ++ chars v ++ [newline])
  end.
Definition dump (s : acceptor) : string :=
  of_chars (dump_loop (S (length (ac_log s))) (istream_of (ac_log s)) []).

(** [log::restore] truncates the file; the acceptor then reads it. *)
Definition restore (s : acceptor) (contents : string) : res acceptor :=
  logread (set_log s (chars contents)).

(** The constructor, for a node that finds [file] on its disk. *)
Definition acceptor_new (cfg first : bool) (me value : string) (file : list ascii) : res acceptor :=
  s ← logread (Acceptor me cfg (Prop_t 0 me) (Prop_t 0 me) "" 0 ∅ file);
  if (instance_h s =? 0) && first then
    Ret (Acceptor me cfg (n_h s) (n_a s) (v_a s) 1 (<[1 := value]> (values s))
           (loginstance (ac_log s) 1 value))
  else Ret s.

Definition value (s : acceptor) (instance : Z) : string * acceptor :=
  let '(v, m) := map_ref "" (values s) instance in (v, set_values s m).

Definition preparereq (src : string) (a : preparearg) (r : prepareres) (s : acceptor)
    : res (Z * prepareres * acceptor) :=
  if pa_instance a <=? instance_h s then
    let '(v, s) := value s (pa_instance a) in
    Ret (paxos_protocol.OK, PrepareRes true false (pr_n_a r) v, s)
  else if prop_gt (pa_n a) (n_h s) then
    let s := set_prop s (Prop_t (pn (pa_n a)) (pm (pa_n a))) in
    let r := PrepareRes false true (Prop_t (pn (n_a s)) (pm (n_a s))) (v_a s) in
    Ret (paxos_protocol.OK, r, set_log s (logprop (ac_log s) (n_h s)))
  else Ret (paxos_protocol.OK, PrepareRes false false (pr_n_a r) (pr_v_a r), s).

Definition acceptreq (src : string) (a : acceptarg) (r : bool) (s : acceptor)
    : res (Z * bool * acceptor) :=
  if prop_ge (aa_n a) (n_h s) then
    let s := set_accepted s (Prop_t (pn (aa_n a)) (pm (aa_n a))) (aa_v a) in
    Ret (paxos_protocol.OK, true, set_log s (logaccept (ac_log s) (n_a s) (v_a s)))
  else Ret (paxos_protocol.OK, false, s).

(** The up-call of a commit, if there is one. *)
Definition upcall := option (Z * string).

Definition commit_wo (s : acceptor) (instance : Z) (value : string) : acceptor * upcall :=
  if instance_h s <? instance then
    (Acceptor (ac_me s) (ac_cfg s) (Prop_t 0 (ac_me s)) (Prop_t 0 (ac_me s)) "" instance
       (<[instance := value]> (values s)) (loginstance (ac_log s) instance value),
     if ac_cfg s then Some (instance, value) else None)
  else (s, None).

Definition commit (s : acceptor) (instance : Z) (value : string) : acceptor * upcall :=
  commit_wo s instance value.

Definition decidereq (src : string) (a : decidearg) (r : int) (s : acceptor)
    : res (Z * int * (acceptor * upcall)) :=
  if da_instance a =? u32 (instance_h s + 1) then
    VERIFY (bool_decide (v_a s = da_v a));;
    Ret (paxos_protocol.OK, r, commit_wo s (da_instance a) (v_a s))
  else if da_instance a <=? instance_h s then Ret (paxos_protocol.OK, r, (s, None))
  else VERIFY false;; Ret (paxos_protocol.OK, r, (s, None)).

(** ** The proposer *)

Record proposer := Proposer {
  pr_me : string; pr_break1 : bool; pr_break2 : bool; pr_stable : bool; my_n : prop_t }.

Definition proposer_new (me : string) : proposer :=
  Proposer me false false true (Prop_t 0 me).

Definition isrunning (p : proposer) : bool := negb (pr_stable p).

Definition set_stable (p : proposer) (b : bool) : proposer :=
  Proposer (pr_me p) (pr_break1 p) (pr_break2 p) b (my_n p).

Definition breakpoint1 (p : proposer) : res () := if pr_break1 p then Fail Exited else Ret ().
Definition breakpoint2 (p : proposer) : res () := if pr_break2 p then Fail Exited else Ret ().
Definition breakpoint (p : proposer) (b : Z) : proposer :=
  if b =? 3 then Proposer (pr_me p) true (pr_break2 p) (pr_stable p) (my_n p)
  else if b =? 4 then Proposer (pr_me p) (pr_break1 p) true (pr_stable p) (my_n p)
  else p.

(** What a proposer can do to the world [W]: call a node ([None] when
    [safebind] finds no connection, otherwise the status and the reply),
    commit at its own acceptor, and read that acceptor's [n_h]. *)
Record paxos_net (W : Type) := PaxosNet {
  net_prepare : string → string → preparearg → W → option (Z * prepareres) * W;
  net_accept : string → string → acceptarg → W → option (Z * bool) * W;
  net_decide : string → string → decidearg → W → W;
  net_commit : Z → string → W → W;
  net_n_h : W → prop_t }.
Arguments PaxosNet {W}.
Arguments net_prepare {W}.
Arguments net_accept {W}.
Arguments net_decide {W}.
Arguments net_commit {W}.
Arguments net_n_h {W}.

(** What [prepare] has collected: the nodes that accepted, the highest [n_a]
    among them and its value. *)
Record prepared := Prepared { pp_accepts : list string; pp_max : prop_t; pp_v : string }.

(** The effect of a positive reply. *)
Definition prepare_reply (st : prepared) (cid : string) (r : prepareres) : prepared :=
  if prop_gt (pr_n_a r) (pp_max st)
  then Prepared (pp_accepts st ++ [cid]) (Prop_t (pn (pr_n_a r)) (pm (pr_n_a r))) (pr_v_a r)
  else Prepared (pp_accepts st ++ [cid]) (pp_max st) (pp_v st).

Section proposer.
Context {W : Type} (net : paxos_net W).

Definition setn (p : proposer) (w : W) : proposer :=
  let a := u32 (pn (net_n_h net w) + 1) in
  let b := u32 (pn (my_n p) + 1) in
  Proposer (pr_me p) (pr_break1 p) (pr_break2 p) (pr_stable p)
    (Prop_t (if b <? a then a else b) (pm (my_n p))).

(** The loop of [prepare] over the nodes that are left. *)
Fixpoint prepare_loop (me : string) (a : preparearg) (nodes : list string) (st : prepared) (w : W)
    : bool * prepared * W :=
  match nodes with
  | [] => (true, st, w)
  | cid :: nodes =>
      match net_prepare net me cid a w with
      | (None, w) => prepare_loop me a nodes st w
      | (Some (ret, r), w) =>
          if ret =? paxos_protocol.OK then
            if pr_oldinstance r then (false, st, net_commit net (pa_instance a) (pr_v_a r) w)
            else if pr_accept r then prepare_loop me a nodes (prepare_reply st cid r) w
            else prepare_loop me a nodes st w
          else prepare_loop me a nodes st w
      end
  end.

Definition prepare (p : proposer) (instance : Z) (nodes : list string) (v : string) (w : W)
    : bool * prepared * W :=
  prepare_loop (pr_me p) (PrepareArg instance (my_n p)) nodes (Prepared [] (Prop_t 0 "") v) w.

Fixpoint accept_loop (me : string) (a : acceptarg) (nodes : list string) (accepts : list string)
    (w : W) : list string * W :=
  match nodes with
  | [] => (accepts, w)
  | cid :: nodes =>
      match net_accept net me cid a w with
      | (None, w) => accept_loop me a nodes accepts w
      | (Some (ret, r), w) =>
          if r && (ret =? paxos_protocol.OK)
          then accept_loop me a nodes (accepts ++ [cid]) w
          else accept_loop me a nodes accepts w
      end
  end.

Definition accept (p : proposer) (instance : Z) (nodes : list string) (v : string) (w : W)
    : list string * W :=
  accept_loop (pr_me p) (AcceptArg instance (my_n p) v) nodes [] w.

Definition decide_nodes (p : proposer) (instance : Z) (accepts : list string) (v : string) (w : W)
    : W :=
  foldl (λ w cid, net_decide net (pr_me p) cid (DecideArg instance v) w) w accepts.

Definition run (p : proposer) (instance : Z) (cur_nodes : list string) (newv : string) (w : W)
    : res (bool * proposer * W) :=
  if negb (pr_stable p) then Ret (false, p, w) else
  let instance := u32 instance in
  let p := setn (set_stable p false) w in
  let '(ok, st, w) := prepare p instance cur_nodes "" w in
  if negb ok then Ret (false, set_stable p true, w) else
  if negb (majority cur_nodes (pp_accepts st)) then Ret (false, set_stable p true, w) else
  let v := if string_size (pp_v st) =? 0 then newv else pp_v st in
  breakpoint1 p;;
  let '(accepts, w) := accept p instance (pp_accepts st) v w in
  if negb (majority cur_nodes accepts) then Ret (false, set_stable p true, w) else
  breakpoint2 p;;
  let w := decide_nodes p instance accepts v w in
  Ret (true, set_stable p true, w).
End proposer.

(** ** Quorums *)

Lemma isamember_spec m nodes : isamember m nodes = true ↔ m ∈ nodes.
Proof.
  induction nodes as [|x nodes IH]; cbn; [by rewrite elem_of_nil|].
  rewrite elem_of_cons. destruct (bool_decide_reflect (x = m)) as [->|Hne]; [naive_solver|].
  rewrite IH. naive_solver.
Qed.

Lemma count_members_inter l l1 l2 :
  (∀ x, x ∈ l → x ∈ l1 → x ∉ l2) → count_members l l1 + count_members l l2 ≤ Z.of_nat (length l).
Proof.
  induction l as [|x l IH]; intros Hd; cbn [count_members length]; [lia|].
  assert (count_members l l1 + count_members l l2 ≤ Z.of_nat (length l)).
  { apply IH. intros y Hy. apply Hd. by right. }
  destruct (isamember x l1) eqn:E1, (isamember x l2) eqn:E2; try lia.
  exfalso. apply isamember_spec in E1, E2. apply (Hd x); [left|done..].
Qed.

Lemma quorum_intersection l l1 l2 :
  majority l l1 = true → majority l l2 = true → ∃ x, x ∈ l ∧ x ∈ l1 ∧ x ∈ l2.
Proof.
  unfold majority. intros H1 H2.
  destruct (decide (Exists (λ x, x ∈ l1 ∧ x ∈ l2) l)) as [(x & ? & ? & ?)%Exists_exists|Hn]; [by eauto|].
  assert (count_members l l1 + count_members l l2 ≤ Z.of_nat (length l)).
  { apply count_members_inter. intros x Hx Hx1 Hx2. apply Hn, Exists_exists. eauto. }
  rewrite Z.shiftr_div_pow2 in H1, H2 by lia. change (2 ^ 1) with 2 in *.
  pose proof (Z.div_mod (Z.of_nat (length l)) 2 ltac:(lia)).
  pose proof (Z.mod_pos_bound (Z.of_nat (length l)) 2 ltac:(lia)). lia.
Qed.

(** ** What a round of prepares finds *)

(** The collected state after the positive replies [rs], in order. *)
Definition collect (st : prepared) (rs : list (string * prepareres)) : prepared :=
  foldl (λ st p, prepare_reply st p.1 p.2) st rs.

Record collects (max0 : prop_t) (v0 : string) (rs : list (string * prepareres)) (st : prepared)
    : Prop := Collects {
  co_accepts : pp_accepts st = rs.*1;
  co_ge : ple max0 (pp_max st);
  co_upper : ∀ c r, (c, r) ∈ rs → ple (pr_n_a r) (pp_max st);
  co_value : (pp_max st = max0 ∧ pp_v st = v0) ∨
    ∃ c r, (c, r) ∈ rs ∧ pr_n_a r = pp_max st ∧ pr_v_a r = pp_v st }.

Lemma collects_snoc max0 v0 rs st c r :
  collects max0 v0 rs st → collects max0 v0 (rs ++ [(c, r)]) (prepare_reply st c r).
Proof.
  intros [Ha Hge Hup Hv]. unfold prepare_reply. destruct (prop_gt (pr_n_a r) (pp_max st)) eqn:E.
  - assert (plt (pp_max st) (pr_n_a r)) as Hlt by exact E.
    destruct (pr_n_a r) as [n m] eqn:En. cbn in *.
    split; cbn.
    + by rewrite Ha, fmap_app.
    + etrans; [exact Hge|]. apply ple_eq_or_plt. by right.
    + intros c' r' [Hin|Hin%list_elem_of_singleton]%elem_of_app.
      * etrans; [by eapply Hup|]. apply ple_eq_or_plt. by right.
      * injection Hin as -> ->. by rewrite En.
    + right. exists c, r. rewrite elem_of_app, list_elem_of_singleton. auto.
  - split; cbn.
    + by rewrite Ha, fmap_app.
    + done.
    + intros c' r' [Hin|Hin%list_elem_of_singleton]%elem_of_app; [by eapply Hup|].
      injection Hin as -> ->. apply ple_plt. unfold plt. by rewrite E.
    + destruct Hv as [?|(c' & r' & Hin & ?)]; [by left|]. right. exists c', r'.
      rewrite elem_of_app. auto.
Qed.

Lemma collect_collects max0 v0 rs : collects max0 v0 rs (collect (Prepared [] max0 v0) rs).
Proof.
  induction rs as [|[c r] rs IH] using rev_ind.
  - split; cbn; [done|done|by intros ? ? ?%elem_of_nil|by left].
  - unfold collect. rewrite foldl_app. cbn. by apply collects_snoc.
Qed.

(** The positive replies a run of the loop saw, oldest first. *)
Lemma prepare_loop_collect {W} (net : paxos_net W) me a nodes : ∀ rs max0 v0 w ok st w',
  prepare_loop net me a nodes (collect (Prepared [] max0 v0) rs) w = (ok, st, w') →
  ∃ rs', st = collect (Prepared [] max0 v0) (rs ++ rs') ∧ rs'.*1 `sublist_of` nodes ∧
    ∀ c r, (c, r) ∈ rs' → ∃ w1 w2, net_prepare net me c a w1 = (Some (paxos_protocol.OK, r), w2) ∧
      pr_accept r = true ∧ pr_oldinstance r = false.
Proof.
  induction nodes as [|cid nodes IH]; intros rs max0 v0 w ok st w' H; cbn [prepare_loop] in H.
  { injection H as <- <- <-. exists []. rewrite app_nil_r. split_and!; [done|done|].
    by intros ? ? ?%elem_of_nil. }
  destruct (net_prepare net me cid a w) as [[[ret r]|] w1] eqn:Ec.
  2: { destruct (IH _ _ _ _ _ _ _ H) as (rs' & ? & ? & ?). exists rs'.
       split_and!; [done|by constructor|done]. }
  destruct (Z.eqb_spec ret paxos_protocol.OK) as [->|].
  2: { destruct (IH _ _ _ _ _ _ _ H) as (rs' & ? & ? & ?). exists rs'.
       split_and!; [done|by constructor|done]. }
  destruct (pr_oldinstance r) eqn:Eo.
  { injection H as <- <- <-. exists []. rewrite app_nil_r. split_and!; [done|apply sublist_nil_l|].
    by intros ? ? ?%elem_of_nil. }
  destruct (pr_accept r) eqn:Ea.
  2: { destruct (IH _ _ _ _ _ _ _ H) as (rs' & ? & ? & ?). exists rs'.
       split_and!; [done|by constructor|done]. }
  change (prepare_reply _ cid r) with
    (foldl (λ st p, prepare_reply st p.1 p.2) (collect (Prepared [] max0 v0) rs) [(cid, r)]) in H.
  unfold collect in H. rewrite <- foldl_app in H.
  destruct (IH (rs ++ [(cid, r)]) _ _ _ _ _ _ H) as (rs' & -> & Hsub & Hrs).
  exists ((cid, r) :: rs'). split_and!.
  - by rewrite <- app_assoc.
  - cbn. by constructor.
  - intros c' r' [[= -> ->]|Hin]%elem_of_cons; [|by apply Hrs]. by exists w, w1.
Qed.

(** [prepare] does what its comment says, whatever the network does: it
    fills [accepts] with nodes that answered positively, in the order of the
    list, each for a reply it really got, and leaves in [v] the [v_a] that
    came with the highest [n_a] among these replies. *)
Theorem prepare_finds_highest {W} (net : paxos_net W) p instance nodes w ok st w' :
  prepare net p instance nodes "" w = (ok, st, w') →
  ∃ rs : list (string * prepareres),
    pp_accepts st = rs.*1 ∧ rs.*1 `sublist_of` nodes ∧
    (∀ c r, (c, r) ∈ rs → ∃ w1 w2,
      net_prepare net (pr_me p) c (PrepareArg instance (my_n p)) w1
        = (Some (paxos_protocol.OK, r), w2) ∧ pr_accept r = true) ∧
    ((pp_v st = "" ∧ ∀ c r, (c, r) ∈ rs → ple (pr_n_a r) (Prop_t 0 "")) ∨
     ∃ c r, (c, r) ∈ rs ∧ pp_v st = pr_v_a r ∧
       ∀ c' r', (c', r') ∈ rs → ple (pr_n_a r') (pr_n_a r)).
Proof.
  intros H.
  destruct (prepare_loop_collect net _ _ nodes [] (Prop_t 0 "") "" w ok st w' H)
    as (rs & -> & Hsub & Hrs).
  cbn [app]. destruct (collect_collects (Prop_t 0 "") "" rs) as [Ha _ Hup Hv].
  exists rs. split_and!; [done|done| |].
  - intros c r Hin. destruct (Hrs c r Hin) as (w1 & w2 & ? & ? & _). eauto.
  - destruct Hv as [[Em Ev]|(c & r & Hin & En & Ev)].
    + left. split; [done|]. intros c r Hin. rewrite <- Em. by eapply Hup.
    + right. exists c, r. split_and!; [done|done|]. intros c' r' Hin'. rewrite En. by eapply Hup.
Qed.

(** A network where nodes b and c answer, with proposals seen. *)
Definition demo_net : paxos_net () :=
  PaxosNet
    (λ _ c _ w, (if bool_decide (c = "b") then Some (0, PrepareRes false true (Prop_t 2 "b") "vb")
                 else if bool_decide (c = "c") then Some (0, PrepareRes false true (Prop_t 3 "a") "vc")
                 else None, w))
    (λ _ _ _ w, (None, w)) (λ _ _ _ w, w) (λ _ _ w, w) (λ _, Prop_t 0 "").

Lemma prepare_finds_highest_witness :
  ∃ st, prepare demo_net (proposer_new "a") 2 ["a"; "b"; "c"] "" () = (true, st, ()) ∧
    pp_accepts st = ["b"; "c"] ∧ pp_v st = "vc" ∧
    ∃ rs : list (string * prepareres), pp_accepts st = rs.*1 ∧ rs.*1 `sublist_of` ["a"; "b"; "c"].
Proof.
  eexists. split; [reflexivity|]. split; [reflexivity|]. split; [reflexivity|].
  destruct (prepare_finds_highest demo_net (proposer_new "a") 2 ["a"; "b"; "c"] () true _ () eq_refl)
    as (rs & Ha & Hs & _).
  exists rs. split; [exact Ha|exact Hs].
Defined.
