(* ===== verification/PaxosLog.v ===== *)
(** * The acceptor's log is durable (log.cc)

    An acceptor that is restarted on the log file it wrote comes back in the
    state it was in, up to two things the code does not restore: the name of
    the proposer in a proposal number 0, which [logread] leaves as it finds
    it where [commit_wo] sets it, and the empty entries that reading
    [values\[i\]] creates.  [acceptor_equiv] is equality up to these. *)

From S2P Require Import Prelude Marshall Protocols Stubs Streams Paxos.

(** ** Equivalent acceptors *)

Definition prop_equiv (a b : prop_t) : Prop := pn a = pn b ∧ (pn a ≠ 0 → pm a = pm b).

Record acceptor_equiv (s t : acceptor) : Prop := AcceptorEquiv {
  ae_me : ac_me s = ac_me t;
  ae_cfg : ac_cfg s = ac_cfg t;
  ae_n_h : prop_equiv (n_h s) (n_h t);
  ae_n_a : prop_equiv (n_a s) (n_a t);
  ae_v_a : v_a s = v_a t;
  ae_instance_h : instance_h s = instance_h t;
  ae_values : ∀ i, default "" (values s !! i) = default "" (values t !! i);
  ae_log : ac_log s = ac_log t }.

#[export] Instance prop_equiv_equivalence : Equivalence prop_equiv.
Proof.
  split; [done| |].
  - intros a b [H1 H2]. split; [done|]. intros H. symmetry. apply H2. congruence.
  - intros a b c [H1 H2] [H3 H4]. split; [congruence|]. intros H. rewrite H2 by done.
    apply H4. congruence.
Qed.

#[export] Instance acceptor_equiv_equivalence : Equivalence acceptor_equiv.
Proof.
  split.
  - by intros s.
  - intros s t []. by split; symmetry.
  - intros s t u [? ? ? ? ? ? Hv ?] [? ? ? ? ? ? Hv' ?]. split; try (by etrans).
    intros i. by rewrite Hv.
Qed.

(** ** Log entries *)

Inductive entry := Done (i : Z) (v : string) | PropSeen (n : prop_t) | Accepted (n : prop_t) (v : string).

Definition entry_bytes (e : entry) : list ascii :=
  match e with
  | Done i v => loginstance [] i v
  | PropSeen n => logprop [] n
  | Accepted n v => logaccept [] n v
  end.

Definition entry_wf (e : entry) : Prop :=
  match e with
  | Done i v => in_u32 i ∧ one_line (chars v)
  | PropSeen n => in_u32 (pn n) ∧ word (chars (pm n))
  | Accepted n v => in_u32 (pn n) ∧ word (chars (pm n)) ∧ one_line (chars v)
  end.

(** What [logread] does for an entry. *)
Definition entry_apply (s : acceptor) (e : entry) : acceptor :=
  match e with
  | Done i v =>
      Acceptor (ac_me s) (ac_cfg s) (Prop_t 0 (pm (n_h s))) (Prop_t 0 (pm (n_a s))) "" i
        (<[i := v]> (values s)) (ac_log s)
  | PropSeen n => set_prop s n
  | Accepted n v => set_accepted s n v
  end.

Definition entries_bytes (es : list entry) : list ascii := mjoin (entry_bytes <$> es).

Lemma done_bytes i v :
  loginstance [] i v = chars "done" ++ space :: show_unsigned i ++ space :: chars v ++ [newline].
Proof. done. Qed.

Lemma propseen_bytes n :
  logprop [] n = chars "propseen" ++ space :: show_unsigned (pn n) ++ space :: chars (pm n) ++ [newline].
Proof. done. Qed.

Lemma accepted_bytes n v :
  logaccept [] n v =
  chars "accepted" ++ space :: show_unsigned (pn n) ++ space :: chars (pm n) ++ space :: chars v ++ [newline].
Proof. done. Qed.

Lemma word_solid w r : word w → skip_space (w ++ r) = w ++ r.
Proof. intros. by apply skip_space_solid, word_starts. Qed.

Lemma read_unsigned_after x r x0 :
  in_u32 x → ends_word r →
  read_unsigned (IStream (space :: show_unsigned x ++ r) false) x0 = (x, IStream r false).
Proof.
  intros Hx Hr. assert (0 ≤ x < 2 ^ 64) by (wrap_unfold; lia).
  apply (read_number_ok _ _ x r); [done| |done|done|done].
  cbn [is_rest]. rewrite skip_space_one by done. apply word_solid. by apply show_unsigned_word.
Qed.

Lemma read_word_after w r s0 :
  word w → ends_word r →
  read_word (IStream (space :: w ++ r) false) s0 = (of_chars w, IStream r false).
Proof.
  intros Hw Hr. apply (read_word_ok _ w r); [done| |done|done].
  cbn [is_rest]. rewrite skip_space_one by done. exact (word_solid w r Hw).
Qed.

Lemma read_word_at w r s0 nl :
  word w → ends_word r → Forall (λ c, is_space c = true) nl →
  read_word (IStream (nl ++ w ++ r) false) s0 = (of_chars w, IStream r false).
Proof.
  intros Hw Hr Hnl. apply (read_word_ok _ w r); [done| |done|done]. cbn [is_rest].
  induction Hnl as [|c nl Hc _ IH]; [exact (word_solid w r Hw)|].
  cbn [app]. by rewrite skip_space_one.
Qed.

(** The type of the record and the rest of it.  Behind a "propseen" record
    the newline is left in the stream. *)
Lemma logread_record_ok e s nl rest :
  entry_wf e → Forall (λ c, is_space c = true) nl →
  ∃ type i nl', read_word (IStream (nl ++ entry_bytes e ++ rest) false) "" = (type, i) ∧
    is_fail i = false ∧ Forall (λ c, is_space c = true) nl' ∧
    logread_record type i s = Ret (IStream (nl' ++ rest) false, entry_apply s e).
Proof.
  intros Hwf Hnl. destruct e as [i v|n|n v]; cbn [entry_bytes entry_wf entry_apply] in *.
  - destruct Hwf as [Hi Hv]. rewrite done_bytes, <- app_assoc.
    do 2 eexists. exists []. rewrite read_word_at; [|split; [done|by repeat constructor]|done|done].
    split_and!; [done|done|done|]. unfold logread_record.
    rewrite of_chars_chars, bool_decide_eq_true_2 by done. cbn [app].
    rewrite <- app_assoc, read_unsigned_after by done.
    cbn [read_char is_fail is_rest app]. rewrite <- app_assoc.
    rewrite (read_line_ok _ (chars v) rest) by done. by rewrite of_chars_chars.
  - destruct Hwf as [Hn Hm]. rewrite propseen_bytes, <- app_assoc.
    do 2 eexists. exists [newline].
    rewrite read_word_at; [|split; [done|by repeat constructor]|done|done].
    split_and!; [done|done|by repeat constructor|]. unfold logread_record.
    rewrite of_chars_chars, bool_decide_eq_false_2, bool_decide_eq_true_2 by done. cbn [app].
    rewrite <- app_assoc, read_unsigned_after by done. cbn [app]. rewrite <- app_assoc.
    rewrite read_word_after by done. rewrite of_chars_chars. by destruct n.
  - destruct Hwf as (Hn & Hm & Hv). rewrite accepted_bytes, <- app_assoc.
    do 2 eexists. exists []. rewrite read_word_at; [|split; [done|by repeat constructor]|done|done].
    split_and!; [done|done|done|]. unfold logread_record.
    rewrite of_chars_chars, !bool_decide_eq_false_2, bool_decide_eq_true_2 by done. cbn [app].
    rewrite <- app_assoc, read_unsigned_after by done. cbn [app].
    rewrite <- app_assoc, read_word_after by done.
    cbn [read_char is_fail is_rest app]. rewrite <- app_assoc.
    rewrite (read_line_ok _ (chars v) rest) by done. rewrite !of_chars_chars. by destruct n.
Qed.

Lemma skip_all_space nl : Forall (λ c, is_space c = true) nl → skip_space nl = [].
Proof. induction 1 as [|c nl Hc _ IH]; [done|]. by rewrite skip_space_one. Qed.

Lemma logread_entries es : ∀ fuel nl s,
  (length es < fuel)%nat → Forall entry_wf es → Forall (λ c, is_space c = true) nl →
  logread_loop fuel (IStream (nl ++ entries_bytes es) false) s = Ret (foldl entry_apply s es).
Proof.
  induction es as [|e es IH]; intros [|fuel] nl s Hf Hwf Hnl; try (cbn in Hf; lia).
  - cbn [logread_loop]. unfold entries_bytes. cbn. rewrite app_nil_r.
    unfold read_word. cbn [is_fail is_rest]. by rewrite (skip_all_space nl).
  - apply Forall_cons in Hwf as [He Hwf]. cbn [logread_loop foldl].
    change (entries_bytes (e :: es)) with (entry_bytes e ++ entries_bytes es).
    destruct (logread_record_ok e s nl (entries_bytes es) He Hnl)
      as (type & i & nl' & -> & -> & Hnl' & ->).
    cbn [rbind]. apply IH; [cbn in Hf; lia|done|done].
Qed.

Lemma entries_bytes_length es : (length es ≤ length (entries_bytes es))%nat.
Proof.
  induction es as [|e es IH]; [done|].
  change (entries_bytes (e :: es)) with (entry_bytes e ++ entries_bytes es).
  rewrite length_app. cbn [length].
  assert (1 ≤ length (entry_bytes e))%nat.
  { destruct e; cbn [entry_bytes]; rewrite ?done_bytes, ?propseen_bytes, ?accepted_bytes, length_app;
      cbn [chars length]; lia. }
  lia.
Qed.

(** [logread] on a file the log functions wrote. *)
Lemma logread_log es s :
  Forall entry_wf es → ac_log s = entries_bytes es → logread s = Ret (foldl entry_apply s es).
Proof.
  intros Hwf E. unfold logread. rewrite E. apply (logread_entries es _ []); [|done|done].
  pose proof (entries_bytes_length es). lia.
Qed.

#[export] Instance entry_apply_proper :
  Proper (acceptor_equiv ==> eq ==> acceptor_equiv) entry_apply.
Proof.
  intros s t H e ? <-. destruct H. destruct e as [i v|n|n v]; split; cbn; try done.
  intros j. destruct (decide (i = j)) as [<-|].
  - by rewrite !lookup_insert_eq.
  - by rewrite !lookup_insert_ne.
Qed.

Lemma foldl_apply_equiv es s t :
  acceptor_equiv s t → acceptor_equiv (foldl entry_apply s es) (foldl entry_apply t es).
Proof. revert s t. induction es as [|e es IH]; cbn; intros s t H; [done|]. apply IH. by rewrite H. Qed.

(** ** What an acceptor writes is what it is *)

(** A node that finds [file] on its disk, before it reads it. *)
Definition blank (me : string) (cfg : bool) (file : list ascii) : acceptor :=
  Acceptor me cfg (Prop_t 0 me) (Prop_t 0 me) "" 0 ∅ file.

Definition logged (s : acceptor) : Prop :=
  one_line (chars (v_a s)) ∧ in_u32 (instance_h s) ∧
  ∃ es, ac_log s = entries_bytes es ∧ Forall entry_wf es ∧
    acceptor_equiv (foldl entry_apply (blank (ac_me s) (ac_cfg s) (ac_log s)) es) s.

Lemma foldl_apply_set_log es f s :
  foldl entry_apply (set_log s f) es = set_log (foldl entry_apply s es) f.
Proof.
  revert s. induction es as [|e es IH]; intros s; [done|]. cbn [foldl]. rewrite <- IH.
  by destruct e.
Qed.

Lemma set_log_equiv s t f : acceptor_equiv s t → acceptor_equiv (set_log s f) (set_log t f).
Proof. intros []. by split. Qed.

(** Appending the record of [e] while doing what reading it does. *)
Lemma logged_entry s s' e :
  logged s → entry_wf e → one_line (chars (v_a s')) → in_u32 (instance_h s') →
  ac_me s' = ac_me s → ac_cfg s' = ac_cfg s → ac_log s' = ac_log s ++ entry_bytes e →
  acceptor_equiv (set_log (entry_apply s e) (ac_log s')) s' → logged s'.
Proof.
  intros (_ & _ & es & El & Hwf & Heq) He Hv Hi Eme Ecfg Elog Hs'.
  split_and!; [done|done|]. exists (es ++ [e]). split_and!.
  - unfold entries_bytes in *. rewrite Elog, El, fmap_app, join_app. cbn. by rewrite app_nil_r.
  - apply Forall_app. auto.
  - rewrite foldl_app. cbn [foldl]. etrans; [|exact Hs']. rewrite Eme, Ecfg.
    change (blank (ac_me s) (ac_cfg s) (ac_log s'))
      with (set_log (blank (ac_me s) (ac_cfg s) (ac_log s)) (ac_log s')).
    rewrite foldl_apply_set_log.
    transitivity (entry_apply (set_log s (ac_log s')) e).
    + apply entry_apply_proper; [|done]. by apply set_log_equiv.
    + by destruct e.
Qed.

(** Requests as the protocol sends them: names of nodes are words, values
    are lines. *)
Inductive acceptor_op : acceptor → acceptor → Prop :=
| op_prepare src a r s ret r' s' :
    in_u32 (pn (pa_n a)) → word (chars (pm (pa_n a))) →
    preparereq src a r s = Ret (ret, r', s') → acceptor_op s s'
| op_accept src a r s ret r' s' :
    in_u32 (pn (aa_n a)) → word (chars (pm (aa_n a))) → one_line (chars (aa_v a)) →
    acceptreq src a r s = Ret (ret, r', s') → acceptor_op s s'
| op_decide src a r s ret r' s' u :
    decidereq src a r s = Ret (ret, r', (s', u)) → acceptor_op s s'
| op_commit i v s s' u :
    in_u32 i → one_line (chars v) → commit s i v = (s', u) → acceptor_op s s'.

Lemma commit_wo_logged s i v s' u :
  logged s → in_u32 i → one_line (chars v) → commit_wo s i v = (s', u) → logged s'.
Proof.
  intros Hl Hi Hv. unfold commit_wo. destruct (_ <? _); intros [= <- <-]; [|done].
  apply (logged_entry s _ (Done i v)); try done. apply not_elem_of_nil.
Qed.

Lemma acceptor_op_logged s s' : acceptor_op s s' → logged s → logged s'.
Proof.
  intros Hop Hl. destruct Hop as [src a r s ret r' s' Hn Hm H|src a r s ret r' s' Hn Hm Hv H
    |src a r s ret r' s' u H|i v s s' u Hi Hv H].
  - unfold preparereq in H. destruct (_ <=? _).
    { unfold value in H. destruct (map_ref _ _ _) as [v m] eqn:E. injection H as <- <- <-.
      destruct Hl as (? & ? & es & ? & ? & Heq). split_and!; [done|done|]. exists es.
      split_and!; [done|done|]. cbn. rewrite Heq. split; cbn; try done.
      intros i. pose proof (map_ref_snd_default "" (values s) (pa_instance a) i) as Hd.
      by rewrite E in Hd. }
    destruct (prop_gt _ _); injection H as <- <- <-; [|done]. destruct (pa_n a) as [n m]; cbn in *.
    destruct Hl as (? & ? & Hl). by apply (logged_entry s _ (PropSeen (Prop_t n m))).
  - unfold acceptreq in H. destruct (prop_ge _ _); injection H as <- <- <-; [|done].
    destruct (aa_n a) as [n m]; cbn in *. pose proof Hl as (? & ? & _).
    by apply (logged_entry s _ (Accepted (Prop_t n m) (aa_v a))).
  - unfold decidereq in H. destruct (Z.eqb_spec (da_instance a) (u32 (instance_h s + 1))) as [E|].
    + apply rbind_Ret in H as ([] & _ & [= <- <- Hc]). pose proof Hl as (? & ? & _).
      eapply commit_wo_logged; [done| |done|exact Hc]. rewrite E. auto with machine.
    + destruct (_ <=? _); [by simplify_eq|]. done.
  - by eapply commit_wo_logged.
Qed.

Lemma blank_logged me cfg : logged (blank me cfg []).
Proof. split_and!; [apply not_elem_of_nil|done|]. by exists []. Qed.

Lemma logread_logged s :
  logged s → ∃ t, logread (blank (ac_me s) (ac_cfg s) (ac_log s)) = Ret t ∧ acceptor_equiv t s.
Proof.
  intros (_ & _ & es & El & Hwf & Heq). eexists. split; [|exact Heq]. by apply logread_log.
Qed.

Lemma acceptor_new_logged cfg first me v s :
  one_line (chars v) → acceptor_new cfg first me v [] = Ret s →
  logged s ∧ ac_me s = me ∧ ac_cfg s = cfg ∧ (first = true → instance_h s ≠ 0).
Proof.
  intros Hv H. unfold acceptor_new in H. change (logread _) with (Ret (blank me cfg [])) in H.
  cbn [rbind instance_h blank] in H. destruct first; injection H as <-.
  - split_and!; [|done|done|done].
    apply (logged_entry (blank me cfg []) _ (Done 1 v)); try done; [apply blank_logged|].
    apply not_elem_of_nil.
  - split_and!; [apply blank_logged|done|done|done].
Qed.

Lemma acceptor_op_keeps s s' :
  acceptor_op s s' → ac_me s' = ac_me s ∧ ac_cfg s' = ac_cfg s ∧ instance_h s ≤ instance_h s'.
Proof.
  assert (∀ s i v s' u, commit_wo s i v = (s', u) →
    ac_me s' = ac_me s ∧ ac_cfg s' = ac_cfg s ∧ instance_h s ≤ instance_h s') as Hc.
  { intros s0 i v s1 u. unfold commit_wo.
    destruct (Z.ltb_spec (instance_h s0) i); intros [= <- <-]; cbn; split_and!; (done || lia). }
  intros [src a r s0 ret r' s1 Hn Hm H|src a r s0 ret r' s1 Hn Hm Hv H
    |src a r s0 ret r' s1 u H|i v s0 s1 u Hi Hv H].
  - unfold preparereq, value in H. repeat case_match; by simplify_eq/=.
  - unfold acceptreq in H. repeat case_match; by simplify_eq/=.
  - unfold decidereq in H. destruct (_ =? _).
    + apply rbind_Ret in H as ([] & _ & [= <- <- Hd]). by eapply Hc.
    + by destruct (_ <=? _); simplify_eq/=.
  - by eapply Hc.
Qed.

(** C20: the log is enough to recover. An acceptor that has run since its
    first start, through any prepares, accepts, decisions and commits, and
    is then restarted on the file it left behind, comes back in an
    equivalent state: it has forgotten no promise, no accepted proposal and
    no committed value. *)
Theorem acceptor_recovers cfg first me v s0 s :
  one_line (chars v) → acceptor_new cfg first me v [] = Ret s0 → rtc acceptor_op s0 s →
  ∃ t, acceptor_new cfg first me v (ac_log s) = Ret t ∧ acceptor_equiv t s.
Proof.
  intros Hv Hnew Hops.
  assert (logged s ∧ ac_me s = me ∧ ac_cfg s = cfg ∧ (first = true → instance_h s ≠ 0) ∧
    0 ≤ instance_h s) as (Hl & <- & <- & Hfirst & _).
  { apply (acceptor_new_logged _ _ _ _ _ Hv) in Hnew as (Hl & Hme & Hcfg & Hf).
    induction Hops as [s|s1 s2 s3 Hop _ IH].
    - split_and!; [done..|]. by destruct Hl as (_ & [? _] & _).
    - pose proof (acceptor_op_keeps _ _ Hop) as (E1 & E2 & E3).
      apply IH; [by eapply acceptor_op_logged|congruence|congruence|].
      intros Hft. destruct Hl as (_ & [? _] & _). specialize (Hf Hft). lia. }
  destruct (logread_logged s Hl) as (t & Ht & Heq). exists t. split; [|done].
  unfold acceptor_new. fold (blank (ac_me s) (ac_cfg s) (ac_log s)). rewrite Ht. cbn [rbind].
  rewrite (ae_instance_h _ _ Heq). destruct first; [|by rewrite andb_false_r].
  specialize (Hfirst eq_refl). by replace (instance_h s =? 0) with false by lia.
Qed.

Definition demo_acceptor : acceptor :=
  match acceptor_new true true "a" "a b c " [] with Ret s => s | Fail _ => blank "a" true [] end.
Definition demo_promised : acceptor :=
  match preparereq "b" (PrepareArg 2 (Prop_t 7 "b")) (PrepareRes false false (Prop_t 0 "") "")
          demo_acceptor with
  | Ret (_, _, s) => s | Fail _ => demo_acceptor end.

Lemma acceptor_recovers_witness :
  ∃ t, acceptor_new true true "a" "a b c " (ac_log demo_promised) = Ret t ∧
    acceptor_equiv t demo_promised ∧ n_h t = Prop_t 7 "b".
Proof.
  destruct (acceptor_recovers true true "a" "a b c " demo_acceptor demo_promised) as (t & E & H).
  - apply (bool_decide_eq_true_1 (one_line _)). vm_compute. reflexivity.
  - reflexivity.
  - eapply rtc_l; [|apply rtc_refl].
    apply (op_prepare "b" (PrepareArg 2 (Prop_t 7 "b")) (PrepareRes false false (Prop_t 0 "") "")
      _ 0 (PrepareRes false true (Prop_t 0 "a") "")).
    + split; vm_compute; congruence.
    + split; [discriminate|]. repeat constructor.
    + vm_compute. reflexivity.
  - exists t. split; [exact E|]. split; [exact H|]. vm_compute in E. injection E as <-. reflexivity.
Defined.
