(* ===== verification/PaxosSafety.v ===== *)
(** * Agreement (paxos.cc)

    Paxos over a set of nodes, as a transition system whose steps run the
    code's own handlers and the code's own choice of a value: prepares,
    proposals, accepts, decisions and the commit of a node that is told the
    instance is old happen in any order, with any delay and loss.  A [cluster]
    has the messages of one instance, a [group] those of all instances over
    the same acceptors, which keep one promise and one vote for whatever
    instance a request is about.

    The step relation has a parameter.  With it set, requests are handled in
    turn: a node handles an accept of the instance that is next for it only,
    a prepare of this or an earlier instance, and it proposes and learns no
    later instance.  Then any two nodes that commit a value for an instance
    commit the same one ([agreement]).  The code has no such checks:
    [acceptreq] never looks at the instance of the request, and [preparereq]
    only refuses old ones.  Without the checks two nodes can commit different
    values, because of an accept of an old instance
    ([stale_accept_breaks_agreement]) or of a later one
    ([early_accept_breaks_agreement]). *)

From stdpp Require Import functions.
From S2P Require Import Prelude Marshall Protocols Stubs Streams Paxos.

Record proposal := Proposal { po_n : prop_t; po_v : string; po_to : list string }.

#[export] Instance proposal_eq_dec : EqDecision proposal.
Proof. solve_decision. Defined.

(** A promise: who gave it, for which number, and the reply. *)
Abbreviation promise := (string * prop_t * prepareres)%type.
Abbreviation vote := (string * prop_t * string)%type.

(** The acceptors and what has been on the wire: all promises, the ones that
    no proposer has used yet, the proposals and the positive replies to
    accepts. *)
Record cluster := Cluster {
  c_acc : string → acceptor;
  c_promises : list promise;
  c_open : list promise;
  c_proposals : list proposal;
  c_votes : list vote }.

Definition blank_reply : prepareres := PrepareRes false false (Prop_t 0 "") "".

(** The value a proposer goes on with, from the replies to its prepares. *)
Definition pick_value (rs : list (string * prepareres)) (newv : string) : string :=
  let st := collect (Prepared [] (Prop_t 0 "") "") rs in
  if string_size (pp_v st) =? 0 then newv else pp_v st.

Section cluster.
Context (nodes : list string) (inst : Z) (guarded : bool).
Implicit Types s : cluster.

(** A majority of the nodes has accepted the proposal [p]. *)
Definition chosen s (p : proposal) : Prop :=
  p ∈ c_proposals s ∧
  ∃ accepts, majority nodes accepts = true ∧ ∀ a, a ∈ accepts → (a, po_n p, po_v p) ∈ c_votes s.

(** Whether node [a] may handle an accept, and whether it may handle a
    prepare or learn a value. *)
Definition may_accept s (a : string) : Prop :=
  guarded = true → instance_h (c_acc s a) + 1 = inst.
Definition may_prepare s (a : string) : Prop :=
  guarded = true → inst ≤ instance_h (c_acc s a) + 1.

Inductive paxos_step : cluster → cluster → Prop :=
| step_prepare s a n ret r (s' : acceptor) :
    0 < pn n → may_prepare s a →
    preparereq (pm n) (PrepareArg inst n) blank_reply (c_acc s a) = Ret (ret, r, s') →
    paxos_step s (Cluster (<[a := s']> (c_acc s))
      (if pr_accept r then (a, n, r) :: c_promises s else c_promises s)
      (if pr_accept r then (a, n, r) :: c_open s else c_open s)
      (c_proposals s) (c_votes s))
| step_propose s n rs newv open' :
    c_open s ≡ₚ ((λ p, (p.1, n, p.2)) <$> rs) ++ open' →
    majority nodes rs.*1 = true → newv ≠ "" →
    paxos_step s (Cluster (c_acc s) (c_promises s) open'
      (Proposal n (pick_value rs newv) rs.*1 :: c_proposals s) (c_votes s))
| step_accept s p a ret r (s' : acceptor) :
    p ∈ c_proposals s → a ∈ po_to p → may_accept s a →
    acceptreq (pm (po_n p)) (AcceptArg inst (po_n p) (po_v p)) false (c_acc s a) = Ret (ret, r, s') →
    paxos_step s (Cluster (<[a := s']> (c_acc s)) (c_promises s) (c_open s) (c_proposals s)
      (if r then (a, po_n p, po_v p) :: c_votes s else c_votes s))
| step_decide s p accepts a ret r (s' : acceptor) u :
    p ∈ c_proposals s → majority nodes accepts = true →
    (∀ b, b ∈ accepts → (b, po_n p, po_v p) ∈ c_votes s) → a ∈ accepts →
    decidereq (pm (po_n p)) (DecideArg inst (po_v p)) 0 (c_acc s a) = Ret (ret, r, (s', u)) →
    paxos_step s (Cluster (<[a := s']> (c_acc s)) (c_promises s) (c_open s) (c_proposals s)
      (c_votes s))
| step_learn s a b (s' : acceptor) u :
    inst ≤ instance_h (c_acc s b) → may_prepare s a →
    commit (c_acc s a) inst (default "" (values (c_acc s b) !! inst)) = (s', u) →
    paxos_step s (Cluster (<[a := s']> (c_acc s)) (c_promises s) (c_open s) (c_proposals s)
      (c_votes s)).

(** All acceptors are about to decide the instance. *)
Definition ready (x : acceptor) : Prop :=
  pn (n_h x) = 0 ∧ pn (n_a x) = 0 ∧ v_a x = "" ∧ instance_h x + 1 = inst.

Definition paxos_init (acc : string → acceptor) : cluster := Cluster acc [] [] [] [].

(** Node [a] has committed [v]. *)
Definition committed s (a : string) (v : string) : Prop :=
  inst ≤ instance_h (c_acc s a) ∧ values (c_acc s a) !! inst = Some v.
End cluster.

(** ** The invariant *)

Section safety.
Context (nodes : list string) (inst : Z).
Implicit Types s : cluster.
Abbreviation step := (paxos_step nodes inst true).

(** No majority can ever vote for [v] at [n]. *)
Definition blocked s (n : prop_t) (v : string) : Prop :=
  ∃ R, majority nodes R = true ∧
    ∀ a, a ∈ R → (∃ n' r, plt n n' ∧ (a, n', r) ∈ c_promises s) ∧ (a, n, v) ∉ c_votes s.

(** What the state of an undecided acceptor says about its past. *)
Record acceptor_inv s (a : string) : Prop := AcceptorInv {
  ai_promised : ∀ n r, (a, n, r) ∈ c_promises s → ple n (n_h (c_acc s a));
  ai_voted : ∀ n v, (a, n, v) ∈ c_votes s → ple n (n_a (c_acc s a));
  ai_n_a : (pn (n_a (c_acc s a)) = 0 ∧ v_a (c_acc s a) = "") ∨
    (a, n_a (c_acc s a), v_a (c_acc s a)) ∈ c_votes s }.

(** A promise reports the last vote below its number. *)
Record promise_inv s (a : string) (n : prop_t) (r : prepareres) : Prop := PromiseInv {
  pi_pos : 0 < pn n;
  pi_last : ∀ n' v, (a, n', v) ∈ c_votes s → plt n' n → ple n' (pr_n_a r);
  pi_vote : (pn (pr_n_a r) = 0 ∧ pr_v_a r = "") ∨ (a, pr_n_a r, pr_v_a r) ∈ c_votes s }.

Record proposal_inv s (p : proposal) : Prop := ProposalInv {
  qi_pos : 0 < pn (po_n p);
  qi_value : po_v p ≠ "";
  qi_quorum : majority nodes (po_to p) = true;
  qi_promised : ∀ a, a ∈ po_to p → ∃ r, (a, po_n p, r) ∈ c_promises s;
  qi_unique : ∀ q, q ∈ c_proposals s → po_n q = po_n p → q = p;
  qi_safe : ∀ n v, plt n (po_n p) → v ≠ po_v p → blocked s n v }.

Record paxos_inv s : Prop := PaxosInv {
  (** a node that is behind takes no part yet *)
  px_behind : ∀ a, instance_h (c_acc s a) < inst - 1 →
    (∀ n r, (a, n, r) ∉ c_promises s) ∧ (∀ n v, (a, n, v) ∉ c_votes s);
  px_acceptor : ∀ a, instance_h (c_acc s a) = inst - 1 → acceptor_inv s a;
  px_promise : ∀ a n r, (a, n, r) ∈ c_promises s → promise_inv s a n r;
  px_open : ∀ a n r, (a, n, r) ∈ c_open s → (a, n, r) ∈ c_promises s ∧
    ∀ p, p ∈ c_proposals s → po_n p = n → a ∉ po_to p;
  px_keys : NoDup (c_open s).*1;
  px_proposal : ∀ p, p ∈ c_proposals s → proposal_inv s p;
  px_vote : ∀ a n v, (a, n, v) ∈ c_votes s → ∃ p, p ∈ c_proposals s ∧ po_n p = n ∧ po_v p = v ∧ a ∈ po_to p;
  px_commit : ∀ a, inst ≤ instance_h (c_acc s a) →
    ∃ p, chosen nodes s p ∧ values (c_acc s a) !! inst = Some (po_v p) }.

Lemma plt_irrefl n : ¬ plt n n.
Proof. apply (irreflexivity plt). Qed.

Lemma ple_plt_trans a b c : ple a b → plt b c → plt a c.
Proof. rewrite ple_eq_or_plt. intros [->|H] H'; [done|by etrans]. Qed.

Lemma plt_ple_trans a b c : plt a b → ple b c → plt a c.
Proof. rewrite ple_eq_or_plt. intros H [<-|H']; [done|by etrans]. Qed.

(** A chosen value blocks every other one: two chosen proposals agree, and
    so does every later proposal. *)
Lemma chosen_blocked s p v : chosen nodes s p → v = po_v p → ¬ blocked s (po_n p) v.
Proof.
  intros (_ & acc & Hacc & Hv) -> (R & HR & Hb).
  destruct (quorum_intersection _ _ _ Hacc HR) as (a & _ & Ha & HaR).
  destruct (Hb a HaR) as [_ Hn]. by apply Hn, Hv.
Qed.

Lemma chosen_later s p q :
  paxos_inv s → chosen nodes s p → q ∈ c_proposals s → ple (po_n p) (po_n q) → po_v q = po_v p.
Proof.
  intros Hinv Hp Hq Hle. pose proof (px_proposal _ Hinv q Hq) as Hqi.
  apply ple_eq_or_plt in Hle as [E|Hlt].
  - destruct Hp as [Hp _]. by rewrite (qi_unique _ _ Hqi p Hp E).
  - destruct (decide (po_v p = po_v q)) as [E|Hne]; [done|].
    exfalso. eapply chosen_blocked; [exact Hp|reflexivity|]. by apply (qi_safe _ _ Hqi).
Qed.

Lemma chosen_agree s p q : paxos_inv s → chosen nodes s p → chosen nodes s q → po_v p = po_v q.
Proof.
  intros Hinv Hp Hq. destruct (decide (ple (po_n p) (po_n q))) as [Hle|Hlt].
  - symmetry. apply (chosen_later s p q Hinv); [done|by destruct Hq|done].
  - apply (chosen_later s q p Hinv); [done|by destruct Hp|].
    destruct (plt_trichotomy (po_n p) (po_n q)) as [?|[?|?]]; apply ple_eq_or_plt; [|by left|by right].
    exfalso. apply Hlt, ple_eq_or_plt. by right.
Qed.

Lemma blocked_mono s s' n v :
  blocked s n v →
  (∀ x, x ∈ c_promises s → x ∈ c_promises s') →
  (∀ a, (∃ n' r, plt n n' ∧ (a, n', r) ∈ c_promises s) → (a, n, v) ∈ c_votes s' →
    (a, n, v) ∈ c_votes s) →
  blocked s' n v.
Proof.
  intros (R & HR & Hb) Hp Hv. exists R. split; [done|]. intros a Ha.
  destruct (Hb a Ha) as [(n' & r & Hlt & Hin) Hn]. split; [eauto|].
  intros Hin'. apply Hn, Hv; eauto.
Qed.

Lemma chosen_mono s s' p :
  chosen nodes s p → (∀ q, q ∈ c_proposals s → q ∈ c_proposals s') →
  (∀ x, x ∈ c_votes s → x ∈ c_votes s') → chosen nodes s' p.
Proof. intros (Hp & acc & Hacc & Hv) H1 H2. split; [auto|]. exists acc. auto. Qed.

(** Steps that leave what matters of an acceptor alone. *)
Definition same_acceptor (x x' : acceptor) : Prop :=
  n_h x' = n_h x ∧ n_a x' = n_a x ∧ v_a x' = v_a x ∧ instance_h x' = instance_h x ∧
  ∀ i v, values x !! i = Some v → values x' !! i = Some v.

Abbreviation with_acc s a x' :=
  (Cluster (<[a := x']> (c_acc s)) (c_promises s) (c_open s) (c_proposals s) (c_votes s)).

Lemma inv_same s a x' :
  same_acceptor (c_acc s a) x' → paxos_inv s → paxos_inv (with_acc s a x').
Proof.
  intros (Eh & Ea & Ev & Ei & Hval) [Hi Ha Hp Ho Hk Hq Hv Hc].
  assert (∀ b, n_h (<[a := x']> (c_acc s) b) = n_h (c_acc s b) ∧
    n_a (<[a := x']> (c_acc s) b) = n_a (c_acc s b) ∧
    v_a (<[a := x']> (c_acc s) b) = v_a (c_acc s b) ∧
    instance_h (<[a := x']> (c_acc s) b) = instance_h (c_acc s b)) as Hsame.
  { intros b. destruct (decide (b = a)) as [->|]; [by rewrite fn_lookup_insert|].
    by rewrite fn_lookup_insert_ne. }
  split; cbn [c_acc c_promises c_open c_proposals c_votes]; try done.
  - intros b. destruct (Hsame b) as (_ & _ & _ & ->). apply Hi.
  - intros b. destruct (Hsame b) as (E1 & E2 & E3 & ->). intros Hb.
    destruct (Ha b Hb). by split; cbn [c_acc c_promises c_votes]; rewrite ?E1, ?E2, ?E3.
  - intros b n r Hin. by destruct (Hp b n r Hin).
  - intros p Hin. by destruct (Hq p Hin).
  - intros b. destruct (Hsame b) as (_ & _ & _ & ->). intros Hb. destruct (Hc b Hb) as (p & ? & Hpv).
    exists p. split; [done|]. destruct (decide (b = a)) as [->|].
    + rewrite fn_lookup_insert. auto.
    + by rewrite fn_lookup_insert_ne.
Qed.

Lemma inv_commit s a x' p :
  chosen nodes s p → instance_h x' = inst → values x' !! inst = Some (po_v p) →
  paxos_inv s → paxos_inv (with_acc s a x').
Proof.
  intros Hch Ei Hval [Hi Ha Hp Ho Hk Hq Hv Hc].
  split; cbn [c_acc c_promises c_open c_proposals c_votes]; try done.
  - intros b. destruct (decide (b = a)) as [->|]; [rewrite fn_lookup_insert; lia|].
    rewrite fn_lookup_insert_ne by done. apply Hi.
  - intros b. destruct (decide (b = a)) as [->|]; [rewrite fn_lookup_insert; lia|].
    rewrite fn_lookup_insert_ne by done. intros Hb.
    destruct (Ha b Hb). by split; cbn [c_acc c_promises c_votes]; rewrite ?fn_lookup_insert_ne.
  - intros b n r Hin. by destruct (Hp b n r Hin).
  - intros q Hin. by destruct (Hq q Hin).
  - intros b. destruct (decide (b = a)) as [->|]; [rewrite fn_lookup_insert; by eauto|].
    rewrite fn_lookup_insert_ne by done. apply Hc.
Qed.

Lemma preparereq_cases src n r0 x ret r x' :
  preparereq src (PrepareArg inst n) r0 x = Ret (ret, r, x') →
  (pr_accept r = false ∧ same_acceptor x x') ∨
  (pr_accept r = true ∧ instance_h x < inst ∧ plt (n_h x) n ∧ n_h x' = n ∧ n_a x' = n_a x ∧
   v_a x' = v_a x ∧ instance_h x' = instance_h x ∧ values x' = values x ∧ pr_n_a r = n_a x ∧ pr_v_a r = v_a x).
Proof.
  unfold preparereq, value. cbn [pa_instance pa_n].
  destruct (Z.leb_spec inst (instance_h x)).
  { destruct (map_ref "" (values x) inst) as [v m] eqn:E. intros [= <- <- <-]. left.
    split; [done|]. split_and!; try done. cbn. intros i v' Hv'. unfold map_ref in E.
    destruct (values x !! inst) as [w|] eqn:Ew; injection E as <- <-; [done|].
    rewrite lookup_insert_ne; congruence. }
  destruct (prop_gt n (n_h x)) eqn:Eg; intros [= <- <- <-]; [right|by left].
  destruct n. cbn. split_and!; try done; by destruct (n_a x).
Qed.

Lemma acceptreq_cases src n v x ret r x' :
  acceptreq src (AcceptArg inst n v) false x = Ret (ret, r, x') →
  (r = false ∧ same_acceptor x x') ∨
  (r = true ∧ ple (n_h x) n ∧ n_h x' = n_h x ∧ n_a x' = n ∧ v_a x' = v ∧
   instance_h x' = instance_h x ∧ values x' = values x).
Proof.
  unfold acceptreq. cbn [aa_n aa_v].
  destruct (prop_ge n (n_h x)) eqn:Eg; intros [= <- <- <-]; [right|by left].
  destruct n. by split_and!.
Qed.

Lemma prepare_inv s a n ret r (x' : acceptor) :
  paxos_inv s → 0 < pn n → inst ≤ instance_h (c_acc s a) + 1 →
  preparereq (pm n) (PrepareArg inst n) blank_reply (c_acc s a) = Ret (ret, r, x') →
  paxos_inv (Cluster (<[a := x']> (c_acc s))
    (if pr_accept r then (a, n, r) :: c_promises s else c_promises s)
    (if pr_accept r then (a, n, r) :: c_open s else c_open s) (c_proposals s) (c_votes s)).
Proof.
  intros Hinv Hn Hturn H.
  destruct (preparereq_cases _ _ _ _ _ _ _ H)
    as [[-> Hsame]|(-> & Hlt & Hgt & Eh & Ea & Ev & Ei & _ & Era & Erv)]; [by apply inv_same|].
  destruct Hinv as [Hi Ha Hp Ho Hk Hq Hv Hc].
  assert (instance_h (c_acc s a) = inst - 1) as Ei' by lia.
  pose proof (Ha a Ei') as [Hpr Hvo Hna].
  assert (∀ r', (a, n, r') ∉ c_promises s) as Hfresh.
  { intros r' Hin. apply (plt_irrefl n). eapply ple_plt_trans; [by eapply Hpr|done]. }
  split; cbn [c_acc c_promises c_open c_proposals c_votes].
  - intros b. destruct (decide (b = a)) as [->|]; [rewrite fn_lookup_insert; lia|].
    rewrite fn_lookup_insert_ne by done. intros Hb. destruct (Hi b Hb). split; [|done].
    intros n' r' [[= -> -> ->]|Hin]%elem_of_cons; [done|naive_solver].
  - intros b. destruct (decide (b = a)) as [->|Hne].
    + intros _. split; cbn [c_acc c_promises c_votes]; rewrite fn_lookup_insert, ?Eh, ?Ea, ?Ev; try done.
      intros n' r' [[= -> ->]|Hin]%elem_of_cons; [done|].
      apply ple_eq_or_plt. right. eapply ple_plt_trans; [by eapply Hpr|done].
    + rewrite fn_lookup_insert_ne by done. intros Hb. destruct (Ha b Hb) as [Hbp ? ?].
      split; cbn [c_acc c_promises c_votes]; rewrite fn_lookup_insert_ne; try done.
      intros n' r' [[= -> -> ->]|Hin]%elem_of_cons; [done|by eapply Hbp].
  - intros b n' r' [[= -> -> ->]|Hin]%elem_of_cons.
    + split; cbn [c_votes]; [done| |by rewrite Era, Erv].
      intros n' v' Hin _. rewrite Era. by eapply Hvo.
    + by destruct (Hp b n' r' Hin).
  - intros b n' r' [[= -> -> ->]|Hin]%elem_of_cons.
    + split; [left|]. intros q Hq' En Hin. destruct (qi_promised _ _ (Hq q Hq') a Hin) as [r' Hr'].
      rewrite En in Hr'. by eapply Hfresh.
    + destruct (Ho b n' r' Hin). split; [by right|done].
  - rewrite fmap_cons. apply NoDup_cons. split; [|done]. cbn.
    intros ([[b n'] r'] & E & Hin)%list_elem_of_fmap. cbn in E. injection E as <- <-.
    destruct (Ho _ _ _ Hin). by eapply Hfresh.
  - intros q Hin. destruct (Hq q Hin) as [? ? ? Hqp ? Hqs].
    split; cbn [c_promises c_proposals]; try done.
    + intros b Hb. destruct (Hqp b Hb) as [r' ?]. exists r'. by right.
    + intros n' v' Hlt' Hne. eapply blocked_mono; [by apply Hqs| |done]. by right.
  - done.
  - intros b. destruct (decide (b = a)) as [->|]; [rewrite fn_lookup_insert; lia|].
    rewrite fn_lookup_insert_ne by done. apply Hc.
Qed.

Lemma accept_inv s p a ret r (x' : acceptor) :
  paxos_inv s → p ∈ c_proposals s → a ∈ po_to p → instance_h (c_acc s a) + 1 = inst →
  acceptreq (pm (po_n p)) (AcceptArg inst (po_n p) (po_v p)) false (c_acc s a) = Ret (ret, r, x') →
  paxos_inv (Cluster (<[a := x']> (c_acc s)) (c_promises s) (c_open s) (c_proposals s)
    (if r then (a, po_n p, po_v p) :: c_votes s else c_votes s)).
Proof.
  intros Hinv Hpin Hto Hi' H.
  destruct (acceptreq_cases _ _ _ _ _ _ _ H) as [[-> Hsame]|(-> & Hge & Eh & Ea & Ev & Ei & Eval)];
    [by apply inv_same|].
  destruct Hinv as [Hi Ha Hp Ho Hk Hq Hv Hc].
  pose proof (Ha a ltac:(lia)) as [Hpr Hvo Hna].
  destruct (qi_promised _ _ (Hq p Hpin) a Hto) as [r0 Hr0].
  assert (n_h (c_acc s a) = po_n p) as En by (apply (anti_symm ple); [done|by eapply Hpr]).
  rewrite En in Hpr.
  split; cbn [c_acc c_promises c_open c_proposals c_votes]; try done.
  - intros b. destruct (decide (b = a)) as [->|]; [rewrite fn_lookup_insert; lia|].
    rewrite fn_lookup_insert_ne by done. intros Hb. destruct (Hi b Hb). split; [done|].
    intros n' v' [[= -> -> ->]|Hin]%elem_of_cons; [done|naive_solver].
  - intros b. destruct (decide (b = a)) as [->|Hne].
    + intros _. split; cbn [c_acc c_promises c_votes]; rewrite fn_lookup_insert, ?Eh, ?Ea, ?Ev, ?En.
      * done.
      * intros n v [[= -> ->]|Hin]%elem_of_cons; [done|].
        destruct (Hv _ _ _ Hin) as (q & Hq' & <- & _ & Hqa).
        destruct (qi_promised _ _ (Hq q Hq') a Hqa) as [r1 Hr1]. by eapply Hpr.
      * right. left.
    + rewrite fn_lookup_insert_ne by done. intros Hb. destruct (Ha b Hb) as [? Hbv Hbn].
      split; cbn [c_acc c_promises c_votes]; rewrite fn_lookup_insert_ne by done; try done.
      * intros n v [[= -> -> ->]|Hin]%elem_of_cons; [done|by eapply Hbv].
      * destruct Hbn as [?|?]; [by left|right; by right].
  - intros b n r1 Hin. destruct (Hp b n r1 Hin) as [? Hl Hvt].
    split; cbn [c_votes]; [done| |].
    + intros n' v [[= -> -> ->]|Hin']%elem_of_cons Hlt; [|by eapply Hl].
      exfalso. apply (plt_irrefl n). eapply ple_plt_trans; [by eapply Hpr|done].
    + destruct Hvt as [?|?]; [by left|right; by right].
  - intros q Hin. destruct (Hq q Hin) as [? ? ? ? ? Hqs].
    split; cbn [c_promises c_proposals]; try done.
    intros n v Hlt Hne. eapply blocked_mono; [by apply Hqs|done|]. cbn [c_votes].
    intros b (n' & r1 & Hlt' & Hin') [[= -> -> ->]|?]%elem_of_cons; [|done].
    exfalso. apply (plt_irrefl n'). eapply ple_plt_trans; [by eapply Hpr|done].
  - intros b n v [[= -> -> ->]|Hin]%elem_of_cons; [by exists p|]. by apply Hv.
  - intros b. destruct (decide (b = a)) as [->|]; [rewrite fn_lookup_insert; lia|].
    rewrite fn_lookup_insert_ne by done. intros Hb. destruct (Hc b Hb) as (q & Hch & ?).
    exists q. split; [|done]. eapply chosen_mono; [exact Hch|done|]. by right.
Qed.

(** The value picked from the promises of a majority is safe. *)
Lemma pick_value_safe s n rs newv :
  paxos_inv s → majority nodes rs.*1 = true → newv ≠ "" →
  (∀ c r, (c, r) ∈ rs → (c, n, r) ∈ c_promises s) →
  pick_value rs newv ≠ "" ∧ ∀ n' v', plt n' n → v' ≠ pick_value rs newv → blocked s n' v'.
Proof.
  intros Hinv Hmaj Hnew Hrs. unfold pick_value.
  destruct (collect_collects (Prop_t 0 "") "" rs) as [_ _ Hup Hval].
  set (st := collect _ rs) in *.
  assert (∀ c r, (c, r) ∈ rs → promise_inv s c n r) as Hpi.
  { intros c r Hin. by apply (px_promise _ Hinv), Hrs. }
  assert (∀ c n' v, (c, n', v) ∈ c_votes s → 0 < pn n' ∧ v ≠ "") as Hreal.
  { intros c n' v Hin. destruct (px_vote _ Hinv _ _ _ Hin) as (q & Hq & <- & <- & _).
    by destruct (px_proposal _ Hinv q Hq). }
  (* the members of the majority block whatever they have not voted for *)
  assert (∀ n' v', plt n' n →
    (∀ c r, (c, r) ∈ rs → (c, n', v') ∉ c_votes s) → blocked s n' v') as Hblock.
  { intros n' v' Hlt Hnv. exists rs.*1. split; [done|].
    intros a ([c r] & -> & Hin)%list_elem_of_fmap. split; [|by eapply Hnv].
    exists n, r. split; [done|]. by apply Hrs. }
  destruct (Z.eqb_spec (string_size (pp_v st)) 0) as [E|E].
  - assert (pp_v st = "") as Ev by (destruct (pp_v st); [done|]; unfold string_size in E; cbn in E; lia).
    assert (pn (pp_max st) = 0) as Em.
    { destruct Hval as [[-> _]|(c & r & Hin & <- & Er)]; [done|].
      destruct (pi_vote _ _ _ _ (Hpi c r Hin)) as [[? _]|Hvote]; [done|].
      apply Hreal in Hvote as [_ ?]. congruence. }
    split; [done|]. intros n' v' Hlt _. apply Hblock; [done|]. intros c r Hin Hvote.
    pose proof (pi_last _ _ _ _ (Hpi c r Hin) _ _ Hvote Hlt) as Hle.
    assert (ple n' (pp_max st)) as Hle' by (etrans; [exact Hle|by eapply Hup]).
    apply Hreal in Hvote as [Hpos _]. unfold ple, prop_ge in Hle'. lia.
  - assert (pp_v st ≠ "") as Ev by (intros E'; by rewrite E' in E).
    destruct Hval as [[_ ?]|(c & r & Hin & Er & Ev')]; [done|].
    assert ((c, pp_max st, pp_v st) ∈ c_votes s) as Hvote.
    { destruct (pi_vote _ _ _ _ (Hpi c r Hin)) as [[_ ?]|?]; congruence. }
    destruct (px_vote _ Hinv _ _ _ Hvote) as (q & Hq & Eq & Eqv & _).
    split; [done|]. intros n' v' Hlt Hne. destruct (plt_trichotomy n' (pp_max st)) as [Hlt'|Hge].
    + apply (qi_safe _ _ (px_proposal _ Hinv q Hq)); congruence.
    + apply Hblock; [done|]. intros c' r' Hin' Hvote'. destruct Hge as [->|Hgt].
      * destruct (px_vote _ Hinv _ _ _ Hvote') as (q' & Hq' & Eq' & Eqv' & _).
        assert (q' = q) as -> by (apply (qi_unique _ _ (px_proposal _ Hinv q Hq)); congruence).
        congruence.
      * apply (plt_irrefl n'). eapply ple_plt_trans; [|exact Hgt].
        etrans; [by eapply (pi_last _ _ _ _ (Hpi c' r' Hin'))|by eapply Hup].
Qed.

Lemma propose_inv s n rs newv open' :
  paxos_inv s → c_open s ≡ₚ ((λ p, (p.1, n, p.2)) <$> rs) ++ open' →
  majority nodes rs.*1 = true → newv ≠ "" →
  paxos_inv (Cluster (c_acc s) (c_promises s) open'
    (Proposal n (pick_value rs newv) rs.*1 :: c_proposals s) (c_votes s)).
Proof.
  intros Hinv Hperm Hmaj Hnew.
  assert (∀ c r, (c, r) ∈ rs → (c, n, r) ∈ c_open s) as Hin_open.
  { intros c r Hin. rewrite Hperm, elem_of_app, list_elem_of_fmap. left. by exists (c, r). }
  assert (∀ c r, (c, r) ∈ rs → (c, n, r) ∈ c_promises s) as Hrs.
  { intros c r Hin. by apply (px_open _ Hinv), Hin_open. }
  destruct (pick_value_safe s n rs newv Hinv Hmaj Hnew Hrs) as [Hvne Hsafe].
  destruct Hinv as [Hi Ha Hp Ho Hk Hq Hv Hc].
  (* no earlier proposal has this number *)
  assert (∀ q, q ∈ c_proposals s → po_n q ≠ n) as Hfresh.
  { intros q Hqin En. destruct (quorum_intersection _ _ _ Hmaj (qi_quorum _ _ (Hq q Hqin)))
      as (a & _ & ([c r] & -> & Hin)%list_elem_of_fmap & Hqa).
    by apply (proj2 (Ho c n r (Hin_open c r Hin)) q Hqin En). }
  assert (0 < pn n) as Hpos.
  { destruct (quorum_intersection _ _ _ Hmaj Hmaj) as (a & _ & ([c r] & _ & Hin)%list_elem_of_fmap & _).
    by apply (pi_pos _ _ _ _ (Hp c n r (Hrs c r Hin))). }
  rewrite Hperm, fmap_app, NoDup_app in Hk. destruct Hk as (_ & Hdisj & Hk).
  split; cbn [c_acc c_promises c_open c_proposals c_votes]; try done.
  - intros a Hia. by destruct (Ha a Hia).
  - intros a n' r Hin. by destruct (Hp a n' r Hin).
  - intros a n' r Hin. assert ((a, n', r) ∈ c_open s) as Hin'.
    { rewrite Hperm, elem_of_app. by right. }
    destruct (Ho a n' r Hin') as [? Hno]. split; [done|].
    intros q [->|Hqin]%elem_of_cons; [|by apply Hno]. cbn. intros ->.
    intros ([c r'] & -> & Hc')%list_elem_of_fmap. cbn in *. apply (Hdisj (c, n')).
    + rewrite list_elem_of_fmap. exists (c, n', r'). split; [done|].
      rewrite list_elem_of_fmap. by exists (c, r').
    + rewrite list_elem_of_fmap. by exists (c, n', r).
  - intros q [->|Hqin]%elem_of_cons.
    + split; cbn [po_n po_v po_to c_promises c_proposals]; try done.
      * intros a ([c r] & -> & Hin)%list_elem_of_fmap. exists r. by apply Hrs.
      * intros q [->|Hqin]%elem_of_cons En; [done|]. by apply Hfresh in En.
    + destruct (Hq q Hqin) as [? ? ? ? Hu ?]. split; cbn [c_promises c_proposals]; try done.
      intros q' [->|Hqin']%elem_of_cons En; [|by apply Hu]. cbn in En. symmetry in En.
      by apply Hfresh in En.
  - intros a n' v Hin. destruct (Hv a n' v Hin) as (q & ? & ? & ? & ?). exists q.
    split_and!; try done. by right.
  - intros a Hia. destruct (Hc a Hia) as (q & Hch & ?). exists q. split; [|done].
    eapply chosen_mono; [exact Hch| |done]. by right.
Qed.

(** A decision finds the value it announces at every node that has not
    decided yet. *)
Lemma decide_value s p accepts a :
  paxos_inv s → p ∈ c_proposals s → majority nodes accepts = true →
  (∀ b, b ∈ accepts → (b, po_n p, po_v p) ∈ c_votes s) → a ∈ accepts →
  instance_h (c_acc s a) = inst - 1 → v_a (c_acc s a) = po_v p.
Proof.
  intros Hinv Hp Hmaj Hvotes Ha Hi. pose proof (px_acceptor _ Hinv a Hi) as [_ Hvo Hna].
  pose proof (Hvo _ _ (Hvotes a Ha)) as Hle.
  destruct Hna as [[E _]|Hvote].
  - destruct (px_proposal _ Hinv p Hp) as [Hpos _ _ _ _ _]. unfold ple, prop_ge in Hle. lia.
  - destruct (px_vote _ Hinv _ _ _ Hvote) as (q & Hq & En & <- & _). rewrite <- En in Hle.
    eapply chosen_later; [exact Hinv| |done|done]. split; [done|]. by exists accepts.
Qed.

(** What a step does to the node it runs at. *)
Inductive acceptor_move (x x' : acceptor) : Prop :=
| move_same : same_acceptor x x' → acceptor_move x x'
| move_busy : instance_h x + 1 = inst → instance_h x' = instance_h x → values x' = values x → acceptor_move x x'
| move_commit v : instance_h x + 1 = inst → instance_h x' = inst → pn (n_h x') = 0 → pn (n_a x') = 0 → v_a x' = "" →
    values x' = <[inst := v]> (values x) → acceptor_move x x'.

Lemma commit_move x v x' u :
  inst ≤ instance_h x + 1 → commit x inst v = (x', u) → acceptor_move x x'.
Proof.
  intros Hx. unfold commit, commit_wo. destruct (Z.ltb_spec (instance_h x) inst); intros [= <- <-].
  - by eapply move_commit; [lia|..].
  - by apply move_same; split_and!.
Qed.

Lemma decide_cases src v x ret r x' u :
  in_u32 (instance_h x) → 0 < inst < 2 ^ 32 →
  decidereq src (DecideArg inst v) 0 x = Ret (ret, r, (x', u)) →
  same_acceptor x x' ∨ (instance_h x + 1 = inst ∧ v_a x = v ∧ commit x inst v = (x', u)).
Proof.
  intros Hx Hi. unfold decidereq. cbn [da_instance da_v].
  destruct (Z.eqb_spec inst (u32 (instance_h x + 1))) as [E|E].
  - assert (instance_h x + 1 = inst).
    { destruct (decide (instance_h x + 1 = 2 ^ 32)) as [E'|]; [rewrite E' in E; by vm_compute in E; lia|].
      rewrite u32_id in E by (wrap_unfold; lia). done. }
    intros ([] & Hver%VERIFY_Ret%bool_decide_eq_true & [= <- <- Hc])%rbind_Ret. right. by rewrite Hver in *.
  - destruct (inst <=? instance_h x); [intros [= <- <- <- <-]; left; by split_and!|].
    by intros ([] & ?%VERIFY_Ret & _)%rbind_Ret.
Qed.

Lemma step_moves s s' :
  0 < inst < 2 ^ 32 → (∀ a, in_u32 (instance_h (c_acc s a))) → step s s' →
  c_acc s' = c_acc s ∨ ∃ a x', c_acc s' = <[a := x']> (c_acc s) ∧ acceptor_move (c_acc s a) x'.
Proof.
  intros Hu Hr Hstep. destruct Hstep as [s a n ret r x' Hn Hm H|s n rs newv open' Hperm Hmaj Hnew
    |s p a ret r x' Hp Hto Hm H|s p accepts a ret r x' u Hp Hmaj Hvotes Ha H|s a b x' u Hb Hm H];
    [right|by left|right..]; exists a, x'; (split; [done|]).
  - specialize (Hm eq_refl). destruct (preparereq_cases _ _ _ _ _ _ _ H)
      as [[_ ?]|(_ & ? & _ & _ & _ & _ & ? & ? & _)]; [by apply move_same|by apply move_busy; [lia|..]].
  - specialize (Hm eq_refl). destruct (acceptreq_cases _ _ _ _ _ _ _ H)
      as [[_ ?]|(_ & _ & _ & _ & _ & ? & ?)]; [by apply move_same|by apply move_busy].
  - destruct (decide_cases _ _ _ _ _ _ _ (Hr a) Hu H) as [?|(? & _ & Hc)]; [by apply move_same|].
    eapply commit_move; [lia|exact Hc].
  - eapply commit_move; [by apply Hm|exact H].
Qed.

Lemma step_inv s s' :
  0 < inst < 2 ^ 32 → (∀ a, in_u32 (instance_h (c_acc s a))) → step s s' → paxos_inv s → paxos_inv s'.
Proof.
  intros Hu Hr Hstep Hinv. destruct Hstep as [s a n ret r x' Hn Hm H|s n rs newv open' Hperm Hmaj Hnew
    |s p a ret r x' Hp Hto Hm H|s p accepts a ret r x' u Hp Hmaj Hvotes Ha H|s a b x' u Hb Hm H].
  - eapply prepare_inv; [done|done|by apply Hm|done].
  - by apply propose_inv.
  - eapply accept_inv; [done|done|done|by apply Hm|done].
  - assert (chosen nodes s p) as Hch by (split; [done|]; by exists accepts).
    destruct (decide_cases _ _ _ _ _ _ _ (Hr a) Hu H) as [?|(Hi & _ & Hc)]; [by apply inv_same|].
    unfold commit, commit_wo in Hc. replace (_ <? _) with true in Hc by lia.
    injection Hc as <- <-. apply (inv_commit s a _ p Hch); [done| |done]. cbn. by rewrite lookup_insert_eq.
  - destruct (px_commit _ Hinv b Hb) as (p & Hch & Hval). rewrite Hval in H. cbn in H.
    unfold commit, commit_wo in H. destruct (_ <? _); injection H as <- <-.
    + apply (inv_commit s a _ p Hch); [done| |done]. cbn. by rewrite lookup_insert_eq.
    + apply inv_same; [|done]. by split_and!.
Qed.

End safety.

(** A step of another instance: a node that commits the instance before takes
    part from then on. *)
Lemma inv_other nodes i j s a x' :
  i ≠ j → acceptor_move i (c_acc s a) x' → paxos_inv nodes j s →
  paxos_inv nodes j (Cluster (<[a := x']> (c_acc s)) (c_promises s) (c_open s) (c_proposals s) (c_votes s)).
Proof.
  intros Hij Hm Hinv. destruct Hm as [Hsame|Hi Ei Ev|v Hi Ei Eh Ea Ew Ev]; [by apply inv_same| |];
    destruct Hinv as [Hb Ha Hp Ho Hk Hq Hv Hc];
    (split; cbn [c_acc c_promises c_open c_proposals c_votes]; try done);
    try (by intros b n r Hin; destruct (Hp b n r Hin)); try (by intros q Hin; destruct (Hq q Hin)).
  - intros b. destruct (decide (b = a)) as [->|]; [rewrite fn_lookup_insert, Ei; apply Hb|].
    rewrite fn_lookup_insert_ne by done. apply Hb.
  - intros b. destruct (decide (b = a)) as [->|]; [rewrite fn_lookup_insert; lia|].
    rewrite fn_lookup_insert_ne by done. intros Hi'. destruct (Ha b Hi').
    by split; cbn [c_acc c_promises c_votes]; rewrite fn_lookup_insert_ne.
  - intros b. destruct (decide (b = a)) as [->|]; [rewrite fn_lookup_insert, Ei, Ev; apply Hc|].
    rewrite fn_lookup_insert_ne by done. apply Hc.
  - intros b. destruct (decide (b = a)) as [->|]; [rewrite fn_lookup_insert, Ei; intros ?; apply Hb; lia|].
    rewrite fn_lookup_insert_ne by done. apply Hb.
  - intros b. destruct (decide (b = a)) as [->|].
    + rewrite fn_lookup_insert. intros Hi'. destruct (Hb a) as [Hnp Hnv]; [lia|].
      split; cbn [c_acc c_promises c_votes]; rewrite ?fn_lookup_insert; [naive_solver..|by left].
    + rewrite fn_lookup_insert_ne by done. intros Hi'. destruct (Ha b Hi').
      by split; cbn [c_acc c_promises c_votes]; rewrite fn_lookup_insert_ne.
  - intros b. destruct (decide (b = a)) as [->|]; [|rewrite fn_lookup_insert_ne by done; apply Hc].
    rewrite fn_lookup_insert, Ei, Ev. intros Hj. rewrite lookup_insert_ne by done. apply Hc. lia.
Qed.

(** ** All instances together *)

(** What has been on the wire for an instance. *)
Record traffic := Traffic {
  w_promises : list promise; w_open : list promise; w_proposals : list proposal; w_votes : list vote }.

Record group := Group { g_acc : string → acceptor; g_wire : Z → traffic }.

Definition at_instance (g : group) (i : Z) : cluster :=
  Cluster (g_acc g) (w_promises (g_wire g i)) (w_open (g_wire g i)) (w_proposals (g_wire g i)) (w_votes (g_wire g i)).
Definition with_instance (g : group) (i : Z) (s : cluster) : group :=
  Group (c_acc s) (<[i := Traffic (c_promises s) (c_open s) (c_proposals s) (c_votes s)]> (g_wire g)).

Definition group_init (acc : string → acceptor) : group := Group acc (λ _, Traffic [] [] [] []).

(** Node [a] has committed [v] for instance [i]. *)
Definition decided (g : group) (i : Z) (a v : string) : Prop :=
  i ≤ instance_h (g_acc g a) ∧ values (g_acc g a) !! i = Some v.

Section group.
Context (nodes : Z → list string) (guarded : bool).

(** The members the proposers of instance [i] ask are [nodes i]. *)
Inductive group_step : group → group → Prop :=
| group_step_at g i s' :
    0 < i < 2 ^ 32 → paxos_step (nodes i) i guarded (at_instance g i) s' → group_step g (with_instance g i s').
End group.

Section group_safety.
Context (nodes : Z → list string) (start : Z).

Record group_inv (g : group) : Prop := GroupInv {
  gi_range : ∀ a, start - 1 ≤ instance_h (g_acc g a) < 2 ^ 32;
  gi_each : ∀ i, start ≤ i → paxos_inv (nodes i) i (at_instance g i) }.

Lemma group_init_inv acc :
  0 < start < 2 ^ 32 → (∀ a, ready start (acc a)) → group_inv (group_init acc).
Proof.
  intros Hs Hr. split; cbn [g_acc group_init].
  - intros a. destruct (Hr a) as (_ & _ & _ & ?). lia.
  - intros i Hi. split; cbn; try (by intros ? ? ? ?%elem_of_nil).
    + intros a _. split; by intros ? ? ?%elem_of_nil.
    + intros a _. destruct (Hr a) as (_ & ? & ? & _). split; cbn; try (by intros ? ? ?%elem_of_nil). by left.
    + constructor.
    + by intros ? ?%elem_of_nil.
    + intros a Ha. destruct (Hr a) as (_ & _ & _ & ?). lia.
Qed.

(** The instances that were decided before the start move no node. *)
Lemma group_step_inv g g' : 0 < start → group_step nodes true g g' → group_inv g → group_inv g'.
Proof.
  intros Hs [g0 i s' Hi Hstep] [Hr He].
  assert (∀ a, in_u32 (instance_h (c_acc (at_instance g0 i) a))) as Hu.
  { intros a. specialize (Hr a). cbn. wrap_unfold; lia. }
  pose proof (step_moves (nodes i) i _ _ Hi Hu Hstep) as Hm. split; cbn [g_acc with_instance].
  - destruct Hm as [->|(a & x' & -> & Hm)]; [done|]. cbn [c_acc at_instance]. intros b.
    destruct (decide (a = b)) as [<-|Hne]; [|by rewrite fn_lookup_insert_ne]. rewrite fn_lookup_insert.
    specialize (Hr a). cbn in Hm. destruct Hm as [(_ & _ & _ & -> & _)|? -> _|? ? -> _ _ _ _]; lia.
  - intros j Hj. specialize (He j Hj) as Hinv. destruct (decide (i = j)) as [<-|Hne].
    + replace (at_instance (with_instance g0 i s') i) with s'.
      * by eapply step_inv.
      * unfold at_instance, with_instance. cbn. rewrite fn_lookup_insert. by destruct s'.
    + unfold at_instance, with_instance. cbn [g_acc g_wire]. rewrite fn_lookup_insert_ne by done.
      destruct Hm as [->|(a & x' & -> & Hm)]; [done|].
      exact (inv_other (nodes j) i j (at_instance g0 j) a x' Hne Hm Hinv).
Qed.

Lemma group_reachable_inv acc g :
  0 < start < 2 ^ 32 → (∀ a, ready start (acc a)) → rtc (group_step nodes true) (group_init acc) g → group_inv g.
Proof.
  intros Hs Hr. apply (rtc_ind_r group_inv); [by apply group_init_inv|].
  intros ? ? _ Hstep. apply group_step_inv; [lia|done].
Qed.

Lemma decided_agree g i a b v v' :
  group_inv g → start ≤ i → decided g i a v → decided g i b v' → v = v'.
Proof.
  intros [_ He] Hi [Ha Hva] [Hb Hvb]. specialize (He i Hi).
  destruct (px_commit _ _ _ He a Ha) as (p & Hp & Ep). destruct (px_commit _ _ _ He b Hb) as (q & Hq & Eq).
  pose proof (chosen_agree (nodes i) i _ p q He Hp Hq). cbn in *. congruence.
Qed.
End group_safety.

(** ** Running a schedule *)

(** A schedule names the steps; the proposal meant is given by its number. *)
Inductive event :=
| EPrepare (a : string) (n : prop_t)
| EPropose (n : prop_t) (newv : string)
| EAccept (a : string) (n : prop_t)
| EDecide (a : string) (n : prop_t) (accepts : list string).

Definition find_proposal (s : cluster) (n : prop_t) : option proposal :=
  head (filter (λ p, po_n p = n) (c_proposals s)).

Section schedule.
Context (nodes : list string) (inst : Z) (guarded : bool).

Definition run_event (s : cluster) (e : event) : option cluster :=
  match e with
  | EPrepare a n =>
      if (0 <? pn n) && (negb guarded || (inst <=? instance_h (c_acc s a) + 1)) then
        match preparereq (pm n) (PrepareArg inst n) blank_reply (c_acc s a) with
        | Ret (_, r, s') => Some (Cluster (<[a := s']> (c_acc s))
            (if pr_accept r then (a, n, r) :: c_promises s else c_promises s)
            (if pr_accept r then (a, n, r) :: c_open s else c_open s) (c_proposals s) (c_votes s))
        | Fail _ => None
        end
      else None
  | EPropose n newv =>
      let mine := filter (λ p : promise, p.1.2 = n) (c_open s) in
      let rs := (λ p : promise, (p.1.1, p.2)) <$> mine in
      if majority nodes rs.*1 && bool_decide (newv ≠ "") then
        Some (Cluster (c_acc s) (c_promises s) (filter (λ p : promise, p.1.2 ≠ n) (c_open s))
          (Proposal n (pick_value rs newv) rs.*1 :: c_proposals s) (c_votes s))
      else None
  | EAccept a n =>
      p ← find_proposal s n;
      if bool_decide (a ∈ po_to p) && (negb guarded || (instance_h (c_acc s a) + 1 =? inst)) then
        match acceptreq (pm (po_n p)) (AcceptArg inst (po_n p) (po_v p)) false (c_acc s a) with
        | Ret (_, r, s') => Some (Cluster (<[a := s']> (c_acc s)) (c_promises s) (c_open s)
            (c_proposals s) (if r : bool then (a, po_n p, po_v p) :: c_votes s else c_votes s))
        | Fail _ => None
        end
      else None
  | EDecide a n accepts =>
      p ← find_proposal s n;
      if majority nodes accepts && bool_decide (a ∈ accepts) &&
         bool_decide (Forall (λ b, (b, po_n p, po_v p) ∈ c_votes s) accepts) then
        match decidereq (pm (po_n p)) (DecideArg inst (po_v p)) 0 (c_acc s a) with
        | Ret (_, _, (s', _)) => Some (Cluster (<[a := s']> (c_acc s)) (c_promises s) (c_open s)
            (c_proposals s) (c_votes s))
        | Fail _ => None
        end
      else None
  end%stdpp.

Fixpoint run_schedule (s : cluster) (es : list event) : option cluster :=
  match es with
  | [] => Some s
  | e :: es => match run_event s e with Some s => run_schedule s es | None => None end
  end.

Lemma find_proposal_in s n p : find_proposal s n = Some p → p ∈ c_proposals s.
Proof.
  unfold find_proposal. intros H.
  assert (p ∈ filter (λ p, po_n p = n) (c_proposals s)) as Hp.
  { destruct (filter _ _); [done|]. injection H as ->. left. }
  by apply list_elem_of_filter in Hp as [_ ?].
Qed.

Lemma filter_split (l : list promise) n :
  l ≡ₚ ((λ p : string * prepareres, (p.1, n, p.2)) <$>
         ((λ p : promise, (p.1.1, p.2)) <$> filter (λ p : promise, p.1.2 = n) l)) ++
       filter (λ p : promise, p.1.2 ≠ n) l.
Proof.
  induction l as [|[[a m] r] l IH]; [done|]. rewrite !filter_cons. cbn.
  destruct (decide (m = n)) as [->|Hne].
  - rewrite decide_False by tauto. cbn. by rewrite <- IH.
  - rewrite decide_True by done. rewrite <- Permutation_middle. by rewrite <- IH.
Qed.

Lemma run_event_step s e s' : run_event s e = Some s' → paxos_step nodes inst guarded s s'.
Proof.
  destruct e as [a n|n newv|a n|a n accepts]; cbn [run_event]; intros H.
  - destruct ((0 <? pn n) && _) eqn:En; [|done]. apply andb_true_iff in En as [En1 En2].
    destruct (preparereq _ _ _ _) as [[[ret r] x]|] eqn:E; [|done]. injection H as <-.
    eapply step_prepare; [lia| |exact E]. intros ->. cbn in En2. lia.
  - destruct (majority _ _ && _) eqn:E; [|done]. injection H as <-.
    apply andb_true_iff in E as [? ?%bool_decide_eq_true].
    apply step_propose; [apply filter_split|done|done].
  - destruct (find_proposal s n) as [p|] eqn:Ep; [|done]. apply find_proposal_in in Ep. cbn in H.
    destruct (bool_decide _ && _) eqn:E; [|done]. apply andb_true_iff in E as [E1%bool_decide_eq_true E2].
    destruct (acceptreq _ _ _ _) as [[[ret r] x]|] eqn:Ea; [|done]. injection H as <-.
    eapply step_accept; [done|done| |exact Ea]. intros ->. cbn in E2. lia.
  - destruct (find_proposal s n) as [p|] eqn:Ep; [|done]. apply find_proposal_in in Ep. cbn in H.
    destruct (_ && _ && _) eqn:E; [|done].
    apply andb_true_iff in E as [[E1 E2%bool_decide_eq_true]%andb_true_iff E3%bool_decide_eq_true].
    destruct (decidereq _ _ _ _) as [[[ret r] [x u]]|] eqn:Ea; [|done]. injection H as <-.
    rewrite Forall_forall in E3. by eapply step_decide.
Qed.

Lemma run_schedule_steps es : ∀ s s',
  run_schedule s es = Some s' → rtc (paxos_step nodes inst guarded) s s'.
Proof.
  induction es as [|e es IH]; intros s s' H; cbn in H; [injection H as <-; apply rtc_refl|].
  destruct (run_event s e) as [s1|] eqn:E; [|done].
  eapply rtc_l; [by eapply run_event_step|by apply IH].
Qed.
End schedule.

(** A schedule over all instances. *)
Fixpoint run_group (nodes : Z → list string) (guarded : bool) (g : group) (es : list (Z * event)) : option group :=
  match es with
  | [] => Some g
  | (i, e) :: es =>
      if (0 <? i) && (i <? 2 ^ 32) then
        match run_event (nodes i) i guarded (at_instance g i) e with
        | Some s => run_group nodes guarded (with_instance g i s) es
        | None => None
        end
      else None
  end.

Lemma run_group_steps nodes guarded es : ∀ g g',
  run_group nodes guarded g es = Some g' → rtc (group_step nodes guarded) g g'.
Proof.
  induction es as [|[i e] es IH]; intros g g' H; cbn [run_group] in H; [injection H as <-; apply rtc_refl|].
  destruct (_ && _) eqn:Ei; [|done]. destruct (run_event _ _ _ _ _) as [s|] eqn:E; [|done].
  eapply rtc_l; [|by apply IH]. apply group_step_at; [lia|]. by eapply run_event_step.
Qed.

(** ** The theorems *)

Definition three_nodes : list string := ["a"; "b"; "c"].

(** Three nodes that have decided the first instance. *)
Definition demo_acc (a : string) : acceptor :=
  Acceptor a false (Prop_t 0 a) (Prop_t 0 a) "" 1 {[1 := "a b c "]} [].

Lemma demo_acc_ready a : ready 2 (demo_acc a).
Proof. by split_and!. Qed.

Definition end_of (guarded : bool) (es : list event) : cluster :=
  default (paxos_init demo_acc) (run_schedule three_nodes 2 guarded (paxos_init demo_acc) es).

Lemma end_of_reachable guarded es :
  is_Some (run_schedule three_nodes 2 guarded (paxos_init demo_acc) es) →
  rtc (paxos_step three_nodes 2 guarded) (paxos_init demo_acc) (end_of guarded es).
Proof. intros [s E]. unfold end_of. rewrite E. by eapply run_schedule_steps. Qed.

Definition group_end (guarded : bool) (nodes : list string) (es : list (Z * event)) : group :=
  default (group_init demo_acc) (run_group (λ _, nodes) guarded (group_init demo_acc) es).

Lemma group_end_reachable guarded nodes es :
  is_Some (run_group (λ _, nodes) guarded (group_init demo_acc) es) →
  rtc (group_step (λ _, nodes) guarded) (group_init demo_acc) (group_end guarded nodes es).
Proof. intros [g E]. unfold group_end. rewrite E. by eapply run_group_steps. Qed.

(** A proposer is overtaken by a second one, and the first value is kept; then
    the nodes that have committed it go on with the next instance. *)
Definition good_schedule : list (Z * event) :=
  let n1 := Prop_t 1 "a" in let n2 := Prop_t 2 "b" in
  [(2, EPrepare "a" n1); (2, EPrepare "b" n1); (2, EPropose n1 "x"); (2, EAccept "a" n1); (2, EAccept "b" n1);
   (2, EDecide "a" n1 ["a"; "b"]);
   (2, EPrepare "b" n2); (2, EPrepare "c" n2); (2, EPropose n2 "y"); (2, EAccept "b" n2); (2, EAccept "c" n2);
   (2, EDecide "c" n2 ["b"; "c"]);
   (3, EPrepare "a" n1); (3, EPrepare "c" n1); (3, EPropose n1 "z"); (3, EAccept "a" n1); (3, EAccept "c" n1);
   (3, EDecide "a" n1 ["a"; "c"]); (2, EPrepare "a" n2)].

(** C1: agreement.  Acceptors that have decided all instances before
    [start] run Paxos for any number of instances at once; the proposers of
    instance [i] ask the nodes [nodes i]; messages are lost, delayed and
    overtaken and any number of proposers compete.  Provided that requests
    are handled in turn (a node handles an accept only of the instance that
    is next for it, a prepare only of this or an earlier instance, and learns
    no later one), two nodes that commit a value for the same instance commit
    the same value.  The code does not check this; both directions of the
    proviso are needed, as [stale_accept_breaks_agreement] and
    [early_accept_breaks_agreement] show. *)
Theorem agreement nodes start acc g i a b v v' :
  0 < start < 2 ^ 32 → (∀ a, ready start (acc a)) →
  rtc (group_step nodes true) (group_init acc) g →
  start ≤ i → decided g i a v → decided g i b v' → v = v'.
Proof. intros Hs Hr Hg. by apply (decided_agree nodes start), (group_reachable_inv nodes start acc). Qed.

Lemma agreement_witness :
  let g := group_end true three_nodes good_schedule in
  rtc (group_step (λ _, three_nodes) true) (group_init demo_acc) g ∧
  decided g 2 "a" "x" ∧ decided g 2 "c" "x" ∧ decided g 3 "a" "z" ∧ "x" = "x".
Proof.
  intros g.
  assert (rtc (group_step (λ _, three_nodes) true) (group_init demo_acc) g) as Hg.
  { apply group_end_reachable. vm_compute. eexists. reflexivity. }
  assert (decided g 2 "a" "x") as Ha by (split; [vm_compute; congruence|vm_compute; reflexivity]).
  assert (decided g 2 "c" "x") as Hc by (split; [vm_compute; congruence|vm_compute; reflexivity]).
  split; [exact Hg|]. split; [exact Ha|]. split; [exact Hc|].
  split; [split; [vm_compute; congruence|vm_compute; reflexivity]|].
  apply (agreement (λ _, three_nodes) 2 demo_acc g 2 "a" "c" "x" "x").
  - lia.
  - exact demo_acc_ready.
  - exact Hg.
  - lia.
  - exact Ha.
  - exact Hc.
Defined.

(** A decision never brings an acceptor down.  When requests are handled in
    turn and a majority has accepted a proposal, the [VERIFY] of [decidereq]
    that the acceptor holds the decided value succeeds at each of them, in
    every order of events: later proposals may have been accepted in between,
    but with the same value. *)
Theorem decide_never_aborts nodes start acc g i p accepts a :
  0 < start < 2 ^ 32 → (∀ a, ready start (acc a)) →
  rtc (group_step nodes true) (group_init acc) g → start ≤ i < 2 ^ 32 →
  p ∈ w_proposals (g_wire g i) → majority (nodes i) accepts = true →
  (∀ b, b ∈ accepts → (b, po_n p, po_v p) ∈ w_votes (g_wire g i)) → a ∈ accepts →
  abort_free (decidereq (pm (po_n p)) (DecideArg i (po_v p)) 0 (g_acc g a)).
Proof.
  intros Hs Hr Hg Hi Hp Hmaj Hvotes Ha.
  destruct (group_reachable_inv nodes start acc g Hs Hr Hg) as [Hrange He]. specialize (He i ltac:(lia)). specialize (Hrange a).
  assert (i - 1 ≤ instance_h (g_acc g a)) as Hle.
  { destruct (Z.le_gt_cases (i - 1) (instance_h (g_acc g a))); [done|].
    destruct (px_behind _ _ _ He a) as [_ Hno]; [done|]. by destruct (Hno _ _ (Hvotes a Ha)). }
  unfold decidereq. cbn [da_instance da_v]. destruct (Z.eqb_spec i (u32 (instance_h (g_acc g a) + 1))) as [E|E].
  - assert (instance_h (g_acc g a) = i - 1).
    { destruct (decide (instance_h (g_acc g a) + 1 = 2 ^ 32)) as [E'|]; [rewrite E' in E; vm_compute in E; lia|].
      rewrite u32_id in E by (wrap_unfold; lia). lia. }
    assert (v_a (g_acc g a) = po_v p) as -> by (by eapply (decide_value (nodes i) i (at_instance g i) p accepts a)).
    rewrite bool_decide_eq_true_2 by done. by eexists.
  - destruct (decide (i - 1 = instance_h (g_acc g a))) as [E'|].
    { rewrite <- E', Z.sub_add, u32_id in E by (wrap_unfold; lia). done. }
    replace (i <=? instance_h (g_acc g a)) with true by lia. by eexists.
Qed.

Lemma decide_never_aborts_witness :
  let g := group_end true three_nodes (take 5 good_schedule) in
  abort_free (decidereq "a" (DecideArg 2 "x") 0 (g_acc g "b")).
Proof.
  intros g.
  apply (decide_never_aborts (λ _, three_nodes) 2 demo_acc g 2 (Proposal (Prop_t 1 "a") "x" ["b"; "a"])
    ["a"; "b"] "b").
  - lia.
  - exact demo_acc_ready.
  - apply group_end_reachable. vm_compute. eexists. reflexivity.
  - lia.
  - apply (bool_decide_eq_true_1 _). vm_compute. reflexivity.
  - vm_compute. reflexivity.
  - intros b Hb. apply list_elem_of_In in Hb. destruct Hb as [<-|[<-|[]]];
      apply (bool_decide_eq_true_1 _); vm_compute; reflexivity.
  - apply (bool_decide_eq_true_1 _). vm_compute. reflexivity.
Defined.

(** The first proposer's accepts are delayed until the second one's value is
    decided at a and b. *)
Definition stale_schedule : list event :=
  let n1 := Prop_t 1 "a" in let n2 := Prop_t 2 "b" in
  [EPrepare "a" n1; EPrepare "b" n1; EPrepare "c" n1; EPropose n1 "x";
   EPrepare "a" n2; EPrepare "b" n2; EPropose n2 "y"; EAccept "a" n2; EAccept "b" n2;
   EDecide "a" n2 ["a"; "b"]; EDecide "b" n2 ["a"; "b"];
   EAccept "a" n1; EAccept "c" n1; EDecide "c" n1 ["a"; "c"]].

(** C40: the code as it stands does not have agreement. Since [acceptreq]
    never compares the instance of a request with its own, a node that has
    decided an instance, and so forgotten its promises, accepts a delayed
    proposal for that instance; counted towards a majority, it makes another
    node commit a different value for the same instance. *)
Theorem stale_accept_breaks_agreement :
  ∃ s, rtc (paxos_step three_nodes 2 false) (paxos_init demo_acc) s ∧
    committed 2 s "a" "y" ∧ committed 2 s "c" "x".
Proof.
  exists (end_of false stale_schedule). split.
  - apply end_of_reachable. vm_compute. by eexists.
  - split; (split; [vm_compute; congruence|by vm_compute]).
Qed.

(** Nodes d and e miss the decision of instance 2, accept a proposal of
    instance 3, and report it to a proposer of instance 2. *)
Definition five_nodes : list string := ["a"; "b"; "c"; "d"; "e"].
Definition early_schedule : list (Z * event) :=
  let n1 := Prop_t 1 "a" in let n5 := Prop_t 5 "a" in let n6 := Prop_t 6 "c" in
  [(2, EPrepare "a" n1); (2, EPrepare "b" n1); (2, EPrepare "c" n1); (2, EPropose n1 "x");
   (2, EAccept "a" n1); (2, EAccept "b" n1); (2, EAccept "c" n1); (2, EDecide "a" n1 ["a"; "b"; "c"]);
   (3, EPrepare "a" n5); (3, EPrepare "d" n5); (3, EPrepare "e" n5); (3, EPropose n5 "y");
   (3, EAccept "d" n5); (3, EAccept "e" n5);
   (2, EPrepare "c" n6); (2, EPrepare "d" n6); (2, EPrepare "e" n6); (2, EPropose n6 "w");
   (2, EAccept "c" n6); (2, EAccept "d" n6); (2, EAccept "e" n6); (2, EDecide "c" n6 ["c"; "d"; "e"])].

(** Agreement is also lost when a node that is behind takes part in a later
    instance: its vote there is reported as one of its own instance, since an
    acceptor keeps a single vote.  No accept of an old instance is needed. *)
Theorem early_accept_breaks_agreement :
  ∃ g, rtc (group_step (λ _, five_nodes) false) (group_init demo_acc) g ∧
    decided g 2 "a" "x" ∧ decided g 2 "c" "y".
Proof.
  exists (group_end false five_nodes early_schedule). split.
  - apply group_end_reachable. vm_compute. by eexists.
  - split; (split; [vm_compute; congruence|by vm_compute]).
Qed.
