(* ===== verification/Handle.v ===== *)
(** * The cache of RPC connections (handle.cc, handle.h)

    [handle_mgr] keeps one [hinfo] per node, counted by the [handle] objects
    that use it.  An [hinfo] has no other name than its node while it exists,
    so the map stands for the heap as well. *)

From S2P Require Import Prelude.

(** [hi_cl]: whether there is a bound client. *)
Record hinfo := Hinfo { hi_cl : bool; hi_refcnt : Z; hi_del : bool }.

Abbreviation hmap := (gmap string hinfo).

Definition set_refcnt (h : hinfo) (n : Z) : hinfo := Hinfo (hi_cl h) n (hi_del h).

(** [get_handle]: whether an [hinfo] is returned. *)
Definition get_handle (mgr : hmap) (m : string) : bool * hmap :=
  match mgr !! m with
  | None => (true, <[m := Hinfo false 1 false]> mgr)
  | Some h =>
      if negb (hi_del h) then (true, <[m := set_refcnt h (hi_refcnt h + 1)]> mgr)
      else (false, mgr)
  end.

Definition delete_handle_wo (mgr : hmap) (m : string) : hmap :=
  match mgr !! m with
  | None => mgr
  | Some h =>
      if hi_refcnt h =? 0 then delete m mgr
      else <[m := Hinfo (hi_cl h) (hi_refcnt h) true]> mgr
  end.

Definition delete_handle (mgr : hmap) (m : string) : hmap := delete_handle_wo mgr m.

(** An [hinfo] that is not in the map has been freed. *)
Definition done_handle (mgr : hmap) (m : string) : res hmap :=
  match mgr !! m with
  | None => Fail UndefinedBehaviour
  | Some h =>
      let h := set_refcnt h (hi_refcnt h - 1) in
      let mgr := <[m := h]> mgr in
      Ret (if (hi_refcnt h =? 0) && hi_del h then delete_handle_wo mgr m else mgr)
  end.

(** [safebind] of a handle whose constructor got an [hinfo] iff [h]; [ret]
    is what [bind] returns if it is called.  The result tells whether there
    is a client. *)
Definition safebind (mgr : hmap) (h : bool) (m : string) (ret : Z) : res (bool * hmap) :=
  if negb h then Ret (false, mgr) else
  match mgr !! m with
  | None => Fail UndefinedBehaviour
  | Some i =>
      if hi_del i then Ret (false, mgr)
      else if hi_cl i then Ret (true, mgr)
      else if ret <? 0 then Ret (false, <[m := Hinfo false (hi_refcnt i) true]> mgr)
      else Ret (true, <[m := Hinfo true (hi_refcnt i) false]> mgr)
  end.

(** ** Users of the cache *)

(** The map with the live handles that hold an [hinfo]. *)
Inductive handle_step : hmap * list string → hmap * list string → Prop :=
| handle_new mgr out m h mgr' :
    get_handle mgr m = (h, mgr') →
    handle_step (mgr, out) (mgr', if h then m :: out else out)
| handle_bind mgr out out' m ret b mgr' :
    out ≡ₚ m :: out' → safebind mgr true m ret = Ret (b, mgr') →
    handle_step (mgr, out) (mgr', out)
| handle_done mgr out out' m mgr' :
    out ≡ₚ m :: out' → done_handle mgr m = Ret mgr' →
    handle_step (mgr, out) (mgr', out')
| handle_delete mgr out m :
    handle_step (mgr, out) (delete_handle mgr m, out).

Definition count (m : string) (out : list string) : Z :=
  Z.of_nat (length (filter (λ x, x = m) out)).

Lemma count_cons m x out : count m (x :: out) = (if decide (x = m) then 1 else 0) + count m out.
Proof. unfold count. rewrite filter_cons. destruct (decide (x = m)); cbn [length]; lia. Qed.

Lemma count_perm m out out' : out ≡ₚ out' → count m out = count m out'.
Proof. intros H. unfold count. by rewrite H. Qed.

Definition handle_inv (st : hmap * list string) : Prop :=
  ∀ m, match st.1 !! m with
       | None => count m st.2 = 0
       | Some h => hi_refcnt h = count m st.2 ∧ (hi_del h = true → count m st.2 ≠ 0)
       end.

(** An update of one entry, against the counts after it. *)
Lemma handle_inv_at mgr mgr' out out' m :
  handle_inv (mgr, out) →
  (∀ x, x ≠ m → mgr' !! x = mgr !! x ∧ count x out' = count x out) →
  match mgr' !! m with
  | None => count m out' = 0
  | Some h => hi_refcnt h = count m out' ∧ (hi_del h = true → count m out' ≠ 0)
  end →
  handle_inv (mgr', out').
Proof.
  intros Hinv Hother Hm x. cbn. destruct (decide (x = m)) as [->|Hne]; [done|].
  destruct (Hother x Hne) as [-> ->]. apply Hinv.
Qed.

Lemma count_nonneg m out : 0 ≤ count m out.
Proof. unfold count. lia. Qed.

Lemma done_handle_inv mgr out out' m mgr' :
  handle_inv (mgr, out) → out ≡ₚ m :: out' → done_handle mgr m = Ret mgr' → handle_inv (mgr', out').
Proof.
  intros Hinv Hout H. pose proof (Hinv m) as Hm. cbn in Hm.
  unfold done_handle in H. destruct (mgr !! m) as [i|] eqn:E; [|done].
  assert (count m out = 1 + count m out') as Hc.
  { rewrite (count_perm m _ _ Hout), count_cons, decide_True by done. lia. }
  assert (∀ x, x ≠ m → count x out' = count x out) as Hother.
  { intros x Hx. rewrite (count_perm x _ _ Hout), count_cons, decide_False by done. lia. }
  injection H as <-. cbn [set_refcnt hi_refcnt hi_del].
  destruct ((hi_refcnt i - 1 =? 0) && hi_del i) eqn:Ed.
  + unfold delete_handle_wo. rewrite lookup_insert_eq. cbn [hi_refcnt set_refcnt].
    replace (hi_refcnt i - 1 =? 0) with true by lia. cbv iota.
    apply (handle_inv_at mgr _ out _ m Hinv).
    * intros x Hx. rewrite lookup_delete_ne, lookup_insert_ne by done. auto.
    * rewrite lookup_delete_eq. lia.
  + apply (handle_inv_at mgr _ out _ m Hinv).
    * intros x Hx. rewrite lookup_insert_ne by done. auto.
    * rewrite lookup_insert_eq. cbn. pose proof (count_nonneg m out'). lia.
Qed.

Lemma handle_step_inv st st' : handle_step st st' → handle_inv st → handle_inv st'.
Proof.
  intros Hstep Hinv. destruct Hstep as [mgr out m h mgr' H|mgr out out' m ret b mgr' Hout H
    |mgr out out' m mgr' Hout H|mgr out m]; pose proof (Hinv m) as Hm; cbn in Hm;
    pose proof (count_nonneg m out).
  - unfold get_handle in H. destruct (mgr !! m) as [i|] eqn:E; [destruct (hi_del i) eqn:Ed|].
    + cbn in H. by injection H as <- <-.
    + injection H as <- <-. apply (handle_inv_at mgr _ out _ m Hinv).
      * intros x Hx. rewrite lookup_insert_ne, count_cons, decide_False by done. done.
      * rewrite lookup_insert_eq, count_cons, decide_True by done. cbn. lia.
    + injection H as <- <-. apply (handle_inv_at mgr _ out _ m Hinv).
      * intros x Hx. rewrite lookup_insert_ne, count_cons, decide_False by done. done.
      * rewrite lookup_insert_eq, count_cons, decide_True by done. cbn. lia.
  - assert (count m out ≠ 0) as Hpos.
    { rewrite (count_perm m _ _ Hout), count_cons, decide_True by done.
      pose proof (count_nonneg m out'). lia. }
    unfold safebind in H. cbn in H. destruct (mgr !! m) as [i|] eqn:E; [|done].
    destruct (hi_del i) eqn:Ed; [by injection H as <- <-|].
    destruct (hi_cl i); [by injection H as <- <-|].
    destruct (ret <? 0); injection H as <- <-;
      (apply (handle_inv_at mgr _ out _ m Hinv);
       [intros x Hx; by rewrite lookup_insert_ne|rewrite lookup_insert_eq; cbn; lia]).
  - by eapply done_handle_inv.
  - unfold delete_handle, delete_handle_wo. destruct (mgr !! m) as [i|] eqn:E; [|done].
    destruct (Z.eqb_spec (hi_refcnt i) 0) as [E0|Hne].
    + apply (handle_inv_at mgr _ out _ m Hinv).
      * intros x Hx. by rewrite lookup_delete_ne.
      * rewrite lookup_delete_eq. lia.
    + apply (handle_inv_at mgr _ out _ m Hinv).
      * intros x Hx. by rewrite lookup_insert_ne.
      * rewrite lookup_insert_eq. cbn. lia.
Qed.

Lemma handle_reachable_inv st : rtc handle_step (∅, []) st → handle_inv st.
Proof.
  apply (rtc_ind_r handle_inv); [by intros m|].
  intros ? ? _. apply handle_step_inv.
Qed.

(** No handle is left dangling.  However handles are created, bound,
    destroyed and their nodes deleted, a live handle's [hinfo] is still
    there, its count is the number of live handles, and [safebind] and the
    destructor run without touching freed memory; an [hinfo] marked deleted
    goes away with its last handle. *)
Theorem handles_counted mgr out m :
  rtc handle_step (∅, []) (mgr, out) → m ∈ out →
  (∃ h, mgr !! m = Some h ∧ hi_refcnt h = count m out) ∧
  (∀ ret, abort_free (safebind mgr true m ret)) ∧
  ∃ mgr', done_handle mgr m = Ret mgr' ∧
    ∀ h, mgr !! m = Some h → hi_del h = true → count m out = 1 → mgr' !! m = None.
Proof.
  intros Hr Hin. pose proof (handle_reachable_inv _ Hr m) as Hm. cbn in Hm.
  assert (count m out ≠ 0) as Hc.
  { apply elem_of_Permutation in Hin as [out' Hp].
    rewrite (count_perm m _ _ Hp), count_cons, decide_True by done.
    pose proof (count_nonneg m out'). lia. }
  destruct (mgr !! m) as [h|] eqn:E; [|done]. destruct Hm as [Hrc Hdel]. split_and!.
  - by exists h.
  - intros ret. unfold safebind. cbn. rewrite E.
    destruct (hi_del h); [by eexists|]. destruct (hi_cl h); [by eexists|].
    destruct (ret <? 0); by eexists.
  - unfold done_handle. rewrite E. eexists. split; [done|]. intros h' [= <-] Hd H1.
    cbn [set_refcnt hi_refcnt hi_del]. rewrite Hd. replace (hi_refcnt h - 1 =? 0) with true by lia.
    cbn [andb]. unfold delete_handle_wo. rewrite lookup_insert_eq. cbn [hi_refcnt set_refcnt].
    replace (hi_refcnt h - 1 =? 0) with true by lia. apply lookup_delete_eq.
Qed.

Lemma handles_counted_witness :
  let mgr := {["n" := Hinfo false 1 true]} in
  rtc handle_step (∅, []) (mgr, ["n"]) ∧
  ∃ mgr', done_handle mgr "n" = Ret mgr' ∧ mgr' !! "n" = None.
Proof.
  intros mgr.
  assert (rtc handle_step (∅, []) (mgr, ["n"])) as Hr.
  { eapply rtc_l; [apply (handle_new ∅ [] "n" true {["n" := Hinfo false 1 false]}); reflexivity|].
    eapply rtc_l; [apply (handle_delete {["n" := Hinfo false 1 false]} _ "n")|].
    vm_compute. apply rtc_refl. }
  split; [exact Hr|].
  destruct (handles_counted mgr ["n"] "n" Hr ltac:(left)) as (_ & _ & mgr' & E & Hgone).
  exists mgr'. split; [exact E|]. apply (Hgone (Hinfo false 1 true)); reflexivity.
Defined.

(** A handle that was bound can lose its client: when another thread
    deletes the node, [safebind] returns null although its first call
    succeeded, against what the comment in handle.h promises. *)
Theorem safebind_not_sticky :
  ∃ mgr1 mgr2, safebind {["n" := Hinfo false 1 false]} true "n" 0 = Ret (true, mgr1) ∧
    mgr2 = delete_handle mgr1 "n" ∧ ∀ ret, safebind mgr2 true "n" ret = Ret (false, mgr2).
Proof. do 2 eexists. split; [reflexivity|]. split; [done|]. by intros ret. Qed.
