(* ===== verification/Config.v ===== *)
(** * Views (config.cc, config.h)

    The configuration object turns the values Paxos agrees on into views, and
    proposes the next view when a node joins or stops answering heartbeats.
    While it waits for Paxos or for an RPC it does not hold its mutex: these
    calls are operations on a world [W], in which the object itself may
    change, and what is read after them is read from the world. *)

From S2P Require Import Prelude Marshall Protocols Stubs Streams Paxos Handle.

(** ** Values and lists of members *)

(** [while (ist >> m) view.push_back(m)]. *)
Fixpoint members_loop (fuel : nat) (ist : istream) (view : list string) : list string :=
  match fuel with
  | O => view
  | S fuel =>
      let '(m, ist) := read_word ist "" in
      if is_fail ist then view else members_loop fuel ist (view ++ [m])
  end.
Definition members (value : string) : list string :=
  members_loop (S (String.length value)) (istream_of (chars value)) [].

Fixpoint value (m : list string) : string :=
  match m with
  | [] => ""
  | x :: m => x +:+ " " +:+ value m
  end.

(** ** The object *)

Record config := Config {
  cf_me : string; cf_myvid : Z; cf_mems : list string; cf_acc : acceptor; cf_vc : bool }.

Definition set_view (c : config) (vid : Z) (mems : list string) (a : acceptor) : config :=
  Config (cf_me c) vid mems a (cf_vc c).

(** [get_view_wo]: [acc->value(instance)] may add an empty value to the
    acceptor's map. *)
Definition get_view_wo (c : config) (instance : Z) : list string * config :=
  let '(v, a) := Paxos.value (cf_acc c) instance in
  (members v, set_view c (cf_myvid c) (cf_mems c) a).
Definition get_view (c : config) (instance : Z) : list string * config := get_view_wo c instance.

Definition reconstruct (c : config) : config :=
  if 0 <? instance_h (cf_acc c) then
    let myvid := instance_h (cf_acc c) in
    let '(mems, c) := get_view_wo c myvid in
    set_view c myvid mems (cf_acc c)
  else c.

(** The constructor, on the log file the node finds. *)
Definition config_new (first me : string) (vc : bool) (file : list ascii) : res config :=
  a ← acceptor_new true (bool_decide (me = first)) me me file;
  Ret (reconstruct (Config me 0 [] a vc)).

Definition restore (c : config) (s : string) : res config :=
  a ← Paxos.restore (cf_acc c) s;
  Ret (reconstruct (set_view c (cf_myvid c) (cf_mems c) a)).

(** [paxos_commit]: the handles of the members that are gone are deleted; the
    up-call [commit_change(vid)] comes last. *)
Definition paxos_commit (c : config) (mgr : hmap) (instance : Z) (v : string)
    : config * hmap * option Z :=
  let newmem := members v in
  let gone := filter (λ m, isamember m newmem = false ∧ m ≠ cf_me c) (cf_mems c) in
  let mgr := foldl delete_handle mgr gone in
  (set_view c instance newmem (cf_acc c), mgr, if cf_vc c then Some instance else None).

Definition ismember (c : config) (m : string) (vid : Z) : bool * config :=
  let '(v, c) := get_view_wo c vid in (isamember m v, c).

Section proposing.
Context {W : Type} (prun : Z → list string → string → W → res (bool * W)).

(** [add], where [prun] is [pro->run]. *)
Definition add (c : config) (new_m : string) (vid : Z) (w : W) : res (bool * W) :=
  if negb (vid =? cf_myvid c) then Ret (false, w) else
  let m := cf_mems c ++ [new_m] in
  prun (u32 (cf_myvid c + 1)) (cf_mems c) (value m) w.

Definition remove_wo (c : config) (m : string) (w : W) : res (bool * W) :=
  let n := filter (λ x, x ≠ m) (cf_mems c) in
  prun (u32 (cf_myvid c + 1)) (cf_mems c) (value n) w.
End proposing.

(** ** Heartbeats *)

Inductive heartbeat_t := HB_OK | VIEWERR | FAILURE.

#[export] Instance heartbeat_t_eq_dec : EqDecision heartbeat_t.
Proof. solve_decision. Defined.

(** The handler; [running] is [pro->isrunning()]. *)
Definition heartbeat (c : config) (running : bool) (m : string) (vid : Z) (r : int)
    : res (Z * int) :=
  let r : int := s32 (cf_myvid c) in
  if vid =? cf_myvid c then Ret (paxos_protocol.OK, r)
  else if running then
    VERIFY ((vid =? u32 (cf_myvid c + 1)) || (u32 (vid + 1) =? cf_myvid c));;
    Ret (paxos_protocol.OK, r)
  else Ret (paxos_protocol.ERR, r).

(** What [doheartbeat] makes of the outcome of its RPC ([None]: no client):
    its result, and whether it deletes the handle. *)
Definition doheartbeat_result (outcome : option Z) : heartbeat_t * bool :=
  let ret := default rpc_const.timeout_failure outcome in
  if ret =? paxos_protocol.OK then (HB_OK, false)
  else if (ret =? rpc_const.atmostonce_failure) || (ret =? rpc_const.oldsrv_failure)
  then (HB_OK, true)
  else if ret <? 0 then (FAILURE, false) else (VIEWERR, false).

(** The operations of the heartbeat thread: the RPC, deleting a handle, and
    the view number read again after the mutex was released. *)
Record heart (W : Type) := Heart {
  hb_ping : string → Z → W → option Z * W;
  hb_delete : string → W → W;
  hb_config : W → config;
  hb_run : Z → list string → string → W → res (bool * W) }.
Arguments Heart {W}.
Arguments hb_ping {W}.
Arguments hb_delete {W}.
Arguments hb_config {W}.
Arguments hb_run {W}.

Section heartbeater.
Context {W : Type} (hb : heart W).

Definition doheartbeat (m : string) (w : W) : heartbeat_t * W :=
  let vid := cf_myvid (hb_config hb w) in
  let '(o, w) := hb_ping hb m vid w in
  let '(r, del) := doheartbeat_result o in
  (r, if del : bool then hb_delete hb m w else w).

(** The node that does not answer, among the others in order. *)
Fixpoint ping_all (me : string) (cmems : list string) (w : W) : option string * W :=
  match cmems with
  | [] => (None, w)
  | x :: cmems =>
      if bool_decide (x = me) then ping_all me cmems w else
      let '(h, w) := doheartbeat x w in
      if decide (h = HB_OK) then ping_all me cmems w else (Some x, w)
  end.

(** "find the node with the smallest id". *)
Definition smallest (me : string) (cmems : list string) : string :=
  foldl (λ m x, if string_gt m x then x else m) me cmems.

(** One turn of [heartbeater] after its sleep, where [w] is the world then.
    The node to remove is reported with the outcome of the proposal. *)
Definition heartbeater_turn (w : W) : res (option string * W) :=
  let c := hb_config hb w in
  let vid := cf_myvid c in
  let '(cmems, _) := get_view_wo c vid in
  if negb (isamember (cf_me c) cmems) then Ret (None, w) else
  let m := smallest (cf_me c) cmems in
  let '(failed, w) :=
    if bool_decide (m = cf_me c) then ping_all (cf_me c) cmems w
    else let '(h, w) := doheartbeat m w in
         (if decide (h = HB_OK) then None else Some m, w) in
  match failed with
  | Some m =>
      if vid =? cf_myvid (hb_config hb w)
      then '(_, w) ← remove_wo (hb_run hb) (hb_config hb w) m w; Ret (Some m, w)
      else Ret (None, w)
  | None => Ret (None, w)
  end.
End heartbeater.

(** ** Views survive the trip through a Paxos value *)

Lemma members_loop_value ms : ∀ fuel view r,
  Forall (λ m, word (chars m)) ms → (length ms < fuel)%nat →
  Forall (λ c, is_space c = true) r →
  members_loop fuel (IStream (r ++ chars (value ms)) false) view = view ++ ms.
Proof.
  induction ms as [|m ms IH]; intros [|fuel] view r Hw Hf Hr; try (cbn in Hf; lia);
    cbn [members_loop value].
  - unfold read_word. cbn [is_fail is_rest chars]. rewrite app_nil_r.
    assert (skip_space r = []) as ->.
    { clear -Hr. induction Hr as [|c r Hc _ IH]; [done|]. by rewrite skip_space_one. }
    cbn. by rewrite app_nil_r.
  - apply Forall_cons in Hw as [Hm Hw].
    assert (chars (m +:+ " " +:+ value ms) = chars m ++ space :: chars (value ms)) as ->.
    { by rewrite !chars_app. }
    rewrite (read_word_ok _ (chars m) (space :: chars (value ms))); [|done| |done|done].
    + cbn [is_fail]. rewrite of_chars_chars.
      change (space :: chars (value ms)) with ([space] ++ chars (value ms)).
      rewrite IH; [by rewrite <- app_assoc|done|cbn in Hf; lia|by repeat constructor].
    + cbn [is_rest]. clear -Hm Hr. induction Hr as [|c r Hc _ IH].
      * apply skip_space_solid. by apply word_starts.
      * cbn [app]. by rewrite skip_space_one.
Qed.

Lemma value_length ms : (length ms ≤ String.length (value ms))%nat.
Proof.
  induction ms as [|m ms IH]; [done|]. cbn [value length].
  rewrite <- length_chars, !chars_app, !length_app, (length_chars (value ms)).
  change (length (chars " ")) with 1%nat. lia.
Qed.

Lemma members_value ms : Forall (λ m, word (chars m)) ms → members (value ms) = ms.
Proof.
  intros Hw. unfold members. rewrite (members_loop_value ms _ [] []); [done|done| |done].
  pose proof (value_length ms). lia.
Qed.

(** A proposer that writes down what it is asked to propose. *)
Definition note_proposal (i : Z) (nodes : list string) (v : string) (w : list (Z * list string * string))
    : res (bool * list (Z * list string * string)) := Ret (true, (i, nodes, v) :: w).

(** What every node makes of the value [v] that Paxos commits as view [i]:
    it installs the members [ms] and the number, tells the state machine, and
    reads the same members whenever it looks the view up. *)
Definition installs (i : Z) (v : string) (ms : list string) : Prop :=
  ∀ c mgr, let '(c', _, notify) := paxos_commit c mgr i v in
    cf_mems c' = ms ∧ cf_myvid c' = i ∧ cf_me c' = cf_me c ∧ (cf_vc c = true → notify = Some i) ∧
    ∀ c'', values (cf_acc c'') !! i = Some v → (get_view c'' i).1 = ms.

Lemma value_installs i ms : Forall (λ m, word (chars m)) ms → installs i (value ms) ms.
Proof.
  intros Hw c mgr. unfold paxos_commit. rewrite (members_value ms Hw).
  split_and!; [done|done|done|by intros ->|].
  intros c'' E. unfold get_view, get_view_wo, Paxos.value, map_ref. rewrite E. by apply members_value.
Qed.

(** A view survives agreement.  [add] in the current view proposes, to
    the current members and as the next view, a value that every node that
    learns it installs as the current members with the new one at the end;
    [remove_wo] one that is installed as the current members without the
    removed one; for member names without white space. [add] in another view
    proposes nothing. *)
Theorem proposed_view_is_installed c new_m gone w :
  Forall (λ m, word (chars m)) (cf_mems c) → word (chars new_m) →
  let i := u32 (cf_myvid c + 1) in
  (∃ v, add note_proposal c new_m (cf_myvid c) w = Ret (true, (i, cf_mems c, v) :: w) ∧
     installs i v (cf_mems c ++ [new_m])) ∧
  (∃ v, remove_wo note_proposal c gone w = Ret (true, (i, cf_mems c, v) :: w) ∧
     installs i v (filter (λ x, x ≠ gone) (cf_mems c))) ∧
  ∀ vid, vid ≠ cf_myvid c → add note_proposal c new_m vid w = Ret (false, w).
Proof.
  intros Hw Hn i. split_and!.
  - eexists. unfold add. rewrite Z.eqb_refl. split; [done|]. apply value_installs, Forall_app. auto.
  - eexists. split; [done|]. apply value_installs, Forall_forall. intros x [_ Hx]%list_elem_of_filter.
    rewrite Forall_forall in Hw. auto.
  - intros vid Hv. unfold add. by rewrite (proj2 (Z.eqb_neq _ _) Hv).
Qed.

Definition demo_config : config :=
  Config "a" 2 ["a"; "b"] (Acceptor "a" true (Prop_t 0 "a") (Prop_t 0 "a") "" 2 {[2 := "a b "]} []) true.

Lemma demo_config_words : Forall (λ m, word (chars m)) (cf_mems demo_config).
Proof. repeat constructor; discriminate. Qed.

Lemma proposed_view_is_installed_witness :
  ∃ v, add note_proposal demo_config "c" 2 [] = Ret (true, [(3, ["a"; "b"], v)]) ∧
    installs 3 v ["a"; "b"; "c"].
Proof.
  apply (proposed_view_is_installed demo_config "c" "b" [] demo_config_words).
  repeat constructor. discriminate.
Defined.

(** ** Who watches whom *)

Lemma smallest_spec me l :
  (smallest me l = me ∨ smallest me l ∈ l) ∧
  string_gt (smallest me l) me = false ∧ ∀ x, x ∈ l → string_gt (smallest me l) x = false.
Proof.
  unfold smallest. induction l as [|x l IH] using rev_ind.
  - cbn. split_and!; [by left|apply string_gt_irrefl|by intros ? ?%elem_of_nil].
  - rewrite foldl_app. cbn. set (m := foldl _ me l) in *. destruct IH as (Hin & Hme & Hall).
    destruct (string_gt m x) eqn:E.
    + split_and!.
      * right. apply elem_of_app. right. left.
      * destruct (string_gt x me) eqn:E'; [|done]. by rewrite (string_gt_trans _ _ _ E E') in Hme.
      * intros y [Hy| ->%list_elem_of_singleton]%elem_of_app; [|apply string_gt_irrefl].
        destruct (string_gt x y) eqn:E'; [|done].
        pose proof (string_gt_trans _ _ _ E E') as T. by rewrite (Hall y Hy) in T.
    + split_and!.
      * rewrite elem_of_app. tauto.
      * done.
      * intros y [Hy| ->%list_elem_of_singleton]%elem_of_app; [auto|done].
Qed.

(** What a turn of the heartbeat thread may propose. *)
Lemma ping_all_spec {W} (hb : heart W) me l : ∀ w x w',
  ping_all hb me l w = (Some x, w') → x ∈ l ∧ x ≠ me.
Proof.
  induction l as [|y l IH]; intros w x w' H; cbn [ping_all] in H; [done|].
  destruct (bool_decide_reflect (y = me)) as [->|Hne].
  { destruct (IH _ _ _ H). split; [by right|done]. }
  destruct (doheartbeat hb y w) as [h w1]. destruct (decide (h = HB_OK)).
  - destruct (IH _ _ _ H). split; [by right|done].
  - injection H as <- <-. split; [left|done].
Qed.

(** Only the right node is ever proposed for removal. When a turn of the
    heartbeat thread runs Paxos to remove [x], the node is a member of its
    view, [x] is another member of that view, the view did not change
    meanwhile, and either the node has the smallest name of all members or
    [x] has: every other member pings only the smallest one. *)
Theorem heartbeat_removes {W} (hb : heart W) w x w' :
  heartbeater_turn hb w = Ret (Some x, w') →
  let c := hb_config hb w in
  let cmems := (get_view_wo c (cf_myvid c)).1 in
  cf_me c ∈ cmems ∧ x ∈ cmems ∧ x ≠ cf_me c ∧
  (∃ w1, cf_myvid (hb_config hb w1) = cf_myvid c ∧
     ∃ b, remove_wo (hb_run hb) (hb_config hb w1) x w1 = Ret (b, w')) ∧
  ((∀ y, y ∈ cmems → string_gt (cf_me c) y = false) ∨
   (∀ y, y ∈ cmems → string_gt x y = false)).
Proof.
  intros H c cmems. unfold heartbeater_turn in H. fold c in H. subst cmems.
  destruct (get_view_wo c (cf_myvid c)) as [cmems c']. cbn [fst].
  destruct (isamember (cf_me c) cmems) eqn:Eme; cbn [negb] in H; [|done].
  apply isamember_spec in Eme. destruct (smallest_spec (cf_me c) cmems) as (Hin & Hle & Hall).
  set (m := smallest (cf_me c) cmems) in *.
  destruct (if bool_decide (m = cf_me c) then _ else _) as [failed w1] eqn:Ef.
  destruct failed as [y|]; [|done].
  destruct (Z.eqb_spec (cf_myvid c) (cf_myvid (hb_config hb w1))) as [Ev|]; [|done].
  apply rbind_Ret in H as ([b w2] & Hr & [= <- <-]).
  destruct (bool_decide_reflect (m = cf_me c)) as [Em|Hne].
  - destruct (ping_all_spec hb _ _ _ _ _ Ef) as [Hy Hyne].
    split_and!; [done|done|done|exists w1; split; [done|by exists b]|].
    left. intros z Hz. rewrite <- Em. auto.
  - destruct (doheartbeat hb m w) as [h w3]. destruct (decide (h = HB_OK)); [done|].
    injection Ef as <- <-.
    split_and!; [done|by destruct Hin|done|exists w3; split; [done|by exists b]|by right].
Qed.

(** A node b that gets no answer from the smallest node a. *)
Definition demo_heart : heart config :=
  Heart (λ _ _ w, (None, w)) (λ _ w, w) (λ w, w) (λ _ _ _ w, Ret (true, w)).
Definition demo_heart_config : config :=
  Config "b" 2 ["a"; "b"] (Acceptor "b" true (Prop_t 0 "b") (Prop_t 0 "b") "" 2 {[2 := "a b "]} []) true.

Lemma heartbeat_removes_witness :
  heartbeater_turn demo_heart demo_heart_config = Ret (Some "a", demo_heart_config) ∧
  "a" ∈ (get_view_wo demo_heart_config 2).1 ∧ "a" ≠ cf_me demo_heart_config.
Proof.
  assert (heartbeater_turn demo_heart demo_heart_config = Ret (Some "a", demo_heart_config)) as H
    by (vm_compute; reflexivity).
  split; [exact H|].
  destruct (heartbeat_removes demo_heart demo_heart_config "a" demo_heart_config H)
    as (_ & Hx & Hne & _).
  split; [exact Hx|exact Hne].
Defined.
