(* ===== verification/Rsm.v ===== *)
(** * The replicated state machine (rsm.cc, rsm.h, rsm_state_transfer.h)

    A node's state, with the objects its registered procedures act on.  Calls
    to other nodes, which the code makes without holding its mutex, are
    operations on a world [W]; the handlers those calls reach are the
    definitions of this file at the other node.  The state transfer interface
    is the class [StateTransfer]; LockServerRsm.v implements it. *)

From stdpp Require Import functions.
From S2P Require Import Prelude Marshall Protocols Stubs Streams Paxos Handle Config.

(** ** The interface of replicated objects *)

Class StateTransfer (S : Type) := {
  marshal_state : S → res string;
  unmarshal_state : string → S → res S }.

(** What a state transfer promises: a fresh replica that unmarshals the state
    another one has marshalled is equivalent to it. *)
Class StateTransferOk (S : Type) `{!StateTransfer S} := {
  transferable : S → Prop;
  fresh_replica : S → Prop;
  replica_equiv : S → S → Prop;
  transfer_ok : ∀ s s0, transferable s → fresh_replica s0 →
    ∃ str s', marshal_state s = Ret str ∧ unmarshal_state str s0 = Ret s' ∧ replica_equiv s' s }.

(** Calls to other nodes: [None] when [safebind] gives no client. *)
Record rsm_net (W : Type) := RsmNet {
  rn_invoke : string → Z → viewstamp → string → W → option Z * W;
  rn_transfer : string → string → viewstamp → Z → W → option (Z * transferres) * W;
  rn_transferdone : string → string → Z → W → option Z * W;
  rn_join : string → string → viewstamp → W → option (Z * joinres) * W;
  rn_reachable : string → bool → W → W;
  rn_add : config → string → Z → W → res (bool * config * W) }.
Arguments RsmNet {W}.
Arguments rn_invoke {W}.
Arguments rn_transfer {W}.
Arguments rn_transferdone {W}.
Arguments rn_join {W}.
Arguments rn_reachable {W}.
Arguments rn_add {W}.

Section rsm.
Context {S : Type} `{!StateTransfer S}.

(** [rm_stf]: whether [set_state_transfer] was called. [rm_reachable] is the
    flag of the node's RPC server. *)
Record rsm := Rsm {
  rm_procs : gmap Z (option (handler S));
  rm_cfg : config;
  rm_stf : bool;
  myvs : viewstamp;
  last_myvs : viewstamp;
  primary : string;
  insync : bool;
  inviewchange : bool;
  vid_commit : Z;
  vid_insync : Z;
  backups : list string;
  partitioned : bool;
  dopartition : bool;
  break1 : bool;
  break2 : bool;
  rm_reachable : bool;
  rm_obj : S }.

Definition set_obj (s : rsm) (o : S) : rsm :=
  Rsm (rm_procs s) (rm_cfg s) (rm_stf s) (myvs s) (last_myvs s) (primary s) (insync s)
    (inviewchange s) (vid_commit s) (vid_insync s) (backups s) (partitioned s) (dopartition s)
    (break1 s) (break2 s) (rm_reachable s) o.
Definition set_procs (s : rsm) (p : gmap Z (option (handler S))) : rsm :=
  Rsm p (rm_cfg s) (rm_stf s) (myvs s) (last_myvs s) (primary s) (insync s)
    (inviewchange s) (vid_commit s) (vid_insync s) (backups s) (partitioned s) (dopartition s)
    (break1 s) (break2 s) (rm_reachable s) (rm_obj s).
Definition set_cfg (s : rsm) (c : config) : rsm :=
  Rsm (rm_procs s) c (rm_stf s) (myvs s) (last_myvs s) (primary s) (insync s)
    (inviewchange s) (vid_commit s) (vid_insync s) (backups s) (partitioned s) (dopartition s)
    (break1 s) (break2 s) (rm_reachable s) (rm_obj s).
Definition set_primary_field (s : rsm) (p : string) : rsm :=
  Rsm (rm_procs s) (rm_cfg s) (rm_stf s) (myvs s) (last_myvs s) p (insync s)
    (inviewchange s) (vid_commit s) (vid_insync s) (backups s) (partitioned s) (dopartition s)
    (break1 s) (break2 s) (rm_reachable s) (rm_obj s).
Definition set_sync (s : rsm) (sync : bool) (b : list string) : rsm :=
  Rsm (rm_procs s) (rm_cfg s) (rm_stf s) (myvs s) (last_myvs s) (primary s) sync
    (inviewchange s) (vid_commit s) (vid_insync s) b (partitioned s) (dopartition s)
    (break1 s) (break2 s) (rm_reachable s) (rm_obj s).
Definition set_last (s : rsm) (l : viewstamp) : rsm :=
  Rsm (rm_procs s) (rm_cfg s) (rm_stf s) (myvs s) l (primary s) (insync s)
    (inviewchange s) (vid_commit s) (vid_insync s) (backups s) (partitioned s) (dopartition s)
    (break1 s) (break2 s) (rm_reachable s) (rm_obj s).
Definition set_testing (s : rsm) (part dopart b1 b2 reach : bool) : rsm :=
  Rsm (rm_procs s) (rm_cfg s) (rm_stf s) (myvs s) (last_myvs s) (primary s) (insync s)
    (inviewchange s) (vid_commit s) (vid_insync s) (backups s) part dopart b1 b2 reach (rm_obj s).

Definition myaddr (s : rsm) : string := cf_me (rm_cfg s).

Definition reg1 (s : rsm) (proc : Z) (h : handler S) : rsm :=
  set_procs s (<[proc := Some h]> (rm_procs s)).

Definition set_state_transfer (s : rsm) : rsm :=
  Rsm (rm_procs s) (rm_cfg s) true (myvs s) (last_myvs s) (primary s) (insync s)
    (inviewchange s) (vid_commit s) (vid_insync s) (backups s) (partitioned s) (dopartition s)
    (break1 s) (break2 s) (rm_reachable s) (rm_obj s).

Definition view (s : rsm) (vid : Z) : list string * rsm :=
  let '(v, c) := get_view (rm_cfg s) vid in (v, set_cfg s c).

(** ** Views and the primary *)

(** The first node of [p] that is still in [c]. *)
Fixpoint first_remaining (p c : list string) : option string :=
  match p with
  | [] => None
  | x :: p => if isamember x c then Some x else first_remaining p c
  end.

Definition set_primary (s : rsm) (vid : Z) : res rsm :=
  let '(c, s) := view s vid in
  let '(p, s) := view s (u32 (vid - 1)) in
  VERIFY (0 <? Z.of_nat (length c));;
  if isamember (primary s) c then Ret s else
  VERIFY (0 <? Z.of_nat (length p));;
  match first_remaining p c with
  | Some x => Ret (set_primary_field s x)
  | None => VERIFY false;; Ret s
  end.

Definition breakpoint1 (s : rsm) : res () := if break1 s then Fail Exited else Ret ().
Definition breakpoint2 (s : rsm) : res () := if break2 s then Fail Exited else Ret ().

Definition commit_change_wo (s : rsm) (vid : Z) : res rsm :=
  if vid <=? vid_commit s then Ret s else
  let s := Rsm (rm_procs s) (rm_cfg s) (rm_stf s) (myvs s) (last_myvs s) (primary s) (insync s)
    true vid (vid_insync s) (backups s) (partitioned s) (dopartition s)
    (break1 s) (break2 s) (rm_reachable s) (rm_obj s) in
  s ← set_primary s vid;
  let '(b, c) := ismember (rm_cfg s) (myaddr s) (vid_commit s) in
  let s := set_cfg s c in
  (if b : bool then breakpoint2 s else Ret ());;
  Ret s.

Definition commit_change (s : rsm) (vid : Z) : res rsm :=
  s ← commit_change_wo s vid;
  breakpoint2 s;;
  Ret s.

Definition amiprimary (s : rsm) : bool :=
  bool_decide (primary s = myaddr s) && negb (inviewchange s).

(** The constructor, up to the threads and the RPC servers. *)
Definition rsm_new (first me : string) (file : list ascii) (o : S) : res rsm :=
  c ← config_new first me true file;
  let s := Rsm ∅ c false (Viewstamp 0 1) (Viewstamp 0 0) first false true 0 0 [] false false
             false false true o in
  if bool_decide (first = me) then commit_change s 1 else Ret s.

(** ** Executing requests *)

(** [execute]: the reply holds the status and the reply of the procedure. *)
Definition execute (fill : ascii) (s : rsm) (procno : Z) (req : string) : res (string * rsm) :=
  let '(h, procs) := map_ref None (rm_procs s) procno in
  let s := set_procs s procs in
  match h with
  | None => VERIFY false;; Ret ("", s)
  | Some h =>
      '(ret, rep, o) ← h (take_content fill req) (marshall_new fill) (rm_obj s);
      rep1 ← put (A:=int) (marshall_new fill) ret;
      str ← m_str rep;
      rep1 ← put rep1 str;
      r ← m_str rep1;
      Ret (r, set_obj s o)
  end.

Section network.
Context {W : Type} (net : rsm_net W).

Definition net_repair_wo (s : rsm) (heal : bool) (w : W) : rsm * W :=
  let '(m, s) := view s (vid_commit s) in
  let w := foldl (λ w x, if bool_decide (x = myaddr s) then w else rn_reachable net x heal w) w m in
  (set_testing s (partitioned s) (dopartition s) (break1 s) (break2 s) heal, w).

Definition partition1 (s : rsm) (w : W) : rsm * W :=
  if dopartition s then
    let '(s, w) := net_repair_wo s false w in
    (set_testing s true false (break1 s) (break2 s) (rm_reachable s), w)
  else (s, w).

(** The loop of [client_invoke] over the view: [true] when every other member
    answered OK.  A null client is called through. *)
Fixpoint invoke_backups (s : rsm) (procno : Z) (req : string) (values : list string) (w : W)
    : res (bool * rsm * W) :=
  match values with
  | [] => Ret (true, s, w)
  | t :: values =>
      if bool_decide (t = myaddr s) then invoke_backups s procno req values w else
      match rn_invoke net t procno (myvs s) req w with
      | (None, _) => Fail UndefinedBehaviour
      | (Some rt, w) =>
          breakpoint1 s;;
          let '(s, w) := partition1 s w in
          if rt =? rsm_protocol.OK then invoke_backups s procno req values w
          else Ret (false, s, w)
      end
  end.

Definition client_invoke (fill : ascii) (s : rsm) (procno : Z) (req r : string) (w : W)
    : res (Z * string * rsm * W) :=
  if inviewchange s then Ret (rsm_client_protocol.BUSY, r, s, w) else
  if negb (amiprimary s) then Ret (rsm_client_protocol.NOTPRIMARY, r, s, w) else
  let '(values, s) := view s (vid_commit s) in
  '(ok, s, w) ← invoke_backups s procno req values w;
  if negb ok then Ret (rsm_client_protocol.BUSY, r, s, w) else
  '(r, s) ← execute fill s procno req;
  Ret (rsm_client_protocol.OK, r, s, w).

(** The request at a replica. *)
Definition invoke (fill : ascii) (s : rsm) (proc : Z) (vs : viewstamp) (req : string)
    : res (Z * rsm) :=
  if inviewchange s then Ret (rsm_protocol.ERR, s) else
  if amiprimary s then Ret (rsm_protocol.ERR, s) else
  if negb (viewstamp_eqb vs (myvs s)) then Ret (rsm_protocol.ERR, s) else
  '(_, s) ← execute fill s proc req;
  breakpoint1 s;;
  Ret (rsm_protocol.OK, s).

(** ** State transfer *)

Definition transferreq (s : rsm) (src : string) (last : viewstamp) (vid : Z) (r : transferres)
    : res (Z * transferres) :=
  if negb (insync s) || negb (vid =? vid_insync s) then Ret (rsm_protocol.BUSY, r) else
  st ← (if rm_stf s && viewstamp_neb last (last_myvs s) then marshal_state (rm_obj s)
        else Ret (tr_state r));
  Ret (rsm_protocol.OK, TransferRes st (last_myvs s)).

(** [backups.erase] of the first entry equal to [m]. *)
Fixpoint erase_first (m : string) (l : list string) : list string :=
  match l with
  | [] => []
  | x :: l => if bool_decide (x = m) then l else x :: erase_first m l
  end.

(** The second result: whether the recovery thread is woken up. *)
Definition transferdonereq (s : rsm) (m : string) (vid : Z) : Z * bool * rsm :=
  if negb (insync s) || negb (vid =? vid_insync s) then (rsm_protocol.BUSY, false, s) else
  let b := erase_first m (backups s) in
  (rsm_protocol.OK, bool_decide (b = []), set_sync s (insync s) b).

Definition statetransfer (s : rsm) (m : string) (w : W) : res (bool * rsm * W) :=
  match rn_transfer net m (myaddr s) (last_myvs s) (vid_insync s) w with
  | (None, w) => Ret (false, s, w)
  | (Some (ret, r), w) =>
      if negb (ret =? rsm_protocol.OK) then Ret (false, s, w) else
      s ← (if rm_stf s && viewstamp_neb (last_myvs s) (tr_last r)
           then o ← unmarshal_state (tr_state r) (rm_obj s); Ret (set_obj s o)
           else Ret s);
      Ret (true, set_last s (tr_last r), w)
  end.

(** [cl] is called without a check. *)
Definition statetransferdone (s : rsm) (m : string) (w : W) : res (bool * W) :=
  match rn_transferdone net m (myaddr s) (vid_insync s) w with
  | (None, _) => Fail UndefinedBehaviour
  | (Some ret, w) => Ret (ret =? rsm_protocol.OK, w)
  end.

Definition sync_with_primary (s : rsm) (w : W) : res (bool * rsm * W) :=
  let m := primary s in
  '(ok, s, w) ← statetransfer s m w;
  if negb ok then Ret (false, s, w) else
  '(ok, w) ← statetransferdone s m w;
  if negb ok then Ret (false, s, w) else
  Ret (vid_insync s =? vid_commit s, s, w).

(** [sync_with_backups] up to its wait, the condition it waits for, and the
    rest. *)
Definition sync_begin (s : rsm) : rsm :=
  let '(v, s) := view s (vid_insync s) in
  set_sync s true (erase_first (myaddr s) v).
Definition sync_waits (s : rsm) : bool :=
  negb (bool_decide (backups s = [])) && (vid_insync s =? vid_commit s).
Definition sync_end (s : rsm) : bool * rsm := (true, set_sync s false (backups s)).

(** ** Joining *)

Definition join (s : rsm) (m : string) (w : W) : res (bool * rsm * W) :=
  match rn_join net m (myaddr s) (last_myvs s) w with
  | (None, w) => Ret (false, s, w)
  | (Some (ret, r), w) =>
      if negb (ret =? rsm_protocol.OK) then Ret (false, s, w) else
      c ← Config.restore (rm_cfg s) (jr_log r);
      Ret (true, set_cfg s c, w)
  end.

Definition joinreq (s : rsm) (m : string) (last : viewstamp) (r : joinres) (w : W)
    : res (Z * joinres * rsm * W) :=
  let '(b, c) := ismember (rm_cfg s) m (vid_commit s) in
  let s := set_cfg s c in
  if b then Ret (rsm_protocol.OK, JoinRes (dump (cf_acc (rm_cfg s))), s, w)
  else if negb (bool_decide (myaddr s = primary s)) then Ret (rsm_protocol.BUSY, r, s, w)
  else
    '(_, c, w) ← rn_add net (rm_cfg s) m (vid_commit s) w;
    let s := set_cfg s c in
    let '(b, c) := ismember (rm_cfg s) m (cf_myvid (rm_cfg s)) in
    let s := set_cfg s c in
    if b then Ret (rsm_protocol.OK, JoinRes (dump (cf_acc (rm_cfg s))), s, w)
    else Ret (rsm_protocol.BUSY, r, s, w).

Definition client_members (s : rsm) : Z * list string * rsm :=
  let '(m, s) := view s (vid_commit s) in
  (rsm_client_protocol.OK, m ++ [primary s], s).

(** One attempt of the recovery thread to become a member. *)
Definition recovery_join (s : rsm) (w : W) : res (bool * rsm * W) :=
  '(ok, s, w) ← join s (primary s) w;
  if ok : bool then s ← commit_change_wo s (cf_myvid (rm_cfg s)); Ret (true, s, w)
  else Ret (false, s, w).

(** The recovery thread once it is a member: it picks the view, and when the
    synchronization came back with [r] it goes on with [recovery_end], whose
    first result tells whether it goes to sleep. *)
Definition recovery_begin (s : rsm) : rsm :=
  Rsm (rm_procs s) (rm_cfg s) (rm_stf s) (myvs s) (last_myvs s) (primary s) (insync s)
    (inviewchange s) (vid_commit s) (vid_commit s) (backups s) (partitioned s) (dopartition s)
    (break1 s) (break2 s) (rm_reachable s) (rm_obj s).
Definition recovery_end (r : bool) (s : rsm) : bool * rsm :=
  if negb (vid_insync s =? vid_commit s) then (false, s) else
  if r then
    (true, Rsm (rm_procs s) (rm_cfg s) (rm_stf s) (Viewstamp (vid_commit s) 1) (last_myvs s)
       (primary s) (insync s) false (vid_commit s) (vid_insync s) (backups s) (partitioned s)
       (dopartition s) (break1 s) (break2 s) (rm_reachable s) (rm_obj s))
  else (false, s).

(** ** The testing server *)

Definition test_net_repairreq (s : rsm) (heal : Z) (w : W) : Z * rsm * W :=
  if negb (heal =? 0) then
    let '(s, w) := net_repair_wo s true w in
    (rsm_test_protocol.OK,
     set_testing s false (dopartition s) (break1 s) (break2 s) (rm_reachable s), w)
  else
    (rsm_test_protocol.OK,
     set_testing s false true (break1 s) (break2 s) (rm_reachable s), w).

(** [cfg->breakpoint(b)] goes to the proposer [p]. *)
Definition breakpointreq (s : rsm) (p : proposer) (b : Z) : Z * rsm * proposer :=
  if b =? 1 then
    (rsm_test_protocol.OK,
     set_testing s (partitioned s) (dopartition s) true (break2 s) (rm_reachable s), p)
  else if b =? 2 then
    (rsm_test_protocol.OK,
     set_testing s (partitioned s) (dopartition s) (break1 s) true (rm_reachable s), p)
  else if (b =? 3) || (b =? 4) then (rsm_test_protocol.OK, s, breakpoint p b)
  else (rsm_test_protocol.ERR, s, p).
End network.
End rsm.
Arguments rsm S : clear implicits.

(** ** The primary of a view *)

Lemma first_remaining_spec p c :
  match first_remaining p c with
  | Some x => x ∈ p ∧ x ∈ c ∧ ∃ l r, p = l ++ x :: r ∧ ∀ y, y ∈ l → y ∉ c
  | None => ∀ x, x ∈ p → x ∉ c
  end.
Proof.
  induction p as [|x p IH]; cbn; [by intros ? ?%elem_of_nil|].
  destruct (isamember x c) eqn:E.
  - apply isamember_spec in E. split_and!; [left|done|]. exists [], p. split; [done|].
    by intros ? ?%elem_of_nil.
  - assert (x ∉ c) as Hx by (rewrite <- isamember_spec, E; done).
    destruct (first_remaining p c) as [z|].
    + destruct IH as (? & ? & l & r & -> & Hl). split_and!; [by right|done|].
      exists (x :: l), r. split; [done|]. by intros y [->|Hy]%elem_of_cons; [|apply Hl].
    + by intros y [->|Hy]%elem_of_cons; [|apply IH].
Qed.

Section theorems.
Context {S : Type} `{!StateTransfer S}.
Implicit Types s t : rsm S.

(** The members of view [vid] as node [s] knows them. *)
Definition members_of s (vid : Z) : list string := (get_view (rm_cfg s) vid).1.

Lemma view_eq s vid : ∃ c, view s vid = (members_of s vid, set_cfg s c) ∧
  cf_me c = cf_me (rm_cfg s) ∧ cf_myvid c = cf_myvid (rm_cfg s) ∧
  ∀ v', members_of (set_cfg s c) v' = members_of s v'.
Proof.
  unfold members_of, view, get_view, get_view_wo, Paxos.value.
  destruct (map_ref "" (values (cf_acc (rm_cfg s))) vid) as [v m] eqn:E. cbn.
  eexists. split; [done|]. cbn. split_and!; [done|done|]. intros v'. cbn.
  pose proof (map_ref_snd_default "" (values (cf_acc (rm_cfg s))) vid v') as H. rewrite E in H. cbn in H.
  pose proof (map_ref_fst "" m v') as F1.
  pose proof (map_ref_fst "" (values (cf_acc (rm_cfg s))) v') as F2.
  destruct (map_ref "" m v') as [x1 m1], (map_ref "" (values (cf_acc (rm_cfg s))) v') as [x2 m2].
  cbn in *. replace x1 with x2 by congruence; done.
Qed.

(** What a node does not change when it looks at its views. *)
Definition same_node s s' : Prop :=
  rm_procs s' = rm_procs s ∧ rm_obj s' = rm_obj s ∧ myvs s' = myvs s ∧ last_myvs s' = last_myvs s ∧
  myaddr s' = myaddr s ∧ ∀ v, members_of s' v = members_of s v.

(** [x] becomes the primary of view [vid]: the old one if it is still a
    member, otherwise the first node of the previous view that is. *)
Definition elected s (vid : Z) (x : string) : Prop :=
  x ∈ members_of s vid ∧
  (primary s ∈ members_of s vid → x = primary s) ∧
  ((primary s ∉ members_of s vid) → ∃ l r, members_of s (u32 (vid - 1)) = l ++ x :: r ∧
     ∀ y, y ∈ l → y ∉ members_of s vid).

Lemma set_primary_cases s vid :
  (∃ s', set_primary s vid = Ret s' ∧ same_node s s' ∧ vid_commit s' = vid_commit s ∧
     inviewchange s' = inviewchange s ∧ break2 s' = break2 s ∧ elected s vid (primary s')) ∨
  set_primary s vid = Fail VerifyFailed ∧ (primary s ∉ members_of s vid) ∧
    ∀ x, x ∈ members_of s (u32 (vid - 1)) → x ∉ members_of s vid.
Proof.
  unfold set_primary. destruct (view_eq s vid) as (c1 & -> & Em1 & _ & Hv1).
  destruct (view_eq (set_cfg s c1) (u32 (vid - 1))) as (c2 & -> & Em2 & _ & Hv2). rewrite Hv1.
  assert (∀ v, members_of (set_cfg (set_cfg s c1) c2) v = members_of s v) as Hv
    by (intros v; by rewrite Hv2, Hv1).
  assert (cf_me c2 = cf_me (rm_cfg s)) as Em by (cbn in Em2; congruence).
  change (primary (set_cfg (set_cfg s c1) c2)) with (primary s).
  destruct (Z.ltb_spec 0 (Z.of_nat (length (members_of s vid)))) as [_|H0]; cbn [VERIFY rbind].
  2: { right. destruct (members_of s vid); [|cbn in H0; lia]. split; [done|].
       split; [by intros ?%elem_of_nil|by intros ? _ ?%elem_of_nil]. }
  destruct (isamember (primary s) (members_of s vid)) eqn:E.
  { left. eexists. split; [done|]. apply isamember_spec in E. by split_and!. }
  assert (primary s ∉ members_of s vid) as Hn by (rewrite <- isamember_spec, E; done).
  destruct (Z.ltb_spec 0 (Z.of_nat (length (members_of s (u32 (vid - 1)))))) as [_|H0]; cbn [VERIFY rbind].
  2: { right. destruct (members_of s (u32 (vid - 1))); [|cbn in H0; lia]. split; [done|].
       split; [done|by intros ? ?%elem_of_nil]. }
  pose proof (first_remaining_spec (members_of s (u32 (vid - 1))) (members_of s vid)) as Hf.
  destruct (first_remaining _ _) as [x|]; [left|by right].
  destruct Hf as (_ & Hc & Hlr). eexists. split; [done|]. by split_and!.
Qed.

Lemma commit_change_wo_Ret s vid s' :
  commit_change_wo s vid = Ret s' →
  myvs s' = myvs s ∧ last_myvs s' = last_myvs s ∧ rm_obj s' = rm_obj s ∧ rm_procs s' = rm_procs s.
Proof.
  unfold commit_change_wo. destruct (vid <=? vid_commit s); [by intros [= <-]|].
  intros (s2 & Hp & H)%rbind_Ret.
  match type of Hp with set_primary ?t _ = _ => set (s1 := t) in Hp end.
  destruct (set_primary_cases s1 vid) as [(s3 & E & (? & ? & ? & ? & _) & _)|[E _]];
    rewrite E in Hp; [injection Hp as <-|done].
  destruct (ismember _ _ _) as [b c]. by apply rbind_Ret in H as ([] & _ & [= <-]).
Qed.

(** A view change is installed as the code means it to.  A view that is
    not newer changes nothing.  For a newer one its number is taken, requests
    are refused from then on, the objects stay, and the primary is a member
    of the new view: the old one if it is still a member, otherwise the first
    node of the previous view that is (the first in the order of the view,
    which need not be the lowest number the comment speaks of).  This
    succeeds whenever such a node exists; otherwise the node aborts. *)
Theorem view_change_installs s vid :
  (vid ≤ vid_commit s → commit_change_wo s vid = Ret s) ∧
  (vid_commit s < vid → break2 s = false →
     (∃ x, (x = primary s ∨ x ∈ members_of s (u32 (vid - 1))) ∧ x ∈ members_of s vid) →
     ∃ s', commit_change_wo s vid = Ret s' ∧
       vid_commit s' = vid ∧ inviewchange s' = true ∧ rm_obj s' = rm_obj s ∧ elected s vid (primary s')) ∧
  (vid_commit s < vid →
     (∀ x, x = primary s ∨ x ∈ members_of s (u32 (vid - 1)) → x ∉ members_of s vid) →
     commit_change_wo s vid = Fail VerifyFailed).
Proof.
  unfold commit_change_wo. destruct (Z.leb_spec vid (vid_commit s)) as [Hle|Hlt].
  { split_and!; [done|lia|lia]. }
  set (s1 := Rsm _ _ _ _ _ _ _ _ _ _ _ _ _ _ _ _ _). split; [lia|].
  destruct (set_primary_cases s1 vid) as [(s2 & E & (_ & Eo & _) & Ev & Ei & Eb & Hel)|(E & Hn & Hno)];
    rewrite E; cbn [rbind].
  - split.
    + intros _ Hb _. destruct (ismember _ _ _) as [b c]. unfold breakpoint2. cbn [break2 set_cfg].
      rewrite Eb. change (break2 s1) with (break2 s). rewrite Hb. destruct b; by eexists.
    + intros _ Hno. destruct Hel as (Hin & Hkeep & Hfirst). exfalso.
      destruct (decide (primary s ∈ members_of s vid)) as [Hp|Hp]; [apply (Hno (primary s)); [by left|done]|].
      destruct (Hfirst Hp) as (l & r & El & _). apply (Hno (primary s2)); [|done]. right.
      change (members_of s1) with (members_of s) in El. rewrite El. set_solver.
  - split; [|done]. intros _ _ (x & [->|Hx] & Hin); [done|]. by apply Hno in Hx.
Qed.

(** ** Requests *)

Lemma execute_Ret fill s procno req r s' :
  execute fill s procno req = Ret (r, s') →
  same_node (set_procs (set_obj s (rm_obj s')) (rm_procs s')) s' ∧
  inviewchange s' = inviewchange s ∧ primary s' = primary s ∧ break1 s' = break1 s ∧
  myvs s' = myvs s ∧ last_myvs s' = last_myvs s ∧
  ∀ t, rm_obj t = rm_obj s → (∀ p, default None (rm_procs t !! p) = default None (rm_procs s !! p)) →
    ∃ t', execute fill t procno req = Ret (r, t') ∧ rm_obj t' = rm_obj s' ∧
      ∀ p, default None (rm_procs t' !! p) = default None (rm_procs s' !! p).
Proof.
  unfold execute. destruct (map_ref None (rm_procs s) procno) as [h procs] eqn:E.
  assert (h = default None (rm_procs s !! procno) ∧
    ∀ p, default None (procs !! p) = default None (rm_procs s !! p)) as [Eh Hp].
  { pose proof (map_ref_fst None (rm_procs s) procno) as H1.
    pose proof (map_ref_snd_default None (rm_procs s) procno) as H2. by rewrite E in H1, H2. }
  destruct h as [h|]; [|done]. intros ([[ret rep] o] & Ef & H)%rbind_Ret.
  apply rbind_Ret in H as (rep1 & E1 & (str & E2 & (rep2 & E3 & (r' & E4 & [= <- <-])%rbind_Ret)
    %rbind_Ret)%rbind_Ret).
  split_and!; try done. intros t Eo Ht.
  pose proof (map_ref_fst None (rm_procs t) procno) as H1.
  pose proof (map_ref_snd_default None (rm_procs t) procno) as H2.
  destruct (map_ref None (rm_procs t) procno) as [h' procs']. cbn in H1, H2.
  rewrite Ht, <- Eh in H1. subst h'. cbn [rm_obj set_procs] in *. rewrite Eo, Ef. cbn [rbind].
  rewrite E1. cbn [rbind]. rewrite E2. cbn [rbind]. rewrite E3. cbn [rbind]. rewrite E4.
  eexists. split; [done|]. split; [done|]. intros p. cbn. by rewrite H2, Ht, Hp.
Qed.

#[local] Instance same_node_po : PreOrder same_node.
Proof.
  split; [by unfold same_node|]. unfold same_node. intros s1 s2 s3 (?&?&?&?&?&Hv) (?&?&?&?&?&Hv').
  split_and!; congruence.
Qed.

Section with_net.
Context {W : Type} (net : rsm_net W).

Lemma partition1_same s w : same_node s (partition1 net s w).1.
Proof.
  unfold partition1, net_repair_wo. destruct (dopartition s); [|done].
  destruct (view_eq s (vid_commit s)) as (c & -> & Em & _ & Hv). by split_and!.
Qed.

Lemma invoke_backups_Ret procno req values : ∀ s w ok s' w',
  invoke_backups net s procno req values w = Ret (ok, s', w') →
  same_node s s' ∧
  (ok = true → ∀ b : string, b ∈ values → b ≠ myaddr s →
     ∃ w1 w2, rn_invoke net b procno (myvs s) req w1 = (Some rsm_protocol.OK, w2)).
Proof.
  induction values as [|x values IH]; intros s w ok s' w' H; cbn [invoke_backups] in H.
  { injection H as <- <- <-. split; [done|]. by intros _ t ?%elem_of_nil. }
  destruct (bool_decide_reflect (x = myaddr s)) as [->|Hne].
  { destruct (IH _ _ _ _ _ H) as [Hs Hall]. split; [done|].
    intros Hok t [->|Hin]%elem_of_cons ?; [done|by apply Hall]. }
  destruct (rn_invoke net x procno (myvs s) req w) as [[rt|] w1] eqn:Ec; [|done].
  apply rbind_Ret in H as ([] & _ & H). pose proof (partition1_same s w1) as Hp.
  destruct (partition1 net s w1) as [s1 w2]. cbn in Hp.
  destruct (Z.eqb_spec rt rsm_protocol.OK) as [->|]; [|injection H as <- <- <-; done].
  destruct (IH _ _ _ _ _ H) as [Hs Hall]. pose proof Hp as (_ & _ & Evs & _ & Ea & _).
  split; [by etrans|]. intros Hok t [->|Hin]%elem_of_cons Hta; [by exists w, w1|].
  rewrite <- Evs. apply Hall; [done|done|congruence].
Qed.

Lemma client_invoke_OK fill s procno req r0 w r s' w' :
  client_invoke net fill s procno req r0 w = Ret (rsm_client_protocol.OK, r, s', w') →
  inviewchange s = false ∧ primary s = myaddr s ∧
  (∀ b : string, b ∈ members_of s (vid_commit s) → b ≠ myaddr s →
    ∃ w1 w2, rn_invoke net b procno (myvs s) req w1 = (Some rsm_protocol.OK, w2)) ∧
  ∃ s1, same_node s s1 ∧ execute fill s1 procno req = Ret (r, s').
Proof.
  unfold client_invoke. destruct (inviewchange s) eqn:Ei; [done|].
  destruct (amiprimary s) eqn:Ep; [|done]. cbn [negb].
  destruct (view_eq s (vid_commit s)) as (c & -> & Em & _ & Hv).
  intros ([[ok s1] w1] & Hb & H)%rbind_Ret. destruct (invoke_backups_Ret _ _ _ _ _ _ _ _ Hb) as [Hs Hall].
  destruct ok; [|done]. cbn [negb] in H. apply rbind_Ret in H as ([r1 s2] & He & [= <- <- <-]).
  unfold amiprimary in Ep. apply andb_true_iff in Ep as [Ep%bool_decide_eq_true _].
  assert (same_node s (set_cfg s c)) as Hs0 by (by split_and!).
  split_and!; [done|done| |exists s1; split; [by etrans|done]].
  intros t Hin Hne. apply (Hall eq_refl t Hin). unfold myaddr in *. cbn. congruence.
Qed.

(** Two replicas run the same procedures on equal objects. *)
Definition replicas s t : Prop :=
  rm_obj t = rm_obj s ∧ (∀ p, default None (rm_procs t !! p) = default None (rm_procs s !! p)) ∧
  inviewchange t = false ∧ primary t ≠ myaddr t ∧ myvs t = myvs s ∧ break1 t = false.

(** Primary and backup stay in step.  If a client request succeeds at
    the primary, every other member of its view has answered OK; a replica in
    the same view with equal objects that receives the same request accepts
    it, computes the very reply that the client gets, and its objects are
    again equal to the primary's. *)
Theorem request_keeps_replicas fill s t procno req r0 w r s' w' :
  replicas s t →
  client_invoke net fill s procno req r0 w = Ret (rsm_client_protocol.OK, r, s', w') →
  (∀ b, b ∈ members_of s (vid_commit s) → b ≠ myaddr s →
    ∃ w1 w2, rn_invoke net b procno (myvs s) req w1 = (Some rsm_protocol.OK, w2)) ∧
  ∃ t', execute fill t procno req = Ret (r, t') ∧
    invoke fill t procno (myvs s) req = Ret (rsm_protocol.OK, t') ∧ replicas s' t'.
Proof.
  intros (Eo & Hp & Ei & Epr & Evs & Eb) H.
  apply client_invoke_OK in H as (_ & _ & Hall & s1 & (E1 & E2 & E3 & _) & He).
  split; [done|].
  destruct (execute_Ret _ _ _ _ _ _ He) as (_ & _ & _ & _ & Em & _ & Ht).
  destruct (Ht t) as (t' & Het & Eo' & Hp'); [congruence|intros p; by rewrite Hp, E1|].
  destruct (execute_Ret _ _ _ _ _ _ Het) as ((_ & _ & _ & _ & Ea & _) & Ei' & Epr' & Eb' & Em' & _ & _).
  exists t'. split; [done|]. unfold invoke. rewrite Ei. unfold amiprimary. rewrite bool_decide_eq_false_2 by done.
  cbn [andb]. rewrite Evs.
  replace (viewstamp_eqb (myvs s) (myvs s)) with true by (symmetry; by apply viewstamp_eqb_eq).
  cbn [negb]. rewrite Het. cbn [rbind]. unfold breakpoint1. rewrite Eb', Eb.
  split; [done|]. unfold replicas. rewrite Eb', Ei', Epr', Em', Em, Ea, Evs, E3. by split_and!.
Qed.

(** Nothing numbers the requests of a view.  Executing a request leaves
    [myvs] as it was, at the primary and at the replicas, so a replica
    accepts the same request, with the same viewstamp, again and executes it
    twice, although requests are meant to be executed in the order of their
    sequence numbers with no gaps. *)
Theorem viewstamp_never_advances fill t procno vs req t' :
  invoke fill t procno vs req = Ret (rsm_protocol.OK, t') →
  myvs t' = myvs t ∧ last_myvs t' = last_myvs t ∧
  ∀ r t'', execute fill t' procno req = Ret (r, t'') →
    invoke fill t' procno vs req = Ret (rsm_protocol.OK, t'').
Proof.
  unfold invoke. destruct (inviewchange t) eqn:Ei; [done|]. destruct (amiprimary t) eqn:Ea; [done|].
  destruct (viewstamp_eqb vs (myvs t)) eqn:Ev; [|done]. cbn [negb].
  intros ([r1 t1] & He & ([] & Hb & [= <-])%rbind_Ret)%rbind_Ret.
  destruct (execute_Ret _ _ _ _ _ _ He) as ((_ & _ & _ & _ & Eaddr & _) & Ei' & Ep' & Eb' & Em & El & _).
  split_and!; [done|done|]. intros r t'' He'. rewrite Ei', Ei. unfold amiprimary in *.
  rewrite Ep', Ei', Eaddr, Em, Ev.
  change (myaddr (set_procs (set_obj t (rm_obj t1)) (rm_procs t1))) with (myaddr t). rewrite Ea.
  cbn [negb]. rewrite He'. cbn [rbind].
  destruct (execute_Ret _ _ _ _ _ _ He') as (_ & _ & _ & Eb'' & _).
  unfold breakpoint1 in *. rewrite Eb''. by destruct (break1 t1).
Qed.

End with_net.

(** ** A cluster of nodes *)

(** What a node does by itself or for others, every answer of the network
    allowed, except for asking for the state. *)
Inductive node_step s : rsm S → Prop :=
| ns_reg proc h : node_step s (reg1 s proc h)
| ns_stf : node_step s (set_state_transfer s)
| ns_client_invoke W (net : rsm_net W) fill procno req r w ret r' s' w' :
    client_invoke net fill s procno req r w = Ret (ret, r', s', w') → node_step s s'
| ns_invoke fill procno vs req ret s' : invoke fill s procno vs req = Ret (ret, s') → node_step s s'
| ns_commit_change vid s' : commit_change s vid = Ret s' → node_step s s'
| ns_recovery_join W (net : rsm_net W) w ok s' w' :
    recovery_join net s w = Ret (ok, s', w') → node_step s s'
| ns_recovery_begin : node_step s (recovery_begin s)
| ns_recovery_end r : node_step s (recovery_end r s).2
| ns_joinreq W (net : rsm_net W) m last r w ret r' s' w' :
    joinreq net s m last r w = Ret (ret, r', s', w') → node_step s s'
| ns_client_members : node_step s (client_members s).2
| ns_sync_begin : node_step s (sync_begin s)
| ns_sync_end : node_step s (sync_end s).2
| ns_transferdone m vid : node_step s (transferdonereq s m vid).2
| ns_net_repair W (net : rsm_net W) heal w : node_step s (test_net_repairreq net s heal w).1.2
| ns_breakpoint p b : node_step s (breakpointreq s p b).1.2.

(** Node [a] asks node [m] for the state, and [m] answers with what
    [transferreq] puts into a fresh [transferres]. *)
Definition transfers (cl : string → rsm S) (a m : string) s' : Prop :=
  ∃ W (net : rsm_net W) w w1 w2 l0 ret rep ok,
    transferreq (cl m) (myaddr (cl a)) (last_myvs (cl a)) (vid_insync (cl a)) (TransferRes "" l0)
      = Ret (ret, rep) ∧
    rn_transfer net m (myaddr (cl a)) (last_myvs (cl a)) (vid_insync (cl a)) w = (Some (ret, rep), w1) ∧
    statetransfer net (cl a) m w = Ret (ok, s', w2).

Inductive cluster_step (cl : string → rsm S) : (string → rsm S) → Prop :=
| cs_node a s' : node_step (cl a) s' → cluster_step cl (<[a := s']> cl)
| cs_transfer a m s' : transfers cl a m s' → cluster_step cl (<[a := s']> cl).

Lemma client_invoke_last {W} (net : rsm_net W) fill s procno req r w ret r' s' w' :
  client_invoke net fill s procno req r w = Ret (ret, r', s', w') → last_myvs s' = last_myvs s.
Proof.
  unfold client_invoke. destruct (inviewchange s); [by intros [= _ _ <- _]|].
  destruct (negb (amiprimary s)); [by intros [= _ _ <- _]|].
  destruct (view_eq s (vid_commit s)) as (c & -> & _). intros ([[ok s1] w1] & Hb & H)%rbind_Ret.
  apply invoke_backups_Ret in Hb as [(_ & _ & _ & E & _) _].
  destruct (negb ok); [by injection H as _ _ <- _|]. apply rbind_Ret in H as ([r1 s2] & He & [= _ _ <- _]).
  apply execute_Ret in He as (_ & _ & _ & _ & _ & -> & _). exact E.
Qed.

Lemma invoke_last fill s procno vs req ret s' :
  invoke fill s procno vs req = Ret (ret, s') → last_myvs s' = last_myvs s.
Proof.
  unfold invoke. destruct (inviewchange s); [by intros [= _ <-]|].
  destruct (amiprimary s); [by intros [= _ <-]|]. destruct (negb _); [by intros [= _ <-]|].
  intros ([r1 s1] & He & ([] & _ & [= _ <-])%rbind_Ret)%rbind_Ret.
  by apply execute_Ret in He as (_ & _ & _ & _ & _ & ? & _).
Qed.

Lemma recovery_join_last {W} (net : rsm_net W) s w ok s' w' :
  recovery_join net s w = Ret (ok, s', w') → last_myvs s' = last_myvs s.
Proof.
  unfold recovery_join. intros ([[ok1 s1] w1] & Hj & H)%rbind_Ret.
  assert (last_myvs s1 = last_myvs s) as <-.
  { unfold join in Hj. destruct (rn_join _ _ _ _ _) as [[[ret j]|] w2]; [|by injection Hj as _ <- _].
    destruct (negb _); [by injection Hj as _ <- _|]. by apply rbind_Ret in Hj as (c & _ & [= _ <- _]). }
  destruct ok1; [|by injection H as _ <- _]. apply rbind_Ret in H as (s2 & Hc & [= _ <- _]).
  by apply commit_change_wo_Ret in Hc as (_ & ? & _).
Qed.

Lemma joinreq_last {W} (net : rsm_net W) s m last r w ret r' s' w' :
  joinreq net s m last r w = Ret (ret, r', s', w') → last_myvs s' = last_myvs s.
Proof.
  unfold joinreq. destruct (ismember _ _ _) as [b c]. destruct b; [by intros [= _ _ <- _]|].
  destruct (negb _); [by intros [= _ _ <- _]|]. intros ([[b c1] w1] & _ & H)%rbind_Ret.
  destruct (ismember _ _ _) as [b' c2]. by destruct b'; injection H as _ _ <- _.
Qed.

Lemma node_step_last s s' : node_step s s' → last_myvs s' = last_myvs s.
Proof.
  intros []; try done.
  - by eapply client_invoke_last.
  - by eapply invoke_last.
  - unfold commit_change in *. match goal with H : rbind _ _ = Ret _ |- _ =>
      apply rbind_Ret in H as (s1 & Hc & ([] & _ & [= <-])%rbind_Ret) end.
    by apply commit_change_wo_Ret in Hc as (_ & ? & _).
  - by eapply recovery_join_last.
  - unfold recovery_end. destruct (negb _); [done|]. by destruct r.
  - by eapply joinreq_last.
  - unfold client_members. by destruct (view_eq s (vid_commit s)) as (c & -> & _).
  - unfold sync_begin. by destruct (view_eq s (vid_insync s)) as (c & -> & _).
  - unfold transferdonereq. by destruct (_ || _).
  - unfold test_net_repairreq, net_repair_wo. destruct (negb _); [|done].
    by destruct (view_eq s (vid_commit s)) as (c & -> & _).
  - unfold breakpointreq. by destruct (b =? 1), (b =? 2), ((b =? 3) || (b =? 4)).
Qed.

Lemma rsm_new_Ret first me file o s : rsm_new first me file o = Ret s →
  last_myvs s = Viewstamp 0 0 ∧ rm_obj s = o ∧ rm_procs s = ∅.
Proof.
  unfold rsm_new. intros (c & _ & H)%rbind_Ret. destruct (bool_decide _); [|by injection H as <-].
  unfold commit_change in H. apply rbind_Ret in H as (s1 & Hc & ([] & _ & [= <-])%rbind_Ret).
  by apply commit_change_wo_Ret in Hc as (_ & ? & ? & ?).
Qed.

Lemma rsm_new_last first me file o s : rsm_new first me file o = Ret s → last_myvs s = Viewstamp 0 0.
Proof. by intros [? _]%rsm_new_Ret. Qed.

Lemma transfers_nothing cl a m s' :
  (∀ b, last_myvs (cl b) = Viewstamp 0 0) → transfers cl a m s' →
  last_myvs s' = Viewstamp 0 0 ∧ rm_obj s' = rm_obj (cl a).
Proof.
  intros H0 (W & net & w & w1 & w2 & l0 & ret & rep & ok & Ht & Hn & H).
  unfold transferreq in Ht. unfold statetransfer in H. rewrite Hn in H. rewrite !H0 in *.
  change (viewstamp_neb (Viewstamp 0 0) (Viewstamp 0 0)) with false in *.
  destruct (negb _ || negb _); [by injection Ht as <- <-; injection H as _ <- _|].
  rewrite andb_false_r in Ht. injection Ht as <- <-. cbn -[viewstamp_neb] in H.
  change (viewstamp_neb (Viewstamp 0 0) (Viewstamp 0 0)) with false in H.
  rewrite andb_false_r in H. by injection H as _ <- _.
Qed.

Lemma cluster_last cl cl' :
  (∀ a, last_myvs (cl a) = Viewstamp 0 0) → rtc cluster_step cl cl' →
  ∀ a, last_myvs (cl' a) = Viewstamp 0 0.
Proof.
  intros H0 H. revert H0. induction H as [|cl1 cl2 cl3 Hs _ IH]; [done|]. intros H0. apply IH. intros b.
  destruct Hs as [a s' Hn|a m s' Ht]; (destruct (decide (a = b)) as [<-|];
    [rewrite fn_lookup_insert|by rewrite fn_lookup_insert_ne]).
  - by rewrite (node_step_last _ _ Hn).
  - by apply (transfers_nothing cl1 a m).
Qed.

(** No state is ever transferred.  In a cluster whose nodes start as the
    constructor leaves them, whatever requests, view changes, joins and
    synchronizations follow, the viewstamp of the last executed request is
    (0,0) at every node; so the primary does not marshal its objects, the
    node that asks for the state does not unmarshal any, and it goes on with
    the objects that it had. *)
Theorem state_never_transferred cl0 cl a m s' :
  (∀ b, ∃ first me file o, rsm_new first me file o = Ret (cl0 b)) →
  rtc cluster_step cl0 cl → transfers cl a m s' →
  last_myvs (cl m) = Viewstamp 0 0 ∧ rm_obj s' = rm_obj (cl a).
Proof.
  intros Hnew Hsteps Ht.
  assert (∀ b, last_myvs (cl b) = Viewstamp 0 0) as H0.
  { apply (cluster_last cl0 cl); [|done]. intros b. destruct (Hnew b) as (first & me & file & o & E).
    by eapply rsm_new_last. }
  split; [done|]. by eapply transfers_nothing.
Qed.

(** ** Synchronization *)

Lemma erase_first_in m x l : x ∈ l → x ≠ m → x ∈ erase_first m l.
Proof.
  induction l as [|y l IH]; cbn; [by intros ?%elem_of_nil|]. rewrite elem_of_cons.
  destruct (bool_decide_reflect (y = m)) as [->|]; intros [->|?] ?; [done|done|left|right; auto].
Qed.

(** The answers of the primary to a sequence of [transferdonereq]s. *)
Fixpoint transfers_done s (ms : list (string * Z)) : rsm S :=
  match ms with
  | [] => s
  | (m, vid) :: ms => transfers_done (transferdonereq s m vid).2 ms
  end.

Lemma transfers_done_backups ms : ∀ s,
  vid_insync (transfers_done s ms) = vid_insync s ∧ vid_commit (transfers_done s ms) = vid_commit s ∧
  ∀ x, x ∈ backups s → (x, vid_insync s) ∉ ms → x ∈ backups (transfers_done s ms).
Proof.
  induction ms as [|[m vid] ms IH]; intros s; cbn [transfers_done]; [done|].
  destruct (IH (transferdonereq s m vid).2) as (E1 & E2 & Hin). rewrite E1, E2.
  unfold transferdonereq in *. destruct (Z.eqb_spec vid (vid_insync s)) as [->|Hne].
  - destruct (insync s) eqn:Ei; cbn [negb orb] in *; (split_and!; [done|done|]);
      intros x Hx Hn; (apply Hin; [|intros Hms; apply Hn; by right]); [|done].
    cbn. apply erase_first_in; [done|]. intros ->. apply Hn. left.
  - rewrite orb_true_r in *. cbn in *. split_and!; [done|done|]. intros x Hx Hn. apply Hin; [done|].
    intros Hms. apply Hn. by right.
Qed.

(** A primary waits for all its backups.  After [sync_with_backups] has
    started, whatever [transferdonereq]s arrive, the wait ends without a view
    change only when every other member of the view has reported that it is
    synchronized for this view. *)
Theorem sync_waits_for_all s ms x :
  let s' := transfers_done (sync_begin s) ms in
  sync_waits s' = false → vid_insync s = vid_commit s →
  x ∈ members_of s (vid_insync s) → x ≠ myaddr s → (x, vid_insync s) ∈ ms.
Proof.
  intros s' Hw Hv Hx Hne. unfold s', sync_begin in *.
  destruct (view_eq s (vid_insync s)) as (c & E & Em & _ & _). rewrite E in Hw.
  set (s1 := set_sync _ _ _) in Hw. destruct (transfers_done_backups ms s1) as (E1 & E2 & Hin).
  destruct (decide ((x, vid_insync s) ∈ ms)) as [|Hn]; [done|]. exfalso.
  assert (x ∈ backups (transfers_done s1 ms)) as Hb.
  { apply Hin; [|done]. cbn. apply erase_first_in; [done|]. unfold myaddr in *. cbn. congruence. }
  unfold sync_waits in Hw. rewrite E1, E2 in Hw. cbn in Hw. rewrite Hv, Z.eqb_refl, andb_true_r in Hw.
  destruct (bool_decide_reflect (backups (transfers_done s1 ms) = [])) as [Eb|]; [|done].
  rewrite Eb in Hb. by apply elem_of_nil in Hb.
Qed.
End theorems.

(** ** A counter, replicated on nodes a and b *)

#[local] Instance counter_transfer : StateTransfer Z :=
  {| marshal_state n := Ret (of_chars (show_unsigned n)); unmarshal_state _ n := Ret n |}.

Definition counter : handler Z :=
  rsm_reg1 (λ (a : int) (r : int) (n : Z), Ret (0, n : int, n + a)).

(** Node [me] in view 2, with [a] as the primary. *)
Definition demo_node (me : string) (n : Z) : rsm Z :=
  Rsm {[28673 := Some counter]}
    (Config me 2 ["a"; "b"]
       (Acceptor me true (Prop_t 0 me) (Prop_t 0 me) "" 3 {[1 := "a "; 2 := "a b "; 3 := "b "]} []) true)
    true (Viewstamp 2 1) (Viewstamp 0 0) "a" false false 2 2 [] false false false false true n.

(** A network over which node b handles the requests. *)
Definition demo_rsm_net : rsm_net (rsm Z) :=
  RsmNet
    (λ _ p vs req t, match invoke "x"%char t p vs req with
                     | Ret (ret, t) => (Some ret, t) | Fail _ => (None, t) end)
    (λ _ _ _ _ t, (None, t)) (λ _ _ _ t, (Some 0, t)) (λ _ _ _ t, (None, t))
    (λ _ _ t, t) (λ c _ _ t, Ret (false, c, t)).

Definition demo_arg : string := of_chars (be32 5).

Definition outcome {A} (d : A) (x : res A) : A := match x with Ret a => a | Fail _ => d end.

Lemma outcome_Ret {A} (d : A) (x : res A) :
  match x with Ret _ => true | Fail _ => false end = true → x = Ret (outcome d x).
Proof. by destruct x. Qed.

Definition demo_invoked : Z * string * rsm Z * rsm Z :=
  outcome (0, "", demo_node "a" 1, demo_node "b" 1)
    (client_invoke demo_rsm_net "x"%char (demo_node "a" 1) 28673 demo_arg "" (demo_node "b" 1)).

Lemma demo_invoked_Ret :
  client_invoke demo_rsm_net "x"%char (demo_node "a" 1) 28673 demo_arg "" (demo_node "b" 1)
  = Ret (rsm_client_protocol.OK, demo_invoked.1.1.2, demo_invoked.1.2, demo_invoked.2).
Proof.
  rewrite (outcome_Ret (0, "", demo_node "a" 1, demo_node "b" 1)) by (vm_compute; reflexivity).
  fold demo_invoked. by f_equal.
Qed.

Lemma request_keeps_replicas_witness :
  rm_obj demo_invoked.1.2 = 6 ∧
  ∃ t', execute "x"%char (demo_node "b" 1) 28673 demo_arg = Ret (demo_invoked.1.1.2, t') ∧
    invoke "x"%char (demo_node "b" 1) 28673 (Viewstamp 2 1) demo_arg = Ret (rsm_protocol.OK, t') ∧
    replicas demo_invoked.1.2 t'.
Proof.
  split; [vm_compute; reflexivity|].
  apply (request_keeps_replicas demo_rsm_net "x"%char (demo_node "a" 1) (demo_node "b" 1) 28673
    demo_arg "" (demo_node "b" 1) demo_invoked.1.1.2 demo_invoked.1.2 demo_invoked.2).
  - split_and!; try reflexivity. discriminate.
  - exact demo_invoked_Ret.
Defined.

Definition demo_executed : rsm Z :=
  (outcome (0, demo_node "b" 1) (invoke "x"%char (demo_node "b" 1) 28673 (Viewstamp 2 1) demo_arg)).2.

Lemma demo_executed_Ret :
  invoke "x"%char (demo_node "b" 1) 28673 (Viewstamp 2 1) demo_arg = Ret (rsm_protocol.OK, demo_executed).
Proof.
  rewrite (outcome_Ret (0, demo_node "b" 1)) by (vm_compute; reflexivity).
  by unfold demo_executed; f_equal.
Qed.

Lemma viewstamp_never_advances_witness :
  rm_obj demo_executed = 6 ∧ myvs demo_executed = Viewstamp 2 1 ∧ last_myvs demo_executed = Viewstamp 0 0.
Proof.
  split; [vm_compute; reflexivity|].
  destruct (viewstamp_never_advances "x"%char (demo_node "b" 1) 28673 (Viewstamp 2 1) demo_arg
    demo_executed demo_executed_Ret) as (E1 & E2 & _).
  split; [exact E1|exact E2].
Defined.

Lemma view_change_installs_witness :
  ∃ s', commit_change_wo (demo_node "b" 1) 3 = Ret s' ∧ vid_commit s' = 3 ∧ inviewchange s' = true ∧
    rm_obj s' = 1 ∧ elected (demo_node "b" 1) 3 (primary s').
Proof.
  destruct (view_change_installs (demo_node "b" 1) 3) as (_ & H & _). apply H; [reflexivity..|].
  exists "b". split; [right|]; apply (bool_decide_eq_true_1 _); vm_compute; reflexivity.
Defined.

(** Node a as it waits for b, and the report of b. *)
Definition demo_sync : rsm Z := transfers_done (sync_begin (demo_node "a" 1)) [("c", 2); ("b", 2)].

Lemma sync_waits_for_all_witness : sync_waits demo_sync = false ∧ ("b", 2) ∈ [("c", 2); ("b", 2)].
Proof.
  split; [vm_compute; reflexivity|].
  apply (sync_waits_for_all (demo_node "a" 1) [("c", 2); ("b", 2)] "b").
  - vm_compute. reflexivity.
  - reflexivity.
  - apply (bool_decide_eq_true_1 _). vm_compute. reflexivity.
  - discriminate.
Defined.

(** Node a, which starts the group with its counter at 7, and node b, which
    starts with a counter at 0, learns of the group from a's log and asks a
    for the state. *)
Definition demo_started (me : string) (n : Z) : rsm Z :=
  outcome (demo_node me n) (rsm_new "a" me [] n).

Definition demo_join_net : rsm_net () :=
  RsmNet (λ _ _ _ _ w, (None, w))
    (λ _ src last vid w, (Some (rsm_protocol.OK, TransferRes "" (Viewstamp 0 0)), w))
    (λ _ _ _ w, (Some 0, w))
    (λ _ _ _ w, (Some (rsm_protocol.OK, JoinRes (dump (cf_acc (rm_cfg (demo_started "a" 7))))), w))
    (λ _ _ w, w) (λ c _ _ w, Ret (false, c, w)).

Definition demo_cluster0 : string → rsm Z :=
  λ x, if bool_decide (x = "a") then demo_started "a" 7 else demo_started "b" 0.
Definition demo_joined (s : rsm Z) : rsm Z :=
  (outcome (false, s, ()) (recovery_join demo_join_net s ())).1.2.

(** Node [x] of the cluster takes the step [f]. *)
Definition demo_turn (x : string) (f : rsm Z → rsm Z) (cl : string → rsm Z) : string → rsm Z :=
  <[x := f (cl x)]> cl.
Definition demo_cluster1 : string → rsm Z :=
  demo_turn "b" set_state_transfer (demo_turn "a" sync_begin (demo_turn "a" recovery_begin
    (demo_turn "a" set_state_transfer demo_cluster0))).
Definition demo_cluster : string → rsm Z :=
  demo_turn "b" recovery_begin (demo_turn "b" demo_joined demo_cluster1).

Lemma demo_cluster_started b : ∃ first me file o, rsm_new first me file o = Ret (demo_cluster0 b).
Proof.
  unfold demo_cluster0. destruct (bool_decide (b = "a")).
  - exists "a", "a", [], 7. apply outcome_Ret. vm_compute. reflexivity.
  - exists "a", "b", [], 0. apply outcome_Ret. vm_compute. reflexivity.
Qed.

Lemma demo_joined_Ret :
  recovery_join demo_join_net (demo_cluster1 "b") () = Ret (true, demo_joined (demo_cluster1 "b"), ()).
Proof.
  rewrite (outcome_Ret (false, demo_cluster1 "b", ())) by (vm_compute; reflexivity).
  unfold demo_joined. vm_compute. reflexivity.
Qed.

Lemma demo_cluster_reachable : rtc cluster_step demo_cluster0 demo_cluster.
Proof.
  eapply rtc_r; [|apply cs_node, ns_recovery_begin].
  eapply rtc_r; [|apply cs_node; by eapply ns_recovery_join, demo_joined_Ret].
  eapply rtc_r; [|apply cs_node, ns_stf]. eapply rtc_r; [|apply cs_node, ns_sync_begin].
  eapply rtc_r; [|apply cs_node, ns_recovery_begin]. eapply rtc_r; [|apply cs_node, ns_stf].
  apply rtc_refl.
Qed.

Lemma state_never_transferred_witness :
  rm_obj (demo_cluster "a") = 7 ∧
  rm_obj (set_last (demo_cluster "b") (Viewstamp 0 0)) = rm_obj (demo_cluster "b").
Proof.
  split; [vm_compute; reflexivity|].
  refine (proj2 (state_never_transferred demo_cluster0 demo_cluster "b" "a"
    (set_last (demo_cluster "b") (Viewstamp 0 0)) _ _ _)).
  - exact demo_cluster_started.
  - exact demo_cluster_reachable.
  - exists unit, demo_join_net, (), (), (), (Viewstamp 0 0), rsm_protocol.OK,
      (TransferRes "" (Viewstamp 0 0)), true.
    split; [vm_compute; reflexivity|]. split; vm_compute; reflexivity.
Defined.
