(* ===== verification/Primary.v ===== *)
(** * Which node is the primary (rsm.cc)

    Views change by adding a node at the end or by leaving one out.  A node
    that goes through all of them always has the first node of the view as
    its primary; a node that joins starts with the one it was told on its
    command line, and keeps it if it is a member. *)

From S2P Require Import Prelude Marshall Protocols Stubs Streams Paxos Handle Config Rsm.

(** The views that [config::add] and [config::remove_wo] propose. *)
Definition next_view (p c : list string) : Prop := (∃ x, c = p ++ [x]) ∨ ∃ x, c = filter (λ y, y ≠ x) p.

Lemma elected_head p c cur x :
  head p = Some cur → next_view p c → x ∈ c → (cur ∈ c → x = cur) →
  ((cur ∉ c) → ∃ l r, p = l ++ x :: r ∧ ∀ y, y ∈ l → y ∉ c) → head c = Some x.
Proof.
  intros Hp Hn Hx Hkeep Hfirst. destruct p as [|z p]; [done|]. injection Hp as ->.
  destruct Hn as [[y ->]|[y ->]].
  - rewrite Hkeep; [done|]. left.
  - destruct (decide (cur = y)) as [->|Hne].
    + destruct Hfirst as (l & r & E & Hl); [by rewrite list_elem_of_filter; intros [? _]|].
      rewrite E in *. rewrite filter_app. assert (filter (λ z, z ≠ y) l = []) as ->.
      { destruct (filter (λ z, z ≠ y) l) as [|z l'] eqn:El; [done|].
        assert (Hz : z ∈ filter (λ z, z ≠ y) l) by (rewrite El; left).
        apply list_elem_of_filter in Hz as [Hzy Hzl]. destruct (Hl z Hzl).
        rewrite filter_app, elem_of_app. left. by apply list_elem_of_filter. }
      rewrite filter_cons, decide_True; [done|]. by apply list_elem_of_filter in Hx as [? _].
    + rewrite Hkeep by (apply list_elem_of_filter; split; [done|left]). by rewrite filter_cons, decide_True.
Qed.

Section primary.
Context {S : Type} `{!StateTransfer S}.
Implicit Types s t : rsm S.

Lemma ismember_eq s m vid :
  ∃ c, ismember (rm_cfg s) m vid = (isamember m (members_of s vid), c) ∧ ∀ v, members_of (set_cfg s c) v = members_of s v.
Proof.
  destruct (view_eq s vid) as (c & E & _ & _ & Hv). exists c. split; [|done].
  unfold view, get_view, get_view_wo in E. unfold ismember, get_view_wo, members_of, get_view, get_view_wo in *.
  destruct (Paxos.value (cf_acc (rm_cfg s)) vid) as [v a]. cbn [fst] in *. injection E as E. by rewrite E.
Qed.

(** A view with a member that was in the previous one, or with the primary,
    is installed. *)
Lemma commit_elects s vid :
  vid_commit s < vid → break2 s = false → 0 < vid < 2 ^ 32 →
  (∃ x, (x = primary s ∨ x ∈ members_of s (vid - 1)) ∧ x ∈ members_of s vid) →
  ∃ s', commit_change_wo s vid = Ret s' ∧ vid_commit s' = vid ∧ break2 s' = false ∧
    elected s vid (primary s') ∧ ∀ v, members_of s' v = members_of s v.
Proof.
  intros Hlt Hb Hr (y & Hy & Hyv). unfold commit_change_wo. replace (vid <=? vid_commit s) with false by lia.
  set (s1 := Rsm _ _ _ _ _ _ _ _ _ _ _ _ _ _ _ _ _). change (members_of s) with (members_of s1) in *.
  destruct (set_primary_cases s1 vid) as [(s2 & E & (_ & _ & _ & _ & _ & Hm) & Ev & _ & Eb & Hel)|(_ & Hn & Hno)].
  2: { rewrite u32_id in Hno by (wrap_unfold; lia). exfalso. destruct Hy as [->|Hy]; [done|]. by apply (Hno y). }
  rewrite E. cbn [rbind]. destruct (ismember_eq s2 (myaddr s2) (vid_commit s2)) as (c & -> & Hc).
  unfold breakpoint2. cbn [break2 set_cfg]. rewrite Eb. change (break2 s1) with (break2 s). rewrite Hb.
  assert (Hk : (if isamember (myaddr s2) (members_of s2 (vid_commit s2)) then Ret () else Ret ()) = Ret ())
    by (by destruct (isamember _ _)).
  rewrite Hk. cbn [rbind]. eexists. split; [done|]. cbn [set_cfg vid_commit break2 primary].
  split; [by rewrite Ev|]. split; [rewrite Eb; exact Hb|]. split; [done|]. intros v. by rewrite Hc, Hm.
Qed.

(** The views from [vid] on, in order. *)
Fixpoint commit_views (s : rsm S) (vid : Z) (k : nat) : res (rsm S) :=
  match k with
  | O => Ret s
  | Datatypes.S k => s ← commit_change_wo s vid; commit_views s (vid + 1) k
  end.

(** Every view of the list follows from the one before it and is not empty. *)
Definition views_follow s (vid : Z) (k : nat) : Prop :=
  ∀ v, vid ≤ v < vid + Z.of_nat k → next_view (members_of s (v - 1)) (members_of s v) ∧ members_of s v ≠ [].

Lemma next_view_common p c cur : next_view p c → c ≠ [] → head p = Some cur → ∃ x, x ∈ p ∧ x ∈ c.
Proof.
  intros [[y ->]|[y ->]] Hne Hp.
  - exists cur. destruct p; [done|]. injection Hp as ->. split; [left|]. left.
  - destruct (filter _ p) as [|x c] eqn:E; [done|]. exists x.
    assert (Hx : x ∈ filter (λ z, z ≠ y) p) by (rewrite E; left). apply list_elem_of_filter in Hx as [_ ?]. split; [done|left].
Qed.

Lemma commit_head s vid :
  vid_commit s < vid → break2 s = false → 0 < vid < 2 ^ 32 → head (members_of s (vid - 1)) = Some (primary s) →
  next_view (members_of s (vid - 1)) (members_of s vid) → members_of s vid ≠ [] →
  ∃ s', commit_change_wo s vid = Ret s' ∧ vid_commit s' = vid ∧ break2 s' = false ∧
    head (members_of s' vid) = Some (primary s') ∧ ∀ v, members_of s' v = members_of s v.
Proof.
  intros Hlt Hb Hr Hp Hn Hne. destruct (commit_elects s vid Hlt Hb Hr) as (s' & E & Ev & Eb & Hel & Hm).
  { destruct (next_view_common _ _ _ Hn Hne Hp) as (x & Hx & Hx'). exists x. auto. }
  exists s'. split; [done|]. split; [done|]. split; [done|]. split; [|done]. rewrite Hm.
  destruct Hel as (Hx & Hkeep & Hfirst). rewrite u32_id in Hfirst by (wrap_unfold; lia).
  by apply (elected_head (members_of s (vid - 1)) _ (primary s)).
Qed.

Lemma commits_head k : ∀ s vid,
  vid_commit s < vid → break2 s = false → 0 < vid → vid + Z.of_nat k < 2 ^ 32 →
  head (members_of s (vid - 1)) = Some (primary s) → views_follow s vid k →
  ∃ s', commit_views s vid k = Ret s' ∧ head (members_of s (vid + Z.of_nat k - 1)) = Some (primary s').
Proof.
  induction k as [|k IH]; intros s vid Hlt Hb Hv Hmax Hp Hf; cbn [commit_views].
  { exists s. split; [done|]. by rewrite Z.add_0_r. }
  destruct (Hf vid) as [Hn Hne]; [lia|].
  destruct (commit_head s vid Hlt Hb ltac:(lia) Hp Hn Hne) as (s1 & -> & Ev & Eb & Hh & Hm). cbn [rbind].
  destruct (IH s1 (vid + 1)) as (s' & E & Hs); [lia|done|lia|lia|by rewrite Z.add_simpl_r| |].
  { intros v Hvr. rewrite !Hm. apply Hf. lia. }
  exists s'. split; [done|]. rewrite Hm in Hs. rewrite <- Hs. do 2 f_equal. lia.
Qed.
End primary.

(** C26: who the primary is.  A node whose primary is the first node in the
    list of its view installs the views that follow, each with a node added at
    the end or removed, without aborting, and its primary is then the first
    node in the list of the last one; so nodes that went through the views
    agree.  (That is the order in which nodes have joined; the comments of
    rsm.cc say that the lowest numbered node takes over, which is another one
    when a node with a low number has joined again: [primary_not_lowest].)  A node that has just joined the last view and was started with
    the address [first] has the same primary, except when [first] is a member
    that is not the first node: then it takes [first] for the primary, which
    the others do not. *)
Theorem primary_heads_view {S} `{!StateTransfer S} (s t : rsm S) vid k n :
  n = vid + Z.of_nat k - 1 →
  vid_commit s < vid → break2 s = false → 0 < vid → vid + Z.of_nat k < 2 ^ 32 →
  head (members_of s (vid - 1)) = Some (primary s) → views_follow s vid k →
  (** the node [t] has joined and knows the same last views *)
  vid_commit t < n → break2 t = false → 0 < n →
  members_of t n = members_of s n → members_of t n = members_of t (n - 1) ++ [myaddr t] → members_of t (n - 1) ≠ [] →
  ∃ s' t', commit_views s vid k = Ret s' ∧ commit_change_wo t n = Ret t' ∧
    head (members_of s n) = Some (primary s') ∧
    primary t' = (if decide (primary t ∈ members_of s n) then primary t else primary s').
Proof.
  intros -> Hlt Hb Hv Hmax Hp Hf Htl Htb Hn Hts Htj Htne. set (n := vid + Z.of_nat k - 1) in *.
  destruct (commits_head k s vid Hlt Hb Hv Hmax Hp Hf) as (s' & E & Hs). fold n in Hs.
  assert (Hin : ∀ x, x ∈ members_of t (n - 1) → x ∈ members_of t n) by (intros x Hx; rewrite Htj; apply elem_of_app; by left).
  destruct (members_of t (n - 1)) as [|z p] eqn:Ep; [done|].
  destruct (commit_elects t n Htl Htb ltac:(lia)) as (t' & Et & _ & _ & (Hx & Hkeep & Hfirst) & _).
  { exists z. rewrite Ep. split; [right; left|]. apply Hin. left. }
  exists s', t'. split; [done|]. split; [done|]. split; [done|]. rewrite <- Hts in *.
  destruct (decide (primary t ∈ members_of t n)) as [Hpt|Hpt]; [by apply Hkeep|].
  destruct (Hfirst Hpt) as (l & r & El & Hl). rewrite u32_id, Ep in El by (wrap_unfold; lia).
  rewrite Htj in Hs. cbn in Hs. injection Hs as Hs.
  destruct l as [|y l]; injection El as E1 E2; [congruence|]. destruct (Hl y); [left|]. apply Hin. subst y. left.
Qed.

#[local] Existing Instance counter_transfer.

(** Node b from view 1 on, and node d, which joins in view 5 and was told that
    [first] is the first node. *)
Definition demo_views : gmap Z string :=
  <[1 := "a "]> (<[2 := "a b "]> (<[3 := "b "]> (<[4 := "b c "]> (<[5 := "b c d "]> ∅)))).
Definition demo_rsm (me first : string) (vid : Z) : rsm Z :=
  Rsm ∅ (Config me vid [] (Acceptor me true (Prop_t 0 me) (Prop_t 0 me) "" vid demo_views []) true) false
    (Viewstamp 0 1) (Viewstamp 0 0) first false true vid 0 [] false false false false true 0.

Lemma demo_follows : views_follow (demo_rsm "b" "a" 1) 2 4.
Proof.
  intros v Hv. assert (v = 2 ∨ v = 3 ∨ v = 4 ∨ v = 5) as [->|[->|[->| ->]]] by lia; (split; [|by vm_compute]).
  - left. exists "b". by vm_compute.
  - right. exists "a". by vm_compute.
  - left. exists "c". by vm_compute.
  - left. exists "d". by vm_compute.
Qed.

Lemma primary_heads_view_witness :
  ∃ s' t', commit_views (demo_rsm "b" "a" 1) 2 4 = Ret s' ∧ commit_change_wo (demo_rsm "d" "a" 0) 5 = Ret t' ∧
    head (members_of (demo_rsm "b" "a" 1) 5) = Some (primary s') ∧
    primary t' = (if decide ("a" ∈ members_of (demo_rsm "b" "a" 1) 5) then "a" else primary s').
Proof.
  apply (primary_heads_view (demo_rsm "b" "a" 1) (demo_rsm "d" "a" 0) 2 4 5);
    [reflexivity|reflexivity|reflexivity|reflexivity|reflexivity|by vm_compute|exact demo_follows|reflexivity|reflexivity|reflexivity|
     by vm_compute|by vm_compute|by vm_compute].
Defined.

(** A node that was started with c, another member, as the first node takes
    c for the primary, while b is the primary of b. *)
Theorem joiner_disagrees :
  ∃ s' t', commit_views (demo_rsm "b" "a" 1) 2 4 = Ret s' ∧ commit_change_wo (demo_rsm "d" "c" 0) 5 = Ret t' ∧
    primary s' = "b" ∧ primary t' = "c".
Proof. eexists _, _. split; [by vm_compute|]. split; [by vm_compute|]. done. Qed.

(** A node c that goes through the views a b c, b c, b c a and c a.  When b is
    gone, the lowest numbered node of the previous view that is left is a, but
    c is the primary. *)
Definition rejoin_views : gmap Z string :=
  <[1 := "a b c "]> (<[2 := "b c "]> (<[3 := "b c a "]> (<[4 := "c a "]> ∅))).
Definition rejoin_rsm : rsm Z :=
  Rsm ∅ (Config "c" 1 [] (Acceptor "c" true (Prop_t 0 "c") (Prop_t 0 "c") "" 4 rejoin_views []) true) false
    (Viewstamp 0 1) (Viewstamp 0 0) "a" false true 1 0 [] false false false false true 0.

Theorem primary_not_lowest :
  ∃ s s', commit_views rejoin_rsm 2 2 = Ret s ∧ primary s = "b" ∧ members_of s 3 = ["b"; "c"; "a"] ∧
    commit_change_wo s 4 = Ret s' ∧ members_of s' 4 = ["c"; "a"] ∧
    primary s' = "c" ∧ string_gt "c" "a" = true.
Proof.
  eexists _, _. split; [by vm_compute|]. split; [by vm_compute|]. split; [by vm_compute|].
  split; [by vm_compute|]. split; [by vm_compute|]. split; by vm_compute.
Qed.
