(* ===== verification/ViewChange.v ===== *)
(** * Changing the view: proposer, acceptors, logs, configurations and
      replicas together (paxos.cc, log.cc, config.cc, rsm.cc)

    The nodes of a cluster with the code of every one of them: a member that
    adds or removes a node runs the proposer, whose calls are served by the
    acceptors of the other members; a decision makes every acceptor tell its
    configuration of the new view, which tells the replicated state machine,
    which elects a primary; a node that is started, with what an earlier run
    has left on its disk, asks the primary to be added and reads the log the
    primary has written.  With a majority of the members up, every change
    completes, at all of them. *)

From stdpp Require Import functions.
From S2P Require Import Prelude Marshall Protocols Stubs Streams Paxos PaxosLog PaxosSafety Handle Config Rsm Primary.

Section fleet.
Context {S : Type} `{!StateTransfer S}.

(** ** The nodes *)

Record fleet := Fleet { fl_rsm : string → rsm S; fl_mgr : string → hmap; fl_up : string → bool }.

(** The configuration of a node. *)
Local Abbreviation fl_config w x := (rm_cfg (fl_rsm w x)).

Definition set_acc (c : config) (a : acceptor) : config := set_view c (cf_myvid c) (cf_mems c) a.
Definition put_rsm (x : string) (r : rsm S) (w : fleet) : fleet :=
  Fleet (<[x := r]> (fl_rsm w)) (fl_mgr w) (fl_up w).
Definition put_config (x : string) (c : config) (w : fleet) : fleet := put_rsm x (set_cfg (fl_rsm w x) c) w.
Definition put_acc (x : string) (a : acceptor) (w : fleet) : fleet := put_config x (set_acc (fl_config w x) a) w.
Definition crash (x : string) (w : fleet) : fleet := Fleet (fl_rsm w) (fl_mgr w) (<[x := false]> (fl_up w)).

(** A commit at node [x]: the new acceptor, the up-call to its configuration
    and from there to its replica, which may abort. *)
Definition put_commit (x : string) (su : acceptor * upcall) (w : fleet) : fleet :=
  let w := put_acc x su.1 w in
  match su.2 with
  | None => w
  | Some (i, v) =>
      let '(c, mgr, up) := paxos_commit (fl_config w x) (fl_mgr w x) i v in
      let w := Fleet (<[x := set_cfg (fl_rsm w x) c]> (fl_rsm w)) (<[x := mgr]> (fl_mgr w)) (fl_up w) in
      match up with
      | None => w
      | Some vid => match commit_change (fl_rsm w x) vid with Ret r => put_rsm x r w | Fail _ => crash x w end
      end
  end.

(** The calls of the proposer at [me]: a node that is up serves them, and one
    that aborts is down from then on. *)
Definition fleet_net (me : string) : paxos_net fleet := {|
  net_prepare src dst a w :=
    if fl_up w dst then
      match preparereq src a blank_reply (cf_acc (fl_config w dst)) with
      | Ret (ret, r, s) => (Some (ret, r), put_acc dst s w)
      | Fail _ => (None, crash dst w)
      end
    else (None, w);
  net_accept src dst a w :=
    if fl_up w dst then
      match acceptreq src a false (cf_acc (fl_config w dst)) with
      | Ret (ret, r, s) => (Some (ret, r), put_acc dst s w)
      | Fail _ => (None, crash dst w)
      end
    else (None, w);
  net_decide src dst a w :=
    if fl_up w dst then
      match decidereq src a 0 (cf_acc (fl_config w dst)) with
      | Ret (_, _, su) => put_commit dst su w
      | Fail _ => crash dst w
      end
    else w;
  net_commit i v w := put_commit me (commit (cf_acc (fl_config w me)) i v) w;
  net_n_h w := n_h (cf_acc (fl_config w me)) |}.

(** [pro->run] of the node [me], with its proposer and the other nodes; it
    does not come back when the up-call of its own commit aborts. *)
Definition fleet_run (me : string) (i : Z) (nodes : list string) (v : string) (pw : proposer * fleet)
    : res (bool * (proposer * fleet)) :=
  '(b, p, w) ← run (fleet_net me) pw.1 i nodes v pw.2;
  if fl_up w me then Ret (b, (p, w)) else Fail VerifyFailed.

(** ** Visiting the nodes of a list *)

(** Every node of [l] that is up went from a replica [r] to [f r], and the
    others are as they were. *)
Definition visited (l : list string) (f : rsm S → rsm S) (w w' : fleet) : Prop :=
  fl_up w' = fl_up w ∧
  ∀ y, fl_rsm w' y = if bool_decide (y ∈ l) && fl_up w y then f (fl_rsm w y) else fl_rsm w y.

Lemma visited_nil f w : visited [] f w w.
Proof. split; [done|]. intros y. rewrite bool_decide_eq_false_2; [done|]. apply not_elem_of_nil. Qed.

Lemma visited_down x l f w w' : fl_up w x = false → visited l f w w' → visited (x :: l) f w w'.
Proof.
  intros Hx [Hu Hc]. split; [done|]. intros y. rewrite Hc. destruct (decide (y = x)) as [->|Hne].
  - by rewrite Hx, !andb_false_r.
  - rewrite (bool_decide_ext (y ∈ x :: l) (y ∈ l)); [done|]. rewrite elem_of_cons. naive_solver.
Qed.

Lemma visited_up x l f w w1 w' :
  fl_up w x = true → x ∉ l → fl_up w1 = fl_up w → fl_rsm w1 x = f (fl_rsm w x) →
  (∀ y, y ≠ x → fl_rsm w1 y = fl_rsm w y) → visited l f w1 w' → visited (x :: l) f w w'.
Proof.
  intros Hx Hl Hu1 Hx1 Ho [Hu Hc]. split; [congruence|]. intros y. rewrite Hc, Hu1. destruct (decide (y = x)) as [->|Hne].
  - rewrite bool_decide_eq_false_2, bool_decide_eq_true_2, Hx, Hx1 by (done || by left). done.
  - rewrite Ho by done. rewrite (bool_decide_ext (y ∈ x :: l) (y ∈ l)); [done|]. rewrite elem_of_cons. naive_solver.
Qed.

Lemma put_rsm_other x r w y : y ≠ x → fl_rsm (put_rsm x r w) y = fl_rsm w y.
Proof. intros Hne. cbn. by rewrite fn_lookup_insert_ne. Qed.

Lemma put_rsm_at x r w : fl_rsm (put_rsm x r w) x = r.
Proof. cbn. by rewrite fn_lookup_insert. Qed.

(** The configuration of a replica changes. *)
Definition on_config (f : config → config) (r : rsm S) : rsm S := set_cfg r (f (rm_cfg r)).

Lemma prop_eta n : Prop_t (pn n) (pm n) = n.
Proof. by destruct n. Qed.

(** ** The phases of a round *)

Section round.
Context (me : string) (i : Z) (n : prop_t) (v : string).
Local Abbreviation net := (fleet_net me).

(** What a prepare, an accept and a decision do to a node. *)
Definition promised (c : config) : config :=
  let s := set_prop (cf_acc c) n in set_acc c (set_log s (logprop (ac_log s) n)).
Definition voted (c : config) : config :=
  let s := set_accepted (cf_acc c) n v in set_acc c (set_log s (logaccept (ac_log s) n v)).
Definition installed (c : config) : config :=
  let s := cf_acc c in
  Config (cf_me c) i (members v)
    (Acceptor (ac_me s) (ac_cfg s) (Prop_t 0 (ac_me s)) (Prop_t 0 (ac_me s)) "" i (<[i := v]> (values s))
       (loginstance (ac_log s) i v)) (cf_vc c).

(** The replica installs the view, too. *)
Definition installed_rsm (r : rsm S) : rsm S :=
  match commit_change (on_config installed r) i with Ret r' => r' | Fail _ => on_config installed r end.

(** The nodes of [l] that are up are in a state that satisfies [P]. *)
Definition all_up (P : rsm S → Prop) (l : list string) (w : fleet) : Prop :=
  ∀ x, x ∈ l → fl_up w x = true → P (fl_rsm w x).

Lemma all_up_other P x l w w1 :
  x ∉ l → fl_up w1 = fl_up w → (∀ y, y ≠ x → fl_rsm w1 y = fl_rsm w y) →
  all_up P (x :: l) w → all_up P l w1.
Proof.
  intros Hl Hu Ho Hp y Hy Hyu. rewrite Hu in Hyu. assert (y ≠ x) by (by intros ->). rewrite Ho by done.
  apply Hp; [by right|done].
Qed.

Definition undecided (r : rsm S) : Prop :=
  let a := cf_acc (rm_cfg r) in instance_h a < i ∧ plt (n_h a) n ∧ v_a a = "".

Lemma serve_prepare x w :
  fl_up w x = true → undecided (fl_rsm w x) →
  ∃ na va, va = "" ∧ net_prepare net me x (PrepareArg i n) w =
    (Some (paxos_protocol.OK, PrepareRes false true na va), put_rsm x (on_config promised (fl_rsm w x)) w).
Proof.
  intros Hu (Hi & Hn & Hv). cbn [net_prepare fleet_net]. rewrite Hu. unfold preparereq. cbn [pa_instance pa_n].
  replace (i <=? instance_h (cf_acc (fl_config w x))) with false by lia. unfold plt in Hn. rewrite Hn.
  rewrite (prop_eta n). do 2 eexists. split; [exact Hv|]. done.
Qed.

Lemma serve_accept x w :
  fl_up w x = true → n_h (cf_acc (fl_config w x)) = n →
  net_accept net me x (AcceptArg i n v) w =
    (Some (paxos_protocol.OK, true), put_rsm x (on_config voted (fl_rsm w x)) w).
Proof.
  intros Hu Hn. cbn [net_accept fleet_net]. rewrite Hu. unfold acceptreq. cbn [aa_n aa_v].
  assert (prop_ge n (n_h (cf_acc (fl_config w x))) = true) as ->. { rewrite Hn. by change (ple n n). }
  by rewrite (prop_eta n).
Qed.

(** Going on with the rest of the list. *)
Lemma visited_put x l f w w' :
  fl_up w x = true → x ∉ l → visited l f (put_rsm x (f (fl_rsm w x)) w) w' → visited (x :: l) f w w'.
Proof. intros Hu Hx. apply visited_up; [done|done|done|apply put_rsm_at|by apply put_rsm_other]. Qed.

Lemma all_up_put P x l r w : x ∉ l → all_up P (x :: l) w → all_up P l (put_rsm x r w).
Proof. intros Hx. apply all_up_other; [done|done|by apply put_rsm_other]. Qed.

Lemma all_up_tail P x l w : all_up P (x :: l) w → all_up P l w.
Proof. intros Hq y Hy. apply Hq. by right. Qed.

Lemma prepare_phase l : ∀ st w,
  NoDup l → all_up undecided l w → pp_v st = "" →
  ∃ st' w', prepare_loop net me (PrepareArg i n) l st w = (true, st', w') ∧
    pp_accepts st' = pp_accepts st ++ filter (λ x, fl_up w x = true) l ∧ pp_v st' = "" ∧
    visited l (on_config promised) w w'.
Proof.
  induction l as [|x l IH]; intros st w Hnd Hq Hv; cbn [prepare_loop].
  { exists st, w. rewrite filter_nil, app_nil_r. by split_and!; [..|apply visited_nil]. }
  apply NoDup_cons in Hnd as [Hx Hnd]. rewrite filter_cons. destruct (fl_up w x) eqn:Eu.
  - rewrite decide_True by done. destruct (serve_prepare x w Eu (Hq x ltac:(by left) Eu)) as (na & va & -> & ->).
    rewrite Z.eqb_refl. cbn [pr_oldinstance pr_accept]. set (r := PrepareRes _ _ _ _).
    destruct (IH (prepare_reply st x r) (put_rsm x (on_config promised (fl_rsm w x)) w)) as (st' & w' & E & Ea & Ev & Hvis);
      [done|by apply all_up_put|unfold prepare_reply; by destruct (prop_gt _ _)|].
    exists st', w'. split; [exact E|]. split; [|split; [done|by apply visited_put]].
    rewrite Ea. unfold prepare_reply. destruct (prop_gt _ _); cbn [pp_accepts]; by rewrite <- (assoc_L (++)).
  - rewrite decide_False by done. cbn [net_prepare fleet_net]. rewrite Eu.
    destruct (IH st w) as (st' & w' & E & Ea & Ev & Hvis); [done|by eapply all_up_tail|done|].
    exists st', w'. split_and!; [done..|by apply visited_down].
Qed.

Lemma accept_phase l : ∀ accepts w,
  NoDup l → all_up (λ r, n_h (cf_acc (rm_cfg r)) = n) l w →
  ∃ w', accept_loop net me (AcceptArg i n v) l accepts w = (accepts ++ filter (λ x, fl_up w x = true) l, w') ∧
    visited l (on_config voted) w w'.
Proof.
  induction l as [|x l IH]; intros accepts w Hnd Hq; cbn [accept_loop].
  { exists w. rewrite filter_nil, app_nil_r. split; [done|apply visited_nil]. }
  apply NoDup_cons in Hnd as [Hx Hnd]. rewrite filter_cons. destruct (fl_up w x) eqn:Eu.
  - rewrite decide_True by done. rewrite (serve_accept x w Eu (Hq x ltac:(by left) Eu)), Z.eqb_refl. cbn [andb].
    destruct (IH (accepts ++ [x]) (put_rsm x (on_config voted (fl_rsm w x)) w)) as (w' & -> & Hvis); [done|by apply all_up_put|].
    exists w'. rewrite <- (assoc_L (++)). split; [done|by apply visited_put].
  - rewrite decide_False by done. cbn [net_accept fleet_net]. rewrite Eu.
    destruct (IH accepts w) as (w' & E & Hvis); [done|by eapply all_up_tail|]. exists w'. split; [done|by apply visited_down].
Qed.

Definition deciding (r : rsm S) : Prop :=
  let a := cf_acc (rm_cfg r) in
  i = instance_h a + 1 ∧ v_a a = v ∧ ac_cfg a = true ∧ cf_vc (rm_cfg r) = true ∧
  abort_free (commit_change (on_config installed r) i).

Lemma put_commit_decided x w :
  deciding (fl_rsm w x) →
  let w1 := put_commit x (commit_wo (cf_acc (fl_config w x)) i v) w in
  fl_up w1 = fl_up w ∧ fl_rsm w1 x = installed_rsm (fl_rsm w x) ∧ ∀ y, y ≠ x → fl_rsm w1 y = fl_rsm w y.
Proof.
  intros (Hin & Hva & Hcfg & Hvc & [r' Hr]). unfold installed_rsm. rewrite Hr. unfold commit_wo.
  replace (instance_h (cf_acc (fl_config w x)) <? i) with true by lia.
  unfold on_config, installed in Hr. rewrite Hcfg in *. unfold put_commit, paxos_commit, put_acc, put_config. cbn [fst snd].
  rewrite put_rsm_at. cbn [set_cfg rm_cfg set_acc set_view cf_vc cf_acc cf_me cf_mems fl_rsm fl_mgr fl_up put_rsm].
  rewrite Hvc, !fn_lookup_insert.
  match goal with |- context [commit_change ?t i] => replace (commit_change t i) with (Ret r') by (rewrite <- Hr; reflexivity) end.
  cbn [put_rsm fl_rsm fl_up]. split; [done|]. split; [by rewrite fn_lookup_insert|]. intros y Hy. by rewrite !fn_lookup_insert_ne.
Qed.

Lemma decide_phase l : ∀ w,
  in_u32 i → NoDup l → all_up deciding l w →
  visited l installed_rsm w (foldl (λ w x, net_decide net me x (DecideArg i v) w) w l).
Proof.
  induction l as [|x l IH]; intros w Hi Hnd Hq; cbn [foldl]; [apply visited_nil|].
  apply NoDup_cons in Hnd as [Hx Hnd]. cbn [net_decide fleet_net].
  destruct (fl_up w x) eqn:Eu.
  - pose proof (Hq x ltac:(by left) Eu) as Hd. pose proof Hd as (Hin & Hva & _). unfold decidereq. cbn [da_instance da_v].
    rewrite <- Hin, u32_id by done. rewrite Z.eqb_refl, Hva, bool_decide_eq_true_2 by done. cbn [VERIFY rbind].
    destruct (put_commit_decided x w Hd) as (Hu1 & Hr1 & Ho). set (w1 := put_commit _ _ _) in *.
    apply (visited_up x l installed_rsm w w1); [done|done|done|done|exact Ho|].
    apply IH; [done|done|]. by apply (all_up_other _ x l w w1).
  - apply visited_down; [done|]. apply IH; [done|done|]. by eapply all_up_tail.
Qed.
End round.

(** ** Looking views up *)

Lemma logged_equiv s t : logged s → acceptor_equiv t s → logged t.
Proof.
  intros (H1 & H2 & es & H3 & H4 & H5) He. pose proof He as [E1 E2 E3 E4 E5 E6 E7 E8]. unfold logged.
  rewrite E5, E6, E8, E1, E2. split_and!; [done|done|]. exists es. split_and!; [done|done|]. by rewrite H5, He.
Qed.

Lemma value_equiv s i : ∃ s', Paxos.value s i = (default "" (values s !! i), s') ∧ acceptor_equiv s' s.
Proof.
  unfold Paxos.value, map_ref. destruct (values s !! i) as [v|] eqn:E; cbn.
  - eexists. split; [done|]. by split.
  - eexists. split; [done|]. split; try done. intros j. cbn. destruct (decide (i = j)) as [<-|Hne].
    + by rewrite lookup_insert_eq, E.
    + by rewrite lookup_insert_ne.
Qed.

(** Looking a view up may write to the acceptor's table, and nothing else. *)
Definition same_config (c c' : config) : Prop := ∃ a, c' = set_acc c a ∧ acceptor_equiv a (cf_acc c).

Lemma same_config_refl c : same_config c c.
Proof. exists (cf_acc c). split; [by destruct c|done]. Qed.

Lemma same_config_trans c1 c2 c3 : same_config c1 c2 → same_config c2 c3 → same_config c1 c3.
Proof. intros (a & -> & Ha) (b & -> & Hb). exists b. split; [done|]. by transitivity a. Qed.

Lemma get_view_same c i :
  ∃ c', get_view_wo c i = (members (default "" (values (cf_acc c) !! i)), c') ∧ same_config c c'.
Proof.
  unfold get_view_wo. destruct (value_equiv (cf_acc c) i) as (a & -> & He). eexists. split; [done|]. by exists a.
Qed.

Lemma ismember_same c m i :
  ∃ c', ismember c m i = (isamember m (members (default "" (values (cf_acc c) !! i))), c') ∧ same_config c c'.
Proof. unfold ismember. destruct (get_view_same c i) as (c' & -> & H). by exists c'. Qed.

Lemma members_of_default (r : rsm S) v : members_of r v = members (default "" (values (cf_acc (rm_cfg r)) !! v)).
Proof. unfold members_of, get_view. by destruct (get_view_same (rm_cfg r) v) as (c' & -> & _). Qed.

Lemma set_primary_same (r : rsm S) vid r' : set_primary r vid = Ret r' → same_config (rm_cfg r) (rm_cfg r').
Proof.
  unfold set_primary, view, get_view. destruct (get_view_same (rm_cfg r) vid) as (c1 & -> & H1). cbn [rm_cfg set_cfg].
  destruct (get_view_same c1 (u32 (vid - 1))) as (c2 & -> & H2). pose proof (same_config_trans _ _ _ H1 H2) as H.
  intros ([] & _ & H')%rbind_Ret. destruct (isamember _ _); [by injection H' as <-|].
  apply rbind_Ret in H' as ([] & _ & H'). destruct (first_remaining _ _); [by injection H' as <-|].
  by apply rbind_Ret in H' as ([] & _ & [= <-]).
Qed.

Lemma commit_change_same (r : rsm S) vid r' : commit_change_wo r vid = Ret r' → same_config (rm_cfg r) (rm_cfg r').
Proof.
  unfold commit_change_wo. destruct (vid <=? vid_commit r); [intros [= <-]; apply same_config_refl|].
  intros (r1 & Hp%set_primary_same & H)%rbind_Ret. cbn [rm_cfg] in Hp.
  destruct (ismember_same (rm_cfg r1) (myaddr r1) (vid_commit r1)) as (c & E & Hc). rewrite E in H.
  apply rbind_Ret in H as ([] & _ & [= <-]). by eapply same_config_trans.
Qed.

(** ** A round *)

(** A node between two changes: its acceptor has decided all views up to the
    current one, has promised and accepted nothing since, and its log says
    so. *)
Record synced (x : string) (ms : list string) (vid : Z) (c : config) : Prop := Synced {
  sy_me : cf_me c = x;
  sy_vid : cf_myvid c = vid;
  sy_mems : cf_mems c = ms;
  sy_vc : cf_vc c = true;
  sy_acc_me : ac_me (cf_acc c) = x;
  sy_cfg : ac_cfg (cf_acc c) = true;
  sy_n_h : pn (n_h (cf_acc c)) = 0;
  sy_v_a : v_a (cf_acc c) = "";
  sy_instance : instance_h (cf_acc c) = vid;
  sy_value : members (default "" (values (cf_acc c) !! vid)) = ms;
  sy_history : ∀ k, default "" (values (cf_acc c) !! k) ≠ "" ↔ 1 ≤ k ≤ vid;
  sy_logged : logged (cf_acc c) }.

(** Its replica is in the view, with the first member as the primary. *)
Record settled (x : string) (ms : list string) (vid : Z) (r : rsm S) : Prop := Settled {
  se_synced : synced x ms vid (rm_cfg r);
  se_primary : head ms = Some (primary r);
  se_commit : vid_commit r = vid;
  se_break : break2 r = false }.

Definition in_view (ms : list string) (vid : Z) (w : fleet) : Prop :=
  ∀ x, x ∈ ms → fl_up w x = true → settled x ms vid (fl_rsm w x).

Lemma synced_same x ms vid c c' : synced x ms vid c → same_config c c' → synced x ms vid c'.
Proof.
  intros [H1 H2 H3 H3' H4 H5 H6 H7 H8 H9 Hh Hl] (a & -> & He). pose proof He as [E1 E2 [E3 _] _ E5 E6 E7 _].
  split; cbn [set_acc set_view cf_me cf_myvid cf_mems cf_acc cf_vc]; try congruence.
  - intros k. by rewrite E7, Hh.
  - by apply (logged_equiv (cf_acc c)).
Qed.

Lemma members_empty : members "" = [].
Proof. done. Qed.

Lemma synced_installed x ms vid c n v :
  synced x ms vid c → 0 < vid → in_u32 (pn n) → word (chars (pm n)) → one_line (chars v) → in_u32 (vid + 1) → members v ≠ [] →
  synced x (members v) (vid + 1) (installed (vid + 1) v (voted n v (promised n c))).
Proof.
  intros Hs Hvid Hn Hm Hv Hi Hne. destruct Hs as [H1 H2 H3 H3' H4 H5 H6 H7 H8 _ Hh Hl].
  assert (Hl1 : logged (cf_acc (promised n c))).
  { apply (logged_entry (cf_acc c) _ (PropSeen n)); try done; [|by destruct Hl as (_ & ? & _)].
    cbn. rewrite H7. apply not_elem_of_nil. }
  assert (Hl2 : logged (cf_acc (voted n v (promised n c)))).
  { apply (logged_entry (cf_acc (promised n c)) _ (Accepted n v)); try done. by destruct Hl as (_ & ? & _). }
  split; try done; cbn [installed cf_acc values].
  - by rewrite lookup_insert_eq.
  - intros k. destruct (decide (k = vid + 1)) as [->|Hk].
    + rewrite lookup_insert_eq. cbn. split; [lia|]. intros _ ->. by apply Hne.
    + rewrite lookup_insert_ne by done. change (values (cf_acc (voted n v (promised n c)))) with (values (cf_acc c)).
      rewrite Hh. lia.
  - eapply (commit_wo_logged _ (vid + 1) v); [exact Hl2|done|done|].
    unfold commit_wo. change (instance_h (cf_acc (voted n v (promised n c)))) with (instance_h (cf_acc c)).
    rewrite H8. replace (vid <? vid + 1) with true by lia. done.
Qed.

(** A replica that hears of the next view elects its first member. *)
Lemma settled_installed x ms vid r n v :
  settled x ms vid r → 0 < vid → in_u32 (pn n) → word (chars (pm n)) → one_line (chars v) → in_u32 (vid + 1) →
  next_view ms (members v) → members v ≠ [] →
  let r2 := on_config (voted n v) (on_config (promised n) r) in
  deciding (vid + 1) v r2 ∧ settled x (members v) (vid + 1) (installed_rsm (vid + 1) v r2).
Proof.
  intros [Hs Hp Hc Hb] Hvid Hn Hm Hv Hi Hnv Hne r2.
  pose proof (synced_installed x ms vid _ n v Hs Hvid Hn Hm Hv Hi Hne) as Hs3.
  set (r3 := on_config (installed (vid + 1) v) r2). change (synced x (members v) (vid + 1) (rm_cfg r3)) in Hs3.
  assert (E1 : members_of r3 (vid + 1) = members v) by (rewrite members_of_default; apply (sy_value _ _ _ _ Hs3)).
  assert (E0 : members_of r3 (vid + 1 - 1) = ms).
  { rewrite members_of_default, Z.add_simpl_r. cbn [r3 on_config rm_cfg set_cfg installed cf_acc values].
    rewrite lookup_insert_ne by lia. apply (sy_value _ _ _ _ Hs). }
  destruct (commit_head r3 (vid + 1)) as (r4 & E & Ec & Eb & Hh & _); try done.
  { change (vid_commit r3) with (vid_commit r). lia. }
  { revert Hi. wrap_unfold. lia. }
  { by rewrite E0. }
  { by rewrite E0, E1. }
  { by rewrite E1. }
  assert (E4 : commit_change r3 (vid + 1) = Ret r4).
  { unfold commit_change. rewrite E. cbn [rbind]. unfold breakpoint2. by rewrite Eb. }
  split.
  - split_and!; try (by apply (sy_cfg _ _ _ _ Hs)); try (by apply (sy_vc _ _ _ _ Hs)); [|done|by exists r4].
    cbn. by rewrite (sy_instance _ _ _ _ Hs).
  - unfold installed_rsm. fold r3. rewrite E4. pose proof (commit_change_same _ _ _ E) as Hsame. split; [|  |done|done].
    + by eapply synced_same.
    + rewrite <- Hh, members_of_default. destruct (synced_same _ _ _ _ _ Hs3 Hsame). congruence.
Qed.

(** A proposer that is not running, at the node [me]. *)
Record idle_proposer (me : string) (p : proposer) : Prop := {
  ip_me : pr_me p = me;
  ip_break1 : pr_break1 p = false;
  ip_break2 : pr_break2 p = false;
  ip_stable : pr_stable p = true;
  ip_pm : pm (my_n p) = me }.

Lemma setn_next me p w :
  pn (n_h (cf_acc (fl_config w me))) = 0 → 0 ≤ pn (my_n p) < 2 ^ 32 - 1 →
  my_n (setn (fleet_net me) p w) = Prop_t (pn (my_n p) + 1) (pm (my_n p)).
Proof.
  intros Hh Hn. unfold setn. cbn [net_n_h fleet_net my_n]. rewrite Hh, !u32_id by (wrap_unfold; lia).
  destruct (Z.ltb_spec (pn (my_n p) + 1) (0 + 1)); [lia|done].
Qed.

Lemma filter_up_twice (f : string → bool) (l : list string) :
  filter (λ x, f x = true) (filter (λ x, f x = true) l) = filter (λ x, f x = true) l.
Proof. rewrite list_filter_filter. apply list_filter_iff. naive_solver. Qed.

Lemma round_completes me ms vid v p w :
  in_view ms vid w → NoDup ms → majority ms (filter (λ x, fl_up w x = true) ms) = true →
  me ∈ ms → fl_up w me = true → word (chars me) → idle_proposer me p → 0 ≤ pn (my_n p) < 2 ^ 32 - 1 →
  0 < vid < 2 ^ 32 - 1 → one_line (chars v) → next_view ms (members v) → members v ≠ [] →
  ∃ p' w', run (fleet_net me) p (vid + 1) ms v w = Ret (true, p', w') ∧
    idle_proposer me p' ∧ pn (my_n p') = pn (my_n p) + 1 ∧ fl_up w' = fl_up w ∧
    (∀ x, x ∈ ms → fl_up w x = true → settled x (members v) (vid + 1) (fl_rsm w' x)) ∧
    (∀ x, (x ∉ ms) ∨ fl_up w x = false → fl_rsm w' x = fl_rsm w x).
Proof.
  intros Hv Hnd Hmaj Hme Hup Hw Hp Hn Hvid Hl Hnv Hne. destruct Hp as [Ep1 Ep2 Ep3 Ep4 Ep5].
  assert (Hi : in_u32 (vid + 1)) by (wrap_unfold; lia).
  unfold run. rewrite Ep4. cbn [negb]. rewrite (u32_id (vid + 1)) by done.
  set (p1 := setn (fleet_net me) (set_stable p false) w).
  assert (En : my_n p1 = Prop_t (pn (my_n p) + 1) me).
  { unfold p1. rewrite setn_next; [cbn; by rewrite Ep5|by apply (sy_n_h _ _ _ _ (se_synced _ _ _ _ (Hv me Hme Hup)))|done]. }
  set (n := my_n p1) in *. set (U := filter (λ x, fl_up w x = true) ms).
  fold U in Hmaj. assert (HU : NoDup U) by (by apply NoDup_filter).
  assert (HUU : filter (λ x, fl_up w x = true) U = U) by apply filter_up_twice.
  assert (HinU : ∀ x, x ∈ U → x ∈ ms ∧ fl_up w x = true) by (intros x; unfold U; rewrite list_elem_of_filter; naive_solver).
  unfold prepare. fold n. change (pr_me p1) with (pr_me p). rewrite Ep1.
  destruct (prepare_phase me (vid + 1) n ms (Prepared [] (Prop_t 0 "") "") w) as (st & w1 & -> & Ea & Es & Hu1 & Hc1); [done| |done|].
  { intros x Hx Hxu. destruct (se_synced _ _ _ _ (Hv x Hx Hxu)). split; [lia|]. split; [|done]. rewrite En. unfold plt, prop_gt.
    cbn [pn pm]. replace (pn (n_h (cf_acc (fl_config w x))) <? pn (my_n p) + 1) with true by lia. done. }
  cbn [negb app pp_accepts] in *. rewrite Ea. fold U. rewrite Hmaj. cbn [negb]. rewrite Es. cbn [string_size].
  change (string_size "" =? 0) with true. cbv iota.
  unfold Paxos.breakpoint1. change (pr_break1 p1) with (pr_break1 p). rewrite Ep2. cbn [rbind].
  unfold accept. fold n. change (pr_me p1) with (pr_me p). rewrite Ep1.
  destruct (accept_phase me (vid + 1) n v U [] w1) as (w2 & -> & Hu2 & Hc2); [done| |].
  { intros x Hx _. destruct (HinU x Hx) as [Hxm Hxu]. rewrite Hc1, Hxu, bool_decide_eq_true_2 by done. done. }
  rewrite Hu1, HUU. cbn [app]. rewrite Hmaj. cbn [negb].
  unfold Paxos.breakpoint2. change (pr_break2 p1) with (pr_break2 p). rewrite Ep3. cbn [rbind].
  unfold decide_nodes. change (pr_me p1) with (pr_me p). rewrite Ep1.
  assert (Hw2 : ∀ x, x ∈ ms → fl_up w x = true → fl_rsm w2 x = on_config (voted n v) (on_config (promised n) (fl_rsm w x))).
  { intros x Hx Hxu. rewrite Hc2, Hu1, Hxu, bool_decide_eq_true_2 by (apply list_elem_of_filter; done). cbn [andb].
    by rewrite Hc1, Hxu, bool_decide_eq_true_2. }
  assert (Hset : ∀ x, x ∈ ms → fl_up w x = true → let r2 := on_config (voted n v) (on_config (promised n) (fl_rsm w x)) in
    deciding (vid + 1) v r2 ∧ settled x (members v) (vid + 1) (installed_rsm (vid + 1) v r2)).
  { intros x Hx Hxu. apply (settled_installed x ms); [by apply Hv|lia|rewrite En; wrap_unfold; cbn; lia|by rewrite En|done|done|done|done]. }
  destruct (decide_phase me (vid + 1) v U w2) as [Hu3 Hc3]; [done|done| |].
  { intros x Hx _. destruct (HinU x Hx) as [Hxm Hxu]. rewrite Hw2 by done. by apply Hset. }
  do 2 eexists. split; [done|]. split; [by split|]. split.
  { change (my_n (set_stable p1 true)) with n. by rewrite En. }
  split; [congruence|]. split.
  - intros x Hx Hxu. rewrite Hc3, Hu2, Hu1, Hxu, bool_decide_eq_true_2 by (apply list_elem_of_filter; done). cbn [andb].
    rewrite Hw2 by done. by apply Hset.
  - intros x Hx. assert (Hx' : x ∉ U) by (intros [? ?]%HinU; destruct Hx; [done|congruence]).
    rewrite Hc3, Hc2, Hc1, !(bool_decide_eq_false_2 (x ∈ U)) by done. cbn [andb].
    destruct Hx as [Hx|Hx]; [by rewrite bool_decide_eq_false_2|by rewrite Hx, andb_false_r].
Qed.


(** ** The log of a member *)

Lemma word_one_line w : word w → one_line w.
Proof. intros [_ Hw] Hin. rewrite Forall_forall in Hw. by specialize (Hw _ Hin). Qed.

Lemma show_one_line x : in_u32 x → one_line (show_unsigned x).
Proof. intros Hx. apply word_one_line, show_unsigned_word. revert Hx. wrap_unfold. lia. Qed.

(** An entry is a line. *)
Lemma entry_line e : entry_wf e → ∃ l, entry_bytes e = l ++ [newline] ∧ one_line l.
Proof.
  assert (Hs : ∀ a b, one_line a → one_line b → one_line (a ++ space :: b)).
  { unfold one_line. intros a b Ha Hb. rewrite elem_of_app, elem_of_cons. naive_solver. }
  destruct e as [i v|n|n v]; cbn [entry_wf entry_bytes].
  - intros [Hi Hv]. rewrite done_bytes. exists (chars "done" ++ space :: (show_unsigned i ++ space :: chars v)).
    split; [by rewrite <- !(assoc_L (++)), <- !app_comm_cons, <- !(assoc_L (++))|].
    apply Hs; [by apply word_one_line; split; [|repeat constructor]|]. apply Hs; [by apply show_one_line|done].
  - intros [Hi Hv]. rewrite propseen_bytes. exists (chars "propseen" ++ space :: (show_unsigned (pn n) ++ space :: chars (pm n))).
    split; [by rewrite <- !(assoc_L (++)), <- !app_comm_cons, <- !(assoc_L (++))|].
    apply Hs; [by apply word_one_line; split; [|repeat constructor]|]. apply Hs; [by apply show_one_line|by apply word_one_line].
  - intros (Hi & Hm & Hv). rewrite accepted_bytes.
    exists (chars "accepted" ++ space :: (show_unsigned (pn n) ++ space :: (chars (pm n) ++ space :: chars v))).
    split; [by rewrite <- !(assoc_L (++)), <- !app_comm_cons, <- !(assoc_L (++)), <- !app_comm_cons, <- !(assoc_L (++))|].
    apply Hs; [by apply word_one_line; split; [|repeat constructor]|]. apply Hs; [by apply show_one_line|].
    apply Hs; [by apply word_one_line|done].
Qed.

Lemma dump_entries es : ∀ fuel r,
  (length es < fuel)%nat → Forall entry_wf es →
  dump_loop fuel (IStream (entries_bytes es) false) r = r ++ entries_bytes es.
Proof.
  induction es as [|e es IH]; intros [|fuel] r Hf Hwf; try (cbn in Hf; lia).
  - cbn [dump_loop]. unfold entries_bytes, read_line. cbn. by rewrite app_nil_r.
  - apply Forall_cons in Hwf as [He Hwf]. cbn [dump_loop].
    change (entries_bytes (e :: es)) with (entry_bytes e ++ entries_bytes es).
    destruct (entry_line e He) as (l & El & Hl). rewrite El, <- (assoc_L (++)).
    rewrite (read_line_ok _ l (entries_bytes es)) by done. cbn [is_fail].
    rewrite IH by (cbn in Hf; lia || done). by rewrite chars_of_chars, <- !(assoc_L (++)).
Qed.

(** [dump] gives the file as it is. *)
Lemma dump_logged s : logged s → chars (dump s) = ac_log s.
Proof.
  intros (_ & _ & es & El & Hwf & _). unfold dump, istream_of. rewrite chars_of_chars, El, dump_entries; [done| |done].
  pose proof (entries_bytes_length es). lia.
Qed.

(** Reading a log with a decision in it gives the same promise, proposal and
    instance, whatever the acceptor was before. *)
Record alike (s t : acceptor) : Prop := {
  al_n_h : prop_equiv (n_h s) (n_h t);
  al_n_a : prop_equiv (n_a s) (n_a t);
  al_v_a : v_a s = v_a t;
  al_instance : instance_h s = instance_h t }.

Lemma alike_entries es s t : alike s t → alike (foldl entry_apply s es) (foldl entry_apply t es).
Proof.
  revert s t. induction es as [|e es IH]; intros s t Ha; [done|]. cbn [foldl]. apply IH.
  destruct Ha as [H1 H2 H3 H4]. by destruct e; split.
Qed.

Lemma replay_alike es s t i v : Done i v ∈ es → alike (foldl entry_apply s es) (foldl entry_apply t es).
Proof.
  intros (es1 & es2 & ->)%list_elem_of_split. rewrite !foldl_app. cbn [foldl]. apply alike_entries.
  split; cbn [entry_apply n_h n_a v_a instance_h]; try done; by split.
Qed.

(** The values that the log decides do not depend on the acceptor either. *)
Lemma replay_values es s t k :
  default "" (values s !! k) = default "" (values t !! k) ∨ (∃ v, Done k v ∈ es) →
  default "" (values (foldl entry_apply s es) !! k) = default "" (values (foldl entry_apply t es) !! k).
Proof.
  revert s t. induction es as [|e es IH]; intros s t Hk; cbn [foldl].
  { destruct Hk as [?|[v Hv]]; [done|]. by apply not_elem_of_nil in Hv. }
  apply IH. destruct e as [i v|n|n v]; cbn [entry_apply values set_prop set_accepted].
  - destruct (decide (i = k)) as [->|Hne]; [left; by rewrite !lookup_insert_eq|].
    rewrite !lookup_insert_ne by done. destruct Hk as [?|[v' Hv]]; [by left|].
    apply elem_of_cons in Hv as [[= <- <-]|Hv]; [done|]. right. by exists v'.
  - destruct Hk as [?|[v' Hv]]; [by left|]. apply elem_of_cons in Hv as [[=]|Hv]. right. by exists v'.
  - destruct Hk as [?|[v' Hv]]; [by left|]. apply elem_of_cons in Hv as [[=]|Hv]. right. by exists v'.
Qed.

Lemma value_decided es s k :
  default "" (values (foldl entry_apply s es) !! k) ≠ default "" (values s !! k) → ∃ v, Done k v ∈ es.
Proof.
  revert s. induction es as [|e es IH]; intros s Hk; cbn [foldl] in Hk; [done|].
  destruct (decide (default "" (values (entry_apply s e) !! k) = default "" (values s !! k))) as [E|Hne].
  - rewrite <- E in Hk. destruct (IH _ Hk) as [v Hv]. exists v. by right.
  - destruct e as [i v|n|n v]; try done. cbn [entry_apply values] in Hne.
    destruct (decide (i = k)) as [->|Hik]; [exists v; left|by rewrite lookup_insert_ne in Hne].
Qed.

Lemma entries_kept es s :
  ac_me (foldl entry_apply s es) = ac_me s ∧ ac_cfg (foldl entry_apply s es) = ac_cfg s ∧
  ac_log (foldl entry_apply s es) = ac_log s.
Proof.
  revert s. induction es as [|e es IH]; intros s; [done|]. cbn [foldl].
  destruct (IH (entry_apply s e)) as (-> & -> & ->). by destruct e.
Qed.

(** ** Starting a node *)

(** What every node, up or down, has on its disk: the log of an acceptor that
    knows no view after [vid]. *)
Record old_disk (x : string) (vid : Z) (r : rsm S) : Prop := OldDisk {
  od_me : ac_me (cf_acc (rm_cfg r)) = x;
  od_cfg : ac_cfg (cf_acc (rm_cfg r)) = true;
  od_logged : logged (cf_acc (rm_cfg r));
  od_history : ∀ k, default "" (values (cf_acc (rm_cfg r)) !! k) ≠ "" → 1 ≤ k ≤ vid }.

Lemma settled_old x ms vid r : settled x ms vid r → old_disk x vid r.
Proof. intros [[] _ _ _]. split; try done. naive_solver. Qed.

Lemma old_disk_mono x vid vid' r : old_disk x vid r → vid ≤ vid' → old_disk x vid' r.
Proof. intros [H1 H2 H3 H4] Hle. split; try done. intros k Hk%H4. lia. Qed.

Lemma reconstruct_same c : ∃ i ms a, reconstruct c = Config (cf_me c) i ms a (cf_vc c) ∧ acceptor_equiv a (cf_acc c).
Proof.
  unfold reconstruct. destruct (0 <? _); [|by exists (cf_myvid c), (cf_mems c), (cf_acc c); destruct c].
  destruct (get_view_same c (instance_h (cf_acc c))) as (c' & -> & a & -> & He). by do 3 eexists.
Qed.

(** The replica of a node that is started on such a disk, not as the first
    node. *)
Lemma rsm_new_old me x vid r (o : S) :
  x ≠ me → old_disk x vid r →
  ∃ r0, rsm_new me x (ac_log (cf_acc (rm_cfg r))) o = Ret r0 ∧
    cf_me (rm_cfg r0) = x ∧ cf_vc (rm_cfg r0) = true ∧ acceptor_equiv (cf_acc (rm_cfg r0)) (cf_acc (rm_cfg r)) ∧
    primary r0 = me ∧ vid_commit r0 = 0 ∧ break2 r0 = false.
Proof.
  intros Hne [H1 H2 H3 _]. unfold rsm_new, config_new, acceptor_new.
  destruct (logread_logged _ H3) as (t & Et & He). rewrite H1, H2 in Et. unfold blank in Et. rewrite Et. cbn [rbind].
  rewrite (bool_decide_eq_false_2 (x = me)) by done. rewrite andb_false_r. cbn [rbind].
  rewrite bool_decide_eq_false_2 by done. destruct (reconstruct_same (Config x 0 [] t true)) as (i & ms & a & -> & Ha).
  eexists. split; [done|]. cbn. split_and!; try done. by transitivity t.
Qed.

(** A node that knows at most the views of a member and reads its log is then
    in the member's view. *)
Lemma restore_synced x me ms vid c0 c :
  0 < vid → synced me ms vid c → cf_me c0 = x → cf_vc c0 = true → ac_me (cf_acc c0) = x → ac_cfg (cf_acc c0) = true →
  (∀ k, default "" (values (cf_acc c0) !! k) ≠ "" → 1 ≤ k ≤ vid) →
  ∃ c', Config.restore c0 (dump (cf_acc c)) = Ret c' ∧ synced x ms vid c'.
Proof.
  intros Hvid [H1 H2 H3 H3' H4 H5 H6 H7 H8 H9 Hh Hl] Hx Hvc Hax Hcfg Hold. unfold Config.restore, Paxos.restore.
  rewrite (dump_logged _ Hl). pose proof Hl as (_ & Hi & es & El & Hwf & Heq). set (f := ac_log (cf_acc c)) in *.
  rewrite (logread_log es) by done. cbn [rbind]. set (s := foldl _ _ es). set (b0 := blank (ac_me (cf_acc c)) (ac_cfg (cf_acc c)) f) in *.
  assert (Hdone : ∀ k, 1 ≤ k ≤ vid → ∃ v, Done k v ∈ es).
  { intros k Hk. apply (value_decided es b0). rewrite (ae_values _ _ Heq). cbn [b0 blank values]. rewrite lookup_empty. by apply Hh. }
  assert (Hvals : ∀ t k, values t = ∅ → default "" (values (foldl entry_apply t es) !! k) = default "" (values s !! k)).
  { intros t k Et. apply replay_values. rewrite Et, lookup_empty. cbn [default set_log values].
    destruct (decide (default "" (values (cf_acc c0) !! k) = "")) as [E|Hne]; [by left|]. right. by apply Hdone, Hold. }
  destruct (Hdone vid) as [v Hv]; [lia|]. assert (Hal : ∀ t, alike (foldl entry_apply t es) s) by (intros t; by apply (replay_alike es _ _ vid v)).
  destruct (entries_kept es (set_log (cf_acc c0) f)) as (Em & Ecfg & Elog). fold s in Em, Ecfg, Elog. cbn [set_log ac_me ac_cfg ac_log] in *.
  destruct (Hal b0) as [[B1 _] _ B3 B4]. destruct Heq as [_ _ [Q1 _] _ Q3 Q4 Q5 _].
  assert (Es : pn (n_h s) = 0 ∧ v_a s = "" ∧ instance_h s = vid) by (split_and!; congruence). destruct Es as (Esn & Esv & Esi).
  assert (Esk : ∀ k, default "" (values s !! k) = default "" (values (cf_acc c) !! k)) by (intros k; by rewrite <- Q5, (Hvals b0)).
  assert (Hls : logged s).
  { split; [rewrite Esv; apply not_elem_of_nil|]. split; [rewrite Esi, <- H8; done|]. exists es. rewrite Elog.
    split_and!; [done|done|]. destruct (Hal (blank (ac_me s) (ac_cfg s) f)). destruct (entries_kept es (blank (ac_me s) (ac_cfg s) f)) as (? & ? & ?).
    split; try done; [|by rewrite Elog]. intros k. by apply Hvals. }
  unfold reconstruct. cbn [cf_acc set_view]. rewrite Esi. replace (0 <? vid) with true by lia.
  destruct (get_view_same (set_view c0 (cf_myvid c0) (cf_mems c0) s) vid) as (c' & -> & a & -> & He). cbn [set_acc set_view cf_acc] in *.
  eexists. split; [done|]. pose proof He as [E1 E2 [E3 _] E4 E5 E6 E7 E8].
  split; cbn [cf_me cf_myvid cf_mems cf_acc cf_vc set_view]; try done; try congruence.
  - intros k. by rewrite E7, Esk.
  - by apply (logged_equiv s).
Qed.

(** The node then installs the view, and takes the node it has asked for the
    primary. *)
Lemma joined_settled me x ms vid (r0 : rsm S) c :
  synced x ms vid c → 0 < vid < 2 ^ 32 → head ms = Some me → primary r0 = me → vid_commit r0 = 0 → break2 r0 = false →
  ∃ r, commit_change_wo (set_cfg r0 c) vid = Ret r ∧ settled x ms vid r.
Proof.
  intros Hs Hvid Hh Hp Hc Hb.
  assert (Hm : members_of (set_cfg r0 c) vid = ms) by (rewrite members_of_default; apply (sy_value _ _ _ _ Hs)).
  assert (Hin : me ∈ ms) by (destruct ms; [done|]; injection Hh as ->; left).
  destruct (commit_elects (set_cfg r0 c) vid) as (r & E & Ev & Eb & (_ & Hkeep & _) & _); [cbn; lia|done|lia| |].
  { exists me. rewrite Hm. split; [by left|done]. }
  exists r. split; [done|]. apply commit_change_same in E. cbn [rm_cfg set_cfg] in E. split; [by eapply synced_same| |done|done].
  rewrite Hkeep by (rewrite Hm; cbn [primary set_cfg]; by rewrite Hp). cbn [primary set_cfg]. by rewrite Hp.
Qed.

(** ** The operations *)

(** Every node with its proposer. *)
Record site := Site { st_pro : string → proposer; st_fleet : fleet }.

(** [ismember] of the configuration of node [me]; looking a view up may write
    to the acceptor's table. *)
Definition fleet_ismember (me x : string) (vid : Z) (w : fleet) : bool * fleet :=
  let '(b, c) := ismember (fl_config w me) x vid in (b, put_config me c w).

(** [rsm::joinreq] at the node [me], whose call of [cfg->add] runs the
    proposer and, through the up-calls, changes its own replica too. *)
Definition fleet_joinreq (me m : string) (r : joinres) (s : site) : res (Z * joinres * site) :=
  let w := st_fleet s in
  let '(b, w) := fleet_ismember me m (vid_commit (fl_rsm w me)) w in
  if b : bool then Ret (rsm_protocol.OK, JoinRes (dump (cf_acc (fl_config w me))), Site (st_pro s) w)
  else if negb (bool_decide (myaddr (fl_rsm w me) = primary (fl_rsm w me))) then
    Ret (rsm_protocol.BUSY, r, Site (st_pro s) w)
  else
    let vid_cache := vid_commit (fl_rsm w me) in
    '(succ, (p, w)) ← add (fleet_run me) (fl_config w me) m vid_cache (st_pro s me, w);
    let '(b, w) := fleet_ismember me m (cf_myvid (fl_config w me)) w in
    let s := Site (<[me := p]> (st_pro s)) w in
    if b : bool then Ret (rsm_protocol.OK, JoinRes (dump (cf_acc (fl_config w me))), s)
    else Ret (rsm_protocol.BUSY, r, s).

(** The only call that a node makes before it is a member. *)
Definition joining_net : rsm_net site := {|
  rn_join m src last s :=
    if fl_up (st_fleet s) m then
      match fleet_joinreq m src (JoinRes "") s with
      | Ret (ret, r, s) => (Some (ret, r), s)
      | Fail _ => (None, Site (st_pro s) (crash m (st_fleet s)))
      end
    else (None, s);
  rn_invoke _ _ _ _ s := (None, s);
  rn_transfer _ _ _ _ s := (None, s);
  rn_transferdone _ _ _ s := (None, s);
  rn_reachable _ _ s := s;
  rn_add _ _ _ _ := Fail VerifyFailed |}.

(** The node [x] is started with the address of [me] and finds the log of its
    last run; its recovery thread tests whether it is a member and otherwise
    asks to join. *)
Definition start_node (o : S) (me x : string) (s : site) : res (bool * site) :=
  r ← rsm_new me x (ac_log (cf_acc (fl_config (st_fleet s) x))) o;
  let '(b, c) := ismember (rm_cfg r) (myaddr r) (vid_commit r) in
  let r := set_cfg r c in
  '(b, r, s) ← (if b : bool then Ret (true, r, s) else recovery_join joining_net r s);
  let w := st_fleet s in
  Ret (b, Site (<[x := proposer_new x]> (st_pro s))
            (Fleet (<[x := r]> (fl_rsm w)) (<[x := ∅]> (fl_mgr w)) (<[x := true]> (fl_up w)))).

Inductive change := Crash (x : string) | Remove (me x : string) | Join (me x : string).

(** A node crashes; a member removes another, as its heartbeat thread does; a
    node that is down is started and asks [me] to join. *)
Definition change_step (o : S) (ch : change) (s : site) : res (bool * site) :=
  match ch with
  | Crash x => Ret (true, Site (st_pro s) (crash x (st_fleet s)))
  | Remove me x =>
      '(b, (p, w)) ← remove_wo (fleet_run me) (fl_config (st_fleet s) me) x (st_pro s me, st_fleet s);
      Ret (b, Site (<[me := p]> (st_pro s)) w)
  | Join me x => start_node o me x s
  end.

Fixpoint change_steps (o : S) (chs : list change) (s : site) : res (list bool * site) :=
  match chs with
  | [] => Ret ([], s)
  | ch :: chs =>
      '(b, s) ← change_step o ch s;
      '(bs, s) ← change_steps o chs s;
      Ret (b :: bs, s)
  end.

(** ** The membership as its users see it *)

Record membership := Membership { mb_vid : Z; mb_members : list string; mb_up : string → bool }.

(** A view with [x], which is the same one if [x] is still a member. *)
Definition with_member (x : string) (m : membership) : membership :=
  if bool_decide (x ∈ mb_members m) then m else Membership (mb_vid m + 1) (mb_members m ++ [x]) (mb_up m).
Definition member_up (x : string) (b : bool) (m : membership) : membership :=
  Membership (mb_vid m) (mb_members m) (<[x := b]> (mb_up m)).

Definition member_step (ch : change) (m : membership) : membership :=
  match ch with
  | Crash x => member_up x false m
  | Remove _ x => Membership (mb_vid m + 1) (filter (λ y, y ≠ x) (mb_members m)) (mb_up m)
  | Join _ x => member_up x true (with_member x m)
  end.

(** A new view takes a majority of the members of the old one. *)
Definition can_change (m : membership) : Prop :=
  mb_vid m < 2 ^ 32 - 1 ∧ majority (mb_members m) (filter (λ x, mb_up m x = true) (mb_members m)) = true.

(** Another node is removed by a member that is up; a node that is down is
    started with the address of the first member, which is up. *)
Definition allowed (ch : change) (m : membership) : Prop :=
  match ch with
  | Crash _ => True
  | Remove me x => me ∈ mb_members m ∧ mb_up m me = true ∧ x ≠ me ∧ can_change m
  | Join me x => head (mb_members m) = Some me ∧ mb_up m me = true ∧ mb_up m x = false ∧ word (chars x) ∧
      ((x ∉ mb_members m) → can_change m)
  end.

Fixpoint all_allowed (chs : list change) (m : membership) : Prop :=
  match chs with
  | [] => True
  | ch :: chs => allowed ch m ∧ all_allowed chs (member_step ch m)
  end.

(** Every member that is up is in the view, and its proposer is ready; the
    others have a disk that does not know more. *)
Record represents (m : membership) (s : site) : Prop := Represents {
  re_vid : 0 < mb_vid m < 2 ^ 32;
  re_nodup : NoDup (mb_members m);
  re_words : Forall (λ x, word (chars x)) (mb_members m);
  re_up : ∀ x, fl_up (st_fleet s) x = mb_up m x;
  re_view : in_view (mb_members m) (mb_vid m) (st_fleet s);
  re_old : ∀ x, old_disk x (mb_vid m) (fl_rsm (st_fleet s) x);
  re_pro : ∀ x, x ∈ mb_members m → mb_up m x = true →
    idle_proposer x (st_pro s x) ∧ 0 ≤ pn (my_n (st_pro s x)) < mb_vid m }.

Lemma value_one_line ms : Forall (λ x, word (chars x)) ms → one_line (chars (value ms)).
Proof.
  induction 1 as [|x ms Hx _ IH]; [apply not_elem_of_nil|]. cbn [value]. unfold one_line in *.
  rewrite !chars_app, !elem_of_app. intros [Hin|[Hin|Hin]]; [by apply word_one_line in Hx|by apply list_elem_of_singleton in Hin|done].
Qed.

(** The round behind a change: the members of the next view that are up and
    were in the old one are in it. *)
Lemma change_round m s me ms' :
  represents m s → me ∈ mb_members m → mb_up m me = true → can_change m →
  next_view (mb_members m) ms' → ms' ≠ [] → NoDup ms' → Forall (λ x, word (chars x)) ms' →
  (∀ x, x ∈ ms' → mb_up m x = true → x ∈ mb_members m) →
  ∃ p w, fleet_run me (u32 (mb_vid m + 1)) (mb_members m) (value ms') (st_pro s me, st_fleet s) = Ret (true, (p, w)) ∧
    settled me ms' (mb_vid m + 1) (fl_rsm w me) ∧
    represents (Membership (mb_vid m + 1) ms' (mb_up m)) (Site (<[me := p]> (st_pro s)) w).
Proof.
  intros [Hvid Hnd Hws Hup Hview Hold Hpro] Hme Hmup [Hmax Hmaj] Hnv Hne Hnd' Hw' Hin. destruct (Hpro me Hme Hmup) as [Hip Hpn].
  assert (Hw : word (chars me)) by (rewrite Forall_forall in Hws; auto).
  destruct (round_completes me (mb_members m) (mb_vid m) (value ms') (st_pro s me) (st_fleet s))
    as (p & w & E & Hip' & Hpn' & Hu & Hs & Ho);
    [done|done| |done|by rewrite Hup|done|done|lia|lia|by apply value_one_line|by rewrite members_value|by rewrite members_value|].
  { erewrite list_filter_iff; [exact Hmaj|]. intros x. cbn. by rewrite Hup. }
  rewrite members_value in Hs by done.
  exists p, w. unfold fleet_run. cbn [fst snd]. rewrite u32_id by (wrap_unfold; lia). rewrite E. cbn [rbind].
  rewrite Hu, Hup, Hmup. split; [done|]. split; [apply Hs; [done|by rewrite Hup]|].
  split; cbn [mb_vid mb_members mb_up st_fleet st_pro]; [lia|done|done|intros x; by rewrite Hu| | |].
  - intros x Hx Hxu. rewrite Hu in Hxu. apply Hs; [|done]. apply Hin; [done|]. by rewrite <- Hup.
  - intros x. destruct (decide (x ∈ mb_members m ∧ fl_up (st_fleet s) x = true)) as [[Hx Hxu]|Hx].
    + eapply settled_old. by apply Hs.
    + rewrite Ho; [eapply old_disk_mono; [apply Hold|lia]|]. destruct (decide (x ∈ mb_members m)) as [Hx'|Hx']; [|by left].
      right. apply not_true_iff_false. naive_solver.
  - intros x Hx Hxu. destruct (decide (x = me)) as [->|Hxme]; [rewrite fn_lookup_insert; split; [done|lia]|].
    rewrite fn_lookup_insert_ne by done. destruct (Hpro x) as [? ?]; [auto|done|]. split; [done|lia].
Qed.

Lemma remove_represents o m s me x :
  represents m s → allowed (Remove me x) m →
  ∃ s', change_step o (Remove me x) s = Ret (true, s') ∧ represents (member_step (Remove me x) m) s'.
Proof.
  intros Hr (Hme & Hmup & Hx & Hcan). pose proof Hr as [Hvid Hnd Hws Hup Hview Hold Hpro].
  set (ms' := filter (λ y, y ≠ x) (mb_members m)).
  assert (Hme' : me ∈ ms') by (by apply list_elem_of_filter).
  assert (Hsub : ∀ y, y ∈ ms' → y ∈ mb_members m) by (by intros y [_ ?]%list_elem_of_filter).
  destruct (change_round m s me ms' Hr Hme Hmup Hcan) as (p & w & E & _ & Hr'); [| | | |by auto|].
  { right. by exists x. }
  { intros En. rewrite En in Hme'. by apply not_elem_of_nil in Hme'. }
  { by apply NoDup_filter. }
  { apply Forall_forall. intros y Hy%Hsub. rewrite Forall_forall in Hws. auto. }
  destruct (se_synced _ _ _ _ (Hview me Hme ltac:(by rewrite Hup))) as [_ Ev Em _ _ _ _ _ _ _ _ _].
  cbn [change_step member_step]. unfold remove_wo. rewrite Ev, Em. fold ms'. rewrite E. cbn [rbind]. by eexists.
Qed.

(** Looking a node up finds out whether it is a member and changes nothing
    that matters. *)
Lemma fleet_ismember_ok m s me x :
  represents m s → me ∈ mb_members m → mb_up m me = true →
  ∃ w, fleet_ismember me x (mb_vid m) (st_fleet s) = (isamember x (mb_members m), w) ∧ represents m (Site (st_pro s) w) ∧
    settled me (mb_members m) (mb_vid m) (fl_rsm w me).
Proof.
  intros [H1 H2 H3 H4 H5 H6 H7] Hme Hup. assert (Hs : settled me (mb_members m) (mb_vid m) (fl_rsm (st_fleet s) me)).
  { apply H5; [done|]. by rewrite H4. }
  unfold fleet_ismember. destruct (ismember_same (fl_config (st_fleet s) me) x (mb_vid m)) as (c & -> & Hc).
  destruct Hs as [Hsy Hp Hv Hb]. rewrite (sy_value _ _ _ _ Hsy). eexists. split; [done|].
  assert (Hs : settled me (mb_members m) (mb_vid m) (fl_rsm (put_config me c (st_fleet s)) me)).
  { unfold put_config. rewrite put_rsm_at. split; [by eapply synced_same|done..]. }
  split; [|done]. split; try done; cbn [st_fleet].
  - intros y Hy Hyu. destruct (decide (y = me)) as [->|Hne]; [done|]. unfold put_config. rewrite put_rsm_other by done. by apply H5.
  - intros y. destruct (decide (y = me)) as [->|Hne]; [by eapply settled_old|]. unfold put_config. by rewrite put_rsm_other by done.
Qed.

Lemma head_elem (ms : list string) me : head ms = Some me → me ∈ ms.
Proof. destruct ms; [done|]. intros [= ->]. left. Qed.

(** The first member adds a node that asks for it, and sends its log. *)
Lemma joinreq_represents m s me x r :
  represents m s → allowed (Join me x) m →
  ∃ s', fleet_joinreq me x r s = Ret (rsm_protocol.OK, JoinRes (dump (cf_acc (fl_config (st_fleet s') me))), s') ∧
    represents (with_member x m) s' ∧ settled me (mb_members (with_member x m)) (mb_vid (with_member x m)) (fl_rsm (st_fleet s') me).
Proof.
  intros Hr (Hhd & Hmup & Hxd & Hxw & Hcan). pose proof (head_elem _ _ Hhd) as Hme.
  assert (Hset : settled me (mb_members m) (mb_vid m) (fl_rsm (st_fleet s) me)).
  { apply (re_view _ _ Hr); [done|]. by rewrite (re_up _ _ Hr). }
  unfold fleet_joinreq, with_member. rewrite (se_commit _ _ _ _ Hset).
  destruct (fleet_ismember_ok m s me x Hr Hme Hmup) as (w1 & -> & Hr1 & Hset1).
  destruct (decide (x ∈ mb_members m)) as [Hx|Hx].
  { rewrite (bool_decide_eq_true_2 (x ∈ mb_members m)), (proj2 (isamember_spec _ _)) by done. by exists (Site (st_pro s) w1). }
  rewrite (bool_decide_eq_false_2 (x ∈ mb_members m)) by done.
  assert (isamember x (mb_members m) = false) as -> by (apply not_true_iff_false; by rewrite isamember_spec).
  assert (myaddr (fl_rsm w1 me) = primary (fl_rsm w1 me)) as Ep.
  { unfold myaddr. rewrite (sy_me _ _ _ _ (se_synced _ _ _ _ Hset1)). pose proof (se_primary _ _ _ _ Hset1). congruence. }
  rewrite bool_decide_eq_true_2 by done. cbn [negb]. rewrite (se_commit _ _ _ _ Hset1).
  destruct (se_synced _ _ _ _ Hset1) as [_ Ev Em _ _ _ _ _ _ _ _ _]. unfold add. rewrite Ev, Em, Z.eqb_refl. cbn [negb].
  destruct (change_round m (Site (st_pro s) w1) me (mb_members m ++ [x]) Hr1 Hme Hmup (Hcan Hx)) as (p & w2 & E & Hset2 & Hr2).
  { left. by exists x. }
  { by intros []%app_nil. }
  { apply NoDup_app. split; [apply (re_nodup _ _ Hr)|]. split; [|apply NoDup_singleton]. by intros y Hy ->%list_elem_of_singleton. }
  { apply Forall_app. split; [apply (re_words _ _ Hr)|]. by apply Forall_singleton. }
  { intros y [Hy| ->%list_elem_of_singleton]%elem_of_app Hyu; [done|congruence]. }
  cbn [st_pro st_fleet] in E, Hr2. rewrite E. cbn [rbind]. rewrite (sy_vid _ _ _ _ (se_synced _ _ _ _ Hset2)).
  destruct (fleet_ismember_ok _ _ me x Hr2) as (w3 & E3 & Hr3 & Hset3); cbn [mb_members mb_up mb_vid st_fleet st_pro] in *;
    [apply elem_of_app; by left|done|].
  rewrite E3. assert (isamember x (mb_members m ++ [x]) = true) as ->.
  { apply isamember_spec, elem_of_app. right. by apply list_elem_of_singleton. }
  by exists (Site (<[me := p]> (st_pro s)) w3).
Qed.

(** A member that was down is up and in the view. *)
Lemma started_represents m s x r :
  represents m s → settled x (mb_members m) (mb_vid m) r →
  represents (member_up x true m) (Site (<[x := proposer_new x]> (st_pro s))
    (Fleet (<[x := r]> (fl_rsm (st_fleet s))) (<[x := ∅]> (fl_mgr (st_fleet s))) (<[x := true]> (fl_up (st_fleet s))))).
Proof.
  intros [H1 H2 H3 H4 H5 H6 H7] Hs. split; try done; cbn [member_up mb_vid mb_members mb_up st_fleet st_pro fl_up fl_rsm].
  - intros y. destruct (decide (y = x)) as [->|Hne]; [by rewrite !fn_lookup_insert|by rewrite !fn_lookup_insert_ne].
  - intros y Hy. cbn [fl_up fl_rsm]. destruct (decide (y = x)) as [->|Hne]; [by rewrite !fn_lookup_insert|].
    rewrite !fn_lookup_insert_ne by done. by apply H5.
  - intros y. destruct (decide (y = x)) as [->|Hne]; [rewrite fn_lookup_insert; by eapply settled_old|].
    by rewrite fn_lookup_insert_ne.
  - intros y Hy. destruct (decide (y = x)) as [->|Hne]; [rewrite !fn_lookup_insert; intros _; split; [by split|cbn; lia]|].
    rewrite !fn_lookup_insert_ne by done. by apply H7.
Qed.

Lemma join_represents o m s me x :
  represents m s → allowed (Join me x) m →
  ∃ s', change_step o (Join me x) s = Ret (true, s') ∧ represents (member_step (Join me x) m) s'.
Proof.
  intros Hr Ha. pose proof Ha as (Hhd & Hmup & Hxd & _). assert (Hne : x ≠ me) by congruence.
  pose proof (re_old _ _ Hr x) as Hold. cbn [change_step member_step]. unfold start_node.
  destruct (rsm_new_old me x (mb_vid m) _ o Hne Hold) as (r0 & -> & E1 & E2 & He & Ep & Ec & Eb). cbn [rbind].
  unfold myaddr. rewrite E1, Ec. destruct (ismember_same (rm_cfg r0) x 0) as (c0 & -> & Hc0).
  assert (He0 : default "" (values (cf_acc (rm_cfg r0)) !! 0) = "").
  { rewrite (ae_values _ _ He). destruct (decide (default "" (values (cf_acc (fl_config (st_fleet s) x)) !! 0) = "")) as [E|E]; [done|].
    apply (od_history _ _ _ Hold) in E. lia. }
  rewrite He0. cbn [isamember members_empty]. change (isamember x (members "")) with false. cbv iota.
  unfold recovery_join, join. cbn [primary set_cfg rn_join joining_net]. rewrite Ep, (re_up _ _ Hr), Hmup.
  unfold myaddr. cbn [rm_cfg set_cfg]. destruct Hc0 as (a & -> & Ha0). cbn [set_acc set_view cf_me]. rewrite E1.
  destruct (joinreq_represents m s me x (JoinRes "") Hr Ha) as (s1 & -> & Hr1 & Hset).
  change (negb (rsm_protocol.OK =? rsm_protocol.OK)) with false. cbv iota. cbn [jr_log].
  set (m1 := with_member x m) in *.
  assert (Hle : mb_vid m ≤ mb_vid m1) by (unfold m1, with_member; destruct (bool_decide _); cbn; lia).
  assert (Hhd1 : head (mb_members m1) = Some me).
  { unfold m1, with_member. destruct (bool_decide _); [done|]. cbn. by destruct (mb_members m). }
  match goal with |- context [Config.restore ?c1 _] => destruct (restore_synced x me (mb_members m1) (mb_vid m1) c1
    (fl_config (st_fleet s1) me)) as (c & E & Hc) end; [apply (re_vid _ _ Hr1)|apply Hset|done|done| | | |].
  { cbn [cf_acc rm_cfg set_cfg set_acc set_view]. rewrite (ae_me _ _ Ha0), (ae_me _ _ He). apply (od_me _ _ _ Hold). }
  { cbn [cf_acc rm_cfg set_cfg set_acc set_view]. rewrite (ae_cfg _ _ Ha0), (ae_cfg _ _ He). apply (od_cfg _ _ _ Hold). }
  { intros k. cbn [cf_acc rm_cfg set_cfg set_acc set_view]. rewrite (ae_values _ _ Ha0), (ae_values _ _ He). intros Hk%(od_history _ _ _ Hold). lia. }
  rewrite E. cbn [rbind]. match goal with |- context [cf_myvid (rm_cfg (set_cfg ?r1 c))] => change (rm_cfg (set_cfg r1 c)) with c end.
  rewrite (sy_vid _ _ _ _ Hc).
  match goal with |- context [set_cfg (set_cfg r0 ?c1) c] => destruct (joined_settled me x (mb_members m1) (mb_vid m1) (set_cfg r0 c1) c) as (r & -> & Hr2) end;
    [done|apply (re_vid _ _ Hr1)|done|done|done|done|].
  cbn [rbind]. eexists. split; [done|]. by apply started_represents.
Qed.

Lemma change_represents o ch m s :
  represents m s → allowed ch m →
  ∃ s', change_step o ch s = Ret (true, s') ∧ represents (member_step ch m) s'.
Proof.
  destruct ch as [x|me x|me x]; [|apply remove_represents|apply join_represents].
  intros [Hvid Hnd Hws Hup Hview Hold Hpro] _. eexists. split; [done|].
  assert (Hdown : ∀ (f : string → bool) y, <[x := false]> f y = true → y ≠ x ∧ f y = true).
  { intros f y Hy. destruct (decide (y = x)) as [->|Hne]; [by rewrite fn_lookup_insert in Hy|].
    by rewrite fn_lookup_insert_ne in Hy. }
  split; cbn [member_step member_up mb_vid mb_members mb_up st_fleet st_pro crash fl_up fl_rsm]; try done.
  - intros y. destruct (decide (y = x)) as [->|Hne]; [by rewrite !fn_lookup_insert|by rewrite !fn_lookup_insert_ne].
  - intros y Hy [_ Hyu]%Hdown. by apply Hview.
  - intros y Hy [_ Hyu]%Hdown. auto.
Qed.

Lemma changes_represent o chs m s :
  represents m s → all_allowed chs m →
  ∃ s', change_steps o chs s = Ret (replicate (length chs) true, s') ∧ represents (foldl (flip member_step) m chs) s'.
Proof.
  revert m s. induction chs as [|ch chs IH]; intros m s Hr; cbn [all_allowed change_steps foldl length replicate].
  { intros _. by exists s. }
  intros [Ha Has]. destruct (change_represents o ch m s Hr Ha) as (s1 & -> & Hr1). cbn [rbind].
  destruct (IH _ s1 Hr1 Has) as (s2 & -> & Hr2). cbn [rbind]. by exists s2.
Qed.

(** ** From the first node on *)

Lemma members_word x : word (chars x) → members x = [x].
Proof.
  intros Hx. unfold members, istream_of. cbn [members_loop].
  rewrite (read_word_ok _ (chars x) []); [|done|cbn [is_rest]; rewrite app_nil_r; by apply skip_space_solid; rewrite <- (app_nil_r (chars x)); apply word_starts|done|done].
  cbn [is_fail]. rewrite of_chars_chars. destruct (String.length x) as [|k] eqn:El; [by destruct x|]. done.
Qed.

(** A node that has never run. *)
Definition unused_node (o : S) (x : string) : rsm S :=
  Rsm ∅ (Config x 0 [] (blank x true []) true) false (Viewstamp 0 0) (Viewstamp 0 0) "" false false 0 0 [] false false
    false false true o.

(** The node that makes the first view is started with its own address. *)
Definition first_site (o : S) (first : string) : res site :=
  r ← rsm_new first first [] o;
  Ret (Site proposer_new (Fleet (<[first := r]> (unused_node o)) (λ _, ∅) (λ x, bool_decide (x = first)))).
Definition first_membership (first : string) : membership := Membership 1 [first] (λ x, bool_decide (x = first)).

Lemma first_config first :
  word (chars first) → ∃ c, config_new first first true [] = Ret c ∧ synced first [first] 1 c.
Proof.
  intros Hw. unfold config_new. rewrite bool_decide_eq_true_2 by done.
  destruct (acceptor_new true true first first []) as [s|] eqn:E; [|by vm_compute in E].
  destruct (acceptor_new_logged true true first first s) as (Hl & _); [by apply word_one_line|done|].
  unfold acceptor_new in E. change (logread _) with (Ret (blank first true [])) in E. cbn [rbind blank instance_h andb] in E.
  change (0 =? 0) with true in E. cbn [andb] in E. injection E as <-. cbn [rbind]. unfold reconstruct. cbn [cf_acc instance_h].
  change (0 <? 1) with true. cbv iota. unfold get_view_wo, Paxos.value, map_ref. cbn [cf_acc values blank].
  rewrite lookup_insert_eq. cbn [set_view cf_acc cf_me cf_myvid cf_mems set_values]. rewrite members_word by done.
  eexists. split; [done|]. split; try done; cbn [cf_acc set_view set_values values].
  - rewrite lookup_insert_eq. by apply members_word.
  - intros k. destruct (decide (k = 1)) as [->|Hk].
    + rewrite lookup_insert_eq. cbn. split; [lia|]. intros _ ->. by destruct Hw.
    + rewrite lookup_insert_ne, lookup_empty by done. cbn. split; [done|lia].
Qed.

Lemma first_represents o first :
  word (chars first) → ∃ s, first_site o first = Ret s ∧ represents (first_membership first) s.
Proof.
  intros Hw. unfold first_site, rsm_new. destruct (first_config first Hw) as (c & -> & Hc). cbn [rbind].
  rewrite bool_decide_eq_true_2 by done. unfold commit_change.
  match goal with |- context [commit_change_wo ?r0 1] =>
    destruct (joined_settled first first [first] 1 r0 c) as (r & E & Hs); [done|lia|done|done|done|done|];
    change (set_cfg r0 c) with r0 in E end.
  rewrite E. cbn [rbind]. unfold breakpoint2. rewrite (se_break _ _ _ _ Hs). cbn [rbind]. eexists. split; [done|].
  split; cbn [first_membership mb_vid mb_members mb_up st_fleet st_pro fl_rsm fl_up]; try done.
  - apply NoDup_singleton.
  - by apply Forall_singleton.
  - intros x ->%list_elem_of_singleton _. cbn [fl_rsm]. by rewrite fn_lookup_insert.
  - intros x. destruct (decide (x = first)) as [->|Hne]; [rewrite fn_lookup_insert; by eapply settled_old|].
    rewrite fn_lookup_insert_ne by done. split; [done|done|apply blank_logged|]. intros k Hk. by cbn in Hk.
Qed.
End fleet.


(** Two nodes join; the first of them crashes, is removed and joins again on
    its old disk; the node that made the first view crashes, is removed and joins
    again through the new primary; a member crashes and is started again
    before anyone has removed it. *)
Definition demo_changes : list change :=
  [Join "a" "b"; Join "a" "c"; Crash "b"; Remove "a" "b"; Join "a" "b"; Crash "a"; Remove "b" "a"; Join "c" "a"; Crash "b"; Join "c" "b"].

Lemma demo_changes_allowed : all_allowed demo_changes (first_membership "a").
Proof.
  unfold demo_changes. cbn [all_allowed allowed member_step].
  repeat (match goal with |- _ ∧ _ => split | |- _ → _ => intros ? end);
    first [lia|reflexivity|by apply (bool_decide_eq_true_1 _); vm_compute|split; [done|repeat constructor]|done].
Qed.

#[local] Instance demo_transfer : StateTransfer () := { marshal_state _ := Ret ""; unmarshal_state _ s := Ret s }.

