(* ===== verification/RsmClient.v ===== *)
(** * The client of the replicated state machine (rsm_client.cc, rsm_client.h)

    [rsm_client] remembers a primary and the other members, sends requests to
    the primary and looks for another one when it fails.  The stubs
    [rsm_client::call] are in Stubs.v. *)

From S2P Require Import Prelude Marshall Protocols Stubs.

Record rsm_client := RsmClient { rcl_primary : string; known_mems : list string }.

(** The loop of [primary_failure] erases through its iterator and then
    increments it: after an erase the iterator is invalid. *)
Fixpoint erase_primary (primary : string) (l : list string) : res (list string) :=
  match l with
  | [] => Ret []
  | x :: l => if bool_decide (x = primary) then Fail UndefinedBehaviour
              else rmap (cons x) (erase_primary primary l)
  end.

Definition primary_failure (c : rsm_client) : res rsm_client :=
  known ← erase_primary (rcl_primary c) (known_mems c);
  match known with
  | [] => Fail UndefinedBehaviour
  | x :: _ => Ret (RsmClient x known)
  end.

(** [init_members], given the outcome of the call of [members] ([None]: no
    client). *)
Definition init_members (c : rsm_client) (outcome : option (Z * list string))
    : res (bool * rsm_client) :=
  match outcome with
  | None => Ret (false, c)
  | Some (ret, new_view) =>
      if negb (ret =? rsm_protocol.OK) then Ret (false, c) else
      match last new_view with
      | None => VERIFY false;; Ret (false, c)
      | Some p => Ret (true, RsmClient p (removelast new_view))
      end
  end.

Definition rsm_client_new (dst : string) (outcome : option (Z * list string)) : res rsm_client :=
  '(ok, c) ← init_members (RsmClient dst []) outcome;
  VERIFY ok;;
  Ret c.

(** The calls a client makes, on a world [W]. *)
Record client_net (W : Type) := ClientNet {
  cn_invoke : string → Z → string → W → option (Z * string) * W;
  cn_members : string → W → option (Z * list string) * W }.
Arguments ClientNet {W}.
Arguments cn_invoke {W}.
Arguments cn_members {W}.

Section invoke.
Context {W : Type} (net : client_net W).

(** One turn of the loop of [invoke]: [inl] leaves it. *)
Definition invoke_turn (c : rsm_client) (proc : Z) (req : string) (w : W)
    : res ((Z * string + rsm_client) * W) :=
  match cn_invoke net (rcl_primary c) proc req w with
  | (None, w) => c ← primary_failure c; Ret (inr c, w)
  | (Some (ret, rep), w) =>
      if ret =? rsm_client_protocol.OK then Ret (inl (ret, rep), w)
      else if ret =? rsm_client_protocol.BUSY then Ret (inr c, w)
      else if ret =? rsm_client_protocol.NOTPRIMARY then
        let '(o, w) := cn_members net (rcl_primary c) w in
        '(ok, c) ← init_members c o;
        if ok : bool then Ret (inr c, w) else c ← primary_failure c; Ret (inr c, w)
      else c ← primary_failure c; Ret (inr c, w)
  end.

(** At most [fuel] turns: [None] when the loop has not ended by then.  The
    mutex is given up during a call; the model is that of a client object
    whose calls are made one at a time. *)
Fixpoint invoke (fuel : nat) (c : rsm_client) (proc : Z) (req : string) (w : W)
    : res (option (Z * string) * rsm_client * W) :=
  match fuel with
  | O => Ret (None, c, w)
  | S fuel =>
      '(r, w) ← invoke_turn c proc req w;
      match r with
      | inl p => Ret (Some p, c, w)
      | inr c => invoke fuel c proc req w
      end
  end.
End invoke.

(** ** Results *)

Lemma erase_primary_ok p l : p ∉ l → erase_primary p l = Ret l.
Proof.
  induction l as [|x l IH]; cbn; [done|]. rewrite not_elem_of_cons. intros [Hne Hl].
  rewrite bool_decide_eq_false_2 by done. by rewrite IH.
Qed.

Lemma erase_primary_ub p l : p ∈ l → erase_primary p l = Fail UndefinedBehaviour.
Proof.
  induction l as [|x l IH]; cbn; [by intros ?%elem_of_nil|]. rewrite elem_of_cons.
  destruct (bool_decide_reflect (x = p)) as [->|]; [done|]. intros [?|Hin]; [done|]. by rewrite IH.
Qed.

(** A client survives one failed primary only.  [primary_failure] moves
    on to the first known member exactly when there is one and the failed
    primary is not among the known members; after it has done so once, the
    new primary is still in the list, and the next failure uses an iterator
    that the erase before it has invalidated. *)
Theorem second_failure_is_undefined c :
  (abort_free (primary_failure c) ↔ (rcl_primary c ∉ known_mems c) ∧ known_mems c ≠ []) ∧
  ∀ c', primary_failure c = Ret c' →
    Some (rcl_primary c') = head (known_mems c) ∧ primary_failure c' = Fail UndefinedBehaviour.
Proof.
  unfold primary_failure. destruct (decide (rcl_primary c ∈ known_mems c)) as [Hin|Hout].
  - rewrite erase_primary_ub by done. cbn. split; [|done]. split; [by intros []|by intros []].
  - rewrite erase_primary_ok by done. cbn [rbind]. destruct (known_mems c) as [|x l].
    + split; [split; [by intros []|by intros []]|done].
    + split; [split; [done|intros _; by eexists]|]. intros c' [= <-]. split; [done|].
      cbn [rcl_primary known_mems]. by rewrite erase_primary_ub by left.
Qed.

(** A member list as [client_members] sends it: the view, and the primary
    once more at the end. *)
Lemma init_members_view c view p :
  init_members c (Some (rsm_protocol.OK, view ++ [p])) = Ret (true, RsmClient p view).
Proof.
  unfold init_members. cbn. rewrite last_snoc. by rewrite removelast_last.
Qed.

(** The member list a client asks for does not help it either.  The
    list a server sends is the whole view followed by the primary, and the
    client drops only the last entry, so the primary is among the known
    members and its failure is undefined behaviour at once. *)
Theorem refreshed_client_fails c view p :
  p ∈ view →
  ∃ c', init_members c (Some (rsm_protocol.OK, view ++ [p])) = Ret (true, c') ∧
    rcl_primary c' = p ∧ primary_failure c' = Fail UndefinedBehaviour.
Proof.
  intros Hp. rewrite init_members_view. eexists. split; [done|]. split; [done|].
  unfold primary_failure. cbn. by rewrite erase_primary_ub.
Qed.

Lemma refreshed_client_fails_witness :
  ∃ c', init_members (RsmClient "a" []) (Some (rsm_protocol.OK, ["a"; "b"] ++ ["a"])) = Ret (true, c') ∧
    rcl_primary c' = "a" ∧ primary_failure c' = Fail UndefinedBehaviour.
Proof. apply (refreshed_client_fails (RsmClient "a" []) ["a"; "b"] "a"). left. Defined.

(** Whenever the loop ends, it ends with the status OK and the reply of a
    call it made, to the node it then takes for the primary. *)
Theorem invoke_returns_reply {W} (net : client_net W) fuel c proc req w ret rep c' w' :
  invoke net fuel c proc req w = Ret (Some (ret, rep), c', w') →
  ret = rsm_client_protocol.OK ∧
  ∃ w1, cn_invoke net (rcl_primary c') proc req w1 = (Some (ret, rep), w').
Proof.
  revert c w. induction fuel as [|fuel IH]; intros c w H; cbn [invoke] in H; [done|].
  apply rbind_Ret in H as ([[p|c1] w1] & Ht & H); [|by eapply IH]. injection H as -> -> ->.
  unfold invoke_turn in Ht.
  destruct (cn_invoke net (rcl_primary c') proc req w) as [[[ret1 rep1]|] w2] eqn:E.
  2: { by apply rbind_Ret in Ht as (? & _ & ?). }
  destruct (Z.eqb_spec ret1 rsm_client_protocol.OK) as [->|].
  { injection Ht as <- <- <-. eauto. }
  destruct (_ =? _); [done|]. destruct (_ =? _).
  - destruct (cn_members net (rcl_primary c') w2) as [o w3].
    apply rbind_Ret in Ht as ([[|] c2] & _ & Ht); [done|]. by apply rbind_Ret in Ht as (? & _ & ?).
  - by apply rbind_Ret in Ht as (? & _ & ?).
Qed.

(** A cluster that has settled on the primary [good]: [good] answers, or is
    busy at most [patience w] more times; every other node says that it is not
    the primary and sends the members as [client_members] lists them, the
    primary last. *)
Record settled {W} (net : client_net W) (proc : Z) (req good : string) (patience : W → nat) : Prop := Settled {
  settled_primary : ∀ w, ∃ ret rep w', cn_invoke net good proc req w = (Some (ret, rep), w') ∧
    (ret = rsm_client_protocol.OK ∨
     ret = rsm_client_protocol.BUSY ∧ (patience w' < patience w)%nat);
  settled_others : ∀ n w, n ≠ good → ∃ rep w1 view w2,
    cn_invoke net n proc req w = (Some (rsm_client_protocol.NOTPRIMARY, rep), w1) ∧
    cn_members net n w1 = (Some (rsm_protocol.OK, view ++ [good]), w2) ∧
    (patience w2 ≤ patience w)%nat }.

Lemma invoke_at_primary {W} (net : client_net W) proc req good patience fuel c w :
  settled net proc req good patience → rcl_primary c = good → (patience w < fuel)%nat →
  ∃ rep w1 w', invoke net fuel c proc req w = Ret (Some (rsm_client_protocol.OK, rep), c, w') ∧
    cn_invoke net good proc req w1 = (Some (rsm_client_protocol.OK, rep), w').
Proof.
  intros Hs Hc. revert w. induction fuel as [|fuel IH]; intros w Hf; [lia|]. cbn [invoke].
  unfold invoke_turn. rewrite Hc.
  destruct (settled_primary _ _ _ _ _ Hs w) as (ret & rep & w' & E & Hret). rewrite E.
  destruct Hret as [->|[-> Hp]]; cbn [Z.eqb rbind].
  - by exists rep, w, w'.
  - apply IH. lia.
Qed.

(** A client reaches a cluster that has settled.  Whatever node it takes
    for the primary, [invoke] finds the real one by a single redirection,
    repeats the request while that one is busy, and returns the status OK
    with a reply that it gave, without ever running the code for a failed
    primary; two turns more than the number of busy answers are enough. *)
Theorem invoke_answers {W} (net : client_net W) proc req good patience fuel c w :
  settled net proc req good patience → (patience w + 2 ≤ fuel)%nat →
  ∃ rep w1 c' w',
    invoke net fuel c proc req w = Ret (Some (rsm_client_protocol.OK, rep), c', w') ∧
    cn_invoke net good proc req w1 = (Some (rsm_client_protocol.OK, rep), w') ∧
    rcl_primary c' = good.
Proof.
  intros Hs Hf. destruct (decide (rcl_primary c = good)) as [Hc|Hne].
  - destruct (invoke_at_primary net proc req good patience fuel c w Hs Hc) as (rep & w1 & w' & E & H); [lia|].
    by exists rep, w1, c, w'.
  - destruct (settled_others _ _ _ _ _ Hs _ w Hne) as (r & w1 & view & w2 & E & Em & Hp).
    destruct fuel as [|fuel]; [lia|].
    destruct (invoke_at_primary net proc req good patience fuel (RsmClient good view) w2 Hs)
      as (rep & w3 & w' & Ei & H); [done|lia|].
    exists rep, w3, (RsmClient good view), w'. split; [|done]. cbn [invoke]. unfold invoke_turn.
    rewrite E. cbn -[init_members]. rewrite Em. by rewrite init_members_view.
Qed.

(** Node "b" is the primary and is busy until the clock strikes three. *)
Definition demo_client_net : client_net nat :=
  ClientNet (λ n _ req t,
      (Some (if bool_decide (n = "b")
             then if (t <? 3)%nat then (rsm_client_protocol.BUSY, "") else (rsm_client_protocol.OK, req)
             else (rsm_client_protocol.NOTPRIMARY, "")), S t))
    (λ _ t, (Some (rsm_protocol.OK, ["a"; "b"; "b"]), t)).

Lemma demo_client_settled : settled demo_client_net 1 "q" "b" (λ t, 3 - t)%nat.
Proof.
  split.
  - intros t. cbn [cn_invoke demo_client_net]. rewrite bool_decide_eq_true_2 by done.
    destruct (Nat.ltb_spec t 3); do 3 eexists; (split; [done|]); [right; split; [done|lia]|by left].
  - intros n t Hn. cbn. rewrite bool_decide_eq_false_2 by done.
    exists "", (S t), ["a"; "b"], (S t). split_and!; [done|done|lia].
Qed.

Lemma invoke_answers_witness :
  ∃ rep w1 c' w',
    invoke demo_client_net 5 (RsmClient "a" []) 1 "q" 0%nat
      = Ret (Some (rsm_client_protocol.OK, rep), c', w') ∧
    cn_invoke demo_client_net "b" 1 "q" w1 = (Some (rsm_client_protocol.OK, rep), w') ∧
    rcl_primary c' = "b".
Proof.
  apply (invoke_answers demo_client_net 1 "q" "b" (λ t, 3 - t)%nat 5 (RsmClient "a" []) 0%nat).
  - exact demo_client_settled.
  - cbn. lia.
Defined.
