(* ===== verification/LockServerRsm.v ===== *)
(** * The replicated lock server (lock_server_cache_rsm.cc, lock_server_cache_rsm.h)

    Each lock has a queue of clients; the client at its head holds the lock
    or is about to be told to retry.  The server is the object the replicated
    state machine executes, so its state can be marshalled and unmarshalled. *)

From S2P Require Import Prelude Marshall Protocols Stubs Paxos Handle Config Rsm.

Record lock_server := LockServer {
  ls_nacquire : Z;
  ls_locks : gmap Z bool;
  ls_lock_client_list : gmap Z (list string);
  ls_client_lock_id : gmap Z (gmap Z Z) }.

Definition lock_server_new : lock_server := LockServer 0 ∅ ∅ ∅.

(** ** Requests *)

(** [client_lock_id\[clt\]\[lid\]], which creates what is missing. *)
Definition lock_id_ref (m : gmap Z (gmap Z Z)) (clt lid : Z) : Z * gmap Z (gmap Z Z) :=
  let '(inner, m) := map_ref ∅ m clt in
  let '(x, inner) := map_ref 0 inner lid in
  (x, <[clt := inner]> m).

(** The position of [dst] in the queue, or -1. *)
Fixpoint position_of (dst : string) (l : list string) (i : Z) : Z :=
  match l with
  | [] => -1
  | x :: l => if bool_decide (x = dst) then i else position_of dst l (i + 1)
  end.

(** Which condition variable an operation broadcasts. *)
Inductive wakeup := WakeNone | WakeRevoker | WakeRetryer.

(** [acquire]: the status, the value of [r] and the thread that is woken. *)
Definition acquire (clt : Z) (lid : Z) (dst : string) (xid : Z) (r : Z) (s : lock_server)
    : res (Z * Z * wakeup * lock_server) :=
  (* the null check and the reads create the entry with value 0 *)
  let '(last, ids) := lock_id_ref (ls_client_lock_id s) clt lid in
  let s := LockServer (ls_nacquire s) (ls_locks s) (ls_lock_client_list s) ids in
  if xid <? last then Ret (lock_protocol.OK, r, WakeNone, s)
  else if xid =? last then Ret (lock_protocol.OK, r, WakeRevoker, s)
  else
    let nacquire := ls_nacquire s + 1 in
    let '(queue, lists) := map_ref [] (ls_lock_client_list s) lid in
    let position := position_of dst queue 0 in
    let queue' := if position <? 0 then queue ++ [dst] else queue in
    let position := if position <? 0 then Z.of_nat (length queue') - 1 else position in
    let lists := <[lid := queue']> lists in
    let wake := if 1 <? Z.of_nat (length queue') then WakeRevoker else WakeNone in
    if position =? 0
    then Ret (lock_protocol.OK, nacquire, wake, LockServer nacquire (<[lid := true]> (ls_locks s)) lists ids)
    else Ret (lock_protocol.RETRY, nacquire, wake, LockServer nacquire (ls_locks s) lists ids).

Definition release (clt : Z) (lid : Z) (dst : string) (xid : Z) (r : Z) (s : lock_server)
    : res (Z * Z * wakeup * lock_server) :=
  let r := ls_nacquire s in
  let '(last, ids) := lock_id_ref (ls_client_lock_id s) clt lid in
  let s := LockServer (ls_nacquire s) (ls_locks s) (ls_lock_client_list s) ids in
  if xid <? last then Ret (lock_protocol.OK, r, WakeNone, s)
  else if xid =? last then Ret (lock_protocol.OK, r, WakeRetryer, s)
  else
    let inner := default ∅ (ids !! clt) in
    let ids := <[clt := <[lid := xid]> inner]> ids in
    let '(queue, lists) := map_ref [] (ls_lock_client_list s) lid in
    match queue with
    | x :: rest =>
        if bool_decide (x = dst) then
          Ret (lock_protocol.OK, r, WakeRetryer,
               LockServer (ls_nacquire s - 1) (<[lid := false]> (ls_locks s)) (<[lid := rest]> lists) ids)
        else Ret (lock_protocol.OK, r, WakeRetryer,
                  LockServer (ls_nacquire s - 1) (ls_locks s) lists ids)
    | [] => Ret (lock_protocol.OK, r, WakeRetryer,
                 LockServer (ls_nacquire s - 1) (ls_locks s) lists ids)
    end.

Definition stat (lid : Z) (r : Z) (s : lock_server) : res (Z * Z * lock_server) :=
  Ret (lock_protocol.OK, ls_nacquire s, s).

(** ** The threads *)

Section threads.
Context {W : Type} (call : Z → string → W → option Z * W).

(** The loop over [locks] of a turn of [revoker] ([held] is [true], [least]
    is 1) or [retryer] ([held] is [false], [least] is 0): the first client of
    each lock with that status and more than [least] clients gets a message.
    [call] is the outcome of the RPC, [None] when the client cannot be bound
    and the null pointer is called through. *)
Fixpoint notify_each (held : bool) (least : Z) (entries : list (Z * bool))
    (lists : gmap Z (list string)) (w : W) : res (gmap Z (list string) * W) :=
  match entries with
  | [] => Ret (lists, w)
  | (lid, b) :: entries =>
      if Bool.eqb b held then
        let '(vec, lists) := map_ref [] lists lid in
        if least <? Z.of_nat (length vec) then
          match vec with
          | [] => Fail UndefinedBehaviour
          | client_dst :: _ =>
              match call lid client_dst w with
              | (None, _) => Fail UndefinedBehaviour
              | (Some ret, w) =>
                  VERIFY (ret =? rlock_protocol.OK);;
                  notify_each held least entries lists w
              end
          end
        else notify_each held least entries lists w
      else notify_each held least entries lists w
  end.

Definition set_lists (s : lock_server) (lists : gmap Z (list string)) : lock_server :=
  LockServer (ls_nacquire s) (ls_locks s) lists (ls_client_lock_id s).

(** One turn of the loop of [revoker]. *)
Definition revoker (amiprimary : bool) (s : lock_server) (w : W) : res (lock_server * W) :=
  if amiprimary then
    '(lists, w) ← notify_each true 1 (map_entries (ls_locks s)) (ls_lock_client_list s) w;
    Ret (set_lists s lists, w)
  else Ret (s, w).

(** One turn of the loop of [retryer]. *)
Definition retryer (amiprimary : bool) (s : lock_server) (w : W) : res (lock_server * W) :=
  if amiprimary then
    '(lists, w) ← notify_each false 0 (map_entries (ls_locks s)) (ls_lock_client_list s) w;
    Ret (set_lists s lists, w)
  else Ret (s, w).
End threads.

(** ** State transfer *)

(** The keys of the maps are [ullong] on the wire and [Z] in the maps. *)
#[local] Instance ullong_eq_dec : EqDecision ullong := (_ : EqDecision Z).
#[local] Instance ullong_countable : Countable ullong := (_ : Countable Z).

(** The clients with their lock numbers: a client, then its map. *)
Fixpoint put_clients (m : marshall) (l : list (Z * gmap Z Z)) : res marshall :=
  match l with
  | [] => Ret m
  | (clt, inner) :: l =>
      m ← put (A:=int) m clt;
      m ← put_map (K:=ullong) (V:=ullong) m (map_entries inner);
      put_clients m l
  end.

Definition marshal_locks (fill : ascii) (s : lock_server) : res string :=
  m ← put_map (K:=ullong) (V:=list string) (marshall_new fill) (map_entries (ls_lock_client_list s));
  m ← put_map (K:=ullong) (V:=bool) m (map_entries (ls_locks s));
  let clients := map_entries (ls_client_lock_id s) in
  m ← put (A:=uint) m (u32 (Z.of_nat (length clients)));
  m ← put_clients m clients;
  m_str m.

Definition client_ids (d : gmap Z (gmap Z Z)) (clt : Z) : gmap Z Z := default ∅ (d !! clt).
Definition set_client_ids (d : gmap Z (gmap Z Z)) (clt : Z) (inner : gmap Z Z) : gmap Z (gmap Z Z) :=
  <[clt := inner]> d.

Fixpoint get_clients (n : nat) (u : unmarshall) (d : gmap Z (gmap Z Z))
    : res (gmap Z (gmap Z Z) * unmarshall) :=
  match n with
  | O => Ret (d, u)
  | S n =>
      '(clt, u) ← get (A:=int) u 0;
      '(k, u) ← get (A:=uint) u 0;
      '(inner, u) ← get_entries (K:=ullong) (V:=ullong) 0 0 (Z.to_nat k) u (client_ids d clt);
      get_clients n u (if k =? 0 then d else set_client_ids d clt inner)
  end.

(** The entries are added to what the maps hold; [nacquire] is not part of
    the state. *)
Definition unmarshal_locks (fill : ascii) (state : string) (s : lock_server) : res lock_server :=
  let u := take_content fill state in
  '(n, u) ← get (A:=uint) u 0;
  '(lists, u) ← get_entries (K:=ullong) (V:=list string) 0 [] (Z.to_nat n) u (ls_lock_client_list s);
  '(n, u) ← get (A:=uint) u 0;
  '(locks, u) ← get_entries (K:=ullong) (V:=bool) 0 false (Z.to_nat n) u (ls_locks s);
  '(n, u) ← get (A:=uint) u 0;
  '(ids, u) ← get_clients (Z.to_nat n) u (ls_client_lock_id s);
  Ret (LockServer (ls_nacquire s) locks lists ids).

#[export] Instance lock_server_transfer : StateTransfer lock_server :=
  {| marshal_state := marshal_locks "000"%char; unmarshal_state := unmarshal_locks "000"%char |}.

(** ** Mutual exclusion *)

Definition queue_of (s : lock_server) (lid : Z) : list string := default [] (ls_lock_client_list s !! lid).
Definition held (s : lock_server) (lid : Z) : bool := default false (ls_locks s !! lid).
(** The number of the last release of the client for the lock. *)
Definition last_release (s : lock_server) (clt lid : Z) : Z :=
  default 0 (default ∅ (ls_client_lock_id s !! clt) !! lid).

Lemma lock_id_ref_spec m clt lid :
  (lock_id_ref m clt lid).1 = default 0 (default ∅ (m !! clt) !! lid) ∧
  ∀ c l, default 0 (default ∅ ((lock_id_ref m clt lid).2 !! c) !! l)
         = default 0 (default ∅ (m !! c) !! l).
Proof.
  unfold lock_id_ref, map_ref. split.
  - destruct (m !! clt) as [i|]; simpl; [destruct (i !! lid)|]; done.
  - intros c l. destruct (m !! clt) as [i|] eqn:E; simpl.
    + destruct (i !! lid) as [x|] eqn:E2; simpl;
        (destruct (decide (clt = c)) as [<-|]; [rewrite lookup_insert_eq|by rewrite lookup_insert_ne]);
        rewrite E; simpl; [done|].
      destruct (decide (lid = l)) as [<-|]; [by rewrite lookup_insert_eq, E2|by rewrite lookup_insert_ne].
    + rewrite lookup_empty; simpl.
      destruct (decide (clt = c)) as [<-|]; [rewrite lookup_insert_eq|by rewrite !lookup_insert_ne].
      rewrite E; simpl. rewrite lookup_empty.
      destruct (decide (lid = l)) as [<-|]; [by rewrite lookup_insert_eq|by rewrite lookup_insert_ne].
Qed.

Lemma position_of_range dst l i :
  0 ≤ i →
  (position_of dst l i = -1 ∧ dst ∉ l) ∨
  (i ≤ position_of dst l i ∧ l !! Z.to_nat (position_of dst l i - i) = Some dst).
Proof.
  revert i. induction l as [|x l IH]; intros i Hi; simpl; [left; set_solver|].
  case_bool_decide as E; [right; subst; split; [lia|by rewrite Z.sub_diag]|].
  destruct (IH (i + 1)) as [[-> ?]|[? Hl]]; [lia|left; set_solver|right].
  split; [lia|]. replace (Z.to_nat (position_of dst l (i + 1) - i))
    with (S (Z.to_nat (position_of dst l (i + 1) - (i + 1)))) by lia. done.
Qed.

Lemma position_of_head dst l :
  (position_of dst l 0 =? 0) = bool_decide (head l = Some dst).
Proof.
  destruct l as [|x l]; simpl; [done|].
  destruct (decide (x = dst)) as [->|Hne]; [by rewrite !bool_decide_eq_true_2|].
  rewrite !bool_decide_eq_false_2 by congruence.
  destruct (position_of_range dst l (0 + 1)) as [[E _]|[E _]]; lia.
Qed.

(** The queue after [dst] asked for the lock. *)
Definition enqueue (dst : string) (q : list string) : list string :=
  if bool_decide (dst ∈ q) then q else q ++ [dst].

Lemma enqueue_position dst q :
  let p := position_of dst q 0 in
  let q' := if p <? 0 then q ++ [dst] else q in
  q' = enqueue dst q ∧
  ((if p <? 0 then Z.of_nat (length q') - 1 else p) =? 0) = bool_decide (head q' = Some dst).
Proof.
  simpl. unfold enqueue.
  destruct (position_of_range dst q 0) as [[E Hq]|[Hp Hl]]; [lia| |].
  - rewrite E, bool_decide_eq_false_2 by done. simpl. split; [done|].
    destruct q as [|x q]; simpl; [by rewrite bool_decide_eq_true_2|].
    rewrite bool_decide_eq_false_2 by set_solver. rewrite length_app; simpl. lia.
  - replace (position_of dst q 0 <? 0) with false by lia.
    rewrite bool_decide_eq_true_2 by (by eapply list_elem_of_lookup_2).
    split; [done|apply position_of_head].
Qed.

Lemma lookup_insert_default {V} (d v : V) (m : gmap Z V) k j :
  default d (<[k := v]> m !! j) = if decide (k = j) then v else default d (m !! j).
Proof. destruct (decide (k = j)) as [<-|]; [by rewrite lookup_insert_eq|by rewrite lookup_insert_ne]. Qed.

(** [acquire] with a number above the client's last release puts the client
    in the queue, and grants the lock exactly to the head of the queue. *)
Lemma acquire_fresh clt lid dst xid r s :
  last_release s clt lid < xid →
  let q := enqueue dst (queue_of s lid) in
  ∃ wake s',
    acquire clt lid dst xid r s =
      Ret (if bool_decide (head q = Some dst) then lock_protocol.OK else lock_protocol.RETRY,
           ls_nacquire s + 1, wake, s') ∧
    (∀ l, queue_of s' l = if decide (lid = l) then q else queue_of s l) ∧
    (∀ l, held s' l = if bool_decide (lid = l ∧ head q = Some dst) then true else held s l) ∧
    (∀ c l, last_release s' c l = last_release s c l).
Proof.
  intros Hx q. unfold acquire.
  destruct (lock_id_ref_spec (ls_client_lock_id s) clt lid) as [Hlast Hids].
  destruct (lock_id_ref (ls_client_lock_id s) clt lid) as [last ids]; simpl in *.
  unfold last_release in Hx. rewrite <- Hlast in Hx.
  replace (xid <? last) with false by lia. replace (xid =? last) with false by lia.
  pose proof (map_ref_fst [] (ls_lock_client_list s) lid) as Hq.
  pose proof (map_ref_snd_default [] (ls_lock_client_list s) lid) as Hl.
  destruct (map_ref [] (ls_lock_client_list s) lid) as [queue lists]; simpl in *.
  destruct (enqueue_position dst queue) as [Eq Ep]. rewrite Ep. rewrite Eq in *. clear Eq Ep.
  assert (enqueue dst queue = q) as -> by (unfold q, queue_of; by rewrite Hq).
  case_bool_decide as Hh; do 2 eexists; (split; [done|]); repeat split;
    intros; unfold queue_of, held, last_release; simpl; rewrite ?lookup_insert_default; try done;
    repeat case_decide; repeat case_bool_decide; try naive_solver.
Qed.

(** [acquire] with a number at or below the client's last release answers
    [OK] and leaves the queues and the locks as they are. *)
Lemma acquire_old clt lid dst xid r s :
  xid ≤ last_release s clt lid →
  ∃ wake s', acquire clt lid dst xid r s = Ret (lock_protocol.OK, r, wake, s') ∧
    ls_locks s' = ls_locks s ∧ ls_lock_client_list s' = ls_lock_client_list s ∧
    (∀ c l, last_release s' c l = last_release s c l).
Proof.
  intros Hx. unfold acquire.
  destruct (lock_id_ref_spec (ls_client_lock_id s) clt lid) as [Hlast Hids].
  destruct (lock_id_ref (ls_client_lock_id s) clt lid) as [last ids]; simpl in *.
  unfold last_release in Hx. rewrite <- Hlast in Hx.
  destruct (xid <? last) eqn:E; [eauto 10|]. replace (xid =? last) with true by lia. eauto 10.
Qed.

(** [release] removes the client from the head of the queue, if it is there
    and the number is new; nothing else moves. *)
Lemma release_spec clt lid dst xid r s :
  let fresh := bool_decide (last_release s clt lid < xid) in
  let drop := bool_decide (last_release s clt lid < xid ∧ head (queue_of s lid) = Some dst) in
  ∃ n wake s',
    release clt lid dst xid r s = Ret (lock_protocol.OK, ls_nacquire s, wake, s') ∧
    (∀ l, queue_of s' l = if decide (lid = l ∧ drop = true) then tail (queue_of s l) else queue_of s l) ∧
    (∀ l, held s' l = if decide (lid = l ∧ drop = true) then false else held s l) ∧
    (∀ c l, last_release s' c l =
       if decide (c = clt ∧ l = lid ∧ fresh = true) then xid else last_release s c l) ∧
    ls_nacquire s' = n ∧ (fresh = true → wake = WakeRetryer) ∧
    (drop = true → ls_locks s' !! lid = Some false).
Proof.
  intros fresh drop. unfold release.
  destruct (lock_id_ref_spec (ls_client_lock_id s) clt lid) as [Hlast Hids].
  destruct (lock_id_ref (ls_client_lock_id s) clt lid) as [last ids] eqn:Er; simpl in *.
  assert (Hf : fresh = (last <? xid)).
  { unfold fresh, last_release. rewrite <- Hlast. case_bool_decide; lia. }
  destruct (decide (last < xid)) as [Hx|Hx]; last first.
  { assert (fresh = false) as Ef by lia. assert (drop = false) as Ed.
    { unfold drop, fresh in *. rewrite bool_decide_eq_false in *. naive_solver. }
    rewrite Ef, Ed. destruct (xid <? last) eqn:E; [|replace (xid =? last) with true by lia];
      do 3 eexists; (split; [done|]); repeat split; intros; try done;
      repeat case_decide; try naive_solver; apply Hids. }
  assert (fresh = true) as Ef by lia.
  replace (xid <? last) with false by lia. replace (xid =? last) with false by lia.
  pose proof (map_ref_fst [] (ls_lock_client_list s) lid) as Hq.
  pose proof (map_ref_snd_default [] (ls_lock_client_list s) lid) as Hl.
  destruct (map_ref [] (ls_lock_client_list s) lid) as [queue lists]; simpl in *.
  assert (Hd : drop = bool_decide (head queue = Some dst)).
  { unfold drop, fresh in *. rewrite bool_decide_eq_true in Ef. apply bool_decide_ext.
    unfold queue_of. rewrite Hq. naive_solver. }
  assert (Hi : ∀ c l, default 0
    (default ∅ (<[clt:=<[lid:=xid]> (default ∅ (ids !! clt))]> ids !! c) !! l) =
    if decide (c = clt ∧ l = lid ∧ fresh = true) then xid else last_release s c l).
  { intros c l. rewrite Ef. unfold last_release. rewrite lookup_insert_default, <- Hids.
    destruct (decide (clt = c)) as [<-|]; [|by rewrite decide_False by naive_solver].
    destruct (decide (lid = l)) as [<-|].
    - rewrite lookup_insert_eq, decide_True by done. done.
    - rewrite lookup_insert_ne by done. by rewrite decide_False by naive_solver. }
  rewrite Hd. assert (queue_of s lid = queue) as Hql by (unfold queue_of; done).
  destruct queue as [|x rest]; simpl in *.
  - do 3 eexists. split; [done|]. simpl.
    repeat split; intros; try done; try apply Hi; unfold queue_of, held; simpl.
    all: rewrite decide_False by naive_solver; done || apply Hl.
  - destruct (decide (x = dst)) as [->|Hne].
    + rewrite !bool_decide_eq_true_2 by done. do 3 eexists. split; [done|]. simpl.
      repeat split; intros; try done; try apply Hi; try apply lookup_insert_eq;
        unfold queue_of, held; simpl; rewrite lookup_insert_default; repeat case_decide; try naive_solver; subst.
      unfold queue_of in Hql. by rewrite Hql. 
    + rewrite !bool_decide_eq_false_2 by congruence. do 3 eexists. split; [done|]. simpl.
      repeat split; intros; try done; try apply Hi; unfold queue_of, held; simpl.
      all: rewrite decide_False by naive_solver; done || apply Hl.
Qed.

(** ** The state that is transferred *)

(** Reading the entries of a map into an empty one gives the map back. *)
Lemma insert_all_entries {V} (m : gmap Z V) : insert_all ∅ (map_entries m) = m.
Proof.
  apply map_eq. intros k. destruct (m !! k) as [v|] eqn:E.
  - apply (insert_all_lookup (K:=Z)); [apply map_entries_NoDup|by apply map_entries_spec].
  - rewrite (insert_all_lookup_None (K:=Z)); [apply lookup_empty|].
    intros Hin. apply list_elem_of_fmap in Hin as ([k' v] & -> & Hin).
    apply map_entries_spec in Hin. simpl in E. congruence.
Qed.

Abbreviation enc_ids := (enc_map (K:=ullong) (V:=ullong)).
Abbreviation enc_lists := (enc_map (K:=ullong) (V:=list string)).
Abbreviation enc_locks := (enc_map (K:=ullong) (V:=bool)).

Definition enc_client (e : Z * gmap Z Z) : list ascii := be32 (u32 e.1) ++ enc_ids (map_entries e.2).
Definition enc_clients (l : list (Z * gmap Z Z)) : list ascii := mjoin (enc_client <$> l).
Definition wf_client (e : Z * gmap Z Z) : Prop :=
  in_s32 e.1 ∧ wf_entries (K:=ullong) (V:=ullong) (map_entries e.2).

Definition enc_server (s : lock_server) : list ascii :=
  enc_lists (map_entries (ls_lock_client_list s)) ++ enc_locks (map_entries (ls_locks s)) ++
  be32 (Z.of_nat (length (map_entries (ls_client_lock_id s)))) ++
  enc_clients (map_entries (ls_client_lock_id s)).

(** What the writer needs: keys and numbers in their ranges, and a state
    below the 2^30 bytes the marshaller's 32-bit sizes are good for. *)
Definition server_transferable (s : lock_server) : Prop :=
  wf_entries (K:=ullong) (V:=list string) (map_entries (ls_lock_client_list s)) ∧
  wf_entries (K:=ullong) (V:=bool) (map_entries (ls_locks s)) ∧
  Forall wf_client (map_entries (ls_client_lock_id s)) ∧
  Z.of_nat (size (ls_client_lock_id s)) < 2 ^ 31 ∧ fits (enc_server s).

(** Equal up to [nacquire] and to clients with no numbers at all. *)
Definition same_locks (s t : lock_server) : Prop :=
  ls_locks s = ls_locks t ∧ ls_lock_client_list s = ls_lock_client_list t ∧
  ∀ clt, client_ids (ls_client_lock_id s) clt = client_ids (ls_client_lock_id t) clt.

#[export] Instance same_locks_equiv : Equivalence same_locks.
Proof. split; [split; auto|intros s t (? & ? & ?); by repeat split|]. intros s t u (? & ? & ?) (? & ? & ?).
  split; [congruence|]. split; [congruence|]. intros c. congruence.
Qed.

Lemma enc_clients_cons clt inner l :
  enc_clients ((clt, inner) :: l) = enc (A:=int) clt ++ enc_ids (map_entries inner) ++ enc_clients l.
Proof. unfold enc_clients, enc_client. cbn -[be32 enc_map]. by rewrite (assoc_L (++)). Qed.

Lemma put_clients_rep m h c l :
  rep m h c → Forall wf_client l → fits (c ++ enc_clients l) →
  ∃ m', put_clients m l = Ret m' ∧ rep m' h (c ++ enc_clients l).
Proof.
  revert m c. induction l as [|[clt inner] l IH]; intros m c Hr Hv Hf.
  { cbn. rewrite app_nil_r. eauto. }
  apply Forall_cons_1 in Hv as [[Hc Hi] Hv]. rewrite enc_clients_cons in *. cbn [put_clients].
  destruct (put_next (A:=int) m h c clt (enc_ids (map_entries inner) ++ enc_clients l) Hr) as (m1 & -> & R1 & F1); [exact Hc|exact Hf|]. cbn [rbind].
  rewrite (assoc_L (++)) in F1.
  destruct (put_map_rep (K:=ullong) (V:=ullong) m1 h _ (map_entries inner) R1 Hi) as (m2 & -> & R2);
    [by eapply fits_app_l|].
  cbn [rbind]. destruct (IH m2 _ R2 Hv F1) as (m3 & -> & R3).
  exists m3. split; [done|]. rewrite <- !(assoc_L (++)) in R3. exact R3.
Qed.

(** Reading the clients adds their numbers to the maps. *)
Lemma get_clients_reads l u r d :
  reads u (enc_clients l ++ r) → Forall wf_client l → NoDup l.*1 →
  (∀ clt, clt ∈ l.*1 → client_ids d clt = ∅) →
  ∃ d' u', get_clients (length l) u d = Ret (d', u') ∧ reads u' r ∧
    (∀ clt inner, (clt, inner) ∈ l → client_ids d' clt = inner) ∧
    (∀ clt, clt ∉ l.*1 → client_ids d' clt = client_ids d clt).
Proof.
  revert u d. induction l as [|[clt inner] l IH]; intros u d Hr Hv Hnd He.
  { exists d, u. repeat split; [done|]. intros ? ? H. by apply not_elem_of_nil in H. }
  apply Forall_cons_1 in Hv as [[Hc Hi] Hv]. rewrite fmap_cons in Hnd.
  apply NoDup_cons in Hnd as [Hn Hnd].
  rewrite enc_clients_cons in Hr. cbn [length get_clients]. rewrite <- !(assoc_L (++)) in Hr.
  destruct (get_ok (A:=int) u _ clt 0 Hr Hc) as (u1 & -> & R1). cbn [rbind].
  destruct Hi as [Hi Hl]. unfold enc_map in R1. rewrite <- (assoc_L (++)) in R1.
  cbn [fst snd] in *.
  change (get (A:=uint) u1 0) with (get_uint u1 0).
  destruct (get_uint_reads u1 _ 0 _ R1) as (u2 & -> & R2); [wrap_unfold; lia|].
  cbn [rbind]. rewrite Nat2Z.id.
  destruct (get_entries_reads (K:=ullong) (V:=ullong) 0 0 u2 _ _ (client_ids d clt) R2 Hi) as (u3 & -> & R3).
  cbn [rbind]. set (d1 := if _ =? 0 then d else _).
  assert (Hd1 : ∀ c, client_ids d1 c = if decide (c = clt) then inner else client_ids d c).
  { intros c. unfold d1. clear d1. rewrite fmap_cons in He.
    assert (client_ids d clt = ∅) as Ed by (apply He; set_solver).
    pose proof (insert_all_entries inner) as Ei.
    rewrite length_map_entries. destruct (_ =? 0) eqn:E.
    - case_decide; [subst c|done]. rewrite Ed.
      symmetry. apply map_size_empty_inv. apply Z.eqb_eq in E. apply Nat2Z.inj. exact E.
    - unfold set_client_ids, client_ids. rewrite lookup_insert_default.
      repeat case_decide; try congruence. fold (client_ids d clt). rewrite Ed. exact Ei. }
  destruct (IH u3 d1 R3 Hv Hnd) as (d' & u' & -> & R' & H1 & H2).
  { intros c Hin. rewrite Hd1. case_decide; [by subst|]. apply He. set_solver. }
  exists d', u'. repeat split; [done| |].
  - intros c i Hin. apply elem_of_cons in Hin as [[= -> ->]|Hin]; [|by apply H1].
    rewrite H2, Hd1 by done. by rewrite decide_True.
  - intros c Hc'. apply not_elem_of_cons in Hc' as [? ?].
    rewrite H2, Hd1 by done. by rewrite decide_False.
Qed.

Lemma marshal_locks_enc fill s :
  server_transferable s → marshal_locks fill s = Ret (of_chars (enc_server s)).
Proof.
  intros (H1 & H2 & H3 & H4 & Hf). unfold marshal_locks, enc_server in *.
  destruct (put_map_rep (K:=ullong) (V:=list string) _ _ [] _ (marshall_new_rep fill) H1)
    as (m1 & -> & R1); [by eapply fits_app_l|].
  cbn [rbind]. rewrite app_nil_l, (assoc_L (++)) in *.
  destruct (put_map_rep (K:=ullong) (V:=bool) _ _ _ _ R1 H2) as (m2 & -> & R2); [by eapply fits_app_l|].
  cbn [rbind]. rewrite u32_id by (rewrite length_map_entries; wrap_unfold; lia).
  destruct (put_next (A:=uint) m2 _ _ (Z.of_nat (length (map_entries (ls_client_lock_id s))))
    (enc_clients (map_entries (ls_client_lock_id s))) R2)
    as (m3 & -> & R3 & F3);
    [change (in_u32 (Z.of_nat (length (map_entries (ls_client_lock_id s)))));
     rewrite length_map_entries; wrap_unfold; lia|exact Hf|].
  cbn [rbind].
  destruct (put_clients_rep _ _ _ _ R3 H3 F3) as (m4 & -> & R4). cbn [rbind].
  rewrite (m_str_rep _ _ _ R4). do 2 f_equal. by rewrite <- !(assoc_L (++)).
Qed.

Definition no_entries {V} : gmap Z V := ∅.

Lemma read_entries {V} `{MarshalOk V} (v0 : V) u r (m : gmap Z V) :
  reads u (enc_map (K:=ullong) (V:=V) (map_entries m) ++ r) →
  wf_entries (K:=ullong) (V:=V) (map_entries m) →
  ∃ n u1 u2, get (A:=uint) u 0 = Ret (n, u1) ∧
    get_entries (K:=ullong) (V:=V) 0 v0 (Z.to_nat n) u1 no_entries = Ret (m, u2) ∧ reads u2 r.
Proof.
  intros Hr [Hv Hl]. unfold enc_map in Hr. rewrite <- (assoc_L (++)) in Hr.
  destruct (get_uint_reads u _ 0 _ Hr) as (u1 & E1 & R1); [wrap_unfold; lia|].
  destruct (get_entries_reads (K:=ullong) (V:=V) 0 v0 u1 _ _ no_entries R1 Hv) as (u2 & E2 & R2).
  exists (Z.of_nat (length (map_entries m))), u1, u2. rewrite Nat2Z.id.
  split; [exact E1|]. split; [|done]. etransitivity; [exact E2|]. do 2 f_equal. apply insert_all_entries.
Qed.

Lemma lock_transfer_ok s s0 :
  server_transferable s → same_locks s0 lock_server_new →
  ∃ str s', marshal_locks "000" s = Ret str ∧ unmarshal_locks "000" str s0 = Ret s' ∧ same_locks s' s.
Proof.
  intros Ht (E1 & E2 & E3). exists (of_chars (enc_server s)).
  assert (∃ s', unmarshal_locks "000" (of_chars (enc_server s)) s0 = Ret s' ∧ same_locks s' s)
    as (s' & ? & ?); [|by eauto using marshal_locks_enc].
  destruct Ht as (H1 & H2 & H3 & H4 & Hf). unfold unmarshal_locks.
  pose proof (take_content_reads "000" _ Hf) as Hr. unfold enc_server in Hr at 2.
  rewrite E1, E2.
  change (ls_lock_client_list lock_server_new) with (no_entries (V:=list string)).
  change (ls_locks lock_server_new) with (no_entries (V:=bool)).
  destruct (read_entries (V:=list string) [] _ _ _ Hr H1) as (n1 & u1 & u2 & -> & G1 & R1).
  cbn [rbind]. rewrite G1. cbn [rbind].
  destruct (read_entries (V:=bool) false _ _ _ R1 H2) as (n2 & u3 & u4 & -> & G2 & R2).
  cbn [rbind]. rewrite G2. cbn [rbind].
  change (get (A:=uint) u4 0) with (get_uint u4 0).
  destruct (get_uint_reads u4 _ 0 _ R2) as (u5 & -> & R3);
    [rewrite length_map_entries; wrap_unfold; lia|].
  cbn [rbind]. rewrite Nat2Z.id. rewrite <- (app_nil_r (enc_clients _)) in R3.
  destruct (get_clients_reads _ _ _ (ls_client_lock_id s0) R3 H3) as (d' & u6 & -> & R4 & D1 & D2);
    [apply map_entries_NoDup|intros clt _; by rewrite E3|].
  cbn [rbind]. eexists. split; [done|]. split; [done|]. split; [done|]. intros clt. simpl.
  destruct (ls_client_lock_id s !! clt) as [i|] eqn:E.
  - rewrite (D1 clt i) by (by apply map_entries_spec). unfold client_ids. by rewrite E.
  - rewrite D2, E3; [unfold client_ids; by rewrite E|].
    intros Hin. apply list_elem_of_fmap in Hin as ([k v] & -> & Hin).
    apply map_entries_spec in Hin. simpl in *. congruence.
Qed.

(** The lock server keeps the promise the replicated state machine relies on. *)
#[export] Instance lock_server_transfer_ok : StateTransferOk lock_server := {|
  transferable := server_transferable;
  fresh_replica s := same_locks s lock_server_new;
  replica_equiv := same_locks;
  transfer_ok := lock_transfer_ok |}.

(** ** Clients and the server *)

(** The server with the clients that were told [OK] and have not called
    [release] since, by lock. *)
Record lock_world := LockWorld { lw_server : lock_server; lw_holders : gset (Z * string) }.

(** Requests arrive in any order, from any client, with repetitions.  An
    [acquire] whose number is not above the client's last release is an old
    one: its client waits for no answer.  The threads take turns at any time,
    and the state may move to a fresh replica. *)
Inductive lock_step : lock_world → lock_world → Prop :=
| step_acquire s h clt lid dst xid r ret n wake s' :
    last_release s clt lid < xid →
    acquire clt lid dst xid r s = Ret (ret, n, wake, s') →
    lock_step (LockWorld s h)
      (LockWorld s' (if ret =? lock_protocol.OK then {[ (lid, dst) ]} ∪ h else h))
| step_acquire_old s h clt lid dst xid r ret n wake s' :
    xid ≤ last_release s clt lid →
    acquire clt lid dst xid r s = Ret (ret, n, wake, s') →
    lock_step (LockWorld s h) (LockWorld s' h)
| step_release s h clt lid dst xid r ret n wake s' :
    release clt lid dst xid r s = Ret (ret, n, wake, s') →
    lock_step (LockWorld s h) (LockWorld s' (h ∖ {[ (lid, dst) ]}))
| step_revoker W (call : Z → string → W → option Z * W) primary w w' s h s' :
    revoker call primary s w = Ret (s', w') → lock_step (LockWorld s h) (LockWorld s' h)
| step_retryer W (call : Z → string → W → option Z * W) primary w w' s h s' :
    retryer call primary s w = Ret (s', w') → lock_step (LockWorld s h) (LockWorld s' h)
| step_transfer s h s0 str s' :
    transferable s → fresh_replica s0 →
    marshal_state s = Ret str → unmarshal_state str s0 = Ret s' →
    lock_step (LockWorld s h) (LockWorld s' h).

(** The threads create missing queues and change nothing else. *)
Lemma notify_each_lists {W} (call : Z → string → W → option Z * W) b least es lists w lists' w' :
  notify_each call b least es lists w = Ret (lists', w') →
  ∀ l, default [] (lists' !! l) = default [] (lists !! l).
Proof.
  revert lists w. induction es as [|[lid x] es IH]; intros lists w; simpl.
  { by intros [= <- <-]. }
  destruct (Bool.eqb x b); [|apply IH].
  pose proof (map_ref_snd_default [] lists lid) as Hl.
  destruct (map_ref [] lists lid) as [vec lists1]; simpl in Hl.
  assert (Hk : ∀ w0, notify_each call b least es lists1 w0 = Ret (lists', w') →
    ∀ l, default [] (lists' !! l) = default [] (lists !! l)).
  { intros w0 Hn l. rewrite <- Hl. by eapply IH. }
  destruct (least <? Z.of_nat (length vec)); [|apply Hk].
  destruct vec as [|d vec]; [done|]. destruct (call lid d w) as [[ret|] w1]; [|done].
  intros (_ & _ & Hn)%rbind_Ret. by eapply Hk.
Qed.

Definition exclusive (w : lock_world) : Prop :=
  ∀ lid d, (lid, d) ∈ lw_holders w →
    head (queue_of (lw_server w) lid) = Some d ∧ held (lw_server w) lid = true.

(** What leaves the queues and the locks alone preserves exclusion. *)
Lemma exclusive_same s s' h :
  (∀ l, queue_of s' l = queue_of s l) → (∀ l, held s' l = held s l) →
  exclusive (LockWorld s h) → exclusive (LockWorld s' h).
Proof. intros Hq Hl Hx lid d Hd. simpl. rewrite Hq, Hl. by apply Hx. Qed.

Lemma head_enqueue q d : q ≠ [] → head (enqueue d q) = head q.
Proof. unfold enqueue. case_bool_decide; [done|]. by destruct q. Qed.

Lemma step_exclusive w w' : lock_step w w' → exclusive w → exclusive w'.
Proof.
  destruct 1 as [s h clt lid dst xid r ret n wake s' Hx Ha|s h clt lid dst xid r ret n wake s' Hx Ha
    |s h clt lid dst xid r ret n wake s' Hr|W call p w w' s h s' Hr|W call p w w' s h s' Hr
    |s h s0 str s' Ht Hf Hm Hu]; intros Hex.
  - destruct (acquire_fresh clt lid dst xid r s Hx) as (wk & s1 & E & Q & L & _).
    rewrite E in Ha. injection Ha as <- <- <- <-.
    set (q := enqueue dst (queue_of s lid)) in *.
    assert (Hold : ∀ l d, (l, d) ∈ h → head (queue_of s1 l) = Some d ∧ held s1 l = true).
    { intros l d Hin. destruct (Hex l d Hin) as [Hh Hl]; simpl in *. rewrite Q, L.
      split; [|rewrite Hl; by destruct (bool_decide (lid = l ∧ head q = Some dst))]. destruct (decide (lid = l)) as [<-|]; [|done].
      unfold q. rewrite head_enqueue; [done|]. by intros E0; rewrite E0 in Hh. }
    intros l d Hin. simpl in *.
    destruct (decide (head q = Some dst)) as [Hh|Hh];
      [rewrite bool_decide_eq_true_2 in Hin by done|rewrite bool_decide_eq_false_2 in Hin by done];
      simpl in Hin; [|by apply Hold].
    apply elem_of_union in Hin as [[= -> ->]%elem_of_singleton|Hin]; [|by apply Hold].
    rewrite Q, L, decide_True, bool_decide_eq_true_2 by done. done.
  - destruct (acquire_old clt lid dst xid r s Hx) as (wk & s1 & E & Hl & Hq & _).
    rewrite E in Ha. injection Ha as <- <- <- <-. revert Hex.
    apply exclusive_same; intros l; unfold queue_of, held; by rewrite ?Hq, ?Hl.
  - destruct (release_spec clt lid dst xid r s) as (n1 & wk & s1 & E & Q & L & _).
    rewrite E in Hr. injection Hr as <- <- <- <-.
    intros l d Hin. simpl in *. apply elem_of_difference in Hin as [Hin Hne].
    destruct (Hex l d Hin) as [Hh Hl]; simpl in *. rewrite Q, L.
    match goal with |- context [decide ?P] => destruct (decide P) as [[<- Hc]|] end; [|done].
    apply bool_decide_eq_true in Hc as [_ Hc].
    assert (d = dst) as -> by congruence. set_solver.
  - unfold revoker in Hr. destruct p; [|by injection Hr as <- <-].
    apply rbind_Ret in Hr as ([lists w1] & Hn & [= <- <-]). revert Hex.
    apply exclusive_same; [|done]. intros l. by eapply notify_each_lists.
  - unfold retryer in Hr. destruct p; [|by injection Hr as <- <-].
    apply rbind_Ret in Hr as ([lists w1] & Hn & [= <- <-]). revert Hex.
    apply exclusive_same; [|done]. intros l. by eapply notify_each_lists.
  - destruct (transfer_ok s s0 Ht Hf) as (str1 & s1 & Em & Eu & Hl & Hq & _).
    rewrite Em in Hm. injection Hm as <-. rewrite Eu in Hu. injection Hu as <-. revert Hex.
    apply exclusive_same; intros l; unfold queue_of, held; by rewrite ?Hq, ?Hl.
Qed.

(** Mutual exclusion at the server.  However the requests of the clients,
    their repetitions, the turns of the revoker and retryer threads and state
    transfers to fresh replicas are interleaved, two clients that were told
    [OK] for the same lock and have not released it are the same client; it
    is at the head of the lock's queue and the lock is marked as held. *)
Theorem mutual_exclusion s h lid d1 d2 :
  rtc lock_step (LockWorld lock_server_new ∅) (LockWorld s h) →
  (lid, d1) ∈ h → (lid, d2) ∈ h →
  d1 = d2 ∧ head (queue_of s lid) = Some d1 ∧ held s lid = true.
Proof.
  intros Hr H1 H2. assert (Hex : exclusive (LockWorld s h)).
  { apply (rtc_ind_r exclusive (LockWorld lock_server_new ∅)) in Hr; [done| |].
    - intros l d Hin. simpl in Hin. set_solver.
    - intros w w' _ Hs Hx. by eapply step_exclusive. }
  destruct (Hex _ _ H1) as [E1 L], (Hex _ _ H2) as [E2 _]; simpl in *.
  split; [congruence|]. done.
Qed.

Definition demo_locks : lock_server :=
  match acquire 1 7 "a" 1 0 lock_server_new with Ret (_, _, _, s) => s | Fail _ => lock_server_new end.

Lemma mutual_exclusion_witness :
  "a" = "a" ∧ head (queue_of demo_locks 7) = Some "a" ∧ held demo_locks 7 = true.
Proof.
  apply (mutual_exclusion demo_locks {[ (7, "a") ]} 7 "a" "a"); [|set_solver..].
  apply rtc_once.
  assert (E : {[ (7, "a") ]} = (if 0 =? lock_protocol.OK then {[ (7, "a") ]} ∪ ∅ else ∅ : gset (Z * string)))
    by reflexivity.
  rewrite E. eapply (step_acquire _ _ 1 7 "a" 1 0); [vm_compute; done|reflexivity].
Defined.

(** ** The lock changes hands *)

(** The messages a turn of a thread has to send. *)
Definition targets (b : bool) (least : Z) (es : list (Z * bool)) (lists : gmap Z (list string))
    : list (Z * string) :=
  omap (λ e : Z * bool,
    let vec := default [] (lists !! e.1) in
    if Bool.eqb e.2 b && (least <? Z.of_nat (length vec)) then pair e.1 <$> head vec else None) es.

(** A network that logs the messages; [ans] gives the outcome of each. *)
Definition logged (ans : Z → string → option Z) (lid : Z) (d : string) (w : list (Z * string))
    : option Z * list (Z * string) := (ans lid d, w ++ [(lid, d)]).

Lemma targets_ext b least es l1 l2 :
  (∀ k, default [] (l1 !! k) = default [] (l2 !! k)) → targets b least es l1 = targets b least es l2.
Proof. intros H. apply list_omap_ext. induction es as [|e es IH]; constructor; [by rewrite H|done]. Qed.

(** One entry of the loop of a thread. *)
Lemma notify_each_cons {W} (call : Z → string → W → option Z * W) b least lid x es lists w :
  0 ≤ least →
  ∃ lists1, (∀ k, default [] (lists1 !! k) = default [] (lists !! k)) ∧
  match targets b least [(lid, x)] lists with
  | (l, d) :: _ =>
      l = lid ∧ notify_each call b least ((lid, x) :: es) lists w =
        match call lid d w with
        | (None, _) => Fail UndefinedBehaviour
        | (Some ret, w) => VERIFY (ret =? rlock_protocol.OK);; notify_each call b least es lists1 w
        end
  | [] => notify_each call b least ((lid, x) :: es) lists w = notify_each call b least es lists1 w
  end.
Proof.
  intros Hl. unfold targets. cbn -[Z.of_nat length Z.ltb].
  destruct (Bool.eqb x b); [|by exists lists].
  pose proof (map_ref_fst [] lists lid) as Hq.
  pose proof (map_ref_snd_default [] lists lid) as Hd.
  destruct (map_ref [] lists lid) as [vec lists1]; simpl in Hq, Hd.
  exists lists1. split; [done|]. rewrite <- Hq.
  destruct (least <? Z.of_nat (length vec)) eqn:E; simpl; [|done].
  destruct vec as [|d vec]; simpl in *; [lia|]. done.
Qed.

Lemma targets_cons b least lid x es lists :
  targets b least ((lid, x) :: es) lists = targets b least [(lid, x)] lists ++ targets b least es lists.
Proof. unfold targets. simpl. destruct (_ && _); [|done]. by destruct (head _). Qed.

(** When every client answers, a turn sends exactly its messages. *)
Lemma notify_each_sends ans b least es lists w :
  0 ≤ least → (∀ lid d, (lid, d) ∈ targets b least es lists → ans lid d = Some rlock_protocol.OK) →
  ∃ lists', notify_each (logged ans) b least es lists w = Ret (lists', w ++ targets b least es lists).
Proof.
  intros Hl. revert lists w. induction es as [|[lid x] es IH]; intros lists w Ha.
  { exists lists. simpl. by rewrite app_nil_r. }
  destruct (notify_each_cons (logged ans) b least lid x es lists w Hl) as (l1 & He & Hn).
  rewrite targets_cons in Ha |- *. rewrite <- (targets_ext b least es l1 lists He) in Ha |- *.
  destruct (targets b least [(lid, x)] lists) as [|[l d] ts] eqn:Et.
  - rewrite Hn. destruct (IH l1 w) as (l' & ->); [intros; apply Ha; set_solver|]. by exists l'.
  - assert (ts = []) as ->.
    { revert Et. unfold targets; simpl. destruct (_ && _); [destruct (head _)|]; naive_solver. }
    destruct Hn as [-> ->]. unfold logged at 1.
    rewrite (Ha lid d) by set_solver. cbn [VERIFY rbind]. change (rlock_protocol.OK =? rlock_protocol.OK) with true.
    cbn [VERIFY rbind]. destruct (IH l1 (w ++ [(lid, d)])) as (l' & ->); [intros; apply Ha; set_solver|].
    exists l'. by rewrite <- (assoc_L (++)).
Qed.

(** A client that cannot be bound stops the turn, and the server with it. *)
Lemma notify_each_fails ans b least es lists w lid d :
  0 ≤ least → (lid, d) ∈ targets b least es lists → ans lid d = None →
  ∃ e, notify_each (logged ans) b least es lists w = Fail e.
Proof.
  intros Hl. revert lists w. induction es as [|[k x] es IH]; intros lists w Hin Ha.
  { by apply not_elem_of_nil in Hin. }
  destruct (notify_each_cons (logged ans) b least k x es lists w Hl) as (l1 & He & Hn).
  rewrite targets_cons, <- (targets_ext b least es l1 lists He) in Hin.
  destruct (targets b least [(k, x)] lists) as [|[l d1] ts] eqn:Et.
  - rewrite Hn. by apply IH.
  - assert (ts = []) as ->.
    { revert Et. unfold targets; simpl. destruct (_ && _); [destruct (head _)|]; naive_solver. }
    destruct Hn as [-> ->]. unfold logged at 1.
    apply elem_of_app in Hin as [[= -> ->]%list_elem_of_singleton|Hin]; [rewrite Ha; by eauto|].
    destruct (ans k d1) as [ret|]; [|by eauto].
    destruct (ret =? rlock_protocol.OK); cbn [VERIFY rbind]; [by apply IH|by eauto].
Qed.

Lemma target_of s lid b least q d :
  ls_locks s !! lid = Some b → queue_of s lid = d :: q → least < Z.of_nat (S (length q)) →
  (lid, d) ∈ targets b least (map_entries (ls_locks s)) (ls_lock_client_list s).
Proof.
  intros Hl Hq Hn. unfold targets. apply list_elem_of_omap. exists (lid, b).
  split; [by apply map_entries_spec|]. cbn -[Z.of_nat length Z.ltb]. unfold queue_of in Hq. rewrite Hq, eqb_reflx.
  cbn [length]. replace (least <? Z.of_nat (S (length q))) with true by lia. done.
Qed.

(** Every client can be bound and answers [OK]. *)
Definition all_answer (_ : Z) (_ : string) : option Z := Some rlock_protocol.OK.

Lemma retryer_sends ans s :
  (∀ lid d, (lid, d) ∈ targets false 0 (map_entries (ls_locks s)) (ls_lock_client_list s) →
    ans lid d = Some rlock_protocol.OK) →
  ∃ s', retryer (logged ans) true s [] =
      Ret (s', targets false 0 (map_entries (ls_locks s)) (ls_lock_client_list s)) ∧
    (∀ l, queue_of s' l = queue_of s l) ∧ ls_client_lock_id s' = ls_client_lock_id s.
Proof.
  intros Ha. unfold retryer.
  destruct (notify_each_sends ans false 0 (map_entries (ls_locks s)) (ls_lock_client_list s) [])
    as (lists & E); [lia|done|].
  rewrite E. simpl. eexists. split; [done|]. split; [|done].
  intros l. by eapply notify_each_lists.
Qed.

(** C30: a lock that others wait for changes hands.  While [dst] holds the
    lock and [next] is behind it, a turn of the revoker asks [dst] for the
    lock; when [dst] releases it, the retryer is woken, its turn tells [next]
    to retry, and the [acquire] that [next] then sends is answered [OK], with
    the queue of the others unchanged. *)
Theorem lock_handoff s clt clt' lid dst next rest xid xid' r :
  queue_of s lid = dst :: next :: rest → held s lid = true → clt ≠ clt' →
  last_release s clt lid < xid → last_release s clt' lid < xid' →
  ∃ s0 revokes s1 s2 retries wake s3,
    revoker (logged all_answer) true s [] = Ret (s0, revokes) ∧ (lid, dst) ∈ revokes ∧
    release clt lid dst xid r s = Ret (lock_protocol.OK, ls_nacquire s, WakeRetryer, s1) ∧
    retryer (logged all_answer) true s1 [] = Ret (s2, retries) ∧ (lid, next) ∈ retries ∧
    acquire clt' lid next xid' r s2 = Ret (lock_protocol.OK, ls_nacquire s2 + 1, wake, s3) ∧
    held s3 lid = true ∧ queue_of s3 lid = next :: rest.
Proof.
  intros Hq Hh Hc Hx Hx'.
  assert (Hl : ls_locks s !! lid = Some true).
  { unfold held in Hh. destruct (ls_locks s !! lid); simpl in Hh; congruence. }
  assert (∃ s0, revoker (logged all_answer) true s [] =
    Ret (s0, targets true 1 (map_entries (ls_locks s)) (ls_lock_client_list s))) as (s0 & Er).
  { unfold revoker. destruct (notify_each_sends all_answer true 1 (map_entries (ls_locks s))
      (ls_lock_client_list s) []) as (lists & ->); [lia|done|]. by eexists. }
  destruct (release_spec clt lid dst xid r s) as (n & wk & s1 & E1 & Q1 & _ & I1 & _ & W1 & D1).
  assert (Hdrop : bool_decide (last_release s clt lid < xid ∧ head (queue_of s lid) = Some dst) = true)
    by (apply bool_decide_eq_true_2; by rewrite Hq).
  rewrite W1 in E1 by (by apply bool_decide_eq_true_2).
  assert (Hq1 : queue_of s1 lid = next :: rest) by (by rewrite Q1, decide_True, Hq).
  destruct (retryer_sends all_answer s1) as (s2 & E2 & Q2 & I2); [done|].
  assert (Hx2 : last_release s2 clt' lid < xid').
  { unfold last_release. rewrite I2. fold (last_release s1 clt' lid). rewrite I1.
    by rewrite decide_False by naive_solver. }
  destruct (acquire_fresh clt' lid next xid' r s2 Hx2) as (wake & s3 & E3 & Q3 & L3 & _).
  assert (Hen : enqueue next (queue_of s2 lid) = next :: rest).
  { rewrite Q2, Hq1. unfold enqueue. by rewrite bool_decide_eq_true_2 by set_solver. }
  rewrite Hen in *. rewrite bool_decide_eq_true_2 in E3 by done.
  exists s0, (targets true 1 (map_entries (ls_locks s)) (ls_lock_client_list s)), s1, s2,
    (targets false 0 (map_entries (ls_locks s1)) (ls_lock_client_list s1)), wake, s3.
  repeat split; [done|eapply target_of; [done|done|cbn [length]; lia]|done|done| |done| |].
  - eapply target_of; [by apply D1|done|cbn [length]; lia].
  - rewrite L3. by rewrite bool_decide_eq_true_2.
  - rewrite Q3. by rewrite decide_True.
Qed.

(** [a] holds lock 7 and [b] waits for it. *)
Definition demo_queue : lock_server := LockServer 2 {[ 7 := true ]} {[ 7 := ["a"; "b"] ]} ∅.

Lemma lock_handoff_witness :
  ∃ s0 revokes s1 s2 retries wake s3,
    revoker (logged all_answer) true demo_queue [] = Ret (s0, revokes) ∧ (7, "a") ∈ revokes ∧
    release 1 7 "a" 2 0 demo_queue = Ret (lock_protocol.OK, ls_nacquire demo_queue, WakeRetryer, s1) ∧
    retryer (logged all_answer) true s1 [] = Ret (s2, retries) ∧ (7, "b") ∈ retries ∧
    acquire 2 7 "b" 2 0 s2 = Ret (lock_protocol.OK, ls_nacquire s2 + 1, wake, s3) ∧
    held s3 7 = true ∧ queue_of s3 7 = ["b"].
Proof. apply (lock_handoff demo_queue 1 2 7 "a" "b" [] 2 2 0); first [reflexivity|done|vm_compute; done]. Defined.

(** A waiting client that has gone stops the primary.  When the first
    client in the queue of a free lock cannot be bound, the turn of the
    retryer calls through the null pointer that [safebind] returned (or
    aborts at an earlier message): the turn never completes. *)
Theorem dead_waiter_stops_primary ans s lid d q :
  ls_locks s !! lid = Some false → queue_of s lid = d :: q → ans lid d = None →
  ¬ abort_free (retryer (logged ans) true s []).
Proof.
  intros Hl Hq Ha (x & Hx). unfold retryer in Hx.
  destruct (notify_each_fails ans false 0 (map_entries (ls_locks s)) (ls_lock_client_list s) [] lid d)
    as (e & E); [lia|eapply target_of; [done|done|cbn [length]; lia]|done|].
  by rewrite E in Hx.
Qed.

Definition demo_free : lock_server := LockServer 1 {[ 7 := false ]} {[ 7 := ["b"] ]} ∅.

Lemma dead_waiter_stops_primary_witness :
  ¬ abort_free (retryer (logged (λ _ _, None)) true demo_free []).
Proof. apply (dead_waiter_stops_primary (λ _ _, None) demo_free 7 "b" []); reflexivity. Defined.

(** A request of a client of the lock service. *)
Inductive lock_request :=
| AcquireReq (clt lid : Z) (dst : string) (xid r : Z)
| ReleaseReq (clt lid : Z) (dst : string) (xid r : Z).

(** The status and the thread that is woken, without the value of [r]. *)
Definition serve (q : lock_request) (s : lock_server) : res (Z * wakeup * lock_server) :=
  match q with
  | AcquireReq clt lid dst xid r => '(ret, _, wake, s) ← acquire clt lid dst xid r s; Ret (ret, wake, s)
  | ReleaseReq clt lid dst xid r => '(ret, _, wake, s) ← release clt lid dst xid r s; Ret (ret, wake, s)
  end.

Fixpoint serve_all (qs : list lock_request) (s : lock_server) : res (list (Z * wakeup) * lock_server) :=
  match qs with
  | [] => Ret ([], s)
  | q :: qs =>
      '(ret, wake, s) ← serve q s;
      '(rets, s) ← serve_all qs s;
      Ret ((ret, wake) :: rets, s)
  end.

Lemma lock_id_ref_same m m' clt lid :
  (∀ c, client_ids m c = client_ids m' c) →
  (lock_id_ref m clt lid).1 = (lock_id_ref m' clt lid).1 ∧
  ∀ c, client_ids (lock_id_ref m clt lid).2 c = client_ids (lock_id_ref m' clt lid).2 c.
Proof.
  intros H. assert (E : ∀ m0, lock_id_ref m0 clt lid =
    let '(x, i) := map_ref 0 (client_ids m0 clt) lid in
    (x, <[clt := i]> (map_ref ∅ m0 clt).2)).
  { intros m0. unfold lock_id_ref. rewrite <- (map_ref_fst ∅ m0 clt : _ = client_ids m0 clt).
    by destruct (map_ref ∅ m0 clt). }
  rewrite !E, H. destruct (map_ref 0 (client_ids m' clt) lid) as [x i]. split; [done|]. simpl.
  intros c. unfold client_ids. rewrite !lookup_insert_default.
  destruct (decide (clt = c)); [done|]. pose proof (H c) as Hc. unfold client_ids in Hc.
  by rewrite !(map_ref_snd_default ∅).
Qed.

(** Equivalent servers answer a request alike and stay equivalent. *)
Lemma serve_same q s t :
  same_locks s t →
  ∃ ret wake s' t', serve q s = Ret (ret, wake, s') ∧ serve q t = Ret (ret, wake, t') ∧ same_locks s' t'.
Proof.
  intros (El & Eq & Ei).
  assert (Hs : ∀ n n' l q i i', (∀ c, client_ids i c = client_ids i' c) →
    same_locks (LockServer n l q i) (LockServer n' l q i')) by done.
  destruct q as [clt lid dst xid r|clt lid dst xid r]; cbn [serve]; [unfold acquire|unfold release];
    destruct (lock_id_ref_same _ _ clt lid Ei) as [E1 E2];
    destruct (lock_id_ref (ls_client_lock_id s) clt lid) as [last ids],
      (lock_id_ref (ls_client_lock_id t) clt lid) as [last' ids']; simpl in E1, E2; subst last';
    cbn [ls_nacquire ls_locks ls_lock_client_list ls_client_lock_id]; rewrite El, Eq;
    (destruct (xid <? last); [by eauto 10|]); (destruct (xid =? last); [by eauto 10|]);
    destruct (map_ref [] (ls_lock_client_list t) lid) as [queue lists]; cbn zeta.
  - destruct (_ =? 0); by eauto 10.
  - assert (Hi : ∀ c, client_ids (<[clt := <[lid := xid]> (default ∅ (ids !! clt))]> ids) c =
      client_ids (<[clt := <[lid := xid]> (default ∅ (ids' !! clt))]> ids') c).
    { intros c. pose proof (E2 c) as Hc. pose proof (E2 clt) as Hclt. unfold client_ids in *.
      rewrite !lookup_insert_default. destruct (decide (clt = c)); [by rewrite Hclt|done]. }
    destruct queue as [|x rest]; [|destruct (bool_decide (x = dst))]; do 4 eexists; (split; [done|]); by split; auto.
Qed.

Lemma serve_all_same qs s t :
  same_locks s t →
  ∃ rets s' t', serve_all qs s = Ret (rets, s') ∧ serve_all qs t = Ret (rets, t') ∧ same_locks s' t'.
Proof.
  revert s t. induction qs as [|q qs IH]; intros s t H; simpl; [by eauto 10|].
  destruct (serve_same q s t H) as (ret & wake & s1 & t1 & -> & -> & H1). simpl.
  destruct (IH s1 t1 H1) as (rets & s2 & t2 & -> & -> & H2). simpl. by eauto 10.
Qed.

(** C31: a replica that joins takes over.  The state the lock server marshals
    can be unmarshalled by a fresh replica without aborting, and from then on
    the replica answers every sequence of requests with the same statuses,
    waking the same threads, as the server it was copied from. *)
Theorem transferred_replica_agrees s s0 :
  server_transferable s → same_locks s0 lock_server_new →
  ∃ str s', marshal_locks "000" s = Ret str ∧ unmarshal_locks "000" str s0 = Ret s' ∧
    ∀ qs, ∃ rets t t', serve_all qs s' = Ret (rets, t') ∧ serve_all qs s = Ret (rets, t) ∧ same_locks t' t.
Proof.
  intros Ht H0. destruct (lock_transfer_ok s s0 Ht H0) as (str & s' & Em & Eu & Hs).
  exists str, s'. split; [done|]. split; [done|]. intros qs.
  destruct (serve_all_same qs s' s Hs) as (rets & t' & t & E1 & E2 & E3). by eauto 10.
Qed.

Lemma transferred_replica_agrees_witness :
  ∃ str s', marshal_locks "000" demo_queue = Ret str ∧
    unmarshal_locks "000" str lock_server_new = Ret s' ∧
    ∀ qs, ∃ rets t t', serve_all qs s' = Ret (rets, t') ∧
      serve_all qs demo_queue = Ret (rets, t) ∧ same_locks t' t.
Proof.
  apply (transferred_replica_agrees demo_queue lock_server_new); [|done].
  unfold server_transferable. split; [|split; [|split; [|split]]].
  - change (map_entries (ls_lock_client_list demo_queue)) with [(7, ["a"; "b"])].
    split; [|cbn; lia]. apply Forall_singleton. split; [vm_compute; done|].
    split; [|cbn; lia]. repeat constructor; vm_compute; done.
  - change (map_entries (ls_locks demo_queue)) with [(7, true)].
    split; [|cbn; lia]. apply Forall_singleton. split; [vm_compute; done|done].
  - apply Forall_nil_2.
  - vm_compute. done.
  - vm_compute. done.
Defined.

(** [a] took lock 7 with number 1 and gave it back with number 2, then [b]
    took it with number 1. *)
Definition reused_number : res (Z * Z * wakeup * lock_server) :=
  '(_, _, _, s) ← acquire 1 7 "a" 1 0 lock_server_new;
  '(_, _, _, s) ← release 1 7 "a" 2 0 s;
  '(_, _, _, s) ← acquire 2 7 "b" 1 0 s;
  acquire 1 7 "a" 2 0 s.

(** The server trusts the numbers.  A client that asks for a lock with a
    number it has already used for a release is told [OK] although another
    client holds the lock and the queue of the lock does not name it. *)
Theorem old_number_is_granted :
  ∃ r wake s, reused_number = Ret (lock_protocol.OK, r, wake, s) ∧
    held s 7 = true ∧ queue_of s 7 = ["b"].
Proof. do 3 eexists. split; [reflexivity|]. split; reflexivity. Qed.
