(* ===== verification/LockClientRsm.v ===== *)
(** * The caching lock client (lock_client_cache_rsm.cc, lock_client_cache_rsm.h)

    A client keeps the locks the server gave it and hands them to its threads
    without asking again, until the server revokes them.  The code of each
    method is cut where it releases the mutex: at the waits on a condition
    variable and around the calls to the server.  The second half composes
    clients and server and proves that no two threads of any clients hold a
    lock at once. *)

From stdpp Require Import functions.
From S2P Require Import Prelude Marshall Protocols Stubs Paxos Handle Config Rsm LockServerRsm.

Inductive lock_status := NONE | FREE | LOCKED | ACQUIRING | RELEASING | RETRY.

#[export] Instance lock_status_eq_dec : EqDecision lock_status.
Proof. solve_decision. Defined.

Record lock_client := LockClient {
  lc_xid : Z;
  lc_lock_status_list : gmap Z lock_status }.

Definition lock_client_new : lock_client := LockClient 0 ∅.

Definition set_status (c : lock_client) (lid : Z) (st : lock_status) : lock_client :=
  LockClient (lc_xid c) (<[lid := st]> (lc_lock_status_list c)).

(** [lock_status_list\[lid\]]: a lock never seen is [NONE], the value 0. *)
Definition status (c : lock_client) (lid : Z) : lock_status := default NONE (lc_lock_status_list c !! lid).
Definition touch (c : lock_client) (lid : Z) : lock_client :=
  LockClient (lc_xid c) (map_ref NONE (lc_lock_status_list c) lid).2.

Definition available (st : lock_status) : bool := bool_decide (st = FREE) || bool_decide (st = NONE).

(** [++xid], in the arguments of a call, where the mutex is not held: the
    counter is read, and what was read plus one is stored and passed on. *)
Definition read_xid (c : lock_client) : Z := lc_xid c.
Definition write_xid (x : Z) (c : lock_client) : Z * lock_client :=
  let x := u64 (x + 1) in (x, LockClient x (lc_lock_status_list c)).

(** Where a method stops: it waits for its condition, it calls the server, or
    it is done. *)
Inductive stop := Wait | Send | Done.

(** [acquire] up to its first call, entered anew or woken from
    [lock_inUse_cond_list\[lid\]]. *)
Definition acquire_check (lid : Z) (c : lock_client) : stop * lock_client :=
  let c := touch c lid in
  if negb (available (status c lid)) then (Wait, c)
  else if bool_decide (status c lid = NONE) then (Send, set_status c lid ACQUIRING)
  else (Done, set_status c lid LOCKED).

(** The test of the loop that waits on [lock_retry_cond_list\[lid\]]. *)
Definition retry_check (lid : Z) (c : lock_client) : stop * lock_client :=
  if bool_decide (status c lid = RETRY) then (Send, touch c lid) else (Wait, touch c lid).

(** [acquire] after an answer of the server. *)
Definition acquire_reply (ret : Z) (lid : Z) (c : lock_client) : res (stop * lock_client) :=
  if ret =? lock_protocol.RETRY then Ret (retry_check lid c)
  else VERIFY (ret =? lock_protocol.OK);; Ret (Done, set_status c lid LOCKED).

(** [release]: whether the threads that wait for the lock are woken. *)
Definition release (lid : Z) (c : lock_client) : bool * lock_client :=
  (negb (available (status c lid)), set_status c lid FREE).

(** The body of the loop of [releaser] for a lock, up to the call; [Done]:
    the lock is not cached. *)
Definition releaser_check (lid : Z) (c : lock_client) : stop * lock_client :=
  let c := touch c lid in
  if negb (available (status c lid)) then (Wait, c)
  else if bool_decide (status c lid = FREE) then (Send, set_status c lid RELEASING)
  else (Done, c).

(** The rest of the body, with the answer of the server. *)
Definition releaser_reply (ret : Z) (lid : Z) (c : lock_client) : res (bool * lock_client) :=
  VERIFY (ret =? rlock_protocol.OK);;
  Ret (negb (available (status c lid)), set_status c lid NONE).

(** [revoke_handler] wakes the releaser and nothing else. *)
Definition revoke_handler (lid : Z) (c : lock_client) : bool * lock_client := (true, c).

(** [retry_handler]: whether the thread that waits to retry is woken. *)
Definition retry_handler (lid : Z) (c : lock_client) : bool * lock_client :=
  (bool_decide (status c lid = ACQUIRING), set_status c lid RETRY).

(** ** Threads, clients and the server *)

(** Where a thread of a client is.  Between [Sending] and [Requesting] it
    draws its number, in [Numbering] it has read the counter and not written
    it back; [Requesting] is before the server has executed the call and
    [Replied] after. *)
Inductive pc :=
| Idle
| WaitingInUse (lid : Z)
| Sending (lid : Z)
| Numbering (lid x : Z)
| Requesting (lid xid : Z)
| Replied (lid ret : Z)
| WaitingRetry (lid : Z)
| Holding (lid : Z)
| WaitingFree (lid : Z)
| SendingRelease (lid : Z)
| NumberingRelease (lid x : Z)
| Releasing (lid xid : Z)
| Released (lid ret : Z).

Definition after_check (lid : Z) (o : stop) : pc :=
  match o with Wait => WaitingInUse lid | Send => Sending lid | Done => Holding lid end.
Definition after_reply (lid : Z) (o : stop) : pc :=
  match o with Wait => WaitingRetry lid | Send => Sending lid | Done => Holding lid end.
Definition after_releaser (lid : Z) (o : stop) : pc :=
  match o with Wait => WaitingFree lid | Send => SendingRelease lid | Done => Idle end.

(** The mutex serialises the pieces but the increments of [xid]; a thread that
    waits may be woken at any time (POSIX allows spurious wakeups).  With
    [atomic], no increment of a client falls between the two halves of
    another one. *)
Inductive client_step (atomic : bool) : lock_client → pc → lock_client → pc → Prop :=
| cs_acquire c p lid : p = Idle ∨ p = WaitingInUse lid →
    client_step atomic c p (acquire_check lid c).2 (after_check lid (acquire_check lid c).1)
| cs_load c lid : client_step atomic c (Sending lid) c (Numbering lid (read_xid c))
| cs_number c lid x : (atomic = true → lc_xid c = x) → x + 1 < 2 ^ 64 →
    client_step atomic c (Numbering lid x) (write_xid x c).2 (Requesting lid (write_xid x c).1)
| cs_reply c lid ret o c' : acquire_reply ret lid c = Ret (o, c') →
    client_step atomic c (Replied lid ret) c' (after_reply lid o)
| cs_retry c lid :
    client_step atomic c (WaitingRetry lid) (retry_check lid c).2 (after_reply lid (retry_check lid c).1)
| cs_release c lid : client_step atomic c (Holding lid) (release lid c).2 Idle
| cs_releaser c p lid : p = Idle ∨ p = WaitingFree lid →
    client_step atomic c p (releaser_check lid c).2 (after_releaser lid (releaser_check lid c).1)
| cs_release_load c lid : client_step atomic c (SendingRelease lid) c (NumberingRelease lid (read_xid c))
| cs_release_number c lid x : (atomic = true → lc_xid c = x) → x + 1 < 2 ^ 64 →
    client_step atomic c (NumberingRelease lid x) (write_xid x c).2 (Releasing lid (write_xid x c).1)
| cs_releaser_reply c lid ret b c' : releaser_reply ret lid c = Ret (b, c') →
    client_step atomic c (Released lid ret) c' Idle.

(** What happens at the server besides the first execution of a call: the
    replicated state machine may execute a call again, the threads take
    turns, and a fresh replica may take over. *)
Inductive server_step (nonce : string → Z) : lock_server → lock_server → Prop :=
| ss_acquire_again s c lid xid r ret n wake s' :
    acquire (nonce c) lid c xid r s = Ret (ret, n, wake, s') → server_step nonce s s'
| ss_release_again s c lid xid r ret n wake s' :
    xid ≤ last_release s (nonce c) lid →
    LockServerRsm.release (nonce c) lid c xid r s = Ret (ret, n, wake, s') → server_step nonce s s'
| ss_revoker W (call : Z → string → W → option Z * W) primary w w' s s' :
    revoker call primary s w = Ret (s', w') → server_step nonce s s'
| ss_retryer W (call : Z → string → W → option Z * W) primary w w' s s' :
    retryer call primary s w = Ret (s', w') → server_step nonce s s'
| ss_transfer s s0 str s' :
    transferable s → fresh_replica s0 →
    marshal_state s = Ret str → unmarshal_state str s0 = Ret s' → server_step nonce s s'.

Record lock_system := LockSystem {
  sy_server : lock_server;
  sy_client : string → lock_client;
  sy_pc : string → nat → pc }.

Definition system_init : lock_system :=
  LockSystem lock_server_new (λ _, lock_client_new) (λ _ _, Idle).

Inductive system_step (nonce : string → Z) (atomic : bool) : lock_system → lock_system → Prop :=
| sys_client s cls pcs c t cl' p' :
    client_step atomic (cls c) (pcs c t) cl' p' →
    system_step nonce atomic (LockSystem s cls pcs) (LockSystem s (<[c := cl']> cls) (<[c := <[t := p']> (pcs c)]> pcs))
| sys_retry s cls pcs c lid :
    system_step nonce atomic (LockSystem s cls pcs) (LockSystem s (<[c := (retry_handler lid (cls c)).2]> cls) pcs)
| sys_revoke s cls pcs c lid :
    system_step nonce atomic (LockSystem s cls pcs) (LockSystem s (<[c := (revoke_handler lid (cls c)).2]> cls) pcs)
| sys_acquire s cls pcs c t lid xid r ret n wake s' :
    pcs c t = Requesting lid xid →
    acquire (nonce c) lid c xid r s = Ret (ret, n, wake, s') →
    system_step nonce atomic (LockSystem s cls pcs) (LockSystem s' cls (<[c := <[t := Replied lid ret]> (pcs c)]> pcs))
| sys_release s cls pcs c t lid xid r ret n wake s' :
    pcs c t = Releasing lid xid →
    LockServerRsm.release (nonce c) lid c xid r s = Ret (ret, n, wake, s') →
    system_step nonce atomic (LockSystem s cls pcs) (LockSystem s' cls (<[c := <[t := Released lid ret]> (pcs c)]> pcs))
| sys_server s cls pcs s' :
    server_step nonce s s' → system_step nonce atomic (LockSystem s cls pcs) (LockSystem s' cls pcs).

(** ** The invariant *)

(** The thread is between leaving [FREE] or [NONE] and giving the lock back. *)
Definition active (p : pc) (lid : Z) : Prop :=
  match p with
  | Sending l | Numbering l _ | Requesting l _ | Replied l _ | WaitingRetry l | Holding l
  | SendingRelease l | NumberingRelease l _ | Releasing l _ | Released l _ => l = lid
  | _ => False
  end.

(** The thread acts for a client that has the lock. *)
Definition owns (p : pc) (lid : Z) : Prop :=
  match p with
  | Replied l ret => l = lid ∧ ret = lock_protocol.OK
  | Holding l | SendingRelease l | NumberingRelease l _ | Releasing l _ => l = lid
  | _ => False
  end.

Section exclusion.
Context (nonce : string → Z) `{!Inj (=) (=) nonce}.

Definition number_ok (s : lock_server) (c : string) (cl : lock_client) (p : pc) : Prop :=
  match p with
  | Requesting lid x => last_release s (nonce c) lid < x ≤ lc_xid cl
  | Releasing lid x => x ≤ lc_xid cl
  | _ => True
  end.

Record client_ok (s : lock_server) (c : string) (cl : lock_client) (pcs : nat → pc) : Prop := ClientOk {
  ok_busy t lid : active (pcs t) lid → available (status cl lid) = false;
  ok_one t1 t2 lid : active (pcs t1) lid → active (pcs t2) lid → t1 = t2;
  ok_cached lid : status cl lid = FREE → head (queue_of s lid) = Some c;
  ok_owner t lid : owns (pcs t) lid → head (queue_of s lid) = Some c;
  ok_last lid : last_release s (nonce c) lid ≤ lc_xid cl;
  ok_range : 0 ≤ lc_xid cl < 2 ^ 64;
  ok_number t : number_ok s c cl (pcs t) }.

Lemma number_ok_mono s c cl cl' p : lc_xid cl ≤ lc_xid cl' → number_ok s c cl p → number_ok s c cl' p.
Proof. destruct p; simpl; lia. Qed.

Lemma status_set cl lid st l : status (set_status cl lid st) l = if decide (lid = l) then st else status cl l.
Proof. unfold status, set_status; simpl. apply lookup_insert_default. Qed.

Lemma status_touch cl lid l : status (touch cl lid) l = status cl l.
Proof. unfold status, touch; simpl. apply map_ref_snd_default. Qed.

Lemma active_owns p lid : owns p lid → active p lid.
Proof. destruct p; simpl; tauto. Qed.

(** A thread with the right to a lock, because it is the active one or nobody
    is, moves on. *)
Lemma client_ok_update s c cl pcs t lid cl' p' :
  client_ok s c cl pcs →
  active (pcs t) lid ∨ available (status cl lid) = true →
  (∀ l, l ≠ lid → status cl' l = status cl l) →
  lc_xid cl ≤ lc_xid cl' < 2 ^ 64 →
  (∀ l, active p' l → l = lid ∧ available (status cl' lid) = false) →
  (status cl' lid = FREE → head (queue_of s lid) = Some c) →
  (∀ l, owns p' l → head (queue_of s l) = Some c) →
  number_ok s c cl' p' →
  client_ok s c cl' (<[t := p']> pcs).
Proof.
  intros [Hb Ho Hf Hw Hl Hr Hn] He Hs Hx Ha Hf' Hw' Hn'.
  assert (Hno : ∀ t', t' ≠ t → ¬ active (pcs t') lid).
  { intros t' Ht Hat. destruct He as [He|He]; [by eapply Ht, Ho|]. apply Hb in Hat. congruence. }
  split.
  - intros t' l Hal. destruct (decide (t = t')) as [<-|Hne].
    + rewrite fn_lookup_insert in Hal. by destruct (Ha l Hal) as [-> ?].
    + rewrite fn_lookup_insert_ne in Hal by done.
      rewrite Hs; [by eapply Hb|]. intros ->. by eapply Hno.
  - intros t1 t2 l H1 H2. destruct (decide (t = t1)) as [<-|Hn1], (decide (t = t2)) as [<-|Hn2]; [done| | |];
      rewrite ?fn_lookup_insert in *; rewrite ?fn_lookup_insert_ne in * by done.
    + destruct (Ha l H1) as [-> _]. by destruct (Hno t2).
    + destruct (Ha l H2) as [-> _]. by destruct (Hno t1).
    + by eapply Ho.
  - intros l Hfr. destruct (decide (l = lid)) as [->|]; [auto|]. rewrite Hs in Hfr by done. auto.
  - intros t' l Hown. destruct (decide (t = t')) as [<-|Hne].
    + rewrite fn_lookup_insert in Hown. auto.
    + rewrite fn_lookup_insert_ne in Hown by done. eauto.
  - intros l. specialize (Hl l). lia.
  - lia.
  - intros t'. destruct (decide (t = t')) as [<-|Hne].
    + by rewrite fn_lookup_insert.
    + rewrite fn_lookup_insert_ne by done. eapply number_ok_mono; [|apply Hn]. lia.
Qed.

(** A thread that is not active looks at a status and waits. *)
Lemma client_ok_inert s c cl pcs t cl' p' :
  client_ok s c cl pcs → (∀ l, status cl' l = status cl l) → lc_xid cl' = lc_xid cl →
  (∀ l, ¬ active p' l) → number_ok s c cl' p' →
  client_ok s c cl' (<[t := p']> pcs).
Proof.
  intros [Hb Ho Hf Hw Hl Hr Hn] Hs Hx Ha Hn'.
  assert (Hp : ∀ t' l, active (<[t := p']> pcs t') l → active (pcs t') l ∧ t' ≠ t).
  { intros t' l. destruct (decide (t = t')) as [<-|Hne].
    - rewrite fn_lookup_insert. by intros ?%Ha.
    - by rewrite fn_lookup_insert_ne. }
  split; rewrite ?Hx.
  - intros t' l [Hal _]%Hp. rewrite Hs. eauto.
  - intros t1 t2 l [H1 _]%Hp [H2 _]%Hp. eauto.
  - intros l. rewrite Hs. auto.
  - intros t' l Hown. destruct (Hp t' l (active_owns _ _ Hown)) as [_ Hne].
    rewrite fn_lookup_insert_ne in Hown by done. eauto.
  - done.
  - done.
  - intros t'. destruct (decide (t = t')) as [<-|Hne].
    + by rewrite fn_lookup_insert.
    + rewrite fn_lookup_insert_ne by done. eapply number_ok_mono; [|apply Hn]. lia.
Qed.

(** A retry message only makes the lock unavailable. *)
Lemma client_ok_retry s c cl pcs lid :
  client_ok s c cl pcs → client_ok s c (retry_handler lid cl).2 pcs.
Proof.
  intros [Hb Ho Hf Hw Hl Hr Hn]. split; try done; simpl.
  - intros t l Hal. rewrite status_set. destruct (decide (lid = l)); eauto.
  - intros l. rewrite status_set. destruct (decide (lid = l)); [done|auto].
Qed.

(** The server changes without taking anything from the client. *)
Lemma client_ok_server s s' c cl pcs :
  (∀ lid, head (queue_of s lid) = Some c → head (queue_of s' lid) = Some c) →
  (∀ lid, last_release s' (nonce c) lid = last_release s (nonce c) lid) →
  client_ok s c cl pcs → client_ok s' c cl pcs.
Proof.
  intros Hq Hlr [Hb Ho Hf Hw Hl Hr Hn]. split; eauto.
  - intros lid. by rewrite Hlr.
  - intros t. specialize (Hn t). destruct (pcs t); simpl in *; try done. by rewrite Hlr.
Qed.

(** The pieces of the methods, as updates of the status of the lock. *)
Ltac status_goals :=
  intros; simpl in *; subst; rewrite ?status_set, ?status_touch in *;
  repeat match goal with
  | H : context [decide (?a = ?b)] |- _ => destruct (decide (a = b))
  | |- context [decide (?a = ?b)] => destruct (decide (a = b))
  end; try done; try congruence; auto.

Lemma number_client_ok s c cl pcs t lid p' :
  client_ok s c cl pcs → active (pcs t) lid → lc_xid cl + 1 < 2 ^ 64 →
  p' = Requesting lid (write_xid (lc_xid cl) cl).1 ∨
    (owns (pcs t) lid ∧ p' = Releasing lid (write_xid (lc_xid cl) cl).1) →
  client_ok s c (write_xid (lc_xid cl) cl).2 (<[t := p']> pcs).
Proof.
  intros Hok Hact Hx Hp. pose proof (ok_range _ _ _ _ Hok). pose proof (ok_last _ _ _ _ Hok lid).
  pose proof (ok_busy _ _ _ _ Hok t lid Hact) as Hb.
  unfold write_xid in *; simpl in *. rewrite u64_id in * by (wrap_unfold; lia).
  apply (client_ok_update _ _ cl _ _ lid); simpl; auto; try lia.
  - intros l Hl. assert (l = lid) as ->; [|by split]. by destruct Hp as [->|[_ ->]].
  - apply (ok_cached _ _ _ _ Hok).
  - intros l Hl. destruct Hp as [->|[Ho ->]]; [done|]. simpl in Hl. subst l. by eapply (ok_owner _ _ _ _ Hok).
  - destruct Hp as [->|[_ ->]]; simpl; lia.
Qed.

(** A thread that reads the counter. *)
Lemma load_client_ok s c cl pcs t lid p' :
  client_ok s c cl pcs → active (pcs t) lid →
  p' = Numbering lid (read_xid cl) ∨ (owns (pcs t) lid ∧ p' = NumberingRelease lid (read_xid cl)) →
  client_ok s c cl (<[t := p']> pcs).
Proof.
  intros Hok Hact Hp. pose proof (ok_range _ _ _ _ Hok). pose proof (ok_busy _ _ _ _ Hok t lid Hact) as Hb.
  apply (client_ok_update _ _ cl _ _ lid); auto; try lia.
  - intros l Hl. assert (l = lid) as ->; [|by split]. by destruct Hp as [->|[_ ->]].
  - apply (ok_cached _ _ _ _ Hok).
  - intros l Hl. destruct Hp as [->|[Ho ->]]; [done|]. simpl in Hl. subst l. by eapply (ok_owner _ _ _ _ Hok).
  - by destruct Hp as [->|[_ ->]].
Qed.

Lemma retry_client_ok s c cl pcs t lid :
  client_ok s c cl pcs → active (pcs t) lid →
  client_ok s c (retry_check lid cl).2 (<[t := after_reply lid (retry_check lid cl).1]> pcs).
Proof.
  intros Hok Hact. pose proof (ok_range _ _ _ _ Hok). pose proof (ok_busy _ _ _ _ Hok t lid Hact) as Hb.
  unfold retry_check. destruct (bool_decide (status cl lid = RETRY));
    apply (client_ok_update _ _ cl _ _ lid); status_goals; try lia; by apply (ok_cached _ _ _ _ Hok).
Qed.

Lemma acquire_client_ok s c cl pcs t lid :
  client_ok s c cl pcs →
  client_ok s c (acquire_check lid cl).2 (<[t := after_check lid (acquire_check lid cl).1]> pcs).
Proof.
  intros Hok. pose proof (ok_range _ _ _ _ Hok). unfold acquire_check. rewrite status_touch.
  destruct (available (status cl lid)) eqn:Ea; [|by apply (client_ok_inert _ _ cl); status_goals].
  cbn [negb]. destruct (decide (status cl lid = NONE)) as [Es|Es].
  - rewrite bool_decide_eq_true_2 by done. apply (client_ok_update _ _ cl _ _ lid); status_goals. lia.
  - rewrite bool_decide_eq_false_2 by done.
    assert (Hfree : status cl lid = FREE).
    { unfold available in Ea. rewrite (bool_decide_eq_false_2 (_ = NONE)), orb_false_r in Ea by done.
      by apply bool_decide_eq_true in Ea. }
    apply (client_ok_update _ _ cl _ _ lid); status_goals; [lia|]. by apply (ok_cached _ _ _ _ Hok).
Qed.

Lemma releaser_client_ok s c cl pcs t lid :
  client_ok s c cl pcs →
  client_ok s c (releaser_check lid cl).2 (<[t := after_releaser lid (releaser_check lid cl).1]> pcs).
Proof.
  intros Hok. pose proof (ok_range _ _ _ _ Hok). unfold releaser_check. rewrite status_touch.
  destruct (available (status cl lid)) eqn:Ea; [|by apply (client_ok_inert _ _ cl); status_goals].
  cbn [negb]. destruct (decide (status cl lid = FREE)) as [Es|Es].
  - rewrite bool_decide_eq_true_2 by done.
    apply (client_ok_update _ _ cl _ _ lid); status_goals; [lia|]. by apply (ok_cached _ _ _ _ Hok).
  - rewrite bool_decide_eq_false_2 by done. by apply (client_ok_inert _ _ cl); status_goals.
Qed.

Lemma step_client_ok s c cl pcs t cl' p' :
  client_step true cl (pcs t) cl' p' → client_ok s c cl pcs → client_ok s c cl' (<[t := p']> pcs).
Proof.
  intros Hs Hok. pose proof (ok_range _ _ _ _ Hok).
  pose proof (λ lid, ok_owner _ _ _ _ Hok t lid) as Hown.
  remember (pcs t) as p eqn:Ep. destruct Hs as [c0 p lid Hp|c0 lid|c0 lid x Hat Hx|c0 lid ret o c1 Hr
    |c0 lid|c0 lid|c0 p lid Hp|c0 lid|c0 lid x Hat Hx|c0 lid ret b c1 Hr].
  - by apply acquire_client_ok.
  - apply (load_client_ok _ _ _ _ _ lid); [done|by rewrite <- Ep|by left].
  - rewrite <- (Hat eq_refl) in *. apply (number_client_ok _ _ _ _ _ lid); [done|by rewrite <- Ep|done|by left].
  - unfold acquire_reply in Hr. destruct (ret =? lock_protocol.RETRY).
    + injection Hr as Hr. pose proof (retry_client_ok s c c0 pcs t lid Hok) as H1.
      rewrite Hr in H1. apply H1. by rewrite <- Ep.
    + apply rbind_Ret in Hr as ([] & Hv%VERIFY_Ret & [= <- <-]). apply Z.eqb_eq in Hv. subst ret.
      apply (client_ok_update _ _ c0 _ _ lid); rewrite <- ?Ep; status_goals; try lia.
  - apply retry_client_ok; [done|by rewrite <- Ep].
  - apply (client_ok_update _ _ c0 _ _ lid); rewrite <- ?Ep; status_goals; lia.
  - by apply releaser_client_ok.
  - apply (load_client_ok _ _ _ _ _ lid); [done|by rewrite <- Ep|right; by rewrite <- Ep].
  - rewrite <- (Hat eq_refl) in *.
    apply (number_client_ok _ _ _ _ _ lid); [done|by rewrite <- Ep|done|right; by rewrite <- Ep].
  - unfold releaser_reply in Hr. apply rbind_Ret in Hr as ([] & _ & [= <- <-]).
    apply (client_ok_update _ _ c0 _ _ lid); rewrite <- ?Ep; status_goals; lia.
Qed.

(** What no client can notice: the heads of the queues and the numbers stay. *)
Definition server_keeps (s s' : lock_server) : Prop :=
  (∀ lid c, head (queue_of s lid) = Some c → head (queue_of s' lid) = Some c) ∧
  ∀ clt lid, last_release s' clt lid = last_release s clt lid.

Lemma acquire_keeps clt lid c xid r s ret n wake s' :
  acquire clt lid c xid r s = Ret (ret, n, wake, s') → server_keeps s s'.
Proof.
  intros Ha. destruct (decide (last_release s clt lid < xid)) as [Hx|Hx].
  - destruct (acquire_fresh clt lid c xid r s Hx) as (wk & s1 & E & Q & _ & L).
    rewrite E in Ha. injection Ha as _ _ _ <-. split; [|done].
    intros l d Hd. rewrite Q. destruct (decide (lid = l)) as [<-|]; [|done].
    rewrite head_enqueue; [done|]. by intros E0; rewrite E0 in Hd.
  - destruct (acquire_old clt lid c xid r s) as (wk & s1 & E & _ & Q & L); [lia|].
    rewrite E in Ha. injection Ha as _ _ _ <-. split; [|done]. unfold queue_of. by rewrite Q.
Qed.

Lemma threads_keep s s' lists :
  (∀ l, default [] (lists !! l) = default [] (ls_lock_client_list s !! l)) →
  s' = set_lists s lists → server_keeps s s'.
Proof. intros Hl ->. split; [|done]. intros l d. unfold queue_of; simpl. by rewrite Hl. Qed.

Lemma server_step_keeps s s' : server_step nonce s s' → server_keeps s s'.
Proof.
  destruct 1 as [s c lid xid r ret n wake s' Ha|s c lid xid r ret n wake s' Hx Hr
    |W call p w w' s s' Hr|W call p w w' s s' Hr|s s0 str s' Ht Hf Hm Hu].
  - by eapply acquire_keeps.
  - destruct (release_spec (nonce c) lid c xid r s) as (n1 & wk & s1 & E & Q & _ & L & _).
    rewrite E in Hr. injection Hr as _ _ _ <-. rewrite bool_decide_eq_false_2 in L by lia.
    rewrite bool_decide_eq_false_2 in Q by lia.
    split; [intros l d|intros clt l]; rewrite ?Q, ?L, decide_False by naive_solver; done.
  - unfold revoker in Hr. destruct p; [|by injection Hr as <- <-].
    apply rbind_Ret in Hr as ([lists w1] & Hn & [= <- <-]).
    eapply threads_keep; [by eapply notify_each_lists|done].
  - unfold retryer in Hr. destruct p; [|by injection Hr as <- <-].
    apply rbind_Ret in Hr as ([lists w1] & Hn & [= <- <-]).
    eapply threads_keep; [by eapply notify_each_lists|done].
  - destruct (transfer_ok s s0 Ht Hf) as (str1 & s1 & Em & Eu & Hl & Hq & Hi).
    rewrite Em in Hm. injection Hm as <-. rewrite Eu in Hu. injection Hu as <-.
    split; [intros l d; unfold queue_of; by rewrite Hq|].
    intros clt l. pose proof (Hi clt) as Hc. unfold client_ids, last_release in *. by rewrite Hc.
Qed.

Lemma keeps_client_ok s s' c cl pcs : server_keeps s s' → client_ok s c cl pcs → client_ok s' c cl pcs.
Proof. intros [Hq Hl]. apply client_ok_server; auto. Qed.

(** The server executes the release of the thread that gives the lock back. *)
Lemma release_client_ok s c cl pcs t lid xid r ret n wake s' :
  client_ok s c cl pcs → pcs t = Releasing lid xid →
  LockServerRsm.release (nonce c) lid c xid r s = Ret (ret, n, wake, s') →
  client_ok s' c cl (<[t := Released lid ret]> pcs) ∧
  ∀ c' cl' pcs', c' ≠ c → client_ok s c' cl' pcs' → client_ok s' c' cl' pcs'.
Proof.
  intros Hok Ep Hr. destruct (release_spec (nonce c) lid c xid r s) as (n1 & wk & s1 & E & Q & _ & L & _).
  rewrite E in Hr. injection Hr as _ _ _ <-.
  assert (Hother : ∀ l d, l ≠ lid ∨ d ≠ c → head (queue_of s l) = Some d → head (queue_of s1 l) = Some d).
  { intros l d Hne Hd. rewrite Q. rewrite decide_False; [done|].
    intros [<- Hb%bool_decide_eq_true]. destruct Hne; [done|]. destruct Hb. congruence. }
  split.
  - destruct Hok as [Hb Ho Hf Hw Hl Hrg Hn].
    assert (Hact : active (pcs t) lid) by (by rewrite Ep).
    assert (Hp : ∀ t' l, active (<[t := Released lid ret]> pcs t') l → active (pcs t') l).
    { intros t' l. destruct (decide (t = t')) as [<-|Hne]; [rewrite fn_lookup_insert, Ep; done|].
      by rewrite fn_lookup_insert_ne. }
    assert (Hx : xid ≤ lc_xid cl) by (specialize (Hn t); by rewrite Ep in Hn).
    split; try done; [eauto..| | | |].
    + intros l Hfr. destruct (decide (l = lid)) as [->|Hne]; [|by apply Hother; auto].
      apply Hb in Hact. by rewrite Hfr in Hact.
    + intros t' l Hown. destruct (decide (t = t')) as [<-|Hne]; [by rewrite fn_lookup_insert in Hown|].
      rewrite fn_lookup_insert_ne in Hown by done.
      apply Hother; [|by eauto]. left. intros ->. apply Hne. by eapply Ho, active_owns.
    + intros l. rewrite L. destruct (decide _) as [[_ [-> _]]|]; [done|apply Hl].
    + intros t'. destruct (decide (t = t')) as [<-|Hne]; [by rewrite fn_lookup_insert|].
      rewrite fn_lookup_insert_ne by done. specialize (Hn t').
      destruct (pcs t') as [| | | |l x| | | | | | | |] eqn:Et; simpl in *; try done.
      rewrite L, decide_False; [done|]. intros (_ & -> & _). apply Hne.
      eapply (Ho t t' lid); [done|by rewrite Et].
  - intros c' cl' pcs' Hne. apply client_ok_server; [intros l; apply Hother; auto|].
    intros l. rewrite L, decide_False; [done|]. intros (He & _). by apply (inj nonce) in He.
Qed.

(** The server executes the request of the thread that asks for the lock. *)
Lemma request_client_ok s c cl pcs t lid xid r ret n wake s' :
  client_ok s c cl pcs → pcs t = Requesting lid xid →
  acquire (nonce c) lid c xid r s = Ret (ret, n, wake, s') →
  client_ok s' c cl (<[t := Replied lid ret]> pcs).
Proof.
  intros Hok Ep Ha. pose proof (ok_number _ _ _ _ Hok t) as Hn. rewrite Ep in Hn. destruct Hn as [Hn _].
  pose proof (keeps_client_ok s s' c cl pcs (acquire_keeps _ _ _ _ _ _ _ _ _ _ Ha) Hok) as Hok'.
  pose proof (ok_range _ _ _ _ Hok). assert (Hact : active (pcs t) lid) by (by rewrite Ep).
  destruct (acquire_fresh (nonce c) lid c xid r s Hn) as (wk & s1 & E & Q & _).
  rewrite E in Ha. injection Ha as <- _ _ <-.
  apply (client_ok_update _ _ cl _ _ lid); [done|by left|done|lia| | | |done].
  - intros l <-. split; [done|]. by apply (ok_busy _ _ _ _ Hok t).
  - apply (ok_cached _ _ _ _ Hok').
  - intros l [<- Hret]. rewrite Q, decide_True by done.
    destruct (decide (head (enqueue c (queue_of s lid)) = Some c)) as [Hh|Hh]; [done|].
    by rewrite bool_decide_eq_false_2 in Hret.
Qed.

Definition system_inv (y : lock_system) : Prop :=
  ∀ c, client_ok (sy_server y) c (sy_client y c) (sy_pc y c).

Lemma system_init_inv : system_inv system_init.
Proof. intros c. split; simpl; try done; lia. Qed.

Lemma system_step_inv y y' : system_step nonce true y y' → system_inv y → system_inv y'.
Proof.
  destruct 1 as [s cls pcs c t cl' p' Hs|s cls pcs c lid|s cls pcs c lid
    |s cls pcs c t lid xid r ret n wake s' Hp Ha|s cls pcs c t lid xid r ret n wake s' Hp Hr|s cls pcs s' Hs];
    intros Hi d; specialize (Hi d) as Hd; simpl in *;
    try (destruct (decide (c = d)) as [<-|Hne];
         [rewrite ?fn_lookup_insert|rewrite ?fn_lookup_insert_ne by done]); try done.
  - by eapply step_client_ok.
  - by apply client_ok_retry.
  - by eapply request_client_ok.
  - eapply keeps_client_ok; [by eapply acquire_keeps|done].
  - eapply (proj1 (release_client_ok _ _ _ _ _ _ _ _ _ _ _ _ (Hi c) Hp Hr)).
  - eapply (proj2 (release_client_ok _ _ _ _ _ _ _ _ _ _ _ _ (Hi c) Hp Hr)); auto.
  - by eapply keeps_client_ok; [apply server_step_keeps|].
Qed.

Lemma holding_unique y lid c1 t1 c2 t2 :
  system_inv y → sy_pc y c1 t1 = Holding lid → sy_pc y c2 t2 = Holding lid → c1 = c2 ∧ t1 = t2.
Proof.
  intros Hi H1 H2. assert (c1 = c2) as <-.
  { pose proof (ok_owner _ _ _ _ (Hi c1) t1 lid) as E1. pose proof (ok_owner _ _ _ _ (Hi c2) t2 lid) as E2.
    rewrite H1 in E1. rewrite H2 in E2. simpl in *. specialize (E1 eq_refl). specialize (E2 eq_refl). congruence. }
  split; [done|]. apply (ok_one _ _ _ _ (Hi c1) t1 t2 lid); [by rewrite H1|by rewrite H2].
Qed.
End exclusion.

(** C2: mutual exclusion of the lock service.  Any number of clients, each
    with any number of threads that take and give back locks while its
    releaser returns revoked ones, run against the server; revoke and retry
    messages arrive at any time, calls are repeated by the replicated state
    machine, threads are woken spuriously and a fresh replica takes over with
    the state of the old one.  If clients have different nonces, their
    counters do not wrap around and no increment [++xid] of a client, which
    the code makes without its mutex, falls between the read and the write of
    another one, then two threads that both hold a lock are the same thread of
    the same client.  The last condition is needed:
    [lost_update_breaks_exclusion]. *)
Theorem lock_service_exclusion (nonce : string → Z) y lid c1 t1 c2 t2 :
  Inj (=) (=) nonce → rtc (system_step nonce true) system_init y →
  sy_pc y c1 t1 = Holding lid → sy_pc y c2 t2 = Holding lid → c1 = c2 ∧ t1 = t2.
Proof.
  intros Hinj Hr. eapply holding_unique. apply (rtc_ind_r (system_inv nonce) system_init) in Hr; [done|apply system_init_inv|].
  intros z z' _ Hs Hz. by eapply system_step_inv.
Qed.

(** ** Running a schedule *)

(** What happens next, by client and thread: a thread begins a call, goes on
    from where it is, gives a lock back or releases it to the server, or the
    server executes its request. *)
Inductive action :=
| AAcquire (c : string) (t : nat) (lid : Z)
| ANext (c : string) (t : nat)
| ARelease (c : string) (t : nat)
| AReleaser (c : string) (t : nat) (lid : Z)
| AServe (c : string) (t : nat).

(** A thread goes on: it draws its number or takes an answer. *)
Definition next_piece (atomic : bool) (c : lock_client) (p : pc) : option (lock_client * pc) :=
  let may x := (x + 1 <? 2 ^ 64) && (negb atomic || (lc_xid c =? x)) in
  match p with
  | Sending lid => Some (c, Numbering lid (read_xid c))
  | Numbering lid x => if may x then Some ((write_xid x c).2, Requesting lid (write_xid x c).1) else None
  | Replied lid ret => match acquire_reply ret lid c with Ret (o, c') => Some (c', after_reply lid o) | Fail _ => None end
  | WaitingRetry lid => Some ((retry_check lid c).2, after_reply lid (retry_check lid c).1)
  | SendingRelease lid => Some (c, NumberingRelease lid (read_xid c))
  | NumberingRelease lid x => if may x then Some ((write_xid x c).2, Releasing lid (write_xid x c).1) else None
  | Released lid ret => match releaser_reply ret lid c with Ret (_, c') => Some (c', Idle) | Fail _ => None end
  | _ => None
  end.

Definition client_act (atomic : bool) (a : action) (c : lock_client) (p : pc) : option (lock_client * pc) :=
  match a, p with
  | AAcquire _ _ lid, Idle => Some ((acquire_check lid c).2, after_check lid (acquire_check lid c).1)
  | AReleaser _ _ lid, Idle => Some ((releaser_check lid c).2, after_releaser lid (releaser_check lid c).1)
  | ARelease _ _, Holding lid => Some ((release lid c).2, Idle)
  | ANext _ _, _ => next_piece atomic c p
  | _, _ => None
  end.

Definition act (nonce : string → Z) (atomic : bool) (a : action) (y : lock_system) : option lock_system :=
  match a with
  | AServe c t =>
      match sy_pc y c t with
      | Requesting lid x =>
          match acquire (nonce c) lid c x 0 (sy_server y) with
          | Ret (ret, _, _, s) => Some (LockSystem s (sy_client y) (<[c := <[t := Replied lid ret]> (sy_pc y c)]> (sy_pc y)))
          | Fail _ => None
          end
      | Releasing lid x =>
          match LockServerRsm.release (nonce c) lid c x 0 (sy_server y) with
          | Ret (ret, _, _, s) => Some (LockSystem s (sy_client y) (<[c := <[t := Released lid ret]> (sy_pc y c)]> (sy_pc y)))
          | Fail _ => None
          end
      | _ => None
      end
  | AAcquire c t _ | ANext c t | ARelease c t | AReleaser c t _ =>
      match client_act atomic a (sy_client y c) (sy_pc y c t) with
      | Some (cl, p) => Some (LockSystem (sy_server y) (<[c := cl]> (sy_client y)) (<[c := <[t := p]> (sy_pc y c)]> (sy_pc y)))
      | None => None
      end
  end.

Fixpoint acts (nonce : string → Z) (atomic : bool) (l : list action) (y : lock_system) : option lock_system :=
  match l with
  | [] => Some y
  | a :: l => match act nonce atomic a y with Some y => acts nonce atomic l y | None => None end
  end.

Lemma next_piece_step atomic c p c' p' : next_piece atomic c p = Some (c', p') → client_step atomic c p c' p'.
Proof.
  destruct p; cbn [next_piece]; try done.
  - intros [= <- <-]. constructor.
  - destruct (_ && _) eqn:E; [|done]. intros [= <- <-]. apply andb_true_iff in E as [E1 E2].
    apply cs_number; [|lia]. intros ->. cbn in E2. lia.
  - destruct (acquire_reply ret lid c) as [[o c1]|] eqn:E; [|done]. intros [= <- <-]. by apply cs_reply.
  - intros [= <- <-]. constructor.
  - intros [= <- <-]. constructor.
  - destruct (_ && _) eqn:E; [|done]. intros [= <- <-]. apply andb_true_iff in E as [E1 E2].
    apply cs_release_number; [|lia]. intros ->. cbn in E2. lia.
  - destruct (releaser_reply ret lid c) as [[o c1]|] eqn:E; [|done]. intros [= <- <-]. by eapply cs_releaser_reply.
Qed.

Lemma client_act_step atomic a c p c' p' : client_act atomic a c p = Some (c', p') → client_step atomic c p c' p'.
Proof.
  destruct a; cbn [client_act]; [|apply next_piece_step| | |done]; destruct p; try done; intros [= <- <-].
  - apply cs_acquire. by left.
  - apply cs_release.
  - apply cs_releaser. by left.
Qed.

Lemma act_step nonce atomic a y y' : act nonce atomic a y = Some y' → system_step nonce atomic y y'.
Proof.
  destruct y as [s cls pcs].
  destruct a as [c t lid|c t|c t|c t lid|c t]; cbn [act sy_server sy_client sy_pc];
    try (destruct (client_act _ _ _ _) as [[cl p]|] eqn:E; [|done]; intros [= <-]; apply sys_client; by eapply client_act_step).
  destruct (pcs c t) as [| | | |lid x| | | | | | |lid x|] eqn:Ep; try done.
  - destruct (acquire _ _ _ _ _ _) as [[[[ret n] wake] s']|] eqn:E; [|done]. intros [= <-]. by eapply sys_acquire.
  - destruct (LockServerRsm.release _ _ _ _ _ _) as [[[[ret n] wake] s']|] eqn:E; [|done]. intros [= <-]. by eapply sys_release.
Qed.

Lemma acts_steps nonce atomic l : ∀ y y', acts nonce atomic l y = Some y' → rtc (system_step nonce atomic) y y'.
Proof.
  induction l as [|a l IH]; intros y y'; cbn [acts]; [intros [= <-]; apply rtc_refl|].
  destruct (act nonce atomic a y) as [y1|] eqn:E; [|done]. intros H. eapply rtc_l; [by eapply act_step|by apply IH].
Qed.

Definition demo_nonce (c : string) : Z := Zpos (encode c).

Lemma demo_nonce_inj : Inj (=) (=) demo_nonce.
Proof. intros c d [= H]. by apply (inj encode) in H. Qed.

Definition demo_end (atomic : bool) (l : list action) : lock_system :=
  default system_init (acts demo_nonce atomic l system_init).

Lemma demo_end_reachable atomic l :
  is_Some (acts demo_nonce atomic l system_init) → rtc (system_step demo_nonce atomic) system_init (demo_end atomic l).
Proof. intros [y E]. unfold demo_end. rewrite E. by eapply acts_steps. Qed.

(** A thread of [c] takes a lock that is free at the server. *)
Definition take_lock (c : string) (t : nat) (lid : Z) : list action :=
  [AAcquire c t lid; ANext c t; ANext c t; AServe c t; ANext c t].
(** The releaser, as thread [t], gives it back. *)
Definition give_back (c : string) (t : nat) (lid : Z) : list action :=
  [AReleaser c t lid; ANext c t; ANext c t; AServe c t; ANext c t].

(** Lock 7 goes from [a] to [b] and back. *)
Definition demo_actions : list action :=
  take_lock "a" 0 7 ++ [ARelease "a" 0] ++ give_back "a" 1 7 ++
  take_lock "b" 0 7 ++ [ARelease "b" 0] ++ give_back "b" 1 7 ++ take_lock "a" 0 7.

Lemma lock_service_exclusion_witness :
  let y := demo_end true demo_actions in
  rtc (system_step demo_nonce true) system_init y ∧ sy_pc y "a" O = Holding 7 ∧ ("a" = "a" ∧ O = O).
Proof.
  intros y.
  assert (rtc (system_step demo_nonce true) system_init y) as Hy.
  { apply demo_end_reachable. vm_compute. eexists. reflexivity. }
  split; [exact Hy|]. split; [vm_compute; reflexivity|].
  apply (lock_service_exclusion demo_nonce y 7 "a" O "a" O);
    [exact demo_nonce_inj|exact Hy|vm_compute; reflexivity|vm_compute; reflexivity].
Defined.

(** ** An increment that is lost *)

(** Thread 2 of [a] reads the counter for lock 8 and goes on only after lock 7
    was taken and given back under the numbers 1 and 2: the counter goes back
    to 1, and the next request for lock 7 has a number the server has seen. *)
Definition lost_update_actions : list action :=
  [AAcquire "a" 2 8; ANext "a" 2] ++
  take_lock "a" 0 7 ++ [ARelease "a" 0] ++ give_back "a" 1 7 ++
  [ANext "a" 2] ++ take_lock "b" 0 7 ++ take_lock "a" 0 7.

(** The increments of [xid] need to be atomic, and they are not: when one is
    lost, a client asks for a lock with the number of its last release, the
    server takes the request for an old one and answers [OK], and two clients
    hold the lock. *)
Theorem lost_update_breaks_exclusion :
  ∃ y, rtc (system_step demo_nonce false) system_init y ∧
    sy_pc y "a" O = Holding 7 ∧ sy_pc y "b" O = Holding 7.
Proof.
  exists (demo_end false lost_update_actions). split; [|by split; vm_compute].
  apply demo_end_reachable. vm_compute. by eexists.
Qed.

(** ** A retry message that comes late *)

(** No thread of the client is between asking for the lock and giving it
    back, and its status is [RETRY]. *)
Definition wedged (cl : lock_client) (pcs : nat → pc) (lid : Z) : Prop :=
  status cl lid = RETRY ∧ ∀ t, ¬ active (pcs t) lid.

(** Every way a client moves by itself or through its handlers. *)
Inductive local_step : lock_client → (nat → pc) → lock_client → (nat → pc) → Prop :=
| ls_thread cl pcs t cl' p' :
    client_step false cl (pcs t) cl' p' → local_step cl pcs cl' (<[t := p']> pcs)
| ls_answer cl pcs t lid xid ret :
    pcs t = Requesting lid xid → local_step cl pcs cl (<[t := Replied lid ret]> pcs)
| ls_release_answer cl pcs t lid xid ret :
    pcs t = Releasing lid xid → local_step cl pcs cl (<[t := Released lid ret]> pcs)
| ls_retry cl pcs lid : local_step cl pcs (retry_handler lid cl).2 pcs
| ls_revoke cl pcs lid : local_step cl pcs (revoke_handler lid cl).2 pcs.

Lemma client_step_wedged cl p cl' p' lid :
  client_step false cl p cl' p' → ¬ active p lid → status cl lid = RETRY →
  status cl' lid = RETRY ∧ ¬ active p' lid.
Proof.
  intros Hs Hp Hst. destruct Hs as [c0 p l Hpc|c0 l|c0 l x _ Hx|c0 l ret o c1 Hr
    |c0 l|c0 l|c0 p l Hpc|c0 l|c0 l x _ Hx|c0 l ret b c1 Hr]; simpl in Hp.
  - unfold acquire_check. rewrite status_touch. destruct (decide (l = lid)) as [->|Hne].
    + rewrite Hst. simpl. rewrite status_touch; naive_solver.
    + destruct (available _); [|simpl; rewrite status_touch; naive_solver]. cbn [negb].
      destruct (bool_decide _); simpl; rewrite status_set, decide_False, status_touch by done; naive_solver.
  - done.
  - done.
  - unfold acquire_reply in Hr. destruct (ret =? lock_protocol.RETRY).
    + injection Hr as Hr. unfold retry_check in Hr.
      destruct (bool_decide _); injection Hr as <- <-; simpl; rewrite status_touch; naive_solver.
    + apply rbind_Ret in Hr as ([] & _ & [= <- <-]). simpl. rewrite status_set, decide_False by done; naive_solver.
  - unfold retry_check. destruct (bool_decide _); simpl; rewrite status_touch; naive_solver.
  - simpl. rewrite status_set, decide_False by done. naive_solver.
  - unfold releaser_check. rewrite status_touch. destruct (decide (l = lid)) as [->|Hne].
    + rewrite Hst. simpl. rewrite status_touch. naive_solver.
    + destruct (available _); [|simpl; rewrite status_touch; naive_solver]. cbn [negb].
      destruct (bool_decide _); simpl; rewrite ?status_set, ?decide_False, ?status_touch by done; naive_solver.
  - done.
  - done.
  - unfold releaser_reply in Hr. apply rbind_Ret in Hr as ([] & _ & [= <- <-]). simpl.
    rewrite status_set, decide_False by done. naive_solver.
Qed.

Lemma local_step_wedged cl pcs cl' pcs' lid :
  local_step cl pcs cl' pcs' → wedged cl pcs lid → wedged cl' pcs' lid.
Proof.
  assert (Hins : ∀ (pcs : nat → pc) t p, (∀ t', ¬ active (pcs t') lid) → ¬ active p lid →
    ∀ t', ¬ active (<[t := p]> pcs t') lid).
  { intros f t p Hf Hp t'. destruct (decide (t = t')) as [<-|Hne];
      [by rewrite fn_lookup_insert|by rewrite fn_lookup_insert_ne]. }
  destruct 1 as [cl pcs t cl' p' Hs|cl pcs t l xid ret Hp|cl pcs t l xid ret Hp|cl pcs l|cl pcs l];
    intros [Hst Hno]; split; try done.
  - by eapply client_step_wedged.
  - apply Hins; [done|]. by eapply client_step_wedged.
  - apply Hins; [done|]. specialize (Hno t). by rewrite Hp in Hno.
  - apply Hins; [done|]. specialize (Hno t). by rewrite Hp in Hno.
  - simpl. rewrite status_set. by destruct (decide (l = lid)).
Qed.

(** The steps of a client as a relation on pairs. *)
Definition local_rel (x y : lock_client * (nat → pc)) : Prop := local_step x.1 x.2 y.1 y.2.

(** [retry_handler] takes the message in any state.  When it arrives for
    a lock that no thread is asking for, the lock is lost to the client: from
    then on, whatever its threads, the releaser and the handlers do and
    whatever the server answers, no thread holds the lock or even asks the
    server for it, and every [acquire] of it waits. *)
Theorem late_retry_wedges cl pcs lid cl' pcs' :
  (∀ t, ¬ active (pcs t) lid) →
  rtc local_rel ((retry_handler lid cl).2, pcs) (cl', pcs') →
  (∀ t, pcs' t ≠ Holding lid ∧ ¬ active (pcs' t) lid) ∧ (acquire_check lid cl').1 = Wait.
Proof.
  intros Hno Hr. assert (Hw : wedged cl' pcs' lid).
  { apply (rtc_ind_r (λ x, wedged x.1 x.2 lid) ((retry_handler lid cl).2, pcs)) in Hr; [done| |].
    - split; [|done]. simpl. by rewrite status_set, decide_True.
    - intros [c1 p1] [c2 p2] _ Hs Hx. by eapply local_step_wedged. }
  destruct Hw as [Hst Hn]. split.
  - intros t. split; [|apply Hn]. intros E. apply (Hn t). by rewrite E.
  - unfold acquire_check. by rewrite status_touch, Hst.
Qed.

(** The client has lock 7 cached. *)
Definition demo_cached : lock_client := LockClient 2 {[ 7 := FREE ]}.

Lemma late_retry_wedges_witness :
  (∀ t : nat, Idle ≠ Holding 7 ∧ ¬ active Idle 7) ∧
  (acquire_check 7 (retry_handler 7 demo_cached).2).1 = Wait.
Proof. apply (late_retry_wedges demo_cached (λ _, Idle) 7 _ (λ _, Idle)); [by intros t []|apply rtc_refl]. Defined.
