(* ===== verification/LockService.v ===== *)
(** * The replicated lock service (lock_smain.cc)

    The program that starts a replica, and a call of a client carried through
    all of the parts below it: the stub of the client, the client of the
    replicated state machine, the primary, its backups, the stub of the server
    and the lock server. *)

From stdpp Require Import functions.
From S2P Require Import Prelude Marshall Protocols Stubs Streams Paxos Handle Config Rsm RsmClient LockServerRsm.

(** ** The program *)

(** The methods as [reg] takes them; the threads they wake run on their
    own. *)
Definition acquire_meth (clt : int) (lid : ullong) (id : string) (xid : ullong) (r : int) (s : lock_server)
    : res (Z * int * lock_server) :=
  '(ret, r, _, s) ← acquire clt lid id xid r s; Ret (ret, r : int, s).
Definition release_meth (clt : int) (lid : ullong) (id : string) (xid : ullong) (r : int) (s : lock_server)
    : res (Z * int * lock_server) :=
  '(ret, r, _, s) ← release clt lid id xid r s; Ret (ret, r : int, s).
Definition stat_meth (lid : ullong) (r : int) (s : lock_server) : res (Z * int * lock_server) :=
  '(ret, r, s) ← stat lid r s; Ret (ret, r : int, s).

(** The registration of the methods. *)
Definition register_locks (s : rsm lock_server) : rsm lock_server :=
  let s := set_state_transfer s in
  let s := reg1 s lock_protocol.acquire (rsm_reg4 acquire_meth) in
  let s := reg1 s lock_protocol.release (rsm_reg4 release_meth) in
  reg1 s lock_protocol.stat (rsm_reg1 stat_meth).

(** [main] on [argv]; [file] is the log the node finds. *)
Definition lock_smain (argv : list string) (file : list ascii) : res (rsm lock_server) :=
  match argv with
  | [_; first; me] =>
      s ← rsm_new first me file lock_server_new;
      Ret (register_locks s)
  | _ => Fail Exited
  end.

(** ** A call through the state machine *)

Lemma rsm_reg4_tuple {S R A1 A2 A3 A4 : Type} `{!Marshal R, !Inhabited R} `{!Marshal A1, !Inhabited A1} `{!Marshal A2, !Inhabited A2}
    `{!Marshal A3, !Inhabited A3} `{!Marshal A4, !Inhabited A4} (meth : A1 → A2 → A3 → A4 → R → S → res (Z * R * S)) args ret s :
  rsm_reg4 meth args ret s =
  rsm_reg1 (λ p : A1 * (A2 * (A3 * A4)), meth p.1 p.2.1 p.2.2.1 p.2.2.2) args ret s.
Proof. unfold rsm_reg4, rsm_reg1. run_stub. Qed.

Lemma rsm_client_call4_tuple {R T A1 A2 A3 A4 : Type} `{!Marshal R} `{!Marshal A1} `{!Marshal A2} `{!Marshal A3} `{!Marshal A4}
    fill invoke proc (a1 : A1) (a2 : A2) (a3 : A3) (a4 : A4) (r : R) (t : T) :
  rsm_client_call4 fill invoke proc a1 a2 a3 a4 r t = rsm_client_call1 fill invoke proc (a1, (a2, (a3, a4))) r t.
Proof. unfold rsm_client_call4, rsm_client_call1. run_stub. Qed.

(** The reply of [execute]: the status and the reply of the method, as a
    string in a string. *)
Definition reply_text {R} `{MarshalOk R} (b : Z) (r : R) : list ascii := enc (A:=int * string) (b, of_chars (enc r)).

(** A method returned [b] and [r], and the reply has room for them. *)
Record replies {R} `{MarshalOk R} (b : Z) (r : R) : Prop := {
  replies_ret : 0 ≤ b < 2 ^ 31;
  replies_wf : wf r;
  replies_fits : fits (enc r);
  replies_text : wf (A:=int * string) (b, of_chars (enc r)) ∧ fits (reply_text b r) }.

Section transparent.
Context {S A R : Type} `{!StateTransfer S} `{MarshalOk A} `{MarshalOk R} `{!Inhabited A, !Inhabited R}.

(** A node executes a request for a registered method. *)
Lemma execute_method fill (s : rsm S) proc (h : handler S) (meth : A → R → S → res (Z * R * S)) a b r o :
  default None (rm_procs s !! proc) = Some h → (∀ args ret s, h args ret s = rsm_reg1 meth args ret s) →
  wf a → fits (enc a) → meth a inhabitant (rm_obj s) = Ret (b, r, o) → replies b r →
  ∃ s', execute fill s proc (of_chars (enc a)) = Ret (of_chars (reply_text b r), s') ∧ rm_obj s' = o.
Proof.
  intros Hproc Hh Ha Hf Hm [Hb Hr Hfr [Ht Hft]]. unfold execute.
  pose proof (map_ref_fst None (rm_procs s) proc) as E1. destruct (map_ref None (rm_procs s) proc) as [h' procs]. cbn [fst] in E1.
  rewrite Hproc in E1. subst h'. rewrite Hh. unfold rsm_reg1. cbn [rm_obj set_procs].
  pose proof (take_content_reads fill _ Hf) as R1. rewrite <- (app_nil_r (enc a)) in R1 at 2.
  destruct (get_ok _ _ a inhabitant R1 Ha) as (u & -> & R2). cbn [rbind].
  rewrite (reads_okdone _ _ R2), bool_decide_eq_true_2 by done. rewrite VERIFY_true by done. cbn [rbind]. rewrite Hm. cbn [rbind].
  destruct (put_ok (marshall_new fill) _ [] r (marshall_new_rep fill) Hr Hfr) as (m1 & -> & R3). cbn [rbind].
  rewrite (m_str_rep _ _ _ R3). cbn [app] in *.
  destruct (put_ok (marshall_new fill) _ [] (b, of_chars (enc r)) (marshall_new_rep fill) Ht Hft) as (m2 & E2 & R4).
  cbn [put marshal_pair] in E2. unfold put_pair in E2. apply rbind_Ret in E2 as (m3 & E3 & E4). cbn [fst snd] in E3, E4.
  rewrite E3. cbn [rbind]. rewrite E4. cbn [rbind]. rewrite (m_str_rep _ _ _ R4). cbn [rbind]. by eexists.
Qed.

(** The stub of the client decodes that reply. *)
Lemma client_call_decodes {T} fill (invoke : Z → string → T → res (Z * string * T)) proc (a : A) (b : Z) (r r0 : R) (t t' : T) :
  wf a → fits (enc a) → replies b r →
  invoke proc (of_chars (enc a)) t = Ret (rsm_client_protocol.OK, of_chars (reply_text b r), t') →
  rsm_client_call1 fill invoke proc a r0 t = Ret (b, r, t').
Proof.
  intros Ha Hf [Hb Hr Hfr [Ht Hft]] Hi. unfold rsm_client_call1.
  destruct (put_fresh fill a Ha Hf) as (m & -> & Es). cbn [rbind]. unfold rsm_client_call_m. rewrite Es. cbn [rbind].
  rewrite Hi. cbn [rbind]. rewrite VERIFY_true by done. cbn [rbind].
  pose proof (take_content_reads fill _ Hft) as R1. unfold reply_text in R1 at 2. rewrite <- (app_nil_r (enc _)) in R1.
  destruct (get_ok _ _ (b, of_chars (enc r)) (rsm_client_protocol.OK : int, "") R1 Ht) as (u & E & R2).
  cbn [get marshal_pair] in E. unfold get_pair in E. apply rbind_Ret in E as ([b1 u1] & E1 & E2). cbn [fst snd] in E1, E2.
  apply rbind_Ret in E2 as ([s1 u2] & E3 & [= -> -> ->]). rewrite E1. cbn [rbind].
  replace (b <? 0) with false by lia. rewrite E3. cbn [rbind]. rewrite (reads_okdone _ _ R2), bool_decide_eq_true_2 by done.
  rewrite VERIFY_true by done. cbn [rbind].
  pose proof (take_content_reads fill _ Hfr) as R3. rewrite <- (app_nil_r (enc r)) in R3 at 2.
  destruct (get_ok _ _ r r0 R3 Hr) as (u3 & -> & R4). cbn [rbind]. rewrite (reads_okdone _ _ R4), bool_decide_eq_true_2 by done.
  by rewrite VERIFY_true.
Qed.
End transparent.

(** ** A group of replicas *)

Section group.
Context {S : Type} `{!StateTransfer S} (fill : ascii).

(** The nodes that run; the other calls between them are [base]. *)
Abbreviation group := (gmap string (rsm S)).
Context (base : rsm_net group).

(** A node that aborts does not answer any more. *)
Definition group_net : rsm_net group :=
  RsmNet
    (λ t proc vs req g,
      match g !! t with
      | None => (None, g)
      | Some n =>
          match Rsm.invoke fill n proc vs req with
          | Ret (ret, n) => (Some ret, <[t := n]> g)
          | Fail _ => (Some rpc_const.timeout_failure, delete t g)
          end
      end)
    (rn_transfer base) (rn_transferdone base) (rn_join base) (rn_reachable base) (rn_add base).

Definition group_client_net : client_net group :=
  ClientNet
    (λ n proc req g,
      match g !! n with
      | None => (None, g)
      | Some s =>
          match client_invoke group_net fill s proc req "" g with
          | Ret (ret, rep, s, g) => (Some (ret, rep), <[n := s]> g)
          | Fail _ => (Some (rpc_const.timeout_failure, ""), delete n g)
          end
      end)
    (λ n g,
      match g !! n with
      | None => (None, g)
      | Some s => let '(ret, l, s) := client_members s in (Some (ret, l), <[n := s]> g)
      end).

(** [rsm_client::invoke] for the stubs, with at most [fuel] turns. *)
Definition rsmc_invoke (fuel : nat) (proc : Z) (req : string) (t : rsm_client * group)
    : res (Z * string * (rsm_client * group)) :=
  '(o, c, g) ← RsmClient.invoke group_client_net fuel t.1 proc req t.2;
  match o with
  | Some (ret, rep) => Ret (ret, rep, (c, g))
  | None => Fail UndefinedBehaviour
  end.

(** A node of the view [view] with primary [p] and objects [o]. *)
Record steady_node (o : S) (procs : Z → option (handler S)) (p : string) (vs : viewstamp) (view : list string) (me : string)
    (s : rsm S) : Prop := {
  sn_me : myaddr s = me;
  sn_primary : primary s = p;
  sn_change : inviewchange s = false;
  sn_view : members_of s (vid_commit s) = view;
  sn_break : break1 s = false;
  sn_part : dopartition s = false;
  sn_vs : myvs s = vs;
  sn_obj : rm_obj s = o;
  sn_procs : ∀ q, default None (rm_procs s !! q) = procs q }.

(** All members of the view run, in the same state. *)
Record steady (o : S) (procs : Z → option (handler S)) (p : string) (vs : viewstamp) (view : list string) (g : group) : Prop := {
  sg_primary : p ∈ view;
  sg_nodup : NoDup view;
  sg_nodes : ∀ n, n ∈ view → ∃ s, g !! n = Some s ∧ steady_node o procs p vs view n s }.

Context (procs : Z → option (handler S)) (p : string) (vs : viewstamp) (members : list string).
Abbreviation node := (λ o, steady_node o procs p vs members).
Abbreviation quiet := (λ o, steady o procs p vs members).

Lemma steady_view o me s : node o me s → ∃ s', view s (vid_commit s) = (members, s') ∧ node o me s'.
Proof.
  intros [H1 H2 H3 H4 H5 H6 H7 H8 H9]. destruct (view_eq s (vid_commit s)) as (c & E & Em & _ & Hv).
  exists (set_cfg s c). split; [by rewrite E, H4|]. split; try done; [by rewrite <- H1|]. by rewrite <- H4, <- Hv.
Qed.

Lemma steady_execute o o' proc req rep me s :
  (∀ s, rm_obj s = o → (∀ q, default None (rm_procs s !! q) = procs q) →
    ∃ s', execute fill s proc req = Ret (rep, s') ∧ rm_obj s' = o') →
  node o me s → ∃ s', execute fill s proc req = Ret (rep, s') ∧ node o' me s'.
Proof.
  intros Hex [H1 H2 H3 H4 H5 H6 H7 H8 H9]. destruct (Hex s H8 H9) as (s' & E & Eo). exists s'. split; [done|].
  revert E. unfold execute. pose proof (map_ref_snd_default None (rm_procs s) proc) as Hd.
  destruct (map_ref None (rm_procs s) proc) as [[h|] ps]; [|done]. cbn [snd] in Hd.
  intros ([[ret r1] o1] & _ & (r2 & _ & (str & _ & (r3 & _ & (r4 & _ & [= _ <-])%rbind_Ret)%rbind_Ret)%rbind_Ret)%rbind_Ret)%rbind_Ret.
  split; try done. intros q. cbn. by rewrite Hd.
Qed.

Section request.
Context (o o' : S) (proc : Z) (req rep : string).
Context (Hexec : ∀ s : rsm S, rm_obj s = o → (∀ q, default None (rm_procs s !! q) = procs q) →
  ∃ s', execute fill s proc req = Ret (rep, s') ∧ rm_obj s' = o').

Lemma steady_backup me s : me ≠ p → node o me s →
  ∃ s', Rsm.invoke fill s proc vs req = Ret (rsm_protocol.OK, s') ∧ node o' me s'.
Proof.
  intros Hne Hs. destruct (steady_execute o o' proc req rep me s Hexec Hs) as (s' & E & Hs'). exists s'. split; [|done].
  destruct Hs as [H1 H2 H3 H4 H5 H6 H7 H8 H9]. unfold Rsm.invoke, amiprimary. rewrite H3, H2, H1, bool_decide_eq_false_2 by done. cbn [andb].
  rewrite H7. replace (viewstamp_eqb vs vs) with true by (symmetry; by apply viewstamp_eqb_eq). cbn [negb]. rewrite E. cbn [rbind].
  unfold breakpoint1. by rewrite (sn_break _ _ _ _ _ _ _ Hs').
Qed.

(** The loop of the primary over the view. *)
Lemma steady_backups s values : ∀ g,
  node o p s → NoDup values →
  (∀ n, n ∈ values → n ≠ p → ∃ t, g !! n = Some t ∧ node o n t) →
  ∃ g', invoke_backups group_net s proc req values g = Ret (true, s, g') ∧
    (∀ n, n ∈ values → n ≠ p → ∃ t, g' !! n = Some t ∧ node o' n t) ∧
    (∀ n, n ∉ values → g' !! n = g !! n).
Proof.
  intros g Hs. revert g. induction values as [|n values IH]; intros g Hnd Hg; cbn [invoke_backups].
  { exists g. split_and!; [done|by intros ? ?%elem_of_nil|done]. }
  apply NoDup_cons in Hnd as [Hn Hnd]. rewrite (sn_me _ _ _ _ _ _ _ Hs).
  destruct (bool_decide_reflect (n = p)) as [->|Hne].
  - destruct (IH g) as (g' & E & H1 & H2); [done|intros n' Hn'; apply Hg; by right|]. exists g'. split_and!; [done| |].
    + intros n' [->|Hn']%elem_of_cons Hne; [done|by apply H1].
    + intros n' [_ Hn']%not_elem_of_cons. by apply H2.
  - destruct (Hg n) as (t & Et & Ht); [by left|done|]. cbn [rn_invoke group_net]. rewrite Et, (sn_vs _ _ _ _ _ _ _ Hs).
    destruct (steady_backup n t Hne Ht) as (t' & E & Ht'). rewrite E. unfold breakpoint1, partition1.
    rewrite (sn_break _ _ _ _ _ _ _ Hs), (sn_part _ _ _ _ _ _ _ Hs). cbn [rbind].
    change (rsm_protocol.OK =? rsm_protocol.OK) with true. cbv iota.
    destruct (IH (<[n := t']> g)) as (g' & E' & H1 & H2); [done| |].
    { intros n' Hn' Hne'. rewrite lookup_insert_ne by (by intros ->). apply Hg; [by right|done]. }
    exists g'. split_and!; [done| |].
    + intros n' [->|Hn']%elem_of_cons Hne'; [|by apply H1]. exists t'. by rewrite H2, lookup_insert_eq.
    + intros n' [Hne' Hn']%not_elem_of_cons. rewrite H2 by done. by rewrite lookup_insert_ne.
Qed.

(** A request at the primary is executed by all members. *)
Lemma steady_request g : quiet o g →
  ∃ g', cn_invoke group_client_net p proc req g = (Some (rsm_client_protocol.OK, rep), g') ∧ quiet o' g'.
Proof.
  intros [Hp Hnd Hg]. destruct (Hg p Hp) as (s & Es & Hs). cbn [cn_invoke group_client_net]. rewrite Es.
  unfold client_invoke, amiprimary. rewrite (sn_change _ _ _ _ _ _ _ Hs), (sn_primary _ _ _ _ _ _ _ Hs), (sn_me _ _ _ _ _ _ _ Hs).
  rewrite bool_decide_eq_true_2 by done. cbn [negb andb].
  destruct (steady_view o p s Hs) as (s1 & -> & Hs1).
  destruct (steady_backups s1 members g Hs1 Hnd) as (g' & -> & H1 & H2); [intros n Hn _; by apply Hg|]. cbn [rbind negb].
  destruct (steady_execute o o' proc req rep p s1 Hexec Hs1) as (s2 & -> & Hs2). cbn [rbind].
  exists (<[p := s2]> g'). split; [done|]. split; [done|done|]. intros n Hn. destruct (decide (n = p)) as [->|Hne].
  - exists s2. by rewrite lookup_insert_eq.
  - rewrite lookup_insert_ne by done. by apply H1.
Qed.
End request.

(** Another member names the primary. *)
Lemma steady_redirect o n proc req g : quiet o g → n ∈ members → n ≠ p →
  ∃ g1 g2, cn_invoke group_client_net n proc req g = (Some (rsm_client_protocol.NOTPRIMARY, ""), g1) ∧
    cn_members group_client_net n g1 = (Some (rsm_protocol.OK, members ++ [p]), g2) ∧ quiet o g2.
Proof.
  intros [Hp Hnd Hg] Hn Hne. destruct (Hg n Hn) as (s & Es & Hs). destruct (steady_view o n s Hs) as (s1 & Ev & Hs1).
  cbn [cn_invoke cn_members group_client_net]. rewrite Es.
  unfold client_invoke, amiprimary. rewrite (sn_change _ _ _ _ _ _ _ Hs), (sn_primary _ _ _ _ _ _ _ Hs), (sn_me _ _ _ _ _ _ _ Hs).
  rewrite bool_decide_eq_false_2 by done. cbn [negb andb]. do 2 eexists. split; [done|]. rewrite lookup_insert_eq.
  unfold client_members. rewrite Ev. cbv beta iota zeta. rewrite (sn_primary _ _ _ _ _ _ _ Hs1).
  split; [reflexivity|].
  rewrite insert_insert_eq. split; [done|done|]. intros n' Hn'. destruct (decide (n' = n)) as [->|].
  - exists s1. by rewrite lookup_insert_eq.
  - rewrite lookup_insert_ne by done. by apply Hg.
Qed.
End group.

(** ** The calls of the lock clients *)

(** The procedures that [lock_smain] registers. *)
Definition lock_procs (q : Z) : option (handler lock_server) :=
  if q =? lock_protocol.stat then Some (rsm_reg1 stat_meth : handler lock_server)
  else if q =? lock_protocol.release then Some (rsm_reg4 release_meth : handler lock_server)
  else if q =? lock_protocol.acquire then Some (rsm_reg4 acquire_meth : handler lock_server) else None.

Lemma register_locks_procs s : rm_procs s = ∅ → ∀ q, default None (rm_procs (register_locks s) !! q) = lock_procs q.
Proof.
  intros Ep q. cbn. rewrite Ep. unfold lock_procs.
  destruct (Z.eqb_spec q lock_protocol.stat) as [->|H1]; [by rewrite lookup_insert_eq|].
  rewrite lookup_insert_ne by congruence. destruct (Z.eqb_spec q lock_protocol.release) as [->|H2]; [by rewrite lookup_insert_eq|].
  rewrite lookup_insert_ne by congruence. destruct (Z.eqb_spec q lock_protocol.acquire) as [->|H3]; [by rewrite lookup_insert_eq|].
  by rewrite lookup_insert_ne by congruence.
Qed.

(** What every replica starts with. *)
Lemma lock_smain_started argv file s : lock_smain argv file = Ret s →
  rm_obj s = lock_server_new ∧ rm_stf s = true ∧ ∀ q, default None (rm_procs s !! q) = lock_procs q.
Proof.
  destruct argv as [|prog [|first [|me [|x argv]]]]; try done. cbn [lock_smain]. intros (s0 & E & [= <-])%rbind_Ret.
  apply rsm_new_Ret in E as (_ & Eo & Ep). split_and!; [done|done|]. by apply register_locks_procs.
Qed.

(** A call of a lock client: [acquire] or [release] of a lock. *)
Record lock_call := LockCall { q_acquire : bool; q_clt : int; q_lid : ullong; q_id : string; q_xid : ullong }.

Definition call_proc (q : lock_call) : Z := if q_acquire q then lock_protocol.acquire else lock_protocol.release.
Definition call_meth (q : lock_call) : int → ullong → string → ullong → int → lock_server → res (Z * int * lock_server) :=
  if q_acquire q then acquire_meth else release_meth.

(** The method of a lock server that is not replicated. *)
Definition serve_call (q : lock_call) (s : lock_server) : res (Z * int * lock_server) :=
  call_meth q (q_clt q) (q_lid q) (q_id q) (q_xid q) 0 s.

(** [rsmc->call(...)] of the lock client whose state-machine client is
    [t.1]. *)
Definition rsm_call fill base fuel (q : lock_call) (r : int) (t : rsm_client * gmap string (rsm lock_server))
    : res (Z * int * (rsm_client * gmap string (rsm lock_server))) :=
  rsm_client_call4 fill (rsmc_invoke fill base fuel) (call_proc q) (q_clt q) (q_lid q) (q_id q) (q_xid q) r t.

Definition wf_call (q : lock_call) : Prop :=
  in_s32 (q_clt q) ∧ in_u64 (q_lid q) ∧ in_u64 (q_xid q) ∧ string_size (q_id q) < 2 ^ 20.

Abbreviation call_args q := (q_clt q, (q_lid q, (q_id q, q_xid q))).

Lemma wf_args q : wf_call q →
  wf (A:=int * (ullong * (string * ullong))) (call_args q) ∧ fits (enc (A:=int * (ullong * (string * ullong))) (call_args q)).
Proof.
  intros (H1 & H2 & H3 & H4). split; [split; [exact H1|split; [exact H2|split; [cbn; lia|exact H3]]]|].
  unfold fits. pose proof hdr_sz. cbn [enc pair_ok fst snd int_ok ullong_ok string_ok].
  rewrite !length_app, !length_be32, length_chars. unfold string_size in H4. lia.
Qed.

Lemma int_replies b (r : int) : 0 ≤ b < 2 ^ 31 → in_s32 r → replies b r.
Proof.
  intros Hb Hr. pose proof hdr_sz. assert (length (enc r) = 4%nat) as El by apply length_be32.
  split; [done|exact Hr|unfold fits; rewrite El; lia|]. split.
  - split; [cbn; wrap_unfold; lia|]. cbn [wf string_ok snd]. unfold string_size. rewrite length_of_chars, El. lia.
  - unfold fits, reply_text. cbn [enc pair_ok fst snd string_ok]. rewrite !length_app, chars_of_chars, El, length_be32.
    cbn [enc int_ok]. rewrite length_be32. lia.
Qed.

Section service.
Context (fill : ascii) (base : rsm_net (gmap string (rsm lock_server))).
Context (p : string) (vs : viewstamp) (members : list string).
Abbreviation steady := (λ o, LockService.steady o lock_procs p vs members).

(** A member executes the request of a call. *)
Lemma execute_call q b (r : int) o o' (s : rsm lock_server) :
  wf_call q → serve_call q o = Ret (b, r, o') → replies b r →
  rm_obj s = o → (∀ proc, default None (rm_procs s !! proc) = lock_procs proc) →
  ∃ s', execute fill s (call_proc q) (of_chars (enc (A:=int * (ullong * (string * ullong))) (call_args q)))
    = Ret (of_chars (reply_text b r), s') ∧ rm_obj s' = o'.
Proof.
  intros Hq Hs Hr Eo Hp. destruct (wf_args q Hq) as [Hw Hf].
  apply (execute_method fill s (call_proc q) (rsm_reg4 (call_meth q) : handler lock_server)
    (λ a : int * (ullong * (string * ullong)), call_meth q a.1 a.2.1 a.2.2.1 a.2.2.2) (call_args q)); [| |done|done| |done].
  - rewrite Hp. unfold call_proc, call_meth. by destruct (q_acquire q).
  - intros args ret s0. apply rsm_reg4_tuple.
  - rewrite Eo. exact Hs.
Qed.

Lemma rsm_call_steady fuel q r0 c g b r o o' :
  steady o g → rcl_primary c ∈ members → (2 ≤ fuel)%nat → wf_call q →
  serve_call q o = Ret (b, r, o') → 0 ≤ b < 2 ^ 31 → in_s32 r →
  ∃ c' g', rsm_call fill base fuel q r0 (c, g) = Ret (b, r, (c', g')) ∧ rcl_primary c' = p ∧ steady o' g'.
Proof.
  intros Hg Hc Hfuel Hq Hs Hb Hr. pose proof (int_replies b r Hb Hr) as Hrep. destruct (wf_args q Hq) as [Hw Hf].
  set (req := of_chars (enc (call_args q))). set (rep := of_chars (reply_text b r)).
  assert (∀ g, steady o g → ∃ g', cn_invoke (group_client_net fill base) p (call_proc q) req g = (Some (rsm_client_protocol.OK, rep), g') ∧ steady o' g') as Hreq.
  { intros g0. apply steady_request. intros s Eo Hp. by apply (execute_call q b r o o' s). }
  assert (∃ c' g', rsmc_invoke fill base fuel (call_proc q) req (c, g) = Ret (rsm_client_protocol.OK, rep, (c', g')) ∧
    rcl_primary c' = p ∧ steady o' g') as (c' & g' & E & Hc' & Hg').
  { unfold rsmc_invoke. cbn [fst snd]. destruct fuel as [|[|fuel]]; [lia..|]. cbn [RsmClient.invoke]. unfold invoke_turn at 1.
    destruct (decide (rcl_primary c = p)) as [Ep|Hne].
    - destruct (Hreq g Hg) as (g' & E & Hg'). rewrite Ep, E. change (rsm_client_protocol.OK =? rsm_client_protocol.OK) with true.
      cbv iota. cbn [rbind]. by exists c, g'.
    - destruct (steady_redirect fill base lock_procs p vs members o (rcl_primary c) (call_proc q) req g Hg Hc Hne) as (g1 & g2 & E1 & E2 & Hg2).
      rewrite E1. change (rsm_client_protocol.NOTPRIMARY =? rsm_client_protocol.OK) with false.
      change (rsm_client_protocol.NOTPRIMARY =? rsm_client_protocol.BUSY) with false.
      change (rsm_client_protocol.NOTPRIMARY =? rsm_client_protocol.NOTPRIMARY) with true. cbv iota.
      rewrite E2, init_members_view. cbn [rbind]. unfold invoke_turn. cbn [rcl_primary].
      destruct (Hreq g2 Hg2) as (g' & E & Hg'). rewrite E. change (rsm_client_protocol.OK =? rsm_client_protocol.OK) with true.
      cbv iota. cbn [rbind]. by exists (RsmClient p members), g'. }
  exists c', g'. split; [|done]. unfold rsm_call. rewrite rsm_client_call4_tuple.
  exact (client_call_decodes (A:=int * (ullong * (string * ullong))) (R:=int) fill _ _ _ _ _ _ _ _ Hw Hf Hrep E).
Qed.

(** A sequence of calls, each by the client of its name. *)
Fixpoint call_all (fuel : nat) (cl : string → rsm_client) (qs : list lock_call) (g : gmap string (rsm lock_server))
    : res (list (Z * int) * gmap string (rsm lock_server)) :=
  match qs with
  | [] => Ret ([], g)
  | q :: qs =>
      '(b, r, (c, g)) ← rsm_call fill base fuel q 0 (cl (q_id q), g);
      '(l, g) ← call_all fuel (<[q_id q := c]> cl) qs g;
      Ret ((b, r) :: l, g)
  end.
End service.

(** The same calls at one lock server. *)
Fixpoint serve_calls (qs : list lock_call) (s : lock_server) : res (list (Z * int) * lock_server) :=
  match qs with
  | [] => Ret ([], s)
  | q :: qs =>
      '(b, r, s) ← serve_call q s;
      '(l, s) ← serve_calls qs s;
      Ret ((b, r) :: l, s)
  end.

Lemma serve_call_total q s : Z.abs (ls_nacquire s) + 1 < 2 ^ 31 →
  ∃ b r s', serve_call q s = Ret (b, r, s') ∧ 0 ≤ b < 2 ^ 31 ∧ in_s32 r ∧ Z.abs (ls_nacquire s') ≤ Z.abs (ls_nacquire s) + 1.
Proof.
  intros Hn. unfold serve_call, call_meth. destruct (q_acquire q).
  - unfold acquire_meth, acquire. destruct (lock_id_ref _ _ _) as [last ids].
    destruct (_ <? last); [|destruct (_ =? last)]; [..|destruct (map_ref _ _ _) as [queue lists]; destruct (_ =? 0)];
      do 3 eexists; (split; [reflexivity|]); cbn; wrap_unfold; unfold lock_protocol.OK, lock_protocol.RETRY; lia.
  - unfold release_meth, release. destruct (lock_id_ref _ _ _) as [last ids].
    destruct (_ <? last); [|destruct (_ =? last)];
      [..|destruct (map_ref _ _ _) as [[|x queue] lists]; [|destruct (bool_decide _)]];
      do 3 eexists; (split; [reflexivity|]); cbn; wrap_unfold; unfold lock_protocol.OK; lia.
Qed.

(** C5: The replicated lock service is one lock server.  In a group of
    replicas that all run, with the procedures [lock_smain] registers and
    settled in a view, any sequence of calls of any clients, each sent to whatever member the client
    takes for the primary, is answered as one lock server that is not
    replicated would answer it, and afterwards every member has the state of
    that server. *)
Theorem lock_service_replicated fill base fuel cl qs p vs members o g :
  steady o lock_procs p vs members g → (∀ id, rcl_primary (cl id) ∈ members) → (2 ≤ fuel)%nat →
  Forall wf_call qs → Z.abs (ls_nacquire o) + Z.of_nat (length qs) < 2 ^ 31 →
  ∃ l o' g', serve_calls qs o = Ret (l, o') ∧ call_all fill base fuel cl qs g = Ret (l, g') ∧
    steady o' lock_procs p vs members g'.
Proof.
  intros Hg Hcl Hfuel Hqs. revert cl o g Hg Hcl. induction Hqs as [|q qs Hq Hqs IH]; intros cl o g Hg Hcl Hn.
  { by exists [], o, g. }
  cbn [length] in Hn. destruct (serve_call_total q o) as (b & r & o1 & E & Hb & Hr & Hn1); [lia|].
  destruct (rsm_call_steady fill base p vs members fuel q 0 (cl (q_id q)) g b r o o1) as (c & g1 & E1 & Hc & Hg1); [done..|].
  destruct (IH (<[q_id q := c]> cl) o1 g1) as (l & o' & g' & E2 & E3 & Hg'); [done| |lia|].
  { intros id. destruct (decide (id = q_id q)) as [->|]; [|by rewrite fn_lookup_insert_ne].
    rewrite fn_lookup_insert, Hc. apply (sg_primary _ _ _ _ _ _ Hg). }
  exists ((b, r) :: l), o', g'. cbn [serve_calls call_all]. rewrite E, E1. cbn [rbind]. rewrite E2, E3. by split_and!.
Qed.

(** Two nodes in view 2, with node a as the primary. *)
Definition demo_lock_node (me : string) : rsm lock_server :=
  register_locks (Rsm ∅
    (Config me 2 ["a"; "b"]
       (Acceptor me true (Prop_t 0 me) (Prop_t 0 me) "" 3 {[1 := "a "; 2 := "a b "]} []) true)
    true (Viewstamp 2 1) (Viewstamp 0 0) "a" false false 2 2 [] false false false false true lock_server_new).

Definition demo_group : gmap string (rsm lock_server) := {[ "a" := demo_lock_node "a"; "b" := demo_lock_node "b" ]}.
Definition demo_base : rsm_net (gmap string (rsm lock_server)) :=
  RsmNet (λ _ _ _ _ w, (None, w)) (λ _ _ _ _ w, (None, w)) (λ _ _ _ w, (None, w)) (λ _ _ _ w, (None, w))
    (λ _ _ w, w) (λ c _ _ w, Ret (false, c, w)).

Lemma demo_group_steady : steady lock_server_new lock_procs "a" (Viewstamp 2 1) ["a"; "b"] demo_group.
Proof.
  split; [apply (bool_decide_unpack _); vm_compute; exact I|apply (bool_decide_unpack _); vm_compute; exact I|]. intros n [->|[->|[]%elem_of_nil]%elem_of_cons]%elem_of_cons.
  - exists (demo_lock_node "a"). split; [reflexivity|]. split; try reflexivity. by apply register_locks_procs.
  - exists (demo_lock_node "b"). split; [reflexivity|]. split; try reflexivity. by apply register_locks_procs.
Qed.

(** Client c1 takes lock 7, client c2 asks for it and c1 gives it back. *)
Definition demo_calls : list lock_call :=
  [LockCall true 11 7 "c1" 1; LockCall true 22 7 "c2" 1; LockCall false 11 7 "c1" 2].

Lemma lock_service_replicated_witness : ∃ l o' g',
  serve_calls demo_calls lock_server_new = Ret (l, o') ∧
  call_all "x" demo_base 2 (λ _, RsmClient "b" []) demo_calls demo_group = Ret (l, g') ∧
  steady o' lock_procs "a" (Viewstamp 2 1) ["a"; "b"] g'.
Proof.
  apply (lock_service_replicated "x" demo_base 2 (λ _, RsmClient "b" []) demo_calls "a" (Viewstamp 2 1) ["a"; "b"]
    lock_server_new demo_group demo_group_steady).
  - intros _. right. left.
  - lia.
  - repeat constructor; cbn; wrap_unfold; vm_compute; done.
  - vm_compute. reflexivity.
Defined.
