(* ===== verification/LockTester.v ===== *)
(** * The tester of the lock service (lock_tester.cc)

    The threads of the five tests as programs over the caching lock clients,
    run against the system of LockClientRsm.v: calls of [acquire] go through
    the client and the server as they do there, interleaved with everything
    else that happens in the system, and the checks work on the array [ct].  A
    thread that holds several locks has one slot of the client's threads for
    each. *)

From stdpp Require Import functions.
From S2P Require Import Prelude Marshall Protocols Stubs Paxos Handle Config Rsm LockServerRsm LockClientRsm Streams Sockaddr.

(** ** The checks *)

(** [lid & 0xff]. *)
Definition ct_index (lid : Z) : nat := Z.to_nat (Z.land lid 0xff).

Definition check_grant (ct : list Z) (lid : Z) : res (list Z) :=
  match ct !! ct_index lid with
  | None => Fail UndefinedBehaviour
  | Some n => if negb (n =? 0) then Fail Exited else Ret (<[ct_index lid := n + 1]> ct)
  end.

Definition check_release (ct : list Z) (lid : Z) : res (list Z) :=
  match ct !! ct_index lid with
  | None => Fail UndefinedBehaviour
  | Some n => if negb (n =? 1) then Fail Exited else Ret (<[ct_index lid := n - 1]> ct)
  end.

(** ** The tests *)

Inductive instr :=
| Acquire (c : nat) (lid : Z)
| CheckGrant (lid : Z)
| CheckRelease (lid : Z)
| Release (c : nat) (lid : Z).

Definition nt : nat := 6.
Definition a : Z := 1.
Definition b : Z := 2.

Definition test1 : list instr :=
  [Acquire 0 a; CheckGrant a; Release 0 a; CheckRelease a;
   Acquire 0 a; CheckGrant a; Release 0 a; CheckRelease a;
   Acquire 0 a; CheckGrant a; Acquire 0 b; CheckGrant b;
   Release 0 b; CheckRelease b; Release 0 a; CheckRelease a].

Definition test2 (i : nat) : list instr := [Acquire i a; CheckGrant a; CheckRelease a; Release i a].

Definition test3 (i : nat) : list instr :=
  mjoin (replicate 10 [Acquire i a; CheckGrant a; CheckRelease a; Release i a]).

Definition test4 (i : nat) : list instr :=
  mjoin (replicate 10 [Acquire 0 a; CheckGrant a; CheckRelease a; Release 0 a]).

Definition test5 (i : nat) : list instr :=
  let c := if (i <? 5)%nat then 0%nat else 1%nat in
  mjoin (replicate 10 [Acquire c a; CheckGrant a; CheckRelease a; Release c a]).

(** A thread: what is left of its program, the locks its calls have obtained
    and those it has counted. *)
Record thread := Thread { th_rest : list instr; th_held : list (nat * Z); th_granted : list Z }.
Definition spawn (p : list instr) : thread := Thread p [] [].

(** [main]: the tests that are run, each with its threads, for the argument
    [test]. *)
Definition phases (test : Z) : list (list thread) :=
  (if (test =? 0) || (test =? 1) then [[spawn test1]] else []) ++
  (if (test =? 0) || (test =? 2) then [spawn ∘ test2 <$> seq 0 nt] else []) ++
  (if (test =? 0) || (test =? 3) then [spawn ∘ test3 <$> seq 0 nt] else []) ++
  (if (test =? 0) || (test =? 4) then [spawn ∘ test4 <$> seq 0 2] else []) ++
  (if (test =? 0) || (test =? 5) then [spawn ∘ test5 <$> seq 0 nt] else []).

(** ** Running them *)

(** The slot of thread [th] for a lock. *)
Definition slot (th : nat) (lid : Z) : nat := (4 * th + Z.to_nat lid)%nat.
Definition tester_slot (t : nat) : Prop := (t < 4 * (nt + 1))%nat.

(** Calls begin and locks are given back where the programs say so. *)
Definition kept (p p' : pc) : Prop := (p = Idle → p' = Idle) ∧ ∀ lid, p = Holding lid → p' = Holding lid.

Record tester := Tester {
  te_sys : lock_system; te_ct : list Z; te_threads : list thread; te_phases : list (list thread) }.

Definition tester_init (test : Z) : tester := Tester system_init (replicate 256 0) [] (phases test).

(** [main] up to the tests, on [argv]: the address of the service and the
    tests to run. *)
Definition tester_main (argv : list (list ascii)) : res (list ascii * tester) :=
  match argv with
  | _ :: dst :: args =>
      test ←
        (match args with
         | [] => Ret 0
         | arg :: _ => n ← atoi arg; if (n <? 1) || (5 <? n) then Fail Exited else Ret n
         end);
      Ret (dst, tester_init test)
  | _ => Fail Exited
  end.

(** [name i] is the identity of the client [lc\[i\]]; [atomic] is about the
    increments of the clients' counters, as in [client_step]. *)
Inductive tester_step (nonce : string → Z) (name : nat → string) (atomic : bool) : tester → tester → Prop :=
| te_system y y' ct ths ph :
    system_step nonce atomic y y' → (∀ c t, tester_slot t → kept (sy_pc y c t) (sy_pc y' c t)) →
    tester_step nonce name atomic (Tester y ct ths ph) (Tester y' ct ths ph)
| te_begin s cls pcs ct ths ph i c lid rest h g :
    ths !! i = Some (Thread (Acquire c lid :: rest) h g) → pcs (name c) (slot i lid) = Idle →
    tester_step nonce name atomic (Tester (LockSystem s cls pcs) ct ths ph)
      (Tester (LockSystem s (<[name c := (acquire_check lid (cls (name c))).2]> cls)
        (<[name c := <[slot i lid := after_check lid (acquire_check lid (cls (name c))).1]> (pcs (name c))]> pcs)) ct ths ph)
| te_acquired y ct ths ph i c lid rest h g :
    ths !! i = Some (Thread (Acquire c lid :: rest) h g) → sy_pc y (name c) (slot i lid) = Holding lid →
    tester_step nonce name atomic (Tester y ct ths ph) (Tester y ct (<[i := Thread rest ((c, lid) :: h) g]> ths) ph)
| te_grant y ct ths ph i lid rest h g ct' :
    ths !! i = Some (Thread (CheckGrant lid :: rest) h g) → check_grant ct lid = Ret ct' →
    tester_step nonce name atomic (Tester y ct ths ph) (Tester y ct' (<[i := Thread rest h (lid :: g)]> ths) ph)
| te_uncount y ct ths ph i lid rest h g ct' :
    ths !! i = Some (Thread (CheckRelease lid :: rest) h g) → check_release ct lid = Ret ct' →
    tester_step nonce name atomic (Tester y ct ths ph) (Tester y ct' (<[i := Thread rest h (filter (λ l, l ≠ lid) g)]> ths) ph)
| te_release s cls pcs ct ths ph i c lid rest h g :
    ths !! i = Some (Thread (Release c lid :: rest) h g) → pcs (name c) (slot i lid) = Holding lid →
    tester_step nonce name atomic (Tester (LockSystem s cls pcs) ct ths ph)
      (Tester (LockSystem s (<[name c := (LockClientRsm.release lid (cls (name c))).2]> cls)
        (<[name c := <[slot i lid := Idle]> (pcs (name c))]> pcs)) ct
        (<[i := Thread rest (filter (λ x, x ≠ (c, lid)) h) g]> ths) ph)
| te_join y ct ths p ph :
    Forall (λ th, th_rest th = []) ths →
    tester_step nonce name atomic (Tester y ct ths (p :: ph)) (Tester y ct p ph).

(** ** Programs that pair their calls *)

(** The locks of a program are distinct bytes, an acquired lock is new, a
    counted one is held and not counted yet, and so on; with [strict], a lock
    is given back only after it was counted off. *)
Definition instr_ok (strict : bool) (i : instr) (h : list (nat * Z)) (g : list Z) : bool :=
  match i with
  | Acquire _ l => bool_decide (l ∈ [1; 2; 3]) && bool_decide (l ∉ h.*2)
  | CheckGrant l => bool_decide (l ∈ h.*2) && bool_decide (l ∉ g)
  | CheckRelease l => bool_decide (l ∈ g)
  | Release c l => bool_decide ((c, l) ∈ h) && (negb strict || bool_decide (l ∉ g))
  end.

Fixpoint prog_ok (strict : bool) (p : list instr) (h : list (nat * Z)) (g : list Z) : bool :=
  match p with
  | [] => bool_decide (g = [])
  | i :: p =>
      instr_ok strict i h g &&
      match i with
      | Acquire c l => prog_ok strict p ((c, l) :: h) g
      | CheckGrant l => prog_ok strict p h (l :: g)
      | CheckRelease l => prog_ok strict p h (filter (λ x, x ≠ l) g)
      | Release c l => prog_ok strict p (filter (λ x, x ≠ (c, l)) h) g
      end
  end.

(** A phase of one thread, or of threads that count off before they give
    back. *)
Definition phase_ok (strict : bool) (ths : list thread) : Prop :=
  (strict = true ∨ (length ths ≤ 1)%nat) ∧ (length ths ≤ nt)%nat ∧
  Forall (λ th, prog_ok strict (th_rest th) [] [] = true ∧ th_held th = [] ∧ th_granted th = []) ths.

Lemma phases_ok test : Forall (λ ths, ∃ strict, phase_ok strict ths) (phases test).
Proof.
  unfold phases. repeat apply Forall_app_2; (destruct (_ || _); [|constructor]); (constructor; [|constructor]).
  1: exists false. 2-5: exists true.
  all: split_and!; [vm_compute; (by left) || (right; lia)|vm_compute; lia|].
  all: apply Forall_forall; intros th Hth; revert th Hth; apply Forall_forall; repeat constructor; vm_compute; reflexivity.
Qed.

(** ** The invariant *)

Section tester.
Context (nonce : string → Z) `{!Inj (=) (=) nonce} (name : nat → string).

Record thread_inv (strict : bool) (y : lock_system) (i : nat) (th : thread) : Prop := {
  tv_prog : prog_ok strict (th_rest th) (th_held th) (th_granted th) = true;
  tv_strict : strict = true → ∀ l, l ∈ th_granted th → l ∈ (th_held th).*2;
  tv_nodup : NoDup (th_held th).*2;
  tv_held : ∀ c l, (c, l) ∈ th_held th → l ∈ [1; 2; 3] ∧ sy_pc y (name c) (slot i l) = Holding l;
  tv_lids : ∀ l, l ∈ th_granted th → l ∈ [1; 2; 3] }.

(** Thread [i] has counted the lock [l]. *)
Definition counted (ths : list thread) (i : nat) (l : Z) : Prop := ∃ th, ths !! i = Some th ∧ l ∈ th_granted th.

Definition count_ok (ct : list Z) (ths : list thread) : Prop :=
  ∀ x, (x < 256)%nat →
    (ct !! x = Some 0 ∧ ∀ i l, counted ths i l → ct_index l ≠ x) ∨
    (ct !! x = Some 1 ∧ ∃ i l, counted ths i l ∧ ct_index l = x).

Record tester_inv (te : tester) : Prop := {
  ti_sys : system_inv nonce (te_sys te);
  ti_threads : ∃ strict, (strict = true ∨ (length (te_threads te) ≤ 1)%nat) ∧ (length (te_threads te) ≤ nt)%nat ∧
    ∀ i th, te_threads te !! i = Some th → thread_inv strict (te_sys te) i th;
  ti_ct : count_ok (te_ct te) (te_threads te);
  ti_phases : Forall (λ ths, ∃ strict, phase_ok strict ths) (te_phases te) }.

Lemma lids l : l ∈ [1; 2; 3] → 1 ≤ l ≤ 3.
Proof. rewrite !elem_of_cons, elem_of_nil. lia. Qed.

Lemma slot_inj i l i' l' : l ∈ [1; 2; 3] → l' ∈ [1; 2; 3] → slot i l = slot i' l' → i = i' ∧ l = l'.
Proof. intros H%lids H'%lids. unfold slot. lia. Qed.

Lemma index_inj l l' : l ∈ [1; 2; 3] → l' ∈ [1; 2; 3] → ct_index l = ct_index l' → l = l'.
Proof.
  rewrite !elem_of_cons, !elem_of_nil. intros [->|[->|[->|[]]]] [->|[->|[->|[]]]]; vm_compute; congruence.
Qed.

Lemma index_range l : l ∈ [1; 2; 3] → (ct_index l < 256)%nat.
Proof. rewrite !elem_of_cons, !elem_of_nil. intros [->|[->|[->|[]]]]; vm_compute; lia. Qed.

Lemma slot_tester i l : (i < nt)%nat → l ∈ [1; 2; 3] → tester_slot (slot i l).
Proof. intros Hi H%lids. unfold tester_slot, slot, nt in *. lia. Qed.

(** A lock is counted by one thread. *)
Lemma counted_unique strict y ths i i' l :
  system_inv nonce y → strict = true ∨ (length ths ≤ 1)%nat → (∀ i th, ths !! i = Some th → thread_inv strict y i th) →
  counted ths i l → (∃ th c, ths !! i' = Some th ∧ (c, l) ∈ th_held th) ∨ counted ths i' l → i = i'.
Proof.
  intros Hsys Hst Hall (th & E & Hg) H'.
  assert (is_Some (ths !! i')) as [th' E'] by (destruct H' as [(? & ? & ? & _)|(? & ? & _)]; by eexists).
  destruct Hst as [->|Hlen]; [|apply lookup_lt_Some in E, E'; lia].
  assert (∃ c, (c, l) ∈ th_held th) as [c Hc].
  { pose proof (tv_strict _ _ _ _ (Hall _ _ E) eq_refl l Hg) as Hl. apply list_elem_of_fmap in Hl as ([c l'] & -> & Hl). by exists c. }
  assert (∃ c', (c', l) ∈ th_held th') as [c' Hc'].
  { destruct H' as [(th2 & c' & E2 & Hc')|(th2 & E2 & Hg')].
    - rewrite E' in E2. injection E2 as <-. by exists c'.
    - rewrite E' in E2. injection E2 as <-. pose proof (tv_strict _ _ _ _ (Hall _ _ E') eq_refl l Hg') as Hl.
      apply list_elem_of_fmap in Hl as ([c' l'] & -> & Hl). by exists c'. }
  destruct (tv_held _ _ _ _ (Hall _ _ E) c l Hc) as [Hl H1]. destruct (tv_held _ _ _ _ (Hall _ _ E') c' l Hc') as [_ H2].
  destruct (holding_unique nonce y l _ _ _ _ Hsys H1 H2) as [_ Hs]. by destruct (slot_inj _ _ _ _ Hl Hl Hs).
Qed.

(** The threads after one of them has moved. *)
Lemma thread_update strict y y' (ths : list thread) i th th' :
  ths !! i = Some th → (∀ i th, ths !! i = Some th → thread_inv strict y i th) → thread_inv strict y' i th' →
  (∀ i' th', i' ≠ i → ths !! i' = Some th' → thread_inv strict y i' th' → thread_inv strict y' i' th') →
  ∀ i' th0, <[i := th']> ths !! i' = Some th0 → thread_inv strict y' i' th0.
Proof.
  intros E Hall Hnew Hother i' th0. destruct (decide (i' = i)) as [->|Hne].
  - rewrite list_lookup_insert_eq by (by eapply lookup_lt_Some). by intros [= <-].
  - rewrite list_lookup_insert_ne by done. intros E'. eapply Hother; [done|done|]. by apply Hall.
Qed.

(** The system moves and leaves the held slots alone. *)
Lemma thread_inv_sys strict y y' i th :
  (∀ c l, (c, l) ∈ th_held th → sy_pc y (name c) (slot i l) = Holding l → sy_pc y' (name c) (slot i l) = Holding l) →
  thread_inv strict y i th → thread_inv strict y' i th.
Proof. intros H []. split; try done. intros c l Hc. destruct (tv_held0 c l Hc). auto. Qed.

Lemma prog_ok_step strict i p h g : prog_ok strict (i :: p) h g = true →
  instr_ok strict i h g = true ∧
  match i with
  | Acquire c l => prog_ok strict p ((c, l) :: h) g
  | CheckGrant l => prog_ok strict p h (l :: g)
  | CheckRelease l => prog_ok strict p h (filter (λ x, x ≠ l) g)
  | Release c l => prog_ok strict p (filter (λ x, x ≠ (c, l)) h) g
  end = true.
Proof. cbn [prog_ok]. by intros [? ?]%andb_prop. Qed.

Lemma counted_insert ths i th th' i' l :
  ths !! i = Some th → counted (<[i := th']> ths) i' l ↔ (i' = i ∧ l ∈ th_granted th') ∨ (i' ≠ i ∧ counted ths i' l).
Proof.
  intros E. unfold counted. destruct (decide (i' = i)) as [->|Hne].
  - rewrite list_lookup_insert_eq by (by eapply lookup_lt_Some). naive_solver.
  - rewrite list_lookup_insert_ne by done. naive_solver.
Qed.

Lemma counted_same ths i th th' : ths !! i = Some th → th_granted th' = th_granted th →
  ∀ i' l, counted (<[i := th']> ths) i' l ↔ counted ths i' l.
Proof.
  intros E Eg i' l. rewrite counted_insert by done. unfold counted. destruct (decide (i' = i)) as [->|]; [|naive_solver].
  rewrite E, Eg. naive_solver.
Qed.

Lemma count_ok_same ct ths ths' : (∀ i l, counted ths' i l ↔ counted ths i l) → count_ok ct ths → count_ok ct ths'.
Proof.
  intros Hs H x Hx. destruct (H x Hx) as [[E Hno]|(E & i & l & Hc & Hi)]; [left|right]; (split; [done|]).
  - intros i l Hc. apply (Hno i l). by apply Hs.
  - exists i, l. split; [by apply Hs|done].
Qed.

(** The checks of the threads find what they expect. *)
Lemma check_grant_ok te i lid rest h g :
  tester_inv te → te_threads te !! i = Some (Thread (CheckGrant lid :: rest) h g) →
  te_ct te !! ct_index lid = Some 0 ∧ lid ∈ [1; 2; 3] ∧ lid ∈ h.*2 ∧ (lid ∉ g).
Proof.
  intros [Hsys (strict & Hst & Hlen & Hall) Hct _] E. pose proof (Hall _ _ E) as [Hp _ _ Hh _]. cbn [th_rest th_held th_granted] in Hp, Hh.
  apply prog_ok_step in Hp as [Hi _]. cbn in Hi. apply andb_prop in Hi as [Hin%bool_decide_eq_true_1 Hg%bool_decide_eq_true_1].
  pose proof Hin as Hin'. apply list_elem_of_fmap in Hin' as ([c l] & -> & Hc). cbn in *. destruct (Hh c l Hc) as [Hl _].
  split; [|done]. destruct (Hct (ct_index l) (index_range l Hl)) as [[? _]|(_ & i' & l' & Hc' & Ei)]; [done|]. exfalso.
  assert (l' = l) as ->. { destruct Hc' as (th' & E' & Hg'). eapply index_inj; [|done|done]. by apply (tv_lids _ _ _ _ (Hall _ _ E')). }
  assert (i' = i) as ->. { eapply (counted_unique strict); [done|done|done|exact Hc'|left; by eexists _, c]. }
  destruct Hc' as (th' & E' & Hg'). rewrite E in E'. by injection E' as <-.
Qed.

Lemma check_release_ok te i lid rest h g :
  tester_inv te → te_threads te !! i = Some (Thread (CheckRelease lid :: rest) h g) →
  te_ct te !! ct_index lid = Some 1 ∧ lid ∈ [1; 2; 3] ∧ lid ∈ g.
Proof.
  intros [Hsys (strict & Hst & Hlen & Hall) Hct _] E. pose proof (Hall _ _ E) as [Hp _ _ _ Hl]. cbn [th_rest th_held th_granted] in Hp, Hl.
  apply prog_ok_step in Hp as [Hi%bool_decide_eq_true_1 _]. specialize (Hl lid Hi). split; [|done].
  destruct (Hct (ct_index lid) (index_range lid Hl)) as [[_ Hno]|(? & _)]; [|done].
  destruct (Hno i lid); [|done]. by eexists.
Qed.

Lemma release_ok te i c lid rest h g :
  tester_inv te → te_threads te !! i = Some (Thread (Release c lid :: rest) h g) →
  sy_pc (te_sys te) (name c) (slot i lid) = Holding lid ∧ (c, lid) ∈ h ∧ lid ∈ [1; 2; 3].
Proof.
  intros [Hsys (strict & Hst & Hlen & Hall) Hct _] E. pose proof (Hall _ _ E) as [Hp _ _ Hh _]. cbn [th_rest th_held th_granted] in Hp, Hh.
  apply prog_ok_step in Hp as [Hi _]. cbn in Hi. apply andb_prop in Hi as [Hin%bool_decide_eq_true_1 _]. by destruct (Hh c lid Hin).
Qed.

Lemma count_grant ct ths i th th' lid ct' :
  count_ok ct ths → ths !! i = Some th → th_granted th' = lid :: th_granted th → lid ∈ [1; 2; 3] →
  ct !! ct_index lid = Some 0 → check_grant ct lid = Ret ct' → count_ok ct' (<[i := th']> ths).
Proof.
  intros Hct E Eg Hl E0 Hck x Hx. unfold check_grant in Hck. rewrite E0 in Hck. injection Hck as <-.
  destruct (decide (x = ct_index lid)) as [->|Hne].
  - right. rewrite list_lookup_insert_eq by (by eapply lookup_lt_Some). split; [done|]. exists i, lid. split; [|done].
    apply (counted_insert _ _ _ _ _ _ E). left. split; [done|]. rewrite Eg. left.
  - rewrite list_lookup_insert_ne by done. destruct (Hct x Hx) as [[Ex Hno]|(Ex & i' & l & Hc & Hi)]; [left|right]; (split; [done|]).
    + intros i' l [[-> Hg]|[_ Hc]]%(counted_insert _ _ _ _ _ _ E); [|by apply (Hno i')]. rewrite Eg in Hg.
      apply elem_of_cons in Hg as [->|Hg]; [done|]. apply (Hno i). by exists th.
    + exists i', l. split; [|done]. apply (counted_insert _ _ _ _ _ _ E).
      destruct (decide (i' = i)) as [->|]; [left|by right]. split; [done|]. rewrite Eg. right.
      destruct Hc as (th0 & E' & Hg). rewrite E in E'. by injection E' as <-.
Qed.

Lemma count_release strict y ct ths i th th' lid ct' :
  system_inv nonce y → strict = true ∨ (length ths ≤ 1)%nat → (∀ i th, ths !! i = Some th → thread_inv strict y i th) →
  count_ok ct ths → ths !! i = Some th → th_granted th' = filter (λ x, x ≠ lid) (th_granted th) → lid ∈ th_granted th → lid ∈ [1; 2; 3] →
  ct !! ct_index lid = Some 1 → check_release ct lid = Ret ct' → count_ok ct' (<[i := th']> ths).
Proof.
  intros Hsys Hst Hall Hct E Eg Hin Hl E1 Hck x Hx. unfold check_release in Hck. rewrite E1 in Hck. injection Hck as <-.
  assert (∀ i' l, counted (<[i := th']> ths) i' l → counted ths i' l ∧ (ct_index l ≠ ct_index lid)) as Hsub.
  { intros i' l Hc. assert (counted ths i' l) as Hc0.
    { apply (counted_insert _ _ _ _ _ _ E) in Hc as [[-> Hg]|[_ Hc]]; [|done]. rewrite Eg in Hg. exists th. split; [done|]. by apply list_elem_of_filter in Hg as [_ ?]. }
    split; [done|]. intros Ei. assert (l = lid) as ->.
    { destruct Hc0 as (th0 & E' & Hg). eapply index_inj; [|done|done]. by apply (tv_lids _ _ _ _ (Hall _ _ E')). }
    assert (i = i') as <- by (eapply (counted_unique strict); [done|done|done|by exists th|by right]).
    apply (counted_insert _ _ _ _ _ _ E) in Hc as [[_ Hg]|[? _]]; [|done]. rewrite Eg in Hg. by apply list_elem_of_filter in Hg as [? _]. }
  destruct (decide (x = ct_index lid)) as [->|Hne].
  - left. rewrite list_lookup_insert_eq by (by eapply lookup_lt_Some). split; [done|]. intros i' l Hc. by apply Hsub in Hc as [_ ?].
  - rewrite list_lookup_insert_ne by done. destruct (Hct x Hx) as [[Ex Hno]|(Ex & i' & l & Hc & Hi)]; [left|right]; (split; [done|]).
    + intros i' l Hc. apply Hsub in Hc as [Hc _]. by apply (Hno i').
    + exists i', l. split; [|done]. apply (counted_insert _ _ _ _ _ _ E). destruct (decide (i' = i)) as [->|]; [left|by right].
      split; [done|]. rewrite Eg. apply list_elem_of_filter. destruct Hc as (th0 & E' & Hg). rewrite E in E'. injection E' as <-.
      split; [|done]. intros ->. congruence.
Qed.

Lemma held_unique (h : list (nat * Z)) c c' l : NoDup h.*2 → (c, l) ∈ h → (c', l) ∈ h → c' = c.
Proof.
  induction h as [|[d m] h IH]; [by intros _ ?%elem_of_nil|]. rewrite fmap_cons, !elem_of_cons. intros [Hm Hnd]%NoDup_cons.
  assert (∀ c, (c, m) ∈ h → False) as Hno by (intros d' Hd; apply Hm, list_elem_of_fmap; by exists (d', m)).
  intros [E1|Hc] [E2|Hc'].
  - congruence.
  - injection E1 as -> ->. by destruct (Hno c').
  - injection E2 as -> ->. by destruct (Hno c).
  - by apply IH.
Qed.

(** One slot that is not held changes. *)
Lemma slot_update strict s cls pcs cls' d t p i th :
  (∀ c l, (c, l) ∈ th_held th → name c = d → slot i l = t → False) →
  thread_inv strict (LockSystem s cls pcs) i th →
  thread_inv strict (LockSystem s cls' (<[d := <[t := p]> (pcs d)]> pcs)) i th.
Proof.
  intros Hno. apply thread_inv_sys. cbn [sy_pc]. intros c l Hc. destruct (decide (name c = d)) as [<-|]; [|by rewrite fn_lookup_insert_ne].
  rewrite fn_lookup_insert. destruct (decide (slot i l = t)) as [<-|]; [by destruct (Hno c l)|by rewrite fn_lookup_insert_ne].
Qed.

Lemma begin_inv s cls pcs ct ths ph i c lid rest h g :
  tester_inv (Tester (LockSystem s cls pcs) ct ths ph) →
  ths !! i = Some (Thread (Acquire c lid :: rest) h g) → pcs (name c) (slot i lid) = Idle →
  tester_inv (Tester (LockSystem s (<[name c := (acquire_check lid (cls (name c))).2]> cls)
    (<[name c := <[slot i lid := after_check lid (acquire_check lid (cls (name c))).1]> (pcs (name c))]> pcs)) ct ths ph).
Proof.
  intros [Hsys (strict & Hst & Hlen & Hall) Hct Hph] E Hidle. split; cbn [te_sys te_ct te_threads te_phases] in *; [| |done|done].
  - eapply system_step_inv; [done| |exact Hsys]. apply sys_client. rewrite Hidle. apply cs_acquire. by left.
  - exists strict. split_and!; [done|done|]. intros i' th' E'. pose proof (Hall _ _ E') as Hth. apply (slot_update strict s cls pcs); [|done].
    intros c' l Hc En Es. destruct (tv_held _ _ _ _ Hth c' l Hc) as [_ Hp]. cbn [sy_pc] in Hp. rewrite En, Es in Hp. congruence.
Qed.

Lemma acquired_inv y ct ths ph i c lid rest h g :
  tester_inv (Tester y ct ths ph) →
  ths !! i = Some (Thread (Acquire c lid :: rest) h g) → sy_pc y (name c) (slot i lid) = Holding lid →
  tester_inv (Tester y ct (<[i := Thread rest ((c, lid) :: h) g]> ths) ph).
Proof.
  intros [Hsys (strict & Hst & Hlen & Hall) Hct Hph] E Hp. split; cbn [te_sys te_ct te_threads te_phases] in *; [done| | |done].
  - exists strict. rewrite length_insert. split_and!; [done|done|]. eapply thread_update; [done|done| |done].
    destruct (Hall _ _ E) as [Hprog Hs Hnd Hh Hl]. cbn [th_rest th_held th_granted] in *. apply prog_ok_step in Hprog as [Hi Hrest].
    cbn in Hi. apply andb_prop in Hi as [Hlid%bool_decide_eq_true_1 Hnew%bool_decide_eq_true_1].
    split; cbn [th_rest th_held th_granted]; [done| | | |done].
    + intros H l Hg. rewrite fmap_cons. right. by apply Hs.
    + rewrite fmap_cons. by apply NoDup_cons.
    + intros c' l [[= -> ->]|Hc]%elem_of_cons; [done|by apply Hh].
  - eapply count_ok_same; [|exact Hct]. by eapply counted_same.
Qed.

Lemma grant_inv y ct ths ph i lid rest h g ct' :
  tester_inv (Tester y ct ths ph) →
  ths !! i = Some (Thread (CheckGrant lid :: rest) h g) → check_grant ct lid = Ret ct' →
  tester_inv (Tester y ct' (<[i := Thread rest h (lid :: g)]> ths) ph).
Proof.
  intros Hinv E Hck. destruct (check_grant_ok _ _ _ _ _ _ Hinv E) as (E0 & Hlid & Hin & _).
  destruct Hinv as [Hsys (strict & Hst & Hlen & Hall) Hct Hph]. split; cbn [te_sys te_ct te_threads te_phases] in *; [done| | |done].
  - exists strict. rewrite length_insert. split_and!; [done|done|]. eapply thread_update; [done|done| |done].
    destruct (Hall _ _ E) as [Hprog Hs Hnd Hh Hl]. cbn [th_rest th_held th_granted] in *. apply prog_ok_step in Hprog as [_ Hrest].
    split; cbn [th_rest th_held th_granted]; [done| |done|done|].
    + intros H l [->|Hg]%elem_of_cons; [done|by apply Hs].
    + intros l [->|Hg]%elem_of_cons; [done|by apply Hl].
  - by eapply count_grant.
Qed.

Lemma uncount_inv y ct ths ph i lid rest h g ct' :
  tester_inv (Tester y ct ths ph) →
  ths !! i = Some (Thread (CheckRelease lid :: rest) h g) → check_release ct lid = Ret ct' →
  tester_inv (Tester y ct' (<[i := Thread rest h (filter (λ l, l ≠ lid) g)]> ths) ph).
Proof.
  intros Hinv E Hck. destruct (check_release_ok _ _ _ _ _ _ Hinv E) as (E1 & Hlid & Hin).
  destruct Hinv as [Hsys (strict & Hst & Hlen & Hall) Hct Hph]. split; cbn [te_sys te_ct te_threads te_phases] in *; [done| | |done].
  - exists strict. rewrite length_insert. split_and!; [done|done|]. eapply thread_update; [done|done| |done].
    destruct (Hall _ _ E) as [Hprog Hs Hnd Hh Hl]. cbn [th_rest th_held th_granted] in *. apply prog_ok_step in Hprog as [_ Hrest].
    split; cbn [th_rest th_held th_granted]; [done| |done|done|].
    + intros H l [_ Hg]%list_elem_of_filter. by apply Hs.
    + intros l [_ Hg]%list_elem_of_filter. by apply Hl.
  - by eapply count_release.
Qed.

Lemma release_inv s cls pcs ct ths ph i c lid rest h g :
  tester_inv (Tester (LockSystem s cls pcs) ct ths ph) →
  ths !! i = Some (Thread (Release c lid :: rest) h g) → pcs (name c) (slot i lid) = Holding lid →
  tester_inv (Tester (LockSystem s (<[name c := (LockClientRsm.release lid (cls (name c))).2]> cls)
    (<[name c := <[slot i lid := Idle]> (pcs (name c))]> pcs)) ct
    (<[i := Thread rest (filter (λ x, x ≠ (c, lid)) h) g]> ths) ph).
Proof.
  intros Hinv E Hp. destruct (release_ok _ _ _ _ _ _ _ Hinv E) as (_ & Hin & Hlid).
  destruct Hinv as [Hsys (strict & Hst & Hlen & Hall) Hct Hph]. split; cbn [te_sys te_ct te_threads te_phases] in *; [| | |done].
  - eapply system_step_inv; [done| |exact Hsys]. apply sys_client. rewrite Hp. apply cs_release.
  - exists strict. rewrite length_insert. split_and!; [done|done|]. eapply thread_update; [done|done| |].
    + pose proof (Hall _ _ E) as Hth. destruct Hth as [Hprog Hs Hnd Hh Hl]. cbn [th_rest th_held th_granted] in *.
      apply prog_ok_step in Hprog as [Hi Hrest]. cbn in Hi. apply andb_prop in Hi as [_ Hi].
      assert (∀ c', (c', lid) ∈ h → c' = c) as Huniq.
      { intros c' Hc'. by eapply held_unique. }
      apply (slot_update strict s cls pcs).
      * cbn [th_held]. intros c' l [Hne Hc']%list_elem_of_filter _ Es. destruct (Hh c' l Hc') as [Hl' _].
        destruct (slot_inj _ _ _ _ Hl' Hlid Es) as [_ ->]. apply Hne. by rewrite (Huniq c' Hc').
      * split; cbn [th_rest th_held th_granted]; [done| | | |done].
        -- intros Htrue l Hg. rewrite Htrue in Hi. cbn in Hi. apply bool_decide_eq_true_1 in Hi.
           pose proof (Hs Htrue l Hg) as Hl'. apply list_elem_of_fmap in Hl' as ([c' l'] & -> & Hc'). cbn in *.
           apply list_elem_of_fmap. exists (c', l'). split; [done|]. apply list_elem_of_filter. split; [|done]. by intros [= -> ->].
        -- eapply sublist_NoDup; [exact Hnd|]. apply fmap_sublist, sublist_filter.
        -- intros c' l [_ Hc']%list_elem_of_filter. by apply Hh.
    + intros i' th' Hne E' Hth'. apply (slot_update strict s cls pcs); [|done]. intros c' l Hc' _ Es.
      destruct (tv_held _ _ _ _ Hth' c' l Hc') as [Hl' _]. by destruct (slot_inj _ _ _ _ Hl' Hlid Es).
  - eapply count_ok_same; [|exact Hct]. by eapply counted_same.
Qed.

Lemma granted_nil strict y i th : thread_inv strict y i th → th_rest th = [] → th_granted th = [].
Proof. intros [Hp _ _ _ _] E. rewrite E in Hp. cbn in Hp. by apply bool_decide_eq_true_1 in Hp. Qed.

Lemma tester_init_inv test : tester_inv (tester_init test).
Proof.
  split; cbn [tester_init te_sys te_ct te_threads te_phases].
  - apply system_init_inv.
  - exists true. split_and!; [by left|cbn; lia|by intros i th E].
  - intros x Hx. left. split; [by apply lookup_replicate|]. intros i l (th & E & _). done.
  - apply phases_ok.
Qed.

(** The next test starts when every thread has ended. *)
Lemma join_inv y ct ths p ph :
  Forall (λ th, th_rest th = []) ths → tester_inv (Tester y ct ths (p :: ph)) → tester_inv (Tester y ct p ph).
Proof.
  intros Hend [Hsys (strict & Hst & Hlen & Hall) Hct Hph]. cbn [te_sys te_ct te_threads te_phases] in *.
  apply Forall_cons in Hph as [(strict' & Hst' & Hlen' & Hp) Hph]. split; cbn [te_sys te_ct te_threads te_phases]; [done| | |done].
  - exists strict'. split_and!; [done|done|]. intros i th E. destruct (Forall_lookup_1 _ _ _ _ Hp E) as (Hprog & Eh & Eg).
    split; rewrite ?Eh, ?Eg; [done|by intros _ l ?%elem_of_nil|constructor|by intros c l ?%elem_of_nil|by intros l ?%elem_of_nil].
  - intros x Hx. left. split.
    + destruct (Hct x Hx) as [[? _]|(_ & i & l & (th & E & Hg) & _)]; [done|]. exfalso.
      rewrite (granted_nil _ _ _ _ (Hall _ _ E) (Forall_lookup_1 _ _ _ _ Hend E)) in Hg. by apply elem_of_nil in Hg.
    + intros i l (th & E & Hg). destruct (Forall_lookup_1 _ _ _ _ Hp E) as (_ & _ & Eg). rewrite Eg in Hg. by apply elem_of_nil in Hg.
Qed.

Lemma tester_step_inv te te' : tester_step nonce name true te te' → tester_inv te → tester_inv te'.
Proof.
  destruct 1.
  - intros [Hsys (strict & Hst & Hlen & Hall) Hct Hph]. cbn [te_sys te_ct te_threads te_phases] in *.
    split; cbn [te_sys te_ct te_threads te_phases]; [by eapply system_step_inv| |done|done].
    exists strict. split_and!; [done|done|]. intros i th E. eapply thread_inv_sys; [|by apply Hall].
    intros c l Hc. destruct (tv_held _ _ _ _ (Hall _ _ E) c l Hc) as [Hl _].
    apply (H0 (name c)). apply slot_tester; [|done]. apply lookup_lt_Some in E. lia.
  - intros. by eapply begin_inv.
  - intros. by eapply acquired_inv.
  - intros. by eapply grant_inv.
  - intros. by eapply uncount_inv.
  - intros. by eapply release_inv.
  - intros. by eapply join_inv.
Qed.

Lemma tester_reachable test te : rtc (tester_step nonce name true) (tester_init test) te → tester_inv te.
Proof.
  intros H. pose proof (tester_init_inv test) as Hi. revert Hi. induction H as [|te1 te2 te3 Hs _ IH]; [done|].
  intros Hi. apply IH. by eapply tester_step_inv.
Qed.
End tester.

(** ** What the tester checks *)

(** The next call of thread [i] does what the test expects of it: the checks
    do not exit, and a lock that is given back is held by this thread. *)
Definition call_passes (name : nat → string) (te : tester) (i : nat) (ins : instr) : Prop :=
  match ins with
  | Acquire _ _ => True
  | CheckGrant lid => ∃ ct', check_grant (te_ct te) lid = Ret ct'
  | CheckRelease lid => ∃ ct', check_release (te_ct te) lid = Ret ct'
  | Release c lid => sy_pc (te_sys te) (name c) (slot i lid) = Holding lid
  end.

Lemma tester_main_ok argv dst te : tester_main argv = Ret (dst, te) → ∃ test, te = tester_init test.
Proof.
  destruct argv as [|prog [|dst' args]]; [done..|]. cbn [tester_main]. intros (test & _ & [= _ <-])%rbind_Ret. by exists test.
Qed.

(** C10: the lock tester passes.  The tests that the argument selects run one
    after the other, the threads of each interleaved with each other and with
    everything the clients and the server do.  Provided that the clients have
    different nonces, that their counters do not wrap around and that no
    increment of a client's counter is interrupted by another one of the same
    client: whenever a thread reaches
    [check_grant] or [check_release] the check finds the count it expects and
    the program does not exit, and whenever it reaches [release] its own call
    of [acquire] holds the lock; when the threads of a test have ended every
    count is zero again. *)
Theorem lock_tester_passes (nonce : string → Z) (name : nat → string) argv dst te0 te :
  Inj (=) (=) nonce → tester_main argv = Ret (dst, te0) → rtc (tester_step nonce name true) te0 te →
  (∀ i ins rest h g, te_threads te !! i = Some (Thread (ins :: rest) h g) → call_passes name te i ins) ∧
  (Forall (λ th, th_rest th = []) (te_threads te) → ∀ x, (x < 256)%nat → te_ct te !! x = Some 0).
Proof.
  intros Hinj (test & ->)%tester_main_ok Hr. pose proof (tester_reachable nonce name test te Hr) as Hinv. split.
  - intros i [c lid|lid|lid|c lid] rest h g E; cbn [call_passes]; [done|..].
    + destruct (check_grant_ok _ _ _ _ _ _ _ _ Hinv E) as (E0 & _). unfold check_grant. rewrite E0. by eexists.
    + destruct (check_release_ok _ _ _ _ _ _ _ _ Hinv E) as (E1 & _). unfold check_release. rewrite E1. by eexists.
    + by destruct (release_ok _ _ _ _ _ _ _ _ _ Hinv E).
  - intros Hend x Hx. destruct Hinv as [_ (strict & _ & _ & Hall) Hct _].
    destruct (Hct x Hx) as [[? _]|(_ & i & l & (th & E & Hg) & _)]; [done|]. exfalso.
    rewrite (granted_nil _ _ _ _ _ (Hall _ _ E) (Forall_lookup_1 _ _ _ _ Hend E)) in Hg. by apply elem_of_nil in Hg.
Qed.

(** The first test, up to its first check: the client asks the server and
    obtains the lock. *)
Definition demo_name (i : nat) : string := if (i =? 0)%nat then "a" else "b".

Definition demo_slot (y : lock_system) (cl : lock_client) (p : pc) : lock_system :=
  LockSystem (sy_server y) (<["a" := cl]> (sy_client y)) (<["a" := <[1%nat := p]> (sy_pc y "a")]> (sy_pc y)).
Definition demo_s1 : lock_system :=
  let x := acquire_check 1 (sy_client system_init "a") in demo_slot system_init x.2 (after_check 1 x.1).
Definition demo_l1 : lock_system := demo_slot demo_s1 (sy_client demo_s1 "a") (Numbering 1 0).
Definition demo_s2 : lock_system :=
  let x := write_xid 0 (sy_client demo_l1 "a") in demo_slot demo_l1 x.2 (Requesting 1 x.1).
Definition demo_s3 : lock_system :=
  match acquire (demo_nonce "a") 1 "a" 1 0 (sy_server demo_s2) with
  | Ret (ret, _, _, s) => LockSystem s (sy_client demo_s2)
      (<["a" := <[1%nat := Replied 1 ret]> (sy_pc demo_s2 "a")]> (sy_pc demo_s2))
  | Fail _ => demo_s2
  end.
Definition demo_s4 : lock_system :=
  match acquire_reply 0 1 (sy_client demo_s3 "a") with
  | Ret (o, c) => demo_slot demo_s3 c (after_reply 1 o)
  | Fail _ => demo_s3
  end.

Lemma kept_slot (pcs : string → nat → pc) c t p c' t' :
  pcs c t ≠ Idle → (∀ l, pcs c t ≠ Holding l) → kept (pcs c' t') (<[c := <[t := p]> (pcs c)]> pcs c' t').
Proof.
  intros Hi Hh. destruct (decide (c' = c)) as [->|]; [|by rewrite fn_lookup_insert_ne]. rewrite fn_lookup_insert.
  destruct (decide (t' = t)) as [->|]; [|by rewrite fn_lookup_insert_ne]. split; [done|]. by intros l ?%Hh.
Qed.

Definition demo_at (y : lock_system) (ths : list thread) : tester := Tester y (replicate 256 0) ths [].

Lemma demo_first_lock :
  rtc (tester_step demo_nonce demo_name true) (tester_init 1) (demo_at demo_s4 [Thread (tail test1) [(0%nat, 1)] []]).
Proof.
  apply (rtc_l _ _ (demo_at system_init [spawn test1])). { by apply te_join. }
  apply (rtc_l _ _ (demo_at demo_s1 [spawn test1])).
  { exact (te_begin demo_nonce demo_name true lock_server_new (λ _, lock_client_new) (λ _ _, Idle) _ [spawn test1] [] 0 0 1
      (tail test1) [] [] eq_refl eq_refl). }
  apply (rtc_l _ _ (demo_at demo_l1 [spawn test1])).
  { apply te_system; [|by intros c t _; apply (kept_slot (sy_pc demo_s1))].
    apply (sys_client demo_nonce true (sy_server demo_s1) (sy_client demo_s1) (sy_pc demo_s1) "a" 1%nat).
    apply (cs_load true (sy_client demo_s1 "a") 1). }
  apply (rtc_l _ _ (demo_at demo_s2 [spawn test1])).
  { apply te_system; [|by intros c t _; apply (kept_slot (sy_pc demo_l1))].
    apply (sys_client demo_nonce true (sy_server demo_l1) (sy_client demo_l1) (sy_pc demo_l1) "a" 1%nat).
    apply (cs_number true (sy_client demo_l1 "a") 1 0); vm_compute; reflexivity. }
  apply (rtc_l _ _ (demo_at demo_s3 [spawn test1])).
  { apply te_system; [|by intros c t _; apply (kept_slot (sy_pc demo_s2))].
    eapply (sys_acquire demo_nonce true (sy_server demo_s2) (sy_client demo_s2) (sy_pc demo_s2) "a" 1%nat 1 1 0); reflexivity. }
  apply (rtc_l _ _ (demo_at demo_s4 [spawn test1])).
  { apply te_system; [|by intros c t _; apply (kept_slot (sy_pc demo_s3))].
    apply (sys_client demo_nonce true (sy_server demo_s3) (sy_client demo_s3) (sy_pc demo_s3) "a" 1%nat).
    apply (cs_reply true (sy_client demo_s3 "a") 1 0 Done). reflexivity. }
  apply rtc_once.
  exact (te_acquired demo_nonce demo_name true demo_s4 _ [spawn test1] [] 0 0 1 (tail test1) [] [] eq_refl eq_refl).
Qed.

Lemma lock_tester_passes_witness :
  let te := demo_at demo_s4 [Thread (tail test1) [(0%nat, 1)] []] in
  tester_main [chars "lock_tester"; chars "3772"; chars "1"] = Ret (chars "3772", tester_init 1) ∧
  rtc (tester_step demo_nonce demo_name true) (tester_init 1) te ∧
  ∃ ct, check_grant (te_ct te) 1 = Ret ct.
Proof.
  intros te. split; [vm_compute; reflexivity|]. split; [exact demo_first_lock|].
  exact (proj1 (lock_tester_passes demo_nonce demo_name [chars "lock_tester"; chars "3772"; chars "1"] (chars "3772")
    (tester_init 1) te demo_nonce_inj eq_refl demo_first_lock) 0%nat (CheckGrant 1) _ _ _ eq_refl).
Defined.
