(* ===== verification/RsmTester.v ===== *)
(** * The tester of the replicated state machine (rsm_tester.cc, rsmtest_client.cc)

    A command line that asks a node, through the RPC stubs, to cut itself off
    the network, to repair it, or to die at one of its breakpoints. *)

From S2P Require Import Prelude Marshall Protocols Stubs Streams Sockaddr Paxos Handle Config Rsm.

(** ** The node under test *)

Section node.
Context {S W : Type} `{!StateTransfer S} (net : rsm_net W).

(** The state machine, the proposer its breakpoints are handed to, and the
    rest of the world. *)
Record test_node := TestNode { tn_rsm : rsm S; tn_proposer : proposer; tn_world : W }.

(** The two methods of the testing server; both set [r] to the status they
    return. *)
Definition net_repair_meth (heal r : int) (t : test_node) : res (Z * int * test_node) :=
  let '(b, s, w) := test_net_repairreq net (tn_rsm t) heal (tn_world t) in
  Ret (b, b : int, TestNode s (tn_proposer t) w).
Definition breakpoint_meth (b r : int) (t : test_node) : res (Z * int * test_node) :=
  let '(ret, s, p) := breakpointreq (tn_rsm t) (tn_proposer t) b in
  Ret (ret, ret : int, TestNode s p (tn_world t)).

(** The procedures of the testing server. *)
Definition test_procs (proc : Z) : handler test_node :=
  if proc =? rsm_test_protocol.net_repair then rpcs_reg1 net_repair_meth else rpcs_reg1 breakpoint_meth.

(** ** The client *)

Section client.
Context (fill : ascii) (call1 : Z → marshall → test_node → res (Z * unmarshall * test_node)).

Definition rsmtest_net_repair (heal junk : int) (t : test_node) : res (int * test_node) :=
  '(ret, r, t) ← rpcc_call1 fill call1 rsm_test_protocol.net_repair heal junk t;
  VERIFY (ret =? rsm_test_protocol.OK);;
  Ret (r, t).

Definition rsmtest_breakpoint (b junk : int) (t : test_node) : res (int * test_node) :=
  '(ret, r, t) ← rpcc_call1 fill call1 rsm_test_protocol.breakpoint b junk t;
  VERIFY (ret =? rsm_test_protocol.OK);;
  Ret (r, t).

(** [main]: what it prints as returned, if it knows the command; [junk] is
    the variable of the client before the call. *)
Definition rsm_tester (junk : int) (argv : list (list ascii)) (t : test_node) : res (option int * test_node) :=
  match argv with
  | [_; _; command; arg] =>
      if bool_decide (command = chars "partition") then
        n ← atoi arg;
        '(r, t) ← rsmtest_net_repair n junk t;
        Ret (Some r, t)
      else if bool_decide (command = chars "breakpoint") then
        n ← atoi arg;
        '(r, t) ← rsmtest_breakpoint n junk t;
        Ret (Some r, t)
      else Ret (None, t)
  | _ => Fail Exited
  end.
End client.

(** ** What the commands do *)

Context (fill fill' : ascii) (hd : Z → req_header) (Hhd : ∀ proc, wf_req_header (hd proc)).

(** The calls reach the node and its answers the client. *)
Definition test_call1 (proc : Z) (req : marshall) (t : test_node) : res (Z * unmarshall * test_node) :=
  exchange fill' hd (test_procs proc) proc req t.

Lemma int_fits (x : int) : in_s32 x → fits (enc x).
Proof. intros _. unfold fits. rewrite hdr_sz. change (length (enc x)) with 4%nat. lia. Qed.

Lemma int_carries b : 0 ≤ b < 2 ^ 31 → carries (R:=int) b b.
Proof.
  intros Hb. assert (in_s32 b) as Hs by (wrap_unfold; lia). split; [done|exact Hs|by apply int_fits].
Qed.

Lemma test_call_to proc (h : handler test_node) (a r0 : int) t : test_procs proc = h →
  rpcc_call1 fill test_call1 proc a r0 t = rpcc_call1 fill (exchange fill' hd h) proc a r0 t.
Proof. intros <-. unfold rpcc_call1. destruct (put _ a) as [m|]; reflexivity. Qed.

Lemma net_repair_reaches heal junk t : in_s32 heal →
  ∃ s w, test_net_repairreq net (tn_rsm t) heal (tn_world t) = (rsm_test_protocol.OK, s, w) ∧
    rsmtest_net_repair fill test_call1 heal junk t = Ret (0 : int, TestNode s (tn_proposer t) w).
Proof.
  intros Hh. destruct (test_net_repairreq net (tn_rsm t) heal (tn_world t)) as [[b s] w] eqn:E.
  assert (b = rsm_test_protocol.OK) as ->.
  { unfold test_net_repairreq in E. destruct (negb _); [destruct (net_repair_wo _ _ _ _)|]; by injection E. }
  exists s, w. split; [done|]. unfold rsmtest_net_repair.
  assert (rpcc_call1 fill test_call1 rsm_test_protocol.net_repair heal junk t
    = Ret (rsm_test_protocol.OK, rsm_test_protocol.OK : int, TestNode s (tn_proposer t) w)) as ->; [|done].
  rewrite (test_call_to _ (rpcs_reg1 net_repair_meth)) by reflexivity.
  apply (exchange_call1 net_repair_meth fill fill' hd); [done|exact Hh|by apply int_fits| |apply int_carries; done].
  unfold net_repair_meth. by rewrite E.
Qed.

(** A breakpoint that the node knows is set; for another one the node answers
    with an error, on which the client aborts. *)
Lemma breakpoint_reaches b junk t : in_s32 b →
  let '(ret, s, p) := breakpointreq (tn_rsm t) (tn_proposer t) b in
  rsmtest_breakpoint fill test_call1 b junk t =
    if bool_decide (1 ≤ b ≤ 4) then Ret (0 : int, TestNode s p (tn_world t)) else Fail VerifyFailed.
Proof.
  intros Hb. destruct (breakpointreq (tn_rsm t) (tn_proposer t) b) as [[ret s] p] eqn:E.
  assert (ret = if bool_decide (1 ≤ b ≤ 4) then 0 else 1) as Hret.
  { unfold breakpointreq in E. case_bool_decide as H.
    - destruct (Z.eqb_spec b 1), (Z.eqb_spec b 2), (Z.eqb_spec b 3), (Z.eqb_spec b 4); try (by injection E as <- _ _); lia.
    - replace (b =? 1) with false in E by lia. replace (b =? 2) with false in E by lia.
      replace (b =? 3) with false in E by lia. replace (b =? 4) with false in E by lia. by injection E as <- _ _. }
  unfold rsmtest_breakpoint.
  assert (rpcc_call1 fill test_call1 rsm_test_protocol.breakpoint b junk t = Ret (ret, ret : int, TestNode s p (tn_world t))) as ->.
  { rewrite (test_call_to _ (rpcs_reg1 breakpoint_meth)) by reflexivity.
    apply (exchange_call1 breakpoint_meth fill fill' hd); [done|exact Hb|by apply int_fits| |].
    - unfold breakpoint_meth. by rewrite E.
    - apply int_carries. subst ret. case_bool_decide; lia. }
  subst ret. case_bool_decide; done.
Qed.

(** The tester reaches the node: [partition 0] makes it cut itself off at the
    next request, [partition] with any other number repairs the network,
    [breakpoint] with a number from 1 to 4 sets the breakpoint, and with any
    other number the tester dies on its own assertion. *)
Theorem rsm_tester_acts prog dst n junk t : 0 ≤ n < 2 ^ 31 →
  (∃ s w, test_net_repairreq net (tn_rsm t) n (tn_world t) = (rsm_test_protocol.OK, s, w) ∧
    rsm_tester fill test_call1 junk [prog; dst; chars "partition"; show_unsigned n] t
      = Ret (Some (0 : int), TestNode s (tn_proposer t) w)) ∧
  (let '(ret, s, p) := breakpointreq (tn_rsm t) (tn_proposer t) n in
   rsm_tester fill test_call1 junk [prog; dst; chars "breakpoint"; show_unsigned n] t =
     if bool_decide (1 ≤ n ≤ 4) then Ret (Some (0 : int), TestNode s p (tn_world t)) else Fail VerifyFailed).
Proof.
  intros Hn. assert (in_s32 n) as Hs by (wrap_unfold; lia). split.
  - destruct (net_repair_reaches n junk t Hs) as (s & w & E1 & E2). exists s, w. split; [done|]. unfold rsm_tester.
    rewrite bool_decide_eq_true_2, atoi_show by done. cbn [rbind]. by rewrite E2.
  - pose proof (breakpoint_reaches n junk t Hs) as Hb. destruct (breakpointreq _ _ _) as [[ret s] p]. unfold rsm_tester.
    rewrite bool_decide_eq_false_2, bool_decide_eq_true_2, atoi_show by done. cbn [rbind]. rewrite Hb. by case_bool_decide.
Qed.
End node.
