(* ===== verification/Yfs.v ===== *)
(** * The file system client (yfs_client.cc, yfs_client.h, yfs_lock.h)

    Files and directories are extents; a directory's extent is text, a word
    [inum@name] for each entry.  Every operation takes the lock of the extents
    it uses ([YFSLock], released when its scope ends).  The state is the
    extent client with whatever is behind its stub, and a trace of the lock
    operations and the extent accesses. *)

From S2P Require Import Prelude Marshall Protocols Streams Extent.

Module yfs_status.
Definition OK : Z := 0.
Definition RPCERR : Z := 1.
Definition NOENT : Z := 2.
Definition IOERR : Z := 3.
Definition EXIST : Z := 4.
End yfs_status.

Record fileinfo := FileInfo { fi_size : Z; fi_atime : Z; fi_mtime : Z; fi_ctime : Z }.
Record dirinfo := DirInfo { di_atime : Z; di_mtime : Z; di_ctime : Z }.

Inductive yfs_event := Acquire (inum : Z) | Release (inum : Z) | Touch (inum : Z).

Record yfs (W : Type) := Yfs { y_ec : extent_client; y_world : W; y_trace : list yfs_event }.
Arguments Yfs {W}.
Arguments y_ec {W}.
Arguments y_world {W}.
Arguments y_trace {W}.

(** ** Names and directories *)

(** [junk]: the variable [finum] before it is read. *)
Definition n2i (junk : Z) (n : string) : Z := (read_ullong (istream_of (chars n)) junk).1.
Definition filename (inum : Z) : string := of_chars (show_unsigned inum).

Definition isfile (inum : Z) : bool := negb (Z.land inum 0x80000000 =? 0).
Definition isdir (inum : Z) : bool := negb (isfile inum).

(** The characters before the first null one, which [strcmp] compares. *)
Definition c_str (s : string) : list ascii := (span (λ c, negb (bool_decide (c = "000"%char))) (chars s)).1.

(** [while (ist >> file)]: the words of a text. *)
Fixpoint words (fuel : nat) (i : istream) : list string :=
  match fuel with
  | O => []
  | S fuel =>
      let '(file, i) := read_word i "" in
      if is_fail i then [] else file :: words fuel i
  end.
(** Every word takes a character, so the length is fuel enough. *)
Definition words_of (s : string) : list string := words (S (String.length s)) (istream_of (chars s)).

(** [iss >> finum; iss.get(); iss >> fname] on a word, which is never empty,
    so [finum] is always stored. *)
Definition parse_entry (file : string) : Z * string :=
  let '(finum, i) := read_ullong (istream_of (chars file)) 0 in
  let i := read_char i in
  let '(fname, _) := read_word i "" in (finum, fname).

(** [lookupfile] on the text of a directory: [inum] is set when found. *)
Fixpoint lookup_words (files : list string) (name : string) (inum : Z) : Z * Z :=
  match files with
  | [] => (yfs_status.OK, inum)
  | file :: files =>
      let '(finum, fname) := parse_entry file in
      if bool_decide (c_str fname = c_str name) then (yfs_status.EXIST, finum)
      else lookup_words files name inum
  end.
Definition lookupfile_content (dcontent : string) (name : string) (inum : Z) : Z * Z :=
  lookup_words (words_of dcontent) name inum.

(** The loop of [unlink]: the text that is kept, the number of words in it,
    and the number of the last file of that name. *)
Fixpoint unlink_words (files : list string) (name : string) (ost : string) (count : Z) (found : option Z)
    : string * option Z :=
  match files with
  | [] => (ost, found)
  | file :: files =>
      let '(finum, fname) := parse_entry file in
      if negb (bool_decide (c_str fname = c_str name)) || isdir finum then
        unlink_words files name ((if 0 <? count then ost +:+ " " else ost) +:+ file) (count + 1) found
      else unlink_words files name ost count (Some finum)
  end.

(** [std::string::substr]; a position past the end throws. *)
Definition substr (s : string) (pos n : Z) : res string :=
  if string_size s <? pos then Fail Exited
  else Ret (of_chars (take (Z.to_nat n) (drop (Z.to_nat pos) (chars s)))).
(** [npos] *)
Definition npos : Z := 2 ^ 32 - 1.

(** [for (int i = 0; i < size - buf.length(); i ++) buf.append(" ")]. *)
Fixpoint setsize_pad (fuel : nat) (i : Z) (size : Z) (buf : string) : string :=
  match fuel with
  | O => buf
  | S fuel =>
      if u32 i <? u32 (size - string_size buf) then setsize_pad fuel (i + 1) size (buf +:+ " ")
      else buf
  end.

Section yfs_client.
Context {W : Type} (net : extent_net W) (junk : attr) (now : Z).
Implicit Types y : yfs W.

Definition log (y : yfs W) (e : yfs_event) : yfs W := Yfs (y_ec y) (y_world y) (y_trace y ++ [e]).

(** [YFSLock yl(inum, lc, ec)] and the rest of its scope.  [lc_->acquire]
    returns when the lock was obtained; that its failed call to the lock
    server fails a [VERIFY] is in LockCache.v and not repeated here. *)
Definition with_lock {A} (inum : Z) (body : yfs W → res (A * yfs W)) (y : yfs W) : res (A * yfs W) :=
  '(a, y) ← body (log y (Acquire inum));
  Ret (a, log y (Release inum)).

Definition y_put (inum : Z) (content : string) (y : yfs W) : Z * yfs W :=
  let '(ret, ec) := ec_put now inum content (y_ec y) in
  (if ret =? extent_protocol.OK then yfs_status.OK else yfs_status.IOERR,
   log (Yfs ec (y_world y) (y_trace y)) (Touch inum)).

Definition y_get (inum : Z) (buf : string) (y : yfs W) : Z * string * yfs W :=
  let '(ret, buf, ec, w) := ec_get net junk now inum buf (y_ec y) (y_world y) in
  (if ret =? extent_protocol.OK then yfs_status.OK else yfs_status.NOENT, buf,
   log (Yfs ec w (y_trace y)) (Touch inum)).

Definition y_getattr (inum : Z) (y : yfs W) : Z * attr * yfs W :=
  let '(ret, a, ec, w) := ec_getattr net inum junk (y_ec y) (y_world y) in
  (ret, a, log (Yfs ec w (y_trace y)) (Touch inum)).

Definition getfile (inum : Z) (fin : fileinfo) (y : yfs W) : res (Z * fileinfo * yfs W) :=
  with_lock inum (λ y,
    let '(ret, a, y) := y_getattr inum y in
    if negb (ret =? extent_protocol.OK) then Ret (yfs_status.IOERR, fin, y)
    else Ret (yfs_status.OK, FileInfo (a_size a) (a_atime a) (a_mtime a) (a_ctime a), y)) y.

Definition getdir (inum : Z) (din : dirinfo) (y : yfs W) : res (Z * dirinfo * yfs W) :=
  with_lock inum (λ y,
    let '(ret, a, y) := y_getattr inum y in
    if negb (ret =? extent_protocol.OK) then Ret (yfs_status.IOERR, din, y)
    else Ret (yfs_status.OK, DirInfo (a_atime a) (a_mtime a) (a_ctime a), y)) y.

(** [rnd] is what [random()] returns: the number of the new file. *)
Definition new_inum (rnd : Z) (f : bool) : Z :=
  if f then Z.lor rnd 0x80000000 else Z.land rnd 0x7FFFFFFF.

Definition createfile (rnd : Z) (dinum : Z) (f : bool) (name : string) (y : yfs W) : res (Z * Z * yfs W) :=
  with_lock dinum (λ y,
    let inum := new_inum rnd f in
    with_lock inum (λ y,
      let '(ret, dcontent, y) := y_get dinum "" y in
      if negb (ret =? yfs_status.OK) then Ret (yfs_status.NOENT, inum, y)
      else if negb ((lookupfile_content dcontent name 0).1 =? yfs_status.OK) then
        Ret (yfs_status.EXIST, inum, y)
      else
        let '(ret, y) := y_put dinum (dcontent +:+ " " +:+ of_chars (show_unsigned inum) +:+ "@" +:+ name) y in
        if negb (ret =? yfs_status.OK) then Ret (yfs_status.IOERR, inum, y)
        else
          let '(ret, y) := y_put inum "" y in
          if negb (ret =? yfs_status.OK) then Ret (yfs_status.IOERR, inum, y)
          else Ret (yfs_status.OK, inum, y)) y) y.

Definition lookupfile (dinum : Z) (name : string) (inum : Z) (y : yfs W) : res (Z * Z * yfs W) :=
  with_lock dinum (λ y,
    let '(ret, dcontent, y) := y_get dinum "" y in
    if negb (ret =? yfs_status.OK) then Ret (yfs_status.NOENT, inum, y)
    else Ret (lookupfile_content dcontent name inum, y)) y.

Definition getcontent (inum : Z) (buf : string) (y : yfs W) : res (Z * string * yfs W) :=
  with_lock inum (λ y, Ret (y_get inum buf y)) y.

Definition remove (inum : Z) (y : yfs W) : res (Z * yfs W) :=
  with_lock inum (λ y,
    let '(ret, ec) := ec_remove inum (y_ec y) in
    let y := log (Yfs ec (y_world y) (y_trace y)) (Touch inum) in
    Ret (if negb (ret =? extent_protocol.OK) then yfs_status.NOENT else yfs_status.OK, y)) y.

Definition setsize (inum : Z) (size : Z) (y : yfs W) : res (Z * yfs W) :=
  with_lock inum (λ y,
    let '(ret, buf, y) := y_get inum "" y in
    if negb (ret =? yfs_status.OK) then Ret (yfs_status.NOENT, y)
    else
      buf ← (if size <? string_size buf then substr buf 0 size
             else Ret (setsize_pad (Z.to_nat size) 0 size buf));
      let '(ret, y) := y_put inum buf y in
      Ret (if negb (ret =? yfs_status.OK) then yfs_status.IOERR else yfs_status.OK, y)) y.

Definition read (inum : Z) (size : Z) (off : Z) (buf : string) (y : yfs W) : res (Z * string * yfs W) :=
  with_lock inum (λ y,
    let '(ret, buf, y) := y_get inum buf y in
    if negb (ret =? yfs_status.OK) then Ret (yfs_status.NOENT, buf, y)
    else
      let off := if string_size buf <? off then string_size buf else off in
      buf ← substr buf (u32 off) size;
      Ret (yfs_status.OK, buf, y)) y.

(** [buf] holds the bytes behind the pointer; fewer than [size] would be read
    past their end. *)
Definition write (inum : Z) (size : Z) (off : Z) (buf : string) (y : yfs W) : res (Z * yfs W) :=
  with_lock inum (λ y,
    let '(ret, content, y) := y_get inum "" y in
    if negb (ret =? yfs_status.OK) then Ret (yfs_status.NOENT, y)
    else
      end_ ← (if off + size <? string_size content then substr content (u32 (off + size)) npos else Ret "");
      content ← (if off <=? string_size content then substr content 0 (u32 off)
                 else
                   let n := string_size content in
                   Ret (content +:+ of_chars (replicate (Z.to_nat (off - n)) "000"%char)));
      data ← (if string_size buf <? size then Fail UndefinedBehaviour else substr buf 0 size);
      let '(ret, y) := y_put inum (content +:+ data +:+ end_) y in
      Ret (if negb (ret =? yfs_status.OK) then yfs_status.IOERR else yfs_status.OK, y)) y.

Definition unlink (parent : Z) (name : string) (y : yfs W) : res (Z * yfs W) :=
  with_lock parent (λ y,
    if negb (isdir parent) then Ret (yfs_status.NOENT, y)
    else
      let '(ret, content, y) := y_get parent "" y in
      if negb (ret =? yfs_status.OK) then Ret (yfs_status.NOENT, y)
      else
        let '(ost, found) := unlink_words (words_of content) name "" 0 None in
        match found with
        | None => Ret (yfs_status.NOENT, y)
        | Some inum =>
            '(ret, y) ← remove inum y;
            if negb (ret =? yfs_status.OK) then Ret (yfs_status.IOERR, y)
            else
              let '(ret, y) := y_put parent ost y in
              Ret (if negb (ret =? yfs_status.OK) then yfs_status.IOERR else yfs_status.OK, y)
        end) y.
End yfs_client.

(** ** The text of a directory *)

Definition tokens (l : list ascii) : list string := words (S (length l)) (IStream l false).

Lemma words_of_tokens s : words_of s = tokens (chars s).
Proof. unfold words_of, tokens. by rewrite length_chars. Qed.

Lemma span_length p l : (length (span p l).2 ≤ length l)%nat.
Proof. induction l as [|c l IH]; cbn; [done|]. destruct (p c); [|done]. destruct (span p l); simpl in *. lia. Qed.

Lemma span_head p c l : p c = true → (length (span p (c :: l)).2 ≤ length l)%nat.
Proof. intros E. cbn. rewrite E. pose proof (span_length p l). by destruct (span p l). Qed.

Lemma span_stop p l c r : (span p l).2 = c :: r → p c = false.
Proof.
  revert c r. induction l as [|x l IH]; intros c r; cbn; [done|]. destruct (p x) eqn:E.
  - destruct (span p l) as [a b]; simpl in *. apply IH.
  - simpl. by intros [= <- _].
Qed.

(** The rest after a word is shorter than the text. *)
Lemma word_shorter l c r :
  skip_space l = c :: r → (length (span (negb ∘ is_space) (c :: r)).2 < length l)%nat.
Proof.
  intros E. pose proof (span_stop is_space l c r E) as Hc.
  pose proof (span_length is_space l) as H1. unfold skip_space in E. rewrite E in H1. cbn [length] in H1.
  assert (H2 : (length (span (negb ∘ is_space) (c :: r)).2 ≤ length r)%nat).
  { apply span_head. cbn. by rewrite Hc. }
  lia.
Qed.

Lemma words_fuel f1 f2 l :
  (length l < f1)%nat → (length l < f2)%nat → words f1 (IStream l false) = words f2 (IStream l false).
Proof.
  revert f2 l. induction f1 as [|f1 IH]; intros [|f2] l H1 H2; [lia..|]. cbn [words].
  unfold read_word. cbn [is_fail is_rest].
  destruct (skip_space l) as [|c r] eqn:E; [done|]. cbn [at_end].
  pose proof (word_shorter l c r E) as Hs. destruct (span _ (c :: r)) as [w k]; simpl in *.
  f_equal. apply IH; lia.
Qed.

Lemma tokens_step l :
  tokens l = match skip_space l with
             | [] => []
             | l' => of_chars (span (negb ∘ is_space) l').1 :: tokens (span (negb ∘ is_space) l').2
             end.
Proof.
  unfold tokens at 1. cbn [words]. unfold read_word. cbn [is_fail is_rest].
  destruct (skip_space l) as [|c r] eqn:E; [done|]. cbn [at_end].
  pose proof (word_shorter l c r E) as Hs. destruct (span _ (c :: r)) as [w k]; simpl in *.
  f_equal. apply words_fuel; lia.
Qed.

Lemma span_app_stop p l x :
  match x with c :: _ => p c = false | [] => True end →
  span p (l ++ x) = ((span p l).1, (span p l).2 ++ x).
Proof.
  intros Hx. induction l as [|c l IH]; cbn.
  - destruct x as [|c x]; [done|]. cbn. by rewrite Hx.
  - destruct (p c); [|done]. rewrite IH. by destruct (span p l).
Qed.

Lemma skip_space_app l x :
  skip_space (l ++ x) = match skip_space l with [] => skip_space x | l' => l' ++ x end.
Proof.
  unfold skip_space. induction l as [|c l IH]; cbn; [done|].
  destruct (is_space c) eqn:E; [|done].
  destruct (span is_space l) as [a b], (span is_space (l ++ x)) as [a' b']; simpl in *. done.
Qed.

(** A word after a space is one more word. *)
Lemma tokens_snoc l w : word w → tokens (l ++ space :: w) = tokens l ++ [of_chars w].
Proof.
  intros Hw. assert (Ht : tokens w = [of_chars w]).
  { rewrite tokens_step, skip_space_solid by (rewrite <- (app_nil_r w); by apply word_starts).
    destruct Hw as [Hne Hw].
    assert (span (negb ∘ is_space) w = (w, [])) as Es.
    { rewrite <- (app_nil_r w) at 1. rewrite span_app; [done| |done].
      eapply Forall_impl; [exact Hw|]. cbn. by intros ? ->. }
    destruct w as [|c w]; [done|]. cbv beta iota zeta. by rewrite Es. }
  induction l as [l IH] using (induction_ltof1 _ (@length ascii)). unfold ltof in IH.
  rewrite (tokens_step (l ++ space :: w)), (tokens_step l), skip_space_app.
  destruct (skip_space l) as [|c r] eqn:E.
  - rewrite skip_space_one by done. rewrite <- Ht at 1. rewrite tokens_step.
    rewrite skip_space_solid by (rewrite <- (app_nil_r w); by apply word_starts). done.
  - cbv beta iota zeta. cbn [app]. rewrite app_comm_cons. rewrite span_app_stop by done. cbn [fst snd].
    rewrite IH by (by apply word_shorter). done.
Qed.

(** The words joined by single spaces, as [unlink] writes them. *)
Fixpoint join_words (ost : string) (count : Z) (files : list string) : string :=
  match files with
  | [] => ost
  | file :: files => join_words ((if 0 <? count then ost +:+ " " else ost) +:+ file) (count + 1) files
  end.

Lemma join_words_tokens files ost count ws :
  Forall (λ f, word (chars f)) files → 0 ≤ count → words_of ost = ws →
  (count = 0 → ost = "") → words_of (join_words ost count files) = ws ++ files.
Proof.
  revert ost count ws. induction files as [|f files IH]; intros ost count ws Hf Hc Hw H0; simpl.
  { by rewrite app_nil_r. }
  apply Forall_cons in Hf as [Hf Hfs]. rewrite (IH _ _ (ws ++ [f])); [|done|lia| |lia].
  { by rewrite <- (assoc_L (++)). }
  rewrite words_of_tokens in *. destruct (Z.ltb_spec 0 count) as [Hlt|Hge].
  - rewrite !chars_app, <- (assoc_L (++)). change (chars " " ++ chars f) with (space :: chars f).
    by rewrite tokens_snoc, Hw, of_chars_chars.
  - rewrite H0 in * by lia. subst ws. change ("" +:+ f) with f.
    pose proof (tokens_snoc [] (chars f) Hf) as Ht. rewrite of_chars_chars in Ht.
    change (chars "") with (@nil ascii). rewrite <- Ht. change ([] ++ space :: chars f) with (space :: chars f).
    rewrite (tokens_step (space :: _)), (tokens_step (chars f)). by rewrite skip_space_one.
Qed.

(** ** Entries *)

Definition entry : Type := Z * string.

Definition entry_word (e : entry) : string := of_chars (show_unsigned e.1) +:+ "@" +:+ e.2.

(** A name the code supports: not empty, no white space, no null. *)
Definition valid_name (name : string) : Prop := word (chars name) ∧ "000"%char ∉ chars name.
Definition valid_entry (e : entry) : Prop := in_u64 e.1 ∧ valid_name e.2.

Lemma c_str_valid name : "000"%char ∉ chars name → c_str name = chars name.
Proof.
  intros Hn. unfold c_str. rewrite <- (app_nil_r (chars name)) at 1. rewrite span_app; [done| |done].
  apply Forall_forall. intros c Hc. rewrite bool_decide_eq_false_2; [done|]. by intros ->.
Qed.

Lemma same_name a b : valid_name a → valid_name b →
  bool_decide (c_str a = c_str b) = bool_decide (a = b).
Proof.
  intros [_ Ha] [_ Hb]. rewrite !c_str_valid by done. apply bool_decide_ext. split; [apply chars_inj|by intros ->].
Qed.

Lemma parse_entry_word e : valid_entry e → parse_entry (entry_word e) = e.
Proof.
  intros [Hi [Hw _]]. unfold parse_entry, entry_word. autorewrite with chars.
  change (chars "@" ++ chars e.2) with ("@"%char :: chars e.2).
  rewrite (read_number_stop (2 ^ 64) _ e.1 ("@"%char :: chars e.2)); [|done| |wrap_unfold; lia|lia|done].
  - cbn [read_char is_fail is_rest].
    rewrite (read_word_ok _ (chars e.2) []); [|done| |done|done].
    + rewrite of_chars_chars. by destruct e.
    + cbn [is_rest]. rewrite app_nil_r. apply skip_space_solid. rewrite <- (app_nil_r (chars e.2)). by apply word_starts.
  - cbn [is_rest istream_of]. apply skip_space_solid. apply word_starts, show_unsigned_word. wrap_unfold; lia.
Qed.

Lemma entry_word_word e : valid_entry e → word (chars (entry_word e)).
Proof.
  intros [Hi [[Hne Hw] _]]. unfold entry_word. autorewrite with chars.
  destruct (show_unsigned_word e.1) as [Hn1 Hw1]; [wrap_unfold; lia|]. split.
  - by destruct (show_unsigned e.1).
  - apply Forall_app; split; [done|]. by constructor.
Qed.

(** The text of a directory with these entries, in this order. *)
Definition dir_text (content : string) (es : list entry) : Prop :=
  Forall valid_entry es ∧ words_of content = entry_word <$> es.

(** The first entry of that name. *)
Fixpoint find_entry (name : string) (es : list entry) : option Z :=
  match es with
  | [] => None
  | e :: es => if bool_decide (e.2 = name) then Some e.1 else find_entry name es
  end.

Lemma find_entry_app name es es' :
  find_entry name (es ++ es') = match find_entry name es with Some i => Some i | None => find_entry name es' end.
Proof. induction es as [|e es IH]; simpl; [done|]. by case_bool_decide. Qed.

Lemma lookup_words_entries es name inum :
  Forall valid_entry es → valid_name name →
  lookup_words (entry_word <$> es) name inum =
    match find_entry name es with Some i => (yfs_status.EXIST, i) | None => (yfs_status.OK, inum) end.
Proof.
  intros Hes Hn. induction Hes as [|e es He Hes IH]; [done|]. rewrite fmap_cons. cbn [lookup_words find_entry].
  rewrite parse_entry_word by done. destruct e as [i n]. destruct He as [_ He].
  rewrite same_name by done. cbn [fst snd]. by destruct (bool_decide (n = name)).
Qed.

Lemma dir_text_snoc content es e :
  dir_text content es → valid_entry e → dir_text (content +:+ " " +:+ entry_word e) (es ++ [e]).
Proof.
  intros [Hes Ht] He. split; [apply Forall_app; split; [done|by apply Forall_singleton]|].
  rewrite words_of_tokens, !chars_app. change (chars " " ++ chars (entry_word e)) with (space :: chars (entry_word e)).
  rewrite tokens_snoc by (by apply entry_word_word).
  by rewrite <- words_of_tokens, Ht, of_chars_chars, fmap_app.
Qed.

(** What [unlink] keeps. *)
Definition kept (name : string) (e : entry) : bool := negb (bool_decide (e.2 = name)) || isdir e.1.
Fixpoint last_file (name : string) (es : list entry) (found : option Z) : option Z :=
  match es with
  | [] => found
  | e :: es => last_file name es (if kept name e then found else Some e.1)
  end.

Lemma unlink_words_entries es name ost count found :
  Forall valid_entry es → valid_name name →
  unlink_words (entry_word <$> es) name ost count found =
    (join_words ost count (entry_word <$> filter (λ e, kept name e = true) es), last_file name es found).
Proof.
  intros Hes Hn. revert ost count found. induction Hes as [|e es He Hes IH]; intros ost count found; [done|].
  rewrite fmap_cons. cbn [unlink_words last_file]. rewrite parse_entry_word by done.
  destruct e as [i n]. destruct He as [Hi He]. rewrite same_name by done.
  rewrite filter_cons. change (negb (bool_decide (n = name)) || isdir i) with (kept name (i, n)). cbn [fst].
  destruct (kept name (i, n)) eqn:Ek; rewrite IH.
  - rewrite decide_True by done. rewrite fmap_cons. done.
  - by rewrite decide_False.
Qed.

Lemma dir_text_unlink content es name :
  dir_text content es → valid_name name →
  let r := unlink_words (words_of content) name "" 0 None in
  dir_text r.1 (filter (λ e, kept name e = true) es) ∧ r.2 = last_file name es None.
Proof.
  intros [Hes Ht] Hn. rewrite Ht, unlink_words_entries by done. cbn [fst snd]. split; [|done].
  assert (Hk : Forall valid_entry (filter (λ e, kept name e = true) es)) .
  { apply Forall_forall. intros e [_ He]%list_elem_of_filter. by eapply Forall_forall in He. }
  split; [done|]. rewrite (join_words_tokens _ _ _ []); [done| |lia|done|done].
  apply Forall_fmap. eapply Forall_impl; [exact Hk|]. apply entry_word_word.
Qed.

Lemma last_file_spec name es found :
  match last_file name es found with
  | Some i => found = Some i ∨ ∃ e, e ∈ es ∧ e = (i, name) ∧ isfile i = true
  | None => found = None ∧ ∀ e, e ∈ es → kept name e = true
  end.
Proof.
  revert found. induction es as [|e es IH]; intros found; simpl.
  { destruct found; [by left|]. split; [done|]. intros e He. by apply not_elem_of_nil in He. }
  specialize (IH (if kept name e then found else Some e.1)).
  destruct (last_file name es _) as [i|].
  - destruct IH as [IH|(e' & Hin & He')]; [|right; exists e'; split; [by right|done]].
    destruct (kept name e) eqn:Ek; [by left|]. injection IH as <-. right. exists e. split; [by left|].
    unfold kept, isdir in Ek. apply orb_false_elim in Ek as [E1 E2].
    rewrite negb_false_iff, bool_decide_eq_true in E1. rewrite negb_false_iff in E2. destruct e; simpl in *. by subst.
  - destruct IH as [IH Hall]. destruct (kept name e) eqn:Ek; [|done]. split; [done|].
    intros e' [->|He']%elem_of_cons; [done|auto].
Qed.

(** ** The numbers of files *)

Lemma isfile_bit x : isfile x = Z.testbit x 31.
Proof.
  unfold isfile. change 0x80000000 with (2 ^ 31).
  destruct (Z.eqb_spec (Z.land x (2 ^ 31)) 0) as [E|E]; cbn.
  - apply (f_equal (λ z, Z.testbit z 31)) in E. rewrite Z.land_spec, Z.pow2_bits_true, andb_true_r, Z.bits_0 in E by lia. done.
  - destruct (Z.testbit x 31) eqn:Eb; [done|]. exfalso. apply E. apply Z.bits_inj'. intros n Hn.
    rewrite Z.land_spec, Z.bits_0. destruct (decide (n = 31)) as [->|]; [by rewrite Eb|].
    rewrite Z.pow2_bits_false by done. apply andb_false_r.
Qed.

Lemma isfile_new rnd b : isfile (new_inum rnd b) = b.
Proof.
  rewrite isfile_bit. unfold new_inum. destruct b.
  - rewrite Z.lor_spec. apply orb_true_r.
  - rewrite Z.land_spec. apply andb_false_r.
Qed.

(** ** Operations with the server behind the stub *)

Lemma ec_get_server junk jnk now i b c s :
  es_contents (ec_get (server_net jnk now) junk now i b c s).2 = es_contents s.
Proof.
  assert (Hg : ∀ x s0, es_contents (es_get now i x s0).2 = es_contents s0).
  { intros x s0. unfold es_get. destruct (es_contents s0 !! i); [|done]. by destruct (map_ref _ _ _). }
  assert (Ha : ∀ x s0, (es_getattr i x s0).2 = s0).
  { intros x s0. unfold es_getattr. by destruct (es_attributes s0 !! i). }
  unfold ec_get. cbn [xn_get xn_getattr server_net].
  destruct (ec_attributes c !! i); cbv zeta; [destruct (map_ref _ _ _) as [? ?]|].
  - destruct (ec_contents c !! i); [done|]. specialize (Hg "" s). by destruct (es_get now i "" s) as [[? ?] ?].
  - specialize (Ha (Attr 0 0 0 0) s). destruct (es_getattr i (Attr 0 0 0 0) s) as [[? ?] s1]; cbn [snd] in Ha. subst s1.
    destruct (map_ref _ _ _) as [? ?]. destruct (ec_contents c !! i); [done|].
    specialize (Hg "" s). by destruct (es_get now i "" s) as [[? ?] ?].
Qed.

Section operations.
Context (junk : attr) (jnk now : Z).
Let net := server_net jnk now.
Implicit Types y : yfs extent_server.

(** The bytes of every extent as the client sees them. *)
Definition view_of (y : yfs extent_server) : gmap Z string := ec_view (y_ec y) (y_world y).
Definition y_inv (y : yfs extent_server) : Prop := ec_inv (y_ec y) (y_world y).

Lemma y_get_hit inum b y d :
  y_inv y → view_of y !! inum = Some d →
  ∃ y', y_get net junk now inum b y = (yfs_status.OK, d, y') ∧ y_inv y' ∧ view_of y' = view_of y ∧
    y_trace y' = y_trace y ++ [Touch inum].
Proof.
  intros Hi Hv. unfold y_get. pose proof (ec_get_refines junk jnk now inum b _ _ Hi) as Hg.
  unfold view_of in Hv. rewrite Hv in Hg. destruct Hg as (c & s & E & Hi' & Hv').
  unfold net. rewrite E. eexists. split; [done|]. done.
Qed.

Lemma y_get_miss inum b y :
  y_inv y → view_of y !! inum = None →
  ∃ b', y_get net junk now inum b y = (yfs_status.NOENT, b', log y (Touch inum)).
Proof.
  intros Hi Hv. unfold y_get. pose proof (ec_get_refines junk jnk now inum b _ _ Hi) as Hg.
  unfold view_of in Hv. rewrite Hv in Hg. destruct Hg as (b' & E). unfold net. rewrite E. by eexists.
Qed.

Lemma y_put_ok inum d y :
  y_inv y →
  ∃ y', y_put now inum d y = (yfs_status.OK, y') ∧ y_inv y' ∧ view_of y' = <[inum := d]> (view_of y) ∧
    y_trace y' = y_trace y ++ [Touch inum] ∧ y_world y' = y_world y.
Proof.
  intros Hi. unfold y_put. destruct (ec_put_refines now inum d _ _ Hi) as [Hi' Hv].
  assert ((ec_put now inum d (y_ec y)).1 = extent_protocol.OK) as E.
  { unfold ec_put. by destruct (map_ref _ _ _). }
  destruct (ec_put now inum d (y_ec y)) as [ret ec]. simpl in *. subst ret.
  eexists. split; [done|]. done.
Qed.

Lemma y_get_server inum b y :
  es_contents (y_world (y_get net junk now inum b y).2) = es_contents (y_world y).
Proof.
  unfold y_get. pose proof (ec_get_server junk jnk now inum b (y_ec y) (y_world y)) as E. fold net in E.
  by destruct (ec_get _ _ _ _ _ _ _) as [[[? ?] ?] ?].
Qed.

(** [getattr] tells the length of what the client sees. *)
Lemma y_getattr_hit inum y d :
  y_inv y → view_of y !! inum = Some d →
  ∃ a y', y_getattr net junk inum y = (extent_protocol.OK, a, y') ∧ a_size a = length_u32 d ∧
    y_inv y' ∧ view_of y' = view_of y.
Proof.
  intros Hi Hv. unfold y_getattr. pose proof (ec_getattr_refines junk jnk now inum _ _ Hi) as Hg.
  unfold view_of in Hv. rewrite Hv in Hg. destruct Hg as (a & c & E & Hs & Hi' & Hv').
  unfold net. rewrite E. by do 2 eexists.
Qed.

Lemma y_getattr_miss inum y :
  y_inv y → view_of y !! inum = None →
  ∃ a, y_getattr net junk inum y = (extent_protocol.IOERR, a, log y (Touch inum)).
Proof.
  intros Hi Hv. unfold y_getattr. pose proof (ec_getattr_refines junk jnk now inum _ _ Hi) as Hg.
  unfold view_of in Hv. rewrite Hv in Hg. destruct Hg as (a & E). unfold net. rewrite E. by eexists.
Qed.

Lemma log_inv y e : y_inv (log y e) ↔ y_inv y. Proof. done. Qed.
Lemma log_view y e : view_of (log y e) = view_of y. Proof. done. Qed.

(** [remove] gives the extent back to the server's version of it. *)
Lemma remove_ok inum y :
  y_inv y →
  ∃ y', remove inum y = Ret (yfs_status.OK, y') ∧ y_inv y' ∧
    (∀ j, view_of y' !! j = if decide (inum = j) then es_contents (y_world y) !! j else view_of y !! j) ∧
    y_trace y' = y_trace y ++ [Acquire inum; Touch inum; Release inum].
Proof.
  intros Hi. unfold remove, with_lock. simpl. eexists. split; [done|].
  assert (Hv : ∀ j, ec_view (ec_erase inum (y_ec y)) (y_world y) !! j =
    if decide (inum = j) then es_contents (y_world y) !! j else view_of y !! j).
  { intros j. unfold view_of, ec_view. simpl. rewrite !lookup_union.
    destruct (decide (inum = j)) as [<-|Hne].
    - rewrite lookup_delete_eq. by destruct (es_contents _ !! _).
    - by rewrite lookup_delete_ne. }
  split; [|split; [exact Hv|simpl; by rewrite <- !(assoc_L (++))]].
  destruct Hi as (Hs & Hz & Hd). split; [done|]. split.
  - intros j a. simpl. rewrite Hv. destruct (decide (inum = j)) as [<-|Hne]; [by rewrite lookup_delete_eq|].
    rewrite lookup_delete_ne by done. apply Hz.
  - intros j. simpl. destruct (decide (inum = j)) as [<-|Hne]; [rewrite lookup_delete_eq; by intros []|].
    rewrite !lookup_delete_ne by done. apply Hd.
Qed.

Lemma new_inum_u32 rnd f : 0 ≤ rnd < 2 ^ 31 → in_u32 (new_inum rnd f).
Proof.
  intros Hr. unfold new_inum. destruct f.
  - change 0x80000000 with (Z.shiftl 1 31). rewrite Z.lor_comm, lor_shiftl_add by lia. wrap_unfold; lia.
  - change 0x7FFFFFFF with (Z.ones 31). rewrite Z.land_ones by lia. wrap_lia.
Qed.

Lemma new_inum_range rnd f : 0 ≤ rnd < 2 ^ 31 → in_u64 (new_inum rnd f).
Proof. intros Hr. pose proof (new_inum_u32 rnd f Hr). wrap_unfold; lia. Qed.

Lemma lookupfile_ok dinum name inum y content es :
  y_inv y → view_of y !! dinum = Some content → dir_text content es → valid_name name →
  ∃ y', lookupfile net junk now dinum name inum y =
      Ret (match find_entry name es with Some i => (yfs_status.EXIST, i) | None => (yfs_status.OK, inum) end, y') ∧
    y_inv y' ∧ view_of y' = view_of y.
Proof.
  intros Hi Hv [Hes Ht] Hn. unfold lookupfile, with_lock.
  destruct (y_get_hit dinum "" (log y (Acquire dinum)) content) as (y1 & -> & Hi1 & Hv1 & _); [done..|].
  simpl. unfold lookupfile_content. rewrite Ht, lookup_words_entries by done.
  eexists. split; [done|]. done.
Qed.

Lemma createfile_ok rnd dinum f name y content es :
  y_inv y → view_of y !! dinum = Some content → dir_text content es → valid_name name →
  0 ≤ rnd < 2 ^ 31 →
  let inum := new_inum rnd f in
  let content' := content +:+ " " +:+ entry_word (inum, name) in
  match find_entry name es with
  | Some _ => ∃ y', createfile net junk now rnd dinum f name y = Ret (yfs_status.EXIST, inum, y') ∧
      y_inv y' ∧ view_of y' = view_of y
  | None => ∃ y', createfile net junk now rnd dinum f name y = Ret (yfs_status.OK, inum, y') ∧
      y_inv y' ∧ view_of y' = <[inum := ""]> (<[dinum := content']> (view_of y)) ∧
      dir_text content' (es ++ [(inum, name)])
  end.
Proof.
  intros Hi Hv Hd Hn Hr inum content'. pose proof Hd as [Hes Ht]. unfold createfile, with_lock.
  fold inum.
  destruct (y_get_hit dinum "" (log (log y (Acquire dinum)) (Acquire inum)) content)
    as (y1 & -> & Hi1 & Hv1 & _); [done..|]. cbn [negb rbind]. change (negb (yfs_status.OK =? yfs_status.OK)) with false.
  unfold lookupfile_content. rewrite Ht, lookup_words_entries by done.
  destruct (find_entry name es) as [i|] eqn:Ef; simpl.
  { eexists. split; [done|]. done. }
  destruct (y_put_ok dinum content' y1 Hi1) as (y2 & E2 & Hi2 & Hv2 & _).
  unfold content', entry_word in E2. cbn [fst snd] in E2. rewrite E2. simpl.
  destruct (y_put_ok inum "" y2 Hi2) as (y3 & -> & Hi3 & Hv3 & _). simpl.
  eexists. split; [done|]. split; [done|]. split.
  - rewrite log_view, log_view, Hv3, Hv2, Hv1. done.
  - apply dir_text_snoc; [done|]. split; [by apply new_inum_range|done].
Qed.

Lemma unlink_ok parent name y content es :
  y_inv y → isdir parent = true → view_of y !! parent = Some content → dir_text content es → valid_name name →
  match last_file name es None with
  | Some i => ∃ y' content', unlink net junk now parent name y = Ret (yfs_status.OK, y') ∧ y_inv y' ∧
      isfile i = true ∧ (i, name) ∈ es ∧
      view_of y' !! parent = Some content' ∧ dir_text content' (filter (λ e, kept name e = true) es) ∧
      ∀ j, j ≠ parent →
        view_of y' !! j = if decide (i = j) then es_contents (y_world y) !! j else view_of y !! j
  | None => ∃ y', unlink net junk now parent name y = Ret (yfs_status.NOENT, y') ∧ y_inv y' ∧ view_of y' = view_of y
  end.
Proof.
  intros Hi Hp Hv Hd Hn. unfold unlink, with_lock. rewrite Hp. cbn [negb].
  pose proof (y_get_server parent "" (log y (Acquire parent))) as Hw.
  destruct (y_get_hit parent "" (log y (Acquire parent)) content) as (y1 & E1 & Hi1 & Hv1 & _); [done..|].
  rewrite E1 in *. change (negb (yfs_status.OK =? yfs_status.OK)) with false. cbv iota.
  destruct (dir_text_unlink content es name Hd Hn) as [Hd' Hf].
  destruct (unlink_words _ _ _ _ _) as [ost found]; cbn [fst snd] in *. subst found.
  pose proof (last_file_spec name es None) as Hl. destruct (last_file name es None) as [i|]; cbn [rbind].
  - destruct Hl as [Hl|(e & Hin & -> & Hif)]; [done|].
    destruct (remove_ok i y1 Hi1) as (y2 & -> & Hi2 & Hv2 & _). cbn [rbind].
    change (negb (yfs_status.OK =? yfs_status.OK)) with false. cbv iota.
    destruct (y_put_ok parent ost y2 Hi2) as (y3 & -> & Hi3 & Hv3 & _). cbn.
    do 2 eexists. split; [done|]. split; [done|]. split; [done|]. split; [done|].
    rewrite log_view, Hv3. split; [by rewrite lookup_insert_eq|]. split; [done|].
    intros j Hj. rewrite lookup_insert_ne, Hv2, Hv1 by done. cbn [snd] in Hw. by rewrite Hw.
  - eexists. split; [done|]. done.
Qed.
End operations.

(** A created file can be looked up.  In a directory whose text lists
    [es], [createfile] with a name that is not there returns [OK] with the new
    number, makes the file an empty extent, and afterwards [lookupfile] finds
    the number under the name and every other name exactly as before. *)
Theorem created_file_is_found junk jnk now rnd dinum f name y content es :
  y_inv y → view_of y !! dinum = Some content → dir_text content es → valid_name name →
  0 ≤ rnd < 2 ^ 31 → new_inum rnd f ≠ dinum → find_entry name es = None →
  ∃ y1, createfile (server_net jnk now) junk now rnd dinum f name y = Ret (yfs_status.OK, new_inum rnd f, y1) ∧
    view_of y1 !! new_inum rnd f = Some "" ∧
    ∀ name' i0, valid_name name' → ∃ y2,
      lookupfile (server_net jnk now) junk now dinum name' i0 y1 =
        Ret (if bool_decide (name' = name) then (yfs_status.EXIST, new_inum rnd f)
             else match find_entry name' es with
                  | Some i => (yfs_status.EXIST, i) | None => (yfs_status.OK, i0) end, y2).
Proof.
  intros Hi Hv Hd Hn Hr Hne Hf.
  pose proof (createfile_ok junk jnk now rnd dinum f name y content es Hi Hv Hd Hn Hr) as Hc.
  rewrite Hf in Hc. destruct Hc as (y1 & E1 & Hi1 & Hv1 & Hd1).
  exists y1. split; [done|]. split; [by rewrite Hv1, lookup_insert_eq|]. intros name' i0 Hn'.
  edestruct (lookupfile_ok junk jnk now dinum name' i0 y1) as (y2 & E2 & _); [done| |exact Hd1|done|].
  { by rewrite Hv1, lookup_insert_ne, lookup_insert_eq. }
  exists y2. rewrite E2. do 2 f_equal. rewrite find_entry_app. cbn [find_entry fst snd].
  destruct (decide (name' = name)) as [->|Hnn].
  - by rewrite Hf, !bool_decide_eq_true_2.
  - rewrite !bool_decide_eq_false_2 by congruence. by destruct (find_entry name' es).
Qed.

Definition demo_yfs : yfs extent_server := Yfs extent_client_new extent_server_new [].

Lemma demo_yfs_inv : y_inv demo_yfs.
Proof.
  split; [|split; [done|intros id [? H]; done]].
  intros id. destruct (decide (id = 1)) as [->|Hne]; [done|]. simpl. by rewrite !lookup_singleton_ne.
Qed.

Lemma demo_name : valid_name "notes".
Proof. split; [|set_solver]. split; [done|]. repeat constructor. Qed.

Lemma created_file_is_found_witness :
  ∃ y1, createfile (server_net 5 100) (Attr 9 9 9 9) 100 1234 1 true "notes" demo_yfs =
      Ret (yfs_status.OK, new_inum 1234 true, y1) ∧
    view_of y1 !! new_inum 1234 true = Some "" ∧
    ∀ name' i0, valid_name name' → ∃ y2,
      lookupfile (server_net 5 100) (Attr 9 9 9 9) 100 1 name' i0 y1 =
        Ret (if bool_decide (name' = "notes") then (yfs_status.EXIST, new_inum 1234 true)
             else match find_entry name' [] with
                  | Some i => (yfs_status.EXIST, i) | None => (yfs_status.OK, i0) end, y2).
Proof.
  apply (created_file_is_found (Attr 9 9 9 9) 5 100 1234 1 true "notes" demo_yfs "" []);
    [apply demo_yfs_inv|reflexivity|split; [done|reflexivity]|apply demo_name|lia|vm_compute; lia|reflexivity].
Defined.

(** [unlink] removes files and only files.  In a directory whose text
    lists [es], if some entry of that name is a file, [unlink] returns [OK]
    and the directory lists what it listed less the files of that name, in
    the same order: subdirectories and other names stay.  If the name is not
    there, or names a directory only, it returns [NOENT] and nothing changes. *)
Theorem unlink_removes_files junk jnk now parent name y content es :
  y_inv y → isdir parent = true → view_of y !! parent = Some content → dir_text content es → valid_name name →
  ∃ ret y', unlink (server_net jnk now) junk now parent name y = Ret (ret, y') ∧
    (ret = yfs_status.OK ↔ ∃ i, (i, name) ∈ es ∧ isfile i = true) ∧
    (ret = yfs_status.OK → ∃ content', view_of y' !! parent = Some content' ∧
       dir_text content' (filter (λ e, kept name e = true) es)) ∧
    (ret ≠ yfs_status.OK → ret = yfs_status.NOENT ∧ view_of y' = view_of y).
Proof.
  intros Hi Hp Hv Hd Hn. pose proof (unlink_ok junk jnk now parent name y content es Hi Hp Hv Hd Hn) as Hu.
  pose proof (last_file_spec name es None) as Hl. destruct (last_file name es None) as [i|].
  - destruct Hu as (y' & content' & E & _ & Hif & Hin & Hv' & Hd' & _).
    exists yfs_status.OK, y'. split; [done|]. split; [split; [by eauto|done]|]. split; [by eauto|done].
  - destruct Hu as (y' & E & _ & Hv'). exists yfs_status.NOENT, y'. split; [done|].
    split; [|by split]. split; [done|]. intros (i & Hin & Hif). destruct Hl as [_ Hl].
    specialize (Hl _ Hin). unfold kept, isdir in Hl. cbn [fst snd] in Hl. rewrite Hif in Hl.
    by rewrite bool_decide_eq_true_2 in Hl.
Qed.

(** The root directory with a file and a directory of the same name. *)
Definition demo_dir : string := " 2147483649@notes 5@notes".
Definition demo_dir_yfs : yfs extent_server := (y_put 100 1 demo_dir demo_yfs).2.

Lemma demo_dir_text : dir_text demo_dir [(2147483649, "notes"); (5, "notes")].
Proof.
  split; [|reflexivity].
  apply Forall_cons; split; [|apply Forall_singleton]; (split; [vm_compute; done|apply demo_name]).
Qed.

Lemma unlink_removes_files_witness :
  ∃ ret y', unlink (server_net 5 100) (Attr 9 9 9 9) 100 1 "notes" demo_dir_yfs = Ret (ret, y') ∧
    (ret = yfs_status.OK ↔ ∃ i, (i, "notes") ∈ [(2147483649, "notes"); (5, "notes")] ∧ isfile i = true) ∧
    (ret = yfs_status.OK → ∃ content', view_of y' !! 1 = Some content' ∧
       dir_text content' (filter (λ e, kept "notes" e = true) [(2147483649, "notes"); (5, "notes")])) ∧
    (ret ≠ yfs_status.OK → ret = yfs_status.NOENT ∧ view_of y' = view_of demo_dir_yfs).
Proof.
  apply (unlink_removes_files (Attr 9 9 9 9) 5 100 1 "notes" demo_dir_yfs demo_dir);
    [|reflexivity|reflexivity|apply demo_dir_text|apply demo_name].
  destruct (y_put_ok 100 1 demo_dir demo_yfs demo_yfs_inv) as (y' & E & Hi & _).
  unfold demo_dir_yfs. rewrite E. exact Hi.
Defined.

(** ** Reading and writing *)

(** The bytes of a file after [data] was written at [off]: a gap before [off]
    is filled with null bytes, and what is past the data stays. *)
Definition write_at (content : list ascii) (off : nat) (data : list ascii) : list ascii :=
  take off content ++ replicate (off - length content) "000"%char ++ data ++ drop (off + length data) content.

(** Byte by byte. *)
Lemma write_at_lookup content off data i :
  (i < length (write_at content off data))%nat →
  write_at content off data !! i =
    if decide (i < off)%nat then Some (default "000"%char (content !! i))
    else if decide (i < off + length data)%nat then data !! (i - off)%nat
    else content !! i.
Proof.
  intros Hi. unfold write_at in *. destruct (decide (off ≤ length content)%nat) as [Ho|Ho].
  - replace (off - length content)%nat with O in * by lia. cbn [replicate app] in *.
    rewrite !length_app, length_take, length_drop in Hi. rewrite lookup_app, length_take.
    destruct (decide (i < off)%nat) as [H1|H1].
    + rewrite lookup_take_lt by lia.
      destruct (content !! i) eqn:E; [done|]. apply lookup_ge_None in E. lia.
    + rewrite lookup_take_ge by lia. rewrite lookup_app. replace (off `min` length content)%nat with off by lia.
      destruct (decide (i < off + length data)%nat) as [H2|H2].
      * destruct (data !! (i - off)%nat) eqn:E; [done|]. apply lookup_ge_None in E. lia.
      * rewrite lookup_ge_None_2 by lia. rewrite lookup_drop. f_equal. lia.
  - rewrite take_ge, drop_ge, app_nil_r in * by lia. rewrite !length_app, length_replicate in Hi.
    rewrite lookup_app. destruct (content !! i) as [c|] eqn:E.
    + apply lookup_lt_Some in E as E2. by rewrite decide_True by lia.
    + apply lookup_ge_None in E. rewrite lookup_app, length_replicate.
      destruct (decide (i < off)%nat) as [H1|H1].
      * by rewrite lookup_replicate_2 by lia.
      * rewrite (lookup_ge_None_2 (replicate _ _)) by (rewrite length_replicate; lia). rewrite decide_True by lia. f_equal. lia.
Qed.

Lemma substr_ok s pos n :
  0 ≤ pos ≤ string_size s → substr s pos n = Ret (of_chars (take (Z.to_nat n) (drop (Z.to_nat pos) (chars s)))).
Proof. intros H. unfold substr. by replace (string_size s <? pos) with false by lia. Qed.

Lemma string_size_chars s : string_size s = Z.of_nat (length (chars s)).
Proof. unfold string_size. by autorewrite with chars. Qed.

Lemma write_ok junk jnk now inum off data y content :
  y_inv y → view_of y !! inum = Some content → 0 ≤ off →
  off + string_size data < 2 ^ 31 → string_size content < 2 ^ 31 →
  ∃ y', write (server_net jnk now) junk now inum (string_size data) off data y = Ret (yfs_status.OK, y') ∧
    y_inv y' ∧
    view_of y' = <[inum := of_chars (write_at (chars content) (Z.to_nat off) (chars data))]> (view_of y).
Proof.
  intros Hi Hv Ho Hd Hc. unfold write, with_lock.
  destruct (y_get_hit junk jnk now inum "" (log y (Acquire inum)) content) as (y1 & -> & Hi1 & Hv1 & _); [done..|].
  change (negb (yfs_status.OK =? yfs_status.OK)) with false. cbv iota.
  rewrite !string_size_chars in *. set (size := Z.of_nat (length (chars data))) in *.
  assert (Hend : (if off + size <? Z.of_nat (length (chars content))
    then substr content (u32 (off + size)) npos else Ret "") = Ret (of_chars (drop (Z.to_nat (off + size)) (chars content)))).
  { destruct (Z.ltb_spec (off + size) (Z.of_nat (length (chars content)))).
    - rewrite u32_id by (wrap_unfold; lia). rewrite substr_ok by (rewrite string_size_chars; lia).
      rewrite take_ge; [done|]. rewrite length_drop. unfold npos. lia.
    - rewrite drop_ge by lia. done. }
  rewrite Hend. cbn [rbind].
  assert (Hcon : (if off <=? Z.of_nat (length (chars content)) then substr content 0 (u32 off)
     else Ret (content +:+ of_chars (replicate (Z.to_nat (off - Z.of_nat (length (chars content)))) "000"%char))) =
    Ret (of_chars (take (Z.to_nat off) (chars content) ++
                   replicate (Z.to_nat off - length (chars content)) "000"%char))).
  { destruct (Z.leb_spec off (Z.of_nat (length (chars content)))).
    - rewrite u32_id by (wrap_unfold; lia). rewrite substr_ok by (rewrite string_size_chars; lia).
      rewrite drop_0. replace (Z.to_nat off - length (chars content))%nat with O by lia. simpl. by rewrite app_nil_r.
    - rewrite take_ge by lia. rewrite of_chars_app, of_chars_chars. do 4 f_equal. lia. }
  cbv zeta. rewrite Hcon. cbn [rbind]. rewrite Z.ltb_irrefl.
  rewrite substr_ok by (rewrite string_size_chars; lia). cbn [rbind]. rewrite drop_0.
  rewrite (take_ge (chars data)) by (unfold size; lia).
  match goal with |- context [y_put now inum ?d y1] => destruct (y_put_ok now inum d y1 Hi1) as (y2 & -> & Hi2 & Hv2 & _) end.
  cbn. eexists. split; [done|]. split; [done|]. rewrite log_view, Hv2, Hv1, log_view. f_equal.
  unfold write_at. rewrite <- !of_chars_app, <- !(assoc_L (++)). do 5 f_equal. lia.
Qed.

Lemma read_ok junk jnk now inum rsize roff buf y content :
  y_inv y → view_of y !! inum = Some content → string_size content < 2 ^ 32 → 0 ≤ roff < 2 ^ 31 →
  ∃ y', read (server_net jnk now) junk now inum rsize roff buf y =
      Ret (yfs_status.OK, of_chars (take (Z.to_nat rsize) (drop (Z.to_nat roff) (chars content))), y') ∧
    y_inv y' ∧ view_of y' = view_of y.
Proof.
  intros Hi Hv Hc Hr. unfold read, with_lock.
  destruct (y_get_hit junk jnk now inum buf (log y (Acquire inum)) content Hi Hv) as (y1 & -> & Hi1 & Hv1 & _).
  change (negb (yfs_status.OK =? yfs_status.OK)) with false. cbv iota.
  rewrite string_size_chars in *. set (n := Z.of_nat (length (chars content))) in *.
  set (off' := if n <? roff then n else roff).
  assert (Ho' : 0 ≤ off' ≤ n ∧ in_u32 off' ∧
    drop (Z.to_nat off') (chars content) = drop (Z.to_nat roff) (chars content)).
  { unfold off'. destruct (Z.ltb_spec n roff) as [H|H].
    - split; [lia|]. split; [wrap_unfold; lia|]. by rewrite !drop_ge by lia.
    - split; [lia|]. split; [wrap_unfold; lia|]. done. }
  destruct Ho' as (H1 & H2 & H3). rewrite u32_id by done. rewrite substr_ok by (rewrite string_size_chars; lia).
  cbn [rbind]. rewrite H3. by eexists.
Qed.

(** What is written can be read.  Writing [data] at offset [off] of an
    existing file returns [OK], changes that file only, and a read of any
    range then returns exactly the bytes in the range of the file with the
    data written over it, with null bytes in a gap before [off] and fewer
    bytes at the end of the file. *)
Theorem write_then_read junk jnk now inum off data roff rsize buf y content :
  y_inv y → view_of y !! inum = Some content → 0 ≤ off →
  off + string_size data < 2 ^ 31 → string_size content < 2 ^ 31 → 0 ≤ roff < 2 ^ 31 → 0 ≤ rsize →
  let content' := write_at (chars content) (Z.to_nat off) (chars data) in
  ∃ y1 y2,
    write (server_net jnk now) junk now inum (string_size data) off data y = Ret (yfs_status.OK, y1) ∧
    (∀ j, j ≠ inum → view_of y1 !! j = view_of y !! j) ∧
    read (server_net jnk now) junk now inum rsize roff buf y1 =
      Ret (yfs_status.OK, of_chars (take (Z.to_nat rsize) (drop (Z.to_nat roff) content')), y2).
Proof.
  intros Hi Hv Ho Hd Hc Hr Hs content'.
  destruct (write_ok junk jnk now inum off data y content) as (y1 & E1 & Hi1 & Hv1); [done..|].
  destruct (read_ok junk jnk now inum rsize roff buf y1 (of_chars content')) as (y2 & E2 & _);
    [done|by rewrite Hv1, lookup_insert_eq| |done|].
  { unfold content', write_at. rewrite !string_size_chars in *. autorewrite with chars.
    rewrite !length_app, length_take, length_replicate, length_drop. lia. }
  exists y1, y2. split; [done|]. split; [intros j Hj; by rewrite Hv1, lookup_insert_ne|].
  by rewrite E2, chars_of_chars.
Qed.

Lemma write_then_read_witness :
  ∃ y1 y2,
    write (server_net 5 100) (Attr 9 9 9 9) 100 1 (string_size "world") 3 "world" demo_yfs = Ret (yfs_status.OK, y1) ∧
    (∀ j, j ≠ 1 → view_of y1 !! j = view_of demo_yfs !! j) ∧
    read (server_net 5 100) (Attr 9 9 9 9) 100 1 100 4 "" y1 =
      Ret (yfs_status.OK, of_chars (take 100 (drop 4 (write_at [] 3 (chars "world")))), y2).
Proof.
  apply (write_then_read (Attr 9 9 9 9) 5 100 1 3 "world" 4 100 "" demo_yfs "");
    [apply demo_yfs_inv|reflexivity|lia|vm_compute; done..|vm_compute; split; done|lia].
Defined.

(** ** setsize *)

Lemma setsize_pad_spec fuel i size buf :
  0 ≤ i ≤ size → string_size buf ≤ size → size < 2 ^ 31 → size - string_size buf ≤ Z.of_nat fuel + i →
  ∃ k : nat, setsize_pad fuel i size buf = buf +:+ of_chars (replicate k " "%char) ∧
    Z.of_nat k = Z.max 0 ((size - string_size buf - i + 1) / 2).
Proof.
  revert i buf. induction fuel as [|fuel IH]; intros i buf Hi Hb Hs Hf.
  - exists O. split; [|Z.div_mod_to_equations; lia]. simpl.
    rewrite <- (of_chars_chars (buf +:+ "")), chars_app. simpl. by rewrite app_nil_r, of_chars_chars.
  - assert (0 ≤ string_size buf) by (unfold string_size; lia).
    cbn [setsize_pad].
    destruct (Z.ltb_spec (u32 i) (u32 (size - string_size buf))) as [Hlt|Hlt].
    + assert (i < size - string_size buf).
      { rewrite !u32_id in Hlt by (wrap_unfold; lia). lia. }
      assert (Hl : string_size (buf +:+ " ") = string_size buf + 1).
      { rewrite !string_size_chars, chars_app, length_app. simpl. lia. }
      destruct (IH (i + 1) (buf +:+ " ")) as (k & E & Hk); [lia..|].
      rewrite E. exists (S k). split.
      * rewrite <- (of_chars_chars ((buf +:+ " ") +:+ _)), <- (of_chars_chars (buf +:+ of_chars (replicate (S k) _))).
        f_equal. autorewrite with chars. by rewrite <- (assoc_L (++)).
      * Z.div_mod_to_equations; lia.
    + exists O. split.
      * simpl. rewrite <- (of_chars_chars (buf +:+ "")), chars_app. simpl. by rewrite app_nil_r, of_chars_chars.
      * assert (size - string_size buf ≤ i).
        { rewrite !u32_id in Hlt by (wrap_unfold; lia). lia. }
        Z.div_mod_to_equations; lia.
Qed.

(** [setsize] does not extend a file to the size asked for.  The bound of
    its loop, [size - buf.length()], shrinks as the buffer grows, so a file
    of [n] bytes that is to have [size > n] gets only half of the missing
    bytes, rounded up, and they are spaces rather than null bytes. *)
Theorem setsize_pads_half junk jnk now inum size y content :
  y_inv y → view_of y !! inum = Some content → string_size content ≤ size → size < 2 ^ 31 →
  ∃ y' k, setsize (server_net jnk now) junk now inum size y = Ret (yfs_status.OK, y') ∧
    view_of y' !! inum = Some (content +:+ of_chars (replicate k " "%char)) ∧
    Z.of_nat k = (size - string_size content + 1) / 2.
Proof.
  intros Hi Hv Hc Hs. unfold setsize, with_lock.
  destruct (y_get_hit junk jnk now inum "" (log y (Acquire inum)) content) as (y1 & -> & Hi1 & Hv1 & _); [done..|].
  change (negb (yfs_status.OK =? yfs_status.OK)) with false. cbv iota.
  replace (size <? string_size content) with false by lia. cbn [rbind].
  destruct (setsize_pad_spec (Z.to_nat size) 0 size content) as (k & E & Hk);
    [unfold string_size in Hc; lia|done|done|unfold string_size; lia|].
  rewrite E. match goal with |- context [y_put now inum ?d y1] => destruct (y_put_ok now inum d y1 Hi1) as (y2 & -> & Hi2 & Hv2 & _) end.
  cbn. exists (log y2 (Release inum)), k. split; [done|]. rewrite log_view, Hv2, lookup_insert_eq. split; [done|].
  rewrite Hk. Z.div_mod_to_equations; lia.
Qed.

Lemma setsize_pads_half_witness :
  ∃ y' k, setsize (server_net 5 100) (Attr 9 9 9 9) 100 1 10 demo_yfs = Ret (yfs_status.OK, y') ∧
    view_of y' !! 1 = Some ("" +:+ of_chars (replicate k " "%char)) ∧
    Z.of_nat k = (10 - string_size "" + 1) / 2.
Proof.
  apply (setsize_pads_half (Attr 9 9 9 9) 5 100 1 10 demo_yfs "");
    [apply demo_yfs_inv|reflexivity|vm_compute; done|lia].
Defined.

(** ** Every operation, its locks and the server *)

Inductive yfs_op :=
| OpGetFile (inum : Z)
| OpGetDir (inum : Z)
| OpCreate (rnd dinum : Z) (f : bool) (name : string)
| OpLookup (dinum : Z) (name : string)
| OpGetContent (inum : Z)
| OpRemove (inum : Z)
| OpSetSize (inum size : Z)
| OpRead (inum size off : Z)
| OpWrite (inum size off : Z) (buf : string)
| OpUnlink (parent : Z) (name : string).

Section every_operation.
Context {W : Type} (net : extent_net W) (junk : attr) (now : Z).

(** The state after an operation. *)
Definition run_op (op : yfs_op) (y : yfs W) : res (yfs W) :=
  match op with
  | OpGetFile i => rmap snd (getfile net junk i (FileInfo 0 0 0 0) y)
  | OpGetDir i => rmap snd (getdir net junk i (DirInfo 0 0 0) y)
  | OpCreate rnd d f name => rmap snd (createfile net junk now rnd d f name y)
  | OpLookup d name => rmap snd (lookupfile net junk now d name 0 y)
  | OpGetContent i => rmap snd (getcontent net junk now i "" y)
  | OpRemove i => rmap snd (remove i y)
  | OpSetSize i size => rmap snd (setsize net junk now i size y)
  | OpRead i size off => rmap snd (read net junk now i size off "" y)
  | OpWrite i size off buf => rmap snd (write net junk now i size off buf y)
  | OpUnlink p name => rmap snd (unlink net junk now p name y)
  end.

Fixpoint run_ops (ops : list yfs_op) (y : yfs W) : res (yfs W) :=
  match ops with
  | [] => Ret y
  | op :: ops => y ← run_op op y; run_ops ops y
  end.

(** [disciplined held tr]: in [tr], started with the locks [held], no lock is
    taken twice, locks are given back in the reverse order, and extents are
    used only under their lock; the result is what is held at the end. *)
Fixpoint disciplined (held : list Z) (tr : list yfs_event) : option (list Z) :=
  match tr with
  | [] => Some held
  | Acquire i :: tr => if bool_decide (i ∈ held) then None else disciplined (i :: held) tr
  | Release i :: tr =>
      match held with
      | j :: held => if bool_decide (i = j) then disciplined held tr else None
      | [] => None
      end
  | Touch i :: tr => if bool_decide (i ∈ held) then disciplined held tr else None
  end.

Lemma disciplined_app h t1 t2 :
  disciplined h (t1 ++ t2) = match disciplined h t1 with Some h' => disciplined h' t2 | None => None end.
Proof.
  revert h. induction t1 as [|[i|i|i] t1 IH]; intros h; cbn; [done|..].
  - by destruct (bool_decide _).
  - destruct h; [done|]. by destruct (bool_decide _).
  - by destruct (bool_decide _).
Qed.

(** From [y] to [y'] the trace grew by a disciplined piece. *)
Definition keeps_locks (h : list Z) (y y' : yfs W) : Prop :=
  ∃ t, y_trace y' = y_trace y ++ t ∧ disciplined h t = Some h.

#[export] Instance keeps_locks_preorder h : PreOrder (keeps_locks h).
Proof.
  split.
  - intros y. exists []. by rewrite app_nil_r.
  - intros y1 y2 y3 (t1 & E1 & D1) (t2 & E2 & D2). exists (t1 ++ t2).
    rewrite E2, E1, (assoc_L (++)). split; [done|]. by rewrite disciplined_app, D1.
Qed.

Lemma touch_keeps h i y y' : i ∈ h → y_trace y' = y_trace y ++ [Touch i] → keeps_locks h y y'.
Proof. intros Hi E. exists [Touch i]. split; [done|]. cbn. by rewrite bool_decide_eq_true_2. Qed.

Lemma with_lock_keeps {A} h i (body : yfs W → res (A * yfs W)) y a y' :
  i ∉ h → (∀ y1 b y2, body y1 = Ret (b, y2) → keeps_locks (i :: h) y1 y2) →
  with_lock i body y = Ret (a, y') → keeps_locks h y y'.
Proof.
  intros Hi Hb (p & E & Ep)%rbind_Ret. destruct p as [b y2]. injection Ep as <- <-.
  destruct (Hb _ _ _ E) as (t & Et & Dt). exists (Acquire i :: t ++ [Release i]). split.
  - simpl. rewrite Et. simpl. by rewrite <- !(assoc_L (++)).
  - cbn. rewrite bool_decide_eq_false_2 by done. rewrite disciplined_app, Dt. cbn. by rewrite bool_decide_eq_true_2.
Qed.

Lemma y_get_keeps h i b y : i ∈ h → keeps_locks h y (y_get net junk now i b y).2.
Proof. intros Hi. unfold y_get. destruct (ec_get _ _ _ _ _ _ _) as [[[? ?] ?] ?]. by apply (touch_keeps h i). Qed.
Lemma y_put_keeps h i d y : i ∈ h → keeps_locks h y (y_put now i d y).2.
Proof. intros Hi. unfold y_put. destruct (ec_put _ _ _ _) as [? ?]. by apply (touch_keeps h i). Qed.
Lemma y_getattr_keeps h i y : i ∈ h → keeps_locks h y (y_getattr net junk i y).2.
Proof. intros Hi. unfold y_getattr. destruct (ec_getattr _ _ _ _ _) as [[[? ?] ?] ?]. by apply (touch_keeps h i). Qed.

(** What a call did is known from a lemma, for a lock that is held. *)
Ltac call_done :=
  first [apply y_get_keeps; set_solver|apply y_put_keeps; set_solver|apply y_getattr_keeps; set_solver|auto].

(** [run_body] follows the equation of a body through its calls, tests and
    early returns, and collects what each call did to the trace. *)
Ltac run_body :=
  repeat match goal with
  | H : Fail _ = Ret _ |- _ => discriminate H
  | H : Ret (_, _) = Ret (_, _) |- _ => injection H; clear H; intros; subst
  | H : rbind _ _ = Ret _ |- _ => apply rbind_Ret in H as (? & ? & ?)
  | H : (let x := _ in _) = Ret _ |- _ => cbv zeta in H
  | H : (if ?b then _ else _) = Ret _ |- _ => destruct b
  | H : context [y_get net junk now ?i ?b ?y] |- ?R _ _ =>
      let K := fresh "K" in
      assert (K : R y (y_get net junk now i b y).2) by call_done;
      destruct (y_get net junk now i b y) as [[? ?] ?]; cbn [snd] in K
  | H : context [y_put now ?i ?d ?y] |- ?R _ _ =>
      let K := fresh "K" in
      assert (K : R y (y_put now i d y).2) by call_done;
      destruct (y_put now i d y) as [? ?]; cbn [snd] in K
  | H : context [y_getattr net junk ?i ?y] |- ?R _ _ =>
      let K := fresh "K" in
      assert (K : R y (y_getattr net junk i y).2) by call_done;
      destruct (y_getattr net junk i y) as [[? ?] ?]; cbn [snd] in K
  | H : match ?x with None => _ | Some _ => _ end = Ret _ |- _ => destruct x eqn:?
  | x : _ * _ |- _ => destruct x
  | x : () |- _ => destruct x
  end; cbn [fst snd] in *.
Ltac chain_keeps := repeat first [eassumption|reflexivity|etransitivity; [eassumption|]].

Lemma remove_keeps h i y a y' : i ∉ h → remove (W:=W) i y = Ret (a, y') → keeps_locks h y y'.
Proof.
  intros Hi. apply with_lock_keeps; [done|]. intros y1 b y2 [= _ <-].
  by apply (touch_keeps _ i); [left|].
Qed.

Lemma createfile_keeps rnd d f name y a y' :
  new_inum rnd f ≠ d → createfile net junk now rnd d f name y = Ret (a, y') → keeps_locks [] y y'.
Proof.
  intros Hne. apply with_lock_keeps; [set_solver|]. intros y1 b y2. cbv zeta.
  apply with_lock_keeps; [set_solver|]. intros y3 b' y4 H. run_body; chain_keeps.
Qed.

(** The loop of [unlink] gives the number of a file. *)
Lemma unlink_words_file files name ost count found :
  match (unlink_words files name ost count found).2 with
  | Some i => found = Some i ∨ isfile i = true
  | None => True
  end.
Proof.
  revert ost count found. induction files as [|file files IH]; intros ost count found; cbn [unlink_words snd].
  - destruct found; auto.
  - destruct (parse_entry file) as [finum fname].
    destruct (negb (bool_decide (c_str fname = c_str name)) || isdir finum) eqn:E; [apply IH|].
    apply orb_false_elim in E as [_ E]. unfold isdir in E. rewrite negb_false_iff in E.
    specialize (IH ost count (Some finum)). destruct (unlink_words _ _ _ _ _).2; [|done].
    destruct IH as [[= <-]|IH]; auto.
Qed.

Lemma unlink_keeps p name y a y' : unlink net junk now p name y = Ret (a, y') → keeps_locks [] y y'.
Proof.
  apply with_lock_keeps; [set_solver|]. intros y1 b y2 H.
  destruct (negb (isdir p)) eqn:Hp; [run_body; chain_keeps|].
  rewrite negb_false_iff in Hp. unfold isdir in Hp. rewrite negb_true_iff in Hp.
  assert (K1 : keeps_locks [p] y1 (y_get net junk now p "" y1).2) by (apply y_get_keeps; set_solver).
  destruct (y_get net junk now p "" y1) as [[ret content] y3]; cbn [snd] in K1.
  destruct (negb (ret =? yfs_status.OK)); [run_body; chain_keeps|].
  pose proof (unlink_words_file (words_of content) name "" 0 None) as Hf.
  destruct (unlink_words _ _ _ _ _) as [ost [i|]]; cbn [snd] in Hf; [|run_body; chain_keeps].
  destruct Hf as [Hf|Hf]; [done|].
  apply rbind_Ret in H as ([r y4] & Hr & H).
  assert (K2 : keeps_locks [p] y3 y4).
  { apply (remove_keeps [p] i y3 r); [|done]. intros ->%list_elem_of_singleton. congruence. }
  run_body; chain_keeps.
Qed.

(** What the kernel passes: offsets and sizes that are not negative, and as
    many bytes to write as it says. *)
Definition op_defined (op : yfs_op) : Prop :=
  match op with
  | OpRead _ _ off => 0 ≤ off
  | OpWrite _ size off buf => 0 ≤ off ∧ 0 ≤ size ≤ string_size buf
  | _ => True
  end.

(** [OpCreate] may pick the number of the directory itself. *)
Definition op_ok (op : yfs_op) : Prop :=
  op_defined op ∧ match op with OpCreate rnd d f _ => new_inum rnd f ≠ d | _ => True end.

Lemma with_lock_total {A} i (body : yfs W → res (A * yfs W)) y :
  (∀ y1, abort_free (body y1)) → abort_free (with_lock i body y).
Proof. intros H. unfold with_lock. destruct (H (log y (Acquire i))) as [[a y2] ->]. by eexists. Qed.

Lemma u32_below x n : 0 ≤ x ≤ n → 0 ≤ u32 x ≤ n.
Proof. intros H. unfold u32. pose proof (Z.mod_le x (2 ^ 32)). pose proof (Z.mod_pos_bound x (2 ^ 32)). lia. Qed.

Lemma string_size_nonneg s : 0 ≤ string_size s.
Proof. rewrite string_size_chars. lia. Qed.

Lemma read_total i size off buf y : 0 ≤ off → abort_free (read net junk now i size off buf y).
Proof.
  intros Hoff. apply with_lock_total. intros y1. destruct (y_get _ _ _ _ _ _) as [[ret b] y2].
  destruct (negb _); [by eexists|]. cbv zeta. pose proof (string_size_nonneg b).
  rewrite substr_ok; [by eexists|]. apply u32_below. destruct (Z.ltb_spec (string_size b) off); lia.
Qed.

Lemma write_total i size off buf y : 0 ≤ off → 0 ≤ size ≤ string_size buf → abort_free (write net junk now i size off buf y).
Proof.
  intros Hoff Hsize. apply with_lock_total. intros y1. destruct (y_get _ _ _ _ _ _) as [[ret b] y2].
  destruct (negb _); [by eexists|]. pose proof (string_size_nonneg b).
  assert (abort_free (if off + size <? string_size b then substr b (u32 (off + size)) npos else Ret "")) as [e ->].
  { destruct (Z.ltb_spec (off + size) (string_size b)); [|by eexists].
    rewrite substr_ok; [by eexists|]. apply u32_below. lia. }
  assert (abort_free (if off <=? string_size b then substr b 0 (u32 off)
    else Ret (b +:+ of_chars (replicate (Z.to_nat (off - string_size b)) "000"%char)))) as [c E].
  { destruct (off <=? string_size b); [|by eexists]. rewrite substr_ok by lia. by eexists. }
  cbn [rbind]. cbv zeta. rewrite E. cbn [rbind]. replace (string_size buf <? size) with false by lia.
  rewrite substr_ok by lia. cbn [rbind]. destruct (y_put _ _ _ _). by eexists.
Qed.

Lemma run_op_total op y : op_defined op → abort_free (run_op op y).
Proof.
  intros Hop. assert (Hm : ∀ A (x : res (A * yfs W)), abort_free x → abort_free (rmap snd x)).
  { intros A x [[a y0] ->]. by eexists. }
  destruct op; cbn [run_op]; apply Hm.
  - apply with_lock_total. intros y1. destruct (y_getattr _ _ _ _) as [[? ?] ?]. destruct (negb _); by eexists.
  - apply with_lock_total. intros y1. destruct (y_getattr _ _ _ _) as [[? ?] ?]. destruct (negb _); by eexists.
  - apply with_lock_total. intros y1. apply with_lock_total. intros y2.
    destruct (y_get _ _ _ _ _ _) as [[? ?] ?]. destruct (negb _); [by eexists|]. destruct (negb _); [by eexists|].
    destruct (y_put _ _ _ _). destruct (negb _); [by eexists|]. destruct (y_put _ _ _ _). destruct (negb _); by eexists.
  - apply with_lock_total. intros y1. destruct (y_get _ _ _ _ _ _) as [[? ?] ?]. destruct (negb _); by eexists.
  - apply with_lock_total. by eexists.
  - apply with_lock_total. intros y1. by eexists.
  - apply with_lock_total. intros y1. destruct (y_get _ _ _ _ _ _) as [[? b] ?]. destruct (negb _); [by eexists|].
    pose proof (string_size_nonneg b).
    destruct (size <? string_size b); [rewrite substr_ok by lia|]; cbn [rbind]; destruct (y_put _ _ _ _); by eexists.
  - by apply read_total.
  - by apply write_total; destruct Hop.
  - apply with_lock_total. intros y1. destruct (negb _); [by eexists|].
    destruct (y_get _ _ _ _ _ _) as [[? b] ?]. destruct (negb _); [by eexists|].
    destruct (unlink_words _ _ _ _ _) as [ost [i|]]; [|by eexists].
    assert (abort_free (remove i y0)) as [[r y3] ->] by (apply with_lock_total; by eexists). cbn [rbind].
    destruct (negb _); [by eexists|]. destruct (y_put _ _ _ _); by eexists.
Qed.

Lemma run_ops_total ops y : Forall op_defined ops → abort_free (run_ops ops y).
Proof.
  intros H. revert y. induction H as [|op ops Hop _ IH]; intros y; cbn [run_ops]; [by eexists|].
  destruct (run_op_total op y Hop) as [y1 ->]. apply IH.
Qed.

Lemma run_op_keeps op y y' : op_ok op → run_op op y = Ret y' → keeps_locks [] y y'.
Proof.
  intros [_ Hok]. assert (Hm : ∀ A (x : res (A * yfs W)), rmap snd x = Ret y' → ∃ a, x = Ret (a, y')).
  { intros A [[a y0]|e]; cbn; [|done]. intros [= ->]. by exists a. }
  destruct op; cbn [run_op]; intros (a & H)%Hm.
  - revert H. apply with_lock_keeps; [set_solver|]. intros y1 b y2 H. run_body; chain_keeps.
  - revert H. apply with_lock_keeps; [set_solver|]. intros y1 b y2 H. run_body; chain_keeps.
  - destruct a. by eapply createfile_keeps.
  - revert H. apply with_lock_keeps; [set_solver|]. intros y1 b y2 H. run_body; chain_keeps.
  - revert H. apply with_lock_keeps; [set_solver|]. intros y1 b y2 H. run_body; chain_keeps.
  - apply (remove_keeps [] inum y a); [set_solver|done].
  - revert H. apply with_lock_keeps; [set_solver|]. intros y1 b y2 H. run_body; chain_keeps.
  - revert H. apply with_lock_keeps; [set_solver|]. intros y1 b y2 H. run_body; chain_keeps.
  - revert H. apply with_lock_keeps; [set_solver|]. intros y1 b y2 H. run_body; chain_keeps.
  - by eapply unlink_keeps.
Qed.

(** A preorder that every call and every lock operation respects is
    respected by every operation of the file system. *)
Section preserved.
Context (R : yfs W → yfs W → Prop) `{!PreOrder R}.
Hypothesis R_log : ∀ y e, R y (log y e).
Hypothesis R_get : ∀ i b y, R y (y_get net junk now i b y).2.
Hypothesis R_put : ∀ i d y, R y (y_put now i d y).2.
Hypothesis R_getattr : ∀ i y, R y (y_getattr net junk i y).2.
Hypothesis R_remove : ∀ i y, R y (Yfs (ec_erase i (y_ec y)) (y_world y) (y_trace y)).

Lemma with_lock_preserves {A} i (body : yfs W → res (A * yfs W)) y a y' :
  (∀ y1 b y2, body y1 = Ret (b, y2) → R y1 y2) → with_lock i body y = Ret (a, y') → R y y'.
Proof.
  intros Hb (p & E & Ep)%rbind_Ret. destruct p as [b y2]. injection Ep as <- <-.
  transitivity (log y (Acquire i)); [done|]. transitivity y2; [by eapply Hb|done].
Qed.

Lemma remove_preserves i y a y' : remove (W:=W) i y = Ret (a, y') → R y y'.
Proof.
  apply with_lock_preserves. intros y1 b y2 [= _ <-].
  etransitivity; [apply (R_remove i)|apply R_log].
Qed.

Lemma run_op_preserves op y y' : run_op op y = Ret y' → R y y'.
Proof.
  assert (Hm : ∀ A (x : res (A * yfs W)), rmap snd x = Ret y' → ∃ a, x = Ret (a, y')).
  { intros A [[a y0]|e]; cbn; [|done]. intros [= ->]. by exists a. }
  destruct op; cbn [run_op]; intros (a & H)%Hm.
  - revert H. apply with_lock_preserves. intros y1 b y2 H. run_body; chain_keeps.
  - revert H. apply with_lock_preserves. intros y1 b y2 H. run_body; chain_keeps.
  - revert H. apply with_lock_preserves. intros y1 b y2. cbv zeta.
    apply with_lock_preserves. intros y3 b' y4 H. run_body; chain_keeps.
  - revert H. apply with_lock_preserves. intros y1 b y2 H. run_body; chain_keeps.
  - revert H. apply with_lock_preserves. intros y1 b y2 H. run_body; chain_keeps.
  - by eapply remove_preserves.
  - revert H. apply with_lock_preserves. intros y1 b y2 H. run_body; chain_keeps.
  - revert H. apply with_lock_preserves. intros y1 b y2 H. run_body; chain_keeps.
  - revert H. apply with_lock_preserves. intros y1 b y2 H. run_body; chain_keeps.
  - revert H. apply with_lock_preserves. intros y1 b y2 H.
    destruct (negb (isdir parent)); [run_body; chain_keeps|].
    pose proof (R_get parent "" y1) as K1.
    destruct (y_get net junk now parent "" y1) as [[ret content] y3]; cbn [snd] in K1.
    destruct (negb (ret =? yfs_status.OK)); [run_body; chain_keeps|].
    destruct (unlink_words _ _ _ _ _) as [ost [i|]]; [|run_body; chain_keeps].
    apply rbind_Ret in H as ([r y4] & Hr%remove_preserves & H). run_body; chain_keeps.
Qed.
End preserved.
End every_operation.

Lemma run_ops_keeps {W} (net : extent_net W) junk now ops y y' :
  Forall op_ok ops → run_ops net junk now ops y = Ret y' → keeps_locks [] y y'.
Proof.
  intros Hok. revert y. induction Hok as [|op ops Ho Hok IH]; intros y; cbn [run_ops]; [by intros [= <-]|].
  intros (y1 & H1 & H2)%rbind_Ret. transitivity y1; [by eapply run_op_keeps|by apply IH].
Qed.

(** C33: the file system keeps the lock discipline that the extent client asks
    of its callers.  Whatever the calls to the extent server return, any sequence of operations
    with well-formed arguments runs to its end; every extent is read, written
    or removed only while its lock is held, no operation takes a lock it
    already holds, and each gives back all its locks in reverse order on
    every path; a new file must not be given the number of its own
    directory. *)
Theorem lock_discipline {W} (net : extent_net W) junk now ops y :
  Forall op_ok ops →
  ∃ y' t, run_ops net junk now ops y = Ret y' ∧
    y_trace y' = y_trace y ++ t ∧ disciplined [] t = Some [].
Proof.
  intros Hok. destruct (run_ops_total net junk now ops y) as [y' E].
  { eapply Forall_impl; [exact Hok|]. by intros op [? _]. }
  destruct (run_ops_keeps _ _ _ _ _ _ Hok E) as (t & ? & ?). by exists y', t.
Qed.

Definition demo_ops : list yfs_op := [OpCreate 1234 1 true "notes"; OpWrite 2147484882 5 0 "hello"; OpUnlink 1 "notes"].

Lemma demo_ops_ok : Forall op_ok demo_ops.
Proof.
  apply Forall_cons; split; [split; [done|vm_compute; done]|].
  apply Forall_cons; split; [|by repeat constructor].
  split; [|done]. vm_compute. split_and!; discriminate.
Qed.

Lemma lock_discipline_witness :
  ∃ y' t, run_ops (server_net 5 100) (Attr 9 9 9 9) 100 demo_ops demo_yfs = Ret y' ∧
    y_trace y' = y_trace demo_yfs ++ t ∧ disciplined [] t = Some [].
Proof. apply (lock_discipline (server_net 5 100) (Attr 9 9 9 9) 100 demo_ops demo_yfs demo_ops_ok). Defined.

(** ** What reaches the server *)

Lemma ec_getattr_server jnk now i a c s : (ec_getattr (server_net jnk now) i a c s).2 = s.
Proof.
  unfold ec_getattr. destruct (ec_attributes c !! i); [done|]. cbn [xn_getattr server_net]. unfold es_getattr.
  by destruct (es_attributes s !! i).
Qed.

Definition server_unchanged (y y' : yfs extent_server) : Prop :=
  es_contents (y_world y') = es_contents (y_world y).

#[export] Instance server_unchanged_preorder : PreOrder server_unchanged.
Proof. split; [by intros y|]. intros y1 y2 y3 H1 H2. unfold server_unchanged in *. congruence. Qed.

Lemma run_ops_server junk jnk now ops y y' :
  run_ops (server_net jnk now) junk now ops y = Ret y' → server_unchanged y y'.
Proof.
  revert y. induction ops as [|op ops IH]; intros y; cbn [run_ops]; [by intros [= <-]|].
  intros (y1 & H1 & H2)%rbind_Ret. transitivity y1; [|by apply IH]. revert H1. apply run_op_preserves.
  - apply _.
  - done.
  - intros i b z. unfold server_unchanged, y_get.
    pose proof (ec_get_server junk jnk now i b (y_ec z) (y_world z)) as E.
    by destruct (ec_get _ _ _ _ _ _ _) as [[[? ?] ?] ?].
  - intros i d z. unfold server_unchanged, y_put. by destruct (ec_put _ _ _ _).
  - intros i z. unfold server_unchanged, y_getattr.
    pose proof (ec_getattr_server jnk now i junk (y_ec z) (y_world z)) as E.
    destruct (ec_getattr _ _ _ _ _) as [[[? ?] ?] s]. cbn [snd] in E. by subst s.
  - done.
Qed.

(** Nothing that is written leaves the client.  The file system never
    flushes the extent client (the call is commented out both where locks are
    given back and in [YFSLock]), so any sequence of operations, creates,
    writes and unlinks included, runs to its end with the contents of every
    extent at the server as they were: no other client can see the changes. *)
Theorem writes_never_reach_server junk jnk now ops y :
  Forall op_defined ops →
  ∃ y', run_ops (server_net jnk now) junk now ops y = Ret y' ∧
    es_contents (y_world y') = es_contents (y_world y).
Proof.
  intros Hok. destruct (run_ops_total (server_net jnk now) junk now ops y Hok) as [y' E].
  exists y'. split; [done|]. by apply (run_ops_server junk jnk now ops).
Qed.

Lemma writes_never_reach_server_witness :
  ∃ y', run_ops (server_net 5 100) (Attr 9 9 9 9) 100 demo_ops demo_yfs = Ret y' ∧
    es_contents (y_world y') = es_contents (y_world demo_yfs).
Proof.
  apply (writes_never_reach_server (Attr 9 9 9 9) 5 100 demo_ops demo_yfs).
  eapply Forall_impl; [exact demo_ops_ok|]. intros op [H _]. exact H.
Defined.
