(* ===== verification/YfsSpec.v ===== *)
(** * The file system a client of yfs sees (yfs_client.cc)

    An abstract file system maps numbers to files, which are bytes, and to
    directories, which are maps from names to numbers.  The operations of
    [yfs_client] on one client are shown to be its operations: directories as
    lines of text in extents, the cache in front of the server and the locks
    are details of the implementation. *)

From stdpp Require Import strings.
From S2P Require Import Prelude Marshall Protocols Streams Extent Yfs.

(** ** The abstract file system *)

Inductive node :=
| File (bytes : list ascii)
| Dir (names : gmap string Z).

Abbreviation afs := (gmap Z node).

(** What the caller of an operation learns. *)
Inductive yfs_result :=
| RStatus (st : Z)
| RInum (st inum : Z)
| RSize (n : Z)
| RBytes (l : list ascii)
| RListing (names : gmap string Z).

(** A file is cut, or extended with null bytes, to the size. *)
Definition resize (bytes : list ascii) (size : Z) : list ascii :=
  take (Z.to_nat size) bytes ++ replicate (Z.to_nat size - length bytes) "000"%char.

Definition afs_step (op : yfs_op) (fs : afs) : yfs_result * afs :=
  match op with
  | OpGetFile i =>
      (match fs !! i with Some (File b) => RSize (Z.of_nat (length b)) | _ => RStatus yfs_status.IOERR end, fs)
  | OpGetDir i =>
      (RStatus match fs !! i with Some _ => yfs_status.OK | None => yfs_status.IOERR end, fs)
  | OpCreate rnd d f name =>
      let inum := new_inum rnd f in
      match fs !! d with
      | Some (Dir m) =>
          match m !! name with
          | Some _ => (RInum yfs_status.EXIST inum, fs)
          | None => (RInum yfs_status.OK inum,
                     <[inum := if f then File [] else Dir ∅]> (<[d := Dir (<[name := inum]> m)]> fs))
          end
      | _ => (RInum yfs_status.NOENT inum, fs)
      end
  | OpLookup d name =>
      (match fs !! d with
       | Some (Dir m) => match m !! name with Some i => RInum yfs_status.EXIST i | None => RInum yfs_status.OK 0 end
       | _ => RInum yfs_status.NOENT 0
       end, fs)
  | OpGetContent i =>
      (match fs !! i with
       | Some (File b) => RBytes b | Some (Dir m) => RListing m | None => RStatus yfs_status.NOENT end, fs)
  | OpRemove i => (RStatus yfs_status.OK, delete i fs)
  | OpSetSize i size =>
      match fs !! i with
      | Some (File b) => (RStatus yfs_status.OK, <[i := File (resize b size)]> fs)
      | _ => (RStatus yfs_status.NOENT, fs)
      end
  | OpRead i size off =>
      (match fs !! i with
       | Some (File b) => RBytes (take (Z.to_nat size) (drop (Z.to_nat off) b))
       | _ => RStatus yfs_status.NOENT end, fs)
  | OpWrite i size off buf =>
      match fs !! i with
      | Some (File b) =>
          (RStatus yfs_status.OK, <[i := File (write_at b (Z.to_nat off) (take (Z.to_nat size) (chars buf)))]> fs)
      | _ => (RStatus yfs_status.NOENT, fs)
      end
  | OpUnlink p name =>
      match fs !! p with
      | Some (Dir m) =>
          match m !! name with
          | Some i => if isfile i then (RStatus yfs_status.OK, <[p := Dir (delete name m)]> (delete i fs))
                      else (RStatus yfs_status.NOENT, fs)
          | None => (RStatus yfs_status.NOENT, fs)
          end
      | _ => (RStatus yfs_status.NOENT, fs)
      end
  end.

(** What the kernel and the callbacks ask for: the operations of files on
    numbers of files and those of directories on directories, names that are
    words, offsets and sizes of 31 bits, and [random()] picks an unused
    number.  A file is never made longer by [setsize], which the code does
    wrong ([setsize_pads_half]). *)
Definition legal (op : yfs_op) (fs : afs) : Prop :=
  match op with
  | OpGetFile i | OpRemove i => isfile i = true
  | OpGetDir _ | OpGetContent _ => True
  | OpCreate rnd d f name => 0 ≤ rnd < 2 ^ 31 ∧ isdir d = true ∧ valid_name name ∧ fs !! new_inum rnd f = None
  | OpLookup d name => isdir d = true ∧ valid_name name
  | OpSetSize i size =>
      isfile i = true ∧ 0 ≤ size < 2 ^ 31 ∧
      match fs !! i with Some (File b) => size ≤ Z.of_nat (length b) | _ => True end
  | OpRead i _ off => isfile i = true ∧ 0 ≤ off < 2 ^ 31
  | OpWrite i size off buf => isfile i = true ∧ 0 ≤ size ≤ string_size buf ∧ 0 ≤ off ∧ off + size < 2 ^ 31
  | OpUnlink _ name => valid_name name
  end.

(** ** Running the implementation *)

(** The entries of a directory's text by name. *)
Definition dir_map (es : list entry) : gmap string Z := list_to_map (prod_swap <$> es).

Section observed.
Context {W : Type} (net : extent_net W) (junk : attr) (now : Z).

(** An operation with what it returns to its caller; the text of a directory
    is read the way [fuseserver_readdir] reads it. *)
Definition observe (op : yfs_op) (y : yfs W) : res (yfs_result * yfs W) :=
  match op with
  | OpGetFile i =>
      '(st, fin, y) ← getfile net junk i (FileInfo 0 0 0 0) y;
      Ret (if st =? yfs_status.OK then RSize (fi_size fin) else RStatus st, y)
  | OpGetDir i => '(st, _, y) ← getdir net junk i (DirInfo 0 0 0) y; Ret (RStatus st, y)
  | OpCreate rnd d f name => '(st, i, y) ← createfile net junk now rnd d f name y; Ret (RInum st i, y)
  | OpLookup d name => '(st, i, y) ← lookupfile net junk now d name 0 y; Ret (RInum st i, y)
  | OpGetContent i =>
      '(st, buf, y) ← getcontent net junk now i "" y;
      Ret (if st =? yfs_status.OK then
             if isdir i then RListing (dir_map (parse_entry <$> words_of buf)) else RBytes (chars buf)
           else RStatus st, y)
  | OpRemove i => '(st, y) ← remove i y; Ret (RStatus st, y)
  | OpSetSize i size => '(st, y) ← setsize net junk now i size y; Ret (RStatus st, y)
  | OpRead i size off =>
      '(st, buf, y) ← read net junk now i size off "" y;
      Ret (if st =? yfs_status.OK then RBytes (chars buf) else RStatus st, y)
  | OpWrite i size off buf => '(st, y) ← write net junk now i size off buf y; Ret (RStatus st, y)
  | OpUnlink p name => '(st, y) ← unlink net junk now p name y; Ret (RStatus st, y)
  end.

Fixpoint observe_all (ops : list yfs_op) (y : yfs W) : res (list yfs_result * yfs W) :=
  match ops with
  | [] => Ret ([], y)
  | op :: ops =>
      '(r, y) ← observe op y;
      '(rs, y) ← observe_all ops y;
      Ret (r :: rs, y)
  end.

(** Observing changes nothing. *)
Lemma observe_run_op op y : rmap snd (observe op y) = run_op net junk now op y.
Proof.
  destruct op; cbn [observe run_op];
    match goal with |- rmap _ (rbind ?c _) = _ => destruct c as [x|e] end;
    by repeat match goal with x : _ * _ |- _ => destruct x end.
Qed.
End observed.

Fixpoint afs_run (ops : list yfs_op) (fs : afs) : list yfs_result * afs :=
  match ops with
  | [] => ([], fs)
  | op :: ops =>
      let '(r, fs) := afs_step op fs in
      let '(rs, fs) := afs_run ops fs in
      (r :: rs, fs)
  end.

Fixpoint all_legal (ops : list yfs_op) (fs : afs) : Prop :=
  match ops with
  | [] => True
  | op :: ops => legal op fs ∧ all_legal ops (afs_step op fs).2
  end.

(** ** Directories as lists of entries and as maps *)

Lemma dir_map_lookup es name : dir_map es !! name = find_entry name es.
Proof.
  induction es as [|[i n] es IH]; [done|]. change (dir_map ((i, n) :: es)) with (<[n := i]> (dir_map es)).
  cbn [find_entry fst snd]. destruct (decide (n = name)) as [->|Hne].
  - by rewrite bool_decide_eq_true_2, lookup_insert_eq.
  - by rewrite bool_decide_eq_false_2, lookup_insert_ne.
Qed.

Lemma dir_map_snoc es i name :
  find_entry name es = None → dir_map (es ++ [(i, name)]) = <[name := i]> (dir_map es).
Proof.
  intros Hf. apply map_eq. intros n. rewrite dir_map_lookup, find_entry_app. cbn [find_entry fst snd].
  destruct (decide (name = n)) as [<-|Hne].
  - by rewrite Hf, bool_decide_eq_true_2, lookup_insert_eq.
  - rewrite bool_decide_eq_false_2, lookup_insert_ne, dir_map_lookup by done. by destruct (find_entry n es).
Qed.

Lemma find_entry_None name es : find_entry name es = None ↔ name ∉ es.*2.
Proof.
  induction es as [|e es IH]; cbn [find_entry fmap list_fmap]; [split; [by intros _ ?%elem_of_nil|done]|].
  rewrite not_elem_of_cons. case_bool_decide; [naive_solver|]. rewrite IH. naive_solver.
Qed.

Lemma find_entry_elem name es i : NoDup es.*2 → find_entry name es = Some i ↔ (i, name) ∈ es.
Proof.
  induction es as [|[j n] es IH]; cbn [find_entry fmap list_fmap fst snd];
    [intros _; split; [done|by intros ?%not_elem_of_nil]|].
  intros [Hn Hnd]%NoDup_cons. rewrite elem_of_cons. destruct (decide (n = name)) as [->|Hne].
  - rewrite bool_decide_eq_true_2 by done. split; [intros [= ->]; by left|]. intros [[= ->]|Hin]; [done|].
    destruct Hn. apply list_elem_of_fmap. by exists (i, name).
  - rewrite bool_decide_eq_false_2, IH by done. split; [by right|]. intros [[= -> ->]|?]; done.
Qed.

(** Where names are unique, the file [unlink] removes is the entry of that
    name, and only this entry goes. *)
Lemma last_file_unique name es found :
  NoDup es.*2 →
  last_file name es found =
    match find_entry name es with Some i => if isfile i then Some i else found | None => found end.
Proof.
  revert found. induction es as [|[i n] es IH]; intros found Hnd; [done|].
  cbn [last_file find_entry fmap list_fmap fst snd] in *. apply NoDup_cons in Hnd as [Hn Hnd]. rewrite IH by done.
  unfold kept, isdir. cbn [fst snd]. destruct (decide (n = name)) as [->|Hne].
  - apply find_entry_None in Hn. rewrite Hn, bool_decide_eq_true_2 by done. cbn [negb orb].
    by destruct (isfile i).
  - by rewrite bool_decide_eq_false_2 by done.
Qed.

Lemma filter_kept_unique name es i :
  NoDup es.*2 → find_entry name es = Some i → isfile i = true →
  let es' := filter (λ e, kept name e = true) es in
  NoDup es'.*2 ∧ dir_map es' = delete name (dir_map es).
Proof.
  intros Hnd Hf Hi es'.
  assert (Hnd' : NoDup es'.*2) by (eapply sublist_NoDup; [exact Hnd|apply fmap_sublist, sublist_filter]).
  split; [done|]. apply map_eq. intros n. apply option_eq. intros j.
  rewrite dir_map_lookup, find_entry_elem, lookup_delete_Some, dir_map_lookup, find_entry_elem by done.
  unfold es'. rewrite list_elem_of_filter. unfold kept, isdir. cbn [fst snd].
  destruct (decide (n = name)) as [->|Hne].
  - split; [|by intros [? ?]]. intros [Hk Hin]. apply find_entry_elem in Hin; [|done]. assert (j = i) as -> by congruence.
    by rewrite bool_decide_eq_true_2, Hi in Hk.
  - rewrite bool_decide_eq_false_2 by done. split; [intros [_ ?]; split; congruence|by intros [_ ?]].
Qed.

(** ** The refinement *)

(** The extent of a file holds its bytes; the extent of a directory the words
    of its entries, no two of the same name. *)
Definition node_rep (i : Z) (n : option node) (c : option string) : Prop :=
  match n with
  | None => c = None
  | Some (File b) => isfile i = true ∧ c = Some (of_chars b) ∧ Z.of_nat (length b) < 2 ^ 31
  | Some (Dir m) => isdir i = true ∧ ∃ t es, c = Some t ∧ dir_text t es ∧ NoDup es.*2 ∧ m = dir_map es
  end.

Record sim (fs : afs) (y : yfs extent_server) : Prop := Sim {
  sim_inv : y_inv y;
  sim_nodes : ∀ i, node_rep i (fs !! i) (view_of y !! i);
  (** the server has no files: nothing is ever flushed to it *)
  sim_server : ∀ i, isfile i = true → es_contents (y_world y) !! i = None }.

Section refinement.
Context (junk : attr) (jnk now : Z).
Local Abbreviation net := (server_net jnk now).
Implicit Types (fs : afs) (y : yfs extent_server).

Lemma rep_file fs y i : sim fs y → isfile i = true →
  match fs !! i with
  | Some (File b) => view_of y !! i = Some (of_chars b) ∧ Z.of_nat (length b) < 2 ^ 31
  | Some (Dir _) => False
  | None => view_of y !! i = None
  end.
Proof.
  intros Hs Hi. pose proof (sim_nodes _ _ Hs i) as Hr. unfold node_rep in Hr.
  destruct (fs !! i) as [[b|m]|]; [naive_solver| |done]. destruct Hr as [Hd _]. unfold isdir in Hd. by rewrite Hi in Hd.
Qed.

Lemma rep_dir fs y i : sim fs y → isdir i = true →
  match fs !! i with
  | Some (Dir m) => ∃ t es, view_of y !! i = Some t ∧ dir_text t es ∧ NoDup es.*2 ∧ m = dir_map es
  | Some (File _) => False
  | None => view_of y !! i = None
  end.
Proof.
  intros Hs Hi. pose proof (sim_nodes _ _ Hs i) as Hr. unfold node_rep in Hr.
  destruct (fs !! i) as [[b|m]|]; [| |done]; [|naive_solver]. destruct Hr as [Hf _]. unfold isdir in Hi. by rewrite Hf in Hi.
Qed.

(** An operation that leaves what the client sees. *)
Lemma sim_same fs y y' : sim fs y → server_unchanged y y' → y_inv y' → view_of y' = view_of y → sim fs y'.
Proof.
  intros [Hi Hn Hw] Hu Hi' Hv. split; [done| |]; [by rewrite Hv|]. intros i Hf. rewrite Hu. auto.
Qed.

Lemma sim_insert fs y y' i n c :
  sim fs y → server_unchanged y y' → y_inv y' → view_of y' = <[i := c]> (view_of y) →
  node_rep i (Some n) (Some c) → sim (<[i := n]> fs) y'.
Proof.
  intros [Hi Hn Hw] Hu Hi' Hv Hr. split; [done| |intros j Hf; rewrite Hu; auto].
  intros j. rewrite Hv. destruct (decide (i = j)) as [<-|Hne]; [by rewrite !lookup_insert_eq|].
  rewrite !lookup_insert_ne by done. apply Hn.
Qed.

Lemma string_size_of_chars l : string_size (of_chars l) = Z.of_nat (length l).
Proof. by rewrite string_size_chars, chars_of_chars. Qed.

(** Each operation by itself; that the server keeps its contents is
    [run_ops_server]. *)
Definition simulates op fs y : Prop :=
  ∃ y', observe net junk now op y = Ret ((afs_step op fs).1, y') ∧
    (server_unchanged y y' → sim (afs_step op fs).2 y').

Lemma simulates_step op fs y :
  simulates op fs y → ∃ y', observe net junk now op y = Ret ((afs_step op fs).1, y') ∧ sim (afs_step op fs).2 y'.
Proof.
  intros (y' & E & Hs). exists y'. split; [done|]. apply Hs.
  apply (run_ops_server junk jnk now [op]). cbn [run_ops]. rewrite <- observe_run_op. by rewrite E.
Qed.

(** The client sees what it saw. *)
Ltac same Hs :=
  eexists; split; [done|]; let Hu := fresh in intros Hu; apply (sim_same _ _ _ Hs Hu);
  [first [exact (sim_inv _ _ Hs)|assumption]|done].
Ltac missing Hs H := destruct H as (? & ->); cbn; same Hs.

Lemma getfile_sim i fs y : sim fs y → legal (OpGetFile i) fs → simulates (OpGetFile i) fs y.
Proof.
  intros Hs Hl. pose proof (rep_file fs y i Hs Hl) as Hr. unfold simulates. cbn [observe afs_step fst snd].
  unfold getfile, with_lock. destruct (fs !! i) as [[b|m]|]; [|done|].
  - destruct Hr as [Hv Hb].
    destruct (y_getattr_hit junk jnk now i (log y (Acquire i)) _ (sim_inv _ _ Hs) Hv) as (a & y1 & -> & Ha & Hi1 & Hv1).
    cbn. rewrite Ha. unfold length_u32. rewrite string_size_of_chars, u32_id by (wrap_unfold; lia). same Hs.
  - missing Hs (y_getattr_miss junk jnk now i (log y (Acquire i)) (sim_inv _ _ Hs) Hr).
Qed.

(** What the client sees of a number is there when the node is. *)
Lemma rep_seen fs y i : sim fs y → is_Some (fs !! i) ↔ is_Some (view_of y !! i).
Proof.
  intros Hs. pose proof (sim_nodes _ _ Hs i) as Hr. unfold node_rep in Hr.
  destruct (fs !! i) as [[b|m]|]; [destruct Hr as (_ & -> & _)|destruct Hr as (_ & t & es & -> & _)|rewrite Hr]; done.
Qed.

Lemma getdir_sim i fs y : sim fs y → legal (OpGetDir i) fs → simulates (OpGetDir i) fs y.
Proof.
  intros Hs _. pose proof (rep_seen fs y i Hs) as Hr. unfold simulates. cbn [observe afs_step fst snd].
  unfold getdir, with_lock. destruct (view_of y !! i) as [d|] eqn:Hv.
  - destruct (y_getattr_hit junk jnk now i (log y (Acquire i)) _ (sim_inv _ _ Hs) Hv) as (a & y1 & -> & Ha & Hi1 & Hv1).
    destruct (fs !! i); [|by destruct (proj2 Hr)]. cbn. same Hs.
  - destruct (fs !! i); [by destruct (proj1 Hr)|].
    missing Hs (y_getattr_miss junk jnk now i (log y (Acquire i)) (sim_inv _ _ Hs) Hv).
Qed.

Lemma getcontent_sim i fs y : sim fs y → legal (OpGetContent i) fs → simulates (OpGetContent i) fs y.
Proof.
  intros Hs _. pose proof (sim_nodes _ _ Hs i) as Hr. unfold simulates. cbn [observe afs_step fst snd].
  unfold getcontent, with_lock, node_rep in *. destruct (fs !! i) as [[b|m]|].
  - destruct Hr as (Hf & Hv & _).
    destruct (y_get_hit junk jnk now i "" (log y (Acquire i)) _ (sim_inv _ _ Hs) Hv) as (y1 & -> & Hi1 & Hv1 & _).
    cbn. unfold isdir. rewrite Hf, chars_of_chars. same Hs.
  - destruct Hr as (Hd & t & es & Hv & [Hes Ht] & _ & ->).
    destruct (y_get_hit junk jnk now i "" (log y (Acquire i)) _ (sim_inv _ _ Hs) Hv) as (y1 & -> & Hi1 & Hv1 & _).
    cbn [rbind]. change (yfs_status.OK =? yfs_status.OK) with true. cbv iota.
    rewrite Hd, Ht, <- list_fmap_compose, (list_fmap_ext _ id), list_fmap_id; [same Hs|].
    intros k e He. apply parse_entry_word. by eapply Forall_lookup_1.
  - missing Hs (y_get_miss junk jnk now i "" (log y (Acquire i)) (sim_inv _ _ Hs) Hr).
Qed.

Lemma lookup_sim d name fs y : sim fs y → legal (OpLookup d name) fs → simulates (OpLookup d name) fs y.
Proof.
  intros Hs [Hd Hn]. pose proof (rep_dir fs y d Hs Hd) as Hr. unfold simulates. cbn [observe afs_step fst snd].
  destruct (fs !! d) as [[b|m]|]; [done| |].
  - destruct Hr as (t & es & Hv & Ht & _ & ->).
    destruct (lookupfile_ok junk jnk now d name 0 y t es (sim_inv _ _ Hs) Hv Ht Hn) as (y1 & -> & Hi1 & Hv1).
    rewrite dir_map_lookup. destruct (find_entry name es); cbn; same Hs.
  - unfold lookupfile, with_lock. missing Hs (y_get_miss junk jnk now d "" (log y (Acquire d)) (sim_inv _ _ Hs) Hr).
Qed.

Lemma read_sim i size off fs y : sim fs y → legal (OpRead i size off) fs → simulates (OpRead i size off) fs y.
Proof.
  intros Hs [Hf Ho]. pose proof (rep_file fs y i Hs Hf) as Hr. unfold simulates. cbn [observe afs_step fst snd].
  destruct (fs !! i) as [[b|m]|]; [|done|].
  - destruct Hr as [Hv Hb].
    destruct (read_ok junk jnk now i size off "" y _ (sim_inv _ _ Hs) Hv) as (y1 & -> & Hi1 & Hv1);
      [rewrite string_size_of_chars; lia|done|]. cbn. rewrite !chars_of_chars. same Hs.
  - unfold read, with_lock. missing Hs (y_get_miss junk jnk now i "" (log y (Acquire i)) (sim_inv _ _ Hs) Hr).
Qed.

(** Only the first [size] bytes behind the pointer matter. *)
Lemma write_prefix i size off buf y :
  0 ≤ size ≤ string_size buf →
  let data := of_chars (take (Z.to_nat size) (chars buf)) in
  write net junk now i size off buf y = write net junk now i size off data y ∧ string_size data = size.
Proof.
  intros Hz data. assert (El : string_size data = size).
  { unfold data. rewrite string_size_of_chars, length_take. rewrite string_size_chars in Hz. lia. }
  split; [|done]. unfold write. assert (Hd : ∀ b, size ≤ string_size b → substr b 0 size = Ret (of_chars (take (Z.to_nat size) (chars b)))).
  { intros b Hb. rewrite substr_ok by lia. by rewrite drop_0. }
  rewrite El, Z.ltb_irrefl. replace (string_size buf <? size) with false by lia.
  rewrite (Hd data), (Hd buf) by lia. unfold data. rewrite chars_of_chars, take_take. by replace (Z.to_nat size `min` Z.to_nat size)%nat with (Z.to_nat size) by lia.
Qed.

Lemma write_sim i size off buf fs y :
  sim fs y → legal (OpWrite i size off buf) fs → simulates (OpWrite i size off buf) fs y.
Proof.
  intros Hs (Hf & Hz & Ho & Hb). pose proof (rep_file fs y i Hs Hf) as Hr. unfold simulates. cbn [observe afs_step].
  destruct (fs !! i) as [[b|m]|]; [|done|]; cbn [fst snd].
  - destruct Hr as [Hv Hl].
    destruct (write_prefix i size off buf y Hz) as [-> El].
    destruct (write_ok junk jnk now i off (of_chars (take (Z.to_nat size) (chars buf))) y _ (sim_inv _ _ Hs) Hv)
      as (y1 & E & Hi1 & Hv1); [done|rewrite El; lia|rewrite string_size_of_chars; lia|].
    rewrite El in E. rewrite E, !chars_of_chars in *.
    cbn [rbind]. eexists. split; [done|]. intros Hu. apply (sim_insert fs y y1 i _ _ Hs Hu Hi1 Hv1).
    split; [done|]. split; [done|]. unfold write_at.
    rewrite !length_app, !length_take, length_replicate, length_drop. rewrite string_size_chars in Hz. lia.
  - unfold write, with_lock. missing Hs (y_get_miss junk jnk now i "" (log y (Acquire i)) (sim_inv _ _ Hs) Hr).
Qed.

(** A file that is not made longer. *)
Lemma setsize_buf size b :
  0 ≤ size ≤ Z.of_nat (length b) → Z.of_nat (length b) < 2 ^ 31 →
  (if size <? string_size (of_chars b) then substr (of_chars b) 0 size
   else Ret (setsize_pad (Z.to_nat size) 0 size (of_chars b))) = Ret (of_chars (resize b size)).
Proof.
  intros Hz Hl. unfold resize. replace (Z.to_nat size - length b)%nat with O by lia. rewrite app_nil_r, string_size_of_chars.
  destruct (Z.ltb_spec size (Z.of_nat (length b))).
  - rewrite substr_ok by (rewrite string_size_of_chars; lia). by rewrite chars_of_chars, drop_0.
  - destruct (setsize_pad_spec (Z.to_nat size) 0 size (of_chars b)) as (k & -> & Hk);
      [lia|rewrite string_size_of_chars; lia|lia|rewrite string_size_of_chars; lia|]. rewrite string_size_of_chars in Hk.
    assert (k = O) as -> by (revert Hk; Z.div_mod_to_equations; lia).
    rewrite <- of_chars_app, app_nil_r, take_ge by lia. done.
Qed.

Lemma resize_length size b :
  0 ≤ size < 2 ^ 31 → Z.of_nat (length (resize b size)) = size.
Proof. intros Hz. unfold resize. rewrite length_app, length_take, length_replicate. lia. Qed.

Lemma setsize_sim i size fs y : sim fs y → legal (OpSetSize i size) fs → simulates (OpSetSize i size) fs y.
Proof.
  intros Hs (Hf & Hz & Hle). pose proof (rep_file fs y i Hs Hf) as Hr. unfold simulates. cbn [observe afs_step].
  unfold setsize, with_lock. destruct (fs !! i) as [[b|m]|]; [|done|]; cbn [fst snd].
  - destruct Hr as [Hv Hl].
    destruct (y_get_hit junk jnk now i "" (log y (Acquire i)) _ (sim_inv _ _ Hs) Hv) as (y1 & -> & Hi1 & Hv1 & _).
    change (negb (yfs_status.OK =? yfs_status.OK)) with false. cbv iota. rewrite setsize_buf by (done || lia). cbn [rbind].
    destruct (y_put_ok now i (of_chars (resize b size)) y1 Hi1) as (y2 & -> & Hi2 & Hv2 & _).
    cbn. eexists. split; [done|]. intros Hu. apply (sim_insert fs y _ i (File (resize b size)) (of_chars (resize b size)) Hs Hu Hi2).
    + by rewrite log_view, Hv2, Hv1.
    + split; [done|]. split; [done|]. rewrite resize_length; lia.
  - missing Hs (y_get_miss junk jnk now i "" (log y (Acquire i)) (sim_inv _ _ Hs) Hr).
Qed.

Lemma remove_sim i fs y : sim fs y → legal (OpRemove i) fs → simulates (OpRemove i) fs y.
Proof.
  intros Hs Hf. destruct (remove_ok i y (sim_inv _ _ Hs)) as (y1 & E & Hi1 & Hv1 & _).
  exists y1. cbn [observe afs_step fst snd]. rewrite E. split; [done|]. intros Hu. split; [done| |].
  - intros j. rewrite Hv1. destruct (decide (i = j)) as [<-|Hne].
    + rewrite lookup_delete_eq. by apply (sim_server _ _ Hs).
    + rewrite lookup_delete_ne by done. apply (sim_nodes _ _ Hs).
  - intros j Hj. rewrite Hu. by apply (sim_server _ _ Hs).
Qed.

Lemma new_node_rep rnd f : node_rep (new_inum rnd f) (Some (if f then File [] else Dir ∅)) (Some "").
Proof.
  destruct f; cbn [node_rep]; unfold isdir; rewrite isfile_new; [by split|]. split; [done|].
  exists "", []. split; [done|]. split; [split; [constructor|reflexivity]|]. split; [constructor|done].
Qed.

Lemma create_sim rnd d f name fs y :
  sim fs y → legal (OpCreate rnd d f name) fs → simulates (OpCreate rnd d f name) fs y.
Proof.
  intros Hs (Hr & Hd & Hn & Hfresh). pose proof (rep_dir fs y d Hs Hd) as Hrep. unfold simulates. cbn [observe afs_step].
  destruct (fs !! d) as [[b|m]|] eqn:Ed; [done| |].
  - destruct Hrep as (t & es & Hv & Ht & Hnd & ->). rewrite dir_map_lookup.
    pose proof (createfile_ok junk jnk now rnd d f name y t es (sim_inv _ _ Hs) Hv Ht Hn Hr) as Hc. cbv zeta in Hc.
    destruct (find_entry name es) as [i|] eqn:Ef.
    + destruct Hc as (y1 & -> & Hi1 & Hv1). cbn. same Hs.
    + destruct Hc as (y1 & -> & Hi1 & Hv1 & Ht'). cbn [rbind fst snd]. eexists. split; [done|]. intros Hu.
      assert (Hne : d ≠ new_inum rnd f) by congruence. split; [done| |intros j Hj; rewrite Hu; by apply (sim_server _ _ Hs)].
      intros j. rewrite Hv1. destruct (decide (new_inum rnd f = j)) as [<-|Hj].
      { rewrite !lookup_insert_eq. apply new_node_rep. }
      rewrite !(lookup_insert_ne _ (new_inum rnd f)) by done. destruct (decide (d = j)) as [<-|Hj'].
      * rewrite !lookup_insert_eq. split; [done|]. do 2 eexists. split; [done|]. split; [exact Ht'|].
        split; [|by rewrite dir_map_snoc]. rewrite fmap_app. apply NoDup_app. split; [done|]. split; [|apply NoDup_singleton].
        intros n Hin. cbn. rewrite list_elem_of_singleton. intros ->. by apply find_entry_None in Ef.
      * rewrite !lookup_insert_ne by done. apply (sim_nodes _ _ Hs).
  - unfold createfile, with_lock.
    missing Hs (y_get_miss junk jnk now d "" (log (log y (Acquire d)) (Acquire (new_inum rnd f))) (sim_inv _ _ Hs) Hrep).
Qed.

Lemma unlink_sim p name fs y : sim fs y → legal (OpUnlink p name) fs → simulates (OpUnlink p name) fs y.
Proof.
  intros Hs Hn. unfold simulates. cbn [observe afs_step].
  destruct (isdir p) eqn:Hp.
  2: { pose proof (rep_file fs y p Hs) as Hr. unfold isdir in Hp. rewrite negb_false_iff in Hp. specialize (Hr Hp).
       assert (unlink net junk now p name y = Ret (yfs_status.NOENT, log (log y (Acquire p)) (Release p))) as ->
         by (unfold unlink, with_lock, isdir; by rewrite Hp).
       destruct (fs !! p) as [[b|m]|]; [|done|]; cbn; same Hs. }
  pose proof (rep_dir fs y p Hs Hp) as Hr. destruct (fs !! p) as [[b|m]|]; [done| |].
  - destruct Hr as (t & es & Hv & Ht & Hnd & ->). rewrite dir_map_lookup.
    pose proof (unlink_ok junk jnk now p name y t es (sim_inv _ _ Hs) Hp Hv Ht Hn) as Hc.
    rewrite last_file_unique in Hc by done. destruct (find_entry name es) as [i|] eqn:Ef.
    2: { destruct Hc as (y1 & -> & Hi1 & Hv1). cbn. same Hs. }
    destruct (isfile i) eqn:Hif; cbn [fst snd].
    2: { destruct Hc as (y1 & -> & Hi1 & Hv1). cbn. same Hs. }
    destruct Hc as (y1 & t' & -> & Hi1 & _ & _ & Hvp & Ht' & Hv1). cbn [rbind]. eexists. split; [done|]. intros Hu.
    split; [done| |intros j Hj; rewrite Hu; by apply (sim_server _ _ Hs)].
    intros j. destruct (decide (p = j)) as [<-|Hj].
    { rewrite lookup_insert_eq, Hvp. split; [done|]. do 2 eexists. split; [done|]. split; [exact Ht'|].
      by destruct (filter_kept_unique name es i Hnd Ef Hif). }
    rewrite lookup_insert_ne, Hv1 by done. destruct (decide (i = j)) as [<-|Hj'].
    + rewrite lookup_delete_eq. by apply (sim_server _ _ Hs).
    + rewrite lookup_delete_ne by done. apply (sim_nodes _ _ Hs).
  - unfold unlink, with_lock. rewrite Hp. cbn [negb fst snd].
    missing Hs (y_get_miss junk jnk now p "" (log y (Acquire p)) (sim_inv _ _ Hs) Hr).
Qed.

Lemma observe_refines op fs y :
  sim fs y → legal op fs →
  ∃ y', observe net junk now op y = Ret ((afs_step op fs).1, y') ∧ sim (afs_step op fs).2 y'.
Proof.
  intros Hs Hl. apply simulates_step. destruct op.
  - by apply getfile_sim. - by apply getdir_sim. - by apply create_sim. - by apply lookup_sim.
  - by apply getcontent_sim. - by apply remove_sim. - by apply setsize_sim. - by apply read_sim.
  - by apply write_sim. - by apply unlink_sim.
Qed.

Lemma observe_all_refines ops fs y :
  sim fs y → all_legal ops fs →
  ∃ y', observe_all net junk now ops y = Ret ((afs_run ops fs).1, y') ∧ sim (afs_run ops fs).2 y'.
Proof.
  revert fs y. induction ops as [|op ops IH]; intros fs y Hs; cbn [all_legal observe_all afs_run fst snd].
  { intros _. by exists y. }
  intros [Hl Hls]. destruct (observe_refines op fs y Hs Hl) as (y1 & E1 & Hs1). rewrite E1. cbn [rbind].
  destruct (afs_step op fs) as [r fs1]. cbn [fst snd] in *.
  destruct (IH fs1 y1 Hs1 Hls) as (y2 & E2 & Hs2). rewrite E2. cbn [rbind].
  destruct (afs_run ops fs1) as [rs fs2]. by exists y2.
Qed.
End refinement.

(** The root directory alone: a client and a server that have just started. *)
Definition root_fs : afs := {[1 := Dir ∅]}.

Lemma sim_root : sim root_fs demo_yfs.
Proof.
  split; [apply demo_yfs_inv| |].
  - intros i. unfold root_fs, view_of, ec_view. cbn. rewrite left_id_L by apply _.
    destruct (decide (1 = i)) as [<-|Hne]; [|by rewrite !lookup_singleton_ne].
    rewrite !lookup_singleton_eq. split; [done|]. exists "", []. split; [done|]. split; [by split|]. by split; [constructor|].
  - intros i Hi. cbn. apply lookup_singleton_ne. by intros <-.
Qed.

(** C7: the client is a file system.  From a state that represents an
    abstract file system, any sequence of legal operations of [yfs_client]
    runs to its end, returns for every operation what the abstract file system
    returns (status, number, size, bytes, listing), on hits and on misses, and
    ends in a state that represents the abstract result.  An operation is
    legal when the number and the name fit it, sizes and offsets have 31 bits,
    [random()] picks an unused number, and [setsize] does not make a file
    longer: growing is outside of the claim, since the code then adds half of
    the bytes, and spaces ([setsize_pads_half]). *)
Theorem yfs_refines_afs junk jnk now ops fs y :
  sim fs y → all_legal ops fs →
  ∃ y', observe_all (server_net jnk now) junk now ops y = Ret ((afs_run ops fs).1, y') ∧
    sim (afs_run ops fs).2 y'.
Proof. apply observe_all_refines. Qed.

(** A directory with a file in it is made, written, listed, read back, and
    the file unlinked. *)
Definition demo_session : list yfs_op :=
  [OpCreate 7 1 false "docs"; OpCreate 1234 7 true "notes"; OpWrite 2147484882 5 2 "hello"; OpGetFile 2147484882;
   OpLookup 7 "notes"; OpGetContent 7; OpRead 2147484882 3 1; OpSetSize 2147484882 1; OpCreate 9 7 true "notes";
   OpUnlink 7 "notes"; OpLookup 7 "notes"; OpUnlink 1 "docs"; OpGetContent 1; OpGetDir 7].

Lemma demo_docs : valid_name "docs".
Proof. split; [|set_solver]. split; [done|]. repeat constructor. Qed.

Lemma demo_session_legal : all_legal demo_session root_fs.
Proof.
  pose proof demo_name. pose proof demo_docs. unfold demo_session. cbn [all_legal legal].
  repeat split; first [apply demo_name|apply demo_docs|vm_compute; done|lia].
Qed.

Lemma yfs_refines_afs_witness :
  all_legal demo_session root_fs ∧
  ∃ y', observe_all (server_net 5 100) (Attr 9 9 9 9) 100 demo_session demo_yfs =
      Ret ((afs_run demo_session root_fs).1, y') ∧ sim (afs_run demo_session root_fs).2 y'.
Proof.
  split; [exact demo_session_legal|].
  apply (yfs_refines_afs (Attr 9 9 9 9) 5 100 demo_session root_fs demo_yfs sim_root demo_session_legal).
Defined.

(** ** The shape of the tree *)

Definition names (fs : afs) (d : Z) (n : string) (i : Z) : Prop := ∃ m, fs !! d = Some (Dir m) ∧ m !! n = Some i.
Definition edge (fs : afs) (d i : Z) : Prop := ∃ n, names fs d n i.

(** Every node is reachable from the root, every entry names a node, no node
    has two entries and none is the root. *)
Record tree (fs : afs) : Prop := Tree {
  tree_root : ∃ m, fs !! 1 = Some (Dir m);
  tree_kind : ∀ i n, fs !! i = Some n → isfile i = match n with File _ => true | Dir _ => false end;
  tree_reach : ∀ i, is_Some (fs !! i) → rtc (edge fs) 1 i;
  tree_named : ∀ d n i, names fs d n i → is_Some (fs !! i) ∧ i ≠ 1;
  tree_one : ∀ d n d' n' i, names fs d n i → names fs d' n' i → d = d' ∧ n = n' }.

Lemma reach_mono fs fs' i : (∀ d n j, names fs d n j → names fs' d n j) → rtc (edge fs) 1 i → rtc (edge fs') 1 i.
Proof. intros H. apply rtc_subrel. intros d j [n Hn]. exists n. auto. Qed.

(** The bytes of a file change. *)
Lemma names_file fs i b b' d n j :
  fs !! i = Some (File b) → names (<[i := File b']> fs) d n j ↔ names fs d n j.
Proof.
  intros Hi. unfold names. destruct (decide (i = d)) as [<-|Hne]; [|by rewrite lookup_insert_ne].
  rewrite lookup_insert_eq, Hi. naive_solver.
Qed.

Lemma tree_file fs i b b' : tree fs → fs !! i = Some (File b) → tree (<[i := File b']> fs).
Proof.
  intros Ht Hi. pose proof (λ d n j, names_file fs i b b' d n j Hi) as Hn.
  assert (Hd : ∀ j, is_Some (<[i := File b']> fs !! j) ↔ is_Some (fs !! j)).
  { intros j. destruct (decide (i = j)) as [<-|Hne]; [by rewrite lookup_insert_eq, Hi|by rewrite lookup_insert_ne]. }
  split.
  - destruct (tree_root _ Ht) as [m Hm]. exists m. rewrite lookup_insert_ne by congruence. done.
  - intros j n. destruct (decide (i = j)) as [<-|Hne]; [|rewrite lookup_insert_ne by done; by apply tree_kind].
    rewrite lookup_insert_eq. intros [= <-]. by rewrite (tree_kind _ Ht _ _ Hi).
  - intros j Hj%Hd. eapply reach_mono; [|by apply tree_reach]. intros d n k. by rewrite Hn.
  - intros d n j Hj%Hn. rewrite Hd. by eapply tree_named.
  - intros d n d' n' j H1%Hn H2%Hn. by eapply tree_one.
Qed.

Lemma names_create fs d m name inum n :
  fs !! d = Some (Dir m) → m !! name = None → fs !! inum = None → n = File [] ∨ n = Dir ∅ →
  ∀ d' n' j, names (<[inum := n]> (<[d := Dir (<[name := inum]> m)]> fs)) d' n' j ↔
    d' = d ∧ n' = name ∧ j = inum ∨ names fs d' n' j.
Proof.
  intros Hd Hm Hi Hn d' n' j. unfold names. destruct (decide (inum = d')) as [<-|Hne].
  { rewrite lookup_insert_eq, Hi. split; [|naive_solver congruence].
    intros (m' & [= ->] & Hj). destruct Hn as [|[= ->]]; [done|by rewrite lookup_empty in Hj]. }
  rewrite lookup_insert_ne by done. destruct (decide (d = d')) as [<-|Hne'].
  - rewrite lookup_insert_eq, Hd. split.
    + intros (m' & [= <-] & Hj). apply lookup_insert_Some in Hj. naive_solver.
    + intros [(_ & -> & ->)|(m' & [= <-] & Hj)]; eexists; (split; [done|]).
      * by rewrite lookup_insert_eq.
      * rewrite lookup_insert_ne; [done|congruence].
  - rewrite lookup_insert_ne by done. naive_solver.
Qed.

Lemma tree_create fs d m name rnd f :
  tree fs → fs !! d = Some (Dir m) → m !! name = None → fs !! new_inum rnd f = None →
  tree (<[new_inum rnd f := if f then File [] else Dir ∅]> (<[d := Dir (<[name := new_inum rnd f]> m)]> fs)).
Proof.
  intros Ht Hd Hm Hi. set (inum := new_inum rnd f) in *. set (n := if f then File [] else Dir ∅).
  pose proof (names_create fs d m name inum n Hd Hm Hi ltac:(unfold n; destruct f; auto)) as Hn.
  set (fs' := <[inum := n]> (<[d := Dir (<[name := inum]> m)]> fs)) in *.
  assert (Hdom : ∀ j, is_Some (fs' !! j) ↔ j = inum ∨ is_Some (fs !! j)).
  { intros j. unfold fs'. rewrite !lookup_insert_is_Some'. split; [|naive_solver].
    intros [->|[->|?]]; [by left|right; by rewrite Hd|by right]. }
  assert (Hnew : ∀ d' n', ¬ names fs d' n' inum).
  { intros d' n' Hj%(tree_named _ Ht). destruct Hj as [[? Hj] _]. congruence. }
  destruct (tree_root _ Ht) as [m1 Hm1]. split.
  - unfold fs'. rewrite lookup_insert_ne by congruence. destruct (decide (d = 1)) as [->|Hne].
    + rewrite lookup_insert_eq. by eexists.
    + rewrite lookup_insert_ne by done. by eexists.
  - intros j n'. unfold fs'. destruct (decide (inum = j)) as [<-|Hj].
    { rewrite lookup_insert_eq. intros [= <-]. unfold inum, n. rewrite isfile_new. by destruct f. }
    rewrite lookup_insert_ne by done. destruct (decide (d = j)) as [<-|Hj'].
    + rewrite lookup_insert_eq. intros [= <-]. by rewrite (tree_kind _ Ht _ _ Hd).
    + rewrite lookup_insert_ne by done. by apply tree_kind.
  - assert (Hold : ∀ j, is_Some (fs !! j) → rtc (edge fs') 1 j).
    { intros j Hj. eapply reach_mono; [|by apply tree_reach]. intros d' n' k. rewrite Hn. by right. }
    intros j [->|Hj]%Hdom; [|by apply Hold]. eapply rtc_r; [apply (Hold d); by rewrite Hd|]. exists name. apply Hn. by left.
  - intros d' n' j [(-> & -> & ->)|Hj]%Hn; [|apply (tree_named _ Ht) in Hj as [Hj ?]; split; [by rewrite Hdom; right|done]].
    split; [by rewrite Hdom; left|]. congruence.
  - intros d1 n1 d2 n2 j [(-> & -> & ->)|H1]%Hn [(-> & -> & E)|H2]%Hn; [done|by destruct (Hnew _ _ H2)| |by eapply tree_one].
    subst j. by destruct (Hnew _ _ H1).
Qed.

Lemma names_unlink fs p m name i :
  tree fs → fs !! p = Some (Dir m) → m !! name = Some i → isfile i = true →
  ∀ d n j, names (<[p := Dir (delete name m)]> (delete i fs)) d n j ↔ names fs d n j ∧ ¬ (d = p ∧ n = name).
Proof.
  intros Ht Hp Hm Hi d n j. unfold names. destruct (decide (p = d)) as [<-|Hne].
  - rewrite lookup_insert_eq, Hp. split.
    + intros (m' & [= <-] & [Hj1 Hj2]%lookup_delete_Some). split; [by eexists|]. intros [_ ->]. done.
    + intros [(m' & [= <-] & Hj) Hk]. eexists. split; [done|]. apply lookup_delete_Some. split; [|done]. naive_solver.
  - rewrite lookup_insert_ne by done. destruct (decide (i = d)) as [<-|Hne'].
    + rewrite lookup_delete_eq. split; [naive_solver|]. intros [(m' & Hm' & _) _].
      apply (tree_kind _ Ht) in Hm'. congruence.
    + rewrite lookup_delete_ne by done. naive_solver.
Qed.

Lemma tree_unlink fs p m name i :
  tree fs → fs !! p = Some (Dir m) → m !! name = Some i → isfile i = true →
  tree (<[p := Dir (delete name m)]> (delete i fs)).
Proof.
  intros Ht Hp Hm Hi. assert (Hpi : p ≠ i). { intros ->. apply (tree_kind _ Ht) in Hp. congruence. }
  assert (Hnp : names fs p name i) by (by exists m).
  set (fs' := <[p := Dir (delete name m)]> (delete i fs)).
  pose proof (names_unlink fs p m name i Ht Hp Hm Hi) as Hn. fold fs' in Hn.
  assert (Hdom : ∀ j, is_Some (fs' !! j) ↔ j ≠ i ∧ is_Some (fs !! j)).
  { intros j. unfold fs'. rewrite lookup_insert_is_Some'. destruct (decide (i = j)) as [<-|Hne].
    - rewrite lookup_delete_eq. split; [intros [->|[? ?]]; done|by intros [? _]].
    - rewrite lookup_delete_ne by done. split; [|naive_solver]. by intros [<-|?]; split. }
  split.
  - destruct (tree_root _ Ht) as [m1 Hm1]. unfold fs'. destruct (decide (p = 1)) as [->|Hne].
    + rewrite lookup_insert_eq. by eexists.
    + rewrite lookup_insert_ne, lookup_delete_ne by (done || by intros ->). by eexists.
  - intros j n. unfold fs'. destruct (decide (p = j)) as [<-|Hj].
    + rewrite lookup_insert_eq. intros [= <-]. by rewrite (tree_kind _ Ht _ _ Hp).
    + rewrite lookup_insert_ne by done. intros [_ ?]%lookup_delete_Some. by apply (tree_kind _ Ht).
  - intros j [Hj Hs]%Hdom. apply (tree_reach _ Ht) in Hs. revert j Hs Hj.
    apply (rtc_ind_r (λ j, j ≠ i → rtc (edge fs') 1 j)); [done|]. intros d j Hs [n Hd] IH Hj. eapply rtc_r; [apply IH|].
    + intros ->. destruct Hd as (m' & Hm' & _). apply (tree_kind _ Ht) in Hm'. congruence.
    + exists n. apply Hn. split; [done|]. intros [-> ->]. destruct Hd as (m' & ? & ?). congruence.
  - intros d n j [Hj Hk]%Hn. destruct (tree_named _ Ht _ _ _ Hj) as [Hs ?]. split; [|done]. apply Hdom. split; [|done].
    intros ->. destruct Hk. exact (tree_one _ Ht _ _ _ _ _ Hj Hnp).
  - intros d n d' n' j [H1 _]%Hn [H2 _]%Hn. by eapply tree_one.
Qed.

Lemma tree_root_fs : tree root_fs.
Proof.
  unfold root_fs. split.
  - exists ∅. apply lookup_singleton_eq.
  - intros i n [<- <-]%lookup_singleton_Some. done.
  - intros i [n [<- _]%lookup_singleton_Some]. done.
  - intros d n i (m & [_ [= <-]]%lookup_singleton_Some & Hi). by rewrite lookup_empty in Hi.
  - intros d n d' n' i (m & [_ [= <-]]%lookup_singleton_Some & Hi). by rewrite lookup_empty in Hi.
Qed.

(** [remove] is what [unlink] calls, and not an operation of the kernel's. *)
Definition kernel_op (op : yfs_op) : Prop := match op with OpRemove _ => False | _ => True end.

Lemma tree_step op fs : tree fs → legal op fs → kernel_op op → tree (afs_step op fs).2.
Proof.
  intros Ht Hl Hk. destruct op as [|?|rnd d f name|?|?|?|i size|?|i size off buf|p name]; cbn [afs_step snd]; try done.
  - destruct Hl as (_ & _ & _ & Hfresh). destruct (fs !! d) as [[?|m]|] eqn:Hd; [done| |done].
    destruct (m !! name) eqn:Hm; [done|]. by apply tree_create.
  - destruct (fs !! i) as [[b|?]|] eqn:Hi; [|done..]. by eapply tree_file.
  - destruct (fs !! i) as [[b|?]|] eqn:Hi; [|done..]. by eapply tree_file.
  - destruct (fs !! p) as [[?|m]|] eqn:Hp; [done| |done]. destruct (m !! name) as [i|] eqn:Hm; [|done].
    destruct (isfile i) eqn:Hi; [|done]. by apply tree_unlink.
Qed.

Lemma tree_run ops fs : tree fs → all_legal ops fs → Forall kernel_op ops → tree (afs_run ops fs).2.
Proof.
  revert fs. induction ops as [|op ops IH]; intros fs Ht; cbn [all_legal afs_run]; [done|].
  intros [Hl Hls] [Hk Hks]%Forall_cons. pose proof (tree_step op fs Ht Hl Hk) as Ht1.
  destruct (afs_step op fs) as [r fs1]. cbn [snd] in *. specialize (IH fs1 Ht1 Hls Hks).
  by destruct (afs_run ops fs1).
Qed.

(** C27: the directories are a tree.  After any legal operations of the kernel
    on a client and a server that have just started, what the client sees
    represents a file system in which the root is a directory, every file and
    directory is reachable from it, every entry of a directory names an
    existing node of the kind its number says, no node has two entries and
    none is the root. *)
Theorem directories_form_a_tree junk jnk now ops :
  all_legal ops root_fs → Forall kernel_op ops →
  ∃ rs y fs, observe_all (server_net jnk now) junk now ops demo_yfs = Ret (rs, y) ∧ sim fs y ∧ tree fs.
Proof.
  intros Hl Hk. destruct (observe_all_refines junk jnk now ops root_fs demo_yfs sim_root Hl) as (y & E & Hs).
  do 3 eexists. split; [exact E|]. split; [exact Hs|]. by apply tree_run; [apply tree_root_fs|..].
Qed.

Lemma directories_form_a_tree_witness :
  all_legal demo_session root_fs ∧ Forall kernel_op demo_session ∧
  ∃ rs y fs, observe_all (server_net 5 100) (Attr 9 9 9 9) 100 demo_session demo_yfs = Ret (rs, y) ∧ sim fs y ∧ tree fs.
Proof.
  split; [exact demo_session_legal|]. split; [by repeat constructor|].
  apply (directories_form_a_tree (Attr 9 9 9 9) 5 100 demo_session demo_session_legal). by repeat constructor.
Defined.
