(* ===== verification/Fuse.v ===== *)
(** * The callbacks of the FUSE library (fuse.cc)

    Each handler calls the file system client and answers its request through
    one of the library's reply functions; the answers are collected in a log,
    with the request they are for.  The library is not part of the sources:
    the layout of directory entries ([fuse_dirent_size], [fuse_add_dirent])
    is a parameter.  [fuse_ino_t] has 32 bits. *)

From S2P Require Import Prelude Marshall Protocols Streams Extent Yfs.

Definition ENOENT : Z := 2.
Definition EEXIST : Z := 17.
Definition ENOTDIR : Z := 20.
Definition ENOSYS : Z := 38.
Definition FUSE_SET_ATTR_SIZE : Z := Z.shiftl 1 3.

Definition S_IFREG : Z := 0x8000.
Definition S_IFDIR : Z := 0x4000.
Definition S_IFMT : Z := 0xF000.

(** [struct stat]: the fields the code sets. *)
Record stat := Stat {
  st_ino : Z; st_mode : Z; st_nlink : Z; st_atime : Z; st_mtime : Z; st_ctime : Z; st_size : Z }.

(** The timeouts are 0 in every entry the code fills in. *)
Record fuse_entry_param := EntryParam { e_ino : Z; e_generation : Z; e_attr : stat }.

Inductive fuse_reply :=
| ReplyErr (errno : Z)
| ReplyAttr (st : stat)
| ReplyBuf (b : list ascii)
| ReplyWrite (n : Z)
| ReplyEntry (e : fuse_entry_param)
| ReplyCreate (e : fuse_entry_param)
| ReplyOpen
| ReplyStatfs (namemax bsize : Z).

Record fuse (W : Type) := Fuse { f_yfs : yfs W; f_replies : list (nat * fuse_reply) }.
Arguments Fuse {W}.
Arguments f_yfs {W}.
Arguments f_replies {W}.

(** [printf("%s", p)] reads up to a null byte. *)
Definition print_chars (l : list ascii) : res () :=
  if bool_decide ("000"%char ∈ l) then Ret () else Fail UndefinedBehaviour.

(** ** The buffer of directory entries *)

Section fuse.
Context {W : Type} (net : extent_net W) (junk : attr) (now : Z).
Context (fuse_dirent_size : Z → Z) (fuse_add_dirent : string → Z → Z → list ascii).

Record dirbuf := Dirbuf { db_p : list ascii; db_size : Z }.

(** [fuse_add_dirent(b->p + oldsize, name, &stbuf, b->size)] stores the entry
    it is given; new memory holds [fill]. *)
Definition dirbuf_add (fill : ascii) (b : dirbuf) (name : string) (ino : Z) : res dirbuf :=
  let oldsize := db_size b in
  let size := u32 (db_size b + fuse_dirent_size (Z.of_nat (length (c_str name)))) in
  let p := take (Z.to_nat size) (db_p b) ++ replicate (Z.to_nat size - length (db_p b)) fill in
  p ← buf_memcpy p oldsize (fuse_add_dirent (of_chars (c_str name)) (u32 ino) size);
  Ret (Dirbuf p size).

(** The bytes [reply_buf_limited] replies with; pointing behind the buffer is
    undefined. *)
Definition limited (buf : list ascii) (bufsize off maxsize : Z) : res (list ascii) :=
  if u32 off <? bufsize then
    if (0 <=? off) && (off <=? Z.of_nat (length buf)) then
      let n := if bufsize - off <? maxsize then bufsize - off else maxsize in
      Ret (take (Z.to_nat n) (drop (Z.to_nat off) buf))
    else Fail UndefinedBehaviour
  else Ret [].

Definition reply (req : nat) (r : fuse_reply) (f : fuse W) : fuse W :=
  Fuse (f_yfs f) (f_replies f ++ [(req, r)]).
Definition with_yfs (y : yfs W) (f : fuse W) : fuse W := Fuse y (f_replies f).

(** ** The handlers *)

Definition getattr (inum : Z) (y : yfs W) : res (Z * stat * yfs W) :=
  let st := Stat inum 0 0 0 0 0 0 in
  if isfile inum then
    '(ret, info, y) ← getfile net junk inum (FileInfo 0 0 0 0) y;
    if negb (ret =? yfs_status.OK) then Ret (ret, st, y)
    else Ret (yfs_status.OK,
      Stat inum (Z.lor S_IFREG 438) 1 (fi_atime info) (fi_mtime info) (fi_ctime info) (fi_size info), y)
  else
    '(ret, info, y) ← getdir net junk inum (DirInfo 0 0 0) y;
    if negb (ret =? yfs_status.OK) then Ret (ret, st, y)
    else Ret (yfs_status.OK,
      Stat inum (Z.lor S_IFDIR 511) 2 (di_atime info) (di_mtime info) (di_ctime info) 0, y).

Definition fuseserver_getattr (req : nat) (ino : Z) (f : fuse W) : res (fuse W) :=
  '(ret, st, y) ← getattr ino (f_yfs f);
  if negb (ret =? yfs_status.OK) then Ret (reply req (ReplyErr ENOENT) (with_yfs y f))
  else Ret (reply req (ReplyAttr st) (with_yfs y f)).

Definition fuseserver_setattr (req : nat) (ino attr_size to_set : Z) (f : fuse W) : res (fuse W) :=
  if negb (Z.land FUSE_SET_ATTR_SIZE to_set =? 0) then
    '(ret, y) ← setsize net junk now ino (u32 attr_size) (f_yfs f);
    if negb (ret =? yfs_status.OK) then Ret (reply req (ReplyErr ENOENT) (with_yfs y f)) else
    '(ret, st, y) ← getattr ino y;
    if negb (ret =? yfs_status.OK) then Ret (reply req (ReplyErr ENOENT) (with_yfs y f))
    else Ret (reply req (ReplyAttr st) (with_yfs y f))
  else Ret (reply req (ReplyErr ENOSYS) f).

Definition fuseserver_read (req : nat) (ino size off : Z) (f : fuse W) : res (fuse W) :=
  '(ret, buf, y) ← read net junk now ino size off "" (f_yfs f);
  if negb (ret =? yfs_status.OK) then Ret (reply req (ReplyErr ENOENT) (with_yfs y f))
  else Ret (reply req (ReplyBuf (chars buf)) (with_yfs y f)).

(** [buf]: the memory from the pointer on. *)
Definition fuseserver_write (req : nat) (ino : Z) (buf : string) (size off : Z) (f : fuse W) : res (fuse W) :=
  '(ret, y) ← write net junk now ino size off buf (f_yfs f);
  let f :=
    if negb (ret =? yfs_status.OK) then reply req (ReplyWrite ENOENT) (with_yfs y f)
    else reply req (ReplyWrite size) (with_yfs y f) in
  print_chars (chars buf);;
  Ret f.

(** [fuseserver_createhelper] and [fuseserver_createdirhelper]; [e] is what
    the structure holds before. *)
Definition createhelper (is_file : bool) (rnd parent : Z) (name : string) (e : fuse_entry_param) (y : yfs W)
    : res (Z * fuse_entry_param * yfs W) :=
  let e := EntryParam (e_ino e) 0 (e_attr e) in
  '(ret, inum, y) ← createfile net junk now rnd parent is_file name y;
  if negb (ret =? yfs_status.OK) then Ret (ret, e, y) else
  '(ret, st, y) ← getattr inum y;
  if negb (ret =? yfs_status.OK) then Ret (yfs_status.IOERR, e, y)
  else Ret (yfs_status.OK, EntryParam (u32 inum) (e_generation e) st, y).

Definition fuseserver_createhelper := createhelper true.
Definition fuseserver_createdirhelper := createhelper false.

(** The error for a creation that failed with [ret]. *)
Definition create_error (ret : Z) : fuse_reply :=
  if ret =? yfs_status.EXIST then ReplyErr EEXIST else ReplyErr ENOENT.

Definition fuseserver_create (rnd : Z) (e : fuse_entry_param) (req : nat) (parent : Z) (name : string)
    (f : fuse W) : res (fuse W) :=
  '(ret, e, y) ← fuseserver_createhelper rnd parent name e (f_yfs f);
  if ret =? yfs_status.OK then Ret (reply req (ReplyCreate e) (with_yfs y f))
  else Ret (reply req (create_error ret) (with_yfs y f)).

Definition fuseserver_mknod (rnd : Z) (e : fuse_entry_param) (req : nat) (parent : Z) (name : string)
    (f : fuse W) : res (fuse W) :=
  '(ret, e, y) ← fuseserver_createhelper rnd parent name e (f_yfs f);
  if ret =? yfs_status.OK then Ret (reply req (ReplyEntry e) (with_yfs y f))
  else Ret (reply req (create_error ret) (with_yfs y f)).

(** [e]: the structure before it is filled in, [inum]: the variable. *)
Definition fuseserver_lookup (e : fuse_entry_param) (inum : Z) (req : nat) (parent : Z) (name : string)
    (f : fuse W) : res (fuse W) :=
  let e := EntryParam (e_ino e) 0 (e_attr e) in
  '(ret, inum, y) ← lookupfile net junk now parent name inum (f_yfs f);
  '(found, e, y) ←
    (if ret =? yfs_status.EXIST then
       '(ret, st, y) ← getattr inum y;
       if ret =? yfs_status.OK then Ret (true, EntryParam (u32 inum) (e_generation e) st, y)
       else Ret (true, e, y)
     else Ret (false, e, y));
  if found : bool then Ret (reply req (ReplyEntry e) (with_yfs y f))
  else Ret (reply req (ReplyErr ENOENT) (with_yfs y f)).

(** The loop over the words of the directory. *)
Fixpoint add_entries (fill : ascii) (files : list string) (b : dirbuf) : res dirbuf :=
  match files with
  | [] => Ret b
  | file :: files =>
      let '(finum, fname) := parse_entry file in
      b ← dirbuf_add fill b fname finum;
      add_entries fill files b
  end.

Definition reply_buf_limited (req : nat) (b : dirbuf) (off maxsize : Z) (f : fuse W) : res (fuse W) :=
  l ← limited (db_p b) (db_size b) off maxsize;
  Ret (reply req (ReplyBuf l) f).

Definition fuseserver_readdir (fill : ascii) (req : nat) (ino size off : Z) (f : fuse W) : res (fuse W) :=
  if negb (isdir ino) then Ret (reply req (ReplyErr ENOTDIR) f) else
  '(ret, buf, y) ← getcontent net junk now ino "" (f_yfs f);
  if negb (ret =? yfs_status.OK) then Ret (reply req (ReplyErr ENOENT) (with_yfs y f)) else
  b ← add_entries fill (words_of buf) (Dirbuf [] 0);
  reply_buf_limited req b off size (with_yfs y f).

Definition fuseserver_open (req : nat) (ino : Z) (f : fuse W) : res (fuse W) := Ret (reply req ReplyOpen f).

Definition fuseserver_mkdir (rnd : Z) (e : fuse_entry_param) (req : nat) (parent : Z) (name : string)
    (f : fuse W) : res (fuse W) :=
  '(ret, e, y) ← fuseserver_createdirhelper rnd parent name e (f_yfs f);
  if ret =? yfs_status.OK then Ret (reply req (ReplyEntry e) (with_yfs y f))
  else Ret (reply req (create_error ret) (with_yfs y f)).

Definition fuseserver_unlink (req : nat) (parent : Z) (name : string) (f : fuse W) : res (fuse W) :=
  '(ret, y) ← unlink net junk now parent name (f_yfs f);
  if negb (ret =? yfs_status.OK) then Ret (reply req (ReplyErr ENOENT) (with_yfs y f))
  else Ret (reply req (ReplyErr 0) (with_yfs y f)).

Definition fuseserver_statfs (req : nat) (f : fuse W) : res (fuse W) := Ret (reply req (ReplyStatfs 255 512) f).

(** The table [fuseserver_oper] that [main] fills in. *)
Inductive fuse_op :=
| FGetattr (ino : Z)
| FStatfs
| FReaddir (fill : ascii) (ino size off : Z)
| FLookup (e : fuse_entry_param) (inum parent : Z) (name : string)
| FCreate (rnd : Z) (e : fuse_entry_param) (parent : Z) (name : string)
| FMknod (rnd : Z) (e : fuse_entry_param) (parent : Z) (name : string)
| FOpen (ino : Z)
| FRead (ino size off : Z)
| FWrite (ino : Z) (buf : string) (size off : Z)
| FSetattr (ino attr_size to_set : Z)
| FUnlink (parent : Z) (name : string)
| FMkdir (rnd : Z) (e : fuse_entry_param) (parent : Z) (name : string).

Definition fuseserver_oper (req : nat) (op : fuse_op) : fuse W → res (fuse W) :=
  match op with
  | FGetattr ino => fuseserver_getattr req ino
  | FStatfs => fuseserver_statfs req
  | FReaddir fill ino size off => fuseserver_readdir fill req ino size off
  | FLookup e inum parent name => fuseserver_lookup e inum req parent name
  | FCreate rnd e parent name => fuseserver_create rnd e req parent name
  | FMknod rnd e parent name => fuseserver_mknod rnd e req parent name
  | FOpen ino => fuseserver_open req ino
  | FRead ino size off => fuseserver_read req ino size off
  | FWrite ino buf size off => fuseserver_write req ino buf size off
  | FSetattr ino attr_size to_set => fuseserver_setattr req ino attr_size to_set
  | FUnlink parent name => fuseserver_unlink req parent name
  | FMkdir rnd e parent name => fuseserver_mkdir rnd e req parent name
  end.
End fuse.

(** ** Every request is answered once *)

Lemma rmap_Ret {A B} (f : A → B) x b : rmap f x = Ret b ↔ ∃ a, x = Ret a ∧ f a = b.
Proof. destruct x; cbn; split; [intros [= <-]; eauto|by intros (? & [= ->] & ->)|done|by intros (? & ? & ?)]. Qed.

Section answered.
Context {W : Type} (net : extent_net W) (junk : attr) (now : Z).
Context (dirent_size : Z → Z) (add_dirent : string → Z → Z → list ascii).

(** The library stores as many bytes as it says. *)
Hypothesis dirent_length : ∀ name ino off,
  Z.of_nat (length (add_dirent name ino off)) = dirent_size (Z.of_nat (String.length name)).

(** The size of the listing. *)
Definition name_size (name : string) : Z := dirent_size (Z.of_nat (length (c_str name))).
Fixpoint dirents_size (files : list string) : Z :=
  match files with [] => 0 | file :: files => name_size (parse_entry file).2 + dirents_size files end.

(** What the library passes: offsets that are not negative, as many bytes to
    write as it says, and a listing below 2^32 bytes. *)
Definition fuse_ok (op : fuse_op) (f : fuse W) : Prop :=
  match op with
  | FRead _ _ off => 0 ≤ off
  | FWrite _ buf size off => 0 ≤ off ∧ 0 ≤ size ≤ string_size buf
  | FReaddir _ ino _ off =>
      0 ≤ off < 2 ^ 32 ∧ ∀ content y, getcontent net junk now ino "" (f_yfs f) = Ret (yfs_status.OK, content, y) →
        dirents_size (words_of content) < 2 ^ 32
  | _ => True
  end.

(** What [fuseserver_write] prints after it has replied is a string. *)
Definition prints (op : fuse_op) : bool :=
  match op with FWrite _ buf _ _ => bool_decide ("000"%char ∈ chars buf) | _ => true end.

Lemma yfs_total op y : op_defined op → abort_free (run_op net junk now op y).
Proof. apply run_op_total. Qed.

Lemma getattr_total inum y : abort_free (getattr net junk inum y).
Proof.
  unfold getattr. destruct (isfile inum).
  - destruct (yfs_total (OpGetFile inum) y I) as [y1 ([[ret info] y2] & -> & _)%rmap_Ret].
    cbn [rbind]. destruct (negb _); by eexists.
  - destruct (yfs_total (OpGetDir inum) y I) as [y1 ([[ret info] y2] & -> & _)%rmap_Ret].
    cbn [rbind]. destruct (negb _); by eexists.
Qed.

Lemma createhelper_total b rnd parent name e y : abort_free (createhelper net junk now b rnd parent name e y).
Proof.
  unfold createhelper.
  destruct (yfs_total (OpCreate rnd parent b name) y I) as [y1 ([[ret inum] y2] & -> & _)%rmap_Ret]. cbn [rbind].
  destruct (negb _); [by eexists|]. destruct (getattr_total inum y2) as [[[ret' st] y3] ->]. cbn [rbind].
  destruct (negb _); by eexists.
Qed.

Lemma name_size_nonneg name : 0 ≤ name_size name.
Proof.
  unfold name_size. rewrite <- (length_of_chars (c_str name)). rewrite <- (dirent_length _ 0 0). lia.
Qed.

Lemma dirents_size_nonneg files : 0 ≤ dirents_size files.
Proof.
  induction files as [|file files IH]; cbn; [lia|]. pose proof (name_size_nonneg (parse_entry file).2). lia.
Qed.

(** The bytes of the listing, from the offset [off] on. *)
Fixpoint dirent_bytes (off : Z) (files : list string) : list ascii :=
  match files with
  | [] => []
  | file :: files =>
      let '(finum, fname) := parse_entry file in
      let off := off + name_size fname in
      add_dirent (of_chars (c_str fname)) (u32 finum) off ++ dirent_bytes off files
  end.

Lemma length_dirent_bytes off files : Z.of_nat (length (dirent_bytes off files)) = dirents_size files.
Proof.
  revert off. induction files as [|file files IH]; intros off; cbn; [done|].
  destruct (parse_entry file) as [finum fname]. rewrite length_app, Nat2Z.inj_add, IH, dirent_length.
  unfold name_size. cbn. by rewrite length_of_chars.
Qed.

Lemma add_entries_ok fill files : ∀ b,
  db_size b = Z.of_nat (length (db_p b)) → db_size b + dirents_size files < 2 ^ 32 →
  ∃ b', add_entries dirent_size add_dirent fill files b = Ret b' ∧
    db_p b' = db_p b ++ dirent_bytes (db_size b) files ∧ db_size b' = Z.of_nat (length (db_p b')).
Proof.
  induction files as [|file files IH]; intros b Eb Hs; cbn [add_entries dirent_bytes].
  { exists b. rewrite app_nil_r. by split_and!. }
  cbn [dirents_size] in Hs. destruct (parse_entry file) as [finum fname]. cbn [snd] in Hs.
  pose proof (name_size_nonneg fname) as Hn. pose proof (dirents_size_nonneg files).
  unfold dirbuf_add. fold (name_size fname).
  rewrite u32_id by (wrap_unfold; lia).
  set (d := add_dirent _ _ _).
  assert (Z.of_nat (length d) = name_size fname) as Ed.
  { unfold d, name_size. rewrite dirent_length, length_of_chars. done. }
  rewrite take_ge by lia. set (tail := replicate _ _).
  assert (length tail = length d) as Et. { unfold tail. rewrite length_replicate. lia. }
  assert (buf_memcpy (db_p b ++ tail) (db_size b) d = Ret (db_p b ++ d)) as ->.
  { unfold buf_memcpy. rewrite length_app. replace (_ && _) with true by lia.
    rewrite Eb, Nat2Z.id, take_app_length. rewrite (drop_ge (db_p b ++ tail)) by (rewrite length_app; lia).
    by rewrite app_nil_r. }
  cbn [rbind]. destruct (IH (Dirbuf (db_p b ++ d) (db_size b + name_size fname))) as (b' & -> & Ep & Es').
  - cbn. rewrite length_app. lia.
  - cbn. lia.
  - exists b'. split_and!; [done| |done]. rewrite Ep. cbn. by rewrite <- (assoc_L (++)).
Qed.

Lemma limited_ok buf off maxsize :
  0 ≤ off < 2 ^ 32 → limited buf (Z.of_nat (length buf)) off maxsize = Ret (take (Z.to_nat maxsize) (drop (Z.to_nat off) buf)).
Proof.
  intros Ho. unfold limited. rewrite u32_id by (wrap_unfold; lia).
  destruct (Z.ltb_spec off (Z.of_nat (length buf))).
  - replace (_ && _) with true by lia. f_equal.
    destruct (Z.ltb_spec (Z.of_nat (length buf) - off) maxsize); [|done].
    rewrite !take_ge; [done|rewrite length_drop; lia..].
  - rewrite drop_ge by lia. by rewrite take_nil.
Qed.

(** [answer_one]: the reply that was just logged. *)
Ltac answer_one := do 2 eexists; split; [reflexivity|reflexivity].

Lemma readdir_answers fill ino size off f req :
  fuse_ok (FReaddir fill ino size off) f →
  ∃ f' r, fuseserver_readdir net junk now dirent_size add_dirent fill req ino size off f = Ret f' ∧
    f_replies f' = f_replies f ++ [(req, r)].
Proof.
  intros [Hoff Hsize]. unfold fuseserver_readdir. destruct (negb (isdir ino)); [answer_one|].
  destruct (yfs_total (OpGetContent ino) (f_yfs f) I) as [y1 ([[ret buf] y2] & E & _)%rmap_Ret]. rewrite E. cbn [rbind].
  destruct (Z.eqb_spec ret yfs_status.OK) as [->|]; cbn [negb]; [|answer_one].
  destruct (add_entries_ok fill (words_of buf) (Dirbuf [] 0)) as (b & -> & Ep & Es); [done|cbn; by eapply Hsize|].
  cbn [rbind]. unfold reply_buf_limited. rewrite Es, limited_ok by done. answer_one.
Qed.

End answered.

(** ** What a directory listing tells *)

Section listing.
Context (junk : attr) (jnk now : Z).
Context (dirent_size : Z → Z) (add_dirent : string → Z → Z → list ascii).
Context (decode : list ascii → option (Z * Z * string * list ascii)).
Hypothesis dirent_length : ∀ name ino off,
  Z.of_nat (length (add_dirent name ino off)) = dirent_size (Z.of_nat (String.length name)).
(** The kernel reads the number, the offset and the name of an entry. *)
Hypothesis dirent_decodes : ∀ name ino off rest, in_u32 ino → in_u32 off → string_size name ≤ 255 →
  decode (add_dirent name ino off ++ rest) = Some (ino, off, name, rest).
Let net := server_net jnk now.

(** What the kernel finds in a buffer. *)
Fixpoint kernel_list (fuel : nat) (l : list ascii) : list (Z * Z * string) :=
  match fuel with
  | O => []
  | S fuel =>
      match decode l with
      | Some (ino, off, name, rest) => (ino, off, name) :: kernel_list fuel rest
      | None => []
      end
  end.

(** The entries, each with the offset of the next one. *)
Fixpoint numbered (off : Z) (es : list entry) : list (Z * Z * string) :=
  match es with
  | [] => []
  | e :: es => let off := off + name_size dirent_size e.2 in (e.1, off, e.2) :: numbered off es
  end.

Lemma kernel_list_entries es fuel rest : ∀ off,
  Forall valid_entry es → Forall (λ e, in_u32 e.1 ∧ string_size e.2 ≤ 255) es → 0 ≤ off →
  off + dirents_size dirent_size (entry_word <$> es) < 2 ^ 32 →
  kernel_list (length es + fuel) (dirent_bytes dirent_size add_dirent off (entry_word <$> es) ++ rest) =
    numbered off es ++ kernel_list fuel rest.
Proof.
  induction es as [|e es IH]; intros off Hv Hu Hoff Hsz; cbn [length Nat.add kernel_list]; [done|].
  rewrite fmap_cons in *. cbn [dirent_bytes dirents_size] in *.
  apply Forall_cons in Hv as [He Hv]. apply Forall_cons in Hu as [[Hi Hl] Hu].
  rewrite parse_entry_word in * by done. destruct e as [i n]. cbn [fst snd] in *.
  pose proof (name_size_nonneg dirent_size add_dirent dirent_length n).
  pose proof (dirents_size_nonneg dirent_size add_dirent dirent_length (entry_word <$> es)).
  rewrite c_str_valid by apply He. rewrite of_chars_chars, u32_id by done.
  rewrite <- (assoc_L (++)), dirent_decodes; [|done|wrap_unfold; lia|done]. cbn [numbered fst snd app]. f_equal.
  apply IH; [done|done|lia|lia].
Qed.

Lemma dirent_bytes_app a b : ∀ off,
  dirent_bytes dirent_size add_dirent off (a ++ b) =
  dirent_bytes dirent_size add_dirent off a ++ dirent_bytes dirent_size add_dirent (off + dirents_size dirent_size a) b.
Proof.
  induction a as [|x a IH]; intros off; cbn; [by rewrite Z.add_0_r|].
  destruct (parse_entry x) as [i n]. cbn. rewrite IH, <- (assoc_L (++)). do 3 f_equal. lia.
Qed.

Lemma dirents_size_app a b :
  dirents_size dirent_size (a ++ b) = dirents_size dirent_size a + dirents_size dirent_size b.
Proof. induction a as [|x a IH]; cbn; [done|]. rewrite IH. lia. Qed.

(** C32: a directory is listed completely, in pages.  Asked for a directory
    whose text has the entries [es] from the offset of its [k]th entry on,
    [readdir] replies with the first [size] bytes of a listing in which the
    kernel finds exactly the entries from the [k]th on, with their numbers and
    names, each with the offset at which the next request continues. *)
Theorem readdir_lists fill req ino size f content es k :
  y_inv (f_yfs f) → view_of (f_yfs f) !! ino = Some content → dir_text content es → isdir ino = true →
  Forall (λ e, in_u32 e.1 ∧ string_size e.2 ≤ 255) es →
  dirents_size dirent_size (entry_word <$> es) < 2 ^ 32 →
  let off := dirents_size dirent_size (entry_word <$> take k es) in
  ∃ f' page, fuseserver_readdir net junk now dirent_size add_dirent fill req ino size off f = Ret f' ∧
    f_replies f' = f_replies f ++ [(req, ReplyBuf (take (Z.to_nat size) page))] ∧
    kernel_list (length (drop k es)) page = numbered off (drop k es).
Proof.
  intros Hi Hv [Hes Ht] Hd Hu Hsz off. unfold fuseserver_readdir. rewrite Hd. cbn [negb].
  unfold getcontent, with_lock.
  destruct (y_get_hit junk jnk now ino "" (log (f_yfs f) (Acquire ino)) content) as (y1 & E1 & _); [done..|].
  fold net in E1. rewrite E1. cbn [rbind]. change (negb (yfs_status.OK =? yfs_status.OK)) with false. cbv iota.
  rewrite Ht. rewrite <- (take_drop k es) in Hsz at 1. rewrite fmap_app, dirents_size_app in Hsz. fold off in Hsz.
  pose proof (dirents_size_nonneg dirent_size add_dirent dirent_length (entry_word <$> take k es)) as Ho. fold off in Ho.
  pose proof (dirents_size_nonneg dirent_size add_dirent dirent_length (entry_word <$> drop k es)) as Hr.
  destruct (add_entries_ok dirent_size add_dirent dirent_length fill (entry_word <$> es) (Dirbuf [] 0)) as (b & -> & Ep & Es);
    [done| |].
  { cbn [db_size]. rewrite <- (take_drop k es) at 1. rewrite fmap_app, dirents_size_app. fold off. lia. }
  cbn [rbind]. unfold reply_buf_limited. rewrite Es, limited_ok by lia. cbn [rbind].
  eexists _, (drop (Z.to_nat off) (db_p b)). split; [done|]. split; [done|].
  assert (dirent_bytes dirent_size add_dirent 0 (entry_word <$> es) =
    dirent_bytes dirent_size add_dirent 0 (entry_word <$> take k es) ++
    dirent_bytes dirent_size add_dirent off (entry_word <$> drop k es)) as Eb.
  { rewrite <- (take_drop k es) at 1. by rewrite fmap_app, dirent_bytes_app. }
  rewrite Ep. cbn [db_p db_size app]. rewrite Eb, drop_app_length'.
  2: { pose proof (length_dirent_bytes dirent_size add_dirent dirent_length 0 (entry_word <$> take k es)). unfold off. lia. }
  pose proof (kernel_list_entries (drop k es) 0 [] off) as Hk. rewrite Nat.add_0_r, !app_nil_r in Hk.
  apply Hk; [by apply Forall_drop|by apply Forall_drop|done|lia].
Qed.
End listing.


(** ** Numbers and modes *)

(** The mode says what the number says. *)
Definition kind_ok (st : stat) : Prop :=
  Z.land (st_mode st) S_IFMT = if isfile (st_ino st) then S_IFREG else S_IFDIR.
Definition entry_kind (e : fuse_entry_param) : Prop :=
  kind_ok (e_attr e) ∧ e_ino e = u32 (st_ino (e_attr e)).

(** The replies a handler may send. *)
Definition reply_kind (op : fuse_op) (r : fuse_reply) : Prop :=
  match op, r with
  | _, ReplyErr _ => True
  | FGetattr ino, ReplyAttr st | FSetattr ino _ _, ReplyAttr st => st_ino st = ino ∧ kind_ok st
  | FCreate _ _ _ _, ReplyCreate e | FMknod _ _ _ _, ReplyEntry e => entry_kind e ∧ isfile (e_ino e) = true
  | FMkdir _ _ _ _, ReplyEntry e => entry_kind e ∧ isdir (e_ino e) = true
  | FLookup e0 _ _ _, ReplyEntry e => entry_kind e ∨ e_ino e = e_ino e0 ∧ e_attr e = e_attr e0
  | FRead _ _ _, ReplyBuf _ | FReaddir _ _ _ _, ReplyBuf _ | FWrite _ _ _ _, ReplyWrite _
  | FOpen _, ReplyOpen | FStatfs, ReplyStatfs _ _ => True
  | _, _ => False
  end.

Lemma isfile_u32 x : isfile (u32 x) = isfile x.
Proof. rewrite !isfile_bit. unfold u32. by rewrite Z.mod_pow2_bits_low by lia. Qed.

Section kinds.
Context {W : Type} (net : extent_net W) (junk : attr) (now : Z).
Context (dirent_size : Z → Z) (add_dirent : string → Z → Z → list ascii).

Lemma getattr_kind inum y st y' :
  getattr net junk inum y = Ret (yfs_status.OK, st, y') → st_ino st = inum ∧ kind_ok st.
Proof.
  unfold getattr, kind_ok. destruct (isfile inum) eqn:E; intros ([[ret info] y1] & _ & H)%rbind_Ret;
    destruct (Z.eqb_spec ret yfs_status.OK) as [->|Hne]; cbn [negb] in H; simplify_eq; try done;
    cbn; by rewrite E.
Qed.

Lemma createfile_inum rnd d b name y ret inum y' :
  createfile net junk now rnd d b name y = Ret (ret, inum, y') → inum = new_inum rnd b.
Proof.
  unfold createfile, with_lock. intros ([[r1 i1] y1] & H & [= _ <- _])%rbind_Ret. revert H.
  intros ([[r2 i2] y2] & H & [= _ <- _])%rbind_Ret. revert H.
  destruct (y_get _ _ _ _ _ _) as [[? ?] ?]. destruct (negb _); [by intros [= _ <- _]|].
  destruct (negb _); [by intros [= _ <- _]|]. destruct (y_put _ _ _ _). destruct (negb _); [by intros [= _ <- _]|].
  destruct (y_put _ _ _ _). destruct (negb _); by intros [= _ <- _].
Qed.

Lemma createhelper_kind b rnd parent name e y e' y' :
  createhelper net junk now b rnd parent name e y = Ret (yfs_status.OK, e', y') →
  entry_kind e' ∧ isfile (e_ino e') = b.
Proof.
  unfold createhelper. intros ([[ret inum] y1] & ->%createfile_inum & H)%rbind_Ret.
  destruct (Z.eqb_spec ret yfs_status.OK) as [->|Hne]; cbn [negb] in H; [|by injection H as -> _ _].
  apply rbind_Ret in H as ([[ret' st] y2] & Hg & H).
  destruct (Z.eqb_spec ret' yfs_status.OK) as [->|Hne]; cbn [negb] in H; [|done].
  injection H as <- _. apply getattr_kind in Hg as [Ei Hk].
  split; [split; [done|cbn; by rewrite Ei]|]. cbn. by rewrite isfile_u32, isfile_new.
Qed.

(** [one_reply r]: the reply just logged is [r]. *)
Ltac one_reply := eexists; split; [reflexivity|].

(** C36: replies are of the right kind.  Whatever the network does, every
    handler that returns has sent one reply, an error or the kind of reply its
    request calls for; in every reply with attributes the mode says "regular
    file" exactly when the number is that of a file; what [create] and
    [mknod] make is a file and what [mkdir] makes is a directory.  The one
    exception is [lookup], whose entry may be the one it was given. *)
Theorem replies_have_kind op req f f' :
  fuseserver_oper net junk now dirent_size add_dirent req op f = Ret f' →
  ∃ r, f_replies f' = f_replies f ++ [(req, r)] ∧ reply_kind op r.
Proof.
  destruct op as [ino| |fill ino size off|e inum parent name|rnd e parent name|rnd e parent name|ino
    |ino size off|ino buf size off|ino attr_size to_set|parent name|rnd e parent name]; cbn [fuseserver_oper].
  - intros ([[ret st] y] & Hg & H)%rbind_Ret.
    destruct (Z.eqb_spec ret yfs_status.OK) as [->|]; cbn [negb] in H; injection H as <-; one_reply; [|done].
    by eapply getattr_kind.
  - intros [= <-]. by one_reply.
  - unfold fuseserver_readdir. destruct (negb _); [intros [= <-]; by one_reply|].
    intros ([[ret buf] y] & _ & H)%rbind_Ret. destruct (negb _); [injection H as <-; by one_reply|].
    apply rbind_Ret in H as (b & _ & (l & _ & [= <-])%rbind_Ret). by one_reply.
  - intros ([[ret i] y] & _ & H)%rbind_Ret. apply rbind_Ret in H as ([[found e'] y'] & H & H').
    destruct (ret =? yfs_status.EXIST); [|injection H as <- _ _; injection H' as <-; by one_reply].
    apply rbind_Ret in H as ([[ret' st] y1] & Hg & H).
    destruct (Z.eqb_spec ret' yfs_status.OK) as [->|]; injection H as <- <- <-; injection H' as <-; one_reply.
    + apply getattr_kind in Hg as [Ei Hk]. left. split; [done|]. cbn. by rewrite Ei.
    + right. done.
  - intros ([[ret e'] y] & Hc & H)%rbind_Ret.
    destruct (Z.eqb_spec ret yfs_status.OK) as [->|]; injection H as <-; one_reply; [by eapply createhelper_kind|].
    unfold create_error. by destruct (ret =? _).
  - intros ([[ret e'] y] & Hc & H)%rbind_Ret.
    destruct (Z.eqb_spec ret yfs_status.OK) as [->|]; injection H as <-; one_reply; [by eapply createhelper_kind|].
    unfold create_error. by destruct (ret =? _).
  - intros [= <-]. by one_reply.
  - intros ([[ret buf] y] & _ & H)%rbind_Ret. destruct (negb _); injection H as <-; by one_reply.
  - intros ([ret y] & _ & ([] & _ & [= <-])%rbind_Ret)%rbind_Ret. destruct (negb _); by one_reply.
  - unfold fuseserver_setattr. destruct (negb _); [|intros [= <-]; by one_reply].
    intros ([ret y] & _ & H)%rbind_Ret. destruct (negb _); [injection H as <-; by one_reply|].
    apply rbind_Ret in H as ([[ret' st] y1] & Hg & H).
    destruct (Z.eqb_spec ret' yfs_status.OK) as [->|]; cbn [negb] in H; injection H as <-; one_reply; [|done].
    by eapply getattr_kind.
  - intros ([ret y] & _ & H)%rbind_Ret. destruct (negb _); injection H as <-; by one_reply.
  - intros ([[ret e'] y] & Hc & H)%rbind_Ret.
    destruct (Z.eqb_spec ret yfs_status.OK) as [->|]; injection H as <-; one_reply.
    + apply createhelper_kind in Hc as [? Hf]. split; [done|]. unfold isdir. by rewrite Hf.
    + unfold create_error. by destruct (ret =? _).
Qed.

(** A write that fails is reported as one that wrote [ENOENT] bytes. *)
Theorem failed_write_reports_bytes req ino buf size off f ret y :
  write net junk now ino size off buf (f_yfs f) = Ret (ret, y) → ret ≠ yfs_status.OK → "000"%char ∈ chars buf →
  fuseserver_write net junk now req ino buf size off f = Ret (reply req (ReplyWrite 2) (with_yfs y f)).
Proof.
  intros E Hr Hn. unfold fuseserver_write, print_chars. rewrite E, bool_decide_eq_true_2 by done. cbn [rbind].
  by replace (ret =? yfs_status.OK) with false by lia.
Qed.

(** A name that is found but whose attributes cannot be read is answered with
    whatever the entry structure held before. *)
Theorem lookup_replies_uninitialised e inum req parent name f i y st ret y' :
  lookupfile net junk now parent name inum (f_yfs f) = Ret (yfs_status.EXIST, i, y) →
  getattr net junk i y = Ret (ret, st, y') → ret ≠ yfs_status.OK →
  fuseserver_lookup net junk now e inum req parent name f =
    Ret (reply req (ReplyEntry (EntryParam (e_ino e) 0 (e_attr e))) (with_yfs y' f)).
Proof.
  intros E Eg Hr. unfold fuseserver_lookup. rewrite E. cbn [rbind].
  change (yfs_status.EXIST =? yfs_status.EXIST) with true. cbv iota. rewrite Eg. cbn [rbind].
  by replace (ret =? yfs_status.OK) with false by lia.
Qed.
End kinds.

(** ** A file that was created is found *)

Lemma getattr_ok junk jnk now inum y d :
  y_inv y → view_of y !! inum = Some d →
  ∃ st y', getattr (server_net jnk now) junk inum y = Ret (yfs_status.OK, st, y') ∧ y_inv y' ∧
    view_of y' = view_of y ∧ st_ino st = inum ∧ (isfile inum = true → st_size st = length_u32 d).
Proof.
  intros Hi Hv. unfold getattr, getfile, getdir, with_lock, y_getattr. cbn [y_ec y_world log].
  pose proof (ec_getattr_refines junk jnk now inum _ _ Hi) as Hg. unfold view_of in Hv. rewrite Hv in Hg.
  destruct Hg as (a & c' & E & Hsz & Hi' & Hv'). rewrite E.
  change (negb (extent_protocol.OK =? extent_protocol.OK)) with false. cbn [rbind].
  destruct (isfile inum); change (negb (yfs_status.OK =? yfs_status.OK)) with false; cbv iota;
    do 2 eexists; (split; [reflexivity|]); done.
Qed.

(** A file created through FUSE is found through FUSE.  In a directory
    that lists [es], [create] of a new name replies with the number of an
    empty regular file, and a [lookup] of the name after it replies with an
    entry for that number. *)
Theorem create_then_lookup junk jnk now rnd e0 e1 i0 r1 r2 parent name f content es :
  y_inv (f_yfs f) → view_of (f_yfs f) !! parent = Some content → dir_text content es → valid_name name →
  0 ≤ rnd < 2 ^ 31 → new_inum rnd true ≠ parent → find_entry name es = None →
  ∃ f1 f2 e e',
    fuseserver_create (server_net jnk now) junk now rnd e0 r1 parent name f = Ret f1 ∧
    f_replies f1 = f_replies f ++ [(r1, ReplyCreate e)] ∧ e_ino e = new_inum rnd true ∧ st_size (e_attr e) = 0 ∧
    fuseserver_lookup (server_net jnk now) junk now e1 i0 r2 parent name f1 = Ret f2 ∧
    f_replies f2 = f_replies f1 ++ [(r2, ReplyEntry e')] ∧ e_ino e' = e_ino e ∧ st_size (e_attr e') = 0.
Proof.
  intros Hi Hv Hd Hn Hr Hne Hf.
  pose proof (createfile_ok junk jnk now rnd parent true name (f_yfs f) content es Hi Hv Hd Hn Hr) as Hc.
  rewrite Hf in Hc. destruct Hc as (y1 & E1 & Hi1 & Hv1 & Hd1). set (i := new_inum rnd true) in *.
  assert (isfile i = true) as Hfile by apply isfile_new.
  assert (u32 i = i) as Eu by (by apply u32_id, new_inum_u32).
  destruct (getattr_ok junk jnk now i y1 "") as (st & y2 & E2 & Hi2 & Hv2 & Eino & Esz); [done|by rewrite Hv1, lookup_insert_eq|].
  edestruct (lookupfile_ok junk jnk now parent name i0 y2) as (y3 & E3 & Hi3 & Hv3); [done| |exact Hd1|done|].
  { by rewrite Hv2, Hv1, lookup_insert_ne, lookup_insert_eq. }
  rewrite find_entry_app, Hf in E3. cbn [find_entry fst snd] in E3. rewrite bool_decide_eq_true_2 in E3 by done.
  destruct (getattr_ok junk jnk now i y3 "") as (st' & y4 & E4 & _ & _ & Eino' & Esz');
    [done|by rewrite Hv3, Hv2, Hv1, lookup_insert_eq|].
  exists (reply r1 (ReplyCreate (EntryParam i 0 st)) (with_yfs y2 f)), 
    (reply r2 (ReplyEntry (EntryParam i 0 st')) (with_yfs y4 (reply r1 (ReplyCreate (EntryParam i 0 st)) (with_yfs y2 f)))),
    (EntryParam i 0 st), (EntryParam i 0 st').
  split_and!; try done; [|by apply Esz| |by apply Esz'].
  - unfold fuseserver_create, fuseserver_createhelper, createhelper. rewrite E1. cbn [rbind].
    change (negb (yfs_status.OK =? yfs_status.OK)) with false. cbv iota. rewrite E2. cbn [rbind].
    change (negb (yfs_status.OK =? yfs_status.OK)) with false. cbv iota. cbn [rbind].
    change (yfs_status.OK =? yfs_status.OK) with true. cbv iota. cbn [e_generation]. by rewrite Eu.
  - unfold fuseserver_lookup. cbn [f_yfs reply with_yfs]. rewrite E3. cbn [rbind].
    change (yfs_status.EXIST =? yfs_status.EXIST) with true. cbv iota. rewrite E4. cbn [rbind].
    change (yfs_status.OK =? yfs_status.OK) with true. cbv iota. cbn [rbind e_generation]. by rewrite Eu.
Qed.

(** ** Witnesses *)

(** A layout of entries: three numbers and the name. *)
Definition demo_dirent (name : string) (ino off : Z) : list ascii :=
  be32 ino ++ be32 off ++ be32 (string_size name) ++ chars name.
Definition demo_dirent_size (n : Z) : Z := 12 + n.
Definition demo_decode (l : list ascii) : option (Z * Z * string * list ascii) :=
  if bool_decide (length l < 12)%nat then None
  else
    let n := Z.to_nat (of_be (take 4 (drop 8 l))) in
    Some (of_be (take 4 l), of_be (take 4 (drop 4 l)), of_chars (take n (drop 12 l)), drop n (drop 12 l)).

Lemma demo_dirent_length name ino off :
  Z.of_nat (length (demo_dirent name ino off)) = demo_dirent_size (Z.of_nat (String.length name)).
Proof.
  unfold demo_dirent, demo_dirent_size. rewrite !length_app, !length_be32, length_chars. lia.
Qed.

Lemma demo_dirent_decodes name ino off rest : in_u32 ino → in_u32 off → string_size name ≤ 255 →
  demo_decode (demo_dirent name ino off ++ rest) = Some (ino, off, name, rest).
Proof.
  intros Hi Ho Hn. unfold demo_decode, demo_dirent.
  rewrite bool_decide_eq_false_2 by (rewrite !length_app, !length_be32; lia).
  set (l := _ ++ rest). assert (take 4 l = be32 ino) as -> by done.
  assert (take 4 (drop 4 l) = be32 off) as -> by done.
  assert (take 4 (drop 8 l) = be32 (string_size name)) as -> by done.
  assert (drop 12 l = chars name ++ rest) as -> by done.
  pose proof (string_size_nonneg name). rewrite !of_be_be32, !u32_id by (wrap_unfold; lia).
  rewrite string_size_chars, Nat2Z.id, take_app_length, drop_app_length, of_chars_chars. done.
Qed.

Definition demo_fuse : fuse extent_server := Fuse demo_dir_yfs [].

Lemma demo_dir_inv : y_inv demo_dir_yfs.
Proof.
  destruct (y_put_ok 100 1 demo_dir demo_yfs demo_yfs_inv) as (y' & E & Hi & _).
  unfold demo_dir_yfs. rewrite E. exact Hi.
Qed.


Lemma demo_entries_small : Forall (λ e : entry, in_u32 e.1 ∧ string_size e.2 ≤ 255) [(2147483649, "notes"); (5, "notes")].
Proof. repeat constructor; cbn; wrap_unfold; vm_compute; done. Qed.

Lemma readdir_lists_witness : ∃ f' page,
  fuseserver_readdir (server_net 5 100) (Attr 9 9 9 9) 100 demo_dirent_size demo_dirent "x" 7 1 4096 17 demo_fuse = Ret f' ∧
  f_replies f' = [(7%nat, ReplyBuf (take (Z.to_nat 4096) page))] ∧
  kernel_list demo_decode 1 page = [(5, 34, "notes")].
Proof.
  apply (readdir_lists (Attr 9 9 9 9) 5 100 demo_dirent_size demo_dirent demo_decode demo_dirent_length
    demo_dirent_decodes "x" 7 1 4096 demo_fuse demo_dir [(2147483649, "notes"); (5, "notes")] 1).
  - exact demo_dir_inv.
  - reflexivity.
  - exact demo_dir_text.
  - reflexivity.
  - exact demo_entries_small.
  - vm_compute. reflexivity.
Defined.

Lemma replies_have_kind_witness : ∃ f' r,
  fuseserver_oper (server_net 5 100) (Attr 9 9 9 9) 100 demo_dirent_size demo_dirent 7 (FGetattr 1) demo_fuse = Ret f' ∧
  f_replies f' = [(7%nat, r)] ∧ reply_kind (FGetattr 1) r.
Proof.
  destruct (fuseserver_oper (server_net 5 100) (Attr 9 9 9 9) 100 demo_dirent_size demo_dirent 7 (FGetattr 1) demo_fuse)
    as [f'|] eqn:E; [|vm_compute in E; discriminate].
  exists f'. destruct (replies_have_kind (server_net 5 100) (Attr 9 9 9 9) 100 demo_dirent_size demo_dirent
    (FGetattr 1) 7 demo_fuse f' E) as (r & E' & Hk).
  exists r. split; [reflexivity|]. split; [exact E'|exact Hk].
Defined.

Lemma create_then_lookup_witness : ∃ f1 f2 e e',
  fuseserver_create (server_net 5 100) (Attr 9 9 9 9) 100 1234 (EntryParam 0 0 (Stat 0 0 0 0 0 0 0)) 1 1 "new"
    (Fuse demo_yfs []) = Ret f1 ∧
  f_replies f1 = [(1%nat, ReplyCreate e)] ∧ e_ino e = new_inum 1234 true ∧ st_size (e_attr e) = 0 ∧
  fuseserver_lookup (server_net 5 100) (Attr 9 9 9 9) 100 (EntryParam 0 0 (Stat 0 0 0 0 0 0 0)) 0 2 1 "new" f1 = Ret f2 ∧
  f_replies f2 = f_replies f1 ++ [(2%nat, ReplyEntry e')] ∧ e_ino e' = e_ino e ∧ st_size (e_attr e') = 0.
Proof.
  apply (create_then_lookup (Attr 9 9 9 9) 5 100 1234 _ _ 0 1 2 1 "new" (Fuse demo_yfs []) "" []);
    [apply demo_yfs_inv|reflexivity|split; [done|reflexivity]| |lia|vm_compute; lia|reflexivity].
  split; [|set_solver]. split; [done|]. repeat constructor.
Defined.
