(* ===== verification/FuseSpec.v ===== *)
(** * The file system the kernel sees (fuse.cc)

    The callbacks of fuse.cc on top of one [yfs_client] answer the requests of
    the kernel as the abstract file system of YfsSpec.v does: the handlers of
    Fuse.v, with the client, its cache and the extent server below, refine a
    specification that has files, directories and attributes only. *)

From stdpp Require Import strings.
From S2P Require Import Prelude Marshall Protocols Streams Extent Yfs YfsSpec Fuse.

(** ** The specification *)

(** Attributes without the times. *)
Record astat := AStat { a_ino : Z; a_mode : Z; a_nlink : Z; a_size : Z }.

Inductive areply :=
| AErr (errno : Z)
| AAttr (a : astat)
| ABuf (l : list ascii)
| AListing (names : gmap string Z)
| AWrite (n : Z)
| AEntry (ino : Z) (a : astat)
| ACreate (ino : Z) (a : astat)
| AOpen
| AStatfs (namemax bsize : Z).

Definition node_attr (ino : Z) (n : node) : astat :=
  match n with
  | File b => AStat ino (Z.lor S_IFREG 438) 1 (Z.of_nat (length b))
  | Dir _ => AStat ino (Z.lor S_IFDIR 511) 2 0
  end.

(** The change a request asks for, if any. *)
Definition effect (op : fuse_op) : option yfs_op :=
  match op with
  | FCreate rnd _ parent name | FMknod rnd _ parent name => Some (OpCreate rnd parent true name)
  | FMkdir rnd _ parent name => Some (OpCreate rnd parent false name)
  | FWrite ino buf size off => Some (OpWrite ino size off buf)
  | FSetattr ino size to_set => if Z.land FUSE_SET_ATTR_SIZE to_set =? 0 then None else Some (OpSetSize ino size)
  | FUnlink parent name => Some (OpUnlink parent name)
  | _ => None
  end.

Definition after (op : fuse_op) (fs : afs) : afs :=
  match effect op with Some o => (afs_step o fs).2 | None => fs end.

(** The reply to a creation: [ok] makes it of the new number and its
    attributes. *)
Definition created (ok : Z → astat → areply) (rnd : Z) (f : bool) (parent : Z) (name : string) (fs : afs) : areply :=
  match fs !! parent with
  | Some (Dir m) =>
      match m !! name with
      | Some _ => AErr EEXIST
      | None => let i := new_inum rnd f in ok i (node_attr i (if f then File [] else Dir ∅))
      end
  | _ => AErr ENOENT
  end.

Definition answer (op : fuse_op) (fs : afs) : areply :=
  match op with
  | FGetattr ino => match fs !! ino with Some n => AAttr (node_attr ino n) | None => AErr ENOENT end
  | FStatfs => AStatfs 255 512
  | FReaddir _ ino _ _ =>
      if isdir ino then match fs !! ino with Some (Dir m) => AListing m | _ => AErr ENOENT end else AErr ENOTDIR
  | FLookup _ _ parent name =>
      match fs !! parent with
      | Some (Dir m) =>
          match m !! name with
          | Some i => match fs !! i with Some n => AEntry i (node_attr i n) | None => AErr ENOENT end
          | None => AErr ENOENT
          end
      | _ => AErr ENOENT
      end
  | FCreate rnd _ parent name => created ACreate rnd true parent name fs
  | FMknod rnd _ parent name => created AEntry rnd true parent name fs
  | FMkdir rnd _ parent name => created AEntry rnd false parent name fs
  | FOpen _ => AOpen
  | FRead ino size off =>
      match fs !! ino with
      | Some (File b) => ABuf (take (Z.to_nat size) (drop (Z.to_nat off) b))
      | _ => AErr ENOENT
      end
  | FWrite ino _ size _ => match fs !! ino with Some (File _) => AWrite size | _ => AErr ENOENT end
  | FSetattr ino size to_set =>
      if Z.land FUSE_SET_ATTR_SIZE to_set =? 0 then AErr ENOSYS
      else match fs !! ino with
           | Some (File b) => AAttr (node_attr ino (File (resize b size)))
           | _ => AErr ENOENT
           end
  | FUnlink parent name =>
      match fs !! parent with
      | Some (Dir m) =>
          match m !! name with Some i => if isfile i then AErr 0 else AErr ENOENT | None => AErr ENOENT end
      | _ => AErr ENOENT
      end
  end.

Fixpoint answers (reqs : list (nat * fuse_op)) (fs : afs) : list areply * afs :=
  match reqs with
  | [] => ([], fs)
  | (_, op) :: reqs => let '(rs, fs') := answers reqs (after op fs) in (answer op fs :: rs, fs')
  end.

(** ** Requests of the kernel *)

Section kernel.
Context (dirent_size : Z → Z) (add_dirent : string → Z → Z → list ascii).
Context (decode : list ascii → option (Z * Z * string * list ascii)).

(** The bytes a listing takes. *)
Definition listing_size (m : gmap string Z) : Z :=
  dirents_size dirent_size (entry_word <$> (prod_swap <$> map_to_list m)).

(** Directories are listed from their beginning, into a buffer with room for
    all entries; names have at most 255 bytes; only files that exist are
    written (a failed write is answered with a count of bytes,
    [failed_write_reports_bytes]), and there is a null byte in the memory from
    the data on, which the handler prints as a string. *)
Definition fuse_legal (op : fuse_op) (fs : afs) : Prop :=
  (match effect op with Some o => legal o fs | None => True end) ∧
  match op with
  | FReaddir _ ino size off =>
      off = 0 ∧
      match fs !! ino with Some (Dir m) => listing_size m ≤ size ∧ listing_size m < 2 ^ 32 | _ => True end
  | FLookup _ _ parent name => legal (OpLookup parent name) fs
  | FRead ino size off => legal (OpRead ino size off) fs
  | FWrite ino buf _ _ => is_Some (fs !! ino) ∧ "000"%char ∈ chars buf
  | FCreate _ _ _ name | FMknod _ _ _ name | FMkdir _ _ _ name => string_size name ≤ 255
  | _ => True
  end.

Fixpoint requests_legal (reqs : list (nat * fuse_op)) (fs : afs) : Prop :=
  match reqs with
  | [] => True
  | (_, op) :: reqs => fuse_legal op fs ∧ requests_legal reqs (after op fs)
  end.

(** What the kernel makes of a reply: the times are dropped and the buffer of
    a directory is read entry by entry. *)
Definition see_stat (st : stat) : astat := AStat (st_ino st) (st_mode st) (st_nlink st) (st_size st).

Definition see (op : fuse_op) (r : fuse_reply) : areply :=
  match r with
  | ReplyErr errno => AErr errno
  | ReplyAttr st => AAttr (see_stat st)
  | ReplyBuf b =>
      match op with
      | FReaddir _ _ _ _ => AListing (list_to_map ((λ '(ino, _, name), (name, ino)) <$> kernel_list decode (length b) b))
      | _ => ABuf b
      end
  | ReplyWrite n => AWrite n
  | ReplyEntry e => AEntry (e_ino e) (see_stat (e_attr e))
  | ReplyCreate e => ACreate (e_ino e) (see_stat (e_attr e))
  | ReplyOpen => AOpen
  | ReplyStatfs namemax bsize => AStatfs namemax bsize
  end.

(** The request is answered, and as [a] says. *)
Definition answered (q : nat * fuse_op) (r : nat * fuse_reply) (a : areply) : Prop := r.1 = q.1 ∧ see q.2 r.2 = a.

Fixpoint serve {W} (net : extent_net W) (junk : attr) (now : Z) (reqs : list (nat * fuse_op)) (f : fuse W) : res (fuse W) :=
  match reqs with
  | [] => Ret f
  | (req, op) :: reqs =>
      f ← fuseserver_oper net junk now dirent_size add_dirent req op f;
      serve net junk now reqs f
  end.
End kernel.

(** ** Names and numbers are small *)

Definition small (fs : afs) : Prop := ∀ d n i, names fs d n i → string_size n ≤ 255 ∧ in_u32 i.

Lemma effect_kernel op o : effect op = Some o → kernel_op o.
Proof. destruct op; cbn; try (by destruct (_ =? 0); [|intros [= <-]]); by intros [= <-]. Qed.

Lemma tree_after size op fs : tree fs → fuse_legal size op fs → tree (after op fs).
Proof.
  intros Ht [Hl _]. unfold after. destruct (effect op) as [o|] eqn:E; [|done].
  by apply tree_step; [..|eapply effect_kernel].
Qed.

Lemma small_after size op fs : tree fs → small fs → fuse_legal size op fs → small (after op fs).
Proof.
  intros Ht Hs [Hl Ho]. unfold after.
  assert (Hc : ∀ rnd d f name, effect op = Some (OpCreate rnd d f name) → string_size name ≤ 255).
  { intros ???? E. destruct op; cbn in E; try (by destruct (_ =? 0)); naive_solver. }
  pose proof (effect_kernel op) as Hk. destruct (effect op) as [o|]; [|done]. specialize (Hk o eq_refl).
  destruct o as [| |rnd d f name| | | |i z| |i z off buf|p name]; cbn [afs_step snd]; try done.
  - destruct Hl as (Hr & _ & _ & Hf). specialize (Hc _ _ _ _ eq_refl).
    destruct (fs !! d) as [[|m]|] eqn:Ed; [done| |done]. destruct (m !! name) eqn:Em; [done|].
    intros d' n i Hn. apply (names_create fs d m name _ _ Ed Em Hf) in Hn as [(_ & -> & ->)|Hn];
      [split; [done|by apply new_inum_u32]|by eapply Hs|destruct f; auto].
  - destruct (fs !! i) as [[b|]|] eqn:Ei; [|done..]. intros d n j Hn%(names_file _ _ _ _ _ _ _ Ei). by eapply Hs.
  - destruct (fs !! i) as [[b|]|] eqn:Ei; [|done..]. intros d n j Hn%(names_file _ _ _ _ _ _ _ Ei). by eapply Hs.
  - destruct (fs !! p) as [[|m]|] eqn:Ep; [done| |done]. destruct (m !! name) as [i|] eqn:Em; [|done].
    destruct (isfile i) eqn:Ei; [|done]. intros d n j [Hn _]%(names_unlink fs p m name i Ht Ep Em Ei). by eapply Hs.
Qed.

(** ** The handlers implement the specification *)

Section refinement.
Context (junk : attr) (jnk now : Z).
Context (dirent_size : Z → Z) (add_dirent : string → Z → Z → list ascii).
Context (decode : list ascii → option (Z * Z * string * list ascii)).
Hypothesis dirent_length : ∀ name ino off,
  Z.of_nat (length (add_dirent name ino off)) = dirent_size (Z.of_nat (String.length name)).
Hypothesis dirent_decodes : ∀ name ino off rest, in_u32 ino → in_u32 off → string_size name ≤ 255 →
  decode (add_dirent name ino off ++ rest) = Some (ino, off, name, rest).
(** Nothing is read from an empty buffer. *)
Hypothesis decode_nil : decode [] = None.
Local Abbreviation net := (server_net jnk now).
Implicit Types (fs : afs) (y : yfs extent_server) (f : fuse extent_server).

(** [yfs op fs y Hs Hl]: what [observe_refines] says about [op]. *)
Ltac yfs_call op Hs Hl y1 E Hs1 :=
  let H := fresh in
  pose proof (observe_refines junk jnk now op _ _ Hs Hl) as H; destruct H as (y1 & E & Hs1);
  cbn [observe] in E; cbn [afs_step] in E, Hs1.

Lemma getattr_sim ino fs y :
  sim fs y → ∃ ret st y', getattr net junk ino y = Ret (ret, st, y') ∧ sim fs y' ∧
    match fs !! ino with
    | Some n => ret = yfs_status.OK ∧ see_stat st = node_attr ino n
    | None => ret ≠ yfs_status.OK
    end.
Proof.
  intros Hs. unfold getattr. destruct (isfile ino) eqn:Hf.
  - pose proof (rep_file fs y ino Hs Hf) as Hr.
    yfs_call (OpGetFile ino) Hs Hf y1 E Hs1. apply rbind_Ret in E as ([[ret info] y2] & E & Er). injection Er as Er ->.
    rewrite E. cbn [rbind]. destruct (fs !! ino) as [[b|m]|]; [|done|].
    + destruct (Z.eqb_spec ret yfs_status.OK) as [->|]; [|done]. cbn [negb]. injection Er as Er.
      do 3 eexists. split; [done|]. split; [done|]. split; [done|]. unfold see_stat. cbn. by rewrite Er.
    + destruct (Z.eqb_spec ret yfs_status.OK) as [->|]; [done|]. cbn [negb]. by do 3 eexists.
  - assert (Hd : isdir ino = true) by (unfold isdir; by rewrite Hf).
    pose proof (rep_dir fs y ino Hs Hd) as Hr.
    yfs_call (OpGetDir ino) Hs I y1 E Hs1. apply rbind_Ret in E as ([[ret info] y2] & E & Er). injection Er as Er ->.
    rewrite E. cbn [rbind]. destruct (fs !! ino) as [[b|m]|]; [done| |]; subst ret.
    + change (negb (yfs_status.OK =? yfs_status.OK)) with false. by do 3 eexists.
    + change (negb (yfs_status.IOERR =? yfs_status.OK)) with true. by do 3 eexists.
Qed.

(** The handler replies to [req] with what the specification says. *)
Definition handles (op : fuse_op) fs f : Prop :=
  ∀ req, ∃ f' r, fuseserver_oper net junk now dirent_size add_dirent req op f = Ret f' ∧
    f_replies f' = f_replies f ++ [(req, r)] ∧ see decode op r = answer op fs ∧ sim (after op fs) (f_yfs f').

Ltac answer := do 2 eexists; split; [reflexivity|]; split; [reflexivity|].

Lemma getattr_handles ino fs f : sim fs (f_yfs f) → handles (FGetattr ino) fs f.
Proof.
  intros Hs req. cbn [fuseserver_oper answer]. unfold fuseserver_getattr.
  destruct (getattr_sim ino fs _ Hs) as (ret & st & y1 & -> & Hs1 & Hr). cbn [rbind].
  destruct (fs !! ino) as [n|].
  - destruct Hr as [-> Hst]. change (negb (yfs_status.OK =? yfs_status.OK)) with false. answer. cbn [see]. by rewrite Hst.
  - apply Z.eqb_neq in Hr. rewrite Hr. answer. done.
Qed.

Lemma setattr_handles ino size to_set fs f :
  sim fs (f_yfs f) → fuse_legal dirent_size (FSetattr ino size to_set) fs → handles (FSetattr ino size to_set) fs f.
Proof.
  intros Hs [Hl _] req. unfold after in *. cbn [fuseserver_oper answer effect afs_step] in *. unfold fuseserver_setattr.
  destruct (_ =? 0); cbn [negb afs_step]; [answer; done|]. pose proof Hl as (Hf & Hz & _). rewrite u32_id by (wrap_unfold; lia).
  yfs_call (OpSetSize ino size) Hs Hl y1 E Hs1. apply rbind_Ret in E as ([ret y2] & E & Er). injection Er as Er ->.
  rewrite E. cbn [rbind]. pose proof (rep_file fs _ ino Hs Hf) as Hr.
  destruct (fs !! ino) as [[b|m]|] eqn:Ei; [|done|]; cbn [fst] in Er; injection Er as ->.
  - change (negb (yfs_status.OK =? yfs_status.OK)) with false. cbv iota.
    destruct (getattr_sim ino _ y1 Hs1) as (ret & st & y3 & -> & Hs3 & Hr3). cbn [rbind snd] in *.
    rewrite lookup_insert_eq in Hr3. destruct Hr3 as [-> Hst].
    change (negb (yfs_status.OK =? yfs_status.OK)) with false. answer. cbn [see]. by rewrite Hst.
  - change (negb (yfs_status.NOENT =? yfs_status.OK)) with true. answer. done.
Qed.

Lemma read_handles ino size off fs f :
  sim fs (f_yfs f) → fuse_legal dirent_size (FRead ino size off) fs → handles (FRead ino size off) fs f.
Proof.
  intros Hs [_ Hl] req. cbn [fuseserver_oper answer]. unfold fuseserver_read.
  yfs_call (OpRead ino size off) Hs Hl y1 E Hs1. apply rbind_Ret in E as ([[ret buf] y2] & E & Er). injection Er as Er ->.
  rewrite E. cbn [rbind]. pose proof (rep_file fs _ ino Hs (proj1 Hl)) as Hr.
  destruct (fs !! ino) as [[b|m]|]; [|done|]; destruct (ret =? yfs_status.OK); try done; cbn [negb];
    injection Er as Er; answer; cbn [see]; by rewrite ?Er.
Qed.

Lemma write_handles ino buf size off fs f :
  sim fs (f_yfs f) → fuse_legal dirent_size (FWrite ino buf size off) fs → handles (FWrite ino buf size off) fs f.
Proof.
  intros Hs [Hl [Hex Hz]] req. unfold after. cbn [fuseserver_oper answer effect afs_step] in *. unfold fuseserver_write.
  yfs_call (OpWrite ino size off buf) Hs Hl y1 E Hs1. apply rbind_Ret in E as ([ret y2] & E & Er). injection Er as Er ->.
  rewrite E. cbn [rbind]. unfold print_chars. rewrite bool_decide_eq_true_2 by done. cbn [rbind].
  pose proof (rep_file fs _ ino Hs (proj1 Hl)) as Hr.
  destruct (fs !! ino) as [[b|m]|]; [|done|by destruct Hex].
  cbn [fst snd] in *. injection Er as ->. answer. done.
Qed.

Lemma unlink_handles parent name fs f :
  sim fs (f_yfs f) → fuse_legal dirent_size (FUnlink parent name) fs → handles (FUnlink parent name) fs f.
Proof.
  intros Hs [Hl _] req. unfold after. cbn [fuseserver_oper answer effect afs_step] in *. unfold fuseserver_unlink.
  yfs_call (OpUnlink parent name) Hs Hl y1 E Hs1. apply rbind_Ret in E as ([ret y2] & E & Er). injection Er as Er ->.
  rewrite E. cbn [rbind].
  destruct (fs !! parent) as [[b|m]|]; [|destruct (m !! name) as [i|]; [destruct (isfile i)|]|];
    cbn [fst snd] in *; injection Er as ->; answer; done.
Qed.

(** What the variable held before shows only in the number that is not read. *)
Lemma lookup_words_inum files name i0 :
  lookup_words files name i0 =
    let '(st, i) := lookup_words files name 0 in (st, if st =? yfs_status.EXIST then i else i0).
Proof.
  induction files as [|file files IH]; cbn [lookup_words]; [done|].
  destruct (parse_entry file). by destruct (bool_decide _).
Qed.

Lemma lookupfile_inum d name i0 y st i y' :
  lookupfile net junk now d name 0 y = Ret (st, i, y') →
  lookupfile net junk now d name i0 y = Ret (st, if st =? yfs_status.EXIST then i else i0, y').
Proof.
  unfold lookupfile, with_lock. destruct (y_get _ _ _ _ _ _) as [[ret c] y1].
  destruct (negb _); [by intros [= <- <- <-]|]. unfold lookupfile_content. rewrite (lookup_words_inum _ _ i0).
  destruct (lookup_words _ name 0) as [st' i']. by intros [= <- <- <-].
Qed.

Lemma lookup_handles e i0 parent name fs f :
  tree fs → small fs → sim fs (f_yfs f) → fuse_legal dirent_size (FLookup e i0 parent name) fs →
  handles (FLookup e i0 parent name) fs f.
Proof.
  intros Ht Hsm Hs [_ Hl] req. cbn [fuseserver_oper answer]. unfold fuseserver_lookup.
  yfs_call (OpLookup parent name) Hs Hl y1 E Hs1. apply rbind_Ret in E as ([[ret i] y2] & E & Er). injection Er as Er ->.
  rewrite (lookupfile_inum _ _ _ _ _ _ _ E). cbn [rbind snd] in *. pose proof (rep_dir fs _ parent Hs (proj1 Hl)) as Hr.
  destruct (fs !! parent) as [[b|m]|] eqn:Ep; [done| |].
  - destruct (m !! name) as [j|] eqn:Em; injection Er as -> ->; [|answer; done].
    change (yfs_status.EXIST =? yfs_status.EXIST) with true. cbv iota.
    assert (Hj : names fs parent name j) by (by exists m). destruct (tree_named _ Ht _ _ _ Hj) as [[n Hn] _].
    destruct (getattr_sim j fs y1 Hs1) as (ret & st & y3 & -> & Hs3 & Hr3). cbn [rbind]. rewrite Hn in *.
    destruct Hr3 as [-> Hst]. change (yfs_status.OK =? yfs_status.OK) with true. cbn [rbind].
    answer. cbn [see e_ino e_attr]. rewrite Hst, u32_id; [done|]. by eapply Hsm.
  - injection Er as -> ->. answer. done.
Qed.

(** The three handlers that create something. *)
Lemma createhelper_sim b rnd parent name e fs y :
  sim fs y → legal (OpCreate rnd parent b name) fs →
  ∃ ret e' y', createhelper net junk now b rnd parent name e y = Ret (ret, e', y') ∧
    sim (afs_step (OpCreate rnd parent b name) fs).2 y' ∧
    ∀ (reply : fuse_entry_param → fuse_reply) ok op,
      (∀ e, see decode op (reply e) = ok (e_ino e) (see_stat (e_attr e))) →
      see decode op (if ret =? yfs_status.OK then reply e' else create_error ret) = created ok rnd b parent name fs.
Proof.
  intros Hs Hl. unfold createhelper, created.
  yfs_call (OpCreate rnd parent b name) Hs Hl y1 E Hs1. apply rbind_Ret in E as ([[ret i] y2] & E & Er). injection Er as Er ->.
  rewrite E. cbn [rbind afs_step]. destruct (fs !! parent) as [[?|m]|] eqn:Ep; [|destruct (m !! name) as [j|] eqn:Em|];
    cbn [fst snd] in *; injection Er as -> ->.
  1,2,4: do 3 eexists; (split; [reflexivity|]); (split; [done|]); intros; reflexivity.
  change (negb (yfs_status.OK =? yfs_status.OK)) with false. cbv iota.
  destruct (getattr_sim (new_inum rnd b) _ y1 Hs1) as (ret & st & y3 & -> & Hs3 & Hr3). cbn [rbind].
  rewrite lookup_insert_eq in Hr3. destruct Hr3 as [-> Hst]. change (negb (yfs_status.OK =? yfs_status.OK)) with false. cbv iota.
  do 3 eexists. split; [reflexivity|]. split; [done|]. intros reply ok op Hok.
  change (yfs_status.OK =? yfs_status.OK) with true. cbv iota. rewrite Hok. cbn [e_ino e_attr].
  rewrite Hst, u32_id; [done|]. apply new_inum_u32, Hl.
Qed.

Lemma create_handles op rnd b parent name fs f :
  sim fs (f_yfs f) → fuse_legal dirent_size op fs → effect op = Some (OpCreate rnd parent b name) → handles op fs f.
Proof.
  intros Hs [Hl _] Eo req. rewrite Eo in Hl. unfold after. rewrite Eo.
  pose proof (λ e, createhelper_sim b rnd parent name e fs _ Hs Hl) as He.
  destruct op; cbn [effect] in Eo; try (by destruct (_ =? 0)); try discriminate; injection Eo as -> -> <- ->;
    cbn [fuseserver_oper answer];
    [unfold fuseserver_create|unfold fuseserver_mknod|unfold fuseserver_mkdir];
    unfold fuseserver_createhelper, fuseserver_createdirhelper;
    destruct (He e) as (ret & e' & y' & -> & Hs' & Hr); cbn [rbind];
    [rewrite <- (Hr ReplyCreate _ (FCreate rnd e parent name))|rewrite <- (Hr ReplyEntry _ (FMknod rnd e parent name))
    |rewrite <- (Hr ReplyEntry _ (FMkdir rnd e parent name))]; try done;
    destruct (ret =? yfs_status.OK); answer; done.
Qed.

(** The entries of a directory in any order take the same room. *)
Lemma dirents_size_perm l l' : l ≡ₚ l' → dirents_size dirent_size l = dirents_size dirent_size l'.
Proof. induction 1; cbn [dirents_size]; lia. Qed.

Lemma swap_swap (es : list entry) : prod_swap <$> (prod_swap <$> es) = es.
Proof. rewrite <- list_fmap_compose. rewrite (list_fmap_ext _ id); [by rewrite list_fmap_id|]. by intros ? []. Qed.

Lemma listing_size_entries es :
  NoDup es.*2 → listing_size dirent_size (dir_map es) = dirents_size dirent_size (entry_word <$> es).
Proof.
  intros Hnd. unfold listing_size, dir_map. apply dirents_size_perm, fmap_Permutation.
  rewrite <- (swap_swap es) at 2. apply fmap_Permutation, map_to_list_to_map.
  rewrite <- list_fmap_compose. by rewrite (list_fmap_ext _ snd) by (by intros ? []).
Qed.

(** Every entry takes a byte at least, so the length of the buffer is fuel
    enough. *)
Lemma dirent_size_pos n : (n ≤ 255)%nat → 1 ≤ dirent_size (Z.of_nat n).
Proof.
  intros Hn. set (name := of_chars (replicate n "a"%char)).
  assert (El : String.length name = n) by (unfold name; by rewrite length_of_chars, length_replicate).
  rewrite <- El, <- (dirent_length name 0 0). destruct (add_dirent name 0 0) as [|? ?] eqn:E; [|cbn [length]; lia].
  pose proof (dirent_decodes name 0 0 []) as Hd. rewrite E in Hd. cbn [app] in Hd. rewrite decode_nil in Hd.
  discriminate Hd; [wrap_unfold; lia..|]. unfold name. rewrite string_size_of_chars, length_replicate. lia.
Qed.

Lemma numbered_map es off : (λ '(ino, _, name), (name, ino)) <$> numbered dirent_size off es = prod_swap <$> es.
Proof. revert off. induction es as [|[i n] es IH]; intros off; cbn; [done|]. by rewrite IH. Qed.

Definition small_entry (e : entry) : Prop := in_u32 e.1 ∧ string_size e.2 ≤ 255.

Lemma entries_room es :
  Forall valid_entry es → Forall small_entry es → Z.of_nat (length es) ≤ dirents_size dirent_size (entry_word <$> es).
Proof.
  induction es as [|e es IH]; intros Hv Hu; [done|]. rewrite fmap_cons. cbn [dirents_size length].
  apply Forall_cons in Hv as [He Hv]. apply Forall_cons in Hu as [[_ Hn] Hu]. specialize (IH Hv Hu).
  rewrite parse_entry_word by done. unfold name_size. rewrite c_str_valid by apply He.
  rewrite string_size_chars in Hn. pose proof (dirent_size_pos (length (chars e.2)) ltac:(lia)). lia.
Qed.

(** The kernel reads the directory back from the whole listing. *)
Lemma listing_read es :
  Forall valid_entry es → Forall small_entry es → dirents_size dirent_size (entry_word <$> es) < 2 ^ 32 →
  let b := dirent_bytes dirent_size add_dirent 0 (entry_word <$> es) in
  list_to_map ((λ '(ino, _, name), (name, ino)) <$> kernel_list decode (length b) b) = dir_map es.
Proof.
  intros Hv Hu Hsz b. pose proof (entries_room es Hv Hu) as Hroom.
  assert (El : length b = (length es + (length b - length es))%nat).
  { pose proof (length_dirent_bytes dirent_size add_dirent dirent_length 0 (entry_word <$> es)). unfold b. lia. }
  rewrite El. rewrite <- (app_nil_r b) at 2. unfold b.
  rewrite (kernel_list_entries dirent_size add_dirent decode dirent_length dirent_decodes es _ [] 0) by (done || lia).
  rewrite fmap_app, numbered_map. unfold dir_map.
  replace (kernel_list decode _ []) with ([] : list (Z * Z * string)); [by rewrite app_nil_r|].
  destruct (_ - _)%nat; cbn [kernel_list]; [done|]. by rewrite decode_nil.
Qed.

Lemma readdir_handles fill ino size off fs f :
  small fs → sim fs (f_yfs f) → fuse_legal dirent_size (FReaddir fill ino size off) fs →
  handles (FReaddir fill ino size off) fs f.
Proof.
  intros Hsm Hs [_ [-> Hm]] req. cbn [fuseserver_oper answer]. unfold fuseserver_readdir.
  destruct (isdir ino) eqn:Hd; cbn [negb]; [|answer; done].
  yfs_call (OpGetContent ino) Hs I y1 E Hs1. apply rbind_Ret in E as ([[ret buf] y2] & E & Er). injection Er as Er ->.
  rewrite E. cbn [rbind]. pose proof (rep_dir fs _ ino Hs Hd) as Hr.
  destruct (fs !! ino) as [[b|m]|] eqn:Ei; [done| |].
  2: { destruct (ret =? yfs_status.OK); [by rewrite Hd in Er|]. cbn [negb]. answer. done. }
  destruct Hr as (t & es & Hv & [Hes Ht] & Hnd & ->). rewrite listing_size_entries in Hm by done.
  assert (ret = yfs_status.OK ∧ buf = t) as [-> ->].
  { unfold getcontent, with_lock in E.
    destruct (y_get_hit junk jnk now ino "" (log (f_yfs f) (Acquire ino)) t (sim_inv _ _ Hs) Hv) as (y3 & E3 & _).
    rewrite E3 in E. by injection E as <- <- _. }
  assert (Hu : Forall small_entry es).
  { apply Forall_forall. intros [i n] Hin. destruct (Hsm ino n i); [|done]. eexists. split; [done|].
    by rewrite dir_map_lookup, find_entry_elem. }
  change (negb (yfs_status.OK =? yfs_status.OK)) with false. cbv iota. rewrite Ht.
  destruct (add_entries_ok dirent_size add_dirent dirent_length fill (entry_word <$> es) (Dirbuf [] 0)) as (b & -> & Ep & Eb);
    [done|cbn [db_size]; lia|]. cbn [db_p db_size app] in Ep. cbn [rbind]. unfold reply_buf_limited.
  rewrite Eb, limited_ok by lia. cbn [rbind]. rewrite drop_0, take_ge.
  2: { pose proof (length_dirent_bytes dirent_size add_dirent dirent_length 0 (entry_word <$> es)). rewrite Ep. lia. }
  answer. split; [|done]. cbn [see]. rewrite Ep, listing_read by (done || lia). done.
Qed.

Lemma request_refines op fs f :
  tree fs → small fs → sim fs (f_yfs f) → fuse_legal dirent_size op fs → handles op fs f.
Proof.
  intros Ht Hsm Hs Hl. destruct op.
  - by apply getattr_handles.
  - intros req. cbn [fuseserver_oper]. answer. done.
  - by apply readdir_handles.
  - by apply lookup_handles.
  - by eapply create_handles.
  - by eapply create_handles.
  - intros req. cbn [fuseserver_oper]. answer. done.
  - by apply read_handles.
  - by apply write_handles.
  - by apply setattr_handles.
  - by apply unlink_handles.
  - by eapply create_handles.
Qed.

(** C6: FUSE requests are operations of a file system.  From a state in
    which the client represents an abstract file system whose directories are
    a tree, any sequence of legal requests of the kernel is served to its
    end: each request gets one reply, in order and with its own identifier,
    which is the reply of the abstract file system (attributes but the times,
    bytes read, complete listings, entries, error numbers), and the final
    state represents the abstract result, which is a tree again.  Requests
    are legal when numbers, names (words of at most 255 bytes) and offsets (31
    bits) fit them, [random()] picks unused numbers, a directory is listed
    from its beginning into a buffer with room for all of it, a write is to
    an existing file and has a null byte somewhere in the memory from its data
    on, and [setattr] does not make a file longer, which the code does
    wrong. *)
Theorem fuse_refines_afs reqs fs f :
  tree fs → small fs → sim fs (f_yfs f) → requests_legal dirent_size reqs fs →
  ∃ f' rs, serve dirent_size add_dirent net junk now reqs f = Ret f' ∧ f_replies f' = f_replies f ++ rs ∧
    Forall3 (answered decode) reqs rs (answers reqs fs).1 ∧
    tree (answers reqs fs).2 ∧ sim (answers reqs fs).2 (f_yfs f').
Proof.
  revert fs f. induction reqs as [|[req op] reqs IH]; intros fs f Ht Hsm Hs; cbn [requests_legal serve answers].
  { intros _. exists f, []. rewrite app_nil_r. split_and!; [done|done|constructor|done|done]. }
  intros [Hl Hls]. destruct (request_refines op fs f Ht Hsm Hs Hl req) as (f1 & r & -> & Er & Esee & Hs1). cbn [rbind].
  destruct (IH (after op fs) f1) as (f' & rs & -> & Ers & Hrs & Ht' & Hs');
    [by eapply tree_after|by eapply small_after|done|done|].
  destruct (answers reqs (after op fs)) as [as_ fs']. cbn [fst snd] in *.
  exists f', ((req, r) :: rs). split; [done|]. split; [by rewrite Ers, Er, <- (assoc_L (++))|]. split; [|done].
  by constructor.
Qed.
End refinement.

(** ** Witness *)

Definition demo_entry : fuse_entry_param := EntryParam 0 0 (Stat 0 0 0 0 0 0 0).

(** A directory with a file in it is made, the file is written, listed, read,
    truncated and unlinked; some requests fail. *)
Definition demo_requests : list (nat * fuse_op) :=
  [(1%nat, FMkdir 7 demo_entry 1 "docs"); (2%nat, FCreate 1234 demo_entry 7 "notes");
   (3%nat, FWrite 2147484882 ("hello" +:+ String "000" "") 5 2); (4%nat, FGetattr 2147484882);
   (5%nat, FLookup demo_entry 9 7 "notes"); (6%nat, FReaddir "x" 7 4096 0); (7%nat, FRead 2147484882 3 1);
   (8%nat, FSetattr 2147484882 1 8); (9%nat, FMknod 9 demo_entry 7 "notes"); (10%nat, FUnlink 7 "notes");
   (11%nat, FLookup demo_entry 9 7 "notes"); (12%nat, FGetattr 2147484882);
   (13%nat, FReaddir "x" 1 4096 0); (14%nat, FOpen 1); (15%nat, FStatfs); (16%nat, FSetattr 1 0 0)].

Lemma demo_requests_legal : requests_legal demo_dirent_size demo_requests root_fs.
Proof.
  unfold demo_requests. cbn [requests_legal]. unfold fuse_legal. split_and!; cbn [effect legal]; split_and?.
  all: lazymatch goal with
    | |- True => exact I
    | |- is_Some _ => vm_compute; by eexists
    | |- "000"%char ∈ _ => by apply (bool_decide_eq_true_1 _)
    | |- valid_name "docs" => exact demo_docs
    | |- valid_name _ => exact demo_name
    | |- _ = _ => by vm_compute
    | |- _ ≤ string_size _ => by vm_compute
    | |- string_size _ ≤ _ => by vm_compute
    | |- _ ≤ _ => lia
    | |- _ < _ => lia
    | |- _ => vm_compute; by repeat split
    end.
Qed.

Lemma small_root : small root_fs.
Proof.
  unfold root_fs. intros d n i (m & [_ [= <-]]%lookup_singleton_Some & Hi). by rewrite lookup_empty in Hi.
Qed.

Lemma fuse_refines_afs_witness :
  requests_legal demo_dirent_size demo_requests root_fs ∧
  ∃ f' rs, serve demo_dirent_size demo_dirent (server_net 5 100) (Attr 9 9 9 9) 100 demo_requests (Fuse demo_yfs []) = Ret f' ∧
    f_replies f' = rs ∧ Forall3 (answered demo_decode) demo_requests rs (answers demo_requests root_fs).1 ∧
    tree (answers demo_requests root_fs).2 ∧ sim (answers demo_requests root_fs).2 (f_yfs f').
Proof.
  split; [exact demo_requests_legal|].
  exact (fuse_refines_afs (Attr 9 9 9 9) 5 100 demo_dirent_size demo_dirent demo_decode demo_dirent_length
    demo_dirent_decodes eq_refl demo_requests root_fs (Fuse demo_yfs []) tree_root_fs small_root sim_root demo_requests_legal).
Defined.

(** What the session shows. *)
Example demo_answers :
  (answers demo_requests root_fs).1 =
  [AEntry 7 (AStat 7 16895 2 0); ACreate 2147484882 (AStat 2147484882 33206 1 0); AWrite 5;
   AAttr (AStat 2147484882 33206 1 7); AEntry 2147484882 (AStat 2147484882 33206 1 7);
   AListing {["notes" := 2147484882]}; ABuf ["000"%char; "h"%char; "e"%char];
   AAttr (AStat 2147484882 33206 1 1); AErr EEXIST; AErr 0; AErr ENOENT; AErr ENOENT;
   AListing {["docs" := 7]}; AOpen; AStatfs 255 512; AErr ENOSYS].
Proof. vm_compute. reflexivity. Qed.
