(* ===== verification/FuseMain.v ===== *)
(** * The main program of the file system (fuse.cc)

    What [main] does with the FUSE library, whose answers are arguments: the
    calls it makes, in order, and its exit status. *)

From S2P Require Import Prelude.

(** The array [fuse_argv]; [fuse_argc] is its length. *)
Definition fuse_argv (apple : bool) (argv0 mountpoint : string) : list string :=
  [argv0] ++ (if apple then ["-o"; "nolocalcaches"; "-o"; "daemon_timeout=86400"] else []) ++ [mountpoint; "-d"].

Inductive fuse_call :=
| ParseCmdline (args : list string)
| Mount (mountpoint : string)
| LowlevelNew
| KernChanNew (fd : Z)
| AddChan
| SessionLoop
| SessionDestroy
| Close (fd : Z)
| Unmount (mountpoint : string).

(** What the library answers: the result of [fuse_parse_cmdline] and the
    mount point it stores, the descriptor, whether there is a session and a
    channel, and how the loop ended. *)
Record fuse_answers := FuseAnswers {
  fa_parse : Z; fa_mountpoint : string; fa_fd : Z; fa_session : bool; fa_chan : bool; fa_err : Z }.

(** The exit status and the calls; the client is created in between. *)
Definition fuse_main (apple : bool) (argv : list string) (a : fuse_answers) : Z * list fuse_call :=
  match argv with
  | [argv0; mountpoint; extent_port; lock_port] =>
      let t := [ParseCmdline (fuse_argv apple argv0 mountpoint)] in
      if fa_parse a =? -1 then (0, t) else
      let mountpoint := fa_mountpoint a in
      let t := t ++ [Mount mountpoint] in
      if fa_fd a =? -1 then (1, t) else
      let t := t ++ [LowlevelNew] in
      if negb (fa_session a) then (1, t) else
      let t := t ++ [KernChanNew (fa_fd a)] in
      if negb (fa_chan a) then (1, t) else
      let t := t ++ [AddChan; SessionLoop; SessionDestroy; Close (fa_fd a); Unmount mountpoint] in
      (if fa_err a =? 0 then 0 else 1, t)
  | _ => (1, [])
  end.

(** The exit status.  Zero means that the loop ended well, except that it is
    also zero when the command line cannot be parsed and nothing was mounted.
    The array of 20 arguments is long enough. *)
Theorem fuse_main_status apple argv a :
  ((fuse_main apple argv a).1 = 0 ↔
     length argv = 4%nat ∧
     (fa_parse a = -1 ∨ fa_fd a ≠ -1 ∧ fa_session a = true ∧ fa_chan a = true ∧ fa_err a = 0)) ∧
  (∀ argv0 mp, (length (fuse_argv apple argv0 mp) ≤ 20)%nat).
Proof.
  split; [|by intros; destruct apple; cbn; lia].
  destruct argv as [|x0 [|x1 [|x2 [|x3 [|x4 argv]]]]]; cbn [fuse_main length]; try (cbn; split; [done|intros [? _]; lia]).
  destruct (Z.eqb_spec (fa_parse a) (-1)); [cbn; naive_solver|].
  destruct (Z.eqb_spec (fa_fd a) (-1)); [cbn; naive_solver|].
  destruct (fa_session a); [|cbn; naive_solver]. destruct (fa_chan a); [|cbn; naive_solver].
  destruct (Z.eqb_spec (fa_err a) 0); cbn; naive_solver.
Qed.

(** A file system that was mounted is unmounted when the loop has run, and
    stays mounted when there is no session or no channel. *)
Theorem fuse_main_unmounts apple argv a :
  let calls := (fuse_main apple argv a).2 in
  (SessionLoop ∈ calls → Mount (fa_mountpoint a) ∈ calls ∧ last calls = Some (Unmount (fa_mountpoint a))) ∧
  (Mount (fa_mountpoint a) ∈ calls → fa_fd a ≠ -1 → SessionLoop ∉ calls →
     (fa_session a = false ∨ fa_chan a = false) ∧ ∀ mp, Unmount mp ∉ calls).
Proof.
  intros calls. unfold calls.
  destruct argv as [|x0 [|x1 [|x2 [|x3 [|x4 argv]]]]]; cbn [fuse_main snd];
    try (split; [by intros ?%elem_of_nil|by intros ?%elem_of_nil]).
  destruct (fa_parse a =? -1); [cbn; split; [|]; set_solver|].
  destruct (Z.eqb_spec (fa_fd a) (-1)); [cbn; split; set_solver|].
  destruct (fa_session a); cbn [negb]; [|cbn; split; [set_solver|intros _ _ _; split; [by left|set_solver]]].
  destruct (fa_chan a); cbn [negb snd]; [|cbn; split; [set_solver|intros _ _ _; split; [by right|set_solver]]].
  split; [intros _; split; [set_solver|done]|set_solver].
Qed.
