(* ===== verification/LockServer.v ===== *)
(** * The first lock service (lock_server.cc, lock_server.h, lock_client.cc)

    [acquire] waits inside the server until the lock is free.  The iterator
    it gets from [find] is the end iterator for a lock that is not in the
    map, also after the lock was inserted: what reading through it yields is
    the argument [stray].  [acquire] is cut at its wait. *)

From S2P Require Import Prelude Protocols.

Record lock_server := LockServer { nacquire : Z; lock_list : gmap Z bool }.

Definition lock_server_new : lock_server := LockServer 0 ∅.

Definition stat (clt lid r : Z) (s : lock_server) : Z * Z := (lock_protocol.OK, nacquire s).

(** The creation of a lock that is not in the map; the result is whether [it]
    points to the lock. *)
Definition find_lock (lid : Z) (s : lock_server) : bool * lock_server :=
  match lock_list s !! lid with
  | Some _ => (true, s)
  | None => (false, LockServer (nacquire s) (<[lid := false]> (lock_list s)))
  end.

(** [it->second]. *)
Definition it_second (stray found : bool) (lid : Z) (s : lock_server) : bool :=
  if found then default false (lock_list s !! lid) else stray.

(** [acquire] up to its loop, the condition of the loop, and the rest. *)
Definition acquire_begin (lid : Z) (s : lock_server) : bool * lock_server :=
  find_lock lid (LockServer (nacquire s + 1) (lock_list s)).
Definition acquire_waits := it_second.
Definition acquire_end (lid : Z) (s : lock_server) : Z * Z * lock_server :=
  (lock_protocol.OK, lock_protocol.OK, LockServer (nacquire s) (<[lid := true]> (lock_list s))).

(** [release]; the first component tells whether waiting threads are woken. *)
Definition release (stray : bool) (lid : Z) (s : lock_server) : bool * Z * Z * lock_server :=
  let '(found, s) := find_lock lid (LockServer (nacquire s - 1) (lock_list s)) in
  (it_second stray found lid s, lock_protocol.OK, lock_protocol.OK,
   LockServer (nacquire s) (<[lid := false]> (lock_list s))).

(** ** The client *)

Section client.
Context {W : Type} (call : Z → Z → Z → Z → W → Z * Z * W).

(** [cl->call(proc, cl->id(), lid, r)], for a client that calls itself
    [id]; [r] is not initialised. *)
Definition client_call (proc id lid junk : Z) (w : W) : res (Z * W) :=
  let '(ret, r, w) := call proc id lid junk w in
  VERIFY (ret =? lock_protocol.OK);;
  Ret (r, w).
Definition client_stat := client_call lock_protocol.stat.
Definition client_acquire := client_call lock_protocol.acquire.
Definition client_release := client_call lock_protocol.release.

(** lock_demo.cc: [main], with the number it prints. *)
Definition lock_demo (argv : list string) (id junk : Z) (w : W) : res (Z * W) :=
  match argv with
  | [_; dst] => client_stat id 1 junk w
  | _ => Fail Exited
  end.
End client.

(** Against a server the program prints the count of acquisitions and leaves
    the server as it is. *)
Lemma lock_demo_prints prog dst id junk s :
  lock_demo (λ _ clt lid r s, let '(ret, r) := stat clt lid r s in (ret, r, s)) [prog; dst] id junk s = Ret (nacquire s, s).
Proof. reflexivity. Qed.

(** ** The threads of the server *)

(** A thread [t] that serves [acquire(lid)], with its [found]. *)
Definition waiter : Type := nat * Z * bool.

Record lab1 := Lab1 {
  l1_server : lock_server; l1_waiting : list waiter; l1_woken : list waiter; l1_holders : list (nat * Z) }.

(** What happens when a thread looks at the condition. *)
Definition try_lock (stray : bool) (x : waiter) (w : lab1) : lab1 :=
  let '(t, lid, found) := x in
  if acquire_waits stray found lid (l1_server w)
  then Lab1 (l1_server w) (x :: l1_waiting w) (l1_woken w) (l1_holders w)
  else Lab1 (acquire_end lid (l1_server w)).2 (l1_waiting w) (l1_woken w) ((t, lid) :: l1_holders w).

Definition for_lock (lid : Z) (x : waiter) : Prop := x.1.2 = lid.
#[export] Instance for_lock_dec lid x : Decision (for_lock lid x).
Proof. unfold for_lock. apply _. Defined.

Inductive lab1_step (stray : bool) : lab1 → lab1 → Prop :=
| L1_acquire w t lid found s :
    acquire_begin lid (l1_server w) = (found, s) →
    lab1_step stray w
      (try_lock stray (t, lid, found) (Lab1 s (l1_waiting w) (l1_woken w) (l1_holders w)))
| L1_recheck w x l1 l2 :
    l1_woken w = l1 ++ x :: l2 →
    lab1_step stray w (try_lock stray x (Lab1 (l1_server w) (l1_waiting w) (l1 ++ l2) (l1_holders w)))
| L1_spurious w x l1 l2 :
    l1_waiting w = l1 ++ x :: l2 →
    lab1_step stray w (Lab1 (l1_server w) (l1 ++ l2) (x :: l1_woken w) (l1_holders w))
| L1_release w t lid l1 l2 wake ret r s :
    l1_holders w = l1 ++ (t, lid) :: l2 → release stray lid (l1_server w) = (wake, ret, r, s) →
    lab1_step stray w
      (Lab1 s
        (if wake then filter (λ x, ¬ for_lock lid x) (l1_waiting w) else l1_waiting w)
        (if wake then filter (for_lock lid) (l1_waiting w) ++ l1_woken w else l1_woken w)
        (l1 ++ l2)).

Definition lab1_init : lab1 := Lab1 lock_server_new [] [] [].

(** A lock is taken in the map exactly when a thread holds it, and a thread
    waits only for a lock that is taken. *)
Record lab1_inv (w : lab1) : Prop := {
  li_holders : NoDup (l1_holders w).*2;
  li_taken : ∀ lid, lock_list (l1_server w) !! lid = Some true ↔ lid ∈ (l1_holders w).*2;
  li_waiting : ∀ x, x ∈ l1_waiting w → x.2 = true ∧ lock_list (l1_server w) !! x.1.2 = Some true;
  li_woken : ∀ x, x ∈ l1_woken w → x.2 = true ∧ is_Some (lock_list (l1_server w) !! x.1.2) }.

Lemma try_lock_inv t lid found w :
  lab1_inv w → (found = true ∧ is_Some (lock_list (l1_server w) !! lid) ∨
    found = false ∧ lock_list (l1_server w) !! lid = Some false) →
  lab1_inv (try_lock false (t, lid, found) w).
Proof.
  intros [Hh Ht Hw Hk] Hf. unfold try_lock, acquire_waits, it_second.
  assert (found = true ∧ lock_list (l1_server w) !! lid = Some true ∨
    (if found then default false (lock_list (l1_server w) !! lid) else false) = false ∧
    lock_list (l1_server w) !! lid = Some false) as [[-> E]|[-> E]].
  { destruct Hf as [[-> [b E]]|[-> E]]; rewrite E; [|by right]. destruct b; [by left|by right]. }
  - rewrite E. cbn. split; cbn; [done|done| |done].
    intros x [->|Hx]%elem_of_cons; [done|by apply Hw].
  - split; cbn.
    + apply NoDup_cons. split; [|done]. intros Hin%Ht. congruence.
    + intros lid'. rewrite elem_of_cons. destruct (decide (lid = lid')) as [<-|Hne].
      * rewrite lookup_insert_eq. split; [by left|done].
      * rewrite lookup_insert_ne by done. rewrite Ht. split; [by right|by intros [->|]].
    + intros x [? Hx]%Hw. split; [done|]. destruct (decide (lid = x.1.2)) as [->|]; [by rewrite lookup_insert_eq|by rewrite lookup_insert_ne].
    + intros x [? Hx]%Hk. split; [done|]. destruct (decide (lid = x.1.2)) as [->|]; [by rewrite lookup_insert_eq|by rewrite lookup_insert_ne].
Qed.

Lemma inv_perm w hs : lab1_inv w → hs ≡ₚ l1_holders w → lab1_inv (Lab1 (l1_server w) (l1_waiting w) (l1_woken w) hs).
Proof.
  intros [Hh Ht Hw Hk] Hp. split; cbn; [by rewrite Hp|intros lid; by rewrite Hp|done|done].
Qed.

Lemma lab1_step_inv w w' : lab1_inv w → lab1_step false w w' → lab1_inv w'.
Proof.
  intros Hinv Hst. destruct Hst as [w t lid found s E|w [[t lid] found] l1 l2 E|w x l1 l2 E|w t lid l1 l2 wake ret r s E Er].
  - unfold acquire_begin, find_lock in E. cbn [lock_list nacquire] in E. pose proof Hinv as [Hh Ht Hw Hk].
    destruct (lock_list (l1_server w) !! lid) as [b|] eqn:El; injection E as <- <-.
    + apply try_lock_inv; [by destruct Hinv|left; split; [done|cbn; by rewrite El]].
    + apply try_lock_inv; [|right; split; [done|cbn; by rewrite lookup_insert_eq]].
      assert (∀ k b, lock_list (l1_server w) !! k = Some b → <[lid:=false]> (lock_list (l1_server w)) !! k = Some b) as Hkeep.
      { intros k b Hb. rewrite lookup_insert_ne; [done|]. intros ->. congruence. }
      split; cbn; [done| | |].
      * intros k. rewrite <- Ht. destruct (decide (lid = k)) as [<-|]; [rewrite lookup_insert_eq, El; by split|by rewrite lookup_insert_ne].
      * intros x [? Hx]%Hw. split; [done|]. by apply Hkeep.
      * intros x [? [b Hx]]%Hk. split; [done|]. exists b. by apply Hkeep.
  - destruct Hinv as [Hh Ht Hw Hk]. destruct (Hk (t, lid, found)) as [Ef Hs]; [rewrite E; set_solver|]. cbn in Ef, Hs.
    apply try_lock_inv; [|by left]. split; cbn; [done|done|done|]. intros x Hx. apply Hk. rewrite E. set_solver.
  - destruct Hinv as [Hh Ht Hw Hk]. split; cbn; [done|done| |].
    + intros y Hy. apply Hw. rewrite E. set_solver.
    + intros y [->|Hy]%elem_of_cons; [|by apply Hk]. destruct (Hw x) as [? Hx]; [rewrite E; set_solver|].
      split; [done|]. by rewrite Hx.
  - assert (lab1_inv (Lab1 (l1_server w) (l1_waiting w) (l1_woken w) ((t, lid) :: l1 ++ l2))) as Hinv'.
    { apply inv_perm; [done|]. rewrite E. apply Permutation_middle. }
    destruct Hinv' as [Hh Ht Hw Hk]. cbn in *. apply NoDup_cons in Hh as [Hnot Hh].
    assert (lock_list (l1_server w) !! lid = Some true) as El by (apply Ht; left).
    unfold release, find_lock in Er. cbn [lock_list nacquire] in Er. rewrite El in Er. cbn in Er. rewrite El in Er.
    injection Er as <- <- <- <-. split; cbn.
    + done.
    + intros k. destruct (decide (lid = k)) as [<-|Hne].
      * rewrite lookup_insert_eq. split; [done|]. intros Hin. by destruct Hnot.
      * rewrite lookup_insert_ne by done. rewrite Ht, elem_of_cons. split; [by intros [->|]|by right].
    + intros x [Hne Hx]%list_elem_of_filter. destruct (Hw x Hx) as [? Ex]. split; [done|].
      rewrite lookup_insert_ne; [done|]. intros ->. by apply Hne.
    + intros x [[_ Hx]%list_elem_of_filter|Hx]%elem_of_app.
      * destruct (Hw x Hx) as [? Ex]. split; [done|].
        destruct (decide (lid = x.1.2)) as [->|]; [by rewrite lookup_insert_eq|by rewrite lookup_insert_ne, Ex].
      * destruct (Hk x Hx) as [? Ex]. split; [done|].
        destruct (decide (lid = x.1.2)) as [->|]; [by rewrite lookup_insert_eq|by rewrite lookup_insert_ne].
Qed.

(** The first lock server excludes and loses no wake-up, if reading
    through the end iterator yields [false].  In every interleaving of its
    threads no two threads hold a lock at a time, and a thread that waits
    without having been woken waits for a lock that a thread holds, whose
    release will wake it. *)
Theorem lab1_exclusion w :
  rtc (lab1_step false) lab1_init w →
  (∀ t t' lid, (t, lid) ∈ l1_holders w → (t', lid) ∈ l1_holders w → t = t') ∧
  ∀ x, x ∈ l1_waiting w → ∃ t, (t, x.1.2) ∈ l1_holders w.
Proof.
  intros Hrun. assert (lab1_inv w) as [Hh Ht Hw Hk].
  { eapply (rtc_ind_r lab1_inv); [| |exact Hrun]; [|intros y z _ Hst Hi; by eapply lab1_step_inv].
    split; cbn; [constructor|..]; set_solver. }
  split.
  - intros t t' lid H1 H2. apply list_elem_of_lookup in H1 as [i Hi], H2 as [j Hj].
    assert (i = j) as <-; [|congruence].
    eapply (NoDup_lookup _ i j lid Hh); rewrite list_lookup_fmap; [by rewrite Hi|by rewrite Hj].
  - intros x [_ Hx]%Hw. apply Ht in Hx. apply list_elem_of_fmap in Hx as ([t lid] & -> & Hin). by exists t.
Qed.

Lemma lab1_run : ∃ w, rtc (lab1_step false) lab1_init w ∧ (1%nat, 5) ∈ l1_holders w ∧ (2%nat, 5, true) ∈ l1_waiting w.
Proof.
  eexists. split.
  - eapply rtc_l; [by eapply (L1_acquire _ _ 1 5)|]. cbn.
    eapply rtc_l; [by eapply (L1_acquire _ _ 2 5)|]. cbn. apply rtc_refl.
  - vm_compute. split; left.
Qed.

Lemma lab1_exclusion_witness : ∃ w, (2%nat, 5, true) ∈ l1_waiting w ∧ ∃ t, (t, 5) ∈ l1_holders w.
Proof.
  destruct lab1_run as (w & Hrun & _ & Hw). exists w. split; [exact Hw|].
  destruct (lab1_exclusion w Hrun) as [_ H]. exact (H _ Hw).
Defined.

(** If the end iterator reads [true], the first client of a lock waits on a
    condition that stays true whatever others do. *)
Theorem stray_iterator_hangs lid s found s1 :
  lock_list s !! lid = None → acquire_begin lid s = (found, s1) → ∀ s2, acquire_waits true found lid s2 = true.
Proof. intros E. unfold acquire_begin, find_lock. cbn. rewrite E. by intros [= <- _]. Qed.
