(* ===== verification/LockCache.v ===== *)
(** * The caching lock service of lab 4 (lock_server_cache.cc, lock_client_cache.cc)

    The server keeps the clients of each lock in a list; a second client makes
    it revoke the lock from the first and wait for the answer, with its mutex
    released.  A client keeps a lock it released until it is revoked.  Both
    are cut where they give up their mutex or wait. *)

From stdpp Require Import functions.
From S2P Require Import Prelude Protocols.

(** ** The server *)

(** [lock_client_list]; the connections to the clients are taken to be up. *)
Record lock_server_cache := Server { sc_nacquire : Z; sc_lock_client_list : gmap Z (list string) }.

Definition lock_server_cache_new : lock_server_cache := Server 0 ∅.

(** The loop that looks for [dst]. *)
Fixpoint find_position (dst : string) (l : list string) (i : Z) : Z :=
  match l with
  | [] => -1
  | x :: l => if bool_decide (x = dst) then i else find_position dst l (i + 1)
  end.

(** How the first part of [acquire] ends: with a result, or with a revoke
    request to a client.  The reply [r] is the new [nacquire]. *)
Inductive acquire_outcome := Answer (ret : Z) | Revoke (client : string).

Definition sc_acquire (lid : Z) (dst : string) (s : lock_server_cache) : acquire_outcome * lock_server_cache :=
  let n := sc_nacquire s + 1 in
  let '(l, lists) := map_ref [] (sc_lock_client_list s) lid in
  let position := find_position dst l 0 in
  let '(l, position) :=
    if position <? 0 then (l ++ [dst], Z.of_nat (length (l ++ [dst])) - 1) else (l, position) in
  if position =? 0 then (Answer lock_protocol.OK, Server n (<[lid := l]> lists))
  else if position =? 1 then
    match l with
    | client :: l => (Revoke client, Server n (<[lid := l]> lists))
    | [] => (Answer lock_protocol.RETRY, Server n (<[lid := l]> lists))
    end
  else (Answer lock_protocol.RETRY, Server n (<[lid := l]> lists)).

(** After the revoke request was answered with [ret]: the client that is
    told to retry, if any; in that case the mutex is unlocked twice. *)
Definition sc_revoked (ret : Z) (lid : Z) (s : lock_server_cache) : res (Z * option string * lock_server_cache) :=
  VERIFY (ret =? rlock_protocol.OK);;
  let '(l, lists) := map_ref [] (sc_lock_client_list s) lid in
  Ret (lock_protocol.OK, l !! 1%nat, Server (sc_nacquire s) lists).

Definition sc_release (s : lock_server_cache) : Z * Z * lock_server_cache :=
  let n := sc_nacquire s - 1 in (lock_protocol.OK, n, Server n (sc_lock_client_list s)).

Definition sc_stat (s : lock_server_cache) : Z * Z := (lock_protocol.OK, sc_nacquire s).

(** ** The client *)

Inductive lock_status := NONE | FREE | LOCKED | ACQUIRING | RELEASING | RETRY.

#[export] Instance lock_status_eq_dec : EqDecision lock_status.
Proof. solve_decision. Defined.

(** [lock_status_list]; a missing entry reads as 0, which is [NONE]. *)
Abbreviation statuses := (gmap Z lock_status).
Definition status (m : statuses) (lid : Z) : lock_status := default NONE (m !! lid).

(** [acquire]: wait, take a lock that is cached, or ask the server. *)
Inductive client_outcome := CWait | CTaken | CAsk.
Definition cc_acquire (lid : Z) (m : statuses) : client_outcome * statuses :=
  match status m lid with
  | NONE => (CAsk, <[lid := ACQUIRING]> m)
  | FREE => (CTaken, <[lid := LOCKED]> m)
  | _ => (CWait, m)
  end.

(** The answer of the server.  [None]: the thread waits to be told to retry. *)
Definition cc_answer (ret : Z) (lid : Z) (m : statuses) : res (option (Z * statuses)) :=
  if ret =? lock_protocol.RETRY then Ret None
  else
    VERIFY (ret =? lock_protocol.OK);;
    Ret (Some (ret, <[lid := LOCKED]> m)).

(** The second call, once the status is [RETRY], and its answer. *)
Definition cc_retried (lid : Z) (m : statuses) : bool := bool_decide (status m lid = RETRY).
Definition cc_answer2 (ret : Z) (lid : Z) (m : statuses) : res (Z * statuses) :=
  VERIFY (ret =? lock_protocol.OK);;
  Ret (ret, <[lid := LOCKED]> m).

Definition cc_release (lid : Z) (m : statuses) : Z * statuses := (lock_protocol.OK, <[lid := FREE]> m).

(** [revoke_handler] up to the call of [dorelease], which does nothing, and
    from there.  A lock that is not there is answered with an error, with the
    mutex still locked. *)
Inductive revoke_outcome := RWait | RReleasing | RErrorLocked.
Definition cc_revoke (lid : Z) (m : statuses) : revoke_outcome * statuses :=
  match status m lid with
  | FREE => (RReleasing, <[lid := RELEASING]> m)
  | NONE => (RErrorLocked, m)
  | _ => (RWait, m)
  end.
Definition cc_revoke_end (lid : Z) (m : statuses) : Z * statuses := (rlock_protocol.OK, <[lid := NONE]> m).

(** [retry_handler]. *)
Definition cc_retry (lid : Z) (m : statuses) : Z * statuses := (rlock_protocol.OK, <[lid := RETRY]> m).

(** ** Clients and server *)

(** Where a client's request for a lock is: not sent, on its way, waiting in
    the server for the client [p] to give the lock up (asked, giving it up,
    answered), or answered. *)
Inductive revoke_phase := Asked | Releasing | Answered.
Inductive request := Idle | Sent | Waiting (p : string) (ph : revoke_phase) | Granted (ret : Z).

Record world := World {
  w_server : lock_server_cache; w_clients : string → statuses; w_request : string → Z → request }.

Definition w_status (w : world) (c : string) (lid : Z) : lock_status := status (w_clients w c) lid.
Definition w_list (w : world) (lid : Z) : list string := default [] (sc_lock_client_list (w_server w) !! lid).
Definition set_client (c : string) (m : statuses) (w : world) : world :=
  World (w_server w) (<[c := m]> (w_clients w)) (w_request w).
Definition set_request (c : string) (lid : Z) (q : request) (w : world) : world :=
  World (w_server w) (w_clients w) (<[c := <[lid := q]> (w_request w c)]> (w_request w)).
Definition set_server (s : lock_server_cache) (w : world) : world := World s (w_clients w) (w_request w).

(** [CS_failed] is what no run should reach: an error of a handler or an
    answer that a [VERIFY] rejects, or a second unlock of the mutex. *)
Inductive cache_step : world → option world → Prop :=
| CS_acquire w c lid o m :
    cc_acquire lid (w_clients w c) = (o, m) →
    cache_step w (Some (match o with CAsk => set_request c lid Sent (set_client c m w) | _ => set_client c m w end))
| CS_serve w c lid o s :
    w_request w c lid = Sent → sc_acquire lid c (w_server w) = (o, s) →
    cache_step w (Some (set_request c lid (match o with Answer r => Granted r | Revoke p => Waiting p Asked end) (set_server s w)))
| CS_revoke w c p lid m :
    w_request w c lid = Waiting p Asked → cc_revoke lid (w_clients w p) = (RReleasing, m) →
    cache_step w (Some (set_request c lid (Waiting p Releasing) (set_client p m w)))
| CS_revoke_error w c p lid m :
    w_request w c lid = Waiting p Asked → cc_revoke lid (w_clients w p) = (RErrorLocked, m) →
    cache_step w None
| CS_revoke_end w c p lid r m :
    w_request w c lid = Waiting p Releasing → cc_revoke_end lid (w_clients w p) = (r, m) →
    cache_step w (Some (set_request c lid (Waiting p Answered) (set_client p m w)))
| CS_revoked w c p lid r retry s :
    w_request w c lid = Waiting p Answered → sc_revoked rlock_protocol.OK lid (w_server w) = Ret (r, retry, s) →
    cache_step w (match retry with
                  | None => Some (set_request c lid (Granted r) (set_server s w))
                  | Some _ => None
                  end)
| CS_answer w c lid r o m :
    w_request w c lid = Granted r → cc_answer r lid (w_clients w c) = Ret (Some (o, m)) →
    cache_step w (Some (set_request c lid Idle (set_client c m w)))
| CS_answer_bad w c lid r :
    w_request w c lid = Granted r → (∀ o m, cc_answer r lid (w_clients w c) ≠ Ret (Some (o, m))) →
    cache_step w None
| CS_release w c lid r m :
    w_status w c lid = LOCKED → cc_release lid (w_clients w c) = (r, m) →
    cache_step w (Some (set_client c m w)).

Definition world_init : world := World lock_server_cache_new (λ _, ∅) (λ _ _, Idle).

Inductive cache_run : world → Prop :=
| CR_init : cache_run world_init
| CR_step w w' : cache_run w → cache_step w (Some w') → cache_run w'.

(** ** The invariant of one lock *)

(** A client that has the lock, or to which it is on its way. *)
Definition has_token (s : lock_status) (q : request) : bool :=
  match s with
  | FREE | LOCKED | RELEASING => true
  | _ => match q with Granted _ | Waiting _ Answered => true | _ => false end
  end.
(** A client that has the lock or waits for it in the server. *)
Definition takes_part (s : lock_status) (q : request) : bool :=
  has_token s q || match q with Waiting _ _ => true | _ => false end.
(** The request waits for [p] to give the lock up. *)
Definition waits_for (p : string) (q : request) : bool :=
  match q with Waiting p' Asked | Waiting p' Releasing => bool_decide (p' = p) | _ => false end.

(** The list holds the last of those who take part; each of the others is
    waited for by one request. *)
Record lock_inv (l : list string) (st : string → lock_status) (rq : string → request) : Prop := {
  lv_acquiring : ∀ c, rq c = Idle ↔ st c ≠ ACQUIRING;
  lv_granted : ∀ c r, rq c = Granted r → r = lock_protocol.OK;
  lv_token : ∀ c c', has_token (st c) (rq c) = true → has_token (st c') (rq c') = true → c = c';
  lv_list : match l with
            | [] => ∀ c, takes_part (st c) (rq c) = false
            | [x] => takes_part (st x) (rq x) = true ∧ ∀ c, waits_for x (rq c) = false
            | _ => False
            end;
  lv_waits : ∀ c p, waits_for p (rq c) = true → takes_part (st p) (rq p) = true;
  lv_releasing : ∀ c p, rq c = Waiting p Releasing → st p = RELEASING;
  lv_once : ∀ c c' p, waits_for p (rq c) = true → waits_for p (rq c') = true → c = c' }.

Lemma takes_part_token s q : has_token s q = true → takes_part s q = true.
Proof. unfold takes_part. by intros ->. Qed.

Lemma takes_part_false s q : takes_part s q = false → has_token s q = false.
Proof. unfold takes_part. by intros [? _]%orb_false_iff. Qed.

Section lock.
Context (l : list string) (st : string → lock_status) (rq : string → request).
Hypothesis Hinv : lock_inv l st rq.

(** A change of one client that leaves its part in the protocol as it is. *)
Lemma inv_same_part c s q :
  has_token s q = has_token (st c) (rq c) → takes_part s q = takes_part (st c) (rq c) →
  (∀ p, waits_for p q = waits_for p (rq c)) → (q = Idle ↔ s ≠ ACQUIRING) → (∀ r, q = Granted r → r = lock_protocol.OK) →
  (∀ p, q = Waiting p Releasing → rq c = Waiting p Releasing) → (st c = RELEASING → s = RELEASING) →
  lock_inv l (<[c := s]> st) (<[c := q]> rq).
Proof.
  destruct Hinv as [Ha Hg Ht Hl Hw Hr Ho]. intros Et Ep Ew Hidle Hgr Hrl Hkeep.
  assert (∀ d, has_token (<[c := s]> st d) (<[c := q]> rq d) = has_token (st d) (rq d)) as Et'.
  { intros d. destruct (decide (c = d)) as [<-|]; [by rewrite !fn_lookup_insert|by rewrite !fn_lookup_insert_ne]. }
  assert (∀ d, takes_part (<[c := s]> st d) (<[c := q]> rq d) = takes_part (st d) (rq d)) as Ep'.
  { intros d. destruct (decide (c = d)) as [<-|]; [by rewrite !fn_lookup_insert|by rewrite !fn_lookup_insert_ne]. }
  assert (∀ p d, waits_for p (<[c := q]> rq d) = waits_for p (rq d)) as Ew'.
  { intros p d. destruct (decide (c = d)) as [<-|]; [by rewrite !fn_lookup_insert|by rewrite !fn_lookup_insert_ne]. }
  split.
  - intros d. destruct (decide (c = d)) as [<-|]; [by rewrite !fn_lookup_insert|by rewrite !fn_lookup_insert_ne].
  - intros d r. destruct (decide (c = d)) as [<-|]; [by rewrite fn_lookup_insert; apply Hgr|rewrite fn_lookup_insert_ne by done; apply Hg].
  - intros d d'. rewrite !Et'. apply Ht.
  - destruct l as [|x [|]]; [|split|done]; [intros d; by rewrite Ep'|by rewrite Ep'; apply Hl|intros d; rewrite Ew'; apply Hl].
  - intros d p. rewrite Ew', Ep'. apply Hw.
  - intros d p E. assert (rq d = Waiting p Releasing) as E'.
    { destruct (decide (c = d)) as [<-|]; [by rewrite fn_lookup_insert in E; apply Hrl|by rewrite fn_lookup_insert_ne in E]. }
    apply Hr in E'. destruct (decide (c = p)) as [<-|]; [rewrite fn_lookup_insert; by apply Hkeep|by rewrite fn_lookup_insert_ne].
  - intros d d' p. rewrite !Ew'. apply Ho.
Qed.

Lemma sent_takes_no_part c : rq c = Sent → takes_part (st c) (rq c) = false ∧ ∀ d, waits_for c (rq d) = false.
Proof.
  intros E. assert (takes_part (st c) (rq c) = false) as Hp.
  { assert (st c = ACQUIRING) as ->; [|by rewrite E].
    destruct (decide (st c = ACQUIRING)) as [|Hne]; [done|]. apply (lv_acquiring _ _ _ Hinv) in Hne. congruence. }
  split; [done|]. intros d. destruct (waits_for c (rq d)) eqn:Ew; [|done].
  apply (lv_waits _ _ _ Hinv) in Ew. congruence.
Qed.

(** The server takes up the request of [c]: the list becomes [c] alone. *)
Lemma inv_serve c q :
  rq c = Sent → st c = ACQUIRING →
  (l = [] ∧ q = Granted lock_protocol.OK ∨ ∃ x, l = [x] ∧ x ≠ c ∧ q = Waiting x Asked) →
  lock_inv [c] st (<[c := q]> rq).
Proof.
  intros E Es Hq. destruct (sent_takes_no_part c E) as [Hp Hnw]. destruct Hinv as [Ha Hg Ht Hl Hw Hr Ho].
  assert (∀ d, d ≠ c → <[c := q]> rq d = rq d) as Eo by (intros d Hd; by apply fn_lookup_insert_ne).
  assert (<[c := q]> rq c = q) as Ec by apply fn_lookup_insert.
  assert (takes_part (st c) q = true) as Hpc by (rewrite Es; destruct Hq as [[_ ->]|(x & _ & _ & ->)]; done).
  assert (∀ d, takes_part (st d) (rq d) = true → takes_part (st d) (<[c := q]> rq d) = true) as Hmono.
  { intros d Hd. destruct (decide (d = c)) as [->|Hne]; [by rewrite Ec|by rewrite Eo]. }
  split.
  - intros d. destruct (decide (d = c)) as [->|Hne]; [|by rewrite Eo].
    rewrite Ec, Es. destruct Hq as [[_ ->]|(x & _ & _ & ->)]; done.
  - intros d r. destruct (decide (d = c)) as [->|Hne]; [|rewrite Eo by done; apply Hg].
    rewrite Ec. destruct Hq as [[_ ->]|(x & _ & _ & ->)]; [by intros [= <-]|done].
  - destruct Hq as [[-> ->]|(x & -> & Hx & ->)].
    + assert (∀ d, has_token (st d) (rq d) = false) as Hno by (intros d; by apply takes_part_false, Hl).
      assert (∀ d, has_token (st d) (<[c := Granted lock_protocol.OK]> rq d) = true → d = c) as Hone.
      { intros d Hd. destruct (decide (d = c)) as [|Hne]; [done|]. rewrite Eo, Hno in Hd by done. done. }
      intros d d' H1%Hone H2%Hone. congruence.
    + assert (∀ d, has_token (st d) (<[c := Waiting x Asked]> rq d) = has_token (st d) (rq d)) as Et.
      { intros d. destruct (decide (d = c)) as [->|Hne]; [by rewrite Ec, E, Es|by rewrite Eo]. }
      intros d d'. rewrite !Et. apply Ht.
  - split; [by rewrite Ec|]. intros d. destruct (decide (d = c)) as [->|Hne]; [|rewrite Eo by done; apply Hnw].
    rewrite Ec. destruct Hq as [[_ ->]|(x & _ & Hx & ->)]; [done|]. cbn. by apply bool_decide_eq_false.
  - intros d p. destruct (decide (d = c)) as [->|Hne]; [|rewrite Eo by done; intros Hd; by apply Hmono, (Hw d)].
    rewrite Ec. destruct Hq as [[_ ->]|(x & -> & Hx & ->)]; [done|]. cbn. intros ->%bool_decide_eq_true. apply Hmono, Hl.
  - intros d p. destruct (decide (d = c)) as [->|Hne]; [|rewrite Eo by done; apply Hr].
    rewrite Ec. destruct Hq as [[_ ->]|(x & _ & _ & ->)]; done.
  - assert (∀ d p, waits_for p (<[c := q]> rq d) = true → waits_for p q = true → d = c) as Hnew.
    { intros d p Hd Hpq. destruct (decide (d = c)) as [|Hne]; [done|]. exfalso. rewrite Eo in Hd by done.
      destruct Hq as [[_ ->]|(x & -> & _ & ->)]; [done|]. cbn in Hpq. apply bool_decide_eq_true in Hpq as <-.
      destruct Hl as [_ Hl]. by rewrite Hl in Hd. }
    intros d d' p H1 H2. destruct (decide (d = c)) as [->|Hd].
    { rewrite Ec in H1. symmetry. by eapply Hnew. }
    destruct (decide (d' = c)) as [->|Hd']; [rewrite Ec in H2; by eapply Hnew|].
    rewrite !Eo in * by done. by eapply Ho.
Qed.

(** [p] starts to give the lock up. *)
Lemma inv_releasing c p :
  rq c = Waiting p Asked → st p = FREE → lock_inv l (<[p := RELEASING]> st) (<[c := Waiting p Releasing]> rq).
Proof.
  intros E Es. destruct Hinv as [Ha Hg Ht Hl Hw Hr Ho]. assert (c ≠ p) as Hcp.
  { intros ->. destruct (Ha p) as [_ H]. rewrite Es in H. rewrite H in E; done. }
  assert (∀ d, has_token (<[p := RELEASING]> st d) (<[c := Waiting p Releasing]> rq d) = has_token (st d) (rq d)) as Et.
  { intros d. destruct (decide (d = p)) as [->|]; [rewrite fn_lookup_insert, Es; done|]. rewrite (fn_lookup_insert_ne st) by done.
    destruct (decide (d = c)) as [->|]; [by rewrite fn_lookup_insert, E|by rewrite fn_lookup_insert_ne]. }
  assert (∀ d, takes_part (<[p := RELEASING]> st d) (<[c := Waiting p Releasing]> rq d) = takes_part (st d) (rq d)) as Ep.
  { intros d. unfold takes_part. rewrite Et. f_equal.
    destruct (decide (d = c)) as [->|]; [by rewrite fn_lookup_insert, E|by rewrite fn_lookup_insert_ne]. }
  assert (∀ x d, waits_for x (<[c := Waiting p Releasing]> rq d) = waits_for x (rq d)) as Ew.
  { intros x d. destruct (decide (d = c)) as [->|]; [by rewrite fn_lookup_insert, E|by rewrite fn_lookup_insert_ne]. }
  split.
  - intros d. destruct (decide (d = c)) as [->|Hd].
    + rewrite fn_lookup_insert, fn_lookup_insert_ne by done. rewrite <- (Ha c), E. done.
    + rewrite fn_lookup_insert_ne by done. destruct (decide (d = p)) as [->|]; [|by rewrite fn_lookup_insert_ne].
      rewrite fn_lookup_insert, Ha, Es. done.
  - intros d r. destruct (decide (d = c)) as [->|]; [by rewrite fn_lookup_insert|rewrite fn_lookup_insert_ne by done; apply Hg].
  - intros d d'. rewrite !Et. apply Ht.
  - destruct l as [|x [|]]; [|split|done]; [intros d; by rewrite Ep|by rewrite Ep; apply Hl|intros d; rewrite Ew; apply Hl].
  - intros d x. rewrite Ew, Ep. apply Hw.
  - intros d x. destruct (decide (d = c)) as [->|].
    + rewrite fn_lookup_insert. intros [= <-]. by rewrite fn_lookup_insert.
    + rewrite fn_lookup_insert_ne by done. intros H%Hr. destruct (decide (x = p)) as [->|]; [by rewrite fn_lookup_insert|by rewrite fn_lookup_insert_ne].
  - intros d d' x. rewrite !Ew. apply Ho.
Qed.

(** [p] has given the lock up: it is on its way to [c]. *)
Lemma inv_given_up c p :
  rq c = Waiting p Releasing → lock_inv l (<[p := NONE]> st) (<[c := Waiting p Answered]> rq).
Proof.
  intros E. destruct Hinv as [Ha Hg Ht Hl Hw Hr Ho]. pose proof (Hr c p E) as Es.
  assert (waits_for p (rq c) = true) as Hcp by (rewrite E; cbn; by apply bool_decide_eq_true).
  assert (rq p = Idle) as Ep by (apply Ha; by rewrite Es).
  assert (c ≠ p) as Hne by (intros ->; congruence).
  assert (st c = ACQUIRING) as Ec.
  { destruct (decide (st c = ACQUIRING)) as [|Hn]; [done|]. apply Ha in Hn. congruence. }
  assert (∀ d, d ≠ c → <[c := Waiting p Answered]> rq d = rq d) as Erq by (intros d Hd; by apply fn_lookup_insert_ne).
  assert (∀ d, d ≠ p → <[p := NONE]> st d = st d) as Est by (intros d Hd; by apply fn_lookup_insert_ne).
  assert (∀ d, d ≠ p → takes_part (st d) (rq d) = true → takes_part (<[p := NONE]> st d) (<[c := Waiting p Answered]> rq d) = true) as Hkeep.
  { intros d Hd Hp. rewrite Est by done. destruct (decide (d = c)) as [->|]; [by rewrite fn_lookup_insert, Ec|by rewrite Erq]. }
  assert (∀ d x, waits_for x (<[c := Waiting p Answered]> rq d) = true → d ≠ c ∧ x ≠ p ∧ waits_for x (rq d) = true) as Hwait.
  { intros d x Hd. destruct (decide (d = c)) as [->|Hdc]; [by rewrite fn_lookup_insert in Hd|]. rewrite Erq in Hd by done.
    split_and!; [done| |done]. intros ->. by apply Hdc, (Ho _ _ p). }
  split.
  - intros d. destruct (decide (d = c)) as [->|Hd].
    + rewrite fn_lookup_insert, Est, Ec by done. done.
    + rewrite Erq by done. destruct (decide (d = p)) as [->|]; [rewrite fn_lookup_insert, Ep; done|by rewrite Est].
  - intros d r. destruct (decide (d = c)) as [->|]; [by rewrite fn_lookup_insert|rewrite Erq by done; apply Hg].
  - assert (∀ d, has_token (<[p := NONE]> st d) (<[c := Waiting p Answered]> rq d) = true → d = c) as Hone.
    { intros d Hd. destruct (decide (d = c)) as [|Hdc]; [done|]. rewrite Erq in Hd by done.
      destruct (decide (d = p)) as [->|Hdp]; [by rewrite fn_lookup_insert, Ep in Hd|]. rewrite Est in Hd by done.
      exfalso. apply Hdp, (Ht d p Hd). by rewrite Es. }
    intros d d' H1%Hone H2%Hone. congruence.
  - destruct l as [|x [|]]; [|split|done].
    + exfalso. pose proof (Hw c p Hcp). by rewrite Hl in *.
    + destruct Hl as [Hx Hxw]. apply Hkeep; [|done]. intros ->. by rewrite Hxw in Hcp.
    + intros d. destruct (waits_for x _) eqn:Ew; [|done]. apply Hwait in Ew as (_ & _ & Ew). destruct Hl as [_ Hl]. by rewrite Hl in Ew.
  - intros d x (_ & Hx & Hd)%Hwait. apply Hkeep; [done|by apply (Hw d)].
  - intros d x Hd. assert (d ≠ c) as Hdc by (intros ->; by rewrite fn_lookup_insert in Hd). rewrite Erq in Hd by done.
    assert (x ≠ p). { intros ->. apply Hdc, (Ho _ _ p); [rewrite Hd; cbn; by apply bool_decide_eq_true|done]. }
    rewrite Est by done. by apply (Hr d).
  - intros d d' x (_ & _ & H1)%Hwait (_ & _ & H2)%Hwait. by apply (Ho _ _ x).
Qed.
End lock.

#[export] Instance lock_inv_proper l :
  Proper (pointwise_relation string (=) ==> pointwise_relation string (=) ==> iff) (lock_inv l).
Proof.
  assert (∀ st st' rq rq', pointwise_relation string (=) st st' → pointwise_relation string (=) rq rq' →
    lock_inv l st rq → lock_inv l st' rq') as H.
  { intros st st' rq rq' Est Erq [Ha Hg Ht Hl Hw Hr Ho].
    split; intros *; rewrite <- ?(Est _), <- ?(Erq _); [apply Ha|apply Hg|apply Ht| |apply Hw|apply Hr|apply Ho].
    destruct l as [|x [|]]; [|split|done]; [intros d|apply proj1 in Hl|intros d; apply proj2 in Hl];
      rewrite <- ?(Est _), <- ?(Erq _); first [apply Hl|exact Hl]. }
  intros st st' Est rq rq' Erq. split; apply H; [done|done|by intros d; rewrite Est|by intros d; rewrite Erq].
Qed.

(** ** The system *)

Definition world_inv (w : world) : Prop :=
  ∀ lid, lock_inv (w_list w lid) (λ c, w_status w c lid) (λ c, w_request w c lid).

Lemma status_insert m k s lid : status (<[k := s]> m) lid = if decide (k = lid) then s else status m lid.
Proof.
  unfold status. destruct (decide (k = lid)) as [<-|]; [by rewrite lookup_insert_eq|by rewrite lookup_insert_ne].
Qed.

(** The client [c] changes the status of [k], and its request for [k] moves
    on. *)
Definition move (c : string) (k : Z) (s : lock_status) (d : string) (q : request) (w : world) : world :=
  set_request d k q (set_client c (<[k := s]> (w_clients w c)) w).

Lemma move_inv w c k s d q :
  world_inv w →
  lock_inv (w_list w k) (<[c := s]> (λ c, w_status w c k)) (<[d := q]> (λ c, w_request w c k)) →
  world_inv (move c k s d q w).
Proof.
  intros Hinv Hk lid. destruct (decide (k = lid)) as [<-|Hne].
  - eapply lock_inv_proper; [..|exact Hk]; intros x; unfold w_status; cbn.
    + destruct (decide (c = x)) as [<-|]; [rewrite !fn_lookup_insert, status_insert, decide_True by done; done|by rewrite !fn_lookup_insert_ne].
    + destruct (decide (d = x)) as [<-|]; [by rewrite !fn_lookup_insert|by rewrite !fn_lookup_insert_ne].
  - eapply lock_inv_proper; [..|exact (Hinv lid)]; intros x; unfold w_status; cbn.
    + destruct (decide (c = x)) as [<-|]; [rewrite !fn_lookup_insert, status_insert, decide_False by done; done|by rewrite !fn_lookup_insert_ne].
    + destruct (decide (d = x)) as [<-|]; [by rewrite fn_lookup_insert, fn_lookup_insert_ne|by rewrite fn_lookup_insert_ne].
Qed.

(** The server changes the list of [k]. *)
Lemma serve_inv w c k q s l :
  world_inv w → default [] (sc_lock_client_list s !! k) = l →
  (∀ lid, lid ≠ k → default [] (sc_lock_client_list s !! lid) = w_list w lid) →
  lock_inv l (λ c, w_status w c k) (<[c := q]> (λ c, w_request w c k)) →
  world_inv (set_request c k q (set_server s w)).
Proof.
  intros Hinv El Eo Hk lid. unfold w_list at 1. cbn [w_server set_request set_server].
  destruct (decide (k = lid)) as [<-|Hne].
  - rewrite El. eapply lock_inv_proper; [..|exact Hk]; intros x; [done|]. cbn.
    destruct (decide (c = x)) as [<-|]; [by rewrite !fn_lookup_insert|by rewrite !fn_lookup_insert_ne].
  - rewrite Eo by done. eapply lock_inv_proper; [..|exact (Hinv lid)]; intros x; [done|]. cbn.
    destruct (decide (c = x)) as [<-|]; [by rewrite fn_lookup_insert, fn_lookup_insert_ne|by rewrite fn_lookup_insert_ne].
Qed.

Lemma acquiring w c k q : world_inv w → w_request w c k = q → q ≠ Idle → w_status w c k = ACQUIRING.
Proof.
  intros Hinv E Hq. destruct (decide (w_status w c k = ACQUIRING)) as [|Hne]; [done|].
  apply (lv_acquiring _ _ _ (Hinv k) c) in Hne. congruence.
Qed.

(** What the server does with a request, given that its list has at most one
    client. *)
Lemma sc_acquire_ok w c k o s :
  world_inv w → w_request w c k = Sent → sc_acquire k c (w_server w) = (o, s) →
  (∀ lid, lid ≠ k → default [] (sc_lock_client_list s !! lid) = w_list w lid) ∧
  default [] (sc_lock_client_list s !! k) = [c] ∧
  (w_list w k = [] ∧ o = Answer lock_protocol.OK ∨ ∃ x, w_list w k = [x] ∧ x ≠ c ∧ o = Revoke x).
Proof.
  intros Hinv E. unfold sc_acquire, map_ref. pose proof (lv_list _ _ _ (Hinv k)) as Hl.
  destruct (sent_takes_no_part _ _ _ (Hinv k) c E) as [Hp _].
  assert (∀ (m : gmap Z (list string)) l lid, lid ≠ k → <[k := l]> m !! lid = m !! lid) as Hne.
  { intros m l lid Hn. by apply lookup_insert_ne. }
  assert (w_list w k = [] ∨ ∃ x, w_list w k = [x] ∧ x ≠ c) as Hcase.
  { destruct (w_list w k) as [|x [|]]; [by left| |done]. right. exists x. split; [done|]. intros ->. destruct Hl. congruence. }
  unfold w_list in Hcase |- *. destruct (sc_lock_client_list (w_server w) !! k) as [l|] eqn:El; cbn in Hcase.
  - destruct Hcase as [->|(x & -> & Hx)].
    + cbn. intros [= <- <-]. cbn. rewrite lookup_insert_eq. split_and!; [|done|by left].
      intros lid Hlid. by rewrite !Hne.
    + cbn. rewrite bool_decide_eq_false_2 by done. cbn. intros [= <- <-]. cbn. rewrite lookup_insert_eq.
      split_and!; [|done|right; by exists x]. intros lid Hlid. by rewrite !Hne.
  - cbn. intros [= <- <-]. cbn. rewrite lookup_insert_eq. split_and!; [|done|by left].
    intros lid Hlid. by rewrite !Hne.
Qed.

Lemma list_short w k : world_inv w → w_list w k !! 1%nat = None.
Proof. intros Hinv. pose proof (lv_list _ _ _ (Hinv k)) as Hl. by destruct (w_list w k) as [|x [|]]. Qed.

Lemma move_same w c k s :
  world_inv w →
  lock_inv (w_list w k) (<[c := s]> (λ c, w_status w c k)) (<[c := w_request w c k]> (λ c, w_request w c k)) →
  world_inv (set_client c (<[k := s]> (w_clients w c)) w).
Proof.
  intros Hinv Hk lid. pose proof (move_inv w c k s c (w_request w c k) Hinv Hk lid) as H.
  eapply lock_inv_proper; [..|exact H]; intros x; [done|]. cbn.
  destruct (decide (c = x)) as [<-|]; [|by rewrite fn_lookup_insert_ne].
  rewrite fn_lookup_insert. destruct (decide (k = lid)) as [<-|]; [by rewrite fn_lookup_insert|by rewrite fn_lookup_insert_ne].
Qed.

(** A status that changes while the client keeps its part. *)
Lemma keep_inv w c k s :
  world_inv w → w_request w c k = Idle → s ≠ ACQUIRING →
  has_token s Idle = has_token (w_status w c k) Idle → w_status w c k ≠ RELEASING →
  world_inv (set_client c (<[k := s]> (w_clients w c)) w).
Proof.
  intros Hinv E Hs Ht Hr. apply move_same; [done|]. rewrite E.
  apply (inv_same_part _ _ _ (Hinv k)); rewrite ?E; try done.
  unfold takes_part. by rewrite Ht.
Qed.

Lemma idle w c k : world_inv w → w_status w c k ≠ ACQUIRING → w_request w c k = Idle.
Proof. intros Hinv H. by apply (lv_acquiring _ _ _ (Hinv k)). Qed.

Lemma cache_step_inv w o : world_inv w → cache_step w o → ∃ w', o = Some w' ∧ world_inv w'.
Proof.
  intros Hinv Hst. destruct Hst as [w c k o m E|w c k o s E Es|w c p k m E Ec|w c p k m E Ec|w c p k r m E Ec
    |w c p k r retry s E Es|w c k r o m E Ec|w c k r E Hbad|w c k r m E Ec].
  - eexists. split; [done|]. unfold cc_acquire in E. fold (w_status w c k) in E.
    destruct (w_status w c k) eqn:Est; injection E as <- <-.
    3-6: intros lid; eapply lock_inv_proper; [..|exact (Hinv lid)]; intros x; [|done]; unfold w_status; cbn;
      destruct (decide (c = x)) as [<-|]; [by rewrite fn_lookup_insert|by rewrite fn_lookup_insert_ne].
    + apply move_inv; [done|]. assert (w_request w c k = Idle) as Ei by (apply idle; [done|congruence]).
      apply (inv_same_part _ _ _ (Hinv k)); rewrite ?Ei, ?Est; done.
    + apply keep_inv; [done|apply idle; [done|congruence]|done|by rewrite Est|congruence].
  - eexists. split; [done|]. destruct (sc_acquire_ok w c k o s Hinv E Es) as (Eo & Ek & Hq).
    eapply serve_inv; [done|exact Ek|exact Eo|]. apply (inv_serve _ _ _ (Hinv k)); [done|by eapply acquiring|].
    destruct Hq as [[? ->]|(x & ? & ? & ->)]; [by left|right; by exists x].
  - eexists. split; [done|]. unfold cc_revoke in Ec. fold (w_status w p k) in Ec.
    destruct (w_status w p k) eqn:Est; try done. injection Ec as <-.
    apply move_inv; [done|]. by apply (inv_releasing _ _ _ (Hinv k)).
  - exfalso. unfold cc_revoke in Ec. fold (w_status w p k) in Ec.
    destruct (w_status w p k) eqn:Est; try done.
    assert (w_request w p k = Idle) as Ei by (apply idle; [done|congruence]).
    assert (takes_part (w_status w p k) (w_request w p k) = true) as Hp.
    { apply (lv_waits _ _ _ (Hinv k) c). rewrite E. cbn. by apply bool_decide_eq_true. }
    by rewrite Est, Ei in Hp.
  - eexists. split; [done|]. unfold cc_revoke_end in Ec. injection Ec as _ <-.
    apply move_inv; [done|]. by apply (inv_given_up _ _ _ (Hinv k)).
  - unfold sc_revoked, map_ref in Es. cbn [VERIFY rbind] in Es.
    change (rlock_protocol.OK =? rlock_protocol.OK) with true in Es. cbn [VERIFY rbind] in Es.
    pose proof (list_short w k Hinv) as Hs. unfold w_list in Hs.
    assert (retry = None ∧ r = lock_protocol.OK ∧ ∀ lid, default [] (sc_lock_client_list s !! lid) = w_list w lid)
      as (-> & -> & Es').
    { unfold w_list. destruct (sc_lock_client_list (w_server w) !! k) as [l|] eqn:El; injection Es as <- <- <-; [done|].
      split_and!; [done|done|]. intros lid. cbn. destruct (decide (k = lid)) as [<-|];
        [by rewrite lookup_insert_eq, El|by rewrite lookup_insert_ne]. }
    eexists. split; [done|]. eapply serve_inv; [done|apply Es'|intros; apply Es'|].
    assert (w_status w c k = ACQUIRING) as Est by (by eapply acquiring).
    eapply lock_inv_proper; [..|eapply (inv_same_part _ _ _ (Hinv k) c ACQUIRING (Granted lock_protocol.OK))];
      rewrite ?E, ?Est; try done; [|by intros ? [= <-]].
    intros x. destruct (decide (c = x)) as [<-|]; [by rewrite fn_lookup_insert|by rewrite fn_lookup_insert_ne].
  - eexists. split; [done|]. assert (w_status w c k = ACQUIRING) as Est by (by eapply acquiring).
    unfold cc_answer in Ec. destruct (r =? lock_protocol.RETRY); [done|].
    apply rbind_Ret in Ec as ([] & _ & [= _ <-]). apply move_inv; [done|].
    apply (inv_same_part _ _ _ (Hinv k)); rewrite ?E, ?Est; done.
  - exfalso. pose proof (lv_granted _ _ _ (Hinv k) c r E) as ->. by eapply Hbad.
  - eexists. split; [done|]. injection Ec as _ <-.
    apply keep_inv; [done|apply idle; [done|congruence]|done|by rewrite E|congruence].
Qed.

Lemma cache_run_inv w : cache_run w → world_inv w.
Proof.
  induction 1 as [|w w' _ IH Hst].
  - intros lid. assert (w_list world_init lid = []) as El by done. rewrite El. split; cbn; try done.
  - destruct (cache_step_inv _ _ IH Hst) as (w2 & [= <-] & ?). done.
Qed.

(** C24: the caching lock service of lab 4 works.  In every interleaving of
    clients and server, at most one client has a lock locked; and no run goes
    wrong: a client that is asked to give a lock up always has it or gets it
    (the error answer with the locked mutex is never taken), the server never
    answers [RETRY] and never unlocks its mutex twice. *)
Theorem cache_exclusion w c c' lid :
  cache_run w →
  (w_status w c lid = LOCKED → w_status w c' lid = LOCKED → c = c') ∧
  (∀ o, cache_step w o → o ≠ None) ∧ (∀ r, w_request w c lid = Granted r → r = lock_protocol.OK).
Proof.
  intros Hinv%cache_run_inv. split_and!.
  - intros E E'. apply (lv_token _ _ _ (Hinv lid)); [by rewrite E|by rewrite E'].
  - intros o Hst. by destruct (cache_step_inv w o Hinv Hst) as (w' & -> & _).
  - apply (lv_granted _ _ _ (Hinv lid)).
Qed.

Lemma revoked_step w c p lid r s :
  w_request w c lid = Waiting p Answered → sc_revoked rlock_protocol.OK lid (w_server w) = Ret (r, None, s) →
  cache_step w (Some (set_request c lid (Granted r) (set_server s w))).
Proof. intros E Es. exact (CS_revoked w c p lid r None s E Es). Qed.

(** The second client gets the lock after the first has given it up. *)
Lemma demo_cache_run : ∃ w, cache_run w ∧ w_status w "b" 5 = LOCKED ∧ w_status w "a" 5 = NONE.
Proof.
  epose proof (CR_step _ _ CR_init ltac:(eapply (CS_acquire _ "a" 5); reflexivity)) as H.
  epose proof (CR_step _ _ H ltac:(eapply (CS_serve _ "a" 5); reflexivity)) as H1. clear H.
  epose proof (CR_step _ _ H1 ltac:(eapply (CS_answer _ "a" 5); reflexivity)) as H2. clear H1.
  epose proof (CR_step _ _ H2 ltac:(eapply (CS_acquire _ "b" 5); reflexivity)) as H3. clear H2.
  epose proof (CR_step _ _ H3 ltac:(eapply (CS_serve _ "b" 5); reflexivity)) as H4. clear H3.
  epose proof (CR_step _ _ H4 ltac:(eapply (CS_release _ "a" 5); reflexivity)) as H5. clear H4.
  epose proof (CR_step _ _ H5 ltac:(eapply (CS_revoke _ "b" "a" 5); reflexivity)) as H6. clear H5.
  epose proof (CR_step _ _ H6 ltac:(eapply (CS_revoke_end _ "b" "a" 5); reflexivity)) as H7. clear H6.
  epose proof (CR_step _ _ H7 ltac:(eapply (revoked_step _ "b" "a" 5); reflexivity)) as H8. clear H7.
  epose proof (CR_step _ _ H8 ltac:(eapply (CS_answer _ "b" 5); reflexivity)) as H9. clear H8.
  eexists. split; [exact H9|]. split; reflexivity.
Qed.

Lemma cache_exclusion_witness : ∃ w, w_status w "b" 5 = LOCKED ∧ ∀ c, w_status w c 5 = LOCKED → c = "b".
Proof.
  destruct demo_cache_run as (w & Hrun & Eb & _). exists w. split; [exact Eb|]. intros c Ec.
  exact (proj1 (cache_exclusion w c "b" 5 Hrun) Ec Eb).
Defined.
