(* ===== verification/FsTester.v ===== *)
(** * The testers of the file system (test-lab-3-b.c, test-lab-3-c.c)

    Programs that make system calls, fork a child and wait for it.  The
    functions of the sources return nothing and leave by [exit], so each takes
    the rest of its program; a program is a tree of system calls.  The file
    system below them is not part of the testers: an interface says which
    answers to the calls are right for two mount points of one file system,
    and the theorems hold for every file system that meets it. *)

From stdpp Require Import functions sorting.
From S2P Require Import Prelude Marshall Protocols Streams.

Abbreviation bytes := (list ascii).

(** ** Programs *)

Definition EEXIST : Z := 17.
Definition O_WRONLY : Z := 0x1.
Definition O_CREAT : Z := 0x40.
Definition O_APPEND : Z := 0x400.

(** [Readdir] is [opendir], [readdir] up to its end and [closedir]; [Lseek] is
    from the start of the file. *)
Inductive call :=
| Creat (path : bytes)
| Open (path : bytes) (flags : Z)
| Read (fd count : Z)
| Write (fd : Z) (buf : bytes)
| Lseek (fd off : Z)
| Fsync (fd : Z)
| Close (fd : Z)
| Unlink (path : bytes)
| Readdir (path : bytes)
| Mkdir (path : bytes)
| Access (path : bytes).

#[export] Instance call_eq_dec : EqDecision call.
Proof. solve_decision. Defined.

(** The value returned and [errno]; the bytes read; the names listed. *)
Definition answer (c : call) : Type :=
  match c with
  | Read _ _ => option bytes
  | Readdir _ => option (list bytes)
  | _ => (Z * Z)%type
  end.

(** [Reap] waits for the child; [Undefined]: the program has left what the
    language defines. *)
Inductive prog :=
| Exit (code : Z)
| Undefined
| Call (c : call) (k : answer c → prog)
| Fork (child k : prog)
| Reap (k : prog).

Definition creat (path : bytes) (k : Z → Z → prog) : prog := Call (Creat path) (λ r, k r.1 r.2).
Definition open (path : bytes) (flags : Z) (k : Z → Z → prog) : prog := Call (Open path flags) (λ r, k r.1 r.2).
Definition read (fd count : Z) (k : option bytes → prog) : prog := Call (Read fd count) k.
Definition write (fd : Z) (buf : bytes) (k : Z → Z → prog) : prog := Call (Write fd buf) (λ r, k r.1 r.2).
Definition lseek (fd off : Z) (k : Z → Z → prog) : prog := Call (Lseek fd off) (λ r, k r.1 r.2).
Definition fsync (fd : Z) (k : Z → Z → prog) : prog := Call (Fsync fd) (λ r, k r.1 r.2).
Definition close (fd : Z) (k : Z → Z → prog) : prog := Call (Close fd) (λ r, k r.1 r.2).
Definition unlink (path : bytes) (k : Z → Z → prog) : prog := Call (Unlink path) (λ r, k r.1 r.2).
Definition readdir (path : bytes) (k : option (list bytes) → prog) : prog := Call (Readdir path) k.
Definition mkdir (path : bytes) (k : Z → Z → prog) : prog := Call (Mkdir path) (λ r, k r.1 r.2).
Definition access (path : bytes) (k : Z → Z → prog) : prog := Call (Access path) (λ r, k r.1 r.2).

Declare Scope tester_scope.
Delimit Scope tester_scope with tester.
(** A statement and the rest of the program. *)
Notation "c ▷ k" := (c k) (at level 60, right associativity, only parsing) : tester_scope.
Open Scope tester_scope.

(** ** Strings *)

Definition NUL : ascii := "000"%char.
Definition slash : ascii := "/"%char.
Definition path (d f : bytes) : bytes := d ++ slash :: f.

(** [sprintf] into an array of [size] characters. *)
Definition sprintf (size : nat) (s : bytes) (k : bytes → prog) : prog :=
  if (length s <? size)%nat then k s else Undefined.

(** The arguments end in a null character. *)
Fixpoint strncmp (n : nat) (s t : bytes) : Z :=
  match n, s, t with
  | S n, c :: s, d :: t =>
      if bool_decide (c = d) then if bool_decide (c = NUL) then 0 else strncmp n s t
      else Z.of_nat (nat_of_ascii c) - Z.of_nat (nat_of_ascii d)
  | _, _, _ => 0
  end.
Definition strcmp (s t : bytes) : Z := strncmp (S (length s)) (s ++ [NUL]) (t ++ [NUL]).

(** The four bytes of an [int] in memory. *)
Definition le32 (i : Z) : bytes := rev (be32 (u32 i)).
Definition of_le (b : bytes) : Z := s32 (of_be (rev b)).

(** ** The functions of the testers *)

(** Arguments that are C strings are given without the null character. *)
Definition create1 (d f inp : bytes) (k : prog) : prog :=
  sprintf 512 (path d f) (λ n,
  creat n (λ fd _,
  if fd <? 0 then Exit 1 else
  write fd inp (λ r _,
  if negb (r =? Z.of_nat (length inp)) then Exit 1 else
  close fd (λ r _,
  if negb (r =? 0) then Exit 1 else k)))).

(** [bufsize]: the size of the array [buf]. *)
Definition check1_buf (bufsize : Z) (d f inp : bytes) (k : prog) : prog :=
  sprintf 512 (path d f) (λ n,
  open n 0 (λ fd _,
  if fd <? 0 then Exit 1 else
  read fd (bufsize - 1) (λ buf,
  match buf with
  | None => Exit 1
  | Some buf =>
      if negb (Z.of_nat (length buf) =? Z.of_nat (length inp)) then Exit 1 else
      close fd (λ _ _,
      if negb (strncmp (length n) (buf ++ [NUL]) (inp ++ [NUL]) =? 0) then Exit 1 else k)
  end))).
Definition check1 : bytes → bytes → bytes → prog → prog := check1_buf 21000.

Definition unlink1 (d f : bytes) (k : prog) : prog :=
  sprintf 512 (path d f) (λ n,
  unlink n (λ r _,
  if negb (r =? 0) then Exit 1 else k)).

Definition checknot (d f : bytes) (k : prog) : prog :=
  sprintf 512 (path d f) (λ n,
  open n 0 (λ fd _,
  if 0 <=? fd then Exit 1 else k)).

Definition append1 (d f inp : bytes) (k : prog) : prog :=
  sprintf 512 (path d f) (λ n,
  open n (Z.lor O_WRONLY O_APPEND) (λ fd _,
  if fd <? 0 then Exit 1 else
  write fd inp (λ r _,
  if negb (r =? Z.of_nat (length inp)) then Exit 1 else
  close fd (λ r _,
  if negb (r =? 0) then Exit 1 else k)))).

Fixpoint write1_loop (fd : Z) (n : nat) (c : ascii) (k : prog) : prog :=
  match n with
  | O => k
  | S n =>
      write fd [c] (λ r _,
      if negb (r =? 1) then Exit 1 else
      fsync fd (λ r _,
      if negb (r =? 0) then Exit 1 else write1_loop fd n c k))
  end.

Definition write1_opened (start : Z) (n : nat) (c : ascii) (k : prog) (fd : Z) : prog :=
  if fd <? 0 then Exit 1 else
  lseek fd start (λ r _,
  if negb (r =? start) then Exit 1 else
  write1_loop fd n c (close fd (λ r _,
  if negb (r =? 0) then Exit 1 else k))).

Definition write1 (d f : bytes) (start : Z) (n : nat) (c : ascii) (k : prog) : prog :=
  sprintf 512 (path d f) (λ name,
  open name (Z.lor O_WRONLY O_CREAT) (λ fd errno,
  if (fd <? 0) && (errno =? EEXIST) then open name O_WRONLY (λ fd _, write1_opened start n c k fd)
  else write1_opened start n c k fd)).

Fixpoint checkread_loop (fd : Z) (n : nat) (c : ascii) (k : prog) : prog :=
  match n with
  | O => k
  | S n =>
      read fd 1 (λ r,
      match r with
      | Some [xc] => if negb (bool_decide (xc = c)) then Exit 1 else checkread_loop fd n c k
      | _ => Exit 1
      end)
  end.

Definition checkread (d f : bytes) (start : Z) (n : nat) (c : ascii) (k : prog) : prog :=
  sprintf 512 (path d f) (λ name,
  open name 0 (λ fd _,
  if fd <? 0 then Exit 1 else
  lseek fd start (λ r _,
  if negb (r =? start) then Exit 1 else
  checkread_loop fd n c (close fd (λ _ _, k))))).

(** ["%s-%d"] *)
Definition numbered (prefix : bytes) (i : nat) : bytes := prefix ++ "-"%char :: show_unsigned (Z.of_nat i).

(** The loops count up: [n] turns are left, the next is for [i]. *)
Fixpoint createn_loop (d prefix : bytes) (possible_dup : bool) (n i : nat) (k : prog) : prog :=
  match n with
  | O => k
  | S n =>
      sprintf 512 (path d (numbered prefix i)) (λ p,
      creat p (λ fd errno,
      if (fd <? 0) && possible_dup && (errno =? EEXIST) then createn_loop d prefix possible_dup n (S i) k else
      if fd <? 0 then Exit 1 else
      write fd (le32 (Z.of_nat i)) (λ r _,
      if negb (r =? 4) then Exit 1 else
      close fd (λ r _,
      if negb (r =? 0) then Exit 1 else createn_loop d prefix possible_dup n (S i) k))))
  end.
Definition createn (d prefix : bytes) (nf : nat) (possible_dup : bool) : prog → prog :=
  createn_loop d prefix possible_dup nf 0.

Fixpoint checkn_loop (d prefix : bytes) (n i : nat) (k : prog) : prog :=
  match n with
  | O => k
  | S n =>
      sprintf 512 (path d (numbered prefix i)) (λ p,
      open p 0 (λ fd _,
      if fd <? 0 then Exit 1 else
      read fd 4 (λ r,
      match r with
      | None => Exit 1
      | Some j =>
          if negb (Z.of_nat (length j) =? 4) then Exit 1 else
          if negb (of_le j =? Z.of_nat i) then Exit 1 else
          close fd (λ _ _, checkn_loop d prefix n (S i) k)
      end)))
  end.
Definition checkn (d prefix : bytes) (nf : nat) : prog → prog := checkn_loop d prefix nf 0.

Fixpoint unlinkn_loop (d prefix : bytes) (n i : nat) (k : prog) : prog :=
  match n with
  | O => k
  | S n =>
      sprintf 512 (path d (numbered prefix i)) (λ p,
      unlink p (λ r _,
      if negb (r =? 0) then Exit 1 else unlinkn_loop d prefix n (S i) k))
  end.
Definition unlinkn (d prefix : bytes) (nf : nat) : prog → prog := unlinkn_loop d prefix nf 0.

(** [e->d_name\[0\] != '.'] *)
Definition visible (name : bytes) : bool := match name with c :: _ => negb (bool_decide (c = "."%char)) | [] => true end.

(** [qsort(names, nnames, sizeof(names\[0\]), compar)] *)
Definition strcmp_le (s t : bytes) : Prop := strcmp s t ≤ 0.
#[export] Instance strcmp_le_dec s t : Decision (strcmp_le s t) := Z_le_dec _ _.
Definition qsort : list bytes → list bytes := merge_sort strcmp_le.

Fixpoint has_duplicate (names : list bytes) : bool :=
  match names with
  | s :: (t :: _) as names' => if strcmp s t =? 0 then true else has_duplicate names'
  | _ => false
  end.

(** The array [names] has 1000 elements; when it is full the code warns and
    stores all the same. *)
Definition dircheck (d : bytes) (nf : nat) (k : prog) : prog :=
  readdir d (λ r,
  match r with
  | None => Exit 1
  | Some es =>
      let names := List.filter visible es in
      if (1000 <? length names)%nat then Undefined else
      if negb (nf =? length names)%nat then Exit 1 else
      if has_duplicate (qsort names) then Exit 1 else k
  end).

Definition reap (k : prog) : prog := Reap k.

Definition big : bytes := replicate (Z.to_nat 20000) "x"%char.
Definition huge : bytes := replicate (Z.to_nat (65536 * 2)) "0"%char.

(** ** test-lab-3-b *)

Definition create_then_read (d1 d2 : bytes) (k : prog) : prog :=
  create1 d1 (chars "f1") (chars "aaa") ▷
  check1 d2 (chars "f1") (chars "aaa") ▷
  check1 d1 (chars "f1") (chars "aaa") ▷ k.

Definition unlink_test (d1 d2 : bytes) (k : prog) : prog :=
  unlink1 d2 (chars "f1") ▷
  create1 d1 (chars "fx1") (chars "fxx") ▷
  unlink1 d1 (chars "fx1") ▷
  checknot d1 (chars "f1") ▷
  checknot d2 (chars "f1") ▷
  create1 d1 (chars "f2") (chars "222") ▷
  unlink1 d2 (chars "f2") ▷
  checknot d1 (chars "f2") ▷
  checknot d2 (chars "f2") ▷
  create1 d1 (chars "f3") (chars "333") ▷
  check1 d2 (chars "f3") (chars "333") ▷
  check1 d1 (chars "f3") (chars "333") ▷
  unlink1 d1 (chars "f3") ▷
  create1 d2 (chars "fx2") (chars "22") ▷
  unlink1 d2 (chars "fx2") ▷
  checknot d2 (chars "f3") ▷
  checknot d1 (chars "f3") ▷ k.

Definition append_test (d1 d2 : bytes) (k : prog) : prog :=
  create1 d2 (chars "f1") (chars "aaa") ▷
  append1 d1 (chars "f1") (chars "bbb") ▷
  append1 d2 (chars "f1") (chars "ccc") ▷
  check1 d1 (chars "f1") (chars "aaabbbccc") ▷
  check1 d2 (chars "f1") (chars "aaabbbccc") ▷ k.

Definition readdir_test (d1 d2 : bytes) (k : prog) : prog :=
  dircheck d1 1 ▷ dircheck d2 1 ▷
  unlink1 d1 (chars "f1") ▷
  dircheck d1 0 ▷ dircheck d2 0 ▷
  create1 d2 (chars "f2") (chars "aaa") ▷
  create1 d1 (chars "f3") (chars "aaa") ▷
  dircheck d1 2 ▷ dircheck d2 2 ▷
  unlink1 d2 (chars "f2") ▷
  dircheck d2 1 ▷ dircheck d1 1 ▷
  unlink1 d2 (chars "f3") ▷
  dircheck d1 0 ▷ dircheck d2 0 ▷ k.

Definition many_creates (d1 d2 : bytes) (k : prog) : prog :=
  createn d1 (chars "aa") 10 false ▷
  createn d2 (chars "bb") 10 false ▷
  dircheck d2 20 ▷
  checkn d2 (chars "bb") 10 ▷
  checkn d2 (chars "aa") 10 ▷
  checkn d1 (chars "aa") 10 ▷
  checkn d1 (chars "bb") 10 ▷
  unlinkn d1 (chars "aa") 10 ▷
  unlinkn d2 (chars "bb") 10 ▷ k.

Definition big_write (d1 d2 : bytes) (k : prog) : prog :=
  create1 d1 (chars "bf") big ▷
  check1 d1 (chars "bf") big ▷
  check1 d2 (chars "bf") big ▷
  unlink1 d1 (chars "bf") ▷ k.

Definition concurrent_creates (d1 d2 : bytes) (k : prog) : prog :=
  Fork (createn d2 (chars "xx") 20 false ▷ Exit 0) ▷
  createn d1 (chars "yy") 20 false ▷
  reap ▷
  dircheck d1 40 ▷
  checkn d1 (chars "xx") 20 ▷
  checkn d2 (chars "yy") 20 ▷
  unlinkn d1 (chars "xx") 20 ▷
  unlinkn d1 (chars "yy") 20 ▷ k.

Definition same_file_creates (d1 d2 : bytes) (k : prog) : prog :=
  Fork (createn d2 (chars "zz") 20 true ▷ Exit 0) ▷
  createn d1 (chars "zz") 20 true ▷
  dircheck d1 20 ▷
  reap ▷
  checkn d1 (chars "zz") 20 ▷
  checkn d2 (chars "zz") 20 ▷
  unlinkn d1 (chars "zz") 20 ▷ k.

Definition create_delete (d1 d2 : bytes) (k : prog) : prog :=
  createn d1 (chars "x1") 20 false ▷
  createn d2 (chars "x2") 20 false ▷
  Fork (unlinkn d2 (chars "x1") 20 ▷ createn d1 (chars "x3") 20 false ▷ Exit 0) ▷
  createn d1 (chars "x4") 20 false ▷
  reap ▷
  unlinkn d2 (chars "x2") 20 ▷
  unlinkn d2 (chars "x4") 20 ▷
  unlinkn d2 (chars "x3") 20 ▷
  dircheck d1 0 ▷ k.

Definition same_server_creates (d1 : bytes) (k : prog) : prog :=
  Fork (createn d1 (chars "zz") 20 true ▷ Exit 0) ▷
  createn d1 (chars "zz") 20 true ▷
  dircheck d1 20 ▷
  reap ▷
  checkn d1 (chars "zz") 20 ▷
  unlinkn d1 (chars "zz") 20 ▷ k.

Definition concurrent_writes (d1 d2 : bytes) (k : prog) : prog :=
  create1 d1 (chars "www") huge ▷
  Fork (write1 d2 (chars "www") 65536 64 "2" ▷ Exit 0) ▷
  write1 d1 (chars "www") 0 64 "1" ▷
  reap ▷
  checkread d1 (chars "www") 0 64 "1" ▷
  checkread d2 (chars "www") 0 64 "1" ▷
  checkread d1 (chars "www") 65536 64 "2" ▷
  checkread d2 (chars "www") 65536 64 "2" ▷ k.

(** [getpid]: the number of the process. *)
Definition lab3b_main (getpid : Z) (argv : list bytes) : prog :=
  match argv with
  | [_; arg1; arg2] =>
      sprintf 512 (path arg1 ("d"%char :: show_unsigned getpid)) (λ d1,
      mkdir d1 (λ r _,
      if negb (r =? 0) then Exit 1 else
      sprintf 512 (path arg2 ("d"%char :: show_unsigned getpid)) (λ d2,
      access d2 (λ r _,
      if negb (r =? 0) then Exit 1 else
      create_then_read d1 d2 ▷ unlink_test d1 d2 ▷ append_test d1 d2 ▷ readdir_test d1 d2 ▷ many_creates d1 d2 ▷
      big_write d1 d2 ▷ concurrent_creates d1 d2 ▷ same_file_creates d1 d2 ▷ create_delete d1 d2 ▷
      same_server_creates d1 ▷ concurrent_writes d1 d2 ▷ Exit 0))))
  | _ => Exit 1
  end.

(** ** test-lab-3-c *)

(** Its copies of the functions differ from those above in the size of the
    buffer of [check1] and in the argument [possible_dup]. *)
Definition lab3c_check1 : bytes → bytes → bytes → prog → prog := check1_buf 512.
Definition lab3c_createn (d prefix : bytes) (nf : nat) : prog → prog := createn d prefix nf false.
Definition lab3c_unlinkn : bytes → bytes → nat → prog → prog := unlinkn.
Definition lab3c_dircheck : bytes → nat → prog → prog := dircheck.

Definition separate_directories (d1 d2 : bytes) (k : prog) : prog :=
  Fork (lab3c_createn d2 (chars "xx") 100 ▷ lab3c_unlinkn d2 (chars "xx") 99 ▷ Exit 0) ▷
  lab3c_createn d1 (chars "yy") 100 ▷
  lab3c_unlinkn d1 (chars "yy") 99 ▷
  reap ▷
  lab3c_dircheck d1 1 ▷
  lab3c_dircheck d2 1 ▷ k.

Definition lab3c_main (getpid : Z) (argv : list bytes) : prog :=
  match argv with
  | [_; arg1; arg2] =>
      sprintf 512 (path arg1 (chars "da" ++ show_unsigned getpid)) (λ d1,
      mkdir d1 (λ r _,
      if negb (r =? 0) then Exit 1 else
      sprintf 512 (path arg2 (chars "db" ++ show_unsigned getpid)) (λ d2,
      mkdir d2 (λ r _,
      if negb (r =? 0) then Exit 1 else
      sprintf 512 (path arg2 (chars "da" ++ show_unsigned getpid)) (λ dd,
      access dd (λ r _,
      if negb (r =? 0) then Exit 1 else
      separate_directories d1 d2 ▷ Exit 0))))))
  | _ => Exit 1
  end.

(** ** The file system *)

(** A file is named by the components of its path below the mount point.  A
    file that is removed and created again is another file: [ino] tells them
    apart. *)
Abbreviation fpath := (list bytes).
Inductive node := Dir | File (ino : nat) (data : bytes).
Record openfile := OpenFile { of_path : fpath; of_ino : nat; of_off : nat; of_append : bool }.

(** The tree, and for each process its open files. *)
Record posix := Posix { px_nodes : gmap fpath node; px_fds : nat → gmap Z openfile }.

Definition set_fd (pid : nat) (fd : Z) (o : openfile) (s : posix) : posix :=
  Posix (px_nodes s) (<[pid := <[fd := o]> (px_fds s pid)]> (px_fds s)).
Definition set_node (p : fpath) (n : node) (s : posix) : posix := Posix (<[p := n]> (px_nodes s)) (px_fds s).

(** The file behind a descriptor, while it has its name. *)
Definition open_data (s : posix) (pid : nat) (fd : Z) : option (openfile * bytes) :=
  match px_fds s pid !! fd with
  | Some o =>
      match px_nodes s !! of_path o with
      | Some (File i c) => if bool_decide (i = of_ino o) then Some (o, c) else None
      | _ => None
      end
  | None => None
  end.

(** [write] of [buf] at [pos]. *)
Definition overwrite (c : bytes) (pos : nat) (buf : bytes) : bytes :=
  take pos c ++ replicate (pos - length c) NUL ++ buf ++ drop (pos + length buf) c.

Definition failed (r : Z * Z) : Prop := r.1 = -1.

(** A descriptor of the process that is not in use is chosen. *)
Definition opens (pid : nat) (p : fpath) (i : nat) (app : bool) (s : posix) (r : Z * Z) (s' : posix) : Prop :=
  0 ≤ r.1 ∧ px_fds s pid !! r.1 = None ∧ s' = set_fd pid r.1 (OpenFile p i 0 app) s.

(** A new file is none of those that the two processes have open. *)
Definition makes (pid : nat) (p : fpath) (app : bool) (s : posix) (r : Z * Z) (s' : posix) : Prop :=
  ∃ i, (∀ q fd o, (q ≤ 1)%nat → px_fds s q !! fd = Some o → of_path o = p → of_ino o ≠ i) ∧
    opens pid p i app (set_node p (File i []) s) r s'.

Definition in_dir (p : fpath) (s : posix) : Prop := px_nodes s !! removelast p = Some Dir.
Definition has_flag (flags bit : Z) : bool := negb (Z.land flags bit =? 0).

Section posix.
(** The components of a path. *)
Context (resolve : bytes → fpath).

(** The answers that are right for a call of process [pid]: the calls do not
    fail for lack of space and the like, reads and writes are complete, and a
    file that exists may be reported as such to a call that creates it. *)
Definition posix_step (pid : nat) (s : posix) (c : call) : answer c → posix → Prop :=
  match c with
  | Creat path => λ r s',
      let p := resolve path in
      match px_nodes s !! p with
      | Some Dir => failed r ∧ s' = s
      | Some (File i _) => opens pid p i false (set_node p (File i []) s) r s' ∨ (r = (-1, EEXIST) ∧ s' = s)
      | None => (in_dir p s ∧ makes pid p false s r s') ∨ (¬ in_dir p s ∧ failed r ∧ s' = s)
      end
  | Open path flags => λ r s',
      let p := resolve path in
      match px_nodes s !! p with
      | Some Dir => failed r ∧ s' = s
      | Some (File i _) =>
          opens pid p i (has_flag flags O_APPEND) s r s' ∨ (has_flag flags O_CREAT = true ∧ r = (-1, EEXIST) ∧ s' = s)
      | None =>
          if has_flag flags O_CREAT then
            (in_dir p s ∧ makes pid p (has_flag flags O_APPEND) s r s') ∨ (¬ in_dir p s ∧ failed r ∧ s' = s)
          else failed r ∧ s' = s
      end
  | Read fd count => λ r s',
      match open_data s pid fd with
      | Some (o, c) =>
          let b := take (Z.to_nat count) (drop (of_off o) c) in
          r = Some b ∧ s' = set_fd pid fd (OpenFile (of_path o) (of_ino o) (of_off o + length b) (of_append o)) s
      | None => s' = s
      end
  | Write fd buf => λ r s',
      match open_data s pid fd with
      | Some (o, c) =>
          let pos := if of_append o then length c else of_off o in
          r.1 = Z.of_nat (length buf) ∧
          s' = set_fd pid fd (OpenFile (of_path o) (of_ino o) (pos + length buf) (of_append o))
            (set_node (of_path o) (File (of_ino o) (overwrite c pos buf)) s)
      | None => s' = s
      end
  | Lseek fd off => λ r s',
      match px_fds s pid !! fd with
      | Some o =>
          if bool_decide (0 ≤ off) then r.1 = off ∧ s' = set_fd pid fd (OpenFile (of_path o) (of_ino o) (Z.to_nat off) (of_append o)) s
          else failed r ∧ s' = s
      | None => failed r ∧ s' = s
      end
  | Fsync fd => λ r s', (if bool_decide (is_Some (px_fds s pid !! fd)) then r.1 = 0 else failed r) ∧ s' = s
  | Close fd => λ r s',
      match px_fds s pid !! fd with
      | Some _ => r.1 = 0 ∧ s' = Posix (px_nodes s) (<[pid := delete fd (px_fds s pid)]> (px_fds s))
      | None => failed r ∧ s' = s
      end
  | Unlink path => λ r s',
      let p := resolve path in
      match px_nodes s !! p with
      | Some (File _ _) => r.1 = 0 ∧ s' = Posix (delete p (px_nodes s)) (px_fds s)
      | _ => failed r ∧ s' = s
      end
  | Readdir path => λ r s',
      let p := resolve path in
      match px_nodes s !! p with
      | Some Dir =>
          s' = s ∧ ∃ l, r = Some l ∧ NoDup (List.filter visible l) ∧
            ∀ n, visible n = true → n ∈ l ↔ is_Some (px_nodes s !! (p ++ [n]))
      | _ => r = None ∧ s' = s
      end
  | Mkdir path => λ r s',
      let p := resolve path in
      match px_nodes s !! p with
      | None => (in_dir p s ∧ r.1 = 0 ∧ s' = set_node p Dir s) ∨ (¬ in_dir p s ∧ failed r ∧ s' = s)
      | Some _ => failed r ∧ s' = s
      end
  | Access path => λ r s', (if bool_decide (is_Some (px_nodes s !! resolve path)) then r.1 = 0 else failed r) ∧ s' = s
  end.

(** The child starts with the open files of the process that forks. *)
Definition fork_fds (s : posix) : posix := Posix (px_nodes s) (<[1%nat := px_fds s 0%nat]> (px_fds s)).
End posix.

(** What a tester runs on, and what it relies on: every call returns, and
    its answer is right for a state that the calls and nothing else
    change. *)
Class FileSystem (W : Type) := {
  fs_call : nat → W → ∀ c : call, answer c → W → Prop;
  fs_fork : W → W }.

Class Coherent (W : Type) `{FileSystem W} (resolve : bytes → fpath) := {
  fs_view : W → posix;
  fs_call_right pid w c r w' : fs_call pid w c r w' → posix_step resolve pid (fs_view w) c r (fs_view w');
  fs_call_returns pid w c : ∃ r w', fs_call pid w c r w';
  fs_fork_view w : fs_view (fs_fork w) = fork_fds (fs_view w) }.

(** ** Running a tester *)

(** The process, its child while there is one, and the file system. *)
Record conf (W : Type) := Conf { c_main : prog; c_child : option prog; c_fs : W }.
Arguments Conf {W}.
Arguments c_main {W}.
Arguments c_child {W}.
Arguments c_fs {W}.

(** The steps of the two processes in any order; [reap] waits for the end of
    the child and exits if it did not exit with 0. *)
Inductive tester_run {W} `{FileSystem W} : conf W → conf W → Prop :=
| run_main c k ch w r w' : fs_call 0 w c r w' → tester_run (Conf (Call c k) ch w) (Conf (k r) ch w')
| run_child p c k w r w' : fs_call 1 w c r w' → tester_run (Conf p (Some (Call c k)) w) (Conf p (Some (k r)) w')
| run_fork child k w : tester_run (Conf (Fork child k) None w) (Conf k (Some child) (fs_fork w))
| run_reap k code w :
    tester_run (Conf (Reap k) (Some (Exit code)) w) (Conf (if negb (code =? 0) then Exit 1 else k) None w).

(** Every run ends, and it ends with [exit(0)]. *)
Inductive passes {W} `{FileSystem W} : conf W → Prop :=
| passes_end w : passes (Conf (Exit 0) None w)
| passes_step c : (∃ c', tester_run c c') → (∀ c', tester_run c c' → passes c') → passes c.
