(* ===== verification/FsLogic.v ===== *)
(** * A logic for the testers of the file system

    Each of the two processes relies on what the other may do to the file
    system and guarantees what it does itself (rely and guarantee).  The logic
    is sound for the runs of FsTester.v on every coherent file system, and
    there is a rule for each function of the testers. *)

From stdpp Require Import functions sorting.
From S2P Require Import Prelude Marshall Protocols Streams FsTester.

(** ** The logic *)

(** A process alone, one with a child, or the child: [R] is what the other
    does, [G] what this one does and [Q] what holds when the child has
    ended. *)
Inductive mode :=
| Alone
| Parent (R G : relation posix) (Q : posix → Prop)
| Child (R G : relation posix) (Q : posix → Prop).

Definition rely (m : mode) : relation posix :=
  match m with Alone => λ _ _, False | Parent R _ _ | Child R _ _ => R end.
Definition guar (m : mode) : relation posix :=
  match m with Alone => λ _ _, True | Parent _ G _ | Child _ G _ => G end.
Definition pid_of (m : mode) : nat := match m with Child _ _ _ => 1 | _ => 0 end.

Section logic.
Context (resolve : bytes → fpath).

Fixpoint wp (p : prog) (m : mode) (s : posix) : Prop :=
  match p with
  | Exit code =>
      code = 0 ∧ match m with Alone => True | Parent _ _ _ => False | Child R _ Q => ∀ s', rtc R s s' → Q s' end
  | Undefined => False
  | Call c k =>
      ∀ s1, rtc (rely m) s s1 →
        ∀ r s2, posix_step resolve (pid_of m) s1 c r s2 → guar m s1 s2 ∧ wp (k r) m s2
  | Fork child k =>
      match m with
      | Alone => ∃ R G Q, wp child (Child R G Q) (fork_fds s) ∧ wp k (Parent G R Q) (fork_fds s)
      | _ => False
      end
  | Reap k => match m with Parent R _ Q => ∀ s1, rtc R s s1 → Q s1 → wp k Alone s1 | _ => False end
  end.

(** The two processes in a state they have reached together. *)
Definition joint (p : prog) (child : option prog) (s : posix) : Prop :=
  match child with
  | None => wp p Alone s
  | Some ch => ∃ R G Q sp sc, wp p (Parent G R Q) sp ∧ rtc G sp s ∧ wp ch (Child R G Q) sc ∧ rtc R sc s
  end.

(** [same_call]: equal calls have equal continuations. *)
Ltac same_call :=
  repeat match goal with
  | H : existT _ _ = existT _ _ |- _ => apply (Eqdep_dec.inj_pair2_eq_dec _ call_eq_dec) in H; subst
  end.

(** The child when the parent waits for it. *)
Lemma passes_reap {W} `{Coherent W resolve} k ch :
  (∀ w, joint k None (fs_view w) → passes (Conf k None w)) →
  ∀ w, joint (Reap k) (Some ch) (fs_view w) → passes (Conf (Reap k) (Some ch) w).
Proof.
  intros Hk. induction ch as [code| |c kc IH|child _ k' _|k' _]; intros w (R & G & Q & sp & sc & Hp & Hsp & Hc & Hsc); [|done| |done..].
  - destruct Hc as [-> HQ]. apply passes_step; [eexists; apply run_reap|].
    intros c' Hrun. inversion Hrun; simplify_eq; same_call. apply Hk. apply Hp; auto.
  - apply passes_step.
    { destruct (fs_call_returns (resolve:=resolve) 1 w c) as (r & w' & Hs). eexists. by eapply run_child. }
    intros c' Hrun. inversion Hrun as [|? ? ? ? r w' Hcall| |]; simplify_eq; same_call. apply IH.
    apply fs_call_right in Hcall. destruct (Hc _ Hsc _ _ Hcall) as [HG Hc'].
    exists R, G, Q, sp, (fs_view w'). split_and!; [done|by eapply rtc_r|done|done].
Qed.

Lemma joint_main {W} `{Coherent W resolve} c k ch w r w' :
  joint (Call c k) ch (fs_view w) → fs_call 0 w c r w' → joint (k r) ch (fs_view w').
Proof.
  intros Hj Hcall%fs_call_right. destruct ch as [ch|].
  - destruct Hj as (R & G & Q & sp & sc & Hp & Hsp & Hc & Hsc). destruct (Hp _ Hsp _ _ Hcall) as [HG Hp'].
    exists R, G, Q, (fs_view w'), sc. split_and!; [done|done|done|by eapply rtc_r].
  - destruct (Hj (fs_view w) (rtc_refl _ _) _ _ Hcall). done.
Qed.

(** While the parent makes its calls, so may the child. *)
Lemma passes_calls {W} `{Coherent W resolve} c k :
  (∀ r ch w, joint (k r) ch (fs_view w) → passes (Conf (k r) ch w)) →
  ∀ ch w, joint (Call c k) ch (fs_view w) → passes (Conf (Call c k) ch w).
Proof.
  intros Hk. assert (∀ ch w, joint (Call c k) ch (fs_view w) →
    (∀ p w', (∃ cc kc r, ch = Some (Call cc kc) ∧ fs_call 1 w cc r w' ∧ p = kc r) → passes (Conf (Call c k) (Some p) w')) →
    passes (Conf (Call c k) ch w)) as Hstep.
  { intros ch w Hj Hch. apply passes_step.
    { destruct (fs_call_returns (resolve:=resolve) 0 w c) as (r & w' & Hs). eexists. by eapply run_main. }
    intros c' Hrun. inversion Hrun as [? ? ? ? r w' Hcall|? cc kc ? r w' Hcall| |]; simplify_eq; same_call.
    - apply Hk. by eapply joint_main.
    - apply Hch. eauto 10. }
  intros [ch|] w Hj; [|apply Hstep; [done|by intros ? ? (? & ? & ? & ? & _)]].
  revert w Hj. induction ch as [code| |cc kc IH|child _ k' _|k' _]; intros w Hj; apply Hstep; try done;
    intros p w' (cc' & kc' & r & E & Hcall & ->); simplify_eq; same_call.
  apply IH. apply fs_call_right in Hcall. destruct Hj as (R & G & Q & sp & sc & Hp & Hsp & Hc & Hsc).
  destruct (Hc _ Hsc _ _ Hcall) as [HG Hc']. exists R, G, Q, sp, (fs_view w'). split_and!; [done|by eapply rtc_r|done|done].
Qed.

(** The logic is sound: a program with a proof passes. *)
Lemma joint_passes {W} `{Coherent W resolve} p : ∀ ch w, joint p ch (fs_view w) → passes (Conf p ch w).
Proof.
  induction p as [code| |c k IH|child _ k IH|k IH].
  - intros [ch|] w Hj; [by destruct Hj as (? & ? & ? & ? & ? & [_ []] & _)|]. destruct Hj as [-> _]. apply passes_end.
  - intros [ch|] w Hj; [by destruct Hj as (? & ? & ? & ? & ? & [] & _)|done].
  - by apply passes_calls.
  - intros [ch|] w Hj; [by destruct Hj as (? & ? & ? & ? & ? & [] & _)|]. apply passes_step; [eexists; apply run_fork|].
    intros c' Hrun. inversion Hrun; simplify_eq; same_call. apply IH. rewrite fs_fork_view. destruct Hj as (R & G & Q & Hc & Hk).
    by exists R, G, Q, (fork_fds (fs_view w)), (fork_fds (fs_view w)).
  - intros [ch|] w Hj; [|done]. by apply passes_reap; [apply IH|].
Qed.

(** ** Files of one process *)

(** The process [m] is the only one that changes the names [O] in the
    directory [x]. *)
Definition local (pid : nat) (O : bytes → Prop) (x : bytes) (s s' : posix) : Prop :=
  (∀ p, (∀ n, O n → p ≠ [x; n]) → px_nodes s' !! p = px_nodes s !! p) ∧ ∀ q, q ≠ pid → px_fds s' q = px_fds s q.

Class Owns (m : mode) (O : bytes → Prop) (x : bytes) : Prop := {
  owns_rely s s' : rely m s s' →
    px_nodes s' !! [x] = px_nodes s !! [x] ∧ (∀ n, O n → px_nodes s' !! [x; n] = px_nodes s !! [x; n]) ∧
    px_fds s' (pid_of m) = px_fds s (pid_of m);
  owns_guar s s' : local (pid_of m) O x s s' → guar m s s' }.

Definition node_of (f : nat * bytes) : node := File f.1 f.2.

Record holds (m : mode) (O : bytes → Prop) (x : bytes) (σ : gmap bytes (nat * bytes)) (F : gmap Z openfile) (s : posix)
    : Prop := {
  h_dir : px_nodes s !! [x] = Some Dir;
  h_files : ∀ n, O n → px_nodes s !! [x; n] = node_of <$> σ !! n;
  h_fds : px_fds s (pid_of m) = F }.

#[export] Instance alone_owns O x : Owns Alone O x.
Proof. by split. Qed.

Section owned.
Context (m : mode) (O : bytes → Prop) (x : bytes) `{!Owns m O x}.
Abbreviation holds := (holds m O x).
Abbreviation local := (local (pid_of m) O x).

Lemma holds_rely σ F s s' : rtc (rely m) s s' → holds σ F s → holds σ F s'.
Proof.
  induction 1 as [|s1 s2 s3 Hr _ IH]; [done|]. intros [Hd Hf Ho]. apply IH.
  destruct (owns_rely _ _ Hr) as (E1 & E2 & E3). split; [congruence| |congruence]. intros n Hn. rewrite E2 by done. auto.
Qed.

Lemma holds_fd σ F s fd o : holds σ F s → holds σ (<[fd := o]> F) (set_fd (pid_of m) fd o s) ∧ local s (set_fd (pid_of m) fd o s).
Proof.
  intros [Hd Hf Ho]. split; split; cbn; [done|done| |done|].
  - by rewrite fn_lookup_insert, Ho.
  - intros q Hq. by rewrite fn_lookup_insert_ne by done.
Qed.

Lemma holds_node σ F s f i c : holds σ F s → O f →
  holds (<[f := (i, c)]> σ) F (set_node [x; f] (File i c) s) ∧ local s (set_node [x; f] (File i c) s).
Proof.
  intros [Hd Hf Ho] HO. split; split; cbn; [|intros n Hn|done| |done].
  - by rewrite lookup_insert_ne by done.
  - destruct (decide (n = f)) as [->|Hne]; [by rewrite !lookup_insert_eq|]. rewrite !lookup_insert_ne by congruence. auto.
  - intros p Hp. rewrite lookup_insert_ne by (symmetry; auto). done.
Qed.

Lemma local_trans s1 s2 s3 : local s1 s2 → local s2 s3 → local s1 s3.
Proof.
  intros [H1 H2] [H3 H4]. split.
  - intros p Hp. rewrite H3, H1 by done. done.
  - intros q Hq. rewrite H4, H2 by done. done.
Qed.

Lemma local_refl s : local s s.
Proof. by split. Qed.

(** A call of the process, in a state that the other may have changed. *)
Lemma wp_owned c (k : answer c → prog) σ F s :
  holds σ F s →
  (∀ s1 r s2, holds σ F s1 → posix_step resolve (pid_of m) s1 c r s2 → local s1 s2 ∧ wp (k r) m s2) →
  wp (Call c k) m s.
Proof.
  intros Hh Hk s1 Hr r s2 Hs. destruct (Hk s1 r s2 (holds_rely _ _ _ _ Hr Hh) Hs). split; [|done]. by apply owns_guar.
Qed.

(** What is behind the descriptor of an open file. *)
Lemma holds_data σ F s fd f i off app c :
  holds σ F s → O f → F !! fd = Some (OpenFile [x; f] i off app) → σ !! f = Some (i, c) →
  open_data s (pid_of m) fd = Some (OpenFile [x; f] i off app, c).
Proof.
  intros [Hd Hf Ho] HO HF Hσ. unfold open_data. rewrite Ho, HF. cbn [of_path of_ino]. rewrite Hf, Hσ by done. cbn.
  by rewrite bool_decide_eq_true_2.
Qed.

Lemma wp_creat n f k σ F s :
  holds σ F s → resolve n = [x; f] → O f → σ !! f = None →
  (∀ fd e i s', 0 ≤ fd → F !! fd = None →
    holds (<[f := (i, [])]> σ) (<[fd := OpenFile [x; f] i 0 false]> F) s' → wp (k fd e) m s') →
  wp (creat n k) m s.
Proof.
  intros Hh En HO Hσ Hk. eapply wp_owned; [exact Hh|]. intros s1 [fd e] s2 H1 Hs. cbn [posix_step] in Hs. cbv zeta in Hs. rewrite En in Hs.
  pose proof (h_files _ _ _ _ _ _ H1 f HO) as E1. rewrite Hσ in E1. cbn [fmap option_fmap option_map node_of fst snd] in E1. rewrite E1 in Hs.
  destruct Hs as [[_ (i & _ & Hfd & Hnone & ->)]|[Hin _]]; [|destruct Hin; apply (h_dir _ _ _ _ _ _ H1)].
  destruct (holds_node σ F s1 f i [] H1 HO) as [H2 L2].
  destruct (holds_fd _ F _ fd (OpenFile [x; f] i 0 false) H2) as [H3 L3].
  split; [by eapply local_trans|]. cbn [fst snd] in *. rewrite (h_fds _ _ _ _ _ _ H2) in Hnone. by eapply (Hk fd e i).
Qed.

Lemma wp_open n f flags k σ F s i c :
  holds σ F s → resolve n = [x; f] → O f → σ !! f = Some (i, c) → has_flag flags O_CREAT = false →
  (∀ fd e s', 0 ≤ fd → F !! fd = None →
    holds σ (<[fd := OpenFile [x; f] i 0 (has_flag flags O_APPEND)]> F) s' → wp (k fd e) m s') →
  wp (open n flags k) m s.
Proof.
  intros Hh En HO Hσ Hfl Hk. eapply wp_owned; [exact Hh|]. intros s1 [fd e] s2 H1 Hs. cbn [posix_step] in Hs. cbv zeta in Hs. rewrite En in Hs.
  pose proof (h_files _ _ _ _ _ _ H1 f HO) as E1. rewrite Hσ in E1. cbn [fmap option_fmap option_map node_of fst snd] in E1. rewrite E1, Hfl in Hs.
  destruct Hs as [(Hfd & Hnone & ->)|[? _]]; [|done]. cbn [fst snd] in *.
  destruct (holds_fd σ F s1 fd (OpenFile [x; f] i 0 (has_flag flags O_APPEND)) H1) as [H2 L2].
  rewrite (h_fds _ _ _ _ _ _ H1) in Hnone. split; [done|]. by apply Hk.
Qed.

Lemma wp_open_none n f flags k σ F s :
  holds σ F s → resolve n = [x; f] → O f → σ !! f = None → has_flag flags O_CREAT = false →
  (∀ e s', holds σ F s' → wp (k (-1) e) m s') → wp (open n flags k) m s.
Proof.
  intros Hh En HO Hσ Hfl Hk. eapply wp_owned; [exact Hh|]. intros s1 [fd e] s2 H1 Hs. cbn [posix_step] in Hs. cbv zeta in Hs. rewrite En in Hs.
  pose proof (h_files _ _ _ _ _ _ H1 f HO) as E1. rewrite Hσ in E1. cbn [fmap option_fmap option_map node_of fst snd] in E1. rewrite E1, Hfl in Hs.
  destruct Hs as [Hfd ->]. cbv [failed fst] in Hfd. subst fd. split; [apply local_refl|]. by apply Hk.
Qed.

Lemma wp_read fd count k σ F s f i off app c :
  holds σ F s → O f → F !! fd = Some (OpenFile [x; f] i off app) → σ !! f = Some (i, c) →
  (∀ s', holds σ (<[fd := OpenFile [x; f] i (off + length (take (Z.to_nat count) (drop off c))) app]> F) s' →
    wp (k (Some (take (Z.to_nat count) (drop off c)))) m s') →
  wp (read fd count k) m s.
Proof.
  intros Hh HO HF Hσ Hk. eapply wp_owned; [exact Hh|]. intros s1 r s2 H1 Hs. cbn [posix_step] in Hs.
  rewrite (holds_data _ _ _ _ _ _ _ _ _ H1 HO HF Hσ) in Hs. cbn [of_off of_path of_ino of_append] in Hs. destruct Hs as [-> ->].
  edestruct (holds_fd σ F s1 fd) as [H2 L2]; [done|]. split; [exact L2|]. by apply Hk.
Qed.

Lemma wp_write fd buf k σ F s f i off app c :
  holds σ F s → O f → F !! fd = Some (OpenFile [x; f] i off app) → σ !! f = Some (i, c) →
  let pos := if app then length c else off in
  (∀ e s', holds (<[f := (i, overwrite c pos buf)]> σ) (<[fd := OpenFile [x; f] i (pos + length buf) app]> F) s' →
    wp (k (Z.of_nat (length buf)) e) m s') →
  wp (write fd buf k) m s.
Proof.
  intros Hh HO HF Hσ pos Hk. eapply wp_owned; [exact Hh|]. intros s1 [n e] s2 H1 Hs. cbn [posix_step] in Hs.
  rewrite (holds_data _ _ _ _ _ _ _ _ _ H1 HO HF Hσ) in Hs. cbn [of_off of_path of_ino of_append fst] in Hs. destruct Hs as [-> ->].
  fold pos. destruct (holds_node σ F s1 f i (overwrite c pos buf) H1 HO) as [H2 L2].
  destruct (holds_fd _ F _ fd (OpenFile [x; f] i (pos + length buf) app) H2) as [H3 L3]. split; [by eapply local_trans|]. by apply Hk.
Qed.

Lemma wp_lseek fd off k σ F s o :
  holds σ F s → F !! fd = Some o → 0 ≤ off →
  (∀ e s', holds σ (<[fd := OpenFile (of_path o) (of_ino o) (Z.to_nat off) (of_append o)]> F) s' → wp (k off e) m s') →
  wp (lseek fd off k) m s.
Proof.
  intros Hh HF Hoff Hk. eapply wp_owned; [exact Hh|]. intros s1 [n e] s2 H1 Hs. cbn [posix_step] in Hs.
  rewrite (h_fds _ _ _ _ _ _ H1), HF, bool_decide_eq_true_2 in Hs by done. cbn [fst] in Hs. destruct Hs as [-> ->].
  edestruct (holds_fd σ F s1 fd) as [H3 L3]; [exact H1|]. split; [exact L3|]. by apply Hk.
Qed.

Lemma wp_fsync fd k σ F s o :
  holds σ F s → F !! fd = Some o → (∀ e s', holds σ F s' → wp (k 0 e) m s') → wp (fsync fd k) m s.
Proof.
  intros Hh HF Hk. eapply wp_owned; [exact Hh|]. intros s1 [n e] s2 H1 Hs. cbn [posix_step] in Hs.
  rewrite (h_fds _ _ _ _ _ _ H1), HF, bool_decide_eq_true_2 in Hs by done. cbn [fst] in Hs. destruct Hs as [-> ->].
  split; [apply local_refl|]. by apply Hk.
Qed.

Lemma wp_close fd k σ F s o :
  holds σ F s → F !! fd = Some o → (∀ e s', holds σ (delete fd F) s' → wp (k 0 e) m s') → wp (close fd k) m s.
Proof.
  intros Hh HF Hk. eapply wp_owned; [exact Hh|]. intros s1 [n e] s2 [Hd Hf Ho] Hs. cbn [posix_step] in Hs.
  rewrite Ho, HF in Hs. cbn [fst] in Hs. destruct Hs as [-> ->]. split.
  - split; [done|]. intros q Hq. cbn. by rewrite fn_lookup_insert_ne by done.
  - apply Hk. split; cbn; [done|done|]. by rewrite fn_lookup_insert.
Qed.

Lemma wp_unlink n f k σ F s :
  holds σ F s → resolve n = [x; f] → O f → is_Some (σ !! f) →
  (∀ e s', holds (delete f σ) F s' → wp (k 0 e) m s') → wp (unlink n k) m s.
Proof.
  intros Hh En HO [[i c] Hσ] Hk. eapply wp_owned; [exact Hh|]. intros s1 [r e] s2 [Hd Hf Ho] Hs. cbn [posix_step] in Hs. cbv zeta in Hs. rewrite En, Hf, Hσ in Hs by done.
  cbn in Hs. destruct Hs as [-> ->]. split.
  - split; [|done]. intros p Hp. cbn. rewrite lookup_delete_ne by (symmetry; auto). done.
  - apply Hk. split; cbn; [by rewrite lookup_delete_ne| |done]. intros n' Hn'. destruct (decide (n' = f)) as [->|Hne].
    + by rewrite !lookup_delete_eq.
    + rewrite !lookup_delete_ne by congruence. auto.
Qed.
End owned.

(** ** The functions of the testers *)

(** [d] is the path of the directory [x]. *)
Record tester_dir (d x : bytes) : Prop := {
  td_self : resolve d = [x];
  td_file f : slash ∉ f → resolve (path d f) = [x; f];
  td_len : (length d ≤ 400)%nat }.

(** A name that fits into the buffers of the testers. *)
Definition good_name (f : bytes) : Prop := (slash ∉ f) ∧ (length f ≤ 100)%nat.
#[export] Instance good_name_dec f : Decision (good_name f) := and_dec _ _.

(** The contents of the files of the process, which has none of them open. *)
Definition own (m : mode) (O : bytes → Prop) (x : bytes) (σ : gmap bytes bytes) (s : posix) : Prop :=
  ∃ σ', snd <$> σ' = σ ∧ holds m O x σ' ∅ s.

Section functions.
Context (m : mode) (O : bytes → Prop) (x : bytes) `{!Owns m O x}.
Abbreviation own := (own m O x).

Lemma wp_sprintf d f k s : tester_dir d x → good_name f →
  (resolve (path d f) = [x; f] → wp (k (path d f)) m s) → wp (sprintf 512 (path d f) k) m s.
Proof.
  intros [_ Hd Hl] [Hf Hfl] Hk. unfold sprintf. destruct (Nat.ltb_spec (length (path d f)) 512) as [_|Hlt]; [auto|].
  unfold path in Hlt. rewrite length_app in Hlt. cbn in Hlt. lia.
Qed.

Lemma own_lookup (σ' : gmap bytes (nat * bytes)) (σ : gmap bytes bytes) f : snd <$> σ' = σ → (σ !! f = None → σ' !! f = None) ∧
  (∀ c, σ !! f = Some c → ∃ i, σ' !! f = Some (i, c)).
Proof.
  intros <-. rewrite lookup_fmap. split; [by destruct (σ' !! f)|]. destruct (σ' !! f) as [[i c']|]; [|done]. intros c [= ->]. eauto.
Qed.

Lemma overwrite_nil b : overwrite [] 0 b = b.
Proof. unfold overwrite. cbn. by rewrite drop_nil, app_nil_r. Qed.

Lemma overwrite_end c b : overwrite c (length c) b = c ++ b.
Proof.
  unfold overwrite. rewrite firstn_all, Nat.sub_diag. cbn [replicate app]. rewrite drop_ge by lia. by rewrite app_nil_r.
Qed.

(** [creat], [write] and [close], and a test of each result. *)
Lemma wp_create p f inp ret k (k' : prog) σ s :
  own σ s → resolve p = [x; f] → O f → σ !! f = None →
  (∀ fd e, 0 ≤ fd → k fd e = write fd inp (λ r _,
    if negb (r =? ret) then Exit 1 else close fd (λ r _, if negb (r =? 0) then Exit 1 else k'))) →
  Z.of_nat (length inp) = ret →
  (∀ s', own (<[f := inp]> σ) s' → wp k' m s') → wp (creat p k) m s.
Proof.
  intros (σ' & Eσ & Hh) Ep HO Hσ Ek Eret Hk. pose proof (proj1 (own_lookup _ _ f Eσ) Hσ) as Hσ'.
  eapply wp_creat; [done|done|done|done|done|]. intros fd e i s1 Hfd _ H1. rewrite Ek by done.
  eapply wp_write; [done|exact H1|done|apply lookup_insert_eq|apply lookup_insert_eq|]. intros e2 s2 H2.
  rewrite Eret, Z.eqb_refl. cbn [negb].
  eapply wp_close; [done|exact H2|apply lookup_insert_eq|]. intros e3 s3 H3. cbn [Z.eqb negb]. apply Hk.
  exists (<[f := (i, inp)]> σ'). split; [by rewrite fmap_insert, Eσ|].
  revert H3. rewrite overwrite_nil, !insert_insert_eq. by rewrite delete_insert_id.
Qed.

Lemma create1_ok d f inp k σ s :
  own σ s → tester_dir d x → good_name f → O f → σ !! f = None →
  (∀ s', own (<[f := inp]> σ) s' → wp k m s') → wp (create1 d f inp k) m s.
Proof.
  intros Ho Hd Hf HO Hσ Hk. unfold create1. apply wp_sprintf; [done|done|]. intros Ep.
  eapply wp_create; [done|done|done|done| |done|exact Hk]. intros fd e Hfd. by replace (fd <? 0) with false by lia.
Qed.

Lemma unlink1_ok d f k σ s :
  own σ s → tester_dir d x → good_name f → O f → is_Some (σ !! f) →
  (∀ s', own (delete f σ) s' → wp k m s') → wp (unlink1 d f k) m s.
Proof.
  intros (σ' & Eσ & Hh) Hd Hf HO [c Hσ] Hk. destruct (proj2 (own_lookup _ _ f Eσ) c Hσ) as [i Hσ'].
  unfold unlink1. apply wp_sprintf; [done|done|]. intros Ep.
  eapply wp_unlink; [done|exact Hh|done|done|by eexists|]. intros e s' H'. cbn [Z.eqb negb]. apply Hk.
  exists (delete f σ'). by rewrite fmap_delete, Eσ.
Qed.

Lemma checknot_ok d f k σ s :
  own σ s → tester_dir d x → good_name f → O f → σ !! f = None →
  (∀ s', own σ s' → wp k m s') → wp (checknot d f k) m s.
Proof.
  intros (σ' & Eσ & Hh) Hd Hf HO Hσ Hk. pose proof (proj1 (own_lookup _ _ f Eσ) Hσ) as Hσ'.
  unfold checknot. apply wp_sprintf; [done|done|]. intros Ep.
  eapply wp_open_none; [done|exact Hh|done|done|done|done|]. intros e s' H'. apply Hk. by exists σ'.
Qed.

(** [open], and [read] of all that is in the file. *)
Lemma wp_open_read p f count k (k' : Z → option bytes → prog) σ s c :
  own σ s → resolve p = [x; f] → O f → σ !! f = Some c → Z.of_nat (length c) ≤ count →
  (∀ fd e, 0 ≤ fd → k fd e = read fd count (k' fd)) →
  (∀ fd F s' σ', snd <$> σ' = σ → holds m O x σ' F s' → delete fd F = ∅ → is_Some (F !! fd) → wp (k' fd (Some c)) m s') →
  wp (open p 0 k) m s.
Proof.
  intros (σ' & Eσ & Hh) Ep HO Hσ Hc Ek Hk. destruct (proj2 (own_lookup _ _ f Eσ) c Hσ) as [i Hσ'].
  eapply wp_open; [done|exact Hh|done|done|done|done|]. intros fd e s1 Hfd _ H1. rewrite Ek by done.
  eapply wp_read; [done|exact H1|done|apply lookup_insert_eq|done|]. intros s2 H2.
  assert (take (Z.to_nat count) (drop 0 c) = c) as Ec by (rewrite drop_0, take_ge by lia; done). rewrite Ec in H2 |- *. eapply Hk; [done|exact H2| |by rewrite lookup_insert_eq].
  by rewrite insert_insert_eq, delete_insert_id.
Qed.

Lemma strncmp_refl n s : strncmp n s s = 0.
Proof. revert s. induction n as [|n IH]; intros [|c s]; [done..|]. cbn. rewrite bool_decide_eq_true_2 by done. by case_bool_decide. Qed.

Lemma check1_ok bufsize d f inp k σ s :
  own σ s → tester_dir d x → good_name f → O f → σ !! f = Some inp → Z.of_nat (length inp) < bufsize →
  (∀ s', own σ s' → wp k m s') → wp (check1_buf bufsize d f inp k) m s.
Proof.
  intros Ho Hd Hf HO Hσ Hlen Hk. unfold check1_buf. apply wp_sprintf; [done|done|]. intros Ep.
  eapply wp_open_read; [done|done|done|done| | |]; [|intros fd e Hfd; by replace (fd <? 0) with false by lia|].
  { lia. }
  intros fd F s' σ' Eσ H' EF [o HF]. cbv beta iota. rewrite Z.eqb_refl. cbn [negb].
  eapply wp_close; [done|exact H'|done|]. intros e s2 H2. rewrite strncmp_refl. cbn [Z.eqb negb]. apply Hk.
  exists σ'. split; [done|]. by rewrite EF in H2.
Qed.

Lemma append1_ok d f inp k σ s c :
  own σ s → tester_dir d x → good_name f → O f → σ !! f = Some c →
  (∀ s', own (<[f := c ++ inp]> σ) s' → wp k m s') → wp (append1 d f inp k) m s.
Proof.
  intros (σ' & Eσ & Hh) Hd Hf HO Hσ Hk. destruct (proj2 (own_lookup _ _ f Eσ) c Hσ) as [i Hσ'].
  unfold append1. apply wp_sprintf; [done|done|]. intros Ep.
  eapply wp_open; [done|exact Hh|done|done|done|done|]. intros fd e s1 Hfd _ H1. replace (fd <? 0) with false by lia.
  eapply wp_write; [done|exact H1|done|apply lookup_insert_eq|done|]. intros e2 s2 H2. rewrite Z.eqb_refl. cbn [negb].
  eapply wp_close; [done|exact H2|apply lookup_insert_eq|]. intros e3 s3 H3. cbn [Z.eqb negb]. apply Hk.
  exists (<[f := (i, c ++ inp)]> σ'). split; [by rewrite fmap_insert, Eσ|].
  revert H3. change (has_flag (Z.lor O_WRONLY O_APPEND) O_APPEND) with true. cbv iota.
  rewrite overwrite_end, insert_insert_eq. by rewrite delete_insert_id.
Qed.

(** *** Numbered files *)

(** The files after [createn] and [unlinkn]. *)
Fixpoint fill (prefix : bytes) (n i : nat) (σ : gmap bytes bytes) : gmap bytes bytes :=
  match n with 0%nat => σ | S n => fill prefix n (S i) (<[numbered prefix i := le32 (Z.of_nat i)]> σ) end.
Fixpoint clear (prefix : bytes) (n i : nat) (σ : gmap bytes bytes) : gmap bytes bytes :=
  match n with 0%nat => σ | S n => clear prefix n (S i) (delete (numbered prefix i) σ) end.

(** [P] of the names with the numbers from [i] on. *)
Definition numbers (n i : nat) (P : nat → Prop) : Prop := Forall P (seq i n).
#[export] Instance numbers_dec n i P `{!∀ j, Decision (P j)} : Decision (numbers n i P) := _.

Lemma numbered_inj prefix i j : (i < 1000)%nat → (j < 1000)%nat → numbered prefix i = numbered prefix j → i = j.
Proof.
  intros Hi Hj E. unfold numbered in E. apply app_inv_head in E. injection E as E.
  destruct (show_unsigned_spec (Z.of_nat i)) as (_ & _ & Ei); [lia|].
  destruct (show_unsigned_spec (Z.of_nat j)) as (_ & _ & Ej); [lia|]. rewrite E in Ei. lia.
Qed.

Lemma of_le_le32 i : (i < 1000)%nat → of_le (le32 (Z.of_nat i)) = Z.of_nat i.
Proof. intros Hi. unfold of_le, le32. rewrite rev_involutive, of_be_be32. wrap_lia. Qed.

Lemma length_le32 i : length (le32 i) = 4%nat.
Proof. unfold le32. by rewrite length_rev, length_be32. Qed.

Lemma createn_ok d prefix dup n : ∀ i k σ s,
  own σ s → tester_dir d x → (i + n < 1000)%nat →
  numbers n i (λ j, good_name (numbered prefix j)) → numbers n i (λ j, O (numbered prefix j)) →
  numbers n i (λ j, σ !! numbered prefix j = None) →
  (∀ s', own (fill prefix n i σ) s' → wp k m s') → wp (createn_loop d prefix dup n i k) m s.
Proof.
  induction n as [|n IH]; intros i k σ s Ho Hd Hi Hg HO Hσ Hk; [auto|]. cbn [createn_loop].
  apply Forall_cons in Hg as [Hg Hgs]. apply Forall_cons in HO as [HO HOs]. apply Forall_cons in Hσ as [Hσ Hσs].
  apply wp_sprintf; [done|done|]. intros Ep. eapply (wp_create _ _ (le32 (Z.of_nat i)) 4); [done|done|done|done| |by rewrite length_le32|].
  { intros fd e Hfd. replace (fd <? 0) with false by lia. cbn [andb]. reflexivity. }
  intros s' Ho'. apply (IH (S i) k (<[numbered prefix i := le32 (Z.of_nat i)]> σ)); [done|done|lia|done|done| |done].
  apply Forall_forall. intros j Hj. rewrite lookup_insert_ne; [by apply (proj1 (Forall_forall _ _) Hσs)|].
  apply elem_of_seq in Hj. intros E%numbered_inj; lia.
Qed.

Lemma unlinkn_ok d prefix n : ∀ i k σ s,
  own σ s → tester_dir d x → (i + n < 1000)%nat →
  numbers n i (λ j, good_name (numbered prefix j)) → numbers n i (λ j, O (numbered prefix j)) →
  numbers n i (λ j, is_Some (σ !! numbered prefix j)) →
  (∀ s', own (clear prefix n i σ) s' → wp k m s') → wp (unlinkn_loop d prefix n i k) m s.
Proof.
  induction n as [|n IH]; intros i k σ s Ho Hd Hi Hg HO Hσ Hk; [auto|]. cbn [unlinkn_loop].
  apply Forall_cons in Hg as [Hg Hgs]. apply Forall_cons in HO as [HO HOs]. apply Forall_cons in Hσ as [Hσ Hσs].
  apply (unlink1_ok d (numbered prefix i) _ σ); [done|done|done|done|done|].
  intros s' Ho'. apply (IH (S i) k (delete (numbered prefix i) σ)); [done|done|lia|done|done| |done].
  apply Forall_forall. intros j Hj. rewrite lookup_delete_ne; [by apply (proj1 (Forall_forall _ _) Hσs)|].
  apply elem_of_seq in Hj. intros E%numbered_inj; lia.
Qed.

Lemma checkn_ok d prefix n : ∀ i k σ s,
  own σ s → tester_dir d x → (i + n < 1000)%nat →
  numbers n i (λ j, good_name (numbered prefix j)) → numbers n i (λ j, O (numbered prefix j)) →
  numbers n i (λ j, σ !! numbered prefix j = Some (le32 (Z.of_nat j))) →
  (∀ s', own σ s' → wp k m s') → wp (checkn_loop d prefix n i k) m s.
Proof.
  induction n as [|n IH]; intros i k σ s Ho Hd Hi Hg HO Hσ Hk; [auto|]. cbn [checkn_loop].
  apply Forall_cons in Hg as [Hg Hgs]. apply Forall_cons in HO as [HO HOs]. apply Forall_cons in Hσ as [Hσ Hσs].
  apply wp_sprintf; [done|done|]. intros Ep.
  eapply wp_open_read; [done|done|done|done| | |]; [|intros fd e Hfd; by replace (fd <? 0) with false by lia|].
  { by rewrite length_le32. }
  intros fd F s' σ' Eσ H' EF [o HF]. cbv beta iota. rewrite length_le32, of_le_le32, !Z.eqb_refl by lia. cbn [negb].
  eapply wp_close; [done|exact H'|done|]. intros e s2 H2. apply (IH (S i) k σ); [|done|lia|done|done|done|done].
  exists σ'. split; [done|]. by rewrite EF in H2.
Qed.
End functions.

(** *** Listings *)

Lemma strncmp_zero s : ∀ t, NUL ∉ s → NUL ∉ t → strncmp (S (length s)) (s ++ [NUL]) (t ++ [NUL]) = 0 → s = t.
Proof.
  induction s as [|c s IH]; intros [|d t] Hs Ht; cbn.
  - done.
  - apply not_elem_of_cons in Ht as [Hd _]. rewrite bool_decide_eq_false_2 by done. intros E. exfalso. apply Hd.
    rewrite <- (ascii_nat_embedding d). replace (nat_of_ascii d) with O; [done|]. change (nat_of_ascii NUL) with O in E. lia.
  - apply not_elem_of_cons in Hs as [Hc _]. rewrite bool_decide_eq_false_2 by congruence. intros E. exfalso. apply Hc.
    rewrite <- (ascii_nat_embedding c). replace (nat_of_ascii c) with O; [done|]. change (nat_of_ascii NUL) with O in E. lia.
  - apply not_elem_of_cons in Hs as [Hc Hs], Ht as [Hd Ht]. case_bool_decide as Ecd.
    + subst d. rewrite bool_decide_eq_false_2 by congruence. intros E. f_equal. by apply IH.
    + intros E. exfalso. apply Ecd. rewrite <- (ascii_nat_embedding c), <- (ascii_nat_embedding d). f_equal. lia.
Qed.

Lemma no_duplicate l : NoDup l → Forall (λ n, NUL ∉ n) l → has_duplicate l = false.
Proof.
  intros Hnd Hl. induction l as [|s l IH]; [done|]. apply NoDup_cons in Hnd as [Hs Hnd]. apply Forall_cons in Hl as [Hn Hl].
  destruct l as [|t l]; [done|]. cbn [has_duplicate]. destruct (Z.eqb_spec (strcmp s t) 0) as [E|_]; [|by apply IH].
  apply strncmp_zero in E as ->; [|done|by apply Forall_cons in Hl as [? _]]. destruct Hs. left.
Qed.

(** Names that [dircheck] counts and tells apart. *)
Definition listed (n : bytes) : Prop := visible n = true ∧ NUL ∉ n.
#[export] Instance listed_dec n : Decision (listed n) := and_dec _ _.

Lemma dircheck_names (X : gset bytes) (l : list bytes) nf :
  set_Forall listed X → size X = nf → (nf ≤ 1000)%nat →
  NoDup (List.filter visible l) → (∀ n, visible n = true → n ∈ l ↔ n ∈ X) →
  length (List.filter visible l) = nf ∧ has_duplicate (qsort (List.filter visible l)) = false.
Proof.
  intros HX Hsz Hle Hnd Hl.
  assert (∀ n, n ∈ List.filter visible l ↔ n ∈ X) as Hin.
  { intros n. rewrite list_elem_of_In, filter_In, <- list_elem_of_In. split.
    - intros [H1 H2]. by apply Hl.
    - intros H1. destruct (HX n H1) as [Hv _]. split; [by apply Hl|done]. }
  split.
  - rewrite <- Hsz. rewrite <- (size_list_to_set (C:=gset bytes)) by done. f_equal. apply set_eq. intros n. by rewrite elem_of_list_to_set.
  - assert (qsort (List.filter visible l) ≡ₚ List.filter visible l) as Hp by apply merge_sort_Permutation.
    apply no_duplicate; [by rewrite Hp|]. rewrite Hp. apply Forall_forall. intros n Hn%Hin. by destruct (HX n Hn).
Qed.

Lemma dircheck_after (nf : nat) (k : prog) (l : list bytes) (X : gset bytes) (m : mode) (s : posix) :
  set_Forall listed X → size X = nf → (nf ≤ 1000)%nat →
  NoDup (List.filter visible l) → (∀ n, visible n = true → n ∈ l ↔ n ∈ X) → wp k m s →
  wp (let names := List.filter visible l in
      if (1000 <? length names)%nat then Undefined else
      if negb (nf =? length names)%nat then Exit 1 else
      if has_duplicate (qsort names) then Exit 1 else k) m s.
Proof.
  intros HX Hsz Hle Hnd Hl Hk. destruct (dircheck_names X l nf HX Hsz Hle Hnd Hl) as [E1 E2]. cbv zeta.
  rewrite E1, E2. replace (1000 <? nf)%nat with false by (symmetry; apply Nat.ltb_ge; lia). by rewrite Nat.eqb_refl.
Qed.

Lemma dircheck_ok (m : mode) (x : bytes) `{!Owns m (λ _, True) x} (d : bytes) (nf : nat) (k : prog) (σ : gmap bytes bytes) (s : posix) :
  own m (λ _, True) x σ s → tester_dir d x →
  set_Forall listed (dom σ) → size σ = nf → (nf ≤ 1000)%nat →
  (∀ s', own m (λ _, True) x σ s' → wp k m s') → wp (dircheck d nf k) m s.
Proof.
  intros (σ' & Eσ & Hh) Hd HX Hsz Hle Hk. unfold dircheck. eapply wp_owned; [done|exact Hh|]. intros s1 r s2 H1 Hs.
  cbn [posix_step] in Hs. cbv zeta in Hs. rewrite (td_self _ _ Hd), (h_dir _ _ _ _ _ _ H1) in Hs.
  destruct Hs as [-> (l & -> & Hnd & Hl)]. split; [apply local_refl|].
  apply (dircheck_after nf k l (dom σ)); [done|by rewrite size_dom|done|done| |apply Hk; by exists σ'].
  intros n Hn. rewrite (Hl n Hn). change ([x] ++ [n]) with [x; n]. rewrite (h_files _ _ _ _ _ _ H1) by done.
  rewrite <- Eσ, elem_of_dom, lookup_fmap. by rewrite !fmap_is_Some.
Qed.

(** ** Two processes with files of their own *)

Section fork.
Context (O1 O2 : bytes → Prop) (x1 x2 : bytes) (apart : ∀ n n', O1 n → O2 n' → [x1; n] ≠ [x2; n']).

Lemma local_owns pid pid' (O O' : bytes → Prop) (x x' : bytes) s s' :
  (∀ n n', O n → O' n' → [x; n] ≠ [x'; n']) → pid ≠ pid' → local pid' O' x' s s' →
  px_nodes s' !! [x] = px_nodes s !! [x] ∧ (∀ n, O n → px_nodes s' !! [x; n] = px_nodes s !! [x; n]) ∧
  px_fds s' pid = px_fds s pid.
Proof.
  intros Ha Hp [Hn Hf]. split_and!; [by apply Hn| |by apply Hf]. intros n HO. apply Hn. intros n' HO'. by apply Ha.
Qed.

Lemma parent_owns Q : Owns (Parent (local 1 O2 x2) (local 0 O1 x1) Q) O1 x1.
Proof. split; [|done]. intros s s'. by apply local_owns. Qed.

Lemma child_owns Q : Owns (Child (local 0 O1 x1) (local 1 O2 x2) Q) O2 x2.
Proof. split; [|done]. intros s s'. apply local_owns; [|done]. intros n n' H2 H1 E. by apply (apart n' n). Qed.

(** The contents of files, whoever has them open. *)
Definition left_files (O : bytes → Prop) (x : bytes) (σ : gmap bytes bytes) (s : posix) : Prop :=
  px_nodes s !! [x] = Some Dir ∧ ∃ σ', snd <$> σ' = σ ∧ ∀ n, O n → px_nodes s !! [x; n] = node_of <$> σ' !! n.

(** The child ends with the files [σ2']. *)
Lemma wp_fork child k σ1 σ2 σ2' s :
  own Alone O1 x1 σ1 s → own Alone O2 x2 σ2 s →
  (∀ m s, Owns m O2 x2 → own m O2 x2 σ2 s → (∀ s', own m O2 x2 σ2' s' → wp (Exit 0) m s') → wp child m s) →
  (∀ m s, Owns m O1 x1 → own m O1 x1 σ1 s →
    (∀ σ1' s' k', own m O1 x1 σ1' s' → (∀ s'', own Alone O1 x1 σ1' s'' → left_files O2 x2 σ2' s'' → wp k' Alone s'') →
       wp (Reap k') m s') → wp k m s) →
  wp (Fork child k) Alone s.
Proof.
  intros (τ1 & E1 & H1) (τ2 & E2 & H2) Hc Hp.
  set (Q := left_files O2 x2 σ2').
  exists (local 0 O1 x1), (local 1 O2 x2), Q. split.
  - pose proof (child_owns Q) as Ho. apply (Hc _ _ Ho).
    + exists τ2. split; [done|]. destruct H2 as [Hd Hf Hfd]. split; [done|done|]. cbn. rewrite fn_lookup_insert. exact Hfd.
    + intros s' (τ & E & H'). split; [done|]. intros s'' Hr.
      apply (holds_rely (Child (local 0 O1 x1) (local 1 O2 x2) Q) O2 x2 _ _ _ _ Hr) in H'.
      split; [apply (h_dir _ _ _ _ _ _ H')|]. exists τ. split; [done|]. apply (h_files _ _ _ _ _ _ H').
  - pose proof (parent_owns Q) as Ho. apply (Hp _ _ Ho).
    + exists τ1. split; [done|]. destruct H1 as [Hd Hf Hfd]. split; [done|done|]. cbn. by rewrite fn_lookup_insert_ne.
    + intros σ1' s' k' (τ & E & H') Hk s'' Hr HQ. apply (holds_rely (Parent (local 1 O2 x2) (local 0 O1 x1) Q) O1 x1 _ _ _ _ Hr) in H'.
      apply Hk; [|exact HQ]. exists τ. split; [done|]. destruct H'. by split.
Qed.
End fork.

(** Two processes in one directory: the names [O] are for the parent. *)
Lemma wp_fork_dir (O : bytes → Prop) `{!∀ n, Decision (O n)} x child k σ σ2 s :
  own Alone (λ _, True) x σ s →
  (∀ m s, Owns m (λ n, ¬ O n) x → own m (λ n, ¬ O n) x σ s → (∀ s', own m (λ n, ¬ O n) x σ2 s' → wp (Exit 0) m s') → wp child m s) →
  (∀ m s, Owns m O x → own m O x σ s →
    (∀ σ1 s' k', own m O x σ1 s' →
       (∀ s'', own Alone (λ _, True) x (filter (λ p, O p.1) σ1 ∪ filter (λ p, ¬ O p.1) σ2) s'' → wp k' Alone s'') →
       wp (Reap k') m s') → wp k m s) →
  wp (Fork child k) Alone s.
Proof.
  intros (τ & Eτ & [Hd Hf Hfd]) Hc Hp. eapply (wp_fork O (λ n, ¬ O n) x x); [| | |exact Hc|].
  - intros n n' H1 H2. congruence.
  - exists τ. split; [exact Eτ|]. by split; [|intros n _; apply Hf|].
  - exists τ. split; [exact Eτ|]. by split; [|intros n _; apply Hf|].
  - intros m s' Ho H' Hk. apply (Hp m s' Ho H'). intros σ1 s2 k' H2 Hk'. apply (Hk σ1 s2 k' H2).
    intros s3 (τ1 & E1 & [Hd1 Hf1 Hfd1]) (_ & τ2 & E2 & Hf2). apply Hk'.
    exists (filter (λ p, O p.1) τ1 ∪ filter (λ p, ¬ O p.1) τ2). split.
    + rewrite map_fmap_union, <- E1, <- E2, !map_filter_fmap. reflexivity.
    + split; [done| |done]. intros n _. rewrite lookup_union. destruct (decide (O n)) as [HO|HO].
      * rewrite (Hf1 n HO), (map_lookup_filter_None_2 _ τ2) by (right; intros ? _ ?; done).
        rewrite right_id_L; [|apply _]. f_equal. destruct (τ1 !! n) eqn:En; symmetry.
        -- by apply map_lookup_filter_Some_2.
        -- apply map_lookup_filter_None_2. by left.
      * rewrite (Hf2 n HO), (map_lookup_filter_None_2 _ τ1) by (right; intros ? _ ?; done).
        rewrite left_id_L; [|apply _]. f_equal. destruct (τ2 !! n) eqn:En; symmetry.
        -- by apply map_lookup_filter_Some_2.
        -- apply map_lookup_filter_None_2. by left.
Qed.

(** ** Two processes that create the same files *)

Lemma fill_lookup prefix n : ∀ i σ, (i + n < 1000)%nat →
  (∀ j, (i ≤ j < i + n)%nat → fill prefix n i σ !! numbered prefix j = Some (le32 (Z.of_nat j))) ∧
  (∀ f, (∀ j, (i ≤ j < i + n)%nat → f ≠ numbered prefix j) → fill prefix n i σ !! f = σ !! f).
Proof.
  induction n as [|n IH]; intros i σ Hi; [split; [lia|done]|]. cbn [fill].
  destruct (IH (S i) (<[numbered prefix i := le32 (Z.of_nat i)]> σ) ltac:(lia)) as [IH1 IH2]. split.
  - intros j Hj. destruct (decide (j = i)) as [->|Hne]; [|apply IH1; lia]. rewrite IH2; [apply lookup_insert_eq|].
    intros j Hj' E%numbered_inj; lia.
  - intros f Hf. rewrite IH2 by (intros j Hj; apply Hf; lia). rewrite lookup_insert_ne; [done|]. intros E. apply (Hf i); [lia|done].
Qed.

(** The files from what the tree says. *)
Lemma own_intro x σ s :
  px_nodes s !! [x] = Some Dir → px_fds s 0%nat = ∅ →
  (∀ n, match σ !! n with Some c => ∃ i, px_nodes s !! [x; n] = Some (File i c) | None => px_nodes s !! [x; n] = None end) →
  own Alone (λ _, True) x σ s.
Proof.
  intros Hd Hf Hn.
  set (f := λ (n c : bytes), match px_nodes s !! [x; n] with Some (File i _) => Some (i, c) | _ => None end).
  assert (∀ n, map_imap f σ !! n = match px_nodes s !! [x; n] with Some (File i c) => Some (i, c) | _ => None end) as E.
  { intros n. rewrite map_lookup_imap. specialize (Hn n). destruct (σ !! n) as [c|]; cbn; [|by rewrite Hn].
    destruct Hn as [i Hi]. unfold f. by rewrite Hi. }
  exists (map_imap f σ). split.
  - apply map_eq. intros n. rewrite lookup_fmap, E. specialize (Hn n). destruct (σ !! n) as [c|]; [|by rewrite Hn].
    destruct Hn as [i Hi]. by rewrite Hi.
  - split; [done| |done]. intros n _. rewrite E. specialize (Hn n). destruct (σ !! n) as [c|]; [|by rewrite Hn].
    destruct Hn as [i Hi]. by rewrite Hi.
Qed.

Section same.
Context (x prefix : bytes) (nf : nat) (Hnf : (nf < 1000)%nat).
Abbreviation name := (numbered prefix).
Abbreviation at_ j := [x; name j].

(** One of the two processes has opened the file and not yet written to
    it. *)
Definition pending (s : posix) (p : fpath) (i : nat) : Prop :=
  ∃ q fd, (q ≤ 1)%nat ∧ px_fds s q !! fd = Some (OpenFile p i 0 false).

(** A file that exists has its contents, or one of the processes is about to
    write them. *)
Definition file_ok (s : posix) (j : nat) : Prop :=
  match px_nodes s !! at_ j with
  | None => True
  | Some Dir => False
  | Some (File i c) => c = le32 (Z.of_nat j) ∨ (c = [] ∧ pending s (at_ j) i)
  end.

Definition same_inv (s : posix) : Prop :=
  px_nodes s !! [x] = Some Dir ∧ (∀ j, (j < nf)%nat → file_ok s j) ∧
  ∀ n, is_Some (px_nodes s !! [x; n]) → ∃ j, (j < nf)%nat ∧ n = name j.

Definition file_at (s : posix) (j : nat) (i : nat) : Prop := ∃ c, px_nodes s !! at_ j = Some (File i c).

(** What the process [pid] does. *)
Definition same_rel (pid : nat) (s s' : posix) : Prop :=
  (same_inv s → same_inv s') ∧ (∀ q, q ≠ pid → px_fds s' q = px_fds s q) ∧ (∀ j i, file_at s j i → file_at s' j i).

(** The first [done] files exist. *)
Definition same_at (pid : nat) (done : nat) (F : gmap Z openfile) (s : posix) : Prop :=
  same_inv s ∧ px_fds s pid = F ∧ ∀ j, (j < done)%nat → ∃ i, file_at s j i.

Lemma same_stable pid other done F s s' : pid ≠ other →
  rtc (same_rel other) s s' → same_at pid done F s → same_at pid done F s' ∧ ∀ j i, file_at s j i → file_at s' j i.
Proof.
  intros Hne. induction 1 as [|s1 s2 s3 (H1 & H2 & H3) _ IH]; [done|]. intros (Hi & Hf & Hd).
  destruct IH as [? ?]; [|split; [done|auto]]. split_and!; [auto|by rewrite H2|]. intros j Hj. destruct (Hd j Hj) as [i Hi']. eauto.
Qed.

(** The file [j] gets the contents [c] and the process one more descriptor. *)
Lemma same_update pid s j i c fd o :
  (pid ≤ 1)%nat → (j < nf)%nat → same_inv s → of_path o = at_ j →
  (∀ i', file_at s j i' → i' = i) →
  (∀ fd' o', px_fds s pid !! fd' = Some o' → of_path o' = at_ j) →
  c = le32 (Z.of_nat j) ∨ (c = [] ∧ o = OpenFile (at_ j) i 0 false) →
  let s' := set_fd pid fd o (set_node (at_ j) (File i c) s) in
  same_inv s' ∧ same_rel pid s s' ∧ file_at s' j i.
Proof.
  intros Hpid Hj (Hd & Hok & Hn) Ho Hi Hpath Hc s'.
  assert (file_at s' j i) as Hat by (exists c; unfold s', set_fd, set_node; cbn; apply lookup_insert_eq).
  assert (∀ p, p ≠ at_ j → px_nodes s' !! p = px_nodes s !! p) as Hother by (intros p Hp; unfold s'; cbn; by rewrite lookup_insert_ne).
  assert (∀ j' i', j' ≠ j → (j' < nf)%nat → pending s (at_ j') i' → pending s' (at_ j') i') as Hpend.
  { intros j' i' Hne Hj' (q & fd' & Hq & E). exists q, fd'. split; [done|]. unfold s'. cbn.
    destruct (decide (q = pid)) as [->|]; [|by rewrite fn_lookup_insert_ne]. apply Hpath in E. cbn in E.
    injection E as E%numbered_inj; [done|lia|lia]. }
  assert (same_inv s') as Hinv.
  { split_and!; [by rewrite Hother| |].
    - intros j' Hj'. unfold file_ok. destruct (decide (j' = j)) as [->|Hne].
      + destruct Hat as [c' Hat]. pose proof Hat as E. unfold s' in E. cbn in E. rewrite lookup_insert_eq in E. injection E as <-.
        rewrite Hat. destruct Hc as [?|[? ->]]; [by left|right]. split; [done|]. exists pid, fd. split; [done|]. unfold s'. cbn.
        by rewrite fn_lookup_insert, lookup_insert_eq.
      + rewrite Hother by (intros [= E%numbered_inj]; [done|lia|lia]). specialize (Hok j' Hj'). unfold file_ok in Hok.
        destruct (px_nodes s !! at_ j') as [[|i' c']|]; [done| |done]. destruct Hok as [?|[? ?]]; [by left|right]. auto.
    - intros n Hs. destruct (decide (n = name j)) as [->|Hne]; [by exists j|]. apply Hn. by rewrite Hother in Hs by congruence. }
  split_and!; [done| |done]. split_and!; [done| |].
  - intros q Hq. unfold s'. cbn. by rewrite fn_lookup_insert_ne.
  - intros j' i' (c' & E). destruct (decide (at_ j' = at_ j)) as [Ej|Hne].
    + rewrite Ej in E. rewrite <- (Hi i') in Hat by (by exists c'). destruct Hat as [c2 Hat]. exists c2. by rewrite Ej.
    + exists c'. by rewrite Hother.
Qed.

Section process.
Context (m : mode) (other : nat) (Hother : pid_of m ≠ other).
Context (Hrely : rely m = same_rel other) (Hguar : guar m = same_rel (pid_of m)).
Abbreviation same_at := (same_at (pid_of m)).

Lemma pid_le : (pid_of m ≤ 1)%nat.
Proof. by destruct m; cbn; lia. Qed.

(** A call, in a state that the other process may have changed. *)
Lemma wp_same c (k : answer c → prog) done F s :
  same_at done F s →
  (∀ s1 r s2, same_at done F s1 → (∀ j i, file_at s j i → file_at s1 j i) →
    posix_step resolve (pid_of m) s1 c r s2 → same_rel (pid_of m) s1 s2 ∧ wp (k r) m s2) →
  wp (Call c k) m s.
Proof.
  intros Hs Hk s1 Hr r s2 Hstep. rewrite Hrely in Hr. destruct (same_stable _ _ _ _ _ _ Hother Hr Hs) as [H1 H2].
  rewrite Hguar. by apply Hk.
Qed.

Lemma overwrite_le32 c j : c = le32 (Z.of_nat j) ∨ c = [] → overwrite c 0 (le32 (Z.of_nat j)) = le32 (Z.of_nat j).
Proof.
  intros Hc. unfold overwrite. cbn [take replicate app Nat.sub]. rewrite drop_ge, app_nil_r; [done|].
  destruct Hc as [->| ->]; cbn; rewrite length_le32; lia.
Qed.

(** [close], when the contents have been written. *)
Lemma same_close fd j i k done s :
  (j < nf)%nat → same_at done {[fd := OpenFile (at_ j) i 4 false]} s →
  (∀ s', same_at done ∅ s' → wp (k 0) m s') → wp (close fd (λ r _, k r)) m s.
Proof.
  intros Hj Hs Hk. eapply wp_same; [exact Hs|]. intros s1 [r e] s2 (Hi & Hf & Hd) _ Hstep. cbn [posix_step] in Hstep.
  rewrite Hf, lookup_singleton_eq in Hstep. cbn [fst] in Hstep. destruct Hstep as [-> ->]. rewrite delete_singleton_eq.
  set (s2 := Posix _ _).
  assert (same_inv s2) as Hi2.
  { destruct Hi as (Hdir & Hok & Hn). split_and!; [done| |done]. intros j' Hj'. specialize (Hok j' Hj'). unfold file_ok in *. cbn.
    destruct (px_nodes s1 !! at_ j') as [[|i' c']|]; [done| |done]. destruct Hok as [?|[? (q & fd' & Hq & E)]]; [by left|right].
    split; [done|]. exists q, fd'. split; [done|]. cbn. destruct (decide (q = pid_of m)) as [->|]; [|by rewrite fn_lookup_insert_ne].
    rewrite Hf in E. apply lookup_singleton_Some in E as [_ [=]]. }
  split; [split_and!; [done| |done]|].
  - intros q Hq. cbn. by rewrite fn_lookup_insert_ne.
  - apply Hk. split_and!; [done| |done]. cbn. by rewrite fn_lookup_insert.
Qed.

(** [write] of the contents of the file [j] that was just opened. *)
Lemma same_write fd j i k done s :
  (j < nf)%nat → same_at done {[fd := OpenFile (at_ j) i 0 false]} s → file_at s j i →
  (∀ s', same_at done {[fd := OpenFile (at_ j) i 4 false]} s' → file_at s' j i → wp (k 4) m s') →
  wp (write fd (le32 (Z.of_nat j)) (λ r _, k r)) m s.
Proof.
  intros Hj Hs Hat Hk. eapply wp_same; [exact Hs|]. intros s1 [r e] s2 (Hi & Hf & Hd) Hmono Hstep. cbn [posix_step] in Hstep.
  destruct (Hmono _ _ Hat) as [c Hc]. unfold open_data in Hstep. rewrite Hf, lookup_singleton_eq in Hstep. cbn [of_path of_ino] in Hstep.
  rewrite Hc, bool_decide_eq_true_2 in Hstep by done. cbn [of_off of_append of_path of_ino fst] in Hstep. destruct Hstep as [-> ->].
  assert (c = le32 (Z.of_nat j) ∨ c = []) as Hc'.
  { destruct Hi as (_ & Hok & _). specialize (Hok j Hj). unfold file_ok in Hok. rewrite Hc in Hok. naive_solver. }
  rewrite overwrite_le32, length_le32 by done. cbn [Nat.add].
  destruct (same_update (pid_of m) s1 j i (le32 (Z.of_nat j)) fd (OpenFile (at_ j) i 4 false)) as (Hinv & Hrel & Hat');
    [apply pid_le|done|done|done|..].
  - intros i' (c' & E). congruence.
  - intros fd' o'. rewrite Hf. by intros [_ <-]%lookup_singleton_Some.
  - by left.
  - split; [done|]. apply Hk; [|done]. split_and!; [done| |].
    + cbn. rewrite fn_lookup_insert, Hf. by rewrite insert_singleton_eq.
    + intros j' Hj'. destruct (Hd j' Hj') as [i' Hi']. exists i'. by apply Hrel.
Qed.

(** [creat] of the file [j]: it is opened, or reported to exist. *)
Lemma same_creat p j k done s :
  (j < nf)%nat → resolve p = at_ j → same_at done ∅ s →
  (∀ fd e i s', 0 ≤ fd → same_at done {[fd := OpenFile (at_ j) i 0 false]} s' → file_at s' j i → wp (k fd e) m s') →
  (∀ i s', same_at done ∅ s' → file_at s' j i → wp (k (-1) EEXIST) m s') →
  wp (creat p k) m s.
Proof.
  intros Hj Ep Hs Hopen Hexists. eapply wp_same; [exact Hs|]. intros s1 [fd e] s2 H1 _ Hstep.
  pose proof H1 as (Hi & Hf & Hd). cbn [posix_step] in Hstep. cbv zeta in Hstep. rewrite Ep in Hstep.
  assert (∀ i, (∀ i', file_at s1 j i' → i' = i) → opens (pid_of m) (at_ j) i false (set_node (at_ j) (File i []) s1) (fd, e) s2 →
    same_rel (pid_of m) s1 s2 ∧ wp (k fd e) m s2) as Hopens.
  { intros i Hino (Hfd & _ & ->). cbn [fst] in *.
    destruct (same_update (pid_of m) s1 j i [] fd (OpenFile (at_ j) i 0 false)) as (Hinv & Hrel & Hat);
      [apply pid_le|done|done|done|done|..].
    - intros fd' o'. by rewrite Hf, lookup_empty.
    - by right.
    - split; [done|]. apply (Hopen fd e i); [done| |done]. split_and!; [done| |].
      + cbn. by rewrite fn_lookup_insert, Hf.
      + intros j' Hj'. destruct (Hd j' Hj') as [i' Hi']. exists i'. by apply Hrel. }
  destruct (px_nodes s1 !! at_ j) as [[|i c]|] eqn:E.
  - destruct Hi as (_ & Hok & _). specialize (Hok j Hj). unfold file_ok in Hok. by rewrite E in Hok.
  - destruct Hstep as [Ho|[[= -> ->] ->]].
    + apply (Hopens i); [|done]. intros i' (c' & E'). congruence.
    + split; [by split_and!|]. apply (Hexists i); [done|by exists c].
  - destruct Hstep as [[_ (i & _ & Ho)]|[Hin _]]; [|destruct Hin; apply Hi].
    apply (Hopens i); [|done]. intros i' (c' & E'). congruence.
Qed.

Lemma createn_same d n : ∀ i k s,
  tester_dir d x → (i + n = nf)%nat → numbers n i (λ j, good_name (name j)) → same_at i ∅ s →
  (∀ s', same_at nf ∅ s' → wp k m s') → wp (createn_loop d prefix true n i k) m s.
Proof.
  induction n as [|n IH]; intros i k s Hd Hi Hg Hs Hk.
  { cbn. apply Hk. by replace nf with i by lia. }
  cbn [createn_loop]. apply Forall_cons in Hg as [Hg Hgs]. apply (wp_sprintf m x); [done|done|]. intros Ep.
  assert (∀ s ino, same_at i ∅ s → file_at s i ino → same_at (S i) ∅ s) as Hnext.
  { intros s' ino (H1 & H2 & H3) Hat. split_and!; [done|done|]. intros j Hj. destruct (decide (j = i)) as [->|]; [eauto|].
    apply H3. lia. }
  eapply (same_creat _ i); [lia|done|exact Hs| |].
  - intros fd e ino s1 Hfd H1 Hat. replace (fd <? 0) with false by lia. cbn [andb].
    eapply (same_write _ i); [lia|exact H1|done|]. intros s2 H2 Hat2. cbn [Z.eqb Pos.eqb negb].
    apply (same_close fd i ino (λ r, if negb (r =? 0) then Exit 1 else createn_loop d prefix true n (S i) k) (S i)); [lia| |].
    + destruct H2 as (H3 & H4 & H5). split_and!; [done|done|]. intros j Hj. destruct (decide (j = i)) as [->|]; [by exists ino|].
      apply H5. lia.
    + intros s3 H3. cbn [Z.eqb negb]. apply (IH (S i)); [done|lia|done|done|done].
  - intros ino s1 H1 Hat. cbn [Z.ltb Z.compare andb Z.eqb EEXIST Pos.eqb]. apply (IH (S i)); [done|lia|done|by eapply Hnext|done].
Qed.

Lemma dircheck_same d k s :
  tester_dir d x → numbers nf 0 (λ j, listed (name j)) → same_at nf ∅ s →
  (∀ s', same_at nf ∅ s' → wp k m s') → wp (dircheck d nf k) m s.
Proof.
  intros Hd Hl Hs Hk. unfold dircheck. eapply wp_same; [exact Hs|]. intros s1 r s2 H1 _ Hstep.
  pose proof H1 as ((Hdir & Hok & Hn) & Hf & Hall). cbn [posix_step] in Hstep. cbv zeta in Hstep. rewrite (td_self _ _ Hd), Hdir in Hstep.
  destruct Hstep as [-> (l & -> & Hnd & Hmem)]. split; [by split_and!|].
  apply (dircheck_after nf k l (list_to_set (name <$> seq 0 nf))); [| |lia|done| |by apply Hk].
  - intros n (j & -> & Hj)%elem_of_list_to_set%list_elem_of_fmap. by apply (proj1 (Forall_forall _ _) Hl).
  - rewrite size_list_to_set; [by rewrite length_fmap, length_seq|]. apply NoDup_fmap_2_strong; [|apply NoDup_seq].
    intros j j' Hj%elem_of_seq Hj'%elem_of_seq E%numbered_inj; lia.
  - intros n Hv. rewrite (Hmem n Hv), elem_of_list_to_set, list_elem_of_fmap. split.
    + intros (j & Hj & ->)%Hn. exists j. split; [done|]. apply elem_of_seq. lia.
    + intros (j & -> & Hj%elem_of_seq). destruct (Hall j) as (ino & c & E); [lia|]. cbn. by eexists.
Qed.
End process.

(** Both processes have ended: every file has its contents. *)
Lemma same_end s : same_at 0 nf ∅ s → same_at 1 nf ∅ s → own Alone (λ _, True) x (fill prefix nf 0 ∅) s.
Proof.
  intros ((Hdir & Hok & Hn) & Hf0 & Hall) (_ & Hf1 & _). destruct (fill_lookup prefix nf 0 ∅ ltac:(lia)) as [Hin Hout].
  apply own_intro; [done|done|]. intros n.
  destruct (px_nodes s !! [x; n]) as [nd|] eqn:E.
  - destruct (Hn n) as (j & Hj & ->); [by eexists|]. rewrite Hin by lia. specialize (Hok j Hj). unfold file_ok in Hok. rewrite E in Hok.
    destruct nd as [|ino c]; [done|]. destruct Hok as [->|[_ (q & fd & Hq & Hp)]]; [by eexists|].
    assert (q = 0 ∨ q = 1)%nat as [->| ->] by lia; rewrite ?Hf0, ?Hf1 in Hp; by rewrite lookup_empty in Hp.
  - rewrite Hout, lookup_empty; [done|]. intros j Hj ->. destruct (Hall j) as (ino & c & E'); [lia|]. congruence.
Qed.

Lemma same_creates_ok d d' k s :
  own Alone (λ _, True) x ∅ s → tester_dir d x → tester_dir d' x →
  numbers nf 0 (λ j, good_name (name j)) → numbers nf 0 (λ j, listed (name j)) →
  (∀ s', own Alone (λ _, True) x (fill prefix nf 0 ∅) s' → wp k Alone s') →
  wp (Fork (createn d' prefix nf true (Exit 0)) (createn d prefix nf true (dircheck d nf (Reap k)))) Alone s.
Proof.
  intros (σ' & Eσ & [Hdir Hf Hfd]) Hd Hd' Hg Hl Hk. apply fmap_empty_inv in Eσ as ->.
  assert (∀ n, px_nodes s !! [x; n] = None) as Hnone by (intros n; rewrite (Hf n I); by rewrite lookup_empty).
  assert (same_inv (fork_fds s)) as Hinv.
  { split_and!; [done| |].
    - intros j Hj. unfold file_ok. cbn. by rewrite Hnone.
    - intros n. cbn. rewrite Hnone. by intros [? ?]. }
  assert (∀ pid, (pid ≤ 1)%nat → same_at pid 0 ∅ (fork_fds s)) as Hinit.
  { intros pid Hpid. split_and!; [done| |lia]. cbn. destruct (decide (pid = 1)%nat) as [->|]; [by rewrite fn_lookup_insert|].
    rewrite fn_lookup_insert_ne by done. replace pid with O by lia. done. }
  exists (same_rel 0), (same_rel 1), (same_at 1 nf ∅). split.
  - apply (createn_same (Child (same_rel 0) (same_rel 1) (same_at 1 nf ∅)) 0); [done|done|done|done|lia|done|apply Hinit; cbn; lia|].
    intros s' Hs'. split; [done|]. intros s'' Hr. by destruct (same_stable 1 0 nf ∅ _ _ ltac:(lia) Hr Hs').
  - apply (createn_same (Parent (same_rel 1) (same_rel 0) (same_at 1 nf ∅)) 1); [done|done|done|done|lia|done|apply Hinit; cbn; lia|].
    intros s' Hs'. eapply (dircheck_same (Parent (same_rel 1) (same_rel 0) (same_at 1 nf ∅)) 1); [done|done|done|done|done|exact Hs'|].
    intros s2 H2 s3 Hr HQ. apply Hk, same_end; [|done]. by destruct (same_stable 0 1 nf ∅ _ _ ltac:(lia) Hr H2).
Qed.
End same.

(** ** Two processes that write to one file *)

Lemma overwrite_one c pos b : (pos < length c)%nat → overwrite c pos [b] = <[pos := b]> c.
Proof.
  intros Hp. unfold overwrite. rewrite insert_take_drop by done. replace (pos - length c)%nat with O by lia.
  cbn [replicate app length]. by rewrite Nat.add_1_r.
Qed.

Section writes.
Context (x w : bytes) (ino size : nat).

(** The process [pid] changes the file [w] between [lo] and [hi] only. *)
Definition range_rel (pid lo hi : nat) (s s' : posix) : Prop :=
  px_nodes s' !! [x] = px_nodes s !! [x] ∧ (∀ q, q ≠ pid → px_fds s' q = px_fds s q) ∧
  ∀ c, px_nodes s !! [x; w] = Some (File ino c) → ∃ c', px_nodes s' !! [x; w] = Some (File ino c') ∧
    length c' = length c ∧ ∀ b, ¬ (lo ≤ b < hi)%nat → c' !! b = c !! b.

(** The bytes from [lo] up to [hi] are [ch]. *)
Definition range_at (pid lo hi : nat) (ch : ascii) (F : gmap Z openfile) (s : posix) : Prop :=
  px_nodes s !! [x] = Some Dir ∧ px_fds s pid = F ∧
  ∃ c, px_nodes s !! [x; w] = Some (File ino c) ∧ length c = size ∧ ∀ b, (lo ≤ b < hi)%nat → c !! b = Some ch.

Lemma range_stable pid lo hi ch F other lo' hi' s s' :
  pid ≠ other → (∀ b, (lo ≤ b < hi)%nat → ¬ (lo' ≤ b < hi')%nat) →
  rtc (range_rel other lo' hi') s s' → range_at pid lo hi ch F s → range_at pid lo hi ch F s'.
Proof.
  intros Hne Hr. induction 1 as [|s1 s2 s3 (H1 & H2 & H3) _ IH]; [done|]. intros (Hd & Hf & c & Hc & Hlen & Hb). apply IH.
  destruct (H3 c Hc) as (c' & Hc' & Hlen' & Hb'). split_and!; [congruence|by rewrite H2|].
  exists c'. split_and!; [done|congruence|]. intros b Hin. rewrite Hb' by (by apply Hr). auto.
Qed.

Section process.
Context (m : mode) (other lo hi lo' hi' : nat) (ch : ascii) (Hother : pid_of m ≠ other) (Hhi : (hi ≤ size)%nat).
Context (Hapart : ∀ b, (lo ≤ b < hi)%nat → ¬ (lo' ≤ b < hi')%nat).
Context (Hrely : rely m = range_rel other lo' hi') (Hguar : guar m = range_rel (pid_of m) lo hi).
Abbreviation range_at := (range_at (pid_of m) lo).

Lemma wp_range c (k : answer c → prog) upto F s :
  (upto ≤ hi)%nat → range_at upto ch F s →
  (∀ s1 r s2, range_at upto ch F s1 → posix_step resolve (pid_of m) s1 c r s2 →
    range_rel (pid_of m) lo hi s1 s2 ∧ wp (k r) m s2) →
  wp (Call c k) m s.
Proof.
  intros Hup Hs Hk s1 Hr r s2 Hstep. rewrite Hrely in Hr. rewrite Hguar. apply Hk; [|done].
  eapply range_stable; [exact Hother| |exact Hr|exact Hs]. intros b Hb. apply Hapart. lia.
Qed.

(** A new descriptor, or another position of it. *)
Lemma range_fd upto F fd o s :
  range_at upto ch F s → range_at upto ch (<[fd := o]> F) (set_fd (pid_of m) fd o s) ∧
  range_rel (pid_of m) lo hi s (set_fd (pid_of m) fd o s).
Proof.
  intros (Hd & Hf & c & Hc & Hlen & Hb). split.
  - split_and!; [done| |by exists c]. cbn. by rewrite fn_lookup_insert, Hf.
  - split_and!; [done| |by eauto]. intros q Hq. cbn. by rewrite fn_lookup_insert_ne.
Qed.

Lemma range_open p flags k s :
  range_at lo ch ∅ s → (lo ≤ hi)%nat → resolve p = [x; w] → has_flag flags O_APPEND = false →
  (∀ fd e s', 0 ≤ fd → range_at lo ch {[fd := OpenFile [x; w] ino 0 false]} s' → wp (k fd e) m s') →
  (∀ s', has_flag flags O_CREAT = true → range_at lo ch ∅ s' → wp (k (-1) EEXIST) m s') →
  wp (open p flags k) m s.
Proof.
  intros Hs Hlo Ep Hfl Hopen Hexists. eapply wp_range; [exact Hlo|exact Hs|]. intros s1 [fd e] s2 H1 Hstep.
  pose proof H1 as (Hd & Hf & c & Hc & _). cbn [posix_step] in Hstep. cbv zeta in Hstep. rewrite Ep, Hc, Hfl in Hstep.
  destruct Hstep as [(Hfd & _ & ->)|(Hcr & [= -> ->] & ->)]; cbn [fst snd] in *.
  - destruct (range_fd lo ∅ fd (OpenFile [x; w] ino 0 false) s1 H1) as [H2 L2]. split; [exact L2|]. by apply Hopen.
  - split; [split_and!; [done|done|by eauto]|]. by apply Hexists.
Qed.

Lemma range_write fd k upto s :
  (lo ≤ upto < hi)%nat → range_at upto ch {[fd := OpenFile [x; w] ino upto false]} s →
  (∀ s', range_at (S upto) ch {[fd := OpenFile [x; w] ino (S upto) false]} s' → wp (k 1) m s') →
  wp (write fd [ch] (λ r _, k r)) m s.
Proof.
  intros Hup Hs Hk. eapply wp_range; [|exact Hs|]; [lia|]. intros s1 [r e] s2 (Hd & Hf & c & Hc & Hlen & Hb) Hstep.
  cbn [posix_step] in Hstep. unfold open_data in Hstep. rewrite Hf, lookup_singleton_eq in Hstep. cbn [of_path of_ino] in Hstep.
  rewrite Hc, bool_decide_eq_true_2 in Hstep by done. cbn [of_off of_append of_path of_ino fst length] in Hstep. destruct Hstep as [-> ->].
  rewrite overwrite_one by lia. rewrite Nat.add_1_r. set (s2 := set_fd _ _ _ _).
  assert (px_nodes s2 !! [x; w] = Some (File ino (<[upto := ch]> c))) as E2 by (unfold s2; cbn; apply lookup_insert_eq).
  split; [split_and!|].
  - unfold s2. cbn. by rewrite lookup_insert_ne.
  - intros q Hq. unfold s2. cbn. by rewrite fn_lookup_insert_ne.
  - intros c' Hc'. rewrite Hc in Hc'. injection Hc' as <-. exists (<[upto := ch]> c). split_and!; [done|apply length_insert|].
    intros b Hb'. rewrite list_lookup_insert_ne by lia. done.
  - apply Hk. split_and!.
    + unfold s2. cbn. by rewrite lookup_insert_ne.
    + unfold s2. cbn. by rewrite fn_lookup_insert, Hf, insert_singleton_eq.
    + exists (<[upto := ch]> c). split_and!; [done|by rewrite length_insert|]. intros b Hb'.
      destruct (decide (b = upto)) as [->|]; [apply list_lookup_insert_eq; lia|]. rewrite list_lookup_insert_ne by done. apply Hb. lia.
Qed.

Lemma write1_loop_ok fd n : ∀ upto k s,
  (lo ≤ upto)%nat → (upto + n = hi)%nat → range_at upto ch {[fd := OpenFile [x; w] ino upto false]} s →
  (∀ s', range_at hi ch {[fd := OpenFile [x; w] ino hi false]} s' → wp k m s') → wp (write1_loop fd n ch k) m s.
Proof.
  induction n as [|n IH]; intros upto k s Hlo Hup Hs Hk; cbn [write1_loop].
  { apply Hk. by replace hi with upto by lia. }
  eapply (range_write fd _ upto); [lia|exact Hs|]. intros s1 H1. cbn [Z.eqb Pos.eqb negb].
  eapply wp_range; [|exact H1|]; [lia|]. intros s2 [r e] s3 H2 Hstep. pose proof H2 as (_ & Hf & _).
  cbn [posix_step] in Hstep. rewrite Hf, lookup_singleton_eq, bool_decide_eq_true_2 in Hstep by done. cbn [fst] in Hstep.
  destruct Hstep as [-> ->]. split; [split_and!; [done|done|by eauto]|]. cbn [fst snd Z.eqb negb].
  apply (IH (S upto)); [lia|lia|done|done].
Qed.

Lemma write1_opened_ok n k fd s :
  (lo + n = hi)%nat → 0 ≤ fd → range_at lo ch {[fd := OpenFile [x; w] ino 0 false]} s →
  (∀ s', range_at hi ch ∅ s' → wp k m s') → wp (write1_opened (Z.of_nat lo) n ch k fd) m s.
Proof.
  intros Hn Hfd Hs Hk. unfold write1_opened. replace (fd <? 0) with false by lia.
  eapply wp_range; [|exact Hs|]; [lia|]. intros s1 [r e] s2 H1 Hstep. pose proof H1 as (_ & Hf & _).
  cbn [posix_step] in Hstep. rewrite Hf, lookup_singleton_eq, bool_decide_eq_true_2 in Hstep by lia.
  cbn [of_path of_ino of_append fst] in Hstep. rewrite Nat2Z.id in Hstep. destruct Hstep as [-> ->].
  destruct (range_fd lo _ fd (OpenFile [x; w] ino lo false) s1 H1) as [H2 L2]. split; [exact L2|]. rewrite insert_singleton_eq in H2.
  cbn [fst snd]. rewrite Z.eqb_refl. cbn [negb]. apply (write1_loop_ok fd n lo); [lia|done|done|].
  intros s3 H3. eapply wp_range; [|exact H3|]; [lia|]. intros s4 [r e'] s5 (Hd & Hf4 & Hc) Hstep.
  cbn [posix_step] in Hstep. rewrite Hf4, lookup_singleton_eq in Hstep. cbn [fst] in Hstep. destruct Hstep as [-> ->].
  rewrite delete_singleton_eq. split; [split_and!; [done| |by eauto]|].
  - intros q Hq. cbn. by rewrite fn_lookup_insert_ne.
  - cbn [fst snd Z.eqb negb]. apply Hk. split_and!; [done| |done]. cbn. by rewrite fn_lookup_insert.
Qed.

Lemma write1_ok d n k s :
  tester_dir d x → good_name w → (lo + n = hi)%nat → range_at lo ch ∅ s →
  (∀ s', range_at hi ch ∅ s' → wp k m s') → wp (write1 d w (Z.of_nat lo) n ch k) m s.
Proof.
  intros Hd Hw Hn Hs Hk. unfold write1. apply (wp_sprintf m x); [done|done|]. intros Ep.
  eapply range_open; [exact Hs|lia|exact Ep|done| |].
  - intros fd e s1 Hfd H1. replace (fd <? 0) with false by lia. cbn [andb]. by apply write1_opened_ok.
  - intros s1 _ H1. cbn [Z.ltb Z.compare andb Z.eqb EEXIST Pos.eqb].
    eapply range_open; [exact H1|lia|exact Ep|done| |by intros ? ?].
    intros fd e s2 Hfd H2. by apply write1_opened_ok.
Qed.
End process.
End writes.

(** *** Reading back *)

Section readback.
Context (m : mode) (O : bytes → Prop) (x : bytes) `{!Owns m O x} (w c : bytes) (ch : ascii).

Lemma checkread_loop_ok fd σ' i n : ∀ off k s,
  O w → σ' !! w = Some (i, c) → holds m O x σ' {[fd := OpenFile [x; w] i off false]} s →
  (∀ b, (off ≤ b < off + n)%nat → c !! b = Some ch) →
  (∀ o s', holds m O x σ' {[fd := o]} s' → wp k m s') → wp (checkread_loop fd n ch k) m s.
Proof.
  induction n as [|n IH]; intros off k s HO Hσ Hs Hc Hk; cbn [checkread_loop]; [by eapply Hk|].
  eapply wp_read; [done|exact Hs|done|apply lookup_singleton_eq|done|]. intros s1 H1.
  assert (take (Z.to_nat 1) (drop off c) = [ch]) as E.
  { specialize (Hc off ltac:(lia)). rewrite (drop_S c ch) by done. done. }
  rewrite E in H1 |- *. rewrite bool_decide_eq_true_2 by done. cbn [negb]. rewrite insert_singleton_eq in H1.
  apply (IH (off + 1)%nat); [done|done|exact H1| |done]. intros b Hb. apply Hc. lia.
Qed.

Lemma checkread_ok d start n k σ s :
  own m O x σ s → tester_dir d x → good_name w → O w → σ !! w = Some c → 0 ≤ start →
  (∀ b, (Z.to_nat start ≤ b < Z.to_nat start + n)%nat → c !! b = Some ch) →
  (∀ s', own m O x σ s' → wp k m s') → wp (checkread d w start n ch k) m s.
Proof.
  intros (σ' & Eσ & Hh) Hd Hw HO Hσ H0 Hc Hk. destruct (proj2 (own_lookup _ _ w Eσ) c Hσ) as [i Hσ'].
  unfold checkread. apply (wp_sprintf m x); [done|done|]. intros Ep.
  eapply wp_open; [done|exact Hh|done|done|done|done|]. intros fd e s1 Hfd _ H1. replace (fd <? 0) with false by lia.
  eapply wp_lseek; [done|exact H1|apply lookup_insert_eq|done|]. intros e2 s2 H2. rewrite Z.eqb_refl. cbn [negb of_path of_ino of_append].
  rewrite insert_insert_eq in H2. eapply checkread_loop_ok; [done|done|exact H2|done|]. intros o s3 H3.
  eapply wp_close; [done|exact H3|apply lookup_singleton_eq|]. intros e3 s4 H4. apply Hk. exists σ'. split; [done|].
  by rewrite delete_singleton_eq in H4.
Qed.
End readback.
End logic.
