(* ===== verification/FsTests.v ===== *)
(** * The testers of the file system pass

    The tests of FsTester.v, one after the other, by the rules of FsLogic.v. *)

From stdpp Require Import functions.
From S2P Require Import Prelude Marshall Protocols Streams FsTester FsLogic.

Section tests.
Context (resolve : bytes → fpath).
Abbreviation wp := (wp resolve).
Abbreviation tester_dir := (tester_dir resolve).

(** ** The sequential tests *)

(** [decided]: the goal is a decidable statement about closed terms. *)
Ltac decided := apply (bool_decide_unpack _); vm_compute; exact I.

(** [call_ok]: the next function of a test, by its rule. *)
Ltac side := first [assumption | exact I | reflexivity | lia | decided | (vm_compute; reflexivity) | (eexists; vm_compute; reflexivity)].
Ltac call_ok :=
  lazymatch goal with
  | |- FsLogic.wp _ (create1 _ _ _ _) _ _ => eapply create1_ok
  | |- FsLogic.wp _ (check1 _ _ _ _) _ _ => eapply check1_ok
  | |- FsLogic.wp _ (unlink1 _ _ _) _ _ => eapply unlink1_ok
  | |- FsLogic.wp _ (checknot _ _ _) _ _ => eapply checknot_ok
  | |- FsLogic.wp _ (append1 _ _ _ _) _ _ => eapply append1_ok
  | |- FsLogic.wp _ (createn _ _ _ _ _) _ _ => eapply createn_ok
  | |- FsLogic.wp _ (checkn _ _ _ _) _ _ => eapply checkn_ok
  | |- FsLogic.wp _ (unlinkn _ _ _ _) _ _ => eapply unlinkn_ok
  | |- FsLogic.wp _ (dircheck _ _ _) _ _ => eapply dircheck_ok
  end; [typeclasses eauto|eassumption|side..|
    let s := fresh "s" in let H := fresh "H" in intros s H; cbv beta in H].

Section one_dir.
Context (x d1 d2 : bytes) (Hd1 : tester_dir d1 x) (Hd2 : tester_dir d2 x).
Abbreviation files := (own Alone (λ _, True) x).

Lemma create_then_read_ok k s :
  files ∅ s → (∀ s', files {[chars "f1" := chars "aaa"]} s' → wp k Alone s') → wp (create_then_read d1 d2 k) Alone s.
Proof. intros H Hk. unfold create_then_read. do 3 call_ok. by apply Hk. Qed.

(** [ends Hk]: the test has ended with the files that [Hk] expects. *)
Ltac ends Hk :=
  apply Hk; lazymatch goal with H : own _ _ _ ?σ ?s |- own _ _ _ ?σ' ?s => replace σ' with σ by (vm_compute; reflexivity); exact H end.

Lemma unlink_test_ok k s :
  files {[chars "f1" := chars "aaa"]} s → (∀ s', files ∅ s' → wp k Alone s') → wp (unlink_test d1 d2 k) Alone s.
Proof. intros H Hk. unfold unlink_test. do 17 call_ok. ends Hk. Qed.

Lemma append_test_ok k s :
  files ∅ s → (∀ s', files {[chars "f1" := chars "aaabbbccc"]} s' → wp k Alone s') → wp (append_test d1 d2 k) Alone s.
Proof. intros H Hk. unfold append_test. do 5 call_ok. ends Hk. Qed.

Lemma readdir_test_ok k s :
  files {[chars "f1" := chars "aaabbbccc"]} s → (∀ s', files ∅ s' → wp k Alone s') → wp (readdir_test d1 d2 k) Alone s.
Proof. intros H Hk. unfold readdir_test. do 15 call_ok. ends Hk. Qed.

Lemma many_creates_ok k s : files ∅ s → (∀ s', files ∅ s' → wp k Alone s') → wp (many_creates d1 d2 k) Alone s.
Proof. intros H Hk. unfold many_creates. do 9 call_ok. ends Hk. Qed.

Lemma big_write_ok k s : files ∅ s → (∀ s', files ∅ s' → wp k Alone s') → wp (big_write d1 d2 k) Alone s.
Proof.
  intros H Hk. unfold big_write. assert (Z.of_nat (length big) < 21000) as Hb by (unfold big; rewrite length_replicate; lia).
  generalize dependent big. intros data Hb. do 4 call_ok. ends Hk.
Qed.

(** ** The tests with two processes *)

Lemma concurrent_creates_ok k s : files ∅ s → (∀ s', files ∅ s' → wp k Alone s') → wp (concurrent_creates d1 d2 k) Alone s.
Proof.
  intros H Hk. unfold concurrent_creates, reap.
  eapply (wp_fork_dir resolve (λ n, take 2 n ≠ chars "xx") x _ _ ∅ (fill (chars "xx") 20 0 ∅)); [exact H| |].
  - intros m s1 Ho H1 Hend. call_ok. by apply Hend.
  - intros m s1 Ho H1 Hreap. call_ok. eapply Hreap; [eassumption|]. clear dependent m s1. intros s2 H2. do 5 call_ok. ends Hk.
Qed.

Lemma create_delete_ok k s : files ∅ s → (∀ s', files ∅ s' → wp k Alone s') → wp (create_delete d1 d2 k) Alone s.
Proof.
  intros H Hk. unfold create_delete, reap. do 2 call_ok.
  eapply (wp_fork_dir resolve (λ n, take 2 n ≠ chars "x1" ∧ take 2 n ≠ chars "x3") x _ _ _
    (fill (chars "x3") 20 0 (clear (chars "x1") 20 0 (fill (chars "x2") 20 0 (fill (chars "x1") 20 0 ∅))))); [eassumption| |].
  - intros m s2 Ho H2 Hend. call_ok. call_ok. by apply Hend.
  - intros m s2 Ho H2 Hreap. call_ok. eapply Hreap; [eassumption|]. clear dependent m s2. intros s3' H3'. do 4 call_ok. ends Hk.
Qed.

Lemma same_file_creates_ok k s : files ∅ s → (∀ s', files ∅ s' → wp k Alone s') → wp (same_file_creates d1 d2 k) Alone s.
Proof.
  intros H Hk. unfold same_file_creates, reap. apply (same_creates_ok resolve x); [lia|done|done|done|decided|decided|].
  intros s1 H1. do 3 call_ok. ends Hk.
Qed.

Lemma same_server_creates_ok k s : files ∅ s → (∀ s', files ∅ s' → wp k Alone s') → wp (same_server_creates d1 k) Alone s.
Proof.
  intros H Hk. unfold same_server_creates, reap. apply (same_creates_ok resolve x); [lia|done|done|done|decided|decided|].
  intros s1 H1. do 2 call_ok. ends Hk.
Qed.

(** Two writers of different parts, then [k] with the file they leave. *)
Lemma two_writers_ok w k s data :
  files {[w := data]} s → good_name w → (Z.to_nat (65536 * 2) ≤ length data)%nat →
  (∀ c s', own Alone (λ n, n = w) x {[w := c]} s' →
     (∀ b, (0 ≤ b < 64)%nat → c !! b = Some "1"%char) →
     (∀ b, (Z.to_nat 65536 ≤ b < Z.to_nat 65536 + 64)%nat → c !! b = Some "2"%char) → wp k Alone s') →
  wp (Fork (write1 d2 w 65536 64 "2" (Exit 0)) (write1 d1 w 0 64 "1" (Reap k))) Alone s.
Proof.
  intros (σ' & Eσ & [Hdir Hf Hfd]) Hw Hlen Hk.
  destruct (proj2 (own_lookup _ _ w Eσ) data (lookup_singleton_eq _ _)) as [i Hσ'].
  assert (px_nodes s !! [x; w] = Some (File i data)) as Hn by (rewrite (Hf w I), Hσ'; done).
  set (size := length data) in *. set (A := Z.to_nat 65536) in *. set (B := (A + 64)%nat).
  assert (∀ pid lo ch, (pid ≤ 1)%nat → range_at x w i size pid lo lo ch ∅ (fork_fds s)) as Hinit.
  { intros pid lo ch Hpid. split_and!; [done| |exists data; split_and!; [done|done|lia]]. cbn.
    destruct (decide (pid = 1)%nat) as [->|]; [by rewrite fn_lookup_insert|].
    rewrite fn_lookup_insert_ne by done. replace pid with O by lia. done. }
  set (Rp := range_rel x w i 0 0 64). set (Rc := range_rel x w i 1 A B). set (Q := range_at x w i size 1 A B "2" ∅).
  exists Rp, Rc, Q. split.
  - change 65536 with (Z.of_nat A).
    apply (write1_ok resolve x w i size (Child Rp Rc Q) 0 A B 0 64 "2"); [done|lia|lia|done|done|done|done|done|apply Hinit; cbn; lia|].
    intros s' Hs'. split; [done|]. intros s'' Hr. eapply range_stable; [|idtac|exact Hr|exact Hs']; [cbn; lia|lia].
  - change 0 with (Z.of_nat 0) at 1.
    apply (write1_ok resolve x w i size (Parent Rc Rp Q) 1 0 64 A B "1"); [done|lia|lia|done|done|done|done|lia|apply Hinit; cbn; lia|].
    intros s' Hs' s'' Hr (_ & _ & c & Hc & _ & Hb2).
    destruct (range_stable x w i size 0 0 64 "1" ∅ 1 A B s' s'' ltac:(lia) ltac:(lia) Hr Hs') as (Hd & Hf0 & c' & Hc' & _ & Hb1).
    rewrite Hc in Hc'. injection Hc' as <-. apply (Hk c); [|done|done]. exists {[w := (i, c)]}. split; [by rewrite map_fmap_singleton|].
    split; [done| |done]. intros n ->. by rewrite lookup_singleton_eq.
Qed.

Lemma concurrent_writes_ok k s : files ∅ s → (∀ s', wp k Alone s') → wp (concurrent_writes d1 d2 k) Alone s.
Proof.
  intros H Hk. unfold concurrent_writes, reap.
  assert (length huge = Z.to_nat (65536 * 2)) as Hlen by apply length_replicate.
  generalize dependent huge. intros data Hlen. call_ok.
  eapply (two_writers_ok _ _ _ data); [eassumption|decided|lia|]. intros c s1 H1 Ha Hb.
  do 4 (eapply checkread_ok; [apply _|eassumption|done|decided|done|apply lookup_singleton_eq|lia|done|]; clear dependent s1; intros s1 H1).
  apply Hk.
Qed.
End one_dir.

(** A listing changes nothing. *)
Lemma dircheck_alone (x d : bytes) (nf : nat) (k : prog) (σ : gmap bytes bytes) (s : posix) :
  left_files (λ _, True) x σ s → tester_dir d x → set_Forall listed (dom σ) → size σ = nf → (nf ≤ 1000)%nat →
  wp k Alone s → wp (dircheck d nf k) Alone s.
Proof.
  intros (Hdir & σ' & Eσ & Hf) Hd HX Hsz Hle Hk. unfold dircheck. intros s1 Hr r s2 Hs.
  assert (s1 = s) as ->. { inversion Hr as [|? ? ? []]. done. }
  cbn [posix_step] in Hs. cbv zeta in Hs. rewrite (td_self _ _ _ Hd), Hdir in Hs. destruct Hs as [-> (l & -> & Hnd & Hl)]. split; [done|].
  apply (dircheck_after resolve nf k l (dom σ)); [done|by rewrite size_dom|done|done| |done].
  intros n Hn. rewrite (Hl n Hn). change ([x] ++ [n]) with [x; n]. rewrite (Hf n I), <- Eσ, elem_of_dom, lookup_fmap. by rewrite !fmap_is_Some.
Qed.

Lemma separate_directories_ok x1 x2 d1 d2 k s :
  x1 ≠ x2 → tester_dir d1 x1 → tester_dir d2 x2 → own Alone (λ _, True) x1 ∅ s → own Alone (λ _, True) x2 ∅ s →
  (∀ s', wp k Alone s') → wp (separate_directories d1 d2 k) Alone s.
Proof.
  intros Hne Hd1 Hd2 H1 H2 Hk. unfold separate_directories, lab3c_createn, lab3c_unlinkn, lab3c_dircheck, reap.
  assert (∀ n n' : bytes, True → True → [x1; n] ≠ [x2; n']) as Ha by (intros n n' _ _ [= E]; done).
  eapply (wp_fork resolve (λ _, True) (λ _, True) x1 x2 Ha _ _ ∅ ∅ (clear (chars "xx") 99 0 (fill (chars "xx") 100 0 ∅)));
    [exact H1|exact H2| |].
  - intros m s1 Ho Hs1 Hend. call_ok. call_ok. by apply Hend.
  - intros m s1 Ho Hs1 Hreap. call_ok. call_ok. eapply Hreap; [eassumption|]. intros s4 (σ' & Eσ & [Hd Hf Hfd]) Hleft.
    eapply dircheck_alone; [split; [exact Hd|exists σ'; split; [exact Eσ|exact Hf]]|exact Hd1|decided|vm_compute; reflexivity|lia|].
    eapply dircheck_alone; [exact Hleft|exact Hd2|decided|vm_compute; reflexivity|lia|]. apply Hk.
Qed.

(** ** The programs *)

(** [arg] is a mount point of the file system. *)
Record mount_point (arg : bytes) : Prop := {
  mp_dir x : slash ∉ x → resolve (path arg x) = [x];
  mp_file x f : slash ∉ x → slash ∉ f → resolve (path (path arg x) f) = [x; f];
  mp_len : (length arg ≤ 300)%nat }.

(** Entries are in directories, the process has nothing open, and there is
    nothing of the name [x] yet. *)
Definition ready (x : bytes) (s : posix) : Prop :=
  px_nodes s !! [] = Some Dir ∧ px_fds s 0%nat = ∅ ∧
  (∀ y n, is_Some (px_nodes s !! [y; n]) → px_nodes s !! [y] = Some Dir) ∧ px_nodes s !! [x] = None.

Lemma show_digits_length fuel z : (length (show_digits fuel z) ≤ fuel)%nat.
Proof.
  revert z. induction fuel as [|fuel IH]; intros z; cbn; [lia|]. destruct (z <? 10); cbn; [lia|].
  rewrite length_app. cbn. specialize (IH (z / 10)). lia.
Qed.

Lemma show_no_slash z : 0 ≤ z < 2 ^ 64 → slash ∉ show_unsigned z.
Proof.
  intros Hz Hin. destruct (show_unsigned_spec z Hz) as (Hd & _ & _). by apply (proj1 (Forall_forall _ _) Hd) in Hin.
Qed.

Lemma mounted_dir arg x : mount_point arg → slash ∉ x → (length x ≤ 50)%nat → tester_dir (path arg x) x.
Proof.
  intros [H1 H2 H3] Hx Hl. split; [auto|auto|]. unfold path. rewrite length_app. cbn. lia.
Qed.

Lemma sprintf_mounted arg x k m s :
  mount_point arg → (length x ≤ 50)%nat → wp (k (path arg x)) m s → wp (sprintf 512 (path arg x) k) m s.
Proof.
  intros [_ _ H3] Hl Hk. unfold sprintf. destruct (Nat.ltb_spec (length (path arg x)) 512) as [_|Hlt]; [done|].
  unfold path in Hlt. rewrite length_app in Hlt. cbn in Hlt. lia.
Qed.

(** A call of a process alone. *)
Lemma wp_alone c (k : answer c → prog) s :
  (∀ r s', posix_step resolve 0 s c r s' → wp (k r) Alone s') → wp (Call c k) Alone s.
Proof.
  intros Hk s1 Hr r s2 Hs. assert (s1 = s) as ->. { inversion Hr as [|? ? ? []]. done. } split; [done|]. by apply Hk.
Qed.

Lemma mkdir_ok arg x k s :
  mount_point arg → slash ∉ x → ready x s →
  (own Alone (λ _, True) x ∅ (set_node [x] Dir s) → wp (k 0) Alone (set_node [x] Dir s)) →
  wp (mkdir (path arg x) (λ r _, k r)) Alone s.
Proof.
  intros [Hm _ _] Hx (Hroot & Hfd & Htree & Hnone) Hk. apply wp_alone. intros [r e] s' Hs. cbn [posix_step] in Hs. cbv zeta in Hs.
  rewrite (Hm x Hx), Hnone in Hs. destruct Hs as [(_ & Hr & ->)|[Hin _]]; [|by destruct Hin]. cbn [fst] in Hr. subst r.
  apply Hk. apply own_intro; [apply lookup_insert_eq|done|]. intros n. rewrite lookup_empty. unfold set_node. cbn.
  rewrite lookup_insert_ne by done. destruct (px_nodes s !! [x; n]) eqn:E; [|done].
  rewrite (Htree x n) in Hnone; [done|by eexists].
Qed.

Lemma access_ok p k s :
  is_Some (px_nodes s !! resolve p) → wp (k 0) Alone s → wp (access p (λ r _, k r)) Alone s.
Proof.
  intros Hp Hk. apply wp_alone. intros [r e] s' Hs. cbn [posix_step] in Hs. rewrite bool_decide_eq_true_2 in Hs by done.
  cbn [fst] in Hs. destruct Hs as [-> ->]. exact Hk.
Qed.

Lemma lab3b_wp pid arg0 arg1 arg2 s :
  0 ≤ pid < 2 ^ 31 → mount_point arg1 → mount_point arg2 → ready ("d"%char :: show_unsigned pid) s →
  wp (lab3b_main pid [arg0; arg1; arg2]) Alone s.
Proof.
  intros Hpid H1 H2 Hs. unfold lab3b_main. set (x := "d"%char :: show_unsigned pid) in *.
  assert (slash ∉ x) as Hx. { apply not_elem_of_cons. split; [done|]. apply show_no_slash. lia. }
  assert (length x ≤ 50)%nat as Hl by (pose proof (show_digits_length 20 pid); unfold x, show_unsigned; cbn [length]; lia).
  pose proof (mounted_dir arg1 x H1 Hx Hl) as Hd1. pose proof (mounted_dir arg2 x H2 Hx Hl) as Hd2.
  apply sprintf_mounted; [done|done|]. eapply mkdir_ok; [done|done|done|]. intros Ho. cbn [Z.eqb negb].
  apply sprintf_mounted; [done|done|]. apply (access_ok _ (λ r, if negb (r =? 0) then Exit 1 else _)).
  { rewrite (mp_dir _ H2 x Hx). by exists Dir; apply lookup_insert_eq. }
  cbn [Z.eqb negb]. set (d1 := path arg1 x) in *. set (d2 := path arg2 x) in *. generalize dependent (set_node [x] Dir s). intros s0 H0.
  eapply create_then_read_ok; [done|done|exact H0|]. intros s1 Hs1.
  eapply unlink_test_ok; [done|done|exact Hs1|]. intros s2 Hs2.
  eapply append_test_ok; [done|done|exact Hs2|]. intros s3 Hs3.
  eapply readdir_test_ok; [done|done|exact Hs3|]. intros s4 Hs4.
  eapply many_creates_ok; [done|done|exact Hs4|]. intros s5 Hs5.
  eapply big_write_ok; [done|done|exact Hs5|]. intros s6 Hs6.
  eapply concurrent_creates_ok; [done|done|exact Hs6|]. intros s7 Hs7.
  eapply same_file_creates_ok; [done|done|exact Hs7|]. intros s8 Hs8.
  eapply create_delete_ok; [done|done|exact Hs8|]. intros s9 Hs9.
  eapply same_server_creates_ok; [done|exact Hs9|]. intros s10 Hs10.
  eapply concurrent_writes_ok; [done|done|exact Hs10|]. intros s11. by split.
Qed.

Lemma ready_after x y s : x ≠ y → ready x s → ready y s → ready y (set_node [x] Dir s).
Proof.
  intros Hne (Hroot & Hfd & Htree & Hx) (_ & _ & _ & Hy). split_and!; cbn; [by rewrite lookup_insert_ne|done| |].
  - intros z n. rewrite lookup_insert_ne by done. intros Hz%Htree. destruct (decide (z = x)) as [->|]; [apply lookup_insert_eq|].
    by rewrite lookup_insert_ne by congruence.
  - by rewrite lookup_insert_ne by congruence.
Qed.

(** A new directory is still empty when there is another one. *)
Lemma own_after x y s : x ≠ y → own Alone (λ _, True) x ∅ s → own Alone (λ _, True) x ∅ (set_node [y] Dir s).
Proof.
  intros Hne (σ & E & [Hd Hf Hfd]). exists σ. split; [done|]. split; cbn; [by rewrite lookup_insert_ne by congruence| |done].
  intros n Hn. rewrite lookup_insert_ne by done. auto.
Qed.

Lemma lab3c_wp pid arg0 arg1 arg2 s :
  0 ≤ pid < 2 ^ 31 → mount_point arg1 → mount_point arg2 →
  ready (chars "da" ++ show_unsigned pid) s → ready (chars "db" ++ show_unsigned pid) s →
  wp (lab3c_main pid [arg0; arg1; arg2]) Alone s.
Proof.
  intros Hpid H1 H2 Ha Hb. unfold lab3c_main. set (xa := chars "da" ++ show_unsigned pid) in *. set (xb := chars "db" ++ show_unsigned pid) in *.
  assert (slash ∉ show_unsigned pid) as Hs by (apply show_no_slash; lia).
  assert (slash ∉ chars "da") as Ha' by decided. assert (slash ∉ chars "db") as Hb' by decided.
  assert (slash ∉ xa) as Hxa by (unfold xa; rewrite elem_of_app; by intros [?|?]).
  assert (slash ∉ xb) as Hxb by (unfold xb; rewrite elem_of_app; by intros [?|?]).
  assert (xa ≠ xb) as Hne by done.
  assert (length xa ≤ 50 ∧ length xb ≤ 50)%nat as [Hla Hlb].
  { pose proof (show_digits_length 20 pid). unfold xa, xb, show_unsigned. rewrite !length_app. cbn [chars length]. lia. }
  apply sprintf_mounted; [done|done|]. eapply mkdir_ok; [done|done|exact Ha|]. intros Hoa. cbn [Z.eqb negb].
  apply sprintf_mounted; [done|done|]. eapply mkdir_ok; [done|done|by apply ready_after|]. intros Hob. cbn [Z.eqb negb].
  apply sprintf_mounted; [done|done|]. apply (access_ok _ (λ r, if negb (r =? 0) then Exit 1 else _)).
  { rewrite (mp_dir _ H2 xa Hxa). exists Dir. cbn. rewrite lookup_insert_ne by congruence. apply lookup_insert_eq. }
  cbn [Z.eqb negb].
  eapply (separate_directories_ok xa xb); [done|by apply mounted_dir|by apply mounted_dir|by apply own_after|exact Hob|by split].
Qed.
End tests.

(** ** The testers pass *)

(** C9: The tester test-lab-3-b passes.  On every coherent file system, mounted at both
    arguments, every run of the tester ends, whatever order the calls of its
    process and its children are executed in, and it ends with [exit(0)]: no
    check fails, no buffer overflows and no child exits unhappily. *)
Theorem test_lab_3_b_passes {W} `{FileSystem W} resolve `{!Coherent W resolve} pid arg0 arg1 arg2 (w : W) :
  0 ≤ pid < 2 ^ 31 → mount_point resolve arg1 → mount_point resolve arg2 →
  ready ("d"%char :: show_unsigned pid) (fs_view w) →
  passes (Conf (lab3b_main pid [arg0; arg1; arg2]) None w).
Proof. intros Hpid H1 H2 Hs. apply (joint_passes resolve). by apply lab3b_wp. Qed.

(** The tester test-lab-3-c passes, in the same sense: two processes create and
    remove files in directories of their own at the same time. *)
Theorem test_lab_3_c_passes {W} `{FileSystem W} resolve `{!Coherent W resolve} pid arg0 arg1 arg2 (w : W) :
  0 ≤ pid < 2 ^ 31 → mount_point resolve arg1 → mount_point resolve arg2 →
  ready (chars "da" ++ show_unsigned pid) (fs_view w) → ready (chars "db" ++ show_unsigned pid) (fs_view w) →
  passes (Conf (lab3c_main pid [arg0; arg1; arg2]) None w).
Proof. intros Hpid H1 H2 Ha Hb. apply (joint_passes resolve). by apply lab3c_wp. Qed.

(** ** What the testers do not notice *)

Lemma strncmp_prefix n : ∀ a b, take n a = take n b → strncmp n a b = 0.
Proof.
  induction n as [|n IH]; intros [|c a] [|d b]; try done. cbn. intros [= -> E]. rewrite bool_decide_eq_true_2 by done.
  case_bool_decide; auto.
Qed.

(** [check1] compares as many characters as the path of the file has: a
    file of the right length whose contents differ after those is accepted. *)
Theorem check1_accepts_wrong_tail resolve m (O : bytes → Prop) x `{!Owns m O x} d f inp c k σ s :
  own m O x σ s → tester_dir resolve d x → good_name f → O f → σ !! f = Some c →
  length c = length inp → Z.of_nat (length inp) < 21000 → take (length (path d f)) c = take (length (path d f)) inp →
  (∀ s', own m O x σ s' → wp resolve k m s') → wp resolve (check1 d f inp k) m s.
Proof.
  intros Ho Hd Hf HO Hσ Hlen Hbuf Htake Hk. unfold check1, check1_buf. eapply wp_sprintf; [done|done|]. intros Ep.
  eapply wp_open_read; [done|done|done|done|done| | |]; [|intros fd e Hfd; by replace (fd <? 0) with false by lia|].
  { lia. }
  intros fd F s' σ' Eσ H' EF [o HF]. cbv beta iota. rewrite Hlen, Z.eqb_refl. cbn [negb].
  eapply wp_close; [done|exact H'|done|]. intros e s2 H2. rewrite strncmp_prefix; [cbn [Z.eqb negb]; apply Hk; exists σ'; split; [done|]; by rewrite EF in H2|].
  rewrite !take_app, Htake, Hlen. done.
Qed.

(** A directory with more than 1000 entries makes [dircheck] store behind
    the end of its array. *)
Theorem dircheck_overflows resolve d nf k s p l :
  resolve d = p → px_nodes s !! p = Some Dir → (1000 < length (List.filter visible l))%nat → NoDup (List.filter visible l) →
  (∀ n, visible n = true → n ∈ l ↔ is_Some (px_nodes s !! (p ++ [n]))) → ¬ wp resolve (dircheck d nf k) Alone s.
Proof.
  intros Ep Hdir Hlen Hnd Hl Hwp. destruct (Hwp s (rtc_refl _ _) (Some l) s) as [_ Hk].
  { cbn [posix_step pid_of]. cbv zeta. rewrite Ep, Hdir. split; [done|]. by exists l. }
  cbv zeta beta iota in Hk. by replace (1000 <? length (List.filter visible l))%nat with true in Hk by (symmetry; apply Nat.ltb_lt; lia).
Qed.

(** ** A file system that is coherent *)

(** The components of a path, without the first two: [/a/x/y] is [x/y] on
    the file system mounted at [/a]. *)
Fixpoint split_slash (p : bytes) : list bytes :=
  match p with
  | [] => [[]]
  | c :: p =>
      if bool_decide (c = slash) then [] :: split_slash p
      else match split_slash p with w :: ws => (c :: w) :: ws | [] => [[c]] end
  end.
Definition demo_resolve (p : bytes) : fpath := drop 2 (split_slash p).

Lemma split_slash_name w : slash ∉ w → split_slash w = [w].
Proof.
  induction w as [|c w IH]; [done|]. intros [Hc Hw]%not_elem_of_cons. cbn. rewrite bool_decide_eq_false_2 by congruence.
  by rewrite IH.
Qed.

Lemma split_slash_app w p : slash ∉ w → split_slash (w ++ slash :: p) = w :: split_slash p.
Proof.
  induction w as [|c w IH]; intros Hn; cbn [app split_slash]; [by rewrite bool_decide_eq_true_2|].
  apply not_elem_of_cons in Hn as [Hc Hw]. rewrite bool_decide_eq_false_2 by congruence. by rewrite IH.
Qed.

Lemma demo_mounted c : c ≠ slash → mount_point demo_resolve [slash; c].
Proof.
  intros Hc. assert (slash ∉ [c]) as Hn by (rewrite list_elem_of_singleton; congruence).
  assert (∀ p, demo_resolve ([slash; c] ++ slash :: p) = split_slash p) as E.
  { intros p. unfold demo_resolve. change ([slash; c] ++ slash :: p) with ([] ++ slash :: ([c] ++ slash :: p)).
    rewrite !split_slash_app; [done|done|by apply not_elem_of_nil]. }
  split; [| |cbn; lia].
  - intros x Hx. unfold path. by rewrite E, split_slash_name.
  - intros x f Hx Hf. unfold path. rewrite <- (assoc_L (++)). cbn [app]. change (slash :: c :: slash :: ?r) with ([slash; c] ++ slash :: r).
    by rewrite E, split_slash_app, split_slash_name.
Qed.

Lemma fresh_fd (F : gmap Z openfile) : ∃ fd, 0 ≤ fd ∧ F !! fd = None.
Proof.
  set (X := set_map Z.to_nat (dom F) : gset nat). exists (Z.of_nat (fresh X)). split; [lia|].
  apply not_elem_of_dom. intros Hin. apply (is_fresh X). apply elem_of_map. exists (Z.of_nat (fresh X)). by rewrite Nat2Z.id.
Qed.

Lemma fresh_ino (s : posix) p : ∃ i, ∀ q fd o, (q ≤ 1)%nat → px_fds s q !! fd = Some o → of_path o = p → of_ino o ≠ i.
Proof.
  set (X := map_to_set (λ _ o, of_ino o) (px_fds s 0%nat) ∪ map_to_set (λ _ o, of_ino o) (px_fds s 1%nat) : gset nat).
  exists (fresh X). intros q fd o Hq E _ Hi. apply (is_fresh X). rewrite <- Hi. apply elem_of_union.
  assert (q = 0 ∨ q = 1)%nat as [->| ->] by lia; [left|right]; apply elem_of_map_to_set; eauto.
Qed.

Definition child_name (p q : fpath) : option bytes :=
  match last q with Some n => if bool_decide (q = p ++ [n]) then Some n else None | None => None end.

Lemma child_name_Some p q n : child_name p q = Some n ↔ q = p ++ [n].
Proof.
  unfold child_name. destruct (last q) as [n'|] eqn:E; [case_bool_decide as Hq|].
  - split; [by intros [= <-]|]. intros ->. apply app_inj_2 in Hq as [_ [= ->]]; done.
  - split; [done|]. intros ->. rewrite last_snoc in E. injection E as <-. done.
  - split; [done|]. intros ->. by rewrite last_snoc in E.
Qed.

Lemma listing (s : posix) p : ∃ l, NoDup (List.filter visible l) ∧
  ∀ n, visible n = true → n ∈ l ↔ is_Some (px_nodes s !! (p ++ [n])).
Proof.
  exists (elements (set_omap (child_name p) (dom (px_nodes s)) : gset bytes)). split.
  - apply NoDup_ListNoDup, List.NoDup_filter, NoDup_ListNoDup, NoDup_elements.
  - intros n _. rewrite elem_of_elements, elem_of_set_omap. setoid_rewrite child_name_Some. setoid_rewrite elem_of_dom.
    split; [by intros (q & Hq & ->)|]. intros Hn. by exists (p ++ [n]).
Qed.

Lemma opens_total pid p i app s : ∃ r s', opens pid p i app s r s'.
Proof.
  destruct (fresh_fd (px_fds s pid)) as (fd & Hfd & Hn). by exists (fd, 0), (set_fd pid fd (OpenFile p i 0 app) s).
Qed.

Lemma makes_total pid p app s : in_dir p s ∨ ¬ in_dir p s → ∃ r s',
  (in_dir p s ∧ makes pid p app s r s') ∨ (¬ in_dir p s ∧ failed r ∧ s' = s).
Proof.
  intros [Hin|Hin]; [|exists (-1, 0), s; right; done]. destruct (fresh_ino s p) as (i & Hi).
  destruct (opens_total pid p i app (set_node p (File i []) s)) as (r & s' & Ho). exists r, s'. left. split; [done|]. by exists i.
Qed.

Lemma in_dir_dec p s : in_dir p s ∨ ¬ in_dir p s.
Proof. unfold in_dir. destruct (px_nodes s !! removelast p) as [[]|]; [by left|by right..]. Qed.

Lemma posix_total resolve pid s c : ∃ r s', posix_step resolve pid s c r s'.
Proof.
  destruct c as [p|p flags|fd count|fd buf|fd off|fd|fd|p|p|p|p]; cbn [posix_step]; cbv zeta.
  - destruct (px_nodes s !! resolve p) as [[|i c]|]; [by exists (-1, 0), s| |apply makes_total, in_dir_dec].
    destruct (opens_total pid (resolve p) i false (set_node (resolve p) (File i []) s)) as (r & s' & Ho). exists r, s'. by left.
  - destruct (px_nodes s !! resolve p) as [[|i c]|]; [by exists (-1, 0), s| |].
    + destruct (opens_total pid (resolve p) i (has_flag flags O_APPEND) s) as (r & s' & Ho). exists r, s'. by left.
    + destruct (has_flag flags O_CREAT); [apply makes_total, in_dir_dec|by exists (-1, 0), s].
  - destruct (open_data s pid fd) as [[o c]|]; [by eexists _, _|by exists None, s].
  - destruct (open_data s pid fd) as [[o c]|]; [by exists (Z.of_nat (length buf), 0); eexists|by exists (-1, 0), s].
  - destruct (px_fds s pid !! fd) as [o|]; [case_bool_decide; [by exists (off, 0); eexists|]|]; by exists (-1, 0), s.
  - case_bool_decide; [by exists (0, 0), s|by exists (-1, 0), s].
  - destruct (px_fds s pid !! fd); [by exists (0, 0); eexists|by exists (-1, 0), s].
  - destruct (px_nodes s !! resolve p) as [[|i c]|]; [by exists (-1, 0), s|by exists (0, 0); eexists|by exists (-1, 0), s].
  - destruct (px_nodes s !! resolve p) as [[|i c]|]; [|by exists None, s..].
    destruct (listing s (resolve p)) as (l & Hl). exists (Some l), s. split; [done|]. by exists l.
  - destruct (px_nodes s !! resolve p) as [nd|]; [by exists (-1, 0), s|].
    destruct (in_dir_dec (resolve p) s); [exists (0, 0); eexists; by left|exists (-1, 0), s; by right].
  - case_bool_decide; [by exists (0, 0), s|by exists (-1, 0), s].
Qed.

Definition demo_fs : FileSystem posix := {| fs_call := posix_step demo_resolve; fs_fork := fork_fds |}.
#[local] Existing Instance demo_fs.
Definition demo_coherent : Coherent posix demo_resolve.
Proof. refine {| fs_view := λ s, s |}; [done|apply posix_total|done]. Defined.
#[local] Existing Instance demo_coherent.

Definition demo_tree : posix := Posix {[ [] := Dir ]} (λ _, ∅).

Lemma demo_ready x : ready x demo_tree.
Proof.
  split_and!; [done|done| |by apply lookup_singleton_ne]. intros y n. cbn. rewrite lookup_singleton_ne by done. by intros [? ?].
Qed.

Lemma test_lab_3_b_passes_witness :
  passes (Conf (lab3b_main 7 [chars "test-lab-3-b"; chars "/a"; chars "/b"]) None demo_tree).
Proof.
  apply (test_lab_3_b_passes demo_resolve 7 (chars "test-lab-3-b") (chars "/a") (chars "/b") demo_tree);
    [lia|by apply demo_mounted|by apply demo_mounted|apply demo_ready].
Defined.

Lemma test_lab_3_c_passes_witness :
  passes (Conf (lab3c_main 7 [chars "test-lab-3-c"; chars "/a"; chars "/b"]) None demo_tree).
Proof.
  apply (test_lab_3_c_passes demo_resolve 7 (chars "test-lab-3-c") (chars "/a") (chars "/b") demo_tree);
    [lia|by apply demo_mounted|by apply demo_mounted|apply demo_ready|apply demo_ready].
Defined.
